(* ===== verification/_CoqProject ===== *)
-Q . S2P
Prelude.v
Layout.v
Bits.v
Bitmap.v
Array.v
Page.v
Atomic.v
Cast.v
Spinlock.v
Containers.v
Memory.v
Boot.v
Linked.v
Pmm.v
Radix.v
RadixFacts.v
Cpu.v
Paging.v
Mmu.v
Vmm.v
VmmFacts.v
KernelSpace.v
Heap.v
HeapFacts.v
Registry.v
Lifecycle.v
LifecycleFacts.v
DriverModule.v
DriverModuleFacts.v
LongDouble.v
Format.v
Emit.v
FloatFacts.v
FormatGrammar.v
FormatFacts.v
FloatProperties.v
Multiboot2.v
Multiboot2Facts.v
InitGraph.v
InitGraphFacts.v
BootPlan.v
Acpi.v
AcpiFacts.v
Descriptors.v
Exceptions.v
DescriptorsFacts.v
PanicFacts.v
Lapic.v
LapicFacts.v
Core.v
CoreFacts.v
Runtime.v
RuntimeFacts.v
Serial.v
SerialFacts.v
Kernel.v
KernelFacts.v
KernelExample.v
Posix.v
PosixFacts.v
PosixProperties.v
PosixMemory.v
PosixMemoryFacts.v
PosixStubs.v
Random.v
Services.v
Structs.v
