(* ===== verification/Prelude.v ===== *)
(** * DoomOS: a verification development of the kernel

    The repository is a unikernel for x86-64 in C++: a Multiboot2 loader hands over to [kernel_main]
    ([src/kernel/kernel.cpp]), which starts the components of the kernel in the order of their declared
    dependencies, and then the application.  This library models the C++ of [src/kernel], [src/arch],
    [src/platform], [src/posix] and [src/include/uk] as executable definitions and proves what they promise.  This first
    file is also the prelude: integers, outcomes, the monad, loops, arrays, weakest preconditions.

    ** How the source is read

    - A computation of type [kernel S A] acts on the state [S] of its component and ends in an [outcome]:
      [Ret], [Panic] with the message of [KPANIC], [Undefined] where C++ says so (an index out of range, a
      read of unmapped memory, a template a [static_assert] rejects), or [Diverge], a loop out of fuel.
      [wp m Q s] is total correctness: it excludes the last three, so that every theorem stated with [wp]
      says that the code returns, stays in bounds and does not panic.
    - An unsigned integer of width [w] is a [Z], each operation that can leave the range followed by
      [wrap w].  [Result<T, E>] is [Result], [KTRY] is [ktry], an array is a list with [array_get] and
      [array_set], a reference to an object is a computation on a part of the state ([zoom]).
    - Fuel is given to [while] loops and to the recursions the source bounds by data.  Each is enough:
      the number of slots of a table ([Lifecycle.visit]), the bytes left of a structure ([Multiboot2],
      [Acpi]), the characters left of a format ([Format], [Emit]), the nesting of templates ([InitGraph],
      where the compiler's limit is the fuel), the digits of a word, the bytes asked for ([Random]).  Only a
      poll of a device has its fuel as an argument ([Lapic.send_ipi], [Serial.write_char]), and its theorem
      says how much the device needs.
    - Hardware, linker symbols, drivers and third-party code are parameters, as classes:
      [Cpu.machine], [Pmm.layout], [Mmu.image], [Registry.registry], [Lifecycle.driver_code], [DriverModule.toolchain],
      [BootPlan.platform_code], [Descriptors.core_objects], [Exceptions.exception_stubs],
      [Lapic.apic_device], [Serial.port_device], [Random.random_source], [Heap.heap_code] (the allocator behind
      the kernel heap).  Memory that others laid out is a partial function from addresses to bytes.

    ** The parts, from the bottom up (paths under [src/])

    - [Bits], [Bitmap], [Array], [Containers]: [kernel/core/utils].  Every operation is specified on an abstract
      view (the value of each bit, the contents of the string or vector).
    - [Cast]: [kernel/core/cast.hpp], the operator [as]: which conversion it picks, that it keeps a pointer through an
      integer and its qualifiers, and what it refuses.  The other files write [x as(T)] as the conversion picked.
    - [Atomic], [Spinlock]: [kernel/sync].  The atomics' encodings and orders; the lock as a scope for its
      callers, and as a step relation for several threads: mutual exclusion, and serialisability of
      the scopes ([mutual_exclusion], [critical_sections_serialisable]).
    - [Layout]: [config/layout.h], the windows of the address space, which are apart.
    - [Page], [Boot]: [kernel/mm/page.hpp], [kernel/boot].  The boot information and the interface
      [boot_protocol], which [Multiboot2] ([kernel/boot/multiboot2]) implements: a refinement theorem
      says that parsing a well-formed structure yields the description of its tags and that a
      malformed one is refused ([boot_parse_correct], [handoff_well_formed_correct]).
    - [Pmm] (over [Linked]): [kernel/mm/pmm.cpp].  The invariant [Pmm.ready] ties the bitmap, the counts and the
      two lists; population, allocation, release and their round trip are stated on the set of free
      frames.
    - [Radix], [RadixFacts]: [arch/common/mmu].  The page-table tree over two interfaces, a page format and
      an environment, each with its laws; the operations are proved once, on the translation the tree
      denotes.  [Paging] and [Mmu] ([arch/x86_64/mmu]) discharge the laws and give the theorems about
      the kernel's tables ([map_range_correct] and its companions).
    - [Vmm], [VmmFacts]: [kernel/mm/vmm.cpp].  Areas, backed page by page by frames; [vmm_ok] ties the sorted
      table, the page tables and the allocator.  OUT_OF_MEMORY is only reported when the table is full, when no gap
      of the area is large enough, or when the block and the page tables for it need more frames than are
      free; a block that is freed gives back its frames and the tables that become empty.
    - [KernelSpace]: how [arch/x86_64/mmu/mmu.cpp] builds the first tree in tables of the image: its words, the
      translation they denote ([first_translation]), and the view once the image is protected
      ([init_kernel_space_correct]): nothing is writable and executable ([kernel_space_protected]).
      [memory_starts] composes the allocator, the address space and the manager.
    - [Heap], [HeapFacts]: [kernel/mm/kheap.cpp].  What the third-party allocator asks of the system is a class
      ([os_memory]) whose laws the virtual memory manager discharges; what it documents is another
      ([heap_code_laws]), which has a model.  [heap_blocks_separate]: nobody is given memory that is in use.
    - [Cpu], [Descriptors], [Exceptions], [Lapic], [Core]: [arch/x86_64].  Registers and a log of privileged
      instructions; the tables of a core; the dispatch of a trap; the interrupt controller; and a core
      put together.  [DescriptorsFacts] defines how the processor decodes the tables and delivers an
      exception, and [CoreFacts.init_core_correct] says that a started core delivers each one where it
      should.  Device memory is mapped through the interface [Lapic.mmio_window], whose laws
      [LapicFacts] discharges from [VmmFacts].
    - [Acpi]: [kernel/acpi].  The root pointer, the lookup of tables and the list of controllers.
    - [Registry], [Lifecycle]: [include/uk] and [kernel/device/lifecycle.cpp].  The registry of drivers, their
      depth-first start and their stop; [init_all_correct] states the order, the failures and what is
      registered, over the state of the outside world: each entry point is called on the state that
      its predecessors left.  [DriverModule]: the macros of [uk/module.hpp] by which drivers declare themselves, and the
      registry that the linker makes of them, for any addresses and any order of the records (class
      [toolchain]); [declared_drivers_start] goes from the declarations to the drivers that run.
    - [Format], [Emit]: [kernel/debug].  [KPRINT] as the compiler checks it and as it runs; the specification is
      the syntax of a field as text ([FormatGrammar], with no reference to the parser), a grammar of formats
      over it and a rendering ([parse_format_correct], [kprint_correct]).  [LongDouble] is the compiler's type:
      [FloatFacts] and [FloatProperties] bound the distance of a printed number from its value
      ([fixed_float_correct]).  [PanicFacts]: the report of a panic and of each exception, as text.
    - [Runtime]: [kernel/runtime].  The memory functions over any memory with an access to bytes ([byte_access]); the
      guards of static variables, also as a step relation for several threads ([static_initialised_once]).
    - [Serial]: [arch/x86_64/serial].  Port accesses, against a model of the line's controller; printing with the
      console attached reaches the line ([kprint_reaches_line]).
    - [Posix], [PosixMemory], [PosixStubs], [Random]: the application's interface ([src/posix], [kernel/fs/posix],
      [kernel/mm/posix], [kernel/runtime/posix], [kernel/time/posix], [kernel/random/posix]).  Files are a finite map
      from descriptors to contents and positions, which the descriptor table represents ([represents]); memory
      calls are stated on the areas and pages of the manager; each fallback reports once.
    - [Services]: [kernel/device/services.cpp], what drivers may call, over the parts above.
    - [Structs]: the layout of every structure shared with the loader, the firmware, the processor and the
      applications, as the ABI prescribes it: sound in general ([layout_sound]), as the [static_assert]s say,
      and what the readers of the other files use ([multiboot2_readers], [acpi_readers]).
    - [InitGraph], [BootPlan]: [kernel/init], [platform/pc/boot_plan.hpp], [kernel/kernel.cpp].  The order of the
      components ([init_order_correct]) and what [kernel_main] does with it.
    - [Kernel], [KernelFacts], [KernelExample]: the whole.  The state of the kernel is that of its parts (one processor,
      shared by the core and the memory); each component's [init] acts on its part; [kernel_main] runs over them.
      [reached] says what holds after some components have started, each [starts_x] takes it one component
      further, and [kernel_starts] is the conclusion: from a machine in its first state the application starts with
      every part in order, or the kernel halts for a named cause, and the serial line has told which.

    A file [XFacts] holds the invariants, lemmas and theorems about the definitions of [X]; smaller
    parts keep both in one file.  A lemma [wp_f] is the rule of the operation [f]; a theorem [f_correct] states
    its behaviour for readers; [f_correct_witness] applies it at concrete values.

    ** Not modelled

    Assembly (boot, trap entry, context) and the linker script; alignment of accesses and weak memory (atomics
    are sequentially consistent here); the third-party allocator, result and reflection libraries, musl and
    the applications; the type traits and concepts that restrict templates; copies of accessors that differ in
    [const] only. Drivers and applications live outside the repository. Interrupts never return to what they
    interrupted: every handler of the source ends in a panic. There is one core: the source has no code that
    starts another. *)

From stdpp Require Export base numbers list option strings gmap.
From Stdlib Require Export ZArith Lia Btauto.

#[global] Set Default Goal Selector "!".
#[global] Open Scope Z_scope.

(** ** Fixed-width unsigned integers

    A [w]-bit unsigned value is a [Z] in [0, 2^w).  Every operation of the source that can leave
    that range is followed by [wrap w], the conversion to the unsigned type of width [w]. *)

Definition wrap (w x : Z) : Z := x mod 2 ^ w.

Definition u8 (x : Z) : Z := wrap 8 x.
Definition u16 (x : Z) : Z := wrap 16 x.
Definition u32 (x : Z) : Z := wrap 32 x.
Definition u64 (x : Z) : Z := wrap 64 x.

(** [~x] on an unsigned type of width [w]. *)
Definition bnot (w x : Z) : Z := wrap w (Z.lnot x).

Definition in_width (w x : Z) : Prop := 0 <= x < 2 ^ w.

Lemma pow2_pos w : 0 <= w -> 0 < 2 ^ w.
Proof. intros. apply Z.pow_pos_nonneg; lia. Qed.

Lemma wrap_range w x : 0 <= w -> in_width w (wrap w x).
Proof. intros Hw. apply Z.mod_pos_bound, pow2_pos, Hw. Qed.

Lemma wrap_small w x : in_width w x -> wrap w x = x.
Proof. apply Z.mod_small. Qed.

Lemma testbit_wrap w x i : 0 <= w -> Z.testbit (wrap w x) i = (i <? w) && Z.testbit x i.
Proof. apply Z.testbit_mod_pow2. Qed.

Lemma testbit_bnot w x i :
  0 <= w -> 0 <= i -> Z.testbit (bnot w x) i = (i <? w) && negb (Z.testbit x i).
Proof.
  intros Hw Hi. unfold bnot. by rewrite testbit_wrap, Z.lnot_spec by lia.
Qed.

Lemma bnot_range w x : 0 <= w -> in_width w (bnot w x).
Proof. apply wrap_range. Qed.

(** A value fits a width exactly when its high bits are clear. *)
Lemma in_width_testbit w x :
  0 <= w -> 0 <= x -> (in_width w x <-> forall i, w <= i -> Z.testbit x i = false).
Proof.
  intros Hw Hx. split.
  - intros [_ Hlt] i Hi. destruct (Z.eq_dec x 0) as [->|]; [apply Z.bits_0|].
    apply Z.bits_above_log2; [lia|].
    assert (Z.log2 x < w) by (apply Z.log2_lt_pow2; lia). lia.
  - intros Hbits. split; [lia|].
    destruct (Z.eq_dec x 0) as [->|]; [apply pow2_pos, Hw|].
    apply Z.log2_lt_pow2; [lia|].
    destruct (Z_lt_le_dec (Z.log2 x) w) as [|Hge]; [done|].
    pose proof (Z.bit_log2 x ltac:(lia)) as Htop. by rewrite Hbits in Htop.
Qed.

Lemma in_width_land w x y : in_width w x -> in_width w y -> 0 <= w -> in_width w (Z.land x y).
Proof.
  intros Hx [Hy _] Hw. apply in_width_testbit; [lia | apply Z.land_nonneg; left; apply Hx |].
  intros i Hi. rewrite Z.land_spec.
  rewrite (proj1 (in_width_testbit w x Hw (proj1 Hx)) Hx i Hi). done.
Qed.

Lemma in_width_lor w x y : in_width w x -> in_width w y -> 0 <= w -> in_width w (Z.lor x y).
Proof.
  intros Hx Hy Hw. apply in_width_testbit; [lia | apply Z.lor_nonneg; split; [apply Hx | apply Hy] |].
  intros i Hi. rewrite Z.lor_spec.
  by rewrite (proj1 (in_width_testbit w x Hw (proj1 Hx)) Hx i Hi),
    (proj1 (in_width_testbit w y Hw (proj1 Hy)) Hy i Hi).
Qed.

Lemma in_width_lxor w x y : in_width w x -> in_width w y -> 0 <= w -> in_width w (Z.lxor x y).
Proof.
  intros Hx Hy Hw. apply in_width_testbit; [lia | |].
  { apply Z.lxor_nonneg. split; intros _; [apply Hy | apply Hx]. }
  intros i Hi. rewrite Z.lxor_spec.
  by rewrite (proj1 (in_width_testbit w x Hw (proj1 Hx)) Hx i Hi),
    (proj1 (in_width_testbit w y Hw (proj1 Hy)) Hy i Hi).
Qed.

Lemma testbit_high w x i : in_width w x -> 0 <= w <= i -> Z.testbit x i = false.
Proof.
  intros Hx Hi. apply (proj1 (in_width_testbit w x ltac:(lia) (proj1 Hx)) Hx). lia.
Qed.

Lemma testbit_shiftl1 n i : 0 <= n -> Z.testbit (Z.shiftl 1 n) i = (i =? n).
Proof.
  intros Hn. rewrite Z.shiftl_1_l, Z.pow2_bits_eqb by lia. apply Z.eqb_sym.
Qed.

(** Two unsigned values of the same width are equal when their bits below the width are. *)
Lemma width_bits_inj w x y :
  0 <= w -> in_width w x -> in_width w y ->
  (forall i, 0 <= i < w -> Z.testbit x i = Z.testbit y i) -> x = y.
Proof.
  intros Hw Hx Hy Heq. apply Z.bits_inj'. intros i Hi.
  destruct (Z_lt_le_dec i w); [apply Heq; lia|].
  by rewrite (testbit_high w x), (testbit_high w y) by (done || lia).
Qed.

Lemma nonzero_has_bit x : 0 <= x -> x <> 0 -> exists i, 0 <= i /\ Z.testbit x i = true.
Proof.
  intros H0 Hx. exists (Z.log2 x). split; [apply Z.log2_nonneg | apply Z.bit_log2; lia].
Qed.

Create Rewrite HintDb bits.
#[export] Hint Rewrite Z.land_spec Z.lor_spec Z.lxor_spec Z.bits_0 : bits.
#[export] Hint Rewrite testbit_wrap testbit_bnot testbit_shiftl1 Z.shiftr_spec
  Z.lnot_spec Z.testbit_ones_nonneg Z.pow2_bits_eqb using lia : bits.

Create HintDb width discriminated.
#[export] Hint Resolve wrap_range bnot_range in_width_land in_width_lor in_width_lxor : width.
#[export] Hint Extern 1 (0 <= _) => lia : width.

(** Linear arithmetic with division and remainder. *)
Ltac div_lia := Z.to_euclidean_division_equations; lia.

(** Case analysis on the integer comparisons left by the bit rewriting. *)
Ltac destruct_comparisons :=
  repeat match goal with
  | |- context [?a <? ?b] => destruct (Z.ltb_spec a b)
  | |- context [?a <=? ?b] => destruct (Z.leb_spec a b)
  | |- context [?a =? ?b] => destruct (Z.eqb_spec a b)
  end.

(** Solve an equation between booleans built from comparisons and [Z.testbit]. *)
Ltac bool_solve :=
  autorewrite with bits; destruct_comparisons; subst; simpl;
  rewrite ?andb_true_r, ?andb_false_r, ?orb_false_r, ?orb_true_r; simpl;
  try done; try lia; try btauto.

(** ** Outcomes

    The source has three ways to leave a function: it returns, it calls [KPANIC] (which never
    returns), or it steps outside what C++ defines, for instance by indexing an array out of
    bounds.  [Diverge] is the outcome of a loop whose fuel ran out; theorems of termination say it
    does not occur. *)
Inductive outcome (A : Type) : Type :=
| Ret (a : A)
| Panic (message : string)
| Undefined
| Diverge.
Arguments Ret {A} a.
Arguments Panic {A} message.
Arguments Undefined {A}.
Arguments Diverge {A}.

(** A computation of the kernel over a state [S]. *)
Definition kernel (S A : Type) : Type := S -> outcome (A * S).

#[global] Instance kernel_ret S : MRet (kernel S) := fun A a s => Ret (a, s).

#[global] Instance kernel_bind S : MBind (kernel S) := fun A B f m s =>
  match m s with
  | Ret (a, s') => f a s'
  | Panic message => Panic message
  | Undefined => Undefined
  | Diverge => Diverge
  end.

Definition kpanic {S A} (message : string) : kernel S A := fun _ => Panic message.
Definition undefined {S A} : kernel S A := fun _ => Undefined.
Definition diverge {S A} : kernel S A := fun _ => Diverge.
Definition gets {S A} (f : S -> A) : kernel S A := fun s => Ret (f s, s).
Definition modify {S} (f : S -> S) : kernel S unit := fun s => Ret (tt, f s).

(** Run a computation over a part of the state. *)
Definition zoom {S T A} (get : S -> T) (set : T -> S -> S) (m : kernel T A) : kernel S A := fun s =>
  match m (get s) with
  | Ret (a, t) => Ret (a, set t s)
  | Panic message => Panic message
  | Undefined => Undefined
  | Diverge => Diverge
  end.

(** Run a computation on a separate object: a local copy, or a [const] argument. *)
Definition local {S T A} (t : T) (m : kernel T A) : kernel S (A * T) := fun s =>
  match m t with
  | Ret (a, t') => Ret ((a, t'), s)
  | Panic message => Panic message
  | Undefined => Undefined
  | Diverge => Diverge
  end.

Definition observe {S T A} (t : T) (m : kernel T A) : kernel S A :=
  r ← local t m; mret (fst r).

(** [Result<T, E>] of the source, and [KTRY], which returns the error of a failed call. *)
Inductive Result (T E : Type) : Type :=
| Ok (value : T)
| Err (error : E).
Arguments Ok {T E} value.
Arguments Err {T E} error.

Definition ktry {S T U E} (m : kernel S (Result T E)) (f : T -> kernel S (Result U E)) :
    kernel S (Result U E) :=
  r ← m;
  match r with
  | Ok value => f value
  | Err error => mret (Err error)
  end.

Declare Scope kernel_scope.
Delimit Scope kernel_scope with kernel.
Open Scope kernel_scope.

Notation "x ←? m ; k" := (ktry m (fun x => k))
  (at level 20, m at level 100, k at level 200, only parsing) : kernel_scope.

(** [if (b) m;] *)
Definition when {S} (b : bool) (m : kernel S unit) : kernel S unit := if b then m else mret tt.

(** ** Weakest preconditions

    [wp m Q s]: from [s], [m] returns, and its result and final state satisfy [Q].  It is a total
    correctness statement: a panic, an undefined step and divergence all falsify it. *)
Definition wp {S A} (m : kernel S A) (Q : A -> S -> Prop) (s : S) : Prop :=
  match m s with
  | Ret (a, s') => Q a s'
  | _ => False
  end.

Section WP.
Context {S : Type}.

Lemma wp_ret {A} (a : A) (Q : A -> S -> Prop) s : Q a s -> wp (mret a) Q s.
Proof. done. Qed.

Lemma wp_bind {A B} (m : kernel S A) (f : A -> kernel S B) Q s :
  wp m (fun a s' => wp (f a) Q s') s -> wp (m ≫= f) Q s.
Proof. unfold wp, mbind, kernel_bind. destruct (m s) as [[a s']| | |]; done. Qed.

Lemma wp_gets {A} (f : S -> A) (Q : A -> S -> Prop) s : Q (f s) s -> wp (gets f) Q s.
Proof. done. Qed.

Lemma wp_modify (f : S -> S) (Q : unit -> S -> Prop) s : Q tt (f s) -> wp (modify f) Q s.
Proof. done. Qed.

Lemma wp_mono {A} (m : kernel S A) (P Q : A -> S -> Prop) s :
  wp m P s -> (forall a s', P a s' -> Q a s') -> wp m Q s.
Proof. unfold wp. destruct (m s) as [[a s']| | |]; auto. Qed.

Lemma wp_zoom {T A} (get : S -> T) (set : T -> S -> S) (m : kernel T A) Q s :
  wp m (fun a t => Q a (set t s)) (get s) -> wp (zoom get set m) Q s.
Proof. unfold wp, zoom. destruct (m (get s)) as [[a t]| | |]; done. Qed.

Lemma wp_local {T A} (t : T) (m : kernel T A) (Q : A * T -> S -> Prop) s :
  wp m (fun a t' => Q (a, t') s) t -> wp (local t m) Q s.
Proof. unfold wp, local. destruct (m t) as [[a t']| | |]; done. Qed.

Lemma wp_observe {T A} (t : T) (m : kernel T A) (Q : A -> S -> Prop) s :
  wp m (fun a _ => Q a s) t -> wp (observe t m) Q s.
Proof. intros Hm. apply wp_bind, wp_local. exact Hm. Qed.

Lemma wp_ktry {T U E} (m : kernel S (Result T E)) (f : T -> kernel S (Result U E)) Q s :
  wp m (fun r s' => match r with Ok v => wp (f v) Q s' | Err e => Q (Err e) s' end) s ->
  wp (ktry m f) Q s.
Proof.
  intros Hm. apply wp_bind. eapply wp_mono; [exact Hm|]. by intros [v|e] s' H.
Qed.

(** What [wp] says of the run itself. *)
Lemma wp_elim {A} (m : kernel S A) (Q : A -> S -> Prop) s :
  wp m Q s -> exists a s', m s = Ret (a, s') /\ Q a s'.
Proof. unfold wp. destruct (m s) as [[a s']| | |]; [eauto | done..]. Qed.

Lemma wp_intro {A} (m : kernel S A) (Q : A -> S -> Prop) s a s' :
  m s = Ret (a, s') -> Q a s' -> wp m Q s.
Proof. unfold wp. by intros ->. Qed.

Lemma wp_and {A} (m : kernel S A) (P Q : A -> S -> Prop) s :
  wp m P s -> wp m Q s -> wp m (fun a s' => P a s' /\ Q a s') s.
Proof. unfold wp. destruct (m s) as [[a s']| | |]; done. Qed.
End WP.

(** ** Panics

    [panics m message s]: from [s], [m] calls [KPANIC] with the message. *)
Definition panics {S A} (m : kernel S A) (message : string) (s : S) : Prop := m s = Panic message.

Section Panics.
Context {S : Type}.

Lemma panics_kpanic {A} message (s : S) : panics (A := A) (kpanic message) message s.
Proof. done. Qed.

(** The first part returns and the rest panics. *)
Lemma panics_bind {A B} (m : kernel S A) (f : A -> kernel S B) message s :
  wp m (fun a s' => panics (f a) message s') s -> panics (m ≫= f) message s.
Proof. unfold wp, panics, mbind, kernel_bind. by destruct (m s) as [[a s']| | |]. Qed.

Lemma panics_bind_first {A B} (m : kernel S A) (f : A -> kernel S B) message s :
  panics m message s -> panics (m ≫= f) message s.
Proof. unfold panics, mbind, kernel_bind. by intros ->. Qed.

Lemma panics_zoom {T A} (get : S -> T) (set : T -> S -> S) (m : kernel T A) message s :
  panics m message (get s) -> panics (zoom get set m) message s.
Proof. unfold panics, zoom. by intros ->. Qed.
End Panics.

(** ** Loops *)

(** [for (usize i = lo; i < hi; ++i) body]: the bounds are unsigned and [hi] does not change. *)
Fixpoint for_count {S} (n : nat) (i : Z) (body : Z -> kernel S unit) : kernel S unit :=
  match n with
  | O => mret tt
  | Datatypes.S n' => body i;; for_count n' (i + 1) body
  end.

Definition for_range {S} (lo hi : Z) (body : Z -> kernel S unit) : kernel S unit :=
  for_count (Z.to_nat (hi - lo)) lo body.

(** The same loop when the body may return from the function: [Some r] is [return r]. *)
Fixpoint scan_count {S R} (n : nat) (i : Z) (body : Z -> kernel S (option R)) :
    kernel S (option R) :=
  match n with
  | O => mret None
  | Datatypes.S n' =>
      r ← body i;
      match r with
      | Some v => mret (Some v)
      | None => scan_count n' (i + 1) body
      end
  end.

Definition scan_range {S R} (lo hi : Z) (body : Z -> kernel S (option R)) : kernel S (option R) :=
  scan_count (Z.to_nat (hi - lo)) lo body.

(** The same loop carrying a local variable. *)
Fixpoint fold_count {S A} (n : nat) (i : Z) (body : Z -> A -> kernel S A) (a : A) : kernel S A :=
  match n with
  | O => mret a
  | Datatypes.S n' => a' ← body i a; fold_count n' (i + 1) body a'
  end.

Definition for_fold {S A} (lo hi : Z) (body : Z -> A -> kernel S A) (a : A) : kernel S A :=
  fold_count (Z.to_nat (hi - lo)) lo body a.

(** [for (usize i = hi; i-- > 0;) body]: from [hi - 1] down to 0. *)
Fixpoint for_down_count {S} (n : nat) (body : Z -> kernel S unit) : kernel S unit :=
  match n with
  | O => mret tt
  | Datatypes.S n' => body (Z.of_nat n');; for_down_count n' body
  end.

Definition for_down {S} (hi : Z) (body : Z -> kernel S unit) : kernel S unit :=
  for_down_count (Z.to_nat hi) body.

(** [for (x : l)] over a constant sequence, carrying a local variable, whose body may return an error
    from the function. *)
Fixpoint try_fold {S A B E} (l : list A) (body : A -> B -> kernel S (Result B E)) (b : B) :
    kernel S (Result B E) :=
  match l with
  | [] => mret (Ok b)
  | x :: l' => b' ←? body x b; try_fold l' body b'
  end.

Definition try_each {S A E} (l : list A) (body : A -> kernel S (Result unit E)) :
    kernel S (Result unit E) := try_fold l (fun x _ => body x) tt.

(** [while (cond) body] on a local variable, with fuel. *)
Fixpoint while {S A} (fuel : nat) (cond : A -> kernel S bool) (body : A -> kernel S A) (a : A) :
    kernel S A :=
  match fuel with
  | O => diverge
  | Datatypes.S n =>
      c ← cond a;
      if c : bool then a' ← body a; while n cond body a' else mret a
  end.

Section Loops.
Context {S : Type}.

Lemma wp_for_count (Inv : Z -> S -> Prop) (body : Z -> kernel S unit) n i s :
  Inv i s ->
  (forall j s', i <= j < i + Z.of_nat n -> Inv j s' -> wp (body j) (fun _ => Inv (j + 1)) s') ->
  wp (for_count n i body) (fun _ => Inv (i + Z.of_nat n)) s.
Proof.
  revert i s. induction n as [|n IH]; intros i s Hi Hbody; simpl.
  - apply wp_ret. by rewrite Z.add_0_r.
  - apply wp_bind. eapply wp_mono; [apply Hbody; [lia|done]|]. intros [] s' Hs'.
    eapply wp_mono; [apply IH; [done|]; intros; apply Hbody; [lia|done]|].
    intros [] s'' H. cbn beta in *. by replace (i + Z.of_nat (Datatypes.S n)) with (i + 1 + Z.of_nat n) by lia.
Qed.

(** The rule of the counting loop, with its invariant. *)
Lemma wp_for_range (Inv : Z -> S -> Prop) lo hi (body : Z -> kernel S unit) Q s :
  Inv lo s ->
  (forall i s', lo <= i < hi -> Inv i s' -> wp (body i) (fun _ => Inv (i + 1)) s') ->
  (forall s', Inv (Z.max lo hi) s' -> Q tt s') ->
  wp (for_range lo hi body) Q s.
Proof.
  intros Hlo Hbody HQ. unfold for_range.
  eapply wp_mono; [apply wp_for_count; [exact Hlo|]; intros; apply Hbody; [lia|done]|].
  intros [] s' H. apply HQ.
  by replace (Z.max lo hi) with (lo + Z.of_nat (Z.to_nat (hi - lo))) by lia.
Qed.

Lemma wp_for_fold {A} (Inv : Z -> A -> S -> Prop) lo hi (body : Z -> A -> kernel S A) a Q s :
  Inv lo a s ->
  (forall i a' s', lo <= i < hi -> Inv i a' s' -> wp (body i a') (Inv (i + 1)) s') ->
  (forall a' s', Inv (Z.max lo hi) a' s' -> Q a' s') ->
  wp (for_fold lo hi body a) Q s.
Proof.
  intros Hlo Hbody HQ. unfold for_fold.
  assert (Hgen : forall n i a0 s0, Inv i a0 s0 -> lo <= i -> i + Z.of_nat n <= Z.max lo hi ->
    wp (fold_count n i body a0) (Inv (i + Z.of_nat n)) s0).
  { induction n as [|n IH]; intros i a0 s0 H0 Hi Hn; cbn [fold_count].
    - apply wp_ret. by rewrite Z.add_0_r.
    - apply wp_bind. eapply wp_mono; [apply Hbody; [lia|done]|]. intros a' s' H'.
      replace (i + Z.of_nat (Datatypes.S n)) with (i + 1 + Z.of_nat n) by lia.
      apply IH; [done | lia | lia]. }
  eapply wp_mono; [apply Hgen; [exact Hlo | lia | lia]|].
  intros a' s' H. apply HQ.
  by replace (Z.max lo hi) with (lo + Z.of_nat (Z.to_nat (hi - lo))) by lia.
Qed.

(** Total correctness of the [while] loop: an invariant and a variant below the fuel. *)
Lemma wp_while {A} (Inv : A -> S -> Prop) (variant : A -> S -> Z) fuel cond body (a : A) Q s :
  Inv a s -> 0 <= variant a s < Z.of_nat fuel ->
  (forall a' s', Inv a' s' -> 0 <= variant a' s' ->
    wp (cond a') (fun (c : bool) s1 => if c
      then wp (body a') (fun a2 s2 => Inv a2 s2 /\ 0 <= variant a2 s2 < variant a' s') s1
      else Q a' s1) s') ->
  wp (while fuel cond body a) Q s.
Proof.
  intros Ha Hv Hstep. revert a s Ha Hv. induction fuel as [|n IH]; intros a s Ha Hv; [lia|].
  cbn [while]. apply wp_bind. eapply wp_mono; [apply Hstep; [done|lia]|]. intros [] s1 H1.
  - apply wp_bind. eapply wp_mono; [exact H1|]. intros a2 s2 [H2 H3]. apply IH; [done|lia].
  - by apply wp_ret.
Qed.

Lemma wp_for_down (Inv : Z -> S -> Prop) hi (body : Z -> kernel S unit) Q s :
  0 <= hi ->
  Inv hi s ->
  (forall i s', 0 <= i < hi -> Inv (i + 1) s' -> wp (body i) (fun _ => Inv i) s') ->
  (forall s', Inv 0 s' -> Q tt s') ->
  wp (for_down hi body) Q s.
Proof.
  intros Hhi Hstart Hbody HQ. unfold for_down.
  assert (Hgen : forall n s0, Z.of_nat n <= hi -> Inv (Z.of_nat n) s0 ->
    wp (for_down_count n body) (fun _ => Inv 0) s0).
  { induction n as [|n IH]; intros s0 Hn Hs0; [by apply wp_ret|]. simpl.
    apply wp_bind. eapply wp_mono; [apply Hbody; [lia|]|].
    - by replace (Z.of_nat n + 1) with (Z.of_nat (Datatypes.S n)) by lia.
    - intros [] s' Hs'. apply IH; [lia|done]. }
  eapply wp_mono; [apply Hgen; [lia|]|].
  - by rewrite Z2Nat.id by lia.
  - intros [] s' H. by apply HQ.
Qed.

Lemma wp_scan_count {R} (Inv : Z -> S -> Prop) (Found : R -> S -> Prop) body n i s :
  Inv i s ->
  (forall j s', i <= j < i + Z.of_nat n -> Inv j s' ->
    wp (body j) (fun r s'' => match r with Some v => Found v s'' | None => Inv (j + 1) s'' end) s') ->
  wp (scan_count n i body)
    (fun r s' => match r with Some v => Found v s' | None => Inv (i + Z.of_nat n) s' end) s.
Proof.
  revert i s. induction n as [|n IH]; intros i s Hi Hbody; simpl.
  - apply wp_ret. by rewrite Z.add_0_r.
  - apply wp_bind. eapply wp_mono; [apply Hbody; [lia|done]|]. intros [v|] s' Hs'; [done|].
    eapply wp_mono; [apply IH; [done|]; intros; apply Hbody; [lia|done]|].
    intros [v|] s'' H; [done|].
    cbn beta in *. by replace (i + Z.of_nat (Datatypes.S n)) with (i + 1 + Z.of_nat n) by lia.
Qed.

(** The rule of the loop with an early return. *)
Lemma wp_scan_range {R} (Inv : Z -> S -> Prop) (Found : R -> S -> Prop) lo hi body Q s :
  Inv lo s ->
  (forall i s', lo <= i < hi -> Inv i s' ->
    wp (body i) (fun r s'' => match r with Some v => Found v s'' | None => Inv (i + 1) s'' end) s') ->
  (forall v s', Found v s' -> Q (Some v) s') ->
  (forall s', Inv (Z.max lo hi) s' -> Q None s') ->
  wp (scan_range lo hi body) Q s.
Proof.
  intros Hlo Hbody HF HN. unfold scan_range.
  eapply wp_mono; [apply (wp_scan_count Inv Found); [exact Hlo|]; intros; apply Hbody; [lia|done]|].
  intros [v|] s' H; [by apply HF|]. apply HN.
  by replace (Z.max lo hi) with (lo + Z.of_nat (Z.to_nat (hi - lo))) by lia.
Qed.

(** The rule of the loop over a sequence: the invariant speaks of the elements done so far. *)
Lemma wp_try_fold {A B E} (Inv : list A -> B -> S -> Prop) (l : list A)
    (body : A -> B -> kernel S (Result B E)) b (Q : Result B E -> S -> Prop) s :
  Inv [] b s ->
  (forall done_ x rest b' s', l = done_ ++ x :: rest -> Inv done_ b' s' ->
    wp (body x b') (fun r s'' => match r with
      | Ok b'' => Inv (done_ ++ [x]) b'' s''
      | Err e => Q (Err e) s''
      end) s') ->
  (forall b' s', Inv l b' s' -> Q (Ok b') s') ->
  wp (try_fold l body b) Q s.
Proof.
  intros H0 Hbody HQ.
  assert (Hgen : forall rest done_ b' s', l = done_ ++ rest -> Inv done_ b' s' ->
    wp (try_fold rest body b') Q s').
  { induction rest as [|x rest IH]; intros done_ b' s' Hl Hinv; cbn [try_fold].
    - apply wp_ret, HQ. by rewrite Hl, app_nil_r.
    - apply wp_ktry. eapply wp_mono; [by eapply Hbody|]. intros [b''|e] s'' Hs''; [|done].
      apply (IH (done_ ++ [x])); [by rewrite <- app_assoc | done]. }
  by apply (Hgen l []).
Qed.

Lemma wp_try_each {A E} (Inv : list A -> S -> Prop) (l : list A)
    (body : A -> kernel S (Result unit E)) (Q : Result unit E -> S -> Prop) s :
  Inv [] s ->
  (forall done_ x rest s', l = done_ ++ x :: rest -> Inv done_ s' ->
    wp (body x) (fun r s'' => match r with
      | Ok _ => Inv (done_ ++ [x]) s''
      | Err e => Q (Err e) s''
      end) s') ->
  (forall s', Inv l s' -> Q (Ok tt) s') ->
  wp (try_each l body) Q s.
Proof.
  intros H0 Hbody HQ. apply (wp_try_fold (fun done_ _ => Inv done_)); [done | |].
  - intros done_ x rest _ s' Hl Hinv. by eapply Hbody.
  - intros [] s' Hs'. by apply HQ.
Qed.
End Loops.

(** ** Arrays

    [array<T, N>] of the source is a list of length [N]; an index is a [usize].  Reading or writing
    past the end is undefined. *)
Definition zlen {A} (l : list A) : Z := Z.of_nat (length l).
Definition znth `{Inhabited A} (l : list A) (i : Z) : A := l !!! Z.to_nat i.
Definition zset {A} (l : list A) (i : Z) (x : A) : list A := <[Z.to_nat i := x]> l.

Definition in_bounds {A} (l : list A) (i : Z) : bool := (0 <=? i) && (i <? zlen l).

Definition array_get `{Inhabited A} (i : Z) : kernel (list A) A :=
  fun l => if in_bounds l i then Ret (znth l i, l) else Undefined.

Definition array_set {A} (i : Z) (x : A) : kernel (list A) unit :=
  fun l => if in_bounds l i then Ret (tt, zset l i x) else Undefined.

Section Arrays.
Context {A : Type} `{Inhabited A}.
Implicit Types l : list A.

Lemma in_bounds_true l i : 0 <= i < zlen l -> in_bounds l i = true.
Proof. intros. unfold in_bounds. apply andb_true_iff. lia. Qed.

Lemma zlen_zset l i x : zlen (zset l i x) = zlen l.
Proof. unfold zlen, zset. by rewrite length_insert. Qed.

Lemma zlen_replicate n (x : A) : 0 <= n -> zlen (replicate (Z.to_nat n) x) = n.
Proof. intros. unfold zlen. rewrite length_replicate. lia. Qed.

Lemma znth_zset_eq l i x : 0 <= i < zlen l -> znth (zset l i x) i = x.
Proof. intros Hi. unfold znth, zset. apply list_lookup_total_insert_eq. unfold zlen in Hi. lia. Qed.

Lemma znth_zset_ne l i j x : 0 <= i -> 0 <= j -> i <> j -> znth (zset l i x) j = znth l j.
Proof. intros. unfold znth, zset. apply list_lookup_total_insert_ne. lia. Qed.

Lemma znth_zset l i j x :
  0 <= i < zlen l -> 0 <= j -> znth (zset l i x) j = if i =? j then x else znth l j.
Proof.
  intros Hi Hj. destruct (Z.eqb_spec i j) as [->|].
  - by apply znth_zset_eq.
  - apply znth_zset_ne; lia.
Qed.

Lemma znth_replicate n (x : A) i : 0 <= i < n -> znth (replicate (Z.to_nat n) x) i = x.
Proof. intros. unfold znth. apply lookup_total_replicate_2. lia. Qed.

(** Arrays with the same length and elements are equal. *)
Lemma array_ext l1 l2 :
  zlen l1 = zlen l2 -> (forall i, 0 <= i < zlen l1 -> znth l1 i = znth l2 i) -> l1 = l2.
Proof.
  unfold zlen, znth. intros Hlen Heq. apply list_eq_same_length with (length l1); [lia|done|].
  intros i x y Hi Hx Hy. specialize (Heq (Z.of_nat i) ltac:(lia)).
  rewrite Nat2Z.id, (list_lookup_total_correct _ _ _ Hx), (list_lookup_total_correct _ _ _ Hy) in Heq.
  done.
Qed.

Lemma wp_array_get l i Q : 0 <= i < zlen l -> Q (znth l i) l -> wp (array_get i) Q l.
Proof. intros Hi HQ. unfold wp, array_get. by rewrite in_bounds_true. Qed.

Lemma wp_array_set l i x (Q : unit -> list A -> Prop) :
  0 <= i < zlen l -> Q tt (zset l i x) -> wp (array_set i x) Q l.
Proof. intros Hi HQ. unfold wp, array_set. by rewrite in_bounds_true. Qed.
End Arrays.

Create Rewrite HintDb arrays.
#[export] Hint Rewrite @zlen_zset : arrays.

(** Prove the first premise of [H] and discharge it. *)
Ltac premise H :=
  lazymatch type of H with
  | ?P -> _ => let p := fresh in assert P as p; [| specialize (H p); clear p]
  end.

(** Peel the head of a weakest-precondition goal that is a [mret], a bind, a state access or a
    [zoom]; loops and calls are left to their own rules. *)
Ltac wp_step :=
  lazymatch goal with
  | |- wp (mret _) _ _ => apply wp_ret
  | |- wp (_ ≫= _) _ _ => apply wp_bind
  | |- wp (gets _) _ _ => apply wp_gets
  | |- wp (modify _) _ _ => apply wp_modify
  | |- wp (zoom _ _ _) _ _ => apply wp_zoom
  | |- wp (local _ _) _ _ => apply wp_local
  | |- wp (observe _ _) _ _ => apply wp_observe
  | |- wp (ktry _ _) _ _ => apply wp_ktry
  end; cbv beta.
Ltac wp_steps := repeat wp_step.

(** ** Counting

    The number of indices of [lo, lo + n) that satisfy a boolean predicate. *)
Fixpoint count_from (f : Z -> bool) (lo : Z) (n : nat) : Z :=
  match n with
  | O => 0
  | S n' => Z.b2z (f lo) + count_from f (lo + 1) n'
  end.

Definition count_range (f : Z -> bool) (lo hi : Z) : Z := count_from f lo (Z.to_nat (hi - lo)).

Section Counting.
Implicit Types f g : Z -> bool.

Lemma count_from_app f lo n m :
  count_from f lo (n + m) = count_from f lo n + count_from f (lo + Z.of_nat n) m.
Proof.
  revert lo. induction n as [|n IH]; intros lo; cbn [count_from Nat.add].
  - by rewrite Z.add_0_r.
  - rewrite IH. replace (lo + 1 + Z.of_nat n) with (lo + Z.of_nat (S n)) by lia. lia.
Qed.

Lemma count_range_split f lo mid hi :
  lo <= mid <= hi -> count_range f lo hi = count_range f lo mid + count_range f mid hi.
Proof.
  intros. unfold count_range.
  replace (Z.to_nat (hi - lo)) with (Z.to_nat (mid - lo) + Z.to_nat (hi - mid))%nat by lia.
  rewrite count_from_app. do 2 f_equal. lia.
Qed.

Lemma count_range_empty f lo hi : hi <= lo -> count_range f lo hi = 0.
Proof. intros. unfold count_range. by replace (Z.to_nat (hi - lo)) with O by lia. Qed.

Lemma count_range_one f lo : count_range f lo (lo + 1) = Z.b2z (f lo).
Proof.
  unfold count_range. replace (Z.to_nat (lo + 1 - lo)) with 1%nat by lia. simpl. lia.
Qed.

Lemma count_range_ext f g lo hi :
  (forall i, lo <= i < hi -> f i = g i) -> count_range f lo hi = count_range g lo hi.
Proof.
  intros Heq. unfold count_range.
  assert (forall n lo', (forall i, lo' <= i < lo' + Z.of_nat n -> f i = g i) ->
    count_from f lo' n = count_from g lo' n) as Hgen.
  { induction n as [|n IH]; intros lo' H; simpl; [done|].
    rewrite (H lo') by lia. f_equal. apply IH. intros. apply H. lia. }
  apply Hgen. intros. apply Heq. lia.
Qed.

Lemma count_range_bounds f lo hi : 0 <= count_range f lo hi <= Z.max 0 (hi - lo).
Proof.
  unfold count_range.
  assert (forall n lo', 0 <= count_from f lo' n <= Z.of_nat n) as Hgen.
  { induction n as [|n IH]; intros lo'; simpl; [lia|].
    specialize (IH (lo' + 1)). destruct (f lo'); simpl; lia. }
  specialize (Hgen (Z.to_nat (hi - lo)) lo). lia.
Qed.

Lemma count_range_shift f lo hi k :
  count_range (fun i => f (i + k)) lo hi = count_range f (lo + k) (hi + k).
Proof.
  unfold count_range. replace (hi + k - (lo + k)) with (hi - lo) by lia.
  generalize (Z.to_nat (hi - lo)). intros n. revert lo.
  induction n as [|n IH]; intros lo; simpl; [done|]. rewrite IH. do 2 f_equal. lia.
Qed.

Lemma count_range_const_true f lo hi :
  lo <= hi -> (forall i, lo <= i < hi -> f i = true) -> count_range f lo hi = hi - lo.
Proof.
  intros Hle H. rewrite (count_range_ext f (fun _ => true)) by done. unfold count_range.
  assert (forall n lo', count_from (fun _ => true) lo' n = Z.of_nat n) as ->; [|lia].
  induction n as [|n IH]; intros lo'; [done|].
  change (1 + count_from (fun _ => true) (lo' + 1) n = Z.of_nat (S n)). rewrite IH. lia.
Qed.

Lemma count_range_zero f lo hi :
  count_range f lo hi = 0 <-> forall i, lo <= i < hi -> f i = false.
Proof.
  split.
  - intros Hz i Hi. destruct (f i) eqn:E; [|done].
    rewrite (count_range_split f lo i hi), (count_range_split f i (i + 1) hi),
      count_range_one, E in Hz by lia.
    pose proof (count_range_bounds f lo i). pose proof (count_range_bounds f (i + 1) hi).
    simpl in Hz. lia.
  - intros H. rewrite (count_range_ext f (fun _ => false)) by done. unfold count_range.
    generalize (Z.to_nat (hi - lo)). intros n. clear H. revert lo.
    induction n as [|n IH]; intros lo; [done|].
    change (0 + count_from (fun _ => false) (lo + 1) n = 0). by rewrite IH.
Qed.

(** The count is maximal exactly when every index satisfies the predicate. *)
Lemma count_range_full f lo hi :
  lo <= hi -> count_range f lo hi = hi - lo <-> forall i, lo <= i < hi -> f i = true.
Proof.
  intros Hle. split; [|by apply count_range_const_true].
  intros Hz i Hi. destruct (f i) eqn:E; [done|].
  rewrite (count_range_split f lo i hi), (count_range_split f i (i + 1) hi),
    count_range_one, E in Hz by lia.
  pose proof (count_range_bounds f lo i). pose proof (count_range_bounds f (i + 1) hi).
  simpl in Hz. lia.
Qed.

(** Changing the predicate at one index of the range changes the count by that index alone. *)
Lemma count_range_update f g lo hi k :
  lo <= k < hi -> (forall i, lo <= i < hi -> i <> k -> g i = f i) ->
  count_range g lo hi = count_range f lo hi - Z.b2z (f k) + Z.b2z (g k).
Proof.
  intros Hk Heq.
  rewrite (count_range_split g lo k hi), (count_range_split g k (k + 1) hi),
    (count_range_split f lo k hi), (count_range_split f k (k + 1) hi), !count_range_one by lia.
  rewrite (count_range_ext g f lo k), (count_range_ext g f (k + 1) hi)
    by (intros; apply Heq; lia). lia.
Qed.

(** There are at most as many indices as a list that has them all. *)
Lemma count_range_listed f lo hi (l : list Z) :
  (forall i, lo <= i < hi -> f i = true -> i ∈ l) -> count_range f lo hi <= Z.of_nat (length l).
Proof.
  intros Hl. unfold count_range.
  assert (Hgen : forall n lo', exists ks, NoDup ks /\ Z.of_nat (length ks) = count_from f lo' n /\
    forall i, i ∈ ks -> lo' <= i < lo' + Z.of_nat n /\ f i = true).
  { induction n as [|n IH]; intros lo'; [exists []; split; [constructor|]; split; [done|]; intros i Hi; inversion Hi|].
    destruct (IH (lo' + 1)) as (ks & Hnd & Hlen & Hin). destruct (f lo') eqn:E.
    - exists (lo' :: ks). split; [constructor; [intros [H _]%Hin; lia | done]|].
      split; [cbn [length count_from]; rewrite E; simpl Z.b2z; lia|].
      intros i [->|Hi]%elem_of_cons; [split; [lia | done]|]. destruct (Hin i Hi). split; [lia | done].
    - exists ks. split; [done|]. split; [cbn [count_from]; rewrite E; simpl Z.b2z; lia|].
      intros i Hi. destruct (Hin i Hi). split; [lia | done]. }
  destruct (Hgen (Z.to_nat (hi - lo)) lo) as (ks & Hnd & <- & Hin). apply inj_le.
  apply submseteq_length, NoDup_submseteq; [done|]. intros i Hi. destruct (Hin i Hi). apply Hl; [lia | done].
Qed.
End Counting.
