(* ===== verification/Layout.v ===== *)
(** * Layout: where the kernel lives, [config/layout.h]

    The numbers the linker script, the boot assembly and the C++ share. *)

From S2P Require Import Prelude.

Definition DOOM_OS_KERNEL_LMA : Z := 0x00100000.
Definition DOOM_OS_KERNEL_VMA : Z := 0xffffffff80000000.
Definition DOOM_OS_DIRECT_MAP_BASE : Z := 0xffff800000000000.
Definition DOOM_OS_MMIO_MAP_BASE : Z := 0xffff808000000000.
Definition DOOM_OS_MMIO_MAP_SIZE : Z := 0x8000000000.
Definition DOOM_OS_VMALLOC_BASE : Z := 0xffffc00000000000.
Definition DOOM_OS_VMALLOC_SIZE : Z := 0x8000000000.
Definition DOOM_OS_EARLY_MAP_SIZE : Z := 0x40000000.
Definition DOOM_OS_MAX_PHYSICAL_MEMORY : Z := 0x400000000.

(** The windows of the upper half, as base and size. *)
Definition windows : list (Z * Z) :=
  [(DOOM_OS_DIRECT_MAP_BASE, DOOM_OS_MAX_PHYSICAL_MEMORY); (DOOM_OS_MMIO_MAP_BASE, DOOM_OS_MMIO_MAP_SIZE);
   (DOOM_OS_VMALLOC_BASE, DOOM_OS_VMALLOC_SIZE); (DOOM_OS_KERNEL_VMA, DOOM_OS_EARLY_MAP_SIZE)].

Definition window_has (va : Z) (w : Z * Z) : Prop := fst w <= va < fst w + snd w.

(** An address is in one window at most, and no window crosses a slot of the root table (512 GiB) or
    leaves the upper half of the canonical addresses. *)
Theorem windows_separate :
  (forall i j v w va, windows !! i = Some v -> windows !! j = Some w ->
     window_has va v -> window_has va w -> i = j) /\
  (forall w va, w ∈ windows -> window_has va w ->
     va / 2 ^ 39 = fst w / 2 ^ 39 /\ va / 2 ^ 47 = 0x1FFFF).
Proof.
  unfold windows, window_has, DOOM_OS_DIRECT_MAP_BASE, DOOM_OS_MAX_PHYSICAL_MEMORY, DOOM_OS_MMIO_MAP_BASE,
    DOOM_OS_MMIO_MAP_SIZE, DOOM_OS_VMALLOC_BASE, DOOM_OS_VMALLOC_SIZE, DOOM_OS_KERNEL_VMA, DOOM_OS_EARLY_MAP_SIZE.
  split.
  - intros i j v w va Hi Hj. destruct i as [|[|[|[|i]]]]; try discriminate Hi; injection Hi as <-;
      (destruct j as [|[|[|[|j]]]]; try discriminate Hj; injection Hj as <-; cbn; lia).
  - intros w va Hw. repeat (apply elem_of_cons in Hw as [->|Hw]); [..|by apply elem_of_nil in Hw]; cbn; intros; div_lia.
Qed.
