(* ===== verification/Bits.v ===== *)
(** * Bits: the integer helpers of [kernel/core/utils/bits.hpp]

    Each template over an unsigned type [T] becomes a function of its width [w]. *)

From S2P Require Import Prelude.

(** [bit_width<T>()]: the number of bits of the type, which is the model's parameter. *)
Definition bit_width (w : Z) : Z := w.

Definition all_bits (w : Z) : Z := bnot w 0.

Definition bit (w index : Z) : Z :=
  if bit_width w <=? index then 0 else wrap w (Z.shiftl 1 index).

Definition test_bit (w value index : Z) : bool :=
  (index <? bit_width w) && negb (Z.land value (bit w index) =? 0).

Definition set_bit (w value index : Z) : Z :=
  if bit_width w <=? index then value else wrap w (Z.lor value (bit w index)).

Definition clear_bit (w value index : Z) : Z :=
  if bit_width w <=? index then value else wrap w (Z.land value (bnot w (bit w index))).

Definition mask (w bit_count : Z) : Z :=
  if bit_width w <=? bit_count then all_bits w else wrap w (bit w bit_count - 1).

Definition is_power_of_two (w value : Z) : bool :=
  negb (value =? 0) && (Z.land value (wrap w (value - 1)) =? 0).

Definition align_down (w value alignment : Z) : Z :=
  wrap w (Z.land value (bnot w (wrap w (alignment - 1)))).

Definition align_up (w value alignment : Z) : Z :=
  align_down w (wrap w (value + alignment - 1)) alignment.

Definition is_aligned (w value alignment : Z) : bool :=
  Z.land value (wrap w (alignment - 1)) =? 0.

(** ** The tests of the header, one for each of its [static_assert]s, in their order *)
Definition static_asserts : list bool := [
  bit_width 8 =? 8; bit_width 16 =? 16; bit_width 32 =? 32; bit_width 64 =? 64; bit 32 0 =? 0x1;
  bit 32 1 =? 0x2; bit 32 2 =? 0x4; bit 32 3 =? 0x8; bit 32 12 =? 0x1000; bit 32 31 =? 0x80000000;
  bit 32 32 =? 0; bit 64 0 =? 0x1; bit 64 1 =? 0x2; bit 64 12 =? 0x1000; bit 64 31 =? 0x80000000;
  bit 64 32 =? 0x100000000; bit 64 63 =? 0x8000000000000000; bit 64 64 =? 0; mask 32 0 =? 0x0;
  mask 32 1 =? 0x1; mask 32 2 =? 0x3; mask 32 3 =? 0x7; mask 32 4 =? 0xf; mask 32 8 =? 0xff;
  mask 32 12 =? 0xfff; mask 32 16 =? 0xffff; mask 32 31 =? 0x7fffffff; mask 32 32 =? 0xffffffff;
  mask 32 33 =? 0xffffffff; mask 64 0 =? 0x0; mask 64 1 =? 0x1; mask 64 2 =? 0x3; mask 64 3 =? 0x7;
  mask 64 4 =? 0xf; mask 64 8 =? 0xff; mask 64 12 =? 0xfff; mask 64 16 =? 0xffff;
  mask 64 31 =? 0x7fffffff; mask 64 32 =? 0xffffffff; mask 64 63 =? 0x7fffffffffffffff;
  mask 64 64 =? 0xffffffffffffffff; mask 64 65 =? 0xffffffffffffffff; test_bit 32 1 0;
  negb (test_bit 32 1 1); test_bit 32 2 1; test_bit 32 10 1; negb (test_bit 32 10 2); test_bit 32 10 3;
  negb (test_bit 32 10 32); test_bit 64 0x8000000000000000 63;
  negb (test_bit 64 0x8000000000000000 64); set_bit 32 0 0 =? 1; set_bit 32 0 1 =? 2;
  set_bit 32 0 3 =? 8; set_bit 32 2 1 =? 2; set_bit 32 2 2 =? 6; set_bit 32 0 32 =? 0;
  set_bit 64 0 63 =? 0x8000000000000000; set_bit 64 0 64 =? 0; clear_bit 32 1 0 =? 0;
  clear_bit 32 3 0 =? 2; clear_bit 32 10 1 =? 8; clear_bit 32 10 2 =? 10; clear_bit 32 10 3 =? 2;
  clear_bit 32 0xffffffff 31 =? 0x7fffffff; clear_bit 32 0xffffffff 32 =? 0xffffffff;
  clear_bit 64 0xffffffffffffffff 63 =? 0x7fffffffffffffff;
  clear_bit 64 0xffffffffffffffff 64 =? 0xffffffffffffffff; is_power_of_two 64 1; is_power_of_two 64 2;
  is_power_of_two 64 4; is_power_of_two 64 8; is_power_of_two 64 4096;
  is_power_of_two 64 0x8000000000000000; negb (is_power_of_two 64 0); negb (is_power_of_two 64 3);
  negb (is_power_of_two 64 5); negb (is_power_of_two 64 7); negb (is_power_of_two 64 4097);
  align_down 64 0 8 =? 0; align_down 64 1 8 =? 0; align_down 64 7 8 =? 0; align_down 64 8 8 =? 8;
  align_down 64 9 8 =? 8; align_down 64 15 8 =? 8; align_down 64 16 8 =? 16;
  align_down 64 0x1003 0x1000 =? 0x1000; align_down 64 0x1fff 0x1000 =? 0x1000;
  align_down 64 0x2000 0x1000 =? 0x2000; align_up 64 0 8 =? 0; align_up 64 1 8 =? 8;
  align_up 64 7 8 =? 8; align_up 64 8 8 =? 8; align_up 64 9 8 =? 16; align_up 64 15 8 =? 16;
  align_up 64 16 8 =? 16; align_up 64 0x1003 0x1000 =? 0x2000; align_up 64 0x1fff 0x1000 =? 0x2000;
  align_up 64 0x2000 0x1000 =? 0x2000; is_aligned 64 0 8; negb (is_aligned 64 1 8);
  negb (is_aligned 64 7 8); is_aligned 64 8 8; negb (is_aligned 64 9 8); is_aligned 64 16 8;
  is_aligned 64 0x1000 0x1000; negb (is_aligned 64 0x1001 0x1000); is_aligned 64 0x2000 0x1000 ].

Example static_asserts_hold : forallb id static_asserts = true.
Proof. vm_compute. reflexivity. Qed.

Section Bits.
Context (w : Z) (Hw : 0 < w).

Lemma all_bits_ones : all_bits w = Z.ones w.
Proof.
  apply (width_bits_inj w); [lia | apply bnot_range; lia | |].
  - unfold in_width. rewrite Z.ones_equiv. pose proof (pow2_pos w). lia.
  - intros i Hi. unfold all_bits. bool_solve.
Qed.

Lemma testbit_all_bits i : 0 <= i -> Z.testbit (all_bits w) i = (i <? w).
Proof. intros. rewrite all_bits_ones, Z.testbit_ones_nonneg by lia. done. Qed.

Lemma bit_eq index : 0 <= index < w -> bit w index = 2 ^ index.
Proof.
  intros Hi. unfold bit, bit_width. destruct (Z.leb_spec w index); [lia|].
  rewrite Z.shiftl_1_l. apply wrap_small. split; [lia|].
  apply Z.pow_lt_mono_r; lia.
Qed.

Lemma testbit_bit index i :
  0 <= index < w -> 0 <= i -> Z.testbit (bit w index) i = (i =? index).
Proof. intros. rewrite bit_eq by lia. bool_solve. Qed.

Lemma bit_width_range index : 0 <= index -> in_width w (bit w index).
Proof.
  intros. unfold bit. case_match; [|apply wrap_range; lia].
  split; [lia | apply pow2_pos; lia].
Qed.

Lemma mask_ones n : 0 <= n -> mask w n = Z.ones (Z.min n w).
Proof.
  intros Hn. unfold mask, bit_width. destruct (Z.leb_spec w n).
  - rewrite all_bits_ones. f_equal. lia.
  - rewrite bit_eq, Z.min_l, Z.ones_equiv by lia.
    apply wrap_small. pose proof (pow2_pos n). pose proof (Z.pow_lt_mono_r 2 n w). split; lia.
Qed.

Lemma testbit_mask n i :
  0 <= n -> 0 <= i -> Z.testbit (mask w n) i = (i <? n) && (i <? w).
Proof.
  intros. rewrite mask_ones, Z.testbit_ones_nonneg by lia. bool_solve.
Qed.

Lemma mask_range n : 0 <= n -> in_width w (mask w n).
Proof.
  intros. rewrite mask_ones by lia. unfold in_width. rewrite Z.ones_equiv.
  pose proof (pow2_pos (Z.min n w)). pose proof (Z.pow_le_mono_r 2 (Z.min n w) w). lia.
Qed.

(** Testing [value & (1 << index)] reads the bit. *)
Lemma land_bit_nonzero value index :
  0 <= index < w -> negb (Z.land value (bit w index) =? 0) = Z.testbit value index.
Proof.
  intros Hi. rewrite bit_eq by lia.
  destruct (Z.testbit value index) eqn:E.
  - apply negb_true_iff, Z.eqb_neq. intros H0.
    assert (Z.testbit (Z.land value (2 ^ index)) index = true) as H.
    { rewrite Z.land_spec, E, Z.pow2_bits_true by lia. done. }
    by rewrite H0, Z.bits_0 in H.
  - apply negb_false_iff, Z.eqb_eq, Z.bits_inj'. intros i Hi'.
    rewrite Z.land_spec, Z.pow2_bits_eqb, Z.bits_0 by lia.
    destruct (Z.eqb_spec index i) as [<-|]; [by rewrite E | apply andb_false_r].
Qed.

Lemma test_bit_spec value index :
  in_width w value -> 0 <= index -> test_bit w value index = Z.testbit value index.
Proof.
  intros Hv Hi. unfold test_bit, bit_width. destruct (Z.ltb_spec index w); simpl.
  - apply land_bit_nonzero. lia.
  - symmetry. apply (testbit_high w); [done|lia].
Qed.

Section Alignment.
Context (k : Z) (Hk : 0 <= k < w).

Lemma alignment_mask : wrap w (2 ^ k - 1) = Z.ones k.
Proof.
  rewrite Z.ones_equiv. apply wrap_small.
  pose proof (pow2_pos k). pose proof (Z.pow_lt_mono_r 2 k w). split; lia.
Qed.

Lemma align_down_eq value :
  in_width w value -> align_down w value (2 ^ k) = value - value mod 2 ^ k.
Proof.
  intros Hv. unfold align_down. rewrite alignment_mask.
  transitivity (Z.shiftl (Z.shiftr value k) k).
  - apply Z.bits_inj'. intros i Hi. rewrite Z.shiftl_spec by lia. autorewrite with bits.
    destruct (Z.ltb_spec i w); simpl.
    + destruct (Z.ltb_spec i k) as [Hik|Hik].
      * rewrite (Z.testbit_neg_r _ (i - k)) by lia. by rewrite andb_false_r.
      * rewrite Z.shiftr_spec by lia. replace (i - k + k) with i by lia. apply andb_true_r.
    + destruct (Z_lt_le_dec i k); [lia|].
      rewrite Z.shiftr_spec by lia. replace (i - k + k) with i by lia.
      symmetry. apply (testbit_high w); [done|lia].
  - rewrite Z.shiftl_mul_pow2, Z.shiftr_div_pow2 by lia.
    pose proof (Z.div_mod value (2 ^ k)). lia.
Qed.

Lemma is_aligned_spec value :
  in_width w value -> is_aligned w value (2 ^ k) = (value mod 2 ^ k =? 0).
Proof.
  intros Hv. unfold is_aligned. rewrite alignment_mask, Z.land_ones by lia. done.
Qed.

Lemma align_down_range value : in_width w value -> 0 <= align_down w value (2 ^ k) <= value.
Proof.
  intros Hv. rewrite align_down_eq by done.
  pose proof (Z.mod_pos_bound value (2 ^ k) (pow2_pos k (proj1 Hk))).
  pose proof (Z.mod_le value (2 ^ k) (proj1 Hv) (pow2_pos k (proj1 Hk))). lia.
Qed.

Lemma align_up_no_wrap value :
  in_width w value -> value + 2 ^ k - 1 < 2 ^ w ->
  align_up w value (2 ^ k) = (value + 2 ^ k - 1) - (value + 2 ^ k - 1) mod 2 ^ k.
Proof.
  intros Hv Hlt. pose proof (pow2_pos k (proj1 Hk)). unfold align_up.
  assert (in_width w (value + 2 ^ k - 1)) by (split; [destruct Hv; lia | done]).
  rewrite wrap_small by done. by apply align_down_eq.
Qed.

Lemma align_up_wraps value :
  in_width w value -> 2 ^ w <= value + 2 ^ k - 1 -> align_up w value (2 ^ k) = 0.
Proof.
  intros [Hv0 Hv] Hge. pose proof (pow2_pos k (proj1 Hk)).
  pose proof (Z.pow_lt_mono_r 2 k w ltac:(lia) ltac:(lia) ltac:(lia)).
  unfold align_up. rewrite align_down_eq by (apply wrap_range; lia).
  assert (wrap w (value + 2 ^ k - 1) = value + 2 ^ k - 1 - 2 ^ w) as ->.
  { unfold wrap. symmetry. apply Z.mod_unique with 1; lia. }
  rewrite Z.mod_small; lia.
Qed.

(** A multiple of the alignment is a fixed point of both roundings. *)
Lemma align_up_aligned value :
  in_width w value -> value mod 2 ^ k = 0 -> value + 2 ^ k - 1 < 2 ^ w ->
  align_up w value (2 ^ k) = value.
Proof.
  intros Hv Hm Hlt. pose proof (pow2_pos k (proj1 Hk)). rewrite align_up_no_wrap by done.
  replace (value + 2 ^ k - 1) with (2 ^ k - 1 + (value / 2 ^ k) * 2 ^ k)
    by (pose proof (Z.div_mod value (2 ^ k)); lia).
  rewrite Z.mod_add, Z.mod_small by lia.
  pose proof (Z.div_mod value (2 ^ k)). lia.
Qed.

(** [align_up] returns the least multiple of the alignment that is not below the value, or
    0 when that multiple is not representable in the type. *)
Theorem align_up_correct value :
  in_width w value ->
  let r := align_up w value (2 ^ k) in
  if value + 2 ^ k - 1 <? 2 ^ w
  then r mod 2 ^ k = 0 /\ value <= r < value + 2 ^ k
  else r = 0.
Proof.
  intros Hv. pose proof (pow2_pos k (proj1 Hk)).
  destruct (Z.ltb_spec (value + 2 ^ k - 1) (2 ^ w)) as [Hlt|Hge]; simpl.
  - rewrite align_up_no_wrap by done.
    set (x := value + 2 ^ k - 1).
    pose proof (Z.mod_pos_bound x (2 ^ k) ltac:(lia)).
    split; [|lia].
    rewrite Zminus_mod_idemp_r, Z.sub_diag. apply Z.mod_0_l. lia.
  - by apply align_up_wraps.
Qed.
End Alignment.

(** [is_power_of_two] accepts exactly the powers of two of the type. *)
Theorem is_power_of_two_correct value :
  in_width w value ->
  is_power_of_two w value = true <-> exists k, 0 <= k < w /\ value = 2 ^ k.
Proof.
  intros [Hv0 Hv]. unfold is_power_of_two. rewrite andb_true_iff, negb_true_iff, Z.eqb_neq, Z.eqb_eq.
  split.
  - intros [Hnz Hland]. set (k := Z.log2 value).
    pose proof (Z.log2_spec value ltac:(lia)) as [Hlo Hhi]. fold k in Hlo, Hhi.
    assert (0 <= k) by apply Z.log2_nonneg.
    assert (k < w) by (apply Z.log2_lt_pow2; lia).
    exists k. split; [lia|]. destruct (Z.eq_dec value (2 ^ k)) as [|Hne]; [done|exfalso].
    rewrite wrap_small in Hland by (split; lia).
    assert (Z.testbit (Z.land value (value - 1)) k = true) as Hbit.
    { rewrite Z.land_spec. unfold k at 1. rewrite Z.bit_log2 by lia. simpl.
      replace k with (Z.log2 (value - 1)); [apply Z.bit_log2; lia|].
      apply Z.log2_unique; lia. }
    by rewrite Hland, Z.bits_0 in Hbit.
  - intros (k & Hk & ->). pose proof (pow2_pos k ltac:(lia)). split; [lia|].
    rewrite (alignment_mask k Hk), Z.land_ones by lia. apply Z.mod_same. lia.
Qed.
End Bits.
