(* ===== verification/Bitmap.v ===== *)
(** * Bitmap: [kernel/core/utils/bitmap.hpp]

    [bitmap<N, StorageType>] is modelled over the list of its words [m_words], for any number [N]
    of bits and any word width [W].  The abstract view of a bitmap is the predicate
    [contains b i], the value of bit [i]; every operation is specified on it. *)

From S2P Require Import Prelude Bits.

Section Bitmap.
Context (W N : Z).

Definition BITS_PER_STORAGE_TYPE_INSTANCE : Z := bit_width W.
Definition STORAGE_TYPE_INSTANCE_COUNT : Z := N / BITS_PER_STORAGE_TYPE_INSTANCE.
Definition NPOS : Z := 2 ^ 64 - 1.

(** The object: [array<StorageType, STORAGE_TYPE_INSTANCE_COUNT> m_words{}]. *)
Definition m_words_init : list Z := replicate (Z.to_nat STORAGE_TYPE_INSTANCE_COUNT) 0.

Definition word_of (index : Z) : Z := index / BITS_PER_STORAGE_TYPE_INSTANCE.
Definition offset_of (index : Z) : Z := u32 (index mod BITS_PER_STORAGE_TYPE_INSTANCE).
Definition bit_of (index : Z) : Z := wrap W (Z.shiftl 1 (offset_of index)).
Definition mask_from (first : Z) : Z := bnot W (mask W (offset_of first)).
Definition mask_upto (last : Z) : Z := mask W (u32 (offset_of last + 1)).

(** [std::countr_zero] and [std::popcount] of a word. *)
Fixpoint countr_zero_bits (n : nat) (value : Z) : Z :=
  match n with
  | O => 0
  | S n' => if Z.odd value then 0 else 1 + countr_zero_bits n' (Z.div2 value)
  end.

Definition countr_zero (value : Z) : Z := countr_zero_bits (Z.to_nat W) value.

Fixpoint popcount_bits (n : nat) (value : Z) : Z :=
  match n with
  | O => 0
  | S n' => Z.b2z (Z.odd value) + popcount_bits n' (Z.div2 value)
  end.

Definition popcount (value : Z) : Z := popcount_bits (Z.to_nat W) value.

Definition apply_word (word selected : Z) (value : bool) : kernel (list Z) unit :=
  old ← array_get word;
  if value then array_set word (Z.lor old selected)
  else array_set word (Z.land old (bnot W selected)).

Definition apply (first count : Z) (value : bool) : kernel (list Z) unit :=
  if count =? 0 then mret tt
  else
    let last := u64 (first + count - 1) in
    let first_word := word_of first in
    let last_word := word_of last in
    if first_word =? last_word then
      apply_word first_word (Z.land (mask_from first) (mask_upto last)) value
    else
      apply_word first_word (mask_from first) value;;
      for_range (first_word + 1) last_word (fun word =>
        array_set word (if value then all_bits W else 0));;
      apply_word last_word (mask_upto last) value.

Definition reset : kernel (list Z) unit :=
  for_range 0 STORAGE_TYPE_INSTANCE_COUNT (fun word => array_set word 0).

Definition fill : kernel (list Z) unit :=
  for_range 0 STORAGE_TYPE_INSTANCE_COUNT (fun word => array_set word (all_bits W)).

Definition shift_left (count : Z) : kernel (list Z) unit :=
  if count =? 0 then mret tt
  else if N <=? count then reset
  else
    let word_shift := count / BITS_PER_STORAGE_TYPE_INSTANCE in
    let bit_shift := count mod BITS_PER_STORAGE_TYPE_INSTANCE in
    for_down STORAGE_TYPE_INSTANCE_COUNT (fun destination =>
      if destination <? word_shift then array_set destination 0
      else
        let source := destination - word_shift in
        word ← array_get source;
        let value := wrap W (Z.shiftl word bit_shift) in
        if negb (bit_shift =? 0) && negb (source =? 0) then
          below ← array_get (source - 1);
          array_set destination
            (Z.lor value (Z.shiftr below (BITS_PER_STORAGE_TYPE_INSTANCE - bit_shift)))
        else array_set destination value).

Definition shift_right (count : Z) : kernel (list Z) unit :=
  if count =? 0 then mret tt
  else if N <=? count then reset
  else
    let word_shift := count / BITS_PER_STORAGE_TYPE_INSTANCE in
    let bit_shift := count mod BITS_PER_STORAGE_TYPE_INSTANCE in
    for_range 0 STORAGE_TYPE_INSTANCE_COUNT (fun destination =>
      let source := u64 (destination + word_shift) in
      if STORAGE_TYPE_INSTANCE_COUNT <=? source then array_set destination 0
      else
        word ← array_get source;
        let value := Z.shiftr word bit_shift in
        if negb (bit_shift =? 0) && (source + 1 <? STORAGE_TYPE_INSTANCE_COUNT) then
          above ← array_get (source + 1);
          array_set destination
            (wrap W (Z.lor value (Z.shiftl above (BITS_PER_STORAGE_TYPE_INSTANCE - bit_shift))))
        else array_set destination value).

(** [empty] scans for a word that is not 0, [all] for a word that is not full. *)
Definition empty : kernel (list Z) bool :=
  r ← scan_range 0 STORAGE_TYPE_INSTANCE_COUNT (fun word =>
    value ← array_get word;
    mret (if negb (value =? 0) then Some false else None));
  mret (default true r).

Definition none : kernel (list Z) bool := empty.
Definition any : kernel (list Z) bool := e ← empty; mret (negb e).

Definition all : kernel (list Z) bool :=
  r ← scan_range 0 STORAGE_TYPE_INSTANCE_COUNT (fun word =>
    value ← array_get word;
    mret (if negb (value =? all_bits W) then Some false else None));
  mret (default true r).

Definition test (index : Z) : kernel (list Z) bool :=
  word ← array_get (word_of index);
  mret (negb (Z.land word (bit_of index) =? 0)).

Definition set (index : Z) : kernel (list Z) unit :=
  word ← array_get (word_of index);
  array_set (word_of index) (Z.lor word (bit_of index)).

Definition clear (index : Z) : kernel (list Z) unit :=
  word ← array_get (word_of index);
  array_set (word_of index) (Z.land word (bnot W (bit_of index))).

Definition toggle (index : Z) : kernel (list Z) unit :=
  word ← array_get (word_of index);
  array_set (word_of index) (Z.lxor word (bit_of index)).

Definition assign (index : Z) (value : bool) : kernel (list Z) unit :=
  if value then set index else clear index.

Definition set_range (first count : Z) : kernel (list Z) unit := apply first count true.
Definition clear_range (first count : Z) : kernel (list Z) unit := apply first count false.

Definition find_set (first_word words : Z) : kernel (list Z) Z :=
  r ← scan_range 0 words (fun i =>
    let word := u64 (first_word + i) in
    value ← array_get word;
    mret (if negb (value =? 0)
          then Some (u64 (word * BITS_PER_STORAGE_TYPE_INSTANCE + countr_zero value))
          else None));
  mret (default NPOS r).

Definition find_set_in (first count : Z) : kernel (list Z) Z :=
  if count =? 0 then mret NPOS
  else
    let last := u64 (first + count - 1) in
    let first_word := word_of first in
    let last_word := word_of last in
    let found word selected := u64 (word * BITS_PER_STORAGE_TYPE_INSTANCE + countr_zero selected) in
    if first_word =? last_word then
      value ← array_get first_word;
      let selected := Z.land (Z.land value (mask_from first)) (mask_upto last) in
      mret (if negb (selected =? 0) then found first_word selected else NPOS)
    else
      value ← array_get first_word;
      let selected := Z.land value (mask_from first) in
      if negb (selected =? 0) then mret (found first_word selected)
      else
        r ← scan_range (first_word + 1) last_word (fun word =>
          value ← array_get word;
          mret (if negb (value =? 0) then Some (found word value) else None));
        match r with
        | Some index => mret index
        | None =>
            value ← array_get last_word;
            let selected := Z.land value (mask_upto last) in
            mret (if negb (selected =? 0) then found last_word selected else NPOS)
        end.

Definition count_set (first_word words : Z) : kernel (list Z) Z :=
  for_fold 0 words (fun i total =>
    value ← array_get (u64 (first_word + i));
    mret (u64 (total + popcount value))) 0.

Definition count_set_all : kernel (list Z) Z := count_set 0 STORAGE_TYPE_INSTANCE_COUNT.

Definition count_set_in (first count : Z) : kernel (list Z) Z :=
  if count =? 0 then mret 0
  else
    let last := u64 (first + count - 1) in
    let first_word := word_of first in
    let last_word := word_of last in
    if first_word =? last_word then
      value ← array_get first_word;
      mret (popcount (Z.land (Z.land value (mask_from first)) (mask_upto last)))
    else
      value ← array_get first_word;
      let total := popcount (Z.land value (mask_from first)) in
      total ← for_fold (first_word + 1) last_word (fun word total =>
        value ← array_get word;
        mret (u64 (total + popcount value))) total;
      value ← array_get last_word;
      mret (u64 (total + popcount (Z.land value (mask_upto last)))).

(** [b |= other], [b &= other], [b ^= other]: [op] is the operator on one word. *)
Definition assign_with (op : Z -> Z -> Z) (other : list Z) : kernel (list Z) unit :=
  for_range 0 STORAGE_TYPE_INSTANCE_COUNT (fun word =>
    value ← array_get word;
    rhs ← observe other (array_get word);
    array_set word (op value rhs)).

(** [lhs | rhs], [lhs & rhs], [lhs ^ rhs]: [lhs] is a copy, changed and returned. *)
Definition combine_with {S} (op : Z -> Z -> Z) (lhs rhs : list Z) : kernel S (list Z) :=
  r ← local lhs (assign_with op rhs);
  mret (snd r).

(** [~b] fills a fresh bitmap. *)
Definition complement : kernel (list Z) (list Z) :=
  for_fold 0 STORAGE_TYPE_INSTANCE_COUNT (fun word result =>
    value ← array_get word;
    r ← local result (array_set word (bnot W value));
    mret (snd r)) m_words_init.

Definition equals (other : list Z) : kernel (list Z) bool :=
  r ← scan_range 0 STORAGE_TYPE_INSTANCE_COUNT (fun word =>
    value ← array_get word;
    rhs ← observe other (array_get word);
    mret (if negb (value =? rhs) then Some false else None));
  mret (default true r).

Definition differs (other : list Z) : kernel (list Z) bool :=
  e ← equals other; mret (negb e).
End Bitmap.

(** ** Specification *)

Section BitmapFacts.
Context (W N : Z) (HW : 8 <= W <= 64) (HN : 0 <= N < 2 ^ 64).

Local Abbreviation COUNT := (STORAGE_TYPE_INSTANCE_COUNT W N).
Local Abbreviation word_of := (word_of W).

(** The bits the object has storage for. *)
Definition capacity : Z := COUNT * W.

(** The abstract view: bit [i] of the bitmap. *)
Definition contains (b : list Z) (i : Z) : bool := Z.testbit (znth b (word_of i)) (i mod W).

Record wf (b : list Z) : Prop := {
  wf_length : zlen b = COUNT;
  wf_words k : 0 <= k < COUNT -> in_width W (znth b k);
}.

(** [b'] is [b] with the bits of [lo, hi) set to [v]. *)
Definition assigned (b b' : list Z) (lo hi : Z) (v : bool) : Prop :=
  wf b' /\
  forall i, 0 <= i < capacity ->
    contains b' i = if (lo <=? i) && (i <? hi) then v else contains b i.

Lemma count_nonneg : 0 <= COUNT.
Proof. apply Z.div_pos; unfold BITS_PER_STORAGE_TYPE_INSTANCE, bit_width; lia. Qed.

Lemma capacity_le : capacity <= N.
Proof.
  unfold capacity, STORAGE_TYPE_INSTANCE_COUNT, BITS_PER_STORAGE_TYPE_INSTANCE, bit_width.
  pose proof (Z.mul_div_le N W). lia.
Qed.

Lemma word_of_eq i : word_of i = i / W.
Proof. done. Qed.

Lemma word_of_range i : 0 <= i < capacity -> 0 <= word_of i < COUNT.
Proof.
  unfold capacity. intros Hi. rewrite word_of_eq. split; [apply Z.div_pos; lia|].
  apply Z.div_lt_upper_bound; lia.
Qed.

Lemma offset_range i : 0 <= i mod W < W.
Proof. apply Z.mod_pos_bound. lia. Qed.

Lemma offset_of_eq i : offset_of W i = i mod W.
Proof.
  unfold offset_of, u32, BITS_PER_STORAGE_TYPE_INSTANCE, bit_width. apply wrap_small.
  pose proof (offset_range i). split; lia.
Qed.

Lemma word_decompose i : i = word_of i * W + i mod W.
Proof. rewrite word_of_eq. pose proof (Z.div_mod i W). lia. Qed.

Lemma word_compose k r : 0 <= r < W -> word_of (k * W + r) = k /\ (k * W + r) mod W = r.
Proof.
  intros Hr. rewrite word_of_eq.
  replace (k * W + r) with (r + k * W) by lia.
  rewrite Z.div_add, Z.mod_add, Z.div_small, Z.mod_small by lia. lia.
Qed.

(** The bits below word [k] are the indices below [k * W]. *)
Lemma word_lt i k : word_of i < k <-> i < k * W.
Proof. pose proof (word_decompose i). pose proof (offset_range i). nia. Qed.

(** The order of bit indices is the order of (word, offset) pairs. *)
Lemma word_order i j :
  i <= j <-> word_of i < word_of j \/ word_of i = word_of j /\ i mod W <= j mod W.
Proof.
  pose proof (word_decompose i). pose proof (word_decompose j).
  pose proof (offset_range i). pose proof (offset_range j). nia.
Qed.

Lemma testbit_bit_of i j : 0 <= j -> Z.testbit (bit_of W i) j = (j =? i mod W).
Proof.
  intros Hj. pose proof (offset_range i). unfold bit_of. rewrite offset_of_eq. bool_solve.
Qed.

Lemma bit_of_bit i : bit_of W i = bit W (i mod W).
Proof.
  pose proof (offset_range i). unfold bit_of, bit, bit_width. rewrite offset_of_eq.
  destruct (Z.leb_spec W (i mod W)); [lia|done].
Qed.

Lemma testbit_mask_from i j :
  0 <= j < W -> Z.testbit (mask_from W i) j = (i mod W <=? j).
Proof.
  intros Hj. pose proof (offset_range i). unfold mask_from. rewrite offset_of_eq.
  rewrite testbit_bnot, testbit_mask by lia. bool_solve.
Qed.

Lemma testbit_mask_upto i j :
  0 <= j < W -> Z.testbit (mask_upto W i) j = (j <=? i mod W).
Proof.
  intros Hj. pose proof (offset_range i). unfold mask_upto. rewrite offset_of_eq.
  unfold u32. rewrite wrap_small by (split; lia). rewrite testbit_mask by lia. bool_solve.
Qed.

Lemma mask_from_range i : in_width W (mask_from W i).
Proof. apply bnot_range. lia. Qed.

Lemma mask_upto_range i : in_width W (mask_upto W i).
Proof. apply mask_range; [lia|]. apply wrap_range. lia. Qed.

Lemma all_bits_range : in_width W (all_bits W).
Proof. apply bnot_range. lia. Qed.

Lemma zero_range : in_width W 0.
Proof. split; [lia | apply pow2_pos; lia]. Qed.

Hint Resolve mask_from_range mask_upto_range all_bits_range zero_range : width.

(** Every bit of a well-formed bitmap is determined by its words, and conversely. *)
Lemma wf_ext b1 b2 :
  wf b1 -> wf b2 -> (forall i, 0 <= i < capacity -> contains b1 i = contains b2 i) -> b1 = b2.
Proof.
  intros [Hl1 Hw1] [Hl2 Hw2] Heq. apply array_ext; [congruence|]. rewrite Hl1. intros k Hk.
  apply (width_bits_inj W); [lia | auto | auto |]. intros r Hr.
  specialize (Heq (k * W + r)). unfold contains in Heq.
  destruct (word_compose k r Hr) as [E1 E2]. rewrite E1, E2 in Heq. apply Heq.
  unfold capacity. nia.
Qed.

Lemma wf_zset b k x : wf b -> 0 <= k < COUNT -> in_width W x -> wf (zset b k x).
Proof.
  intros [Hl Hw] Hk Hx. split; [by rewrite zlen_zset|]. intros j Hj.
  rewrite znth_zset by lia. destruct (k =? j); auto.
Qed.

Lemma contains_zset b k x i :
  wf b -> 0 <= k < COUNT -> 0 <= i < capacity ->
  contains (zset b k x) i = if word_of i =? k then Z.testbit x (i mod W) else contains b i.
Proof.
  intros [Hl Hw] Hk Hi. pose proof (word_of_range i Hi). unfold contains.
  rewrite znth_zset, Z.eqb_sym by lia. by destruct (word_of i =? k).
Qed.

Lemma wf_init : wf (m_words_init W N).
Proof.
  pose proof count_nonneg. split; [by apply zlen_replicate|]. intros k Hk.
  unfold m_words_init. rewrite znth_replicate by lia. auto with width.
Qed.

Lemma contains_init i : 0 <= i < capacity -> contains (m_words_init W N) i = false.
Proof.
  intros Hi. unfold contains, m_words_init.
  rewrite znth_replicate by by apply word_of_range. apply Z.bits_0.
Qed.

Lemma wp_get_word b k Q : wf b -> 0 <= k < COUNT -> Q (znth b k) b -> wp (array_get k) Q b.
Proof. intros [Hl _] Hk HQ. apply wp_array_get; [lia|done]. Qed.

Lemma wp_set_word b k x (Q : unit -> list Z -> Prop) :
  wf b -> 0 <= k < COUNT -> Q tt (zset b k x) -> wp (array_set k x) Q b.
Proof. intros [Hl _] Hk HQ. apply wp_array_set; [lia|done]. Qed.

Lemma wp_apply_word b k selected v (Q : unit -> list Z -> Prop) :
  wf b -> 0 <= k < COUNT -> in_width W selected ->
  (forall b', wf b' ->
    (forall i, 0 <= i < capacity ->
      contains b' i =
        if (word_of i =? k) && Z.testbit selected (i mod W) then v else contains b i) ->
    Q tt b') ->
  wp (apply_word W k selected v) Q b.
Proof.
  intros Hb Hk Hs HQ. unfold apply_word. wp_step. apply wp_get_word; [done..|].
  destruct v; apply wp_set_word; try done; apply HQ.
  - apply wf_zset; [done..|]. pose proof (wf_words b Hb k Hk). auto with width.
  - intros i Hi. rewrite contains_zset by done. unfold contains.
    destruct (Z.eqb_spec (word_of i) k) as [<-|]; simpl; [|done]. bool_solve.
  - apply wf_zset; [done..|]. pose proof (wf_words b Hb k Hk).
    apply in_width_land; [done | apply bnot_range; lia | lia].
  - intros i Hi. rewrite contains_zset by done. unfold contains.
    pose proof (offset_range i).
    destruct (Z.eqb_spec (word_of i) k) as [<-|]; simpl; [|done]. bool_solve.
Qed.

Lemma last_index first count :
  0 <= first -> 0 < count -> first + count <= capacity ->
  u64 (first + count - 1) = first + count - 1.
Proof. intros. pose proof capacity_le. apply wrap_small. split; lia. Qed.

Lemma wp_apply b first count v (Q : unit -> list Z -> Prop) :
  wf b -> 0 <= first -> 0 <= count -> first + count <= capacity ->
  (forall b', assigned b b' first (first + count) v -> Q tt b') ->
  wp (apply W first count v) Q b.
Proof.
  intros Hb Hf Hc Hcap HQ. unfold apply. destruct (Z.eqb_spec count 0) as [->|Hnz].
  { apply wp_ret, HQ. split; [done|]. intros i Hi. bool_solve. }
  rewrite last_index by lia. cbv zeta. set (last := first + count - 1).
  assert (0 <= word_of first < COUNT) by (apply word_of_range; lia).
  assert (0 <= word_of last < COUNT) by (apply word_of_range; lia).
  assert (word_of first <= word_of last) by (rewrite !word_of_eq; apply Z.div_le_mono; lia).
  destruct (Z.eqb_spec (word_of first) (word_of last)) as [Hsame|Hdiff].
  { apply wp_apply_word; [done..| auto with width |]. intros b' Hb' Heq.
    apply HQ. split; [done|]. intros i Hi. rewrite Heq by done.
    pose proof (offset_range i). autorewrite with bits.
    rewrite testbit_mask_from, testbit_mask_upto by lia.
    pose proof (word_order first i). pose proof (word_order i last).
    destruct_comparisons; simpl; try done; lia. }
  wp_step. apply wp_apply_word; [done..| auto with width |]. intros b1 Hb1 Heq1.
  wp_step. apply (wp_for_range (fun k b' => wf b' /\ forall i, 0 <= i < capacity ->
    contains b' i = if (first <=? i) && (word_of i <? k) then v else contains b i)).
  { split; [done|]. intros i Hi. rewrite Heq1 by done.
    pose proof (offset_range i). rewrite testbit_mask_from by lia.
    pose proof (word_order first i).
    destruct_comparisons; simpl; try done; lia. }
  { intros k b2 Hk [Hb2 Heq2]. apply wp_set_word; [done | lia |].
    assert (in_width W (if v then all_bits W else 0)) by (destruct v; auto with width).
    split; [apply wf_zset; [done|lia|done]|]. intros i Hi.
    rewrite contains_zset by (done || lia).
    pose proof (offset_range i). pose proof (word_order first i).
    destruct (Z.eqb_spec (word_of i) k) as [<-|].
    - transitivity v.
      + destruct v; [rewrite testbit_all_bits by lia|rewrite Z.bits_0; done]. apply Z.ltb_lt. lia.
      + destruct_comparisons; simpl; try done; lia.
    - rewrite Heq2 by done. destruct_comparisons; simpl; try done; lia. }
  rewrite Z.max_r by lia. intros b2 [Hb2 Heq2].
  apply wp_apply_word; [done..| auto with width |]. intros b3 Hb3 Heq3.
  apply HQ. split; [done|]. intros i Hi. rewrite Heq3, Heq2 by done.
  pose proof (offset_range i). rewrite testbit_mask_upto by lia.
  pose proof (word_order first i). pose proof (word_order i last).
  destruct_comparisons; simpl; try done; lia.
Qed.

(** ** One bit *)

Lemma wp_test b i (Q : bool -> list Z -> Prop) :
  wf b -> 0 <= i < capacity -> Q (contains b i) b -> wp (test W i) Q b.
Proof.
  intros Hb Hi HQ. pose proof (word_of_range i Hi). unfold test. wp_step.
  apply wp_get_word; [done..|].
  apply wp_ret. rewrite bit_of_bit, land_bit_nonzero by (lia || apply offset_range). done.
Qed.

Lemma wp_update b i (f : Z -> Z -> Z) v (Q : unit -> list Z -> Prop) :
  wf b -> 0 <= i < capacity ->
  (forall x, in_width W x -> in_width W (f x (bit_of W i))) ->
  (forall x j, in_width W x -> 0 <= j < W ->
    Z.testbit (f x (bit_of W i)) j = if j =? i mod W then v (Z.testbit x j) else Z.testbit x j) ->
  (forall b', wf b' -> (forall j, 0 <= j < capacity ->
    contains b' j = if j =? i then v (contains b j) else contains b j) -> Q tt b') ->
  wp (word ← array_get (word_of i); array_set (word_of i) (f word (bit_of W i))) Q b.
Proof.
  intros Hb Hi Hrange Hbit HQ. pose proof (word_of_range i Hi) as Hw.
  wp_step. apply wp_get_word; [done..|]. apply wp_set_word; [done..|].
  pose proof (wf_words b Hb _ Hw). apply HQ.
  - by apply wf_zset; auto.
  - intros j Hj. rewrite contains_zset by done. unfold contains.
    destruct (Z.eqb_spec (word_of j) (word_of i)) as [Heq|Hne].
    + rewrite Hbit, Heq by (done || apply offset_range).
      pose proof (word_decompose i). pose proof (word_decompose j).
      destruct (Z.eqb_spec (j mod W) (i mod W)), (Z.eqb_spec j i); subst; try done; nia.
    + destruct (Z.eqb_spec j i); [by subst|done].
Qed.

Lemma wp_set b i (Q : unit -> list Z -> Prop) :
  wf b -> 0 <= i < capacity -> (forall b', assigned b b' i (i + 1) true -> Q tt b') ->
  wp (set W i) Q b.
Proof.
  intros Hb Hi HQ. apply (wp_update b i Z.lor (fun _ => true)); [done..| | |].
  - intros x Hx. apply in_width_lor; [done| |lia]. rewrite bit_of_bit.
    apply bit_width_range; [lia | apply offset_range].
  - intros x j Hx Hj. rewrite Z.lor_spec, testbit_bit_of by lia. bool_solve.
  - intros b' Hb' Heq. apply HQ. split; [done|]. intros j Hj. rewrite Heq by done.
    destruct_comparisons; simpl; try done; lia.
Qed.

Lemma wp_clear b i (Q : unit -> list Z -> Prop) :
  wf b -> 0 <= i < capacity -> (forall b', assigned b b' i (i + 1) false -> Q tt b') ->
  wp (clear W i) Q b.
Proof.
  intros Hb Hi HQ. apply (wp_update b i (fun x y => Z.land x (bnot W y)) (fun _ => false)); [done..| | |].
  - intros x Hx. apply in_width_land; [done | apply bnot_range; lia | lia].
  - intros x j Hx Hj. rewrite Z.land_spec, testbit_bnot, testbit_bit_of by lia. bool_solve.
  - intros b' Hb' Heq. apply HQ. split; [done|]. intros j Hj. rewrite Heq by done.
    destruct_comparisons; simpl; try done; lia.
Qed.

Lemma wp_toggle b i (Q : unit -> list Z -> Prop) :
  wf b -> 0 <= i < capacity ->
  (forall b', wf b' -> (forall j, 0 <= j < capacity ->
    contains b' j = xorb (contains b j) (j =? i)) -> Q tt b') ->
  wp (toggle W i) Q b.
Proof.
  intros Hb Hi HQ. apply (wp_update b i Z.lxor negb); [done..| | |].
  - intros x Hx. apply in_width_lxor; [done| |lia]. rewrite bit_of_bit.
    apply bit_width_range; [lia | apply offset_range].
  - intros x j Hx Hj. rewrite Z.lxor_spec, testbit_bit_of by lia. bool_solve.
  - intros b' Hb' Heq. apply HQ; [done|]. intros j Hj. rewrite Heq by done.
    destruct (j =? i); simpl; by destruct (contains b j).
Qed.

(** ** Searching *)

Lemma countr_zero_bits_spec n x :
  0 <= x < 2 ^ Z.of_nat n -> x <> 0 ->
  let c := countr_zero_bits n x in
  0 <= c < Z.of_nat n /\ Z.testbit x c = true /\
  forall j, 0 <= j < c -> Z.testbit x j = false.
Proof.
  revert x. induction n as [|n IH]; intros x Hx Hnz; cbn [countr_zero_bits]; [lia|].
  destruct (Z.odd x) eqn:Hodd.
  - rewrite Z.bit0_odd. split_and!; [lia..|done|lia].
  - pose proof (Z.div2_odd x) as Hd. rewrite Hodd in Hd. simpl in Hd.
    rewrite Nat2Z.inj_succ, Z.pow_succ_r in Hx by lia.
    destruct (IH (Z.div2 x)) as (Hc & Ht & Hlow); [lia..|].
    set (c := countr_zero_bits n (Z.div2 x)) in *.
    rewrite Z.div2_spec, Z.shiftr_spec in Ht by lia.
    split_and!; [lia..| by rewrite Z.add_comm |].
    intros j Hj. destruct (Z.eq_dec j 0) as [->|]; [by rewrite Z.bit0_odd|].
    specialize (Hlow (j - 1) ltac:(lia)). rewrite Z.div2_spec, Z.shiftr_spec in Hlow by lia.
    by replace (j - 1 + 1) with j in Hlow by lia.
Qed.

Lemma countr_zero_spec x :
  in_width W x -> x <> 0 ->
  0 <= countr_zero W x < W /\ Z.testbit x (countr_zero W x) = true /\
  forall j, 0 <= j < countr_zero W x -> Z.testbit x j = false.
Proof.
  intros Hx Hnz. unfold countr_zero.
  destruct (countr_zero_bits_spec (Z.to_nat W) x) as (Hc & Ht & Hl).
  - rewrite Z2Nat.id by lia. apply Hx.
  - done.
  - rewrite Z2Nat.id in Hc by lia. done.
Qed.

(** [r] is the result of a search of [lo, hi) for the first set bit. *)
Definition first_set (b : list Z) (lo hi r : Z) : Prop :=
  (r = NPOS /\ forall i, lo <= i < hi -> contains b i = false) \/
  (lo <= r < hi /\ contains b r = true /\ forall i, lo <= i < r -> contains b i = false).

Lemma contains_word b k j :
  0 <= j < W -> contains b (k * W + j) = Z.testbit (znth b k) j.
Proof. intros Hj. unfold contains. by destruct (word_compose k j Hj) as [-> ->]. Qed.

(** A masked word gives the first set bit of the part of [lo, hi) that lies in word [k]. *)
Lemma search_word b k selected lo hi :
  0 <= k < COUNT -> in_width W selected ->
  (forall j, 0 <= j < W -> Z.testbit selected j =
    Z.testbit (znth b k) j && ((lo <=? k * W + j) && (k * W + j <? hi))) ->
  if selected =? 0
  then forall i, word_of i = k -> lo <= i < hi -> contains b i = false
  else let r := u64 (k * W + countr_zero W selected) in
    word_of r = k /\ lo <= r < hi /\ contains b r = true /\
    forall i, word_of i = k -> lo <= i < r -> contains b i = false.
Proof.
  intros Hk Hs Hbits.
  assert (Hin : forall i, word_of i = k -> lo <= i < hi ->
    Z.testbit selected (i mod W) = contains b i).
  { intros i Hi Hr. pose proof (offset_range i). rewrite Hbits by lia.
    pose proof (word_decompose i) as E. rewrite Hi in E. rewrite <- E.
    unfold contains. rewrite Hi. destruct_comparisons; try lia. apply andb_true_r. }
  destruct (Z.eqb_spec selected 0) as [H0|Hnz].
  - intros i Hi Hr. rewrite <- Hin by done. rewrite H0. apply Z.bits_0.
  - destruct (countr_zero_spec selected Hs Hnz) as (Hc & Ht & Hl).
    set (c := countr_zero W selected) in *. cbv zeta.
    assert (u64 (k * W + c) = k * W + c) as ->.
    { pose proof capacity_le. unfold capacity in *. apply wrap_small. split; nia. }
    destruct (word_compose k c Hc) as [E1 E2].
    rewrite Hbits in Ht by lia. apply andb_true_iff in Ht as [Ht1 Ht2].
    apply andb_true_iff in Ht2 as [Ht2 Ht3].
    split_and!; [done | lia | lia | by rewrite contains_word |].
    intros i Hi Hr. rewrite <- Hin by (done || lia). apply Hl.
    pose proof (offset_range i). pose proof (word_decompose i) as E. rewrite Hi in E. lia.
Qed.

(** A scan over whole words: nothing is set below word [k]. *)
Definition clear_below (b : list Z) (lo k : Z) : Prop :=
  forall i, lo <= i -> word_of i < k -> contains b i = false.

Lemma clear_below_step b lo k :
  clear_below b lo k -> (forall i, word_of i = k -> lo <= i -> contains b i = false) ->
  clear_below b lo (k + 1).
Proof.
  intros Hb Hk i Hi Hw. destruct (Z.eq_dec (word_of i) k); [by apply Hk|]. apply Hb; lia.
Qed.

(** A hit in word [k], with nothing set below it, ends the search. *)
Lemma first_set_in_word b lo hi k r :
  clear_below b lo k ->
  word_of r = k /\ lo <= r < hi /\ contains b r = true /\
    (forall i, word_of i = k -> lo <= i < r -> contains b i = false) ->
  first_set b lo hi r.
Proof.
  intros Hclear (Hrk & Hr & Ht & Hbelow). right. split_and!; [lia | lia | done |]. intros j Hj.
  destruct (Z.eq_dec (word_of j) k); [apply Hbelow; lia|].
  apply Hclear; [lia|]. pose proof (word_order j r). lia.
Qed.

Lemma wp_find_set b first_word words (Q : Z -> list Z -> Prop) :
  wf b -> 0 <= first_word -> 0 <= words -> first_word + words <= COUNT ->
  (forall r, first_set b (first_word * W) ((first_word + words) * W) r -> Q r b) ->
  wp (find_set W first_word words) Q b.
Proof.
  intros Hb Hf Hw Hcap HQ. unfold find_set. wp_step.
  pose proof capacity_le. unfold capacity in *.
  set (lo := first_word * W). set (hi := (first_word + words) * W).
  apply (wp_scan_range
    (fun i b' => b' = b /\ clear_below b lo (first_word + i))
    (fun r b' => b' = b /\ first_set b lo hi r)).
  - split; [done|]. intros i Hi Hlt. apply word_lt in Hlt. subst lo. lia.
  - intros i b' Hi [-> Hclear].
    assert (u64 (first_word + i) = first_word + i) as -> by (apply wrap_small; split; nia).
    set (k := first_word + i) in *. wp_step. apply wp_get_word; [done | lia |].
    apply wp_ret.
    assert (Hs := search_word b k (znth b k) lo hi ltac:(lia) (wf_words b Hb k ltac:(lia))).
    premise Hs.
    { intros j Hj. subst lo hi k. destruct_comparisons; try nia. by rewrite andb_true_r. }
    destruct (znth b k =? 0); cbn [negb].
    + split; [done|]. replace (first_word + (i + 1)) with (k + 1) by lia.
      apply clear_below_step; [done|]. intros j Hj Hlo. apply Hs; [done|].
      split; [done|]. apply word_lt. lia.
    + split; [done|]. by apply first_set_in_word with k.
  - intros r b' [-> Hr]. apply wp_ret. by apply HQ.
  - intros b' [-> Hclear]. rewrite Z.max_r in Hclear by lia. apply wp_ret. apply HQ. left.
    split; [done|]. intros i Hi. apply Hclear; [lia|]. apply word_lt. lia.
Qed.

(** A word masked by [mask_from] or [mask_upto], or not masked, as [search_word] needs it. *)
Lemma wp_find_set_in b first count (Q : Z -> list Z -> Prop) :
  wf b -> 0 <= first -> 0 <= count -> first + count <= capacity ->
  (forall r, first_set b first (first + count) r -> Q r b) ->
  wp (find_set_in W first count) Q b.
Proof.
  intros Hb Hf Hc Hcap HQ. unfold find_set_in. destruct (Z.eqb_spec count 0) as [->|Hnz].
  { apply wp_ret, HQ. left. split; [done|]. lia. }
  rewrite last_index by lia. cbv zeta. change (BITS_PER_STORAGE_TYPE_INSTANCE W) with W.
  set (last := first + count - 1).
  assert (Hfw : 0 <= word_of first < COUNT) by (apply word_of_range; lia).
  assert (Hlw : 0 <= word_of last < COUNT) by (apply word_of_range; lia).
  assert (word_of first <= word_of last) by (rewrite !word_of_eq; apply Z.div_le_mono; lia).
  assert (Hstart : clear_below b first (word_of first)).
  { intros i Hi Hlt. apply word_order in Hi. lia. }
  assert (Hcmp : forall k j, 0 <= j < W ->
    (first <= k * W + j <-> word_of first < k \/ word_of first = k /\ first mod W <= j) /\
    (k * W + j < first + count <-> k < word_of last \/ k = word_of last /\ j <= last mod W)).
  { intros k j Hj. pose proof (word_order first (k * W + j)) as H1.
    pose proof (word_order (k * W + j) last) as H2.
    destruct (word_compose k j Hj) as [E1 E2]. rewrite E1, E2 in *. lia. }
  destruct (Z.eqb_spec (word_of first) (word_of last)) as [Hsame|Hdiff].
  { wp_step. apply wp_get_word; [done..|]. apply wp_ret. apply HQ.
    assert (Hs := search_word b (word_of first)
      (Z.land (Z.land (znth b (word_of first)) (mask_from W first)) (mask_upto W last))
      first (first + count) Hfw).
    premise Hs; [|premise Hs].
    - pose proof (wf_words b Hb _ Hfw). auto with width.
    - intros j Hj. autorewrite with bits. rewrite testbit_mask_from, testbit_mask_upto by lia.
      pose proof (Hcmp (word_of first) j Hj). rewrite <- andb_assoc. f_equal.
      destruct_comparisons; try done; lia.
    - case_match; cbn [negb]; [|by eapply first_set_in_word].
      left. split; [done|]. intros i Hi. apply Hs; [|done].
      pose proof (word_order first i). pose proof (word_order i last). lia. }
  wp_step. apply wp_get_word; [done..|].
  assert (Hs := search_word b (word_of first) (Z.land (znth b (word_of first)) (mask_from W first))
    first (first + count) Hfw).
  premise Hs.
  { pose proof (wf_words b Hb _ Hfw). auto with width. }
  premise Hs.
  { intros j Hj. autorewrite with bits. rewrite testbit_mask_from by lia.
    pose proof (Hcmp (word_of first) j Hj). f_equal. destruct_comparisons; try done; lia. }
  destruct (Z.land _ _ =? 0); cbn [negb]; [|apply wp_ret, HQ; by eapply first_set_in_word].
  wp_step. apply (wp_scan_range
    (fun k b' => b' = b /\ clear_below b first k)
    (fun r b' => b' = b /\ first_set b first (first + count) r)).
  - split; [done|]. apply clear_below_step; [done|]. intros i Hi Hlo. apply Hs; [done|].
    pose proof (word_order i last). lia.
  - intros k b' Hk [-> Hclear]. wp_step. apply wp_get_word; [done | lia |]. apply wp_ret.
    assert (Hm := search_word b k (znth b k) first (first + count) ltac:(lia)
      (wf_words b Hb k ltac:(lia))).
    premise Hm.
    { intros j Hj. pose proof (Hcmp k j Hj).
      destruct_comparisons; try lia; by rewrite andb_true_r. }
    destruct (znth b k =? 0); cbn [negb]; (split; [done|]); [|by eapply first_set_in_word].
    apply clear_below_step; [done|]. intros i Hi Hlo. apply Hm; [done|].
    pose proof (word_order i last). lia.
  - intros r b' [-> Hr]. apply wp_ret. by apply HQ.
  - intros b' [-> Hclear]. rewrite Z.max_r in Hclear by lia.
    wp_step. apply wp_get_word; [done..|]. apply wp_ret. apply HQ.
    assert (Hm := search_word b (word_of last) (Z.land (znth b (word_of last)) (mask_upto W last))
      first (first + count) Hlw).
    premise Hm; [|premise Hm].
    + pose proof (wf_words b Hb _ Hlw). auto with width.
    + intros j Hj. autorewrite with bits. rewrite testbit_mask_upto by lia.
      pose proof (Hcmp (word_of last) j Hj). f_equal. destruct_comparisons; try done; lia.
    + case_match; cbn [negb]; [|by eapply first_set_in_word].
      left. split; [done|]. intros i Hi.
      destruct (Z.eq_dec (word_of i) (word_of last)); [by apply Hm|]. apply Hclear; [lia|].
      pose proof (word_order i last). lia.
Qed.

(** ** Counting *)

Lemma popcount_bits_spec n x : popcount_bits n x = count_range (Z.testbit x) 0 (Z.of_nat n).
Proof.
  revert x. induction n as [|n IH]; intros x; cbn [popcount_bits]; [done|].
  rewrite IH, (count_range_split _ 0 1 (Z.of_nat (S n))) by lia.
  change (count_range (Z.testbit x) 0 1) with (Z.b2z (Z.testbit x 0) + 0).
  rewrite Z.bit0_odd, Z.add_0_r. f_equal.
  rewrite Nat2Z.inj_succ, <- Z.add_1_r. change 1 with (0 + 1) at 1.
  rewrite <- count_range_shift. apply count_range_ext. intros i Hi.
  by rewrite Z.div2_spec, Z.shiftr_spec by lia.
Qed.

(** The population count of a word counts the bits it stands for. *)
Lemma popcount_word x k (f : Z -> bool) :
  (forall j, 0 <= j < W -> Z.testbit x j = f (k * W + j)) ->
  popcount W x = count_range f (k * W) ((k + 1) * W).
Proof.
  intros Hx. unfold popcount. rewrite popcount_bits_spec, Z2Nat.id by lia.
  rewrite (count_range_ext _ (fun j => f (j + k * W))).
  - rewrite count_range_shift. f_equal; lia.
  - intros j Hj. rewrite Hx by lia. f_equal. lia.
Qed.

Lemma popcount_contains b k :
  popcount W (znth b k) = count_range (contains b) (k * W) ((k + 1) * W).
Proof. apply popcount_word. intros j Hj. by rewrite contains_word. Qed.

Lemma u64_count f lo hi :
  0 <= lo -> hi <= capacity -> u64 (count_range f lo hi) = count_range f lo hi.
Proof.
  intros. pose proof (count_range_bounds f lo hi). pose proof capacity_le.
  apply wrap_small. split; lia.
Qed.

Lemma wp_count_set b first_word words (Q : Z -> list Z -> Prop) :
  wf b -> 0 <= first_word -> 0 <= words -> first_word + words <= COUNT ->
  Q (count_range (contains b) (first_word * W) ((first_word + words) * W)) b ->
  wp (count_set W first_word words) Q b.
Proof.
  intros Hb Hf Hw Hcap HQ. unfold count_set.
  pose proof capacity_le. unfold capacity in *.
  apply (wp_for_fold (fun i total b' => b' = b /\
    total = count_range (contains b) (first_word * W) ((first_word + i) * W))).
  - split; [done|]. by rewrite Z.add_0_r, count_range_empty by lia.
  - intros i total b' Hi [-> ->].
    assert (u64 (first_word + i) = first_word + i) as -> by (apply wrap_small; split; nia).
    wp_step. apply wp_get_word; [done|lia|]. apply wp_ret. split; [done|].
    rewrite popcount_contains, <- count_range_split by nia.
    rewrite u64_count by (unfold capacity; nia). f_equal. lia.
  - rewrite Z.max_r by lia. by intros total b' [-> ->].
Qed.

Lemma popcount_masked b k lo hi x :
  k * W <= lo -> lo <= hi -> hi <= (k + 1) * W ->
  (forall j, 0 <= j < W ->
    Z.testbit x j = contains b (k * W + j) && ((lo <=? k * W + j) && (k * W + j <? hi))) ->
  popcount W x = count_range (contains b) lo hi.
Proof.
  intros H1 H2 H3 Hx. rewrite (popcount_word x k (fun i => contains b i && ((lo <=? i) && (i <? hi)))) by done.
  rewrite (count_range_split _ _ lo), (count_range_split _ lo hi) by lia.
  rewrite (proj2 (count_range_zero _ (k * W) lo)), (proj2 (count_range_zero _ hi _)).
  - rewrite Z.add_0_r, Z.add_0_l. apply count_range_ext. intros i Hi.
    destruct_comparisons; try lia. apply andb_true_r.
  - intros i Hi. destruct_comparisons; try lia; by rewrite !andb_false_r.
  - intros i Hi. destruct_comparisons; try lia; by rewrite andb_false_r.
Qed.

Lemma wp_count_set_in b first count (Q : Z -> list Z -> Prop) :
  wf b -> 0 <= first -> 0 <= count -> first + count <= capacity ->
  Q (count_range (contains b) first (first + count)) b ->
  wp (count_set_in W first count) Q b.
Proof.
  intros Hb Hf Hc Hcap HQ. unfold count_set_in. destruct (Z.eqb_spec count 0) as [->|Hnz].
  { apply wp_ret. by rewrite Z.add_0_r, count_range_empty in HQ by lia. }
  rewrite last_index by lia. cbv zeta. set (last := first + count - 1).
  assert (Hfw : 0 <= word_of first < COUNT) by (apply word_of_range; lia).
  assert (Hlw : 0 <= word_of last < COUNT) by (apply word_of_range; lia).
  assert (word_of first <= word_of last) by (rewrite !word_of_eq; apply Z.div_le_mono; lia).
  pose proof (word_decompose first) as Hfd. pose proof (word_decompose last) as Hld.
  pose proof (offset_range first). pose proof (offset_range last).
  set (fw := word_of first) in *. set (lw := word_of last) in *.
  assert (Hmask_first : forall hi, first <= hi <= (fw + 1) * W -> forall x,
    (forall j, 0 <= j < W -> Z.testbit x j = Z.testbit (znth b fw) j && (first mod W <=? j) &&
      (fw * W + j <? hi)) ->
    popcount W x = count_range (contains b) first hi).
  { intros hi Hhi x Hx. apply (popcount_masked b fw); [lia..|]. intros j Hj.
    rewrite Hx, contains_word by lia. rewrite <- andb_assoc. f_equal.
    destruct_comparisons; try done; lia. }
  destruct (Z.eqb_spec fw lw) as [Hsame|Hdiff].
  { wp_step. apply wp_get_word; [done..|]. apply wp_ret.
    rewrite (Hmask_first (first + count)); [done | nia |]. intros j Hj.
    autorewrite with bits. rewrite testbit_mask_from, testbit_mask_upto by lia. f_equal.
    destruct_comparisons; try done; lia. }
  wp_step. apply wp_get_word; [done..|]. wp_step.
  rewrite (Hmask_first ((fw + 1) * W)); [|nia|].
  2: { intros j Hj. autorewrite with bits. rewrite testbit_mask_from by lia.
    destruct_comparisons; try lia; by rewrite !andb_true_r. }
  apply (wp_for_fold (fun k total b' => b' = b /\
    total = count_range (contains b) first (k * W))).
  { done. }
  { intros k total b' Hk [-> ->]. wp_step. apply wp_get_word; [done|lia|]. apply wp_ret.
    split; [done|]. rewrite popcount_contains, <- count_range_split by nia.
    rewrite u64_count by (unfold capacity in *; nia). done. }
  rewrite Z.max_r by lia. intros total b' [-> ->].
  wp_step. apply wp_get_word; [done..|]. apply wp_ret.
  rewrite (popcount_masked b lw (lw * W) (first + count)).
  - rewrite <- count_range_split by nia. rewrite u64_count by lia. done.
  - lia.
  - lia.
  - nia.
  - intros j Hj. autorewrite with bits. rewrite testbit_mask_upto, contains_word by lia. f_equal.
    destruct_comparisons; try done; lia.
Qed.

(** ** Whole-bitmap operations *)

(** A loop that overwrites every word. *)
Lemma wp_overwrite b (f : Z -> Z) (Q : unit -> list Z -> Prop) :
  wf b -> (forall k, 0 <= k < COUNT -> in_width W (f k)) ->
  (forall b', wf b' -> (forall k, 0 <= k < COUNT -> znth b' k = f k) -> Q tt b') ->
  wp (for_range 0 COUNT (fun word => array_set word (f word))) Q b.
Proof.
  intros Hb Hf HQ. pose proof count_nonneg.
  apply (wp_for_range (fun k b' => wf b' /\ forall j, 0 <= j < k -> znth b' j = f j)).
  - split; [done|lia].
  - intros k b' Hk [Hb' Heq]. apply wp_set_word; [done..|]. split.
    { apply wf_zset; auto. }
    intros j Hj. rewrite znth_zset by (destruct Hb'; lia).
    destruct (Z.eqb_spec k j) as [->|]; [done|]. apply Heq. lia.
  - rewrite Z.max_r by lia. intros b' [Hb' Heq]. by apply HQ.
Qed.

Lemma wp_reset_words b (Q : unit -> list Z -> Prop) :
  wf b -> (forall b', assigned b b' 0 capacity false -> Q tt b') -> wp (reset W N) Q b.
Proof.
  intros Hb HQ. apply (wp_overwrite b (fun _ => 0)); [done | auto with width |].
  intros b' Hb' Heq. apply HQ. split; [done|]. intros i Hi.
  unfold contains. rewrite Heq, Z.bits_0 by by apply word_of_range.
  destruct_comparisons; simpl; try done; lia.
Qed.

Lemma wp_fill b (Q : unit -> list Z -> Prop) :
  wf b -> (forall b', assigned b b' 0 capacity true -> Q tt b') -> wp (fill W N) Q b.
Proof.
  intros Hb HQ. apply (wp_overwrite b (fun _ => all_bits W)); [done | auto with width |].
  intros b' Hb' Heq. apply HQ. split; [done|]. intros i Hi. pose proof (offset_range i).
  unfold contains. rewrite Heq, testbit_all_bits by (try apply word_of_range; lia).
  destruct_comparisons; simpl; try done; lia.
Qed.

(** The word a left shift by [ws] words and [bs] bits puts at [d], and the one of a right shift. *)
Lemma shift_left_word b d ws bs (below : Z) j :
  wf b -> 0 <= ws <= d -> d < COUNT -> 0 <= bs < W -> 0 <= j < W ->
  (bs <> 0 -> d <> ws -> below = znth b (d - ws - 1)) -> (bs = 0 \/ d = ws -> below = 0) ->
  Z.testbit (Z.lor (wrap W (Z.shiftl (znth b (d - ws)) bs)) (Z.shiftr below (W - bs))) j =
  (ws * W + bs <=? d * W + j) && contains b (d * W + j - (ws * W + bs)).
Proof.
  intros Hb Hws Hd Hbs Hj Hbelow Hzero.
  autorewrite with bits. rewrite Z.shiftl_spec by lia.
  destruct (Z_lt_le_dec j bs) as [Hlow|Hhigh].
  - rewrite (Z.testbit_neg_r _ (j - bs)), andb_false_r by lia. simpl.
    destruct (Z.eq_dec d ws) as [->|Hne].
    + rewrite Hzero, Z.bits_0 by lia. destruct_comparisons; [lia|done].
    + rewrite Hbelow by lia.
      replace (d * W + j - (ws * W + bs)) with ((d - ws - 1) * W + (j + (W - bs))) by lia.
      rewrite contains_word by lia. destruct_comparisons; [done|nia].
  - replace (d * W + j - (ws * W + bs)) with ((d - ws) * W + (j - bs)) by lia.
    rewrite contains_word by lia.
    assert (Z.testbit below (j + (W - bs)) = false) as ->.
    { destruct (Z.eq_dec bs 0) as [->|]; [by rewrite Hzero, Z.bits_0 by lia|].
      destruct (Z.eq_dec d ws) as [->|]; [by rewrite Hzero, Z.bits_0 by lia|].
      rewrite Hbelow by lia. apply (testbit_high W); [|lia]. apply (wf_words b Hb). lia. }
    rewrite orb_false_r. destruct_comparisons; try done; nia.
Qed.

Lemma shift_right_word b d ws bs (above : Z) j :
  wf b -> 0 <= ws -> 0 <= d -> d + ws < COUNT -> 0 <= bs < W -> 0 <= j < W ->
  (bs <> 0 -> d + ws + 1 < COUNT -> above = znth b (d + ws + 1)) ->
  (bs = 0 \/ d + ws + 1 = COUNT -> above = 0) ->
  Z.testbit (Z.lor (Z.shiftr (znth b (d + ws)) bs) (Z.shiftl above (W - bs))) j =
  (d * W + j + (ws * W + bs) <? capacity) && contains b (d * W + j + (ws * W + bs)).
Proof.
  intros Hb Hws Hd Hsrc Hbs Hj Habove Hzero.
  rewrite Z.lor_spec, Z.shiftr_spec, Z.shiftl_spec by lia. unfold capacity.
  destruct (Z_lt_le_dec (j + bs) W) as [Hlow|Hhigh].
  - rewrite (Z.testbit_neg_r _ (j - (W - bs))), orb_false_r by lia.
    replace (d * W + j + (ws * W + bs)) with ((d + ws) * W + (j + bs)) by lia.
    rewrite contains_word by lia. destruct_comparisons; [done|nia].
  - rewrite (testbit_high W (znth b (d + ws)) (j + bs)) by (try apply (wf_words b Hb); lia).
    rewrite orb_false_l.
    destruct (Z.eq_dec (d + ws + 1) COUNT) as [He|Hne].
    + rewrite Hzero, Z.bits_0 by lia. destruct_comparisons; [nia|done].
    + rewrite Habove by lia.
      replace (d * W + j + (ws * W + bs)) with ((d + ws + 1) * W + (j - (W - bs))) by lia.
      rewrite contains_word by lia. destruct_comparisons; [done|nia].
Qed.

(** The state of a shift in place: words on the far side of [d] hold the shifted bits [f], the
    others are those of the original bitmap. *)
Definition shifting (b b' : list Z) (done_ : Z -> bool) (f : Z -> bool) : Prop :=
  wf b' /\
  (forall k, 0 <= k < COUNT -> done_ k = false -> znth b' k = znth b k) /\
  (forall i, 0 <= i < capacity -> done_ (word_of i) = true -> contains b' i = f i).

Lemma shifting_step b b' d x (done_ done_' f : Z -> bool) :
  shifting b b' done_ f -> 0 <= d < COUNT -> in_width W x ->
  (forall k, done_' k = (k =? d) || done_ k) ->
  (forall j, 0 <= j < W -> Z.testbit x j = f (d * W + j)) ->
  shifting b (zset b' d x) done_' f.
Proof.
  intros (Hb' & Hsame & Hdone) Hd Hx Hd' Hbits. split_and!.
  - by apply wf_zset.
  - intros k Hk Hnot. rewrite Hd' in Hnot. apply orb_false_iff in Hnot as [Hne Hnot].
    apply Z.eqb_neq in Hne. rewrite znth_zset_ne by lia. by apply Hsame.
  - intros i Hi Hin. rewrite contains_zset by done. rewrite Hd' in Hin.
    destruct (Z.eqb_spec (word_of i) d) as [<-|Hne]; [|by apply Hdone].
    rewrite Hbits by apply offset_range. f_equal. symmetry. apply word_decompose.
Qed.

(** Shifting left by [count]: bit [i] of the result is bit [i - count] of the original. *)
Definition shifted_left (b : list Z) (count i : Z) : bool :=
  (count <=? i) && contains b (i - count).

(** Shifting right: bit [i] of the result is bit [i + count], and 0 beyond the capacity. *)
Definition shifted_right (b : list Z) (count i : Z) : bool :=
  (i + count <? capacity) && contains b (i + count).

Lemma wp_shift_left_body b count d b' :
  wf b -> 0 < count < N -> 0 <= d < COUNT ->
  shifting b b' (fun k => d + 1 <=? k) (shifted_left b count) ->
  let ws := count / W in
  let bs := count mod W in
  wp (if d <? ws then array_set d 0
      else
        word ← array_get (d - ws);
        if negb (bs =? 0) && negb (d - ws =? 0) then
          below ← array_get (d - ws - 1);
          array_set d (Z.lor (wrap W (Z.shiftl word bs)) (Z.shiftr below (W - bs)))
        else array_set d (wrap W (Z.shiftl word bs)))
    (fun _ b'' => shifting b b'' (fun k => d <=? k) (shifted_left b count)) b'.
Proof.
  intros Hb Hc Hd Hinv ws bs. pose proof Hinv as (Hb' & Hsame & _).
  assert (Hws : 0 <= ws) by (apply Z.div_pos; lia).
  assert (Hbs : 0 <= bs < W) by apply offset_range.
  assert (Hcount : count = ws * W + bs) by (unfold ws, bs; pose proof (Z.div_mod count W); lia).
  clearbody ws bs.
  assert (Hstep : forall x, in_width W x ->
    (forall j, 0 <= j < W -> Z.testbit x j = shifted_left b count (d * W + j)) ->
    shifting b (zset b' d x) (fun k => d <=? k) (shifted_left b count)).
  { intros x Hx Hbits. eapply shifting_step; [done..| |done]. intros k. bool_solve. }
  assert (Hget : forall k, 0 <= k <= d -> znth b' k = znth b k).
  { intros k Hk. apply Hsame; [lia|]. apply Z.leb_gt. lia. }
  destruct (Z.ltb_spec d ws) as [Hlow|Hhigh].
  { apply wp_set_word; [done..|]. apply Hstep; [auto with width|]. intros j Hj.
    rewrite Z.bits_0. unfold shifted_left. destruct_comparisons; [nia|done]. }
  wp_step. apply wp_get_word; [done|lia|]. rewrite Hget by lia.
  assert (Hr : forall x, in_width W (wrap W x)) by (intros; apply wrap_range; lia).
  destruct (negb (bs =? 0) && negb (d - ws =? 0)) eqn:Hcase.
  - apply andb_true_iff in Hcase as [H1%negb_true_iff%Z.eqb_neq H2%negb_true_iff%Z.eqb_neq].
    wp_step. apply wp_get_word; [done|lia|]. rewrite Hget by lia.
    apply wp_set_word; [done..|]. apply Hstep.
    { apply in_width_lor; [done| |lia]. pose proof (wf_words b Hb (d - ws - 1) ltac:(lia)) as [H3 H4].
      split; [by apply Z.shiftr_nonneg|]. rewrite Z.shiftr_div_pow2 by lia.
      pose proof (pow2_pos (W - bs)). apply Z.div_lt_upper_bound; nia. }
    intros j Hj. rewrite (shift_left_word b d ws bs) by (done || lia). by rewrite <- Hcount.
  - apply andb_false_iff in Hcase.
    apply wp_set_word; [done..|]. apply Hstep; [done|].
    intros j Hj. rewrite <- (Z.lor_0_r (wrap W _)), <- (Z.shiftr_0_l (W - bs)).
    rewrite (shift_left_word b d ws bs) by (done || lia). by rewrite <- Hcount.
Qed.

Lemma wp_shift_left b count (Q : unit -> list Z -> Prop) :
  wf b -> 0 <= count ->
  (forall b', wf b' -> (forall i, 0 <= i < capacity -> contains b' i = shifted_left b count i) ->
    Q tt b') ->
  wp (shift_left W N count) Q b.
Proof.
  intros Hb Hc HQ. pose proof count_nonneg. pose proof capacity_le. unfold shift_left.
  destruct (Z.eqb_spec count 0) as [->|Hnz].
  { apply wp_ret, HQ; [done|]. intros i Hi. unfold shifted_left. rewrite Z.sub_0_r.
    destruct_comparisons; [done|lia]. }
  destruct (Z.leb_spec N count).
  { apply wp_reset_words; [done|]. intros b' [Hb' Heq]. apply HQ; [done|]. intros i Hi.
    rewrite Heq by done. unfold shifted_left. destruct_comparisons; simpl; try done; lia. }
  cbv zeta. change (BITS_PER_STORAGE_TYPE_INSTANCE W) with W.
  apply (wp_for_down (fun d b' => shifting b b' (fun k => d <=? k) (shifted_left b count))).
  - done.
  - split_and!; [done..|]. intros i Hi Hle%Z.leb_le. apply word_of_range in Hi. lia.
  - intros d b' Hd Hinv. by apply wp_shift_left_body; [|lia| |].
  - intros b' (Hb' & _ & Hall). apply HQ; [done|]. intros i Hi. apply Hall; [done|].
    apply Z.leb_le. by apply word_of_range.
Qed.

Lemma wp_shift_right_body b count d b' :
  wf b -> 0 < count < N -> 0 <= d < COUNT ->
  shifting b b' (fun k => k <? d) (shifted_right b count) ->
  let ws := count / W in
  let bs := count mod W in
  wp (if COUNT <=? u64 (d + ws) then array_set d 0
      else
        word ← array_get (u64 (d + ws));
        if negb (bs =? 0) && (u64 (d + ws) + 1 <? COUNT) then
          above ← array_get (u64 (d + ws) + 1);
          array_set d (wrap W (Z.lor (Z.shiftr word bs) (Z.shiftl above (W - bs))))
        else array_set d (Z.shiftr word bs))
    (fun _ b'' => shifting b b'' (fun k => k <? d + 1) (shifted_right b count)) b'.
Proof.
  intros Hb Hc Hd Hinv ws bs. pose proof Hinv as (Hb' & Hsame & _).
  assert (Hws : 0 <= ws) by (apply Z.div_pos; lia).
  assert (Hbs : 0 <= bs < W) by apply offset_range.
  assert (Hcount : count = ws * W + bs) by (unfold ws, bs; pose proof (Z.div_mod count W); lia).
  clearbody ws bs.
  pose proof capacity_le as Hcap. unfold capacity in Hcap.
  assert (u64 (d + ws) = d + ws) as -> by (apply wrap_small; split; nia).
  assert (Hstep : forall x, in_width W x ->
    (forall j, 0 <= j < W -> Z.testbit x j = shifted_right b count (d * W + j)) ->
    shifting b (zset b' d x) (fun k => k <? d + 1) (shifted_right b count)).
  { intros x Hx Hbits. eapply shifting_step; [done..| |done]. intros k. bool_solve. }
  assert (Hget : forall k, d <= k < COUNT -> znth b' k = znth b k).
  { intros k Hk. apply Hsame; [lia|]. apply Z.ltb_ge. lia. }
  destruct (Z.leb_spec COUNT (d + ws)) as [Hhigh|Hlow].
  { apply wp_set_word; [done..|]. apply Hstep; [auto with width|]. intros j Hj.
    rewrite Z.bits_0. unfold shifted_right, capacity. destruct_comparisons; [nia|done]. }
  wp_step. apply wp_get_word; [done|lia|]. rewrite Hget by lia.
  destruct (negb (bs =? 0) && (d + ws + 1 <? COUNT)) eqn:Hcase.
  - apply andb_true_iff in Hcase as [H1%negb_true_iff%Z.eqb_neq H2%Z.ltb_lt].
    wp_step. apply wp_get_word; [done|lia|]. rewrite Hget by lia.
    apply wp_set_word; [done..|]. apply Hstep; [apply wrap_range; lia|].
    intros j Hj. rewrite testbit_wrap by lia. destruct (Z.ltb_spec j W); [|lia].
    rewrite (shift_right_word b d ws bs) by (done || lia). by rewrite <- Hcount.
  - apply andb_false_iff in Hcase.
    apply wp_set_word; [done..|]. apply Hstep.
    { pose proof (wf_words b Hb (d + ws) ltac:(lia)) as [H3 H4].
      split; [by apply Z.shiftr_nonneg|]. rewrite Z.shiftr_div_pow2 by lia.
      pose proof (pow2_pos bs). apply Z.div_lt_upper_bound; nia. }
    intros j Hj. rewrite <- (Z.lor_0_r (Z.shiftr _ _)), <- (Z.shiftl_0_l (W - bs)).
    rewrite (shift_right_word b d ws bs) by (done || lia). by rewrite <- Hcount.
Qed.

Lemma wp_shift_right b count (Q : unit -> list Z -> Prop) :
  wf b -> 0 <= count ->
  (forall b', wf b' -> (forall i, 0 <= i < capacity -> contains b' i = shifted_right b count i) ->
    Q tt b') ->
  wp (shift_right W N count) Q b.
Proof.
  intros Hb Hc HQ. pose proof count_nonneg. pose proof capacity_le. unfold shift_right.
  destruct (Z.eqb_spec count 0) as [->|Hnz].
  { apply wp_ret, HQ; [done|]. intros i Hi. unfold shifted_right. rewrite Z.add_0_r.
    destruct_comparisons; [done|lia]. }
  destruct (Z.leb_spec N count).
  { apply wp_reset_words; [done|]. intros b' [Hb' Heq]. apply HQ; [done|]. intros i Hi.
    rewrite Heq by done. unfold shifted_right. destruct_comparisons; simpl; try done; lia. }
  cbv zeta. change (BITS_PER_STORAGE_TYPE_INSTANCE W) with W.
  apply (wp_for_range (fun d b' => shifting b b' (fun k => k <? d) (shifted_right b count))).
  - split_and!; [done..|]. intros i Hi Hlt%Z.ltb_lt. apply word_of_range in Hi. lia.
  - intros d b' Hd Hinv. by apply wp_shift_right_body; [|lia| |].
  - rewrite Z.max_r by lia. intros b' (Hb' & _ & Hall). apply HQ; [done|]. intros i Hi.
    apply Hall; [done|]. apply Z.ltb_lt. by apply word_of_range.
Qed.

(** A word operator that acts bit by bit. *)
Definition bitwise (op : Z -> Z -> Z) (f : bool -> bool -> bool) : Prop :=
  (forall x y, in_width W x -> in_width W y -> in_width W (op x y)) /\
  (forall x y i, 0 <= i -> Z.testbit (op x y) i = f (Z.testbit x i) (Z.testbit y i)).

Lemma bitwise_lor : bitwise Z.lor orb.
Proof. split; intros; [apply in_width_lor; (done || lia) | apply Z.lor_spec]. Qed.

Lemma bitwise_land : bitwise Z.land andb.
Proof. split; intros; [apply in_width_land; (done || lia) | apply Z.land_spec]. Qed.

Lemma bitwise_lxor : bitwise Z.lxor xorb.
Proof. split; intros; [apply in_width_lxor; (done || lia) | apply Z.lxor_spec]. Qed.

Lemma wp_assign_with op f b other (Q : unit -> list Z -> Prop) :
  bitwise op f -> wf b -> wf other ->
  (forall b', wf b' -> (forall i, 0 <= i < capacity ->
    contains b' i = f (contains b i) (contains other i)) -> Q tt b') ->
  wp (assign_with W N op other) Q b.
Proof.
  intros [Hop Hbit] Hb Ho HQ. unfold assign_with. pose proof count_nonneg.
  apply (wp_for_range (fun k b' => wf b' /\ forall j, 0 <= j < COUNT ->
    znth b' j = if j <? k then op (znth b j) (znth other j) else znth b j)).
  - split; [done|]. intros j Hj. destruct (Z.ltb_spec j 0); [lia|done].
  - intros k b' Hk [Hb' Heq]. wp_step. apply wp_get_word; [done..|].
    wp_step. wp_step. apply wp_get_word; [done..|]. apply wp_set_word; [done..|].
    assert (znth b' k = znth b k) as -> by (rewrite Heq, Z.ltb_irrefl by lia; done).
    pose proof (wf_words b Hb k Hk). pose proof (wf_words other Ho k Hk).
    split; [apply wf_zset; auto|]. intros j Hj. rewrite znth_zset by (destruct Hb'; lia).
    destruct (Z.eqb_spec k j) as [->|].
    + destruct (Z.ltb_spec j (j + 1)); [done|lia].
    + rewrite Heq by done. destruct_comparisons; try done; lia.
  - rewrite Z.max_r by lia. intros b' [Hb' Heq]. apply HQ; [done|]. intros i Hi.
    pose proof (word_of_range i Hi). pose proof (offset_range i). unfold contains.
    rewrite Heq by done. destruct (Z.ltb_spec (word_of i) COUNT); [|lia]. apply Hbit. lia.
Qed.

Lemma wp_complement b (Q : list Z -> list Z -> Prop) :
  wf b ->
  (forall r, wf r -> (forall i, 0 <= i < capacity -> contains r i = negb (contains b i)) ->
    Q r b) ->
  wp (complement W N) Q b.
Proof.
  intros Hb HQ. unfold complement. pose proof count_nonneg.
  apply (wp_for_fold (fun k r b' => b' = b /\ wf r /\ forall j, 0 <= j < k ->
    znth r j = bnot W (znth b j))).
  - split_and!; [done | apply wf_init | lia].
  - intros k r b' Hk (-> & Hr & Heq). wp_step. apply wp_get_word; [done..|].
    wp_step. wp_step. apply wp_set_word; [done..|]. apply wp_ret. split_and!; [done| |].
    + apply wf_zset; [done..|]. apply bnot_range. lia.
    + intros j Hj. cbn [snd]. rewrite znth_zset by (destruct Hr; lia).
      destruct (Z.eqb_spec k j) as [->|]; [done|]. apply Heq. lia.
  - rewrite Z.max_r by lia. intros r b' (-> & Hr & Heq). apply HQ; [done|]. intros i Hi.
    pose proof (word_of_range i Hi). pose proof (offset_range i). unfold contains.
    rewrite Heq, testbit_bnot by lia. destruct (Z.ltb_spec (i mod W) W); [done|lia].
Qed.

(** A scan of all words for one that fails [ok]. *)
Lemma wp_scan_words b (ok : Z -> bool) (body : Z -> kernel (list Z) (option bool))
    (Q : bool -> list Z -> Prop) :
  (forall k (P : option bool -> list Z -> Prop), 0 <= k < COUNT ->
    P (if negb (ok k) then Some false else None) b -> wp (body k) P b) ->
  (forall r, (r = true <-> forall k, 0 <= k < COUNT -> ok k = true) -> Q r b) ->
  wp (r ← scan_range 0 COUNT body; mret (default true r)) Q b.
Proof.
  intros Hbody HQ. pose proof count_nonneg. wp_step.
  apply (wp_scan_range (fun k b' => b' = b /\ forall j, 0 <= j < k -> ok j = true)
    (fun r b' => b' = b /\ r = false /\ exists k, 0 <= k < COUNT /\ ok k = false)).
  - split; [done|lia].
  - intros k b' Hk [-> Hok]. apply Hbody; [done|]. destruct (ok k) eqn:E; simpl.
    + split; [done|]. intros j Hj. destruct (Z.eq_dec j k) as [->|]; [done|]. apply Hok. lia.
    + split_and!; eauto.
  - intros r b' (-> & -> & k & Hk & Hf). apply wp_ret, HQ. split; [done|].
    intros Hall. by rewrite Hall in Hf.
  - rewrite Z.max_r by lia. intros b' [-> Hok]. apply wp_ret, HQ. split; [by intros _|done].
Qed.

Lemma wp_empty b (Q : bool -> list Z -> Prop) :
  wf b -> (forall r, (r = true <-> forall i, 0 <= i < capacity -> contains b i = false) -> Q r b) ->
  wp (empty W N) Q b.
Proof.
  intros Hb HQ. unfold empty. apply (wp_scan_words b (fun k => znth b k =? 0)).
  - intros k P Hk HP. wp_step. apply wp_get_word; [done..|]. by apply wp_ret.
  - intros r Hr. apply HQ. rewrite Hr. split.
    + intros Hz i Hi. specialize (Hz _ (word_of_range i Hi)). apply Z.eqb_eq in Hz.
      unfold contains. rewrite Hz. apply Z.bits_0.
    + intros Hf k Hk. apply Z.eqb_eq. apply (width_bits_inj W);
        [lia | by apply (wf_words b Hb) | auto with width |].
      intros j Hj. rewrite Z.bits_0, <- contains_word by done. apply Hf. unfold capacity. nia.
Qed.

Lemma wp_all b (Q : bool -> list Z -> Prop) :
  wf b -> (forall r, (r = true <-> forall i, 0 <= i < capacity -> contains b i = true) -> Q r b) ->
  wp (all W N) Q b.
Proof.
  intros Hb HQ. unfold all. apply (wp_scan_words b (fun k => znth b k =? all_bits W)).
  - intros k P Hk HP. wp_step. apply wp_get_word; [done..|]. by apply wp_ret.
  - intros r Hr. apply HQ. rewrite Hr. split.
    + intros Hz i Hi. specialize (Hz _ (word_of_range i Hi)). apply Z.eqb_eq in Hz.
      pose proof (offset_range i).
      unfold contains. rewrite Hz, testbit_all_bits by lia. apply Z.ltb_lt. lia.
    + intros Hf k Hk. apply Z.eqb_eq. apply (width_bits_inj W);
        [lia | by apply (wf_words b Hb) | auto with width |].
      intros j Hj. rewrite testbit_all_bits, <- contains_word by lia.
      rewrite Hf by (unfold capacity; nia). symmetry. apply Z.ltb_lt. lia.
Qed.

Lemma wp_equals b other (Q : bool -> list Z -> Prop) :
  wf b -> wf other -> (forall r, (r = true <-> b = other) -> Q r b) ->
  wp (equals W N other) Q b.
Proof.
  intros Hb Ho HQ. unfold equals. apply (wp_scan_words b (fun k => znth b k =? znth other k)).
  - intros k P Hk HP. wp_step. apply wp_get_word; [done..|].
    wp_step. wp_step. apply wp_get_word; [done..|]. by apply wp_ret.
  - intros r Hr. apply HQ. rewrite Hr. split; [|by intros -> k Hk; apply Z.eqb_refl].
    intros Hall. apply array_ext; [destruct Hb, Ho; congruence|].
    intros k Hk. apply Z.eqb_eq, Hall. destruct Hb; lia.
Qed.
End BitmapFacts.
