(* ===== verification/Array.v ===== *)
(** * Array: the fixed-size array, [kernel/core/utils/array.hpp]

    An array of [N] elements is the list of them; an index out of range is undefined.  The other files use such lists
    with [array_get] and [array_set]; here is the type's own interface. *)

From S2P Require Import Prelude.

Module Array.
Section Array.
Context {T : Type} `{Inhabited T} `{EqDecision T} (N : Z).

(** [static_assert(N > 0)]. *)
Definition array_ok (a : list T) : Prop := 0 < N /\ zlen a = N.

Definition size : Z := N.
Definition max_size : Z := N.
Definition empty : bool := false.
Definition get (index : Z) : kernel (list T) T := array_get index.
Definition put (index : Z) (x : T) : kernel (list T) unit := array_set index x.
Definition front : kernel (list T) T := array_get 0.
Definition back : kernel (list T) T := array_get (N - 1).

Definition fill (value : T) : kernel (list T) unit := for_range 0 N (fun i => array_set i value).

(** [operator==], with the elements' own. *)
Definition equals (other : list T) : kernel (list T) bool :=
  r ← scan_range 0 N (fun i =>
        x ← array_get i;
        y ← observe other (array_get i);
        mret (if bool_decide (x = y) then None else Some false));
  mret (default true r).

(** ** Facts *)

(** Filling an array makes every element the value. *)
Theorem array_fill_correct a value : array_ok a ->
  wp (fill value) (fun _ a' => a' = replicate (Z.to_nat N) value) a.
Proof.
  intros [Hpos Hlen]. apply (wp_for_range (fun i a' => zlen a' = N /\ forall j, 0 <= j < i -> znth a' j = value)).
  - split; [done | lia].
  - intros i a' Hi [Hl Hd]. apply wp_array_set; [lia|]. split; [by rewrite zlen_zset|]. intros j Hj.
    rewrite znth_zset by lia. destruct (Z.eqb_spec i j); [done | apply Hd; lia].
  - intros a' [Hl Hd]. rewrite Z.max_r in Hd by lia. apply array_ext.
    + unfold zlen in *. rewrite length_replicate. lia.
    + intros j Hj. rewrite Hd by lia. symmetry. apply (znth_replicate N). lia.
Qed.

(** Comparing arrays decides the equality of their elements, reads neither out of bounds, and changes nothing. *)
Theorem array_equals_correct a other : array_ok a -> array_ok other ->
  wp (equals other) (fun r a' => a' = a /\ r = bool_decide (a = other)) a.
Proof.
  intros [Hpos Hlen] [_ Hlo]. apply wp_bind.
  apply (wp_scan_range (fun i a' => a' = a /\ forall j, 0 <= j < i -> znth a j = znth other j)
    (fun r a' => a' = a /\ r = false /\ a <> other)).
  - split; [done | lia].
  - intros i a' Hi [-> Hsame]. apply wp_bind, wp_array_get; [lia|]. apply wp_bind, wp_observe, wp_array_get; [lia|].
    apply wp_ret. destruct (bool_decide_reflect (znth a i = znth other i)) as [E|Hne].
    + split; [done|]. intros j Hj. destruct (Z.eq_dec j i) as [->|]; [done | apply Hsame; lia].
    + split; [done|]. split; [done | congruence].
  - intros r a' (-> & -> & Hne). apply wp_ret. split; [done|]. by rewrite bool_decide_false.
  - intros a' [-> Hsame]. rewrite Z.max_r in Hsame by lia. apply wp_ret. split; [done|].
    rewrite bool_decide_true; [done|]. apply array_ext; [unfold zlen in *; lia|]. intros j Hj. apply Hsame. lia.
Qed.
End Array.

(** The two ends are elements of any array. *)
Example array_ends : forall (a : list Z), array_ok 3 a ->
  wp front (fun x _ => x = znth a 0) a /\ wp (back 3) (fun x _ => x = znth a 2) a.
Proof. intros a [_ Ha]. split; (apply wp_array_get; [lia | done]). Qed.
End Array.
