(* ===== verification/Page.v ===== *)
(** * Page: the types of [kernel/mm/page.hpp]

    [page_size] and [page_prot] are enumerations over [u8] that the source also builds by casting
    integers, so both are integers here, with the enumerators as constants. *)

From S2P Require Import Prelude Bits.

Definition page_size : Type := Z.
Definition SIZE_4K : page_size := 12.
Definition SIZE_2M : page_size := 21.
Definition SIZE_1G : page_size := 30.

Definition FRAME_SHIFT : Z := SIZE_4K.
Definition FRAME_SIZE : Z := u64 (Z.shiftl 1 FRAME_SHIFT).

Definition shift_of (size : page_size) : Z := size.
Definition bytes_in (size : page_size) : Z := u64 (Z.shiftl 1 (shift_of size)).
Definition frames_in (size : page_size) : Z := u64 (Z.shiftl 1 (shift_of size - FRAME_SHIFT)).

Definition page_prot : Type := Z.
Definition PROT_NONE : page_prot := 0.
Definition PROT_WRITE : page_prot := Z.shiftl 1 0.
Definition PROT_EXEC : page_prot := Z.shiftl 1 1.
Definition PROT_USER : page_prot := Z.shiftl 1 2.
Definition PROT_GLOBAL : page_prot := Z.shiftl 1 3.
Definition PROT_UNCACHED : page_prot := Z.shiftl 1 4.

(** [operator|] and [operator&] on protections, and [has]. *)
Definition prot_or (a b : page_prot) : page_prot := u8 (Z.lor a b).
Definition prot_and (a b : page_prot) : page_prot := u8 (Z.land a b).
Definition has (set bit : page_prot) : bool := negb (prot_and set bit =? PROT_NONE).

Definition KERNEL_TEXT : page_prot := Z.lor PROT_EXEC PROT_GLOBAL.
Definition KERNEL_RODATA : page_prot := PROT_GLOBAL.
Definition KERNEL_DATA : page_prot := Z.lor PROT_WRITE PROT_GLOBAL.
Definition MMIO : page_prot := Z.lor (Z.lor PROT_WRITE PROT_GLOBAL) PROT_UNCACHED.

Inductive mm_error : Type :=
| OUT_OF_MEMORY
| INVALID_ADDRESS
| UNSUPPORTED_SIZE
| NOT_MAPPED
| CONFLICT.

#[export] Instance mm_error_eq_dec : EqDecision mm_error.
Proof. solve_decision. Defined.

Record mapping : Type := {
  frame : Z;
  offset : Z;
  size : page_size;
  prot : page_prot;
}.

(** [mapping::physical]. *)
Definition physical (m : mapping) : Z := u64 (frame m + offset m).

Lemma bytes_in_pow2 size : 0 <= size < 64 -> bytes_in size = 2 ^ size.
Proof.
  intros Hs. unfold bytes_in, shift_of, u64. rewrite Z.shiftl_1_l. apply wrap_small.
  split; [lia | apply Z.pow_lt_mono_r; lia].
Qed.

Lemma frames_in_pow2 size : 12 <= size < 64 -> frames_in size = 2 ^ (size - 12).
Proof.
  intros Hs. unfold frames_in, shift_of, FRAME_SHIFT, SIZE_4K, u64. rewrite Z.shiftl_1_l.
  apply wrap_small. split; [lia | apply Z.pow_lt_mono_r; lia].
Qed.

Lemma bytes_in_frames size : 12 <= size < 64 -> bytes_in size = frames_in size * FRAME_SIZE.
Proof.
  intros Hs. rewrite bytes_in_pow2, frames_in_pow2 by lia.
  change FRAME_SIZE with (2 ^ 12). rewrite <- Z.pow_add_r by lia. f_equal. lia.
Qed.
