(* ===== verification/Atomic.v ===== *)
(** * Atomic: [kernel/sync/atomic.hpp]

    The memory orders, their legalisation for the compiler's builtins, and [atomic<T>] and
    [atomic_ref<T>] for an integral [T].  A value of [T] is the mathematical integer; the storage
    of an [atomic<T>] is the unsigned integer of the same size.  The builtins are those of the
    compiler on one location: an order the builtin does not accept is [Undefined].  How operations
    of several threads interleave on a location is the subject of the file [Spinlock]. *)

From S2P Require Import Prelude.

(** ** Integer types *)

(** An integral type of the language: its width in bits and whether it is signed. *)
Record int_type : Type := { type_width : Z; type_signed : bool }.

(** Conversion to an integral type: reduction modulo [2^w], into the type's own range. *)
Definition convert (t : int_type) (x : Z) : Z :=
  let w := type_width t in
  let r := wrap w x in
  if type_signed t && (2 ^ (w - 1) <=? r) then r - 2 ^ w else r.

Definition representable (t : int_type) (x : Z) : Prop :=
  if type_signed t then - 2 ^ (type_width t - 1) <= x < 2 ^ (type_width t - 1)
  else 0 <= x < 2 ^ type_width t.

Definition unsigned (w : Z) : int_type := {| type_width := w; type_signed := false |}.
Definition signed (w : Z) : int_type := {| type_width := w; type_signed := true |}.

(** ** Memory orders *)

Inductive memory_order : Type := RELAXED | CONSUME | ACQUIRE | RELEASE | ACQ_REL | SEQ_CST.

#[export] Instance memory_order_eq_dec : EqDecision memory_order.
Proof. solve_decision. Defined.

(** The compiler's [__ATOMIC_*] constants. *)
Definition __ATOMIC_RELAXED : Z := 0.
Definition __ATOMIC_CONSUME : Z := 1.
Definition __ATOMIC_ACQUIRE : Z := 2.
Definition __ATOMIC_RELEASE : Z := 3.
Definition __ATOMIC_ACQ_REL : Z := 4.
Definition __ATOMIC_SEQ_CST : Z := 5.

Definition to_builtin_order (order : memory_order) : Z :=
  match order with
  | RELAXED => __ATOMIC_RELAXED
  | CONSUME => __ATOMIC_CONSUME
  | ACQUIRE => __ATOMIC_ACQUIRE
  | RELEASE => __ATOMIC_RELEASE
  | ACQ_REL => __ATOMIC_ACQ_REL
  | SEQ_CST => __ATOMIC_SEQ_CST
  end.

Definition to_load_order (order : memory_order) : Z :=
  match order with
  | RELAXED | CONSUME | ACQUIRE | SEQ_CST => to_builtin_order order
  | RELEASE | ACQ_REL => __ATOMIC_SEQ_CST
  end.

Definition to_store_order (order : memory_order) : Z :=
  match order with
  | RELAXED | RELEASE | SEQ_CST => to_builtin_order order
  | CONSUME | ACQUIRE | ACQ_REL => __ATOMIC_SEQ_CST
  end.

Definition default_failure_order (success_order : memory_order) : memory_order :=
  match success_order with
  | RELAXED => RELAXED
  | CONSUME => CONSUME
  | ACQUIRE => ACQUIRE
  | RELEASE => RELAXED
  | ACQ_REL => ACQUIRE
  | SEQ_CST => SEQ_CST
  end.

Definition to_failure_order (order : memory_order) : Z :=
  match order with
  | RELAXED | CONSUME | ACQUIRE | SEQ_CST => to_builtin_order order
  | RELEASE => __ATOMIC_RELAXED
  | ACQ_REL => __ATOMIC_ACQUIRE
  end.

(** ** The builtins of the compiler, on a location of integral type [t] *)

Definition legal_order (order : Z) : bool := (0 <=? order) && (order <=? __ATOMIC_SEQ_CST).
Definition legal_load_order (order : Z) : bool :=
  legal_order order && negb (order =? __ATOMIC_RELEASE) && negb (order =? __ATOMIC_ACQ_REL).
Definition legal_store_order (order : Z) : bool :=
  (order =? __ATOMIC_RELAXED) || (order =? __ATOMIC_RELEASE) || (order =? __ATOMIC_SEQ_CST).

Definition guarded {A} (legal : bool) (m : kernel Z A) : kernel Z A :=
  if legal then m else undefined.

Definition atomic_load_n (order : Z) : kernel Z Z :=
  guarded (legal_load_order order) (gets id).

Definition atomic_store_n (value order : Z) : kernel Z unit :=
  guarded (legal_store_order order) (modify (fun _ => value)).

(** Replace the value by [f] of it and return the old one. *)
Definition read_modify_write (f : Z -> Z) (order : Z) : kernel Z Z :=
  guarded (legal_order order) (old ← gets id; modify (fun _ => f old);; mret old).

Definition atomic_exchange_n (value order : Z) : kernel Z Z :=
  read_modify_write (fun _ => value) order.

(** Returns whether it exchanged, with the new content of [expected].  The weak form may fail
    although the values agree; [spurious] is the machine's choice. *)
Definition atomic_compare_exchange_n (weak spurious : bool) (expected desired success failure : Z) :
    kernel Z (bool * Z) :=
  guarded (legal_order success && legal_load_order failure)
    (old ← gets id;
     if (old =? expected) && negb (weak && spurious)
     then modify (fun _ => desired);; mret (true, expected)
     else mret (false, old)).

Definition atomic_fetch_op (t : int_type) (op : Z -> Z -> Z) (value order : Z) : kernel Z Z :=
  read_modify_write (fun old => convert t (op old value)) order.

(** ** [atomic<T>] *)
Section Atomic.
Context (T : int_type).

(** [inline_atomic_storage<sizeof(T)>::type]. *)
Definition inline_atomic_storage (bytes : Z) : int_type :=
  unsigned (if bytes <=? 1 then 8 else if bytes <=? 2 then 16 else if bytes <=? 4 then 32 else 64).

Definition storage_type : int_type := inline_atomic_storage (type_width T / 8).

Definition encode_atomic_value (value : Z) : Z := convert storage_type value.
Definition decode_atomic_value (storage : Z) : Z := convert T storage.

Definition add_atomic_values (lhs rhs : Z) : Z :=
  let lhs_storage := encode_atomic_value lhs in
  let rhs_storage := encode_atomic_value rhs in
  decode_atomic_value (convert storage_type (lhs_storage + rhs_storage)).

Definition sub_atomic_values (lhs rhs : Z) : Z :=
  let lhs_storage := encode_atomic_value lhs in
  let rhs_storage := encode_atomic_value rhs in
  decode_atomic_value (convert storage_type (lhs_storage - rhs_storage)).

Definition load (order : memory_order) : kernel Z Z :=
  storage ← atomic_load_n (to_load_order order); mret (decode_atomic_value storage).

Definition store (value : Z) (order : memory_order) : kernel Z unit :=
  let storage := encode_atomic_value value in
  atomic_store_n storage (to_store_order order).

(** The constructors give the storage its first content. *)
Definition construct : kernel Z unit := modify (fun _ => encode_atomic_value 0).
Definition construct_with (value : Z) : kernel Z unit := modify (fun _ => encode_atomic_value value).

(** [operator=] and the conversion to [T]. *)
Definition op_assign (value : Z) : kernel Z Z := store value SEQ_CST;; mret value.
Definition op_value : kernel Z Z := load SEQ_CST.

Definition exchange (value : Z) (order : memory_order) : kernel Z Z :=
  let desired := encode_atomic_value value in
  old ← atomic_exchange_n desired (to_builtin_order order);
  mret (decode_atomic_value old).

(** Returns whether it exchanged, with the new content of [expected]. *)
Definition compare_exchange_with (expected desired : Z) (success_order failure_order : memory_order) :
    kernel Z (bool * Z) :=
  let expected_storage := encode_atomic_value expected in
  let desired_storage := encode_atomic_value desired in
  r ← atomic_compare_exchange_n false false expected_storage desired_storage
        (to_builtin_order success_order) (to_failure_order failure_order);
  let '(exchanged, expected_storage) := r : bool * Z in
  mret (exchanged, if exchanged then expected else decode_atomic_value expected_storage).

Definition compare_exchange (expected desired : Z) (success_order : memory_order) :
    kernel Z (bool * Z) :=
  compare_exchange_with expected desired success_order (default_failure_order success_order).

Definition compare_exchange_weak_with (spurious : bool) (expected desired : Z)
    (success_order failure_order : memory_order) : kernel Z (bool * Z) :=
  let expected_storage := encode_atomic_value expected in
  let desired_storage := encode_atomic_value desired in
  r ← atomic_compare_exchange_n true spurious expected_storage desired_storage
        (to_builtin_order success_order) (to_failure_order failure_order);
  let '(exchanged, expected_storage) := r : bool * Z in
  mret (exchanged, if exchanged then expected else decode_atomic_value expected_storage).

Definition compare_exchange_weak (spurious : bool) (expected desired : Z)
    (success_order : memory_order) : kernel Z (bool * Z) :=
  compare_exchange_weak_with spurious expected desired success_order
    (default_failure_order success_order).

Definition fetch_op (op : Z -> Z -> Z) (value : Z) (order : memory_order) : kernel Z Z :=
  let encoded_value := encode_atomic_value value in
  old ← atomic_fetch_op storage_type op encoded_value (to_builtin_order order);
  mret (decode_atomic_value old).

Definition fetch_add : Z -> memory_order -> kernel Z Z := fetch_op Z.add.
Definition fetch_sub : Z -> memory_order -> kernel Z Z := fetch_op Z.sub.
Definition fetch_and : Z -> memory_order -> kernel Z Z := fetch_op Z.land.
Definition fetch_or : Z -> memory_order -> kernel Z Z := fetch_op Z.lor.
Definition fetch_xor : Z -> memory_order -> kernel Z Z := fetch_op Z.lxor.

(** The operators; the postfix ones return the old value. *)
Definition op_pre_increment : kernel Z Z :=
  old ← fetch_add 1 SEQ_CST; mret (add_atomic_values old 1).
Definition op_post_increment : kernel Z Z := fetch_add 1 SEQ_CST.
Definition op_pre_decrement : kernel Z Z :=
  old ← fetch_sub 1 SEQ_CST; mret (sub_atomic_values old 1).
Definition op_post_decrement : kernel Z Z := fetch_sub 1 SEQ_CST.
Definition op_add_assign (value : Z) : kernel Z Z :=
  old ← fetch_add value SEQ_CST; mret (add_atomic_values old value).
Definition op_sub_assign (value : Z) : kernel Z Z :=
  old ← fetch_sub value SEQ_CST; mret (sub_atomic_values old value).

Definition combine_assign (op : Z -> Z -> Z) (value : Z) : kernel Z Z :=
  old ← fetch_op op value SEQ_CST;
  mret (decode_atomic_value
    (convert storage_type (op (encode_atomic_value old) (encode_atomic_value value)))).

Definition op_and_assign : Z -> kernel Z Z := combine_assign Z.land.
Definition op_or_assign : Z -> kernel Z Z := combine_assign Z.lor.
Definition op_xor_assign : Z -> kernel Z Z := combine_assign Z.lxor.

(** ** [atomic_ref<T>]: the same operations on an object of type [T] itself *)

Definition ref_load (order : memory_order) : kernel Z Z := atomic_load_n (to_load_order order).

Definition ref_store (value : Z) (order : memory_order) : kernel Z unit :=
  atomic_store_n value (to_store_order order).

Definition ref_exchange (value : Z) (order : memory_order) : kernel Z Z :=
  atomic_exchange_n value (to_builtin_order order).

Definition ref_compare_exchange_with (expected desired : Z)
    (success_order failure_order : memory_order) : kernel Z (bool * Z) :=
  atomic_compare_exchange_n false false expected desired
    (to_builtin_order success_order) (to_failure_order failure_order).

Definition ref_compare_exchange (expected desired : Z) (success_order : memory_order) :
    kernel Z (bool * Z) :=
  ref_compare_exchange_with expected desired success_order (default_failure_order success_order).

Definition ref_compare_exchange_weak_with (spurious : bool) (expected desired : Z)
    (success_order failure_order : memory_order) : kernel Z (bool * Z) :=
  atomic_compare_exchange_n true spurious expected desired
    (to_builtin_order success_order) (to_failure_order failure_order).

Definition ref_compare_exchange_weak (spurious : bool) (expected desired : Z)
    (success_order : memory_order) : kernel Z (bool * Z) :=
  ref_compare_exchange_weak_with spurious expected desired success_order
    (default_failure_order success_order).

Definition ref_fetch_op (op : Z -> Z -> Z) (value : Z) (order : memory_order) : kernel Z Z :=
  atomic_fetch_op T op value (to_builtin_order order).

Definition ref_fetch_add : Z -> memory_order -> kernel Z Z := ref_fetch_op Z.add.
Definition ref_fetch_sub : Z -> memory_order -> kernel Z Z := ref_fetch_op Z.sub.
Definition ref_fetch_and : Z -> memory_order -> kernel Z Z := ref_fetch_op Z.land.
Definition ref_fetch_or : Z -> memory_order -> kernel Z Z := ref_fetch_op Z.lor.
Definition ref_fetch_xor : Z -> memory_order -> kernel Z Z := ref_fetch_op Z.lxor.
End Atomic.

(** ** Facts *)

Lemma load_order_legal order : legal_load_order (to_load_order order) = true.
Proof. by destruct order. Qed.

Lemma store_order_legal order : legal_store_order (to_store_order order) = true.
Proof. by destruct order. Qed.

Lemma builtin_order_legal order : legal_order (to_builtin_order order) = true.
Proof. by destruct order. Qed.

Lemma failure_order_legal order : legal_load_order (to_failure_order order) = true.
Proof. by destruct order. Qed.

(** The guards of the builtins hold for every order the class passes to them. *)
Ltac orders :=
  unfold guarded;
  rewrite ?load_order_legal, ?store_order_legal, ?builtin_order_legal, ?failure_order_legal;
  cbn [andb].

Section Conversion.
Context (t : int_type) (Hw : 0 < type_width t).
Abbreviation w := (type_width t).

Lemma half_width : 2 ^ w = 2 * 2 ^ (w - 1).
Proof. rewrite <- Z.pow_succ_r by lia. f_equal. lia. Qed.

Lemma convert_range x : representable t (convert t x).
Proof.
  pose proof (wrap_range w x ltac:(lia)) as Hr. unfold in_width in Hr. pose proof half_width.
  unfold representable, convert. destruct (type_signed t); cbn [andb]; [|done].
  destruct (Z.leb_spec (2 ^ (w - 1)) (wrap w x)); lia.
Qed.

Lemma convert_mod x : wrap w (convert t x) = wrap w x.
Proof.
  unfold convert, wrap. destruct (_ && _).
  - by rewrite <- (Z_mod_plus_full (x mod 2 ^ w - 2 ^ w) 1), Z.mul_1_l, Z.sub_add, Zmod_mod.
  - apply Zmod_mod.
Qed.

Lemma convert_ext x y : wrap w x = wrap w y -> convert t x = convert t y.
Proof. intros H. unfold convert. by rewrite H. Qed.

(** Conversion keeps the values of the type. *)
Lemma convert_id x : representable t x -> convert t x = x.
Proof.
  pose proof half_width as Hh. pose proof (pow2_pos (w - 1) ltac:(lia)).
  unfold representable, convert. destruct (type_signed t); cbn [andb]; intros Hx.
  - destruct (Z_lt_le_dec x 0) as [Hneg|Hpos].
    + assert (wrap w x = x + 2 ^ w) as ->.
      { unfold wrap. rewrite <- (Z_mod_plus_full x 1), Z.mul_1_l. apply Z.mod_small. lia. }
      destruct (Z.leb_spec (2 ^ (w - 1)) (x + 2 ^ w)); lia.
    + rewrite wrap_small by (unfold in_width; lia).
      destruct (Z.leb_spec (2 ^ (w - 1)) x); lia.
  - by apply wrap_small.
Qed.
End Conversion.

(** An operation on integers that is defined by the operands modulo [2^w]. *)
Definition modular (op : Z -> Z -> Z) : Prop :=
  forall w x y, 0 <= w -> wrap w (op (wrap w x) (wrap w y)) = wrap w (op x y).

Lemma modular_add : modular Z.add.
Proof. intros w x y _. unfold wrap. by rewrite <- Zplus_mod. Qed.

Lemma modular_sub : modular Z.sub.
Proof. intros w x y _. unfold wrap. by rewrite <- Zminus_mod. Qed.

Ltac modular_bits :=
  intros w x y Hw; apply (width_bits_inj w); [done | by apply wrap_range | by apply wrap_range |];
  intros i Hi; autorewrite with bits; destruct (Z.ltb_spec i w); [reflexivity | lia].

Lemma modular_land : modular Z.land.
Proof. modular_bits. Qed.

Lemma modular_lor : modular Z.lor.
Proof. modular_bits. Qed.

Lemma modular_lxor : modular Z.lxor.
Proof. modular_bits. Qed.

#[export] Hint Resolve modular_add modular_sub modular_land modular_lor modular_lxor : width.

Section AtomicFacts.
Context (T : int_type).
Context (HT : type_width T = 8 \/ type_width T = 16 \/ type_width T = 32 \/ type_width T = 64).
Abbreviation w := (type_width T).

Lemma storage_width : storage_type T = unsigned w.
Proof. unfold storage_type. by destruct HT as [-> | [-> | [-> | ->]]]. Qed.

Lemma encode_eq v : encode_atomic_value T v = wrap w v.
Proof. unfold encode_atomic_value. by rewrite storage_width. Qed.

Lemma decode_encode_mod v : decode_atomic_value T (wrap w v) = convert T v.
Proof. apply convert_ext. unfold wrap. by rewrite Zmod_mod. Qed.

Lemma width_positive : 0 < w.
Proof. lia. Qed.

(** [s] stores the value [v]. *)
Definition holds (s v : Z) : Prop := representable T v /\ s = encode_atomic_value T v.

Lemma holds_wrap x : holds (wrap w x) (convert T x).
Proof.
  split; [apply convert_range, width_positive|].
  by rewrite encode_eq, convert_mod.
Qed.

Lemma decode_holds s v : holds s v -> decode_atomic_value T s = v.
Proof.
  intros [Hv ->]. rewrite encode_eq, decode_encode_mod. apply convert_id; [lia|done].
Qed.

Lemma modular_encoded op x y :
  modular op ->
  wrap w (op (encode_atomic_value T x) (encode_atomic_value T y)) = wrap w (op x y).
Proof. intros Hop. rewrite !encode_eq. apply Hop. lia. Qed.

(** Every operator applied to encoded operands is the operator of [T], with its wrap-around. *)
Lemma decode_modular op x y :
  modular op ->
  decode_atomic_value T
    (convert (storage_type T) (op (encode_atomic_value T x) (encode_atomic_value T y))) =
  convert T (op x y).
Proof.
  intros Hop. rewrite storage_width. change (convert (unsigned w) ?a) with (wrap w a).
  rewrite modular_encoded by done. apply decode_encode_mod.
Qed.

Lemma wp_fetch_op op value order s v (Q : Z -> Z -> Prop) :
  modular op -> holds s v ->
  (forall s', holds s' (convert T (op v value)) -> Q v s') ->
  wp (fetch_op T op value order) Q s.
Proof.
  intros Hop Hs HQ. unfold fetch_op, atomic_fetch_op, read_modify_write. orders. wp_steps.
  unfold id. rewrite (decode_holds s v Hs). apply HQ. destruct Hs as [_ ->].
  rewrite storage_width. change (convert (unsigned w) ?a) with (wrap w a).
  rewrite modular_encoded by done. apply holds_wrap.
Qed.

(** Whether the values are equal can be decided on their encodings. *)
Lemma encode_inj x y :
  representable T x -> representable T y ->
  (encode_atomic_value T x =? encode_atomic_value T y) = (x =? y).
Proof.
  intros Hx Hy. destruct (Z.eqb_spec x y) as [->|Hne]; [apply Z.eqb_refl|].
  apply Z.eqb_neq. intros Heq. apply Hne.
  rewrite <- (decode_holds _ x (conj Hx eq_refl)), Heq. by apply decode_holds.
Qed.

Lemma wp_compare_exchange weak spurious expected desired success failure s v
    (Q : bool * Z -> Z -> Prop) :
  holds s v -> representable T expected -> representable T desired ->
  (let exchanged := (v =? expected) && negb (weak && spurious) in
   forall s', holds s' (if exchanged then desired else v) ->
   Q (exchanged, if exchanged then expected else v) s') ->
  wp (r ← atomic_compare_exchange_n weak spurious (encode_atomic_value T expected)
            (encode_atomic_value T desired) (to_builtin_order success) (to_failure_order failure);
      let '(exchanged, expected_storage) := r : bool * Z in
      mret (exchanged, if exchanged then expected else decode_atomic_value T expected_storage)) Q s.
Proof.
  intros Hs He Hd HQ. unfold atomic_compare_exchange_n. orders. wp_steps. unfold id.
  pose proof Hs as [Hv ->]. rewrite encode_inj by done.
  destruct ((v =? expected) && negb (weak && spurious)); wp_steps.
  - apply HQ. by split.
  - rewrite (decode_holds _ v Hs). by apply HQ.
Qed.
End AtomicFacts.

Section AtomicProperties.
Context (T : int_type).
Context (HT : type_width T = 8 \/ type_width T = 16 \/ type_width T = 32 \/ type_width T = 64).

(** The read-modify-write operators, in every memory order: the fetch form returns the old value,
    the assignment form the new one, and both leave the new value, which is the operator's result
    wrapped to [T]. *)
Theorem atomic_update_correct op value order s v :
  modular op -> holds T s v ->
  wp (fetch_op T op value order) (fun r s' => r = v /\ holds T s' (convert T (op v value))) s /\
  wp (combine_assign T op value)
     (fun r s' => r = convert T (op v value) /\ holds T s' r) s.
Proof.
  intros Hop Hs. split.
  - eapply wp_fetch_op; [done.. |]. by intros s' Hs'.
  - apply wp_bind. eapply wp_fetch_op; [done.. |]. intros s' Hs'. wp_steps.
    by rewrite decode_modular.
Qed.

(** Compare-and-exchange, strong and weak: it stores exactly when the value is the expected one
    (and, in the weak form, the machine does not fail spuriously), and otherwise reports the value
    it found. *)
Theorem compare_exchange_correct spurious expected desired order s v :
  holds T s v -> representable T expected -> representable T desired ->
  wp (compare_exchange T expected desired order)
     (fun r s' => r = (v =? expected, if v =? expected then expected else v) /\
        holds T s' (if v =? expected then desired else v)) s /\
  wp (compare_exchange_weak T spurious expected desired order)
     (fun r s' => let exchanged := (v =? expected) && negb spurious in
        r = (exchanged, if exchanged then expected else v) /\
        holds T s' (if exchanged then desired else v)) s.
Proof.
  intros Hs He Hd. split; (eapply wp_compare_exchange; [done.. |]); cbn zeta;
    cbn [andb negb]; rewrite ?andb_true_r; auto.
Qed.

(** What was constructed, stored or assigned is loaded. *)
Theorem atomic_roundtrip value s :
  representable T value ->
  wp (construct_with T value;; op_value T) (fun r s' => r = value /\ holds T s' value) s /\
  wp (op_assign T value;; op_value T) (fun r s' => r = value /\ holds T s' value) s /\
  wp (construct T;; op_value T) (fun r s' => r = 0 /\ holds T s' 0) s.
Proof.
  intros Hv. assert (Hz : representable T 0).
  { unfold representable. case_match; split; try lia; apply pow2_pos; lia. }
  assert (Hload : forall v s1, representable T v -> s1 = encode_atomic_value T v ->
    wp (op_value T) (fun r s' => r = v /\ holds T s' v) s1).
  { intros v s1 Hr ->. unfold op_value, load, atomic_load_n. rewrite load_order_legal. cbn. wp_steps.
    rewrite (decode_holds T HT _ v); done. }
  split; [|split].
  - unfold construct_with. wp_steps. by apply Hload.
  - unfold op_assign, store, atomic_store_n. rewrite store_order_legal. cbn. wp_steps. by apply Hload.
  - unfold construct. wp_steps. by apply Hload.
Qed.
End AtomicProperties.

Lemma atomic_update_correct_witness :
  holds (unsigned 8) 255 255 /\
  wp (combine_assign (unsigned 8) Z.add 1)
     (fun r s' => r = convert (unsigned 8) (255 + 1) /\ holds (unsigned 8) s' r) 255.
Proof.
  assert (holds (unsigned 8) 255 255) as H by (vm_compute; split; [split|]; congruence).
  split; [exact H|].
  exact (proj2 (atomic_update_correct (unsigned 8) ltac:(by left) Z.add 1 SEQ_CST 255 255
    modular_add H)).
Defined.

Lemma compare_exchange_correct_witness :
  wp (compare_exchange (signed 32) (-1) 7 RELEASE)
     (fun r s' => r = (true, -1) /\ holds (signed 32) s' 7) (2 ^ 32 - 1).
Proof.
  assert (holds (signed 32) (2 ^ 32 - 1) (-1)) as H by (vm_compute; split; [split|]; congruence).
  exact (proj1 (compare_exchange_correct (signed 32) ltac:(tauto) false (-1) 7 RELEASE
    (2 ^ 32 - 1) (-1) H ltac:(by vm_compute) ltac:(by vm_compute))).
Defined.
