(* ===== verification/Cast.v ===== *)
(** * Cast: the cast of the kernel, [kernel/core/cast.hpp]

    [x as(T)] picks, at compile time, the conversion that brings the value to the type.  The types are
    those of the language that the kernel casts between; which conversions the language has between
    them is spelled out, what a class is like and what the runtime type information says are a
    parameter.  A value is its integer, or its address. *)

From S2P Require Import Prelude Atomic.

Record cv : Type := { is_const : bool; is_volatile : bool }.

Inductive cxx_type : Type :=
| Void
| Bool
| Integer (t : int_type)
| Enum (name : string) (underlying : int_type)
| Floating (bytes : Z)
| Class (name : string)
| Pointer (c : cv) (pointee : cxx_type)
| Reference (c : cv) (referent : cxx_type).

#[export] Instance cv_eq_dec : EqDecision cv.
Proof. solve_decision. Defined.
#[export] Instance int_type_eq_dec : EqDecision int_type.
Proof. solve_decision. Defined.
#[export] Instance cxx_type_eq_dec : EqDecision cxx_type.
Proof. solve_decision. Defined.

(** What the program declares its classes to be, and what their objects are at run time. *)
Class classes : Type := {
  is_complete : string -> bool;
  is_polymorphic : string -> bool;
  base_offset : string -> string -> option Z;   (* of a base in a class derived from it *)
  convertible : cxx_type -> cxx_type -> bool;    (* by a constructor or a conversion operator *)
  dynamic_castable : cxx_type -> cxx_type -> bool;
  dynamic_cast : cxx_type -> Z -> Z;             (* of a pointer; null when it fails *)
}.

(** ** The conversions of the language *)
Section Language.
Context `{classes}.

(** Every qualifier of [c] is one of [c']. *)
Definition cv_within (c c' : cv) : bool :=
  implb (is_const c) (is_const c') && implb (is_volatile c) (is_volatile c').

(** The type of the object an expression of the type denotes. *)
Definition remove_reference (t : cxx_type) : cxx_type :=
  match t with Reference _ t => t | _ => t end.

Definition remove_pointer (t : cxx_type) : cxx_type :=
  match t with Pointer _ t => t | _ => t end.

Definition qualifiers (t : cxx_type) : cv :=
  match t with Reference c _ => c | _ => {| is_const := false; is_volatile := false |} end.

Definition arithmetic (t : cxx_type) : bool :=
  match t with Bool | Integer _ | Enum _ _ | Floating _ => true | _ => false end.

(** A class and a base of it, in either order. *)
Definition related (t u : cxx_type) : bool :=
  match t, u with
  | Class a, Class b => bool_decide (is_Some (base_offset a b)) || bool_decide (is_Some (base_offset b a))
  | _, _ => false
  end.

Definition is_void (t : cxx_type) : bool := match t with Void => true | _ => false end.

Definition static_castable (to from : cxx_type) : bool :=
  let source := remove_reference from in
  convertible to from ||
  match to, source with
  | Pointer c t, Pointer c' t' =>
      cv_within c' c && (bool_decide (t = t') || is_void t || is_void t' || related t t')
  | Bool, Pointer _ _ => true
  | Reference c t, _ => cv_within (qualifiers from) c && (bool_decide (t = source) || related t source)
  | _, _ => arithmetic to && arithmetic source
  end.

Definition reinterpret_castable (to from : cxx_type) : bool :=
  let source := remove_reference from in
  match to, source with
  | Pointer c _, Pointer c' _ => cv_within c' c
  | Pointer _ _, (Integer _ | Enum _ _ | Bool) => true
  | Integer t, Pointer _ _ => 64 <=? type_width t
  | Reference c _, _ => cv_within (qualifiers from) c
  | _, _ => arithmetic to && bool_decide (to = source)
  end.
End Language.

(** ** The choice *)
Section Cast.
Context `{classes}.
(** [DOOM_OS_CAST_ENABLE_RTTI]: the build passes [-fno-rtti], and it is 0. *)
Context (rtti_enabled : bool).

Definition object_t (t : cxx_type) : cxx_type := remove_pointer (remove_reference t).

Definition possibly_polymorphic (t : cxx_type) : bool :=
  match t with
  | Class name => negb (is_complete name) || is_polymorphic name
  | _ => false
  end.

Definition permitted_reinterpret (to from : cxx_type) : bool :=
  reinterpret_castable to from &&
  negb (possibly_polymorphic (object_t to) && possibly_polymorphic (object_t from)).

Definition is_base_of (base derived : cxx_type) : bool :=
  match base, derived with
  | Class b, Class d => bool_decide (b = d) || bool_decide (is_Some (base_offset b d))
  | _, _ => false
  end.

Definition checked_downcastable (to from : cxx_type) : bool :=
  static_castable to from && dynamic_castable to from &&
  negb (bool_decide (object_t to = object_t from)) && is_base_of (object_t from) (object_t to).

Inductive strategy : Type := DISCARD | CHECKED_DOWNCAST | STATIC | DYNAMIC | REINTERPRET.

(** The branches of [auto_cast]; [None] is its [static_assert]. *)
Definition choose (to from : cxx_type) : option strategy :=
  if is_void to then Some DISCARD
  else if rtti_enabled && checked_downcastable to from then Some CHECKED_DOWNCAST
  else if static_castable to from then Some STATIC
  else if rtti_enabled && dynamic_castable to from then Some DYNAMIC
  else if permitted_reinterpret to from then Some REINTERPRET
  else None.

(** ** The values *)

(** An undefined instruction: its exception ends in a panic. *)
Definition trap {S A} : kernel S A := kpanic "trap".

(** From an object of class [b] to its part, or the whole, of class [a]. *)
Definition adjust (a b : string) (address : Z) : Z :=
  match base_offset a b, base_offset b a with
  | Some offset, _ => u64 (address + offset)
  | None, Some offset => u64 (address - offset)
  | None, None => address
  end.

(** [static_cast]; a floating value has no integer that stands for it, and is left as it is. *)
Definition static_cast (to from : cxx_type) (value : Z) : Z :=
  match to, remove_reference from with
  | Bool, _ => if value =? 0 then 0 else 1
  | (Integer t | Enum _ t), _ => convert t value
  | Pointer _ (Class a), Pointer _ (Class b) => if value =? 0 then 0 else adjust a b value
  | Reference _ (Class a), Class b => adjust a b value
  | _, _ => value
  end.

(** The pointer is a view of the object at [source], of type [from]. *)
Definition checked_pointer {S} (to from : cxx_type) (source : Z) : kernel S Z :=
  if source =? 0 then mret 0
  else
    let result := dynamic_cast to source in
    let source_view := Pointer {| is_const := true; is_volatile := true |} from in
    if (result =? 0) || negb (static_cast source_view to result =? source) then trap else mret result.

(** A pointer to what a reference refers to. *)
Definition target_pointer (t : cxx_type) : cxx_type := Pointer (qualifiers t) (remove_reference t).

Definition checked_downcast {S} (to from : cxx_type) (value : Z) : kernel S Z :=
  match to with
  | Pointer _ _ => checked_pointer to (object_t from) value
  | _ => checked_pointer (target_pointer to) (object_t from) value
  end.

Definition dynamic_cast_or_trap {S} (to : cxx_type) (value : Z) : kernel S Z :=
  match to with
  | Pointer _ _ => mret (dynamic_cast to value)
  | _ =>
      let result := dynamic_cast (target_pointer to) value in
      if result =? 0 then trap else mret result
  end.

Definition reinterpret_cast (to from : cxx_type) (value : Z) : Z :=
  match to with
  | Integer t => convert t value
  | Pointer _ _ => u64 value
  | _ => value
  end.

Definition auto_cast {S} (to from : cxx_type) (value : Z) : kernel S Z :=
  match choose to from with
  | Some DISCARD => mret 0
  | Some CHECKED_DOWNCAST => checked_downcast to from value
  | Some STATIC => mret (static_cast to from value)
  | Some DYNAMIC => dynamic_cast_or_trap to value
  | Some REINTERPRET => mret (reinterpret_cast to from value)
  | None => undefined
  end.
End Cast.

(** ** Facts *)

(** Conversions of classes involve a class, and dynamic casts are between classes. *)
Class classes_ok `{classes} : Prop := {
  convertible_class to from : convertible to from = true ->
    (exists a, remove_reference to = Class a) \/ exists a, remove_reference from = Class a;
  dynamic_class to from : dynamic_castable to from = true -> exists a, object_t from = Class a;
}.

(** Integers, enumerations and truth values. *)
Definition integral (t : cxx_type) : Prop :=
  match t with Bool | Integer _ | Enum _ _ => True | _ => False end.

Definition integral_value (t : cxx_type) (x : Z) : Z :=
  match t with
  | Integer i | Enum _ i => convert i x
  | _ => if x =? 0 then 0 else 1
  end.

Section CastFacts.
Context `{classes_ok} (rtti : bool).

Lemma not_convertible to from :
  (forall a, remove_reference to <> Class a) -> (forall a, remove_reference from <> Class a) ->
  convertible to from = false.
Proof.
  intros Hto Hfrom. apply not_true_is_false. intros [[a Ha]|[a Ha]]%convertible_class; [by eapply Hto | by eapply Hfrom].
Qed.

Lemma not_dynamic to from : (forall a, object_t from <> Class a) -> dynamic_castable to from = false.
Proof. intros Hfrom. apply not_true_is_false. intros [a Ha]%dynamic_class. by eapply Hfrom. Qed.

(** A cast of what is no class: neither run-time type information nor a conversion is asked. *)
Lemma choose_plain to from :
  is_void to = false -> (forall a, object_t from <> Class a) ->
  choose rtti to from =
    if static_castable to from then Some STATIC
    else if permitted_reinterpret to from then Some REINTERPRET else None.
Proof.
  intros Hv Hfrom. unfold choose, checked_downcastable.
  by rewrite Hv, (not_dynamic to from Hfrom), andb_false_r, !andb_false_l, !andb_false_r.
Qed.

(** Between numbers a cast is the conversion of the language, whatever the build. *)
Theorem cast_integers {S} to from x (s : S) :
  integral to -> integral (remove_reference from) ->
  wp (auto_cast rtti to from x) (fun r s' => r = integral_value to x /\ s' = s) s.
Proof.
  intros Hto Hfrom. unfold auto_cast. rewrite choose_plain.
  - assert (static_castable to from = true) as ->.
    { unfold static_castable. destruct to, (remove_reference from); try done; by rewrite orb_true_r. }
    apply wp_ret. split; [|done]. by destruct to.
  - by destruct to.
  - intros a. unfold object_t. by destruct (remove_reference from).
Qed.

(** A pointer and a number, in the build without run-time type information. *)
Lemma choose_number_of_pointer i c t :
  choose false (Integer i) (Pointer c t) = if 64 <=? type_width i then Some REINTERPRET else None.
Proof.
  unfold choose, static_castable. rewrite not_convertible by done. cbn.
  unfold permitted_reinterpret. cbn. by destruct (64 <=? type_width i).
Qed.

Lemma choose_pointer_of_number i c t : choose false (Pointer c t) (Integer i) = Some REINTERPRET.
Proof.
  unfold choose, static_castable. rewrite not_convertible by done. cbn.
  unfold permitted_reinterpret. cbn. by rewrite andb_false_r.
Qed.

(** There a pointer becomes an integer that is wide enough, and the integer the pointer again; a
    narrower one does not compile. *)
Theorem cast_pointer_roundtrip {S} c t c' t' i p (s : S) :
  64 <= type_width i -> type_signed i = false -> 0 <= p < 2 ^ 64 ->
  wp (n ← auto_cast false (Integer i) (Pointer c t) p; auto_cast false (Pointer c' t') (Integer i) n)
    (fun r s' => r = p /\ s' = s) s.
Proof.
  intros Hi Hu Hp. pose proof (Z.pow_le_mono_r 2 64 (type_width i) ltac:(done) Hi).
  apply wp_bind. unfold auto_cast. rewrite choose_number_of_pointer, (proj2 (Z.leb_le _ _) Hi).
  apply wp_ret. rewrite choose_pointer_of_number. apply wp_ret. split; [|done].
  cbn [reinterpret_cast]. unfold convert. rewrite Hu. cbn.
  rewrite (wrap_small (type_width i)) by (unfold in_width; lia). by apply wrap_small.
Qed.

Theorem cast_narrow_rejected {S} c t i p (s : S) :
  type_width i < 64 -> auto_cast false (Integer i) (Pointer c t) p s = Undefined.
Proof.
  intros Hi. unfold auto_cast. by rewrite choose_number_of_pointer, (proj2 (Z.leb_gt _ _) Hi).
Qed.

(** A cast of a pointer never drops a qualifier, in the build without run-time type information. *)
Theorem cast_keeps_qualifiers c t c' t' st :
  choose false (Pointer c t) (Pointer c' t') = Some st -> cv_within c' c = true.
Proof.
  unfold choose, static_castable, permitted_reinterpret. cbn [is_void andb remove_reference].
  rewrite not_convertible by done. cbn [orb reinterpret_castable remove_reference].
  by destruct (cv_within c' c).
Qed.

(** Reinterpretation is the last resort, and never from one polymorphic class to another. *)
Theorem cast_reinterprets to from :
  choose rtti to from = Some REINTERPRET ->
  static_castable to from = false /\
  possibly_polymorphic (object_t to) && possibly_polymorphic (object_t from) = false.
Proof.
  unfold choose, permitted_reinterpret. destruct (is_void to); [done|].
  destruct (rtti && checked_downcastable to from); [done|]. destruct (static_castable to from); [done|].
  destruct (rtti && dynamic_castable to from); [done|].
  destruct (possibly_polymorphic (object_t to) && possibly_polymorphic (object_t from)); [|done].
  by rewrite andb_false_r.
Qed.

(** A checked downcast of a pointer gives null for null and otherwise a view of the same object, or
    traps. *)
Theorem checked_pointer_correct {S} to from p (s : S) :
  (p = 0 -> checked_pointer to from p s = Ret (0, s)) /\
  (forall r s', checked_pointer to from p s = Ret (r, s') -> p <> 0 ->
     s' = s /\ r = dynamic_cast to p /\ r <> 0 /\
     static_cast (Pointer {| is_const := true; is_volatile := true |} from) to r = p).
Proof.
  unfold checked_pointer. split; [by intros ->|]. intros r s' Hr Hp.
  rewrite (proj2 (Z.eqb_neq _ _) Hp) in Hr.
  destruct (Z.eqb_spec (dynamic_cast to p) 0) as [|Hnull]; [done|].
  destruct (Z.eqb_spec (static_cast (Pointer {| is_const := true; is_volatile := true |} from) to (dynamic_cast to p)) p);
    [|done]. by injection Hr as <- <-.
Qed.
End CastFacts.

(** ** A program without classes *)
Section CastExample.
Local Instance no_classes : classes := {|
  is_complete _ := true;
  is_polymorphic _ := false;
  base_offset _ _ := None;
  convertible _ _ := false;
  dynamic_castable _ _ := false;
  dynamic_cast _ _ := 0;
|}.

Local Instance no_classes_ok : classes_ok.
Proof. by split. Qed.

Definition plain : cv := {| is_const := false; is_volatile := false |}.
Definition constant : cv := {| is_const := true; is_volatile := false |}.
Definition byte_type : cxx_type := Integer (unsigned 8).

(** An address as a pointer to constant bytes, a byte as a [char], and what is refused. *)
Example casts :
  auto_cast false (Pointer constant byte_type) (Integer (unsigned 64)) 4096 tt = Ret (4096, tt) /\
  auto_cast false (Integer (signed 8)) (Reference plain byte_type) 200 tt = Ret (-56, tt) /\
  auto_cast false (Pointer plain byte_type) (Pointer plain Void) 4096 tt = Ret (4096, tt) /\
  auto_cast false (Pointer plain byte_type) (Pointer constant byte_type) 4096 tt = Undefined /\
  auto_cast false (Integer (unsigned 32)) (Pointer plain byte_type) 4096 tt = Undefined.
Proof. by vm_compute. Qed.
End CastExample.
