(* ===== verification/Spinlock.v ===== *)
(** * Spinlock: [kernel/sync/spinlock.hpp]

    First the class as its callers use it: each method is a computation on the lock word, and
    [guarded_by] is a scope that holds a [spinlock_guard].  Then several threads: a step relation
    whose steps are the accesses the methods make to the lock word, and the two facts a caller of
    [spinlock_guard] relies on, mutual exclusion and serialisability of critical sections. *)

From stdpp Require Import functions.
From S2P Require Import Prelude Atomic.

Definition SPINLOCK_UNLOCKED : Z := 0.
Definition SPINLOCK_LOCKED : Z := 1.

(** [atomic<u8> m_state]. *)
Definition state_type : int_type := unsigned 8.
Definition m_state_init : Z := encode_atomic_value state_type SPINLOCK_UNLOCKED.

Definition try_lock : kernel Z bool :=
  r ← compare_exchange_with state_type SPINLOCK_UNLOCKED SPINLOCK_LOCKED ACQUIRE RELAXED;
  mret (fst r).

Definition is_locked : kernel Z bool :=
  state ← load state_type RELAXED; mret (state =? SPINLOCK_LOCKED).

Definition relax {S} : kernel S unit := mret tt.

(** The outer loop of [lock] has the fuel [n]; so has the loop that waits for the release. *)
Fixpoint lock_loop (fuel n : nat) : kernel Z unit :=
  match n with
  | O => diverge
  | S n' =>
      locked ← try_lock;
      if locked : bool then mret tt
      else while fuel (fun _ => is_locked) (fun _ => relax) tt;; lock_loop fuel n'
  end.

Definition lock (fuel : nat) : kernel Z unit := lock_loop fuel fuel.

Definition unlock : kernel Z unit := store state_type SPINLOCK_UNLOCKED RELEASE.

(** A scope that begins with [spinlock_guard guard(lock)]: its constructor locks, its destructor
    unlocks when the scope is left.  [get] and [set] select the lock in the state. *)
Definition guarded_by {S A} (fuel : nat) (get : S -> Z) (set : Z -> S -> S) (body : kernel S A) :
    kernel S A :=
  zoom get set (lock fuel);;
  a ← body;
  zoom get set unlock;;
  mret a.

Lemma try_lock_eq l :
  try_lock l = Ret (l =? SPINLOCK_UNLOCKED, if l =? SPINLOCK_UNLOCKED then SPINLOCK_LOCKED else l).
Proof.
  unfold try_lock, compare_exchange_with, atomic_compare_exchange_n. orders.
  unfold mbind, kernel_bind, gets, id, modify, mret, kernel_ret. cbn [negb andb].
  change (encode_atomic_value state_type SPINLOCK_UNLOCKED) with 0.
  unfold SPINLOCK_UNLOCKED. destruct (Z.eqb_spec l 0); done.
Qed.

Lemma is_locked_eq l : 0 <= l < 256 -> is_locked l = Ret (l =? SPINLOCK_LOCKED, l).
Proof.
  intros Hl. unfold is_locked, load, atomic_load_n. orders.
  unfold mbind, kernel_bind, gets, id, mret, kernel_ret.
  replace (decode_atomic_value state_type l) with l; [done|].
  symmetry. apply convert_id; [done | exact Hl].
Qed.

Lemma unlock_eq l : unlock l = Ret (tt, SPINLOCK_UNLOCKED).
Proof. done. Qed.

Lemma wp_lock fuel (Q : unit -> Z -> Prop) :
  (0 < fuel)%nat -> Q tt SPINLOCK_LOCKED -> wp (lock fuel) Q SPINLOCK_UNLOCKED.
Proof. intros Hf HQ. destruct fuel as [|n]; [lia|]. done. Qed.

(** A guarded scope entered with the lock free runs its body with the lock held and leaves the lock
    free. *)
Lemma wp_guarded_by {S A} fuel get set (body : kernel S A) Q s :
  (0 < fuel)%nat -> get s = SPINLOCK_UNLOCKED ->
  wp body (fun a s' => Q a (set SPINLOCK_UNLOCKED s')) (set SPINLOCK_LOCKED s) ->
  wp (guarded_by fuel get set body) Q s.
Proof.
  intros Hf Hfree Hbody. unfold guarded_by. wp_steps. rewrite Hfree. apply wp_lock; [done|].
  cbv beta. wp_steps. eapply wp_mono; [exact Hbody|]. intros a s' HQ. cbv beta. wp_steps.
  exact HQ.
Qed.

(** A panic inside the scope is the scope's panic: nothing is unlocked. *)
Lemma panics_guarded_by {S A} fuel get set (body : kernel S A) message s :
  (0 < fuel)%nat -> get s = SPINLOCK_UNLOCKED ->
  panics body message (set SPINLOCK_LOCKED s) ->
  panics (guarded_by fuel get set body) message s.
Proof.
  intros Hf Hfree Hbody. unfold guarded_by. apply panics_bind, wp_zoom. rewrite Hfree.
  apply wp_lock; [done|]. by apply panics_bind_first.
Qed.

(** ** Threads *)
Section Threads.
Context {D : Type}.

(** A critical section is the list of the accesses it makes to the data the lock protects. *)
Definition critical_section : Type := list (D -> D).

Definition run_section (d : D) (s : critical_section) : D := foldl (fun d f => f d) d s.
Definition run_sections : D -> list critical_section -> D := foldl run_section.

(** Where a thread is: outside any guarded scope, about to call [try_lock], in the inner loop of
    [lock], or in the scope's body with some accesses left. *)
Inductive position : Type :=
| Outside
| Trying (s : critical_section)
| Spinning (s : critical_section)
| Inside (s rest : critical_section).

Record system : Type := {
  lock_word : Z;
  data : D;
  threads : nat -> position;
}.

Definition move (st : system) (l : Z) (d : D) (t : nat) (p : position) : system :=
  {| lock_word := l; data := d; threads := <[t := p]> (threads st) |}.

(** One step of one thread; the label is the section the step completes. *)
Inductive step : system -> option critical_section -> system -> Prop :=
| step_enter st t s :
    threads st t = Outside ->
    step st None (move st (lock_word st) (data st) t (Trying s))
| step_try st t s b l :
    threads st t = Trying s ->
    try_lock (lock_word st) = Ret (b, l) ->
    step st None (move st l (data st) t (if b : bool then Inside s s else Spinning s))
| step_spin st t s b l :
    threads st t = Spinning s ->
    is_locked (lock_word st) = Ret (b, l) ->
    step st None (move st l (data st) t (if b : bool then Spinning s else Trying s))
| step_access st t s f rest :
    threads st t = Inside s (f :: rest) ->
    step st None (move st (lock_word st) (f (data st)) t (Inside s rest))
| step_leave st t s l :
    threads st t = Inside s [] ->
    unlock (lock_word st) = Ret (tt, l) ->
    step st (Some s) (move st l (data st) t Outside).

Definition initial (d : D) : system :=
  {| lock_word := m_state_init; data := d; threads := fun _ => Outside |}.

(** The states reachable from [initial d], with the sections completed so far, in order. *)
Inductive reachable (d : D) : list critical_section -> system -> Prop :=
| reachable_initial : reachable d [] (initial d)
| reachable_step history st st' label :
    reachable d history st -> step st label st' ->
    reachable d (history ++ match label with Some s => [s] | None => [] end) st'.

Definition is_inside (p : position) : bool := match p with Inside _ _ => true | _ => false end.

(** The invariant: either nobody is inside, the word is free and the data is the result of the
    completed sections; or exactly one thread is inside and has done a prefix of its section. *)
Inductive consistent (d : D) (history : list critical_section) (st : system) : Prop :=
| consistent_free :
    lock_word st = SPINLOCK_UNLOCKED ->
    (forall t, is_inside (threads st t) = false) ->
    data st = run_sections d history ->
    consistent d history st
| consistent_held t s executed rest :
    lock_word st = SPINLOCK_LOCKED ->
    threads st t = Inside s rest ->
    (forall t', t' <> t -> is_inside (threads st t') = false) ->
    s = executed ++ rest ->
    data st = run_section (run_sections d history) executed ->
    consistent d history st.

Lemma lookup_move st l d t p t' :
  threads (move st l d t p) t' = if decide (t' = t) then p else threads st t'.
Proof.
  cbn. destruct (decide (t' = t)) as [->|].
  - by rewrite fn_lookup_insert.
  - by rewrite fn_lookup_insert_ne.
Qed.

(** A step that leaves the word and the data alone and does not cross the scope's boundary. *)
Lemma consistent_outside d history st t p :
  consistent d history st -> is_inside (threads st t) = false -> is_inside p = false ->
  consistent d history (move st (lock_word st) (data st) t p).
Proof.
  intros [Hl Hn Hd | t0 s ex rest Hl Ht Hn Hs Hd] Hout Hp.
  - apply consistent_free; [done | | done]. intros t'. rewrite lookup_move. by case_decide.
  - assert (t0 <> t) by (intros ->; by rewrite Ht in Hout).
    apply (consistent_held _ _ _ t0 s ex rest); rewrite ?lookup_move; [done | | | done..].
    + by rewrite decide_False.
    + intros t' Ht'. rewrite lookup_move. case_decide; [done | by apply Hn].
Qed.

Lemma consistent_step d history st label st' :
  consistent d history st -> step st label st' ->
  consistent d (history ++ match label with Some s => [s] | None => [] end) st'.
Proof.
  intros Hc Hstep. destruct Hstep as [st t s Ht|st t s b l Ht Htry|st t s b l Ht Hspin|
    st t s f rest Ht|st t s l Ht Hun]; rewrite ?app_nil_r.
  - apply consistent_outside; [done | by rewrite Ht | done].
  - rewrite try_lock_eq in Htry. injection Htry as <- <-.
    destruct (Z.eqb_spec (lock_word st) SPINLOCK_UNLOCKED) as [Hfree|].
    + destruct Hc as [Hl Hn Hd | ? ? ? ? Hl]; [|by rewrite Hl in Hfree].
      apply (consistent_held _ _ _ t s [] s); rewrite ?lookup_move; [done | | | done..].
      * by rewrite decide_True.
      * intros t' Ht'. rewrite lookup_move, decide_False by done. apply Hn.
    + apply consistent_outside; [done | by rewrite Ht | done].
  - assert (0 <= lock_word st < 256) as Hr by (destruct Hc as [->|? ? ? ? ->]; done).
    rewrite is_locked_eq in Hspin by done. injection Hspin as <- <-.
    apply consistent_outside; [done | by rewrite Ht | by case_match].
  - destruct Hc as [Hl Hn Hd | t0 s0 ex rest0 Hl Ht0 Hn Hs Hd]; [by specialize (Hn t); rewrite Ht in Hn|].
    destruct (decide (t0 = t)) as [->|Hne]; [|by specialize (Hn t (not_eq_sym Hne)); rewrite Ht in Hn].
    rewrite Ht in Ht0. injection Ht0 as <- <-.
    apply (consistent_held _ _ _ t s (ex ++ [f]) rest); rewrite ?lookup_move; [done | | | |].
    + by rewrite decide_True.
    + intros t' Ht'. rewrite lookup_move, decide_False by done. by apply Hn.
    + by rewrite <- app_assoc.
    + unfold run_section. rewrite foldl_app. cbn. by f_equal.
  - rewrite unlock_eq in Hun. injection Hun as <-.
    destruct Hc as [Hl Hn Hd | t0 s0 ex rest0 Hl Ht0 Hn Hs Hd]; [by specialize (Hn t); rewrite Ht in Hn|].
    destruct (decide (t0 = t)) as [->|Hne]; [|by specialize (Hn t (not_eq_sym Hne)); rewrite Ht in Hn].
    rewrite Ht in Ht0. injection Ht0 as <- <-. rewrite app_nil_r in Hs. subst ex.
    apply consistent_free; [done | |].
    + intros t'. rewrite lookup_move. case_decide; [done | by apply Hn].
    + unfold run_sections. rewrite foldl_app. exact Hd.
Qed.

Lemma reachable_consistent d history st : reachable d history st -> consistent d history st.
Proof.
  induction 1 as [|history st st' label _ IH Hstep]; [by apply consistent_free|].
  by eapply consistent_step.
Qed.

(** C26: At most one thread is inside a scope guarded by the lock, and the lock word says whether one
    is: when none is, the next [try_lock] succeeds. *)
Theorem mutual_exclusion d history st :
  reachable d history st ->
  (forall t1 t2, is_inside (threads st t1) = true -> is_inside (threads st t2) = true -> t1 = t2) /\
  (try_lock (lock_word st) = Ret (true, SPINLOCK_LOCKED) <->
     forall t, is_inside (threads st t) = false).
Proof.
  intros Hr. destruct (reachable_consistent _ _ _ Hr) as [Hl Hn _ | t s ex rest Hl Ht Hn _ _];
    rewrite try_lock_eq, Hl; split.
  - intros t1 t2 H1. by rewrite Hn in H1.
  - done.
  - intros t1 t2 H1 H2. destruct (decide (t1 = t)) as [->|H]; [|by rewrite Hn in H1].
    destruct (decide (t2 = t)) as [->|H]; [done | by rewrite Hn in H2].
  - split; [done|]. intros H. specialize (H t). by rewrite Ht in H.
Qed.

(** C27: Critical sections are serialisable: whatever the interleaving of their accesses, when no thread
    is inside, the protected data is what running the completed sections one after the other
    gives. *)
Theorem critical_sections_serialisable d history st :
  reachable d history st ->
  (forall t, is_inside (threads st t) = false) ->
  data st = run_sections d history.
Proof.
  intros Hr Hout. destruct (reachable_consistent _ _ _ Hr) as [_ _ Hd | t s ex rest _ Ht _ _ _]; [done|].
  specialize (Hout t). by rewrite Ht in Hout.
Qed.
End Threads.

Definition two_increments : @critical_section Z := [Z.add 1; Z.add 1].

(** Extend a derivation [R] of reachability by one step. *)
Ltac advance R rule :=
  eapply reachable_step in R; [| eapply rule; reflexivity]; cbn [app] in R.

(** Thread 0 is inside having made one of its two accesses; thread 1 has failed to enter. *)
Lemma contended_reachable :
  exists st, reachable 5 [] st /\ threads st 0%nat = Inside two_increments [Z.add 1] /\
             threads st 1%nat = Spinning two_increments /\ data st = 6.
Proof.
  pose proof (reachable_initial 5) as R.
  advance R (step_enter (initial 5) 0%nat two_increments).
  advance R (fun st => step_enter st 1%nat two_increments).
  advance R (fun st => step_try st 0%nat two_increments).
  advance R (fun st => step_access st 0%nat two_increments).
  advance R (fun st => step_try st 1%nat two_increments).
  eexists. split; [exact R | done].
Qed.

Lemma mutual_exclusion_witness :
  exists st, is_inside (@threads Z st 0%nat) = true /\
    (forall t, is_inside (threads st t) = true -> t = 0%nat).
Proof.
  destruct contended_reachable as (st & Hr & H0 & _). exists st. split; [by rewrite H0|].
  intros t Ht. apply (proj1 (mutual_exclusion 5 [] st Hr)); [done | by rewrite H0].
Defined.

Lemma completed_reachable :
  exists st, reachable 5 [two_increments] st /\ forall t, is_inside (threads st t) = false.
Proof.
  pose proof (reachable_initial 5) as R.
  advance R (step_enter (initial 5) 0%nat two_increments).
  advance R (fun st => step_try st 0%nat two_increments).
  advance R (fun st => step_access st 0%nat two_increments).
  advance R (fun st => step_access st 0%nat two_increments).
  advance R (fun st => step_leave st 0%nat two_increments).
  eexists. split; [exact R | intros [|t]; done].
Qed.

Lemma critical_sections_serialisable_witness :
  exists st, reachable 5 [two_increments] st /\ data st = 7.
Proof.
  destruct completed_reachable as (st & Hr & Hout). exists st. split; [exact Hr|].
  exact (critical_sections_serialisable 5 [two_increments] st Hr Hout).
Defined.
