(* ===== verification/Containers.v ===== *)
(** * Containers: [kernel/core/utils/string.hpp], [inplace_vector.hpp], [array.hpp], [container.hpp]

    The fixed-capacity string and vector: a buffer with a size.  A [char] is the integer of the
    signed 8-bit type of the target; a [const char *] is [None] for the null pointer and otherwise
    the list of the characters that can be read from it, so that reading past them is
    [Undefined]. *)

From S2P Require Import Prelude.

(** ** Text *)

Definition char : Type := Z.
Definition NUL : char := 0.
Definition text : Type := option (list char).

Definition char_at {S} (t : text) (i : Z) : kernel S char :=
  match t with
  | None => undefined
  | Some l => observe l (array_get i)
  end.

(** The C string at the start of a buffer. *)
Fixpoint cstring (l : list char) : list char :=
  match l with
  | [] => []
  | c :: rest => if c =? NUL then [] else c :: cstring rest
  end.

(** The first [n] characters of the C string can be read, with the terminator if it comes
    before. *)
Definition readable (l : list char) (n : Z) : Prop := n <= zlen l \/ zlen (cstring l) < zlen l.

(** ** [fixed_string<N>] *)
Module FixedString.

Record fixed_string : Type := { m_data : list char; m_size : Z }.

Definition NPOS : Z := 2 ^ 64 - 1.

Definition set_data (d : list char) (s : fixed_string) : fixed_string :=
  {| m_data := d; m_size := m_size s |}.
Definition set_size (n : Z) (s : fixed_string) : fixed_string :=
  {| m_data := m_data s; m_size := n |}.

Definition write (i : Z) (c : char) : kernel fixed_string unit :=
  zoom m_data set_data (array_set i c).

Section FixedString.
Context (N : Z).

Definition init : fixed_string :=
  {| m_data := replicate (Z.to_nat (N + 1)) NUL; m_size := 0 |}.

Definition capacity : Z := N.
Definition max_size : Z := N.
Definition size : kernel fixed_string Z := gets m_size.
Definition length_of : kernel fixed_string Z := gets m_size.
Definition c_str : kernel fixed_string (list char) := gets m_data.
Definition empty : kernel fixed_string bool := n ← gets m_size; mret (n =? 0).
Definition full : kernel fixed_string bool := n ← gets m_size; mret (n =? N).

Definition get (index : Z) : kernel fixed_string char := zoom m_data set_data (array_get index).
Definition put (index : Z) (c : char) : kernel fixed_string unit := write index c.
Definition front : kernel fixed_string char := get 0.
Definition back : kernel fixed_string char := n ← gets m_size; get (u64 (n - 1)).

Definition clear : kernel fixed_string unit :=
  modify (set_size 0);; write 0 NUL.

(** [append(text, count)]; its loop has fuel [N + 1]. *)
Definition append (t : text) (count : Z) : kernel fixed_string unit :=
  while (Z.to_nat (N + 1))
    (fun i =>
       if i <? count then
         n ← gets m_size;
         if n <? N then c ← char_at t i; mret (negb (c =? NUL)) else mret false
       else mret false)
    (fun i =>
       c ← char_at t i;
       n ← gets m_size;
       modify (set_size (u64 (n + 1)));;
       write n c;;
       mret (u64 (i + 1)))
    0;;
  n ← gets m_size;
  write n NUL.

Definition append_cstr (t : text) : kernel fixed_string unit :=
  append t (match t with None => 0 | Some _ => NPOS end).
Definition append_string (other : fixed_string) : kernel fixed_string unit :=
  append (Some (m_data other)) (m_size other).
Definition append_char (c : char) : kernel fixed_string unit := append (Some [c]) 1.
Definition push_back (c : char) : kernel fixed_string unit := append_char c.

Definition assign (t : text) (count : Z) : kernel fixed_string unit :=
  modify (set_size 0);; append t count.
Definition assign_cstr (t : text) : kernel fixed_string unit :=
  assign t (match t with None => 0 | Some _ => NPOS end).
Definition assign_string (other : fixed_string) : kernel fixed_string unit :=
  assign (Some (m_data other)) (m_size other).

(** [operator+=]. *)
Definition plus_cstr (t : text) : kernel fixed_string unit := append_cstr t.
Definition plus_char (c : char) : kernel fixed_string unit := append_char c.
Definition plus_string (other : fixed_string) : kernel fixed_string unit := append_string other.

(** The constructors from a text, from its first characters and from another string. *)
Definition construct_cstr (t : text) : kernel fixed_string unit :=
  modify (fun _ => init);; assign_cstr t.
Definition construct (t : text) (count : Z) : kernel fixed_string unit :=
  modify (fun _ => init);; assign t count.
Definition construct_string (other : fixed_string) : kernel fixed_string unit :=
  modify (fun _ => init);; assign_string other.

Definition pop_back : kernel fixed_string unit :=
  n ← gets m_size;
  modify (set_size (u64 (n - 1)));;
  write (u64 (n - 1)) NUL.

(** [compare(text)]: the loop returns early at a difference; otherwise it leaves at an index
    where the string or the text ends. *)
Definition compare (t : text) : kernel fixed_string Z :=
  n ← gets m_size;
  r ← scan_range 0 n (fun i =>
        c ← char_at t i;
        if c =? NUL then mret (Some 1)
        else
          d ← get i;
          if negb (d =? c) then mret (Some (if d <? c then -1 else 1)) else mret None);
  match r with
  | Some v => mret v
  | None => c ← char_at t n; mret (if c =? NUL then 0 else -1)
  end.

Definition equals_cstr (t : text) : kernel fixed_string bool :=
  v ← compare t; mret (v =? 0).

(** [compare(other)]: of the text of [other.c_str()]. *)
Definition compare_string (other : fixed_string) : kernel fixed_string Z := compare (Some (m_data other)).

Definition equals_string (other : fixed_string) : kernel fixed_string bool :=
  n ← gets m_size;
  if n =? m_size other then v ← compare_string other; mret (v =? 0) else mret false.

(** [starts_with(prefix)]: fuel [N + 2]. *)
Definition starts_with (prefix : text) : kernel fixed_string bool :=
  r ← while (Z.to_nat (N + 2))
    (fun '(i, result) =>
       match result with
       | Some _ => mret false
       | None => c ← char_at prefix i; mret (negb (c =? NUL))
       end)
    (fun '(i, _) =>
       n ← gets m_size;
       if n <=? i then mret (i, Some false)
       else
         d ← get i;
         c ← char_at prefix i;
         if negb (d =? c) then mret (i, Some false) else mret (u64 (i + 1), None))
    (0, None);
  mret (match snd r with Some b => b | None => true end).

(** [strlen] of the suffix, then a comparison from the end; [fuel] bounds the suffix. *)
Definition ends_with (fuel : nat) (suffix : text) : kernel fixed_string bool :=
  count ← while fuel
    (fun count => c ← char_at suffix count; mret (negb (c =? NUL)))
    (fun count => mret (u64 (count + 1)))
    0;
  n ← gets m_size;
  if n <? count then mret false
  else
    r ← scan_range 0 count (fun i =>
          d ← get (u64 (u64 (n - count) + i));
          c ← char_at suffix i;
          if negb (d =? c) then mret (Some false) else mret None);
    mret (match r with Some b => b | None => true end).

Definition find (c : char) (from : Z) : kernel fixed_string Z :=
  n ← gets m_size;
  r ← scan_range from n (fun i => d ← get i; if d =? c then mret (Some i) else mret None);
  mret (match r with Some i => i | None => NPOS end).
End FixedString.
End FixedString.

(** ** [inplace_vector<T, N>] *)

Inductive container_error : Type := CAPACITY_EXCEEDED | EMPTY.

Module InplaceVector.

Record inplace_vector (T : Type) : Type := { m_items : list T; m_size : Z }.
Arguments m_items {T}.
Arguments m_size {T}.

Section InplaceVector.
Context {T : Type} `{Inhabited T} (N : Z).

Definition init : inplace_vector T :=
  {| m_items := replicate (Z.to_nat N) inhabitant; m_size := 0 |}.

Definition set_items (l : list T) (v : inplace_vector T) : inplace_vector T :=
  {| m_items := l; m_size := m_size v |}.
Definition set_size (n : Z) (v : inplace_vector T) : inplace_vector T :=
  {| m_items := m_items v; m_size := n |}.

Definition capacity : Z := N.
Definition size : kernel (inplace_vector T) Z := gets m_size.
Definition empty : kernel (inplace_vector T) bool := n ← gets m_size; mret (n =? 0).

Definition get (index : Z) : kernel (inplace_vector T) T :=
  zoom m_items set_items (array_get index).
Definition put (index : Z) (x : T) : kernel (inplace_vector T) unit :=
  zoom m_items set_items (array_set index x).
Definition front : kernel (inplace_vector T) T := get 0.
Definition back : kernel (inplace_vector T) T := n ← gets m_size; get (u64 (n - 1)).

(** [emplace_back]: the reference it returns is the index of the slot. *)
Definition emplace_back (x : T) : kernel (inplace_vector T) Z :=
  n ← gets m_size;
  if n =? N then kpanic "inplace_vector: emplace_back past capacity"
  else
    put n x;;
    modify (set_size (u64 (n + 1)));;
    mret n.

Definition push_back (x : T) : kernel (inplace_vector T) Z :=
  n ← gets m_size;
  if n =? N then kpanic "inplace_vector: push_back past capacity"
  else emplace_back x.

Definition pop_back : kernel (inplace_vector T) unit :=
  n ← gets m_size;
  if n =? 0 then kpanic "inplace_vector: pop_back on empty"
  else modify (set_size (u64 (n - 1))).

Definition try_push_back (x : T) : kernel (inplace_vector T) (Result Z container_error) :=
  n ← gets m_size;
  if n =? N then mret (Err CAPACITY_EXCEEDED)
  else slot ← emplace_back x; mret (Ok slot).

Definition try_pop_back : kernel (inplace_vector T) (Result unit container_error) :=
  n ← gets m_size;
  if n =? 0 then mret (Err EMPTY)
  else mret (Ok tt).

Definition clear : kernel (inplace_vector T) unit := modify (set_size 0).
End InplaceVector.

(** The elements between [begin()] and [end()]. *)
Definition elements {T} (v : inplace_vector T) : list T := take (Z.to_nat (m_size v)) (m_items v).
End InplaceVector.

(** ** Facts: buffers and C strings *)

Lemma take_zset_snoc {A} (l : list A) n x :
  0 <= n < zlen l -> take (Z.to_nat (n + 1)) (zset l n x) = take (Z.to_nat n) l ++ [x].
Proof.
  unfold zlen, zset. intros Hn. replace (Z.to_nat (n + 1)) with (S (Z.to_nat n)) by lia.
  rewrite (take_S_r _ _ x) by (apply list_lookup_insert_eq; lia).
  by rewrite take_insert_ge.
Qed.

Lemma take_zset_ge {A} (l : list A) n k x :
  0 <= n <= k -> take (Z.to_nat n) (zset l k x) = take (Z.to_nat n) l.
Proof. intros Hn. unfold zset. rewrite take_insert_ge; [done | lia]. Qed.

Lemma zlen_take {A} (l : list A) n : 0 <= n <= zlen l -> zlen (take (Z.to_nat n) l) = n.
Proof. unfold zlen. rewrite length_take. lia. Qed.

Lemma zlen_app {A} (l1 l2 : list A) : zlen (l1 ++ l2) = zlen l1 + zlen l2.
Proof. unfold zlen. rewrite length_app. lia. Qed.

Lemma zlen_cons {A} (x : A) l : zlen (x :: l) = 1 + zlen l.
Proof. unfold zlen. cbn [length]. lia. Qed.

Lemma zlen_nil {A} : zlen (@nil A) = 0.
Proof. done. Qed.

Lemma zlen_nonneg {A} (l : list A) : 0 <= zlen l.
Proof. unfold zlen. lia. Qed.

Lemma znth_app_middle `{Inhabited A} (p : list A) x q : znth (p ++ x :: q) (zlen p) = x.
Proof.
  unfold znth, zlen. rewrite Nat2Z.id. apply list_lookup_total_correct. by rewrite list_lookup_middle.
Qed.

Lemma znth_take `{Inhabited A} (l : list A) n i :
  0 <= i < n -> znth (take (Z.to_nat n) l) i = znth l i.
Proof. intros Hi. unfold znth. rewrite lookup_total_take_lt; [done | lia]. Qed.

#[export] Hint Rewrite @zlen_app @zlen_cons @zlen_nil : arrays.

Lemma cstring_spec l : exists rest,
  l = cstring l ++ rest /\ (rest = [] \/ exists rest', rest = NUL :: rest') /\ Forall (.≠ NUL) (cstring l).
Proof.
  induction l as [|c l (rest & Hl & Hr & Hf)]; [exists []; repeat split; [by left | constructor]|].
  cbn [cstring]. destruct (Z.eqb_spec c NUL) as [->|].
  - exists (NUL :: l). repeat split; [right; by eexists | constructor].
  - exists rest. repeat split; [by rewrite <- app_comm_cons, <- Hl | done | by constructor].
Qed.

Lemma cstring_app p rest : Forall (.≠ NUL) p -> cstring (p ++ NUL :: rest) = p.
Proof.
  induction 1 as [|c p Hc _ IH]; [done|]. cbn. destruct (Z.eqb_spec c NUL); [done|]. by f_equal.
Qed.

Definition next_char (b : list char) : char := match b with [] => NUL | c :: _ => c end.

(** Reading a text at an index its C string reaches: the character, or the terminator. *)
Lemma wp_char_at {S} l p b i (Q : char -> S -> Prop) s :
  cstring l = p ++ b -> zlen p = i -> readable l (i + 1) ->
  Q (next_char b) s -> wp (char_at (Some l) i) Q s.
Proof.
  intros Hl Hp Hr HQ. destruct (cstring_spec l) as (rest & Hl' & Hrest & _).
  rewrite Hl, <- app_assoc in Hl'.
  assert (zlen (cstring l) = i + zlen b) as Hlen by (rewrite Hl; autorewrite with arrays; lia).
  assert (0 <= i < zlen l).
  { destruct Hr as [Hr|Hr]; pose proof (zlen_nonneg p); pose proof (zlen_nonneg b); lia. }
  apply wp_observe, wp_array_get; [done|].
  replace (znth l i) with (next_char b); [done|].
  rewrite Hl', <- Hp. destruct b as [|x b]; cbn [app next_char].
  - rewrite Hl' in H. autorewrite with arrays in H.
    destruct Hrest as [->|[rest' ->]]; [autorewrite with arrays in H; lia | by rewrite znth_app_middle].
  - by rewrite znth_app_middle.
Qed.

Lemma cstring_not_nul l p c b : cstring l = p ++ c :: b -> c <> NUL.
Proof.
  intros Hl. destruct (cstring_spec l) as (? & _ & _ & Hf). rewrite Hl in Hf.
  apply Forall_app in Hf as [_ Hf]. by inversion Hf.
Qed.

(** The three-way lexicographic order that [compare] computes. *)
Fixpoint lexicographic (a b : list char) : Z :=
  match a, b with
  | [], [] => 0
  | [], _ :: _ => -1
  | _ :: _, [] => 1
  | x :: a', y :: b' => if x =? y then lexicographic a' b' else if x <? y then -1 else 1
  end.

Lemma lexicographic_app p a b : lexicographic (p ++ a) (p ++ b) = lexicographic a b.
Proof. induction p as [|x p IH]; [done|]. cbn. by rewrite Z.eqb_refl. Qed.

Lemma lexicographic_eq a b : lexicographic a b = 0 <-> a = b.
Proof.
  revert b. induction a as [|x a IH]; intros [|y b]; cbn; [done..|].
  destruct (Z.eqb_spec x y) as [->|Hne].
  - rewrite IH. split; [by intros -> | by intros [= ->]].
  - split; [by destruct (x <? y) | by intros [= ? ?]].
Qed.

Module FixedStringFacts.
Import FixedString.
Section FixedStringFacts.
Context (N : Z) (HN : 0 < N < 2 ^ 64 - 1).

(** The characters of the string. *)
Definition contents (s : fixed_string) : list char := take (Z.to_nat (m_size s)) (m_data s).

Record buffer (s : fixed_string) : Prop := {
  buffer_length : zlen (m_data s) = N + 1;
  buffer_size : 0 <= m_size s <= N;
  buffer_text : Forall (.≠ NUL) (contents s);
}.

(** A well-formed string is terminated: [c_str()] reads exactly its characters. *)
Definition wf (s : fixed_string) : Prop := buffer s /\ znth (m_data s) (m_size s) = NUL.

Lemma zlen_contents s : buffer s -> zlen (contents s) = m_size s.
Proof. intros []. apply zlen_take. lia. Qed.

Lemma wf_cstring s : wf s -> cstring (m_data s) = contents s.
Proof.
  intros [Hb Hn]. destruct Hb as [Hl Hs Ht].
  rewrite <- (take_drop (Z.to_nat (m_size s)) (m_data s)) at 1.
  erewrite drop_S; [| apply list_lookup_lookup_total_lt; unfold zlen in Hl; lia].
  change (m_data s !!! Z.to_nat (m_size s)) with (znth (m_data s) (m_size s)).
  rewrite Hn. by apply cstring_app.
Qed.

Lemma wp_terminate s (Q : unit -> fixed_string -> Prop) :
  buffer s -> (forall s', wf s' -> contents s' = contents s -> Q tt s') ->
  wp (write (m_size s) NUL) Q s.
Proof.
  intros [Hl Hs Ht] HQ. apply wp_zoom, wp_array_set; [lia|].
  assert (contents (set_data (zset (m_data s) (m_size s) NUL) s) = contents s) as Hc.
  { unfold contents. cbn. apply take_zset_ge. lia. }
  apply HQ; [split; [split|]|done]; cbn; autorewrite with arrays; [lia..| |].
  - by rewrite Hc.
  - apply znth_zset_eq. lia.
Qed.

(** One iteration of the loop of [append]. *)
Lemma wp_append_char s c (Q : unit -> fixed_string -> Prop) :
  buffer s -> m_size s < N -> c <> NUL ->
  (forall s', buffer s' -> contents s' = contents s ++ [c] -> m_size s' = m_size s + 1 -> Q tt s') ->
  wp (write (m_size s) c) Q (set_size (m_size s + 1) s).
Proof.
  intros [Hl Hs Ht] Hroom Hc HQ. apply wp_zoom, wp_array_set; cbn; [lia|].
  match goal with |- Q tt ?t => set (s' := t) end.
  assert (contents s' = contents s ++ [c]) as Hcs.
  { unfold contents, s'. cbn. apply take_zset_snoc. lia. }
  apply HQ; [split|done|done]; cbn; autorewrite with arrays; [lia..|].
  rewrite Hcs. apply Forall_app. by split; [|constructor].
Qed.

Lemma wp_append s l count (Q : unit -> fixed_string -> Prop) :
  buffer s -> 0 <= count < 2 ^ 64 -> readable l (Z.min count (N - m_size s)) ->
  (forall s', wf s' ->
     contents s' = contents s ++ take (Z.to_nat (Z.min count (N - m_size s))) (cstring l) ->
     Q tt s') ->
  wp (append N (Some l) count) Q s.
Proof.
  intros Hb Hcount Hread HQ. unfold append. apply wp_bind. pose proof (buffer_size s Hb).
  set (room := Z.min count (N - m_size s)) in *.
  apply wp_while with
    (Inv := fun i s1 => buffer s1 /\ 0 <= i <= room /\ m_size s1 = m_size s + i /\
      exists p b, cstring l = p ++ b /\ zlen p = i /\ contents s1 = contents s ++ p)
    (variant := fun i _ => N - i).
  - repeat split; try apply Hb; try (destruct Hb; lia). exists [], (cstring l).
    by rewrite app_nil_r.
  - destruct Hb; lia.
  - intros i s1 (Hb1 & Hi & Hsize & p & b & Hl & Hp & Hc) _.
    pose proof (buffer_size s1 Hb1).
    assert (Hstop : room = i \/ b = [] -> wp (n ← gets m_size; write n NUL) Q s1).
    { intros Hor. wp_steps. apply wp_terminate; [done|]. intros s2 Hw2 Hc2. apply HQ; [done|].
      rewrite Hc2, Hc, Hl. f_equal. unfold zlen in Hp. destruct Hor as [Hr| ->].
      - rewrite take_app_length'; [done | lia].
      - rewrite app_nil_r, take_ge; [done | lia]. }
    destruct (Z.ltb_spec i count) as [Hlt|Hge]; wp_steps; [|by apply Hstop; left; lia].
    destruct (Z.ltb_spec (m_size s1) N) as [Hroom|Hfull]; wp_steps; [|by apply Hstop; left; lia].
    assert (readable l (i + 1)) by (destruct Hread; [left; lia | by right]).
    eapply wp_char_at; [exact Hl | exact Hp | done |].
    destruct b as [|c b]; cbn [next_char]; wp_steps; [by apply Hstop; right|].
    pose proof (cstring_not_nul _ _ _ _ Hl) as Hc0.
    destruct (Z.eqb_spec c NUL); [done|]. cbn [negb]. wp_steps.
    eapply wp_char_at; [exact Hl | exact Hp | done |]. cbn [next_char]. wp_steps.
    unfold u64. rewrite !wrap_small by (unfold in_width; lia).
    apply wp_append_char; [done..|]. intros s2 Hb2 Hc2 Hs2. wp_steps.
    split; [split; [done|]; split; [lia|]; split; [lia|] | lia].
    exists (p ++ [c]), b. rewrite <- app_assoc.
    autorewrite with arrays. repeat split; [done | lia | by rewrite Hc2, Hc, app_assoc].
Qed.

Lemma string_wf_init : wf (init N).
Proof.
  unfold init. split; [split|]; cbn; rewrite ?zlen_replicate by lia; [lia..| constructor |].
  apply znth_replicate. lia.
Qed.

(** Appending null is appending nothing. *)
Lemma wp_append_null s (Q : unit -> fixed_string -> Prop) :
  buffer s -> (forall s', wf s' -> contents s' = contents s -> Q tt s') ->
  wp (append N None 0) Q s.
Proof.
  intros Hb HQ. unfold append. apply wp_bind.
  replace (Z.to_nat (N + 1)) with (S (Z.to_nat N)) by lia. cbn [while].
  change (0 <? 0) with false. wp_steps. by apply wp_terminate.
Qed.

Lemma buffer_empty s : wf s -> buffer (set_size 0 s).
Proof. intros [[Hl Hs Ht] _]. split; cbn; [done | lia | constructor]. Qed.

Lemma wp_get s i (Q : char -> fixed_string -> Prop) :
  buffer s -> 0 <= i <= N -> Q (znth (m_data s) i) s -> wp (get i) Q s.
Proof.
  intros [Hl _ _] Hi HQ. apply wp_zoom, wp_array_get; [lia|]. by destruct s.
Qed.

Lemma contents_at s p x q : buffer s -> contents s = p ++ x :: q -> znth (m_data s) (zlen p) = x.
Proof.
  intros Hb Hc. pose proof (zlen_contents s Hb) as Hlen. rewrite Hc in Hlen.
  autorewrite with arrays in Hlen. pose proof (zlen_nonneg p). pose proof (zlen_nonneg q).
  rewrite <- (znth_take _ (m_size s)) by lia.
  change (znth (contents s) (zlen p) = x). rewrite Hc. apply znth_app_middle.
Qed.

Lemma wp_compare s l (Q : Z -> fixed_string -> Prop) :
  wf s -> readable l (m_size s + 1) -> Q (lexicographic (contents s) (cstring l)) s ->
  wp (compare (Some l)) Q s.
Proof.
  intros [Hb _] Hread HQ. pose proof (zlen_contents s Hb) as Hlen. pose proof (buffer_size s Hb).
  unfold compare. wp_steps.
  apply wp_scan_range with
    (Inv := fun i s1 => s1 = s /\ exists p a b, contents s = p ++ a /\ cstring l = p ++ b /\ zlen p = i)
    (Found := fun v s1 => s1 = s /\ v = lexicographic (contents s) (cstring l)).
  - split; [done|]. by exists [], (contents s), (cstring l).
  - intros i s1 Hi (-> & p & a & b & Ha & Hb' & Hp). wp_steps.
    eapply wp_char_at; [exact Hb' | exact Hp | |].
    { destruct Hread; [left; lia | by right]. }
    rewrite Ha, Hb'. rewrite lexicographic_app.
    destruct a as [|x a]; [rewrite Ha in Hlen; autorewrite with arrays in Hlen; lia|].
    destruct b as [|y b]; cbn [next_char]; [by wp_steps|].
    pose proof (cstring_not_nul _ _ _ _ Hb') as Hy.
    destruct (Z.eqb_spec y NUL); [done|]. wp_steps. apply wp_get; [done | lia|].
    rewrite <- Hp, (contents_at s p x a) by done. cbn [lexicographic].
    destruct (Z.eqb_spec x y) as [->|]; cbn [negb]; wp_steps; [|done].
    split; [done|]. exists (p ++ [y]), a, b. rewrite <- !app_assoc. autorewrite with arrays.
    split; [done | split; [done | lia]].
  - intros v s1 [-> ->]. by wp_steps.
  - intros s1 (-> & p & a & b & Ha & Hb' & Hp). rewrite Z.max_r in Hp by lia. wp_steps.
    eapply wp_char_at; [exact Hb' | exact Hp | done |]. wp_steps.
    destruct a as [|x a]; cycle 1.
    { rewrite Ha in Hlen. autorewrite with arrays in Hlen. pose proof (zlen_nonneg a). lia. }
    rewrite Ha, Hb', lexicographic_app in HQ. destruct b as [|y b]; [done|].
    pose proof (cstring_not_nul _ _ _ _ Hb') as Hy.
    cbn [next_char]. by destruct (Z.eqb_spec y NUL).
Qed.

Lemma wp_starts_with s l (Q : bool -> fixed_string -> Prop) :
  wf s -> readable l (m_size s + 1) -> zlen (cstring l) < zlen l ->
  Q (bool_decide (cstring l `prefix_of` contents s)) s ->
  wp (starts_with N (Some l)) Q s.
Proof.
  intros [Hb _] _ Hread HQ. pose proof (zlen_contents s Hb) as Hlen. pose proof (buffer_size s Hb).
  unfold starts_with. apply wp_bind.
  apply wp_while with
    (Inv := fun '(i, r) s1 => s1 = s /\ 0 <= i <= m_size s /\
      match r with
      | None => exists p a b, contents s = p ++ a /\ cstring l = p ++ b /\ zlen p = i
      | Some v => v = false /\ ~ cstring l `prefix_of` contents s
      end)
    (variant := fun '(i, r) _ => match r with None => N + 1 - i | Some _ => 0 end).
  - split; [done|]. split; [lia|]. by exists [], (contents s), (cstring l).
  - lia.
  - intros [i [v|]] s1 (-> & Hi & Hinv) _.
    { wp_steps. destruct Hinv as [-> Hno]. cbn. by rewrite bool_decide_eq_false_2 in HQ. }
    destruct Hinv as (p & a & b & Ha & Hb' & Hp). wp_steps.
    assert (readable l (i + 1)) as Hrd by by right.
    eapply wp_char_at; [exact Hb' | exact Hp | done |]. wp_steps.
    destruct b as [|y b]; cbn [next_char].
    { cbn. wp_steps. cbn. rewrite bool_decide_eq_true_2 in HQ; [done|].
      exists a. by rewrite Ha, Hb', app_nil_r. }
    pose proof (cstring_not_nul _ _ _ _ Hb') as Hy.
    destruct (Z.eqb_spec y NUL); [done|]. cbn [negb]. wp_steps.
    rewrite Ha, Hb' in *. destruct a as [|x a].
    { rewrite app_nil_r in Hlen. rewrite Hlen in Hp. rewrite Hp.
      destruct (Z.leb_spec i i); [|lia]. wp_steps. repeat split; [lia.. | | lia | lia].
      intros [k Hk]. apply (f_equal length) in Hk. rewrite !length_app in Hk. cbn in Hk. lia. }
    autorewrite with arrays in Hlen. pose proof (zlen_nonneg a).
    destruct (Z.leb_spec (m_size s) i); [lia|]. wp_steps. apply wp_get; [done|lia|]. wp_steps.
    eapply wp_char_at; [exact Hb' | exact Hp | done |]. wp_steps. cbn [next_char].
    rewrite <- Hp, (contents_at s p x a) by done.
    destruct (Z.eqb_spec x y) as [->|Hne]; cbn [negb]; wp_steps.
    + unfold u64. rewrite wrap_small by (unfold in_width; lia). pose proof (zlen_nonneg p).
      split; [|lia]. split; [done|]. split; [lia|]. exists (p ++ [y]), a, b.
      rewrite <- !app_assoc. autorewrite with arrays. split; [done | split; [done | lia]].
    + repeat split; [lia.. | | lia | lia]. intros [k Hk]. rewrite <- app_assoc in Hk.
      apply app_inv_head in Hk. by simplify_eq/=.
Qed.

Lemma wp_length {S} fuel l (Q : Z -> S -> Prop) (s : S) :
  zlen (cstring l) < zlen l -> zlen l < 2 ^ 64 -> (length l <= fuel)%nat ->
  Q (zlen (cstring l)) s ->
  wp (while fuel (fun count => c ← char_at (Some l) count; mret (negb (c =? NUL)))
        (fun count => mret (u64 (count + 1))) 0) Q s.
Proof.
  intros Hread Hl Hfuel HQ.
  apply wp_while with
    (Inv := fun i s1 => s1 = s /\ exists p b, cstring l = p ++ b /\ zlen p = i)
    (variant := fun i _ => zlen (cstring l) - i).
  - split; [done|]. by exists [], (cstring l).
  - pose proof (zlen_nonneg (cstring l)). unfold zlen in *. lia.
  - intros i s1 (-> & p & b & Hb & Hp) _. wp_steps.
    eapply wp_char_at; [exact Hb | exact Hp | by right |]. wp_steps.
    pose proof (zlen_nonneg p). destruct b as [|y b]; cbn [next_char].
    { cbn. rewrite Hb, app_nil_r, Hp in HQ. exact HQ. }
    pose proof (cstring_not_nul _ _ _ _ Hb) as Hy.
    destruct (Z.eqb_spec y NUL); [done|]. cbn [negb]. wp_steps.
    rewrite Hb in Hread |- *. autorewrite with arrays in Hread |- *. pose proof (zlen_nonneg b).
    unfold u64. rewrite wrap_small by (unfold in_width; lia). split; [|lia].
    split; [done|]. exists (p ++ [y]), b. rewrite <- !app_assoc. autorewrite with arrays.
    split; [done | lia].
Qed.

Lemma suffix_drop (a b : list char) :
  (length b <= length a)%nat ->
  bool_decide (b `suffix_of` a) = bool_decide (drop (length a - length b) a = b).
Proof.
  intros Hle. apply bool_decide_ext. split.
  - intros [k ->]. rewrite length_app, Nat.add_sub. by rewrite drop_app_length.
  - intros Hd. exists (take (length a - length b) a). by rewrite <- Hd at 2; rewrite take_drop.
Qed.

Lemma wp_ends_with s fuel l (Q : bool -> fixed_string -> Prop) :
  wf s -> zlen (cstring l) < zlen l -> zlen l < 2 ^ 64 -> (length l <= fuel)%nat ->
  Q (bool_decide (cstring l `suffix_of` contents s)) s ->
  wp (ends_with fuel (Some l)) Q s.
Proof.
  intros [Hb _] Hread Hl Hfuel HQ. pose proof (zlen_contents s Hb) as Hlen.
  pose proof (buffer_size s Hb) as Hs. unfold ends_with. wp_steps. apply wp_length; [done..|].
  wp_steps. destruct (Z.ltb_spec (m_size s) (zlen (cstring l))) as [Hlt|Hge]; wp_steps.
  { rewrite bool_decide_eq_false_2 in HQ; [done|]. intros Hsuf%suffix_length.
    unfold zlen in *. lia. }
  rewrite suffix_drop in HQ by (unfold zlen in *; lia).
  set (d := drop (length (contents s) - length (cstring l)) (contents s)) in *.
  assert (Hsplit : contents s = take (length (contents s) - length (cstring l)) (contents s) ++ d)
    by (symmetry; apply take_drop).
  set (t := take _ _) in Hsplit.
  assert (zlen t = m_size s - zlen (cstring l)) as Ht.
  { unfold t, zlen in *. rewrite length_take. lia. }
  clearbody d t.
  assert (zlen d = zlen (cstring l)) as Hd.
  { rewrite Hsplit in Hlen. autorewrite with arrays in Hlen. lia. }
  apply wp_scan_range with
    (Inv := fun i s1 => s1 = s /\ exists p a b, d = p ++ a /\ cstring l = p ++ b /\ zlen p = i)
    (Found := fun v s1 => s1 = s /\ v = false /\ d <> cstring l).
  - split; [done|]. by exists [], d, (cstring l).
  - intros i s1 Hi (-> & p & a & b & Ha & Hb' & Hp). wp_steps.
    rewrite Ha, Hb' in *. autorewrite with arrays in Hd. autorewrite with arrays in Hge.
    autorewrite with arrays in Hi. autorewrite with arrays in Ht. autorewrite with arrays in Hread.
    destruct b as [|y b]; [autorewrite with arrays in Hi; lia|].
    destruct a as [|x a]; [autorewrite with arrays in Hd; pose proof (zlen_nonneg b); lia|].
    autorewrite with arrays in Hd, Ht, Hge, Hread |- *. pose proof (zlen_nonneg b).
    pose proof (zlen_nonneg p). unfold u64.
    rewrite (wrap_small 64 (m_size s - _)), wrap_small by (unfold in_width; lia).
    apply wp_get; [done | lia |]. wp_steps.
    eapply wp_char_at; [exact Hb' | exact Hp | right; rewrite Hb'; autorewrite with arrays; lia |].
    wp_steps. cbn [next_char].
    replace (m_size s - (zlen p + (1 + zlen b)) + i) with (zlen (t ++ p))
      by (autorewrite with arrays; lia).
    rewrite (contents_at s (t ++ p) x a) by (done || by rewrite Hsplit, app_assoc).
    destruct (Z.eqb_spec x y) as [->|Hne]; cbn [negb]; wp_steps.
    + split; [done|]. exists (p ++ [y]), a, b. rewrite <- !app_assoc. autorewrite with arrays.
      split; [done | split; [done | lia]].
    + split; [done|]. split; [done|]. intros Heq%app_inv_head. congruence.
  - intros v s1 (-> & -> & Hne). wp_steps. by rewrite bool_decide_eq_false_2 in HQ.
  - intros s1 (-> & p & a & b & Ha & Hb' & Hp). wp_steps.
    rewrite bool_decide_eq_true_2 in HQ; [done|].
    rewrite Ha, Hb' in Hd |- *. rewrite Hb' in Hp. autorewrite with arrays in Hd, Hp.
    pose proof (zlen_nonneg a). pose proof (zlen_nonneg p). pose proof (zlen_nonneg b).
    destruct a as [|x a]; [|autorewrite with arrays in *; pose proof (zlen_nonneg a); lia].
    destruct b as [|y b]; [done|]. autorewrite with arrays in *; pose proof (zlen_nonneg b); lia.
Qed.

Lemma wp_find s c from (Q : Z -> fixed_string -> Prop) :
  wf s -> 0 <= from ->
  (forall r, from <= r < m_size s -> znth (contents s) r = c ->
     (forall i, from <= i < r -> znth (contents s) i <> c) -> Q r s) ->
  ((forall i, from <= i < m_size s -> znth (contents s) i <> c) -> Q NPOS s) ->
  wp (find c from) Q s.
Proof.
  intros [Hb _] Hfrom Hfound Hnone. pose proof (buffer_size s Hb). unfold find. wp_steps.
  assert (Hat : forall i, 0 <= i < m_size s -> znth (contents s) i = znth (m_data s) i)
    by (intros; apply znth_take; lia).
  apply wp_scan_range with
    (Inv := fun i s1 => s1 = s /\ forall k, from <= k < i -> znth (contents s) k <> c)
    (Found := fun r s1 => s1 = s /\ from <= r < m_size s /\ znth (contents s) r = c /\
       forall i, from <= i < r -> znth (contents s) i <> c).
  - split; [done | intros; lia].
  - intros i s1 Hi (-> & Hbelow). wp_steps. apply wp_get; [done | lia |].
    rewrite <- Hat by lia. destruct (Z.eqb_spec (znth (contents s) i) c); wp_steps; [done|].
    split; [done|]. intros k Hk. destruct (Z.eq_dec k i) as [->|]; [done | apply Hbelow; lia].
  - intros r s1 (-> & Hr & Hc & Hbelow). wp_steps. by apply Hfound.
  - intros s1 (-> & Hbelow). wp_steps. apply Hnone. intros i Hi. apply Hbelow. lia.
Qed.

Lemma wp_pop_back s (Q : unit -> fixed_string -> Prop) :
  wf s -> m_size s <> 0 ->
  (forall s', wf s' -> contents s' = take (Z.to_nat (m_size s - 1)) (contents s) -> Q tt s') ->
  wp pop_back Q s.
Proof.
  intros [Hb _] Hne HQ. destruct Hb as [Hl Hs Ht]. unfold pop_back. wp_steps.
  unfold u64. rewrite wrap_small by (unfold in_width; lia).
  assert (contents (set_size (m_size s - 1) s) = take (Z.to_nat (m_size s - 1)) (contents s)) as Hc.
  { unfold contents. cbn. rewrite take_take. f_equal. lia. }
  apply (wp_terminate (set_size (m_size s - 1) s)).
  - split; cbn; [done | lia |]. rewrite Hc. by apply Forall_take.
  - intros s' Hw Hc'. apply HQ; [done|]. by rewrite Hc', Hc.
Qed.
End FixedStringFacts.
End FixedStringFacts.

(** ** Properties of [fixed_string] *)
Module FixedStringProperties.
Import FixedString FixedStringFacts.
Section FixedStringProperties.
Context (N : Z) (HN : 0 < N < 2 ^ 64 - 1).

(** Assigning and appending: the string holds the C string truncated to the room that is left,
    and stays terminated and free of embedded terminators; null assigns the empty string. *)
Theorem string_append_truncates s l :
  wf N s -> readable l N ->
  wp (append_cstr N (Some l))
     (fun _ s' => wf N s' /\
        contents s' = contents s ++ take (Z.to_nat (N - m_size s)) (cstring l)) s /\
  wp (assign_cstr N (Some l))
     (fun _ s' => wf N s' /\ contents s' = take (Z.to_nat N) (cstring l)) s /\
  wp (assign_cstr N None) (fun _ s' => wf N s' /\ contents s' = []) s.
Proof.
  intros Hw Hread. pose proof Hw as [Hb _]. pose proof (buffer_size N s Hb).
  assert (Hr : readable l (Z.min NPOS (N - m_size s)))
    by (destruct Hread; [left; lia | by right]).
  assert (Hmin : forall k, 0 <= k <= N -> Z.min NPOS (N - k) = N - k) by (unfold NPOS; lia).
  split; [|split].
  - apply wp_append; [done.. |]. intros s' Hs'. by rewrite Hmin by lia.
  - unfold assign_cstr, assign. wp_steps. apply wp_append; [done | by apply buffer_empty | done | |].
    + cbn. rewrite Hmin, Z.sub_0_r by lia. done.
    + intros s' Hs'. cbn. by rewrite Hmin, Z.sub_0_r by lia.
  - unfold assign_cstr, assign. wp_steps. apply wp_append_null; [done | by apply buffer_empty|].
    done.
Qed.

(** Comparison is the lexicographic order of the contents, and the equality operators decide
    equality of the contents. *)
Theorem string_compare_correct s l other :
  wf N s -> wf N other -> readable l (m_size s + 1) ->
  wp (compare (Some l)) (fun v s' => v = lexicographic (contents s) (cstring l) /\ s' = s) s /\
  wp (equals_cstr (Some l)) (fun b s' => b = bool_decide (contents s = cstring l) /\ s' = s) s /\
  wp (equals_string other) (fun b s' => b = bool_decide (contents s = contents other) /\ s' = s) s.
Proof.
  intros Hw Ho Hread.
  assert (Heq : forall a b, (lexicographic a b =? 0) = bool_decide (a = b)).
  { intros a b. apply eq_true_iff_eq. by rewrite bool_decide_eq_true, Z.eqb_eq, lexicographic_eq. }
  split; [|split].
  - by apply wp_compare with (N := N).
  - apply wp_bind. apply wp_compare with (N := N); [done..|]. wp_steps. by rewrite Heq.
  - unfold equals_string. wp_steps. destruct Ho as [Hbo Hno]. pose proof Hw as [Hb Hn].
    pose proof (zlen_contents N s Hb). pose proof (zlen_contents N other Hbo).
    destruct (Z.eqb_spec (m_size s) (m_size other)) as [Hsz|Hsz].
    + apply wp_bind. apply wp_compare with (N := N); [done..| |].
      { left. rewrite (buffer_length N other Hbo). pose proof (buffer_size N s Hb). lia. }
      wp_steps. rewrite Heq, (wf_cstring N); done.
    + wp_steps. split; [|done]. symmetry. apply bool_decide_eq_false_2. congruence.
Qed.

(** A string that is constructed from another one, of any capacity, has its contents, truncated
    to the room there is. *)
Theorem string_copy_correct M s other :
  0 < M < 2 ^ 64 - 1 -> wf M other ->
  wp (construct_string N other)
    (fun _ s' => wf N s' /\ contents s' = take (Z.to_nat N) (contents other)) s.
Proof.
  intros HM Ho. pose proof Ho as [Hb _]. pose proof (zlen_contents M other Hb) as Hlen.
  pose proof (buffer_size M other Hb). pose proof (buffer_length M other Hb).
  unfold construct_string, assign_string, assign. destruct (string_wf_init N HN) as [Hbi _].
  wp_steps. apply wp_append; [done | by apply buffer_empty, string_wf_init | lia | |].
  - left. cbn. lia.
  - intros s' Hs' ->. split; [done|].
    change (contents (set_size 0 (init N))) with (@nil char). cbn. rewrite (wf_cstring M HM other Ho).
    destruct (Z.le_gt_cases (m_size other) N).
    + rewrite !take_ge; [done | unfold zlen in Hlen; lia..].
    + do 2 f_equal. lia.
Qed.

(** [starts_with] and [ends_with] decide the prefix and the suffix relation. *)
Theorem string_affixes_correct s fuel l :
  wf N s -> zlen (cstring l) < zlen l -> zlen l < 2 ^ 64 -> (length l <= fuel)%nat ->
  wp (starts_with N (Some l)) (fun b s' => b = bool_decide (cstring l `prefix_of` contents s) /\ s' = s) s /\
  wp (ends_with fuel (Some l)) (fun b s' => b = bool_decide (cstring l `suffix_of` contents s) /\ s' = s) s.
Proof.
  intros. split.
  - apply wp_starts_with; [done.. | by right | done | done].
  - by apply wp_ends_with with (N := N).
Qed.
End FixedStringProperties.

Definition abc : list char := [97; 98; 99; NUL].

Lemma abc_wf : wf 4 (FixedString.Build_fixed_string [97; 98; 0; 0; 0] 2).
Proof. split; [split|]; cbn; [done | lia | repeat constructor; done | done]. Qed.

Lemma four_fits : 0 < 4 < 2 ^ 64 - 1.
Proof. done. Qed.

Lemma abc_readable n : readable abc n.
Proof. by right. Qed.

Lemma string_append_truncates_witness :
  wp (append_cstr 4 (Some abc))
     (fun _ s' => wf 4 s' /\ contents s' = [97; 98; 97; 98])
     (FixedString.Build_fixed_string [97; 98; 0; 0; 0] 2).
Proof.
  eapply wp_mono.
  - exact (proj1 (string_append_truncates 4 four_fits _ abc abc_wf (abc_readable _))).
  - intros u s' [Hw Hc]. split; [exact Hw | rewrite Hc; reflexivity].
Defined.

Lemma string_compare_correct_witness :
  wp (compare (Some abc))
     (fun v s' => v = -1 /\ s' = FixedString.Build_fixed_string [97; 98; 0; 0; 0] 2)
     (FixedString.Build_fixed_string [97; 98; 0; 0; 0] 2).
Proof.
  eapply wp_mono.
  - exact (proj1 (string_compare_correct 4 four_fits _ abc _ abc_wf abc_wf (abc_readable _))).
  - intros v s' [Hv Hs]. split; [rewrite Hv; reflexivity | exact Hs].
Defined.

Lemma string_affixes_correct_witness :
  wp (ends_with 4 (Some [98; NUL]))
     (fun b s' => b = true /\ s' = FixedString.Build_fixed_string [97; 98; 0; 0; 0] 2)
     (FixedString.Build_fixed_string [97; 98; 0; 0; 0] 2).
Proof.
  eapply wp_mono.
  - refine (proj2 (string_affixes_correct 4 four_fits _ 4 [98; NUL] abc_wf _ _ _));
      [done | done | cbn; lia].
  - intros b s' [Hb Hs]. split; [rewrite Hb; reflexivity | exact Hs].
Defined.
End FixedStringProperties.

(** ** Facts about [inplace_vector] *)
Module InplaceVectorFacts.
Import InplaceVector.
Section InplaceVectorFacts.
Context {T : Type} `{Inhabited T} (N : Z) (HN : 0 < N < 2 ^ 64).

Record wf (v : inplace_vector T) : Prop := {
  wf_length : zlen (m_items v) = N;
  wf_size : 0 <= m_size v <= N;
}.

Lemma vector_wf_init : wf (init N).
Proof. split; cbn; [apply zlen_replicate|]; lia. Qed.

Lemma zlen_elements v : wf v -> zlen (elements v) = m_size v.
Proof. intros []. apply zlen_take. lia. Qed.

Lemma wp_emplace_back v x (Q : Z -> inplace_vector T -> Prop) :
  wf v -> m_size v < N ->
  (forall v', wf v' -> elements v' = elements v ++ [x] -> Q (m_size v) v') ->
  wp (emplace_back N x) Q v.
Proof.
  intros [Hl Hs] Hroom HQ. unfold emplace_back. wp_steps.
  destruct (Z.eqb_spec (m_size v) N); [lia|]. wp_steps.
  apply wp_zoom, wp_array_set; [lia|]. wp_steps. cbn.
  unfold u64. rewrite wrap_small by (unfold in_width; lia).
  apply HQ.
  - split; cbn; autorewrite with arrays; lia.
  - unfold elements. cbn. apply take_zset_snoc. lia.
Qed.
End InplaceVectorFacts.
End InplaceVectorFacts.

(** ** Properties of [inplace_vector] *)
Module InplaceVectorProperties.
Import InplaceVector InplaceVectorFacts.
Section InplaceVectorProperties.
Context {T : Type} `{Inhabited T} (N : Z) (HN : 0 < N < 2 ^ 64).

(** [try_push_back] appends, or reports a full vector and leaves it alone; [push_back] does the
    same with a panic for the error. *)
Theorem vector_push_correct v (x : T) :
  wf N v ->
  wp (try_push_back N x)
     (fun r v' => wf N v' /\
        if m_size v =? N then r = Err CAPACITY_EXCEEDED /\ v' = v
        else r = Ok (m_size v) /\ elements v' = elements v ++ [x]) v /\
  (m_size v = N -> push_back N x v = Panic "inplace_vector: push_back past capacity") /\
  (m_size v < N ->
     wp (push_back N x) (fun slot v' => wf N v' /\ slot = m_size v /\
        elements v' = elements v ++ [x] /\ znth (m_items v') slot = x) v).
Proof.
  intros Hv. pose proof (wf_size N v Hv). split; [|split].
  - unfold try_push_back. wp_steps. destruct (Z.eqb_spec (m_size v) N); wp_steps; [done|].
    apply wp_emplace_back; [done.. | lia |]. intros v' Hv' He. by wp_steps.
  - intros Hfull. unfold push_back, mbind, kernel_bind, gets. by rewrite Hfull, Z.eqb_refl.
  - intros Hroom. unfold push_back. wp_steps. destruct (Z.eqb_spec (m_size v) N); [lia|].
    apply wp_emplace_back; [done..|]. intros v' Hv' He.
    split; [done | split; [done | split; [done |]]].
    pose proof (zlen_elements N v' Hv') as Hlen. pose proof (zlen_elements N v Hv) as Hlen0.
    rewrite He in Hlen. autorewrite with arrays in Hlen.
    rewrite <- (znth_take _ (m_size v')) by lia.
    change (znth (elements v') (m_size v) = x). rewrite He, <- Hlen0.
    apply znth_app_middle.
Qed.

(** [pop_back] removes the last element of a non-empty vector; [try_pop_back] answers [Ok] for
    it and removes nothing. *)
Theorem vector_pop_correct v :
  wf N v -> m_size v <> 0 ->
  wp pop_back (fun _ v' => wf N v' /\ elements v' = take (Z.to_nat (m_size v - 1)) (elements v)) v /\
  try_pop_back (T := T) v = Ret (Ok tt, v).
Proof.
  intros [Hl Hs] Hne. split.
  - unfold pop_back. wp_steps. destruct (Z.eqb_spec (m_size v) 0); [done|]. wp_steps.
    unfold u64. rewrite wrap_small by (unfold in_width; lia). split; [split; cbn; lia|].
    unfold elements. cbn. rewrite take_take. f_equal. lia.
  - unfold try_pop_back, mbind, kernel_bind, gets.
    destruct (Z.eqb_spec (m_size v) 0); done.
Qed.
End InplaceVectorProperties.

Lemma vector_push_correct_witness :
  wp (try_push_back 2 7)
     (fun r v' => wf 2 v' /\ r = Ok 1 /\ elements v' = [5; 7]) (Build_inplace_vector Z [5; 0] 1).
Proof.
  eapply wp_mono.
  - apply (vector_push_correct 2); [lia | split; [done | cbn; lia]].
  - intros r v' H. exact H.
Defined.

Lemma vector_pop_correct_witness :
  try_pop_back (T := Z) (Build_inplace_vector Z [5; 0] 1) = Ret (Ok tt, Build_inplace_vector Z [5; 0] 1).
Proof.
  apply (vector_pop_correct 2); [lia | split; [done | cbn; lia] | done].
Defined.
End InplaceVectorProperties.
