(* ===== verification/Memory.v ===== *)
(** * Memory: bytes at addresses

    Memory that another program laid out (the boot loader, the firmware) and that the kernel reads
    through pointers: a function from addresses to bytes, [None] where nothing may be read.  Reading
    such an address is [Undefined].  A field of a structure is read at its offset. *)

From S2P Require Import Prelude Containers.

Definition memory : Type := Z -> option Z.

(** The little-endian unsigned integer of [n] bytes at an address. *)
Fixpoint word (m : memory) (n : nat) (a : Z) : option Z :=
  match n with
  | O => Some 0
  | S n' => b ← m a; rest ← word m n' (a + 1); Some (u8 b + 256 * rest)
  end.

(** A [char] is the signed 8-bit integer of the byte. *)
Definition char_of (b : Z) : char := if b <? 128 then b else b - 256.

Section Reads.
Context (m : memory) {S : Type}.

Definition fetch (n : nat) (a : Z) : kernel S Z :=
  match word m n a with
  | Some v => mret v
  | None => undefined
  end.

Definition read_u8 : Z -> kernel S Z := fetch 1.
Definition read_u16 : Z -> kernel S Z := fetch 2.
Definition read_u32 : Z -> kernel S Z := fetch 4.
Definition read_u64 : Z -> kernel S Z := fetch 8.

End Reads.

(** ** Reading memory *)

(** Every byte of [lo, hi) can be read. *)
Definition mapped (m : memory) (lo hi : Z) : Prop := forall a, lo <= a < hi -> is_Some (m a).

(** The value [word] finds where it is defined. *)
Definition peek (m : memory) (n : nat) (a : Z) : Z := default 0 (word m n a).

Lemma peek_bounds m n a : 0 <= peek m n a < 256 ^ Z.of_nat n.
Proof.
  unfold peek. revert a. induction n as [|n IH]; intros a; [done|]. cbn [word]. specialize (IH (a + 1)).
  assert (0 < 256 ^ Z.of_nat (Datatypes.S n)) by lia.
  destruct (m a) as [b|]; [|done]. destruct (word m n (a + 1)) as [v|]; [|done]. cbn in *.
  pose proof (wrap_range 8 b ltac:(lia)) as Hb. unfold in_width in Hb.
  rewrite Nat2Z.inj_succ, Z.pow_succ_r by lia. unfold u8. lia.
Qed.

#[global] Arguments peek : simpl never.
#[global] Arguments fetch : simpl never.

Section Reading.
Context (m : memory) (lo hi : Z) (Hmapped : mapped m lo hi).

Lemma word_mapped n a :
  lo <= a -> a + Z.of_nat n <= hi ->
  exists v, word m n a = Some v /\ 0 <= v < 256 ^ Z.of_nat n.
Proof.
  revert a. induction n as [|n IH]; intros a Ha Hn; [by exists 0|]. cbn [word].
  destruct (Hmapped a ltac:(lia)) as [b ->]. destruct (IH (a + 1) ltac:(lia) ltac:(lia)) as (v & -> & Hv).
  eexists. split; [done|]. pose proof (wrap_range 8 b ltac:(lia)) as Hb. unfold in_width in Hb.
  rewrite Nat2Z.inj_succ, Z.pow_succ_r by lia. unfold u8. lia.
Qed.

Lemma peek_range n a : lo <= a -> a + Z.of_nat n <= hi -> 0 <= peek m n a < 256 ^ Z.of_nat n.
Proof. intros Ha Hn. unfold peek. by destruct (word_mapped n a Ha Hn) as (v & -> & Hv). Qed.

Lemma fetch_mapped {S} n a (s : S) :
  lo <= a -> a + Z.of_nat n <= hi -> fetch m n a s = Ret (peek m n a, s).
Proof.
  intros Ha Hn. unfold fetch, peek. by destruct (word_mapped n a Ha Hn) as (v & -> & _).
Qed.

Lemma wp_fetch {S} n a (Q : Z -> S -> Prop) s :
  lo <= a -> a + Z.of_nat n <= hi -> Q (peek m n a) s -> wp (fetch m n a) Q s.
Proof.
  intros Ha Hn HQ. unfold wp. by rewrite fetch_mapped.
Qed.

End Reading.

Section Characters.
Context (m : memory).

(** The characters of the [n] bytes at an address. *)
Fixpoint characters (n : nat) (a : Z) : list char :=
  match n with
  | O => []
  | Datatypes.S n' => char_of (peek m 1 a) :: characters n' (a + 1)
  end.

Lemma zlen_characters n a : zlen (characters n a) = Z.of_nat n.
Proof. revert a. induction n as [|n IH]; intros a; [done|]. cbn. rewrite zlen_cons, IH. lia. Qed.

Lemma characters_app k n a :
  characters (k + n) a = characters k a ++ characters n (a + Z.of_nat k).
Proof.
  revert a. induction k as [|k IH]; intros a; cbn [Nat.add characters app].
  - by rewrite Z.add_0_r.
  - rewrite IH. do 2 f_equal. f_equal. lia.
Qed.
End Characters.

(** ** Images: bytes placed at an address *)

Fixpoint little_endian (n : nat) (v : Z) : list Z :=
  match n with
  | O => []
  | Datatypes.S n' => v mod 256 :: little_endian n' (v / 256)
  end.

Definition image_at (a : Z) (bytes : list Z) : memory := fun x =>
  if a <=? x then bytes !! Z.to_nat (x - a) else None.

Lemma mapped_image a bytes n : n = a + zlen bytes -> mapped (image_at a bytes) a n.
Proof.
  intros -> x Hx. unfold image_at, zlen in *. destruct (Z.leb_spec a x); [|lia].
  apply lookup_lt_is_Some. lia.
Qed.

