(* ===== verification/Boot.v ===== *)
(** * Boot: [kernel/boot/protocol.hpp] and [kernel/boot/boot_info.cpp]

    What the boot loader told the kernel, in the form every boot protocol produces, and the
    component that fills it in. *)

From S2P Require Import Prelude Containers.
Import FixedString InplaceVector.

Definition MAX_BOOT_STRING : Z := 256.
Definition MAX_BOOT_MEMORY_REGIONS : Z := 128.
Definition MAX_BOOT_MODULES : Z := 32.
Definition MAX_BOOT_RESERVED_RANGES : Z := 8.
Definition MAX_BOOT_MODULE_COMMAND_LINE : Z := 128.
Definition MAX_BOOT_PALETTE_COLORS : Z := 256.

Inductive memory_kind : Type := USABLE | RESERVED | ACPI_RECLAIMABLE | ACPI_NVS | DEFECTIVE.

#[export] Instance memory_kind_eq_dec : EqDecision memory_kind.
Proof. solve_decision. Defined.

Record address_range : Type := { range_base : Z; range_length : Z }.

Record memory_region : Type := { region_base : Z; region_length : Z; region_kind : memory_kind }.

Record module_info : Type := { module_range : address_range; module_command_line : fixed_string }.

Inductive framebuffer_kind : Type := RGB | INDEXED | TEXT.

Record pixel_channel : Type := { position : Z; channel_size : Z }.

Record palette_color : Type := { red_value : Z; green_value : Z; blue_value : Z }.

Record framebuffer_info : Type := {
  framebuffer_present : bool;
  kind : framebuffer_kind;
  range : address_range;
  pitch : Z;
  width : Z;
  height : Z;
  bits_per_pixel : Z;
  red : pixel_channel;
  green : pixel_channel;
  blue : pixel_channel;
  palette : inplace_vector palette_color;
}.

Record acpi_info : Type := { acpi_present : bool; rsdp : address_range; revision : Z }.

Record info : Type := {
  command_line : fixed_string;
  bootloader_name : fixed_string;
  memory_map : inplace_vector memory_region;
  modules : inplace_vector module_info;
  reserved : inplace_vector address_range;
  framebuffer : framebuffer_info;
  acpi : acpi_info;
}.

(** Value-initialised objects. *)
Definition address_range_init : address_range := {| range_base := 0; range_length := 0 |}.
Definition memory_region_init : memory_region :=
  {| region_base := 0; region_length := 0; region_kind := USABLE |}.
Definition module_info_init : module_info :=
  {| module_range := address_range_init;
     module_command_line := FixedString.init MAX_BOOT_MODULE_COMMAND_LINE |}.
Definition pixel_channel_init : pixel_channel := {| position := 0; channel_size := 0 |}.
Definition palette_color_init : palette_color :=
  {| red_value := 0; green_value := 0; blue_value := 0 |}.

#[export] Instance address_range_inhabited : Inhabited address_range := populate address_range_init.
#[export] Instance memory_region_inhabited : Inhabited memory_region := populate memory_region_init.
#[export] Instance module_info_inhabited : Inhabited module_info := populate module_info_init.
#[export] Instance palette_color_inhabited : Inhabited palette_color := populate palette_color_init.

Definition framebuffer_info_init : framebuffer_info := {|
  framebuffer_present := false;
  kind := RGB;
  range := address_range_init;
  pitch := 0;
  width := 0;
  height := 0;
  bits_per_pixel := 0;
  red := pixel_channel_init;
  green := pixel_channel_init;
  blue := pixel_channel_init;
  palette := InplaceVector.init MAX_BOOT_PALETTE_COLORS;
|}.

Definition acpi_info_init : acpi_info :=
  {| acpi_present := false; rsdp := address_range_init; revision := 0 |}.

Definition info_init : info := {|
  command_line := FixedString.init MAX_BOOT_STRING;
  bootloader_name := FixedString.init MAX_BOOT_STRING;
  memory_map := InplaceVector.init MAX_BOOT_MEMORY_REGIONS;
  modules := InplaceVector.init MAX_BOOT_MODULES;
  reserved := InplaceVector.init MAX_BOOT_RESERVED_RANGES;
  framebuffer := framebuffer_info_init;
  acpi := acpi_info_init;
|}.

(** Setters of [info]'s fields. *)
Definition set_command_line x i := {| command_line := x; bootloader_name := bootloader_name i;
  memory_map := memory_map i; modules := modules i; reserved := reserved i;
  framebuffer := framebuffer i; acpi := acpi i |}.
Definition set_bootloader_name x i := {| command_line := command_line i; bootloader_name := x;
  memory_map := memory_map i; modules := modules i; reserved := reserved i;
  framebuffer := framebuffer i; acpi := acpi i |}.
Definition set_memory_map x i := {| command_line := command_line i;
  bootloader_name := bootloader_name i; memory_map := x; modules := modules i;
  reserved := reserved i; framebuffer := framebuffer i; acpi := acpi i |}.
Definition set_modules x i := {| command_line := command_line i;
  bootloader_name := bootloader_name i; memory_map := memory_map i; modules := x;
  reserved := reserved i; framebuffer := framebuffer i; acpi := acpi i |}.
Definition set_reserved x i := {| command_line := command_line i;
  bootloader_name := bootloader_name i; memory_map := memory_map i; modules := modules i;
  reserved := x; framebuffer := framebuffer i; acpi := acpi i |}.
Definition set_framebuffer x i := {| command_line := command_line i;
  bootloader_name := bootloader_name i; memory_map := memory_map i; modules := modules i;
  reserved := reserved i; framebuffer := x; acpi := acpi i |}.
Definition set_acpi x i := {| command_line := command_line i;
  bootloader_name := bootloader_name i; memory_map := memory_map i; modules := modules i;
  reserved := reserved i; framebuffer := framebuffer i; acpi := x |}.

(** [info::reset]. *)
Definition reset : kernel info unit :=
  zoom command_line set_command_line (assign_cstr MAX_BOOT_STRING None);;
  zoom bootloader_name set_bootloader_name (assign_cstr MAX_BOOT_STRING None);;
  zoom memory_map set_memory_map InplaceVector.clear;;
  zoom modules set_modules InplaceVector.clear;;
  zoom reserved set_reserved InplaceVector.clear;;
  modify (set_framebuffer framebuffer_info_init);;
  modify (set_acpi acpi_info_init).

(** ** Initialisation results, of [kernel/init/component.hpp] *)

Inductive init_error : Type :=
| UNSPECIFIED
| DEPENDENCY_UNAVAILABLE
| INVALID_BOOT_DATA
| CAPACITY_EXCEEDED
| NO_USABLE_MEMORY
| HARDWARE_UNSUPPORTED.

#[export] Instance init_error_eq_dec : EqDecision init_error.
Proof. solve_decision. Defined.

Definition init_result : Type := Result unit init_error.

Definition is_err {T E} (r : Result T E) : bool := match r with Ok _ => false | Err _ => true end.

(** ** The boot protocol

    The concept [boot_protocol]: what [kernel::boot::active] promises, over the memory [M] it
    reads. *)
Class boot_protocol (M : Type) : Type := {
  well_formed : M -> outcome bool;
  protocol_parse : M -> kernel info init_result;
}.

(** [boot_info::component::parse] on [m_info]. *)
Definition parse `{boot_protocol M} (m : M) : kernel info init_result :=
  reset;;
  wf ← (fun i => match well_formed m with
                 | Ret b => Ret (b, i)
                 | Panic message => Panic message
                 | Undefined => Undefined
                 | Diverge => Diverge
                 end);
  if negb wf then mret (Err INVALID_BOOT_DATA)
  else
    outcome ← protocol_parse m;
    when (is_err outcome) reset;;
    mret outcome.

(** ** Facts *)
Import FixedStringFacts InplaceVectorFacts.

Record wf_info (i : info) : Prop := {
  wf_command_line : FixedStringFacts.wf MAX_BOOT_STRING (command_line i);
  wf_bootloader_name : FixedStringFacts.wf MAX_BOOT_STRING (bootloader_name i);
  wf_memory_map : InplaceVectorFacts.wf MAX_BOOT_MEMORY_REGIONS (memory_map i);
  wf_modules : InplaceVectorFacts.wf MAX_BOOT_MODULES (modules i);
  wf_reserved : InplaceVectorFacts.wf MAX_BOOT_RESERVED_RANGES (reserved i);
  wf_palette : InplaceVectorFacts.wf MAX_BOOT_PALETTE_COLORS (palette (framebuffer i));
}.

(** Nothing is known about the machine: the state [reset] establishes. *)
Record blank (i : info) : Prop := {
  blank_command_line : contents (command_line i) = [];
  blank_bootloader_name : contents (bootloader_name i) = [];
  blank_memory_map : elements (memory_map i) = [];
  blank_modules : elements (modules i) = [];
  blank_reserved : elements (reserved i) = [];
  blank_framebuffer : framebuffer i = framebuffer_info_init;
  blank_acpi : acpi i = acpi_info_init;
}.

Lemma wf_info_init : wf_info info_init.
Proof.
  split; cbn [command_line bootloader_name memory_map modules reserved framebuffer palette info_init
    framebuffer_info_init];
    first [apply FixedStringFacts.string_wf_init; done | apply InplaceVectorFacts.vector_wf_init; done].
Qed.

Lemma wf_cleared {T} n (v : inplace_vector T) :
  0 <= n -> InplaceVectorFacts.wf n v -> InplaceVectorFacts.wf n (InplaceVector.set_size 0 v).
Proof. intros Hn [Hl Hs]. split; cbn; [done | lia]. Qed.

Lemma wp_clear_string (s : fixed_string) (Q : unit -> fixed_string -> Prop) :
  FixedStringFacts.wf MAX_BOOT_STRING s ->
  (forall s', FixedStringFacts.wf MAX_BOOT_STRING s' -> contents s' = [] -> Q tt s') ->
  wp (assign_cstr MAX_BOOT_STRING None) Q s.
Proof.
  intros Hw HQ. unfold assign_cstr, assign. wp_steps.
  apply wp_append_null; [done | by apply buffer_empty | done].
Qed.

Lemma wp_reset_info i (Q : unit -> info -> Prop) :
  wf_info i -> (forall i', wf_info i' -> blank i' -> Q tt i') -> wp reset Q i.
Proof.
  intros [Hc Hb Hm Hmo Hr Hp] HQ. unfold reset. wp_steps.
  apply wp_clear_string; [done|]. intros s1 Hs1 Hc1. wp_steps.
  apply wp_clear_string; [done|]. intros s2 Hs2 Hc2. wp_steps. cbn.
  apply HQ; split; cbn; try done;
    first [by apply wf_cleared | by apply InplaceVectorFacts.vector_wf_init].
Qed.
