(* ===== verification/Linked.v ===== *)
(** * Linked: intrusive doubly linked lists

    The representation predicate of a doubly linked list whose nodes are array indices, with [nx]
    and [pv] the link fields, and what relinking a node does to it.  It models no code of its own;
    the free lists of [Pmm] are its instance. *)

From S2P Require Import Prelude.

Section Linked.
Implicit Types (nx pv : Z -> Z) (l : list Z).

(** The segment of nodes [l]: it starts at [h], whose predecessor is [p], ends in [q], and continues
    at [t]. *)
Fixpoint lseg nx pv (p h : Z) l (q t : Z) : Prop :=
  match l with
  | [] => h = t /\ p = q
  | x :: l' => h = x /\ pv x = p /\ lseg nx pv x (nx x) l' q t
  end.

Lemma lseg_app nx pv p h l1 l2 q t :
  lseg nx pv p h (l1 ++ l2) q t <->
  exists r m, lseg nx pv p h l1 r m /\ lseg nx pv r m l2 q t.
Proof.
  revert p h. induction l1 as [|x l1 IH]; intros p h; cbn [app lseg].
  - split; [by intros H; exists p, h | by intros (? & ? & [-> ->] & ?)].
  - rewrite IH. split.
    + intros (-> & Hp & r & m & H1 & H2). by exists r, m.
    + intros (r & m & (-> & Hp & H1) & H2). split; [done|]. split; [done|]. by exists r, m.
Qed.

Lemma lseg_ext nx pv nx' pv' p h l q t :
  (forall x, x ∈ l -> nx' x = nx x /\ pv' x = pv x) ->
  lseg nx pv p h l q t -> lseg nx' pv' p h l q t.
Proof.
  revert p h. induction l as [|x l IH]; intros p h Heq; cbn [lseg]; [done|].
  intros (-> & Hp & H). destruct (Heq x) as [Hn Hv]; [left|]. split; [done|].
  split; [congruence|]. rewrite Hn. apply IH; [|done]. intros y Hy. apply Heq. by right.
Qed.

(** The last node of a non-empty segment, and its successor. *)
Lemma lseg_snoc nx pv p h l x q t :
  lseg nx pv p h (l ++ [x]) q t <-> exists r, lseg nx pv p h l r x /\ pv x = r /\ q = x /\ nx x = t.
Proof.
  rewrite lseg_app. cbn [lseg]. split.
  - intros (r & m & H & -> & Hp & <- & <-). by exists r.
  - intros (r & H & <- & -> & <-). by exists (pv x), x.
Qed.

(** Writing the successor field of the last node, or the predecessor field of the first. *)
Lemma lseg_set_next nx pv nx' p h l q t t' :
  NoDup l -> l <> [] ->
  (forall x, x ∈ l -> nx' x = if x =? q then t' else nx x) ->
  lseg nx pv p h l q t -> lseg nx' pv p h l q t'.
Proof.
  intros Hnd Hne Hnx. destruct (exists_last Hne) as (l' & x & ->). rewrite !lseg_snoc.
  intros (r & H & Hp & -> & Ht). exists r. apply NoDup_app in Hnd as (_ & Hdis & _).
  split; [|split; [done | split; [done|]]].
  - apply (lseg_ext nx pv); [|done]. intros y Hy. split; [|done].
    rewrite Hnx by (apply elem_of_app; by left). destruct (Z.eqb_spec y x) as [->|]; [|done].
    exfalso. apply (Hdis x Hy). left.
  - rewrite Hnx by (apply elem_of_app; right; left). by rewrite Z.eqb_refl.
Qed.

Lemma lseg_set_prev nx pv pv' p p' h l q t :
  NoDup l -> l <> [] ->
  (forall x, x ∈ l -> pv' x = if x =? h then p' else pv x) ->
  lseg nx pv p h l q t -> lseg nx pv' p' h l q t.
Proof.
  intros Hnd Hne Hpv. destruct l as [|x l]; [done|]. cbn [lseg]. intros (-> & Hp & H).
  apply NoDup_cons in Hnd as [Hx Hnd]. split; [done|]. split.
  - rewrite Hpv by left. by rewrite Z.eqb_refl.
  - apply (lseg_ext nx pv); [|done]. intros y Hy. split; [done|].
    rewrite Hpv by (by right). destruct (Z.eqb_spec y x) as [->|]; done.
Qed.

Lemma lseg_end nx pv p h l q t : lseg nx pv p h l q t -> l = [] \/ q ∈ l.
Proof.
  revert p h. induction l as [|x l IH]; intros p h; cbn [lseg]; [by left|].
  intros (_ & _ & H). right. destruct (IH _ _ H) as [->|Hq]; [destruct H as [_ ->]; left | by right].
Qed.

Lemma lseg_start nx pv p h l q t : lseg nx pv p h l q t -> l = [] \/ h ∈ l.
Proof. destruct l as [|x l]; [by left|]. intros (-> & _). right. left. Qed.

(** A whole list: no predecessor before its head, no successor after its last node. *)
Definition dlist nx pv (nil h : Z) l : Prop := NoDup l /\ exists q, lseg nx pv nil h l q nil.

Lemma dlist_ext nx pv nx' pv' nil h l :
  (forall x, x ∈ l -> nx' x = nx x /\ pv' x = pv x) -> dlist nx pv nil h l -> dlist nx' pv' nil h l.
Proof. intros Heq [Hnd [q H]]. split; [done|]. exists q. by apply (lseg_ext nx pv). Qed.

Lemma dlist_nil nx pv nil h l : ~ nil ∈ l -> dlist nx pv nil h l -> (h = nil <-> l = []).
Proof.
  intros Hnil [_ [q H]]. destruct l as [|x l]; [destruct H; by subst|].
  destruct H as (-> & _). split; [intros ->; by destruct Hnil; left | done].
Qed.

(** The neighbours of a node are nodes of the list, or the end of it. *)
Lemma dlist_neighbours nx pv nil h l1 x l2 :
  dlist nx pv nil h (l1 ++ x :: l2) ->
  (pv x = nil \/ pv x ∈ l1) /\ (nx x = nil \/ nx x ∈ l2).
Proof.
  intros [_ [q H]]. apply lseg_app in H as (r & m & H1 & -> & Hr & H2). rewrite Hr. split.
  - destruct (lseg_end _ _ _ _ _ _ _ H1) as [->|]; [left; by destruct H1 | by right].
  - destruct (lseg_start _ _ _ _ _ _ _ H2) as [->|]; [left; by destruct H2 | by right].
Qed.

(** Putting a node in front: its links are set, and the old head's predecessor. *)
Lemma dlist_push nx pv nx' pv' nil h l x :
  dlist nx pv nil h l -> ~ x ∈ l ->
  nx' x = h -> pv' x = nil ->
  (forall y, y ∈ l -> nx' y = nx y /\ pv' y = if y =? h then x else pv y) ->
  dlist nx' pv' nil x (x :: l).
Proof.
  intros [Hnd [q H]] Hx Hn Hp Heq. split; [by constructor|]. cbn [lseg].
  destruct l as [|y l].
  - exists x. destruct H as [-> _]. by rewrite Hn.
  - exists q. split; [done|]. split; [done|]. rewrite Hn.
    apply (lseg_ext nx pv'); [intros z Hz; split; [by apply Heq | done]|].
    apply (lseg_set_prev nx pv pv' nil); [done..| |done]. intros z Hz. by apply Heq.
Qed.

(** Taking a node out: its neighbours are linked to each other. *)
Lemma dlist_unlink nx pv nx' pv' nil h h' l1 x l2 :
  ~ nil ∈ l1 ++ x :: l2 ->
  dlist nx pv nil h (l1 ++ x :: l2) ->
  h' = (if pv x =? nil then nx x else h) ->
  (forall y, y ∈ l1 ++ l2 -> nx' y = if y =? pv x then nx x else nx y) ->
  (forall y, y ∈ l1 ++ l2 -> pv' y = if y =? nx x then pv x else pv y) ->
  dlist nx' pv' nil h' (l1 ++ l2).
Proof.
  intros Hnil [Hnd [q H]] Hh Hnx Hpv.
  apply lseg_app in H as (r & m & H1 & -> & Hr & H2).
  pose proof Hnd as Hnd'. apply NoDup_app in Hnd as (Hnd1 & Hdis & Hnd2).
  apply NoDup_cons in Hnd2 as [Hx Hnd2].
  assert (Hd : forall y, y ∈ l1 -> y <> x /\ ~ y ∈ l2).
  { intros y Hy. specialize (Hdis y Hy). split; [intros ->; apply Hdis; left |].
    intros ?. apply Hdis. by right. }
  split. { apply NoDup_app. split; [done|]. split; [|done]. intros y Hy. by apply Hd. }
  assert (Hpvx : pv x = nil <-> l1 = []).
  { rewrite Hr. destruct (lseg_end _ _ _ _ _ _ _ H1) as [->|Hin]; [by destruct H1|].
    split; [intros ->; destruct Hnil; apply elem_of_app; by left | intros ->; by apply elem_of_nil in Hin]. }
  assert (Hnxx : ~ nx x ∈ l1).
  { intros Hin. destruct (lseg_start _ _ _ _ _ _ _ H2) as [->|Hs]; [|by apply (Hd (nx x))].
    destruct H2 as [Hz _]. rewrite Hz in Hin. apply Hnil, elem_of_app. by left. }
  assert (Hpx : ~ pv x ∈ l2).
  { intros Hin. destruct (lseg_end _ _ _ _ _ _ _ H1) as [->|Hs].
    - rewrite (proj2 Hpvx eq_refl) in Hin. apply Hnil, elem_of_app. right. by right.
    - rewrite <- Hr in Hs. by apply (Hd (pv x)). }
  assert (Hone : lseg nx' pv' nil h' l1 (pv x) (nx x)).
  { destruct l1 as [|y l1].
    - cbn. destruct H1 as [-> Hq]. rewrite Hh, (proj2 Hpvx eq_refl), Z.eqb_refl. done.
    - destruct (Z.eqb_spec (pv x) nil) as [E|]; [by apply Hpvx in E|]. subst h'.
      apply (lseg_ext nx' pv); [intros z Hz; split; [done|]|].
      + rewrite Hpv by (apply elem_of_app; by left). by destruct (Z.eqb_spec z (nx x)) as [->|].
      + apply (lseg_set_next nx pv nx' nil h _ (pv x) x); [done..| | by rewrite Hr].
        intros z Hz. apply Hnx, elem_of_app. by left. }
  destruct l2 as [|y l2].
  { exists (pv x). rewrite app_nil_r. destruct H2 as [Hz _]. by rewrite Hz in Hone. }
  exists q. apply lseg_app. exists (pv x), (nx x). split; [done|].
  apply (lseg_ext nx pv'); [intros z Hz; split; [|done]|].
  - rewrite Hnx by (apply elem_of_app; by right). by destruct (Z.eqb_spec z (pv x)) as [->|].
  - apply (lseg_set_prev nx pv pv' x); [done..| |done]. intros z Hz. apply Hpv, elem_of_app. by right.
Qed.
End Linked.
