(* ===== verification/Pmm.v ===== *)
(** * Pmm: the physical frame allocator, [kernel/mm/pmm.cpp]

    A bitmap of free frames, split into blocks of 512; every block with a free frame is on one of two
    intrusive lists, [m_whole] when all its frames are free and [m_broken] when some are not. *)

From S2P Require Import Prelude Layout Bits Bitmap Page Spinlock Containers Boot Linked.

(** The memory layout the kernel is built for, and the symbols of the linker script that bound its
    image. *)
Class layout : Type := {
  MAX_PHYSICAL_MEMORY : Z;
  boot_start : Z;
  kernel_physical_end : Z;
}.

(** The assertions the source makes about the layout at compile time, and what the linker script
    guarantees about the image. *)
Class layout_ok `{layout} : Prop := {
  layout_aligned : MAX_PHYSICAL_MEMORY mod bytes_in SIZE_1G = 0;
  layout_positive : 0 < MAX_PHYSICAL_MEMORY;
  layout_blocks : MAX_PHYSICAL_MEMORY / bytes_in SIZE_2M < bnot 16 0;
  layout_image : 0 <= boot_start <= kernel_physical_end /\ kernel_physical_end < 2 ^ 64;
}.

Section Pmm.
Context `{layout}.

(** ** Data *)

Definition MAX_FRAMES : Z := MAX_PHYSICAL_MEMORY / FRAME_SIZE.

(** [frame_map] is [bitmap<MAX_FRAMES>] with its default 64-bit words. *)
Definition WORD : Z := 64.

Definition FRAMES_PER_BLOCK : Z := frames_in SIZE_2M.
Definition WORDS_PER_BLOCK : Z := FRAMES_PER_BLOCK / BITS_PER_STORAGE_TYPE_INSTANCE WORD.
Definition BLOCK_COUNT : Z := MAX_FRAMES / FRAMES_PER_BLOCK.
Definition NIL : Z := bnot 16 0.

Record block : Type := { free_count : Z; next : Z; prev : Z }.

#[export] Instance block_inhabited : Inhabited block :=
  populate {| free_count := 0; next := 0; prev := 0 |}.

Record pmm : Type := {
  m_frames : list Z;
  m_blocks : list block;
  m_whole : Z;
  m_broken : Z;
  m_lock : Z;
}.

Definition pmm_init : pmm := {|
  m_frames := m_words_init WORD MAX_FRAMES;
  m_blocks := replicate (Z.to_nat BLOCK_COUNT) {| free_count := 0; next := 0; prev := 0 |};
  m_whole := NIL;
  m_broken := NIL;
  m_lock := m_state_init;
|}.

Definition set_frames x s := {| m_frames := x; m_blocks := m_blocks s; m_whole := m_whole s;
  m_broken := m_broken s; m_lock := m_lock s |}.
Definition set_blocks x s := {| m_frames := m_frames s; m_blocks := x; m_whole := m_whole s;
  m_broken := m_broken s; m_lock := m_lock s |}.
Definition set_lock x s := {| m_frames := m_frames s; m_blocks := m_blocks s; m_whole := m_whole s;
  m_broken := m_broken s; m_lock := x |}.

(** The two list heads, which the source passes by reference or by pointer. *)
Inductive list_head : Type := WHOLE | BROKEN.

#[export] Instance list_head_eq_dec : EqDecision list_head.
Proof. solve_decision. Defined.

Definition head_of (l : list_head) (s : pmm) : Z :=
  match l with WHOLE => m_whole s | BROKEN => m_broken s end.

Definition set_head (l : list_head) (x : Z) (s : pmm) : pmm :=
  match l with
  | WHOLE => {| m_frames := m_frames s; m_blocks := m_blocks s; m_whole := x;
      m_broken := m_broken s; m_lock := m_lock s |}
  | BROKEN => {| m_frames := m_frames s; m_blocks := m_blocks s; m_whole := m_whole s;
      m_broken := x; m_lock := m_lock s |}
  end.

(** The frame map's operations on the allocator's state. *)
Definition on_frames {A} (m : kernel (list Z) A) : kernel pmm A := zoom m_frames set_frames m.

(** [m_blocks[index]] as a value, and an assignment to one of its fields. *)
Definition get_block (index : Z) : kernel pmm block := zoom m_blocks set_blocks (array_get index).

Definition update_block (index : Z) (f : block -> block) : kernel pmm unit :=
  zoom m_blocks set_blocks (b ← array_get index; array_set index (f b)).

Definition with_free (x : Z) (b : block) : block :=
  {| free_count := x; next := next b; prev := prev b |}.
Definition with_next (x : Z) (b : block) : block :=
  {| free_count := free_count b; next := x; prev := prev b |}.
Definition with_prev (x : Z) (b : block) : block :=
  {| free_count := free_count b; next := next b; prev := x |}.

(** ** Operations *)

Definition address_of (frame : Z) : Z := u64 (Z.shiftl frame FRAME_SHIFT).

Definition list_of (free : Z) : option list_head :=
  if free =? 0 then None
  else if free =? FRAMES_PER_BLOCK then Some WHOLE
  else Some BROKEN.

Definition push (head : list_head) (index : Z) : kernel pmm unit :=
  h ← gets (head_of head);
  update_block index (with_next h);;
  update_block index (with_prev NIL);;
  when (negb (h =? NIL)) (update_block h (with_prev (u16 index)));;
  modify (set_head head (u16 index)).

(** [b] is a reference: its fields are read again after the assignment through [b.prev]. *)
Definition unlink (head : list_head) (index : Z) : kernel pmm unit :=
  b ← get_block index;
  (if prev b =? NIL then modify (set_head head (next b))
   else update_block (prev b) (with_next (next b)));;
  b ← get_block index;
  when (negb (next b =? NIL)) (update_block (next b) (with_prev (prev b))).

Definition set_free (index free : Z) : kernel pmm unit :=
  b ← get_block index;
  let from := list_of (free_count b) in
  let to := list_of free in
  when (negb (bool_decide (from = to)))
    (match from with Some head => unlink head index | None => mret tt end;;
     match to with Some head => push head index | None => mret tt end);;
  update_block index (with_free (u16 free)).

Definition take_whole (first count : Z) : kernel pmm Z :=
  on_frames (clear_range WORD (u64 (first * FRAMES_PER_BLOCK)) (u64 (count * FRAMES_PER_BLOCK)));;
  for_range 0 count (fun i => set_free (u64 (first + i)) 0);;
  mret (address_of (u64 (first * FRAMES_PER_BLOCK))).

(** [find_whole_run<Blocks>]: the inner loop counts the whole blocks from [first] and has fuel
    [Blocks + 1]; the outer loop steps by [Blocks] and has fuel [BLOCK_COUNT + 1]. *)
Definition whole_from (Blocks first : Z) : kernel pmm Z :=
  while (Z.to_nat (Blocks + 1))
    (fun whole =>
       if whole <? Blocks then
         b ← get_block (u64 (first + whole)); mret (free_count b =? FRAMES_PER_BLOCK)
       else mret false)
    (fun whole => mret (u64 (whole + 1)))
    0.

Definition find_whole_run (Blocks : Z) : kernel pmm Z :=
  if Blocks =? 1 then gets m_whole
  else
    r ← while (Z.to_nat (BLOCK_COUNT + 1))
      (fun '(first, found) => mret ((first <? BLOCK_COUNT) && negb found))
      (fun '(first, _) =>
         whole ← whole_from Blocks first;
         mret (if whole =? Blocks then (first, true) else (u64 (first + Blocks), false)))
      (0, false);
    let '(first, found) := r : Z * bool in
    mret (if found then first else NIL).

Definition take (S : page_size) : kernel pmm (Result Z mm_error) :=
  if S =? SIZE_4K then
    broken ← gets m_broken;
    whole ← gets m_whole;
    let index := if negb (broken =? NIL) then broken else whole in
    if index =? NIL then mret (Err OUT_OF_MEMORY)
    else
      frame ← on_frames (find_set WORD (u64 (index * WORDS_PER_BLOCK)) WORDS_PER_BLOCK);
      if frame =? NPOS then kpanic "pmm: block {} is listed as free but holds nothing"
      else
        on_frames (clear WORD frame);;
        b ← get_block index;
        set_free index (u64 (free_count b - 1));;
        mret (Ok (address_of frame))
  else
    let BLOCKS := frames_in S / FRAMES_PER_BLOCK in
    first ← find_whole_run BLOCKS;
    if first =? NIL then mret (Err OUT_OF_MEMORY)
    else address ← take_whole first BLOCKS; mret (Ok address).

Definition mark (base length : Z) (usable : bool) : kernel pmm unit :=
  if (length =? 0) || (MAX_PHYSICAL_MEMORY <=? base) then mret tt
  else
    let end_ := if u64 (MAX_PHYSICAL_MEMORY - base) <? length then MAX_PHYSICAL_MEMORY
                else u64 (base + length) in
    let first := if usable then align_up 64 base FRAME_SIZE else align_down 64 base FRAME_SIZE in
    let last := if usable then align_down 64 end_ FRAME_SIZE else align_up 64 end_ FRAME_SIZE in
    if last <=? first then mret tt
    else if usable then
      on_frames (set_range WORD (Z.shiftr first FRAME_SHIFT)
                   (Z.shiftr (u64 (last - first)) FRAME_SHIFT))
    else
      on_frames (clear_range WORD (Z.shiftr first FRAME_SHIFT)
                   (Z.shiftr (u64 (last - first)) FRAME_SHIFT)).

Inductive phase : Type := FREE | RESERVE.

#[export] Instance phase_eq_dec : EqDecision phase.
Proof. solve_decision. Defined.

(** [claim<T>], one instance per type that the walk over the boot information meets.  A region or a
    range is marked; a container is walked element by element and a structure field by field; a
    scalar is left alone, and with it the types that hold scalars only. *)
Definition claim_region (value : memory_region) (p : phase) : kernel pmm unit :=
  let usable := bool_decide (region_kind value = USABLE) in
  when (eqb (bool_decide (p = FREE)) usable)
    (mark (region_base value) (region_length value) usable).

Definition claim_range (value : address_range) (p : phase) : kernel pmm unit :=
  when (bool_decide (p = RESERVE)) (mark (range_base value) (range_length value) false).

Definition claim_scalar {A} (value : A) (p : phase) : kernel pmm unit := mret tt.

Definition claim_each {A} `{Inhabited A} (claim : A -> phase -> kernel pmm unit)
    (value : InplaceVector.inplace_vector A) (p : phase) : kernel pmm unit :=
  for_range 0 (InplaceVector.m_size value)
    (fun i => entry ← observe value (InplaceVector.get i); claim entry p).

Definition claim_module (value : module_info) (p : phase) : kernel pmm unit :=
  claim_range (module_range value) p;;
  claim_scalar (module_command_line value) p.

Definition claim_framebuffer (value : framebuffer_info) (p : phase) : kernel pmm unit :=
  claim_scalar (framebuffer_present value) p;;
  claim_scalar (kind value) p;;
  claim_range (range value) p;;
  claim_scalar (pitch value) p;;
  claim_scalar (width value) p;;
  claim_scalar (height value) p;;
  claim_scalar (bits_per_pixel value) p;;
  claim_scalar (red value) p;;
  claim_scalar (green value) p;;
  claim_scalar (blue value) p;;
  claim_each claim_scalar (palette value) p.

Definition claim_acpi (value : acpi_info) (p : phase) : kernel pmm unit :=
  claim_scalar (acpi_present value) p;;
  claim_range (rsdp value) p;;
  claim_scalar (revision value) p.

Definition claim_info (value : info) (p : phase) : kernel pmm unit :=
  claim_scalar (command_line value) p;;
  claim_scalar (bootloader_name value) p;;
  claim_each claim_region (memory_map value) p;;
  claim_each claim_module (modules value) p;;
  claim_each claim_range (reserved value) p;;
  claim_framebuffer (framebuffer value) p;;
  claim_acpi (acpi value) p.

Definition populate (boot : info) : kernel pmm unit :=
  claim_info boot FREE;;
  mark 0 (1024 * 1024) false;;
  mark boot_start (u64 (kernel_physical_end - boot_start)) false;;
  claim_info boot RESERVE;;
  for_range 0 BLOCK_COUNT (fun index =>
    free ← on_frames (count_set WORD (u64 (index * WORDS_PER_BLOCK)) WORDS_PER_BLOCK);
    set_free index free).

(** The lock's fuel: the callers of the model run one at a time. *)
Definition LOCK_FUEL : nat := 1.

Definition locked {A} (body : kernel pmm A) : kernel pmm A :=
  guarded_by LOCK_FUEL m_lock set_lock body.

Definition alloc (size : page_size) : kernel pmm (Result Z mm_error) :=
  locked
    (if size =? SIZE_4K then take SIZE_4K
     else if size =? SIZE_2M then take SIZE_2M
     else if size =? SIZE_1G then take SIZE_1G
     else mret (Err UNSUPPORTED_SIZE)).

Definition free (size : page_size) (base : Z) : kernel pmm unit :=
  let count := frames_in size in
  let first := Z.shiftr base FRAME_SHIFT in
  if negb (is_aligned 64 base (bytes_in size)) || (MAX_FRAMES <=? first) ||
     (u64 (MAX_FRAMES - first) <? count)
  then kpanic "pmm: invalid release of {} frames at {:#018X}"
  else
    locked
      (taken ← on_frames (find_set_in WORD first count);
       if negb (taken =? NPOS) then kpanic "pmm: double free of {} frames at {:#018X}"
       else
         on_frames (set_range WORD first count);;
         let index := first / FRAMES_PER_BLOCK in
         if count <? FRAMES_PER_BLOCK then
           b ← get_block index;
           set_free index (u64 (free_count b + count))
         else
           for_range 0 (count / FRAMES_PER_BLOCK)
             (fun i => set_free (u64 (index + i)) FRAMES_PER_BLOCK)).

(** [component::init_allocator]. *)
Definition init_allocator (boot : info) : kernel pmm init_result :=
  populate boot;;
  whole ← gets m_whole;
  broken ← gets m_broken;
  mret (if (whole =? NIL) && (broken =? NIL) then Err NO_USABLE_MEMORY else Ok tt).
End Pmm.

(** ** Facts *)
Section PmmFacts.
Context `{layout_ok}.

Lemma blocks_per_gib : MAX_PHYSICAL_MEMORY = BLOCK_COUNT * 2 ^ 21 /\ BLOCK_COUNT mod 512 = 0.
Proof.
  pose proof layout_aligned as Ha. rewrite bytes_in_pow2 in Ha by (unfold SIZE_1G; lia).
  change (2 ^ SIZE_1G) with (2 ^ 30) in Ha.
  apply Z.mod_divide in Ha as [g Hg]; [|lia].
  unfold BLOCK_COUNT, MAX_FRAMES, FRAMES_PER_BLOCK. rewrite Hg.
  change FRAME_SIZE with 4096. change (frames_in SIZE_2M) with 512.
  replace (g * 2 ^ 30) with (g * 512 * 512 * 4096) by lia.
  rewrite !Z.div_mul by lia. split; [lia | apply Z.mod_mul; lia].
Qed.

Lemma block_count_range : 0 < BLOCK_COUNT < 65535.
Proof.
  destruct blocks_per_gib as [HM _]. pose proof layout_positive. pose proof layout_blocks as Hb.
  change (bytes_in SIZE_2M) with (2 ^ 21) in Hb. change (bnot 16 0) with 65535 in Hb.
  rewrite HM, Z.div_mul in Hb by lia. nia.
Qed.

Lemma max_frames_eq : MAX_FRAMES = BLOCK_COUNT * 512.
Proof.
  destruct blocks_per_gib as [HM _]. unfold MAX_FRAMES at 1. rewrite HM.
  change FRAME_SIZE with 4096. replace (BLOCK_COUNT * 2 ^ 21) with (BLOCK_COUNT * 512 * 4096) by lia.
  apply Z.div_mul. lia.
Qed.

Lemma word_count_eq : STORAGE_TYPE_INSTANCE_COUNT WORD MAX_FRAMES = BLOCK_COUNT * 8.
Proof.
  unfold STORAGE_TYPE_INSTANCE_COUNT. change (BITS_PER_STORAGE_TYPE_INSTANCE WORD) with 64.
  rewrite max_frames_eq. replace (BLOCK_COUNT * 512) with (BLOCK_COUNT * 8 * 64) by lia.
  apply Z.div_mul. lia.
Qed.

Lemma capacity_eq : capacity WORD MAX_FRAMES = BLOCK_COUNT * 512.
Proof. unfold capacity. rewrite word_count_eq. change WORD with 64. lia. Qed.

Lemma word_ok : 8 <= WORD <= 64.
Proof. unfold WORD. lia. Qed.

Lemma max_frames_range : 0 <= MAX_FRAMES < 2 ^ 64.
Proof. rewrite max_frames_eq. pose proof block_count_range. lia. Qed.

(** ** Views of the state *)

Definition nx (s : pmm) (i : Z) : Z := next (znth (m_blocks s) i).
Definition pv (s : pmm) (i : Z) : Z := prev (znth (m_blocks s) i).
Definition count_of (s : pmm) (i : Z) : Z := free_count (znth (m_blocks s) i).

(** Frame [f] is free. *)
Definition is_free (s : pmm) (f : Z) : bool := contains WORD (m_frames s) f.

Definition block_index (i : Z) : Prop := 0 <= i < BLOCK_COUNT.

(** The two lists hold exactly the blocks that [cls] assigns to them. *)
Record listed (cls : Z -> option list_head) (s : pmm) : Prop := {
  listed_length : zlen (m_blocks s) = BLOCK_COUNT;
  listed_lists : exists L : list_head -> list Z, forall k,
    dlist (nx s) (pv s) NIL (head_of k s) (L k) /\
    forall i, i ∈ L k <-> block_index i /\ cls i = Some k;
}.

(** Only links and heads differ. *)
Definition same_but_links (s s' : pmm) : Prop :=
  m_frames s' = m_frames s /\ m_lock s' = m_lock s /\
  forall i, block_index i -> count_of s' i = count_of s i.

Lemma same_but_links_refl s : same_but_links s s.
Proof. done. Qed.

Lemma same_but_links_trans s1 s2 s3 :
  same_but_links s1 s2 -> same_but_links s2 s3 -> same_but_links s1 s3.
Proof.
  intros (Hf & Hl & Hc) (Hf' & Hl' & Hc'). split; [congruence|]. split; [congruence|].
  intros i Hi. by rewrite Hc', Hc.
Qed.

Lemma wp_get_block s i (Q : block -> pmm -> Prop) :
  zlen (m_blocks s) = BLOCK_COUNT -> block_index i ->
  Q (znth (m_blocks s) i) s -> wp (get_block i) Q s.
Proof.
  intros Hl Hi HQ. apply wp_zoom, wp_array_get; [unfold block_index in Hi; lia|]. by destruct s.
Qed.

Definition updated (i : Z) (f : block -> block) (s : pmm) : pmm :=
  set_blocks (zset (m_blocks s) i (f (znth (m_blocks s) i))) s.

Lemma wp_update_block s i f (Q : unit -> pmm -> Prop) :
  zlen (m_blocks s) = BLOCK_COUNT -> block_index i ->
  Q tt (updated i f s) -> wp (update_block i f) Q s.
Proof.
  unfold block_index. intros Hl Hi HQ. apply wp_zoom, wp_bind, wp_array_get; [lia|].
  apply wp_array_set; [lia | done].
Qed.

Lemma znth_updated s i f j :
  zlen (m_blocks s) = BLOCK_COUNT -> block_index i -> block_index j ->
  znth (m_blocks (updated i f s)) j =
  if i =? j then f (znth (m_blocks s) j) else znth (m_blocks s) j.
Proof.
  unfold block_index. intros Hl Hi Hj. cbn. rewrite znth_zset by lia.
  by destruct (Z.eqb_spec i j) as [->|].
Qed.

Lemma length_updated s i f :
  zlen (m_blocks s) = BLOCK_COUNT -> zlen (m_blocks (updated i f s)) = BLOCK_COUNT.
Proof. intros Hl. cbn. by autorewrite with arrays. Qed.

Lemma same_updated s i f :
  zlen (m_blocks s) = BLOCK_COUNT -> block_index i -> (forall b, free_count (f b) = free_count b) ->
  same_but_links s (updated i f s).
Proof.
  intros Hl Hi Hf. split; [done|]. split; [done|]. intros j Hj. unfold count_of.
  rewrite znth_updated by done. destruct (i =? j); [apply Hf | done].
Qed.

Lemma head_of_set k k' x s :
  head_of k' (set_head k x s) = if decide (k = k') then x else head_of k' s.
Proof. by destruct k, k'. Qed.

Lemma head_of_updated k i f s : head_of k (updated i f s) = head_of k s.
Proof. by destruct k. Qed.

Lemma blocks_set_head k x s : m_blocks (set_head k x s) = m_blocks s.
Proof. by destruct k. Qed.

Lemma same_set_head k x s : same_but_links s (set_head k x s).
Proof. by destruct k. Qed.

Lemma nil_not_block : ~ block_index NIL.
Proof. unfold block_index. change NIL with 65535. pose proof block_count_range. lia. Qed.

(** The state after [unlink]. *)
Definition unlinked (k : list_head) (x : Z) (s : pmm) : pmm :=
  let s1 := if pv s x =? NIL then set_head k (nx s x) s
            else updated (pv s x) (with_next (nx s x)) s in
  if nx s x =? NIL then s1 else updated (nx s x) (with_prev (pv s x)) s1.

Lemma length_unlinked k x s :
  zlen (m_blocks s) = BLOCK_COUNT -> zlen (m_blocks (unlinked k x s)) = BLOCK_COUNT.
Proof.
  intros Hl. unfold unlinked.
  destruct (pv s x =? NIL), (nx s x =? NIL);
    rewrite ?length_updated; rewrite ?blocks_set_head, ?length_updated; done.
Qed.

(** The links after [unlink], at another block. *)
Lemma links_unlinked k x s y :
  zlen (m_blocks s) = BLOCK_COUNT -> block_index y ->
  (pv s x = NIL \/ block_index (pv s x)) -> (nx s x = NIL \/ block_index (nx s x)) ->
  nx (unlinked k x s) y = (if y =? pv s x then nx s x else nx s y) /\
  pv (unlinked k x s) y = (if y =? nx s x then pv s x else pv s y).
Proof.
  intros Hl Hy Hp Hn. pose proof nil_not_block as Hnil.
  assert (y <> NIL) as Hyn by (intros ->; done).
  unfold unlinked.
  destruct (Z.eqb_spec (pv s x) NIL) as [Ep|Ep], (Z.eqb_spec (nx s x) NIL) as [En|En];
    (destruct Hp as [Hp|Hp]; [try congruence|]); (destruct Hn as [Hn|Hn]; [try congruence|]);
    try congruence; unfold nx, pv in *;
    rewrite ?znth_updated; rewrite ?blocks_set_head, ?znth_updated; try done;
    try (by apply length_updated);
    rewrite ?Ep, ?En, ?(Z.eqb_sym y);
    destruct_comparisons; cbn; try congruence; done.
Qed.

Lemma head_unlinked k k' x s :
  head_of k' (unlinked k x s) =
  if decide (k = k') then (if pv s x =? NIL then nx s x else head_of k' s) else head_of k' s.
Proof.
  unfold unlinked. destruct (nx s x =? NIL); rewrite ?head_of_updated;
    destruct (pv s x =? NIL); rewrite ?head_of_updated, ?head_of_set; by case_decide; subst.
Qed.

Lemma same_unlinked k x s :
  zlen (m_blocks s) = BLOCK_COUNT ->
  (pv s x = NIL \/ block_index (pv s x)) -> (nx s x = NIL \/ block_index (nx s x)) ->
  same_but_links s (unlinked k x s).
Proof.
  intros Hl Hp Hn. unfold unlinked.
  assert (Hs1 : same_but_links s (if pv s x =? NIL then set_head k (nx s x) s
                                  else updated (pv s x) (with_next (nx s x)) s)).
  { destruct (Z.eqb_spec (pv s x) NIL); [apply same_set_head|].
    apply same_updated; [done | by destruct Hp | done]. }
  destruct (Z.eqb_spec (nx s x) NIL); [done|].
  eapply same_but_links_trans; [exact Hs1|]. apply same_updated; [|by destruct Hn|done].
  destruct (pv s x =? NIL); [by rewrite blocks_set_head | by apply length_updated].
Qed.

(** [unlink] computes [unlinked]: the node's own links survive the first assignment. *)
Lemma wp_unlink_body s k x (Q : unit -> pmm -> Prop) :
  zlen (m_blocks s) = BLOCK_COUNT -> block_index x ->
  (pv s x = NIL \/ block_index (pv s x) /\ pv s x <> x) ->
  (nx s x = NIL \/ block_index (nx s x)) ->
  Q tt (unlinked k x s) -> wp (unlink k x) Q s.
Proof.
  intros Hl Hx Hp Hn HQ. unfold unlink. wp_steps. apply wp_get_block; [done..|]. wp_steps.
  fold (pv s x). fold (nx s x). unfold unlinked in HQ.
  assert (Hsecond : forall s1, zlen (m_blocks s1) = BLOCK_COUNT ->
    znth (m_blocks s1) x = znth (m_blocks s) x ->
    Q tt (if nx s x =? NIL then s1 else updated (nx s x) (with_prev (pv s x)) s1) ->
    wp (b ← get_block x; when (negb (next b =? NIL)) (update_block (next b) (with_prev (prev b)))) Q s1).
  { intros s1 Hl1 Hb1 HQ1. wp_steps. apply wp_get_block; [done..|]. rewrite Hb1.
    fold (pv s x). fold (nx s x). destruct (Z.eqb_spec (nx s x) NIL); cbn [negb when]; [by wp_steps|].
    apply wp_update_block; [done | by destruct Hn | done]. }
  destruct (Z.eqb_spec (pv s x) NIL).
  - wp_step. apply Hsecond; rewrite ?blocks_set_head; done.
  - destruct Hp as [|[Hpb Hpx]]; [done|]. apply wp_update_block; [done..|].
    apply Hsecond; [by apply length_updated | | done].
    rewrite znth_updated by done. by destruct (Z.eqb_spec (pv s x) x).
Qed.

Lemma wp_unlink cls s k x (Q : unit -> pmm -> Prop) :
  listed cls s -> block_index x -> cls x = Some k ->
  (forall s', listed (fun i => if i =? x then None else cls i) s' -> same_but_links s s' -> Q tt s') ->
  wp (unlink k x) Q s.
Proof.
  intros [Hl [L HL]] Hx Hk HQ.
  destruct (HL k) as [Hd Hm]. pose proof (proj2 (Hm x) (conj Hx Hk)) as Hin.
  apply list_elem_of_split in Hin as (l1 & l2 & Heq). rewrite Heq in Hd.
  pose proof (dlist_neighbours _ _ _ _ _ _ _ Hd) as [Hp Hn].
  pose proof (proj1 Hd) as Hnd. apply NoDup_app in Hnd as (_ & Hdis & Hnd2).
  apply NoDup_cons in Hnd2 as [Hx2 _].
  assert (Hx1 : ~ x ∈ l1) by (intros Hin; apply (Hdis x Hin); left).
  assert (Hmem : forall y, y ∈ l1 ++ l2 -> block_index y /\ cls y = Some k /\ y <> x).
  { intros y Hy. destruct (proj1 (Hm y)) as [Hb Hc].
    - rewrite Heq. apply elem_of_app in Hy as [Hy|Hy]; apply elem_of_app; [by left | right; by right].
    - split; [done|]. split; [done|]. intros ->. apply elem_of_app in Hy. tauto. }
  assert (Hp' : pv s x = NIL \/ pv s x ∈ l1 ++ l2) by (destruct Hp; [by left | right; apply elem_of_app; by left]).
  assert (Hn' : nx s x = NIL \/ nx s x ∈ l1 ++ l2) by (destruct Hn; [by left | right; apply elem_of_app; by right]).
  assert (Hpb : pv s x = NIL \/ block_index (pv s x)) by (destruct Hp'; [by left | right; by apply Hmem]).
  assert (Hnb : nx s x = NIL \/ block_index (nx s x)) by (destruct Hn'; [by left | right; by apply Hmem]).
  apply wp_unlink_body; [done | done | | done |].
  { destruct Hp' as [|Hin]; [by left|]. right. by destruct (Hmem _ Hin) as (? & _ & ?). }
  apply HQ; [|by apply same_unlinked]. split; [by apply length_unlinked|].
  exists (fun k' => if decide (k = k') then l1 ++ l2 else L k'). intros k'.
  rewrite head_unlinked. case_decide as Hkk; [subst k'|].
  - split.
    + eapply dlist_unlink; [| exact Hd | reflexivity | |].
      * rewrite <- Heq. intros [Hin _]%Hm. by apply nil_not_block in Hin.
      * intros y Hy. by apply links_unlinked; [done | apply Hmem | |].
      * intros y Hy. by apply links_unlinked; [done | apply Hmem | |].
    + intros i. split.
      * intros Hi. destruct (Hmem i Hi) as (Hb & Hc & Hne). by destruct (Z.eqb_spec i x).
      * intros [Hb Hc]. destruct (Z.eqb_spec i x) as [|Hne]; [done|].
        pose proof (proj2 (Hm i) (conj Hb Hc)) as Hi. rewrite Heq in Hi.
        apply elem_of_app in Hi as [Hi|Hi]; apply elem_of_app; [by left | right].
        apply elem_of_cons in Hi as [|]; done.
  - destruct (HL k') as [Hd' Hm']. split.
    + eapply dlist_ext; [|exact Hd']. intros y Hy. apply Hm' in Hy as [Hyb Hyc].
      destruct (links_unlinked k x s y) as [-> ->]; [done..|]. split.
      * destruct (Z.eqb_spec y (pv s x)) as [->|]; [|done]. destruct Hp' as [Hp'|Hp'].
        -- rewrite Hp' in Hyb. by destruct nil_not_block.
        -- apply Hmem in Hp' as (_ & ? & _). congruence.
      * destruct (Z.eqb_spec y (nx s x)) as [->|]; [|done]. destruct Hn' as [Hn'|Hn'].
        -- rewrite Hn' in Hyb. by destruct nil_not_block.
        -- apply Hmem in Hn' as (_ & ? & _). congruence.
    + intros i. rewrite Hm'. destruct (Z.eqb_spec i x) as [->|]; [|done]. rewrite Hk.
      split; intros [_ ?]; congruence.
Qed.

(** The state after [push]. *)
Definition pushed (k : list_head) (x : Z) (s : pmm) : pmm :=
  let s1 := updated x (with_prev NIL) (updated x (with_next (head_of k s)) s) in
  let s2 := if head_of k s =? NIL then s1 else updated (head_of k s) (with_prev x) s1 in
  set_head k x s2.

Lemma u16_block x : block_index x -> u16 x = x.
Proof. intros Hx. apply wrap_small. pose proof block_count_range. unfold block_index in Hx. split; lia. Qed.

Lemma wp_push_body s k x (Q : unit -> pmm -> Prop) :
  zlen (m_blocks s) = BLOCK_COUNT -> block_index x ->
  (head_of k s = NIL \/ block_index (head_of k s)) ->
  Q tt (pushed k x s) -> wp (push k x) Q s.
Proof.
  intros Hl Hx Hh HQ. unfold push. wp_steps. apply wp_update_block; [done..|].
  apply wp_bind, wp_update_block; [by apply length_updated | done |].
  apply wp_bind. rewrite u16_block by done. unfold pushed in HQ.
  destruct (Z.eqb_spec (head_of k s) NIL); cbn [negb when].
  - by wp_steps.
  - apply wp_update_block; [by do 2 apply length_updated | by destruct Hh |]. by wp_steps.
Qed.

Lemma length_pushed k x s :
  zlen (m_blocks s) = BLOCK_COUNT -> zlen (m_blocks (pushed k x s)) = BLOCK_COUNT.
Proof.
  intros Hl. unfold pushed. rewrite blocks_set_head.
  destruct (head_of k s =? NIL); by repeat apply length_updated.
Qed.

Lemma links_pushed k x s y :
  zlen (m_blocks s) = BLOCK_COUNT -> block_index x -> block_index y ->
  (head_of k s = NIL \/ block_index (head_of k s)) -> head_of k s <> x ->
  nx (pushed k x s) y = (if y =? x then head_of k s else nx s y) /\
  pv (pushed k x s) y = (if y =? x then NIL else if y =? head_of k s then x else pv s y).
Proof.
  intros Hl Hx Hy Hh Hne. pose proof nil_not_block as Hnil.
  assert (y <> NIL) as Hyn by (intros ->; done).
  unfold pushed, nx, pv. rewrite blocks_set_head.
  destruct (Z.eqb_spec (head_of k s) NIL) as [E|E];
    (destruct Hh as [Hh|Hh]; [try congruence|]);
    rewrite !znth_updated by (try done; by repeat apply length_updated);
    rewrite ?(Z.eqb_sym y); destruct_comparisons; cbn; try congruence; done.
Qed.

Lemma same_pushed k x s :
  zlen (m_blocks s) = BLOCK_COUNT -> block_index x ->
  (head_of k s = NIL \/ block_index (head_of k s)) -> same_but_links s (pushed k x s).
Proof.
  intros Hl Hx Hh. unfold pushed.
  eapply same_but_links_trans; [|apply same_set_head].
  assert (Hs1 : same_but_links s (updated x (with_prev NIL) (updated x (with_next (head_of k s)) s))).
  { eapply same_but_links_trans; apply same_updated; try done. by apply length_updated. }
  destruct (Z.eqb_spec (head_of k s) NIL); [done|].
  eapply same_but_links_trans; [exact Hs1|].
  apply same_updated; [by repeat apply length_updated | by destruct Hh | done].
Qed.

Lemma head_pushed k k' x s :
  head_of k' (pushed k x s) = if decide (k = k') then x else head_of k' s.
Proof.
  unfold pushed. rewrite head_of_set. case_decide; [done|].
  destruct (head_of k s =? NIL); by rewrite !head_of_updated.
Qed.

(** The head of a list is a block of the list, or nil. *)
Lemma head_block cls s k L :
  dlist (nx s) (pv s) NIL (head_of k s) L ->
  (forall i, i ∈ L <-> block_index i /\ cls i = Some k) ->
  head_of k s = NIL \/ block_index (head_of k s) /\ cls (head_of k s) = Some k.
Proof.
  intros [_ [q H1]] Hm. destruct (lseg_start _ _ _ _ _ _ _ H1) as [->|Hin].
  - left. by destruct H1.
  - right. by apply Hm.
Qed.

Lemma wp_push cls s k x (Q : unit -> pmm -> Prop) :
  listed cls s -> block_index x -> cls x = None ->
  (forall s', listed (fun i => if i =? x then Some k else cls i) s' -> same_but_links s s' -> Q tt s') ->
  wp (push k x) Q s.
Proof.
  intros [Hl [L HL]] Hx Hk HQ. destruct (HL k) as [Hd Hm].
  pose proof (head_block _ _ _ _ Hd Hm) as Hh.
  assert (Hhb : head_of k s = NIL \/ block_index (head_of k s)) by tauto.
  assert (Hhx : head_of k s <> x).
  { intros E. rewrite E in Hh. destruct Hh as [->|[_ Hc]]; [by apply nil_not_block | congruence]. }
  apply wp_push_body; [done..|].
  apply HQ; [|by apply same_pushed]. split; [by apply length_pushed|].
  exists (fun k' => if decide (k = k') then x :: L k else L k'). intros k'.
  rewrite head_pushed. case_decide as Hkk; [subst k'|].
  - split.
    + eapply dlist_push; [exact Hd | | | |].
      * intros [_ Hc]%Hm. congruence.
      * destruct (links_pushed k x s x) as [-> _]; [done..|]. by rewrite Z.eqb_refl.
      * destruct (links_pushed k x s x) as [_ ->]; [done..|]. by rewrite Z.eqb_refl.
      * intros y [Hyb Hyc]%Hm. destruct (links_pushed k x s y) as [-> ->]; [done..|].
        destruct (Z.eqb_spec y x); [congruence | done].
    + intros i. rewrite elem_of_cons, Hm. destruct (Z.eqb_spec i x) as [->|]; [tauto|].
      split; [by intros [|] | by right].
  - destruct (HL k') as [Hd' Hm']. split.
    + eapply dlist_ext; [|exact Hd']. intros y [Hyb Hyc]%Hm'.
      destruct (links_pushed k x s y) as [-> ->]; [done..|].
      destruct (Z.eqb_spec y x) as [->|]; [congruence|]. split; [done|].
      destruct (Z.eqb_spec y (head_of k s)) as [->|]; [|done].
      destruct Hh as [Hh|[_ Hc]]; [rewrite Hh in Hyb; by destruct nil_not_block | congruence].
    + intros i. rewrite Hm'. destruct (Z.eqb_spec i x) as [->|]; [|done]. rewrite Hk.
      split; intros [_ ?]; congruence.
Qed.

Lemma listed_ext cls cls' s :
  (forall i, block_index i -> cls i = cls' i) -> listed cls s -> listed cls' s.
Proof.
  intros Heq [Hl [L HL]]. split; [done|]. exists L. intros k. destruct (HL k) as [Hd Hm].
  split; [done|]. intros i. rewrite Hm. split; intros [Hb Hc]; split; try done;
    [by rewrite <- Heq | by rewrite Heq].
Qed.

(** Assigning a count changes neither links nor heads. *)
Lemma listed_with_free cls s i x :
  block_index i -> listed cls s -> listed cls (updated i (with_free x) s).
Proof.
  intros Hi [Hl [L HL]]. split; [by apply length_updated|]. exists L. intros k.
  destruct (HL k) as [Hd Hm]. rewrite head_of_updated. split; [|done].
  eapply dlist_ext; [|exact Hd]. intros y [Hy _]%Hm. unfold nx, pv.
  rewrite !znth_updated by done. by destruct (i =? y).
Qed.

(** The lists agree with the counts: the invariant of the block table. *)
Definition block_lists (s : pmm) : Prop := listed (fun i => list_of (count_of s i)) s.

(** [set_free] assigns the count and moves the block to the list the count selects. *)
Lemma wp_set_free s x f (Q : unit -> pmm -> Prop) :
  block_lists s -> block_index x -> 0 <= f <= 512 ->
  (forall s', block_lists s' -> m_frames s' = m_frames s -> m_lock s' = m_lock s ->
     (forall i, block_index i -> count_of s' i = if i =? x then f else count_of s i) -> Q tt s') ->
  wp (set_free x f) Q s.
Proof.
  intros Hb Hx Hf HQ. pose proof (listed_length _ _ Hb) as Hl.
  assert (Hu : u16 f = f) by (apply wrap_small; split; lia).
  assert (Hlast : forall s1, same_but_links s s1 ->
    listed (fun i => if i =? x then list_of f else list_of (count_of s i)) s1 ->
    wp (update_block x (with_free (u16 f))) Q s1).
  { intros s1 (Hfr & Hlk & Hc) Hls. pose proof (listed_length _ _ Hls).
    apply wp_update_block; [done..|]. rewrite Hu.
    assert (Hcount : forall i, block_index i ->
      count_of (updated x (with_free f) s1) i = if i =? x then f else count_of s i).
    { intros i Hi. unfold count_of at 1. rewrite znth_updated by done. rewrite (Z.eqb_sym i).
      destruct (x =? i); [done | by apply Hc]. }
    apply HQ; [|done..|exact Hcount].
    apply listed_ext with (fun i => if i =? x then list_of f else list_of (count_of s i)).
    - intros i Hi. rewrite Hcount by done. by destruct (i =? x).
    - by apply listed_with_free. }
  unfold set_free. wp_steps. apply wp_get_block; [done..|]. fold (count_of s x).
  apply wp_bind. case_bool_decide as Hsame; cbn [negb when].
  { wp_steps. apply Hlast; [done|]. eapply listed_ext; [|exact Hb]. intros i Hi. cbn.
    destruct (Z.eqb_spec i x) as [->|]; done. }
  apply wp_bind.
  assert (Hpush : forall s1, same_but_links s s1 ->
    listed (fun i => if i =? x then None else list_of (count_of s i)) s1 ->
    wp (match list_of f with Some head => push head x | None => mret tt end)
       (fun _ s' => wp (update_block x (with_free (u16 f))) Q s') s1).
  { intros s1 Hs1 Hls1. destruct (list_of f) as [k|].
    - eapply wp_push; [exact Hls1 | done | cbv beta; by rewrite Z.eqb_refl |]. intros s2 Hls2 Hs2.
      apply Hlast; [by eapply same_but_links_trans|]. eapply listed_ext; [|exact Hls2].
      intros i Hi. cbn. by destruct (i =? x).
    - wp_steps. by apply Hlast. }
  destruct (list_of (count_of s x)) as [k|] eqn:Hk.
  - eapply wp_unlink; [exact Hb | done..|]. intros s1 Hls1 Hs1. by apply Hpush.
  - wp_steps. apply Hpush; [done|]. eapply listed_ext; [|exact Hb]. intros i Hi. cbn.
    by destruct (Z.eqb_spec i x) as [->|].
Qed.

(** ** The invariant *)

Definition true_count (s : pmm) (i : Z) : Z := count_range (is_free s) (i * 512) ((i + 1) * 512).

(** The invariant with the counts of the blocks in [lo, hi) out of date. *)
Record inv_except (lo hi : Z) (s : pmm) : Prop := {
  inv_lists : block_lists s;
  inv_frames : wf WORD MAX_FRAMES (m_frames s);
  inv_counts i : block_index i -> ~ lo <= i < hi -> count_of s i = true_count s i;
}.

Definition inv (s : pmm) : Prop := inv_except 0 0 s.

Lemma inv_count s i : inv s -> block_index i -> count_of s i = true_count s i.
Proof. intros Hs Hi. apply (inv_counts _ _ _ Hs); [done | lia]. Qed.

Lemma true_count_bounds s i : 0 <= true_count s i <= 512.
Proof. pose proof (count_range_bounds (is_free s) (i * 512) ((i + 1) * 512)). unfold true_count. lia. Qed.

Lemma true_count_full s i :
  true_count s i = 512 <-> forall f, i * 512 <= f < (i + 1) * 512 -> is_free s f = true.
Proof.
  unfold true_count. pose proof (count_range_full (is_free s) (i * 512) ((i + 1) * 512) ltac:(lia)).
  replace ((i + 1) * 512 - i * 512) with 512 in H1 by lia. exact H1.
Qed.

Lemma true_count_empty s i :
  true_count s i = 0 <-> forall f, i * 512 <= f < (i + 1) * 512 -> is_free s f = false.
Proof. apply count_range_zero. Qed.

(** The frames of [lo, hi) become [v]; nothing else changes. *)
Definition frames_set (s s' : pmm) (lo hi : Z) (v : bool) : Prop :=
  wf WORD MAX_FRAMES (m_frames s') /\
  forall f, 0 <= f < MAX_FRAMES ->
    is_free s' f = if (lo <=? f) && (f <? hi) then v else is_free s f.

Lemma wp_on_frames {A} (m : kernel (list Z) A) (Q : A -> pmm -> Prop) s :
  wp m (fun a b => Q a (set_frames b s)) (m_frames s) -> wp (on_frames m) Q s.
Proof. apply wp_zoom. Qed.

Lemma set_frames_same s : set_frames (m_frames s) s = s.
Proof. by destruct s. Qed.

Lemma wp_assign_frames s first count v (Q : unit -> pmm -> Prop) :
  wf WORD MAX_FRAMES (m_frames s) -> 0 <= first -> 0 <= count -> first + count <= MAX_FRAMES ->
  (forall b, frames_set s (set_frames b s) first (first + count) v -> Q tt (set_frames b s)) ->
  wp (on_frames (apply WORD first count v)) Q s.
Proof.
  intros Hw Hf Hc Hcap HQ. apply wp_on_frames.
  apply (wp_apply WORD MAX_FRAMES word_ok max_frames_range); [done..| |].
  { by rewrite capacity_eq, <- max_frames_eq. }
  intros b [Hwb Hb]. apply HQ. split; [done|]. intros f Hf'. apply Hb.
  by rewrite capacity_eq, <- max_frames_eq.
Qed.

(** Changing frames leaves the counts of the other blocks right. *)
Lemma frames_set_inv s s' lo hi v first last :
  inv s -> m_blocks s' = m_blocks s -> m_whole s' = m_whole s -> m_broken s' = m_broken s ->
  frames_set s s' lo hi v -> 0 <= lo -> first * 512 <= lo -> hi <= last * 512 ->
  inv_except first last s'.
Proof.
  intros Hs Hb Hwh Hbr [Hw Hfree] Hlo Hfst Hlst. split; [|done|].
  - pose proof (inv_lists _ _ _ Hs) as [Hlen [L HL]]. unfold block_lists, count_of.
    split; [by rewrite Hb|]. exists L. intros k. destruct (HL k) as [Hd Hm].
    rewrite Hb. split; [|exact Hm]. unfold nx, pv in *. rewrite Hb.
    destruct k; cbn [head_of] in *; congruence.
  - intros i Hi Hout. unfold count_of. rewrite Hb. change (count_of s i = true_count s' i).
    rewrite (inv_count s i Hs Hi). apply count_range_ext. intros f Hf. symmetry.
    rewrite Hfree.
    + destruct_comparisons; cbn [andb]; try done. nia.
    + rewrite max_frames_eq. unfold block_index in Hi. nia.
Qed.

(** Refreshing the counts of the blocks of [first, first + n), all equal to [v]. *)
Lemma wp_recount s first n v (Q : unit -> pmm -> Prop) :
  inv_except first (first + n) s -> 0 <= first -> 0 <= n -> first + n <= BLOCK_COUNT ->
  (forall i, first <= i < first + n -> true_count s i = v) -> 0 <= v <= 512 ->
  (forall s', inv s' -> m_frames s' = m_frames s -> m_lock s' = m_lock s -> Q tt s') ->
  wp (for_range 0 n (fun i => set_free (u64 (first + i)) v)) Q s.
Proof.
  intros Hs Hf Hn Hcap Hv Hvr HQ. pose proof block_count_range.
  apply wp_for_range with (Inv := fun i s1 =>
    inv_except (first + i) (first + n) s1 /\ m_frames s1 = m_frames s /\ m_lock s1 = m_lock s).
  - by rewrite Z.add_0_r.
  - intros i s1 Hi (Hs1 & Hfr & Hlk).
    assert (u64 (first + i) = first + i) as -> by (apply wrap_small; split; lia).
    apply wp_set_free; [apply Hs1 | unfold block_index; lia | done |].
    intros s2 Hb2 Hf2 Hl2 Hc2. split; [|by rewrite Hf2, Hl2]. split; [done | |].
    + rewrite Hf2. apply Hs1.
    + intros j Hj Hout. rewrite Hc2 by done. unfold true_count, is_free. rewrite Hf2.
      destruct (Z.eqb_spec j (first + i)) as [->|Hne].
      * rewrite Hfr. symmetry. apply Hv. lia.
      * apply (inv_counts _ _ _ Hs1); [done | lia].
  - intros s1 (Hs1 & Hfr & Hlk). apply HQ; [|done..]. rewrite Z.max_r in Hs1 by lia.
    split; [apply Hs1 | apply Hs1 |]. intros i Hi _. apply (inv_counts _ _ _ Hs1); [done | lia].
Qed.

(** ** Runs of frames *)

(** The [n] frames from [f] are aligned and free. *)
Definition available (s : pmm) (n f : Z) : Prop :=
  0 <= f /\ f + n <= MAX_FRAMES /\ f mod n = 0 /\ forall g, f <= g < f + n -> is_free s g = true.

Definition whole_block (s : pmm) (i : Z) : Prop := count_of s i = 512.

Lemma available_blocks s n f :
  inv s -> 0 < n ->
  available s (n * 512) f <->
  exists first, f = first * 512 /\ 0 <= first /\ first + n <= BLOCK_COUNT /\ first mod n = 0 /\
    forall i, first <= i < first + n -> whole_block s i.
Proof.
  intros Hs Hn. unfold available. rewrite max_frames_eq. split.
  - intros (Hf & Hcap & Hmod & Hfree). apply Z.mod_divide in Hmod as [q Hq]; [|lia].
    exists (q * n). split; [lia|]. split; [nia|]. split; [nia|]. split; [apply Z.mod_mul; lia|].
    intros i Hi. unfold whole_block. rewrite inv_count by (done || unfold block_index; nia).
    apply true_count_full. intros g Hg. apply Hfree. nia.
  - intros (first & -> & H1 & H2 & H3 & Hw). split; [lia|]. split; [nia|]. split.
    { apply Z.mod_divide in H3 as [q Hq]; [|lia]. subst first.
      replace (q * n * 512) with (q * (n * 512)) by lia. apply Z.mod_mul. lia. }
    intros g Hg. pose proof (Z.div_mod g 512 ltac:(lia)). pose proof (Z.mod_pos_bound g 512 ltac:(lia)).
    assert (Hi : first <= g / 512 < first + n) by nia.
    specialize (Hw _ Hi). unfold whole_block in Hw.
    rewrite inv_count in Hw by (done || unfold block_index; nia).
    apply (proj1 (true_count_full s _) Hw). lia.
Qed.

Lemma address_of_eq f : 0 <= f < MAX_FRAMES -> address_of f = f * 4096.
Proof.
  intros Hf. rewrite max_frames_eq in Hf. pose proof block_count_range.
  unfold address_of. change FRAME_SHIFT with 12. rewrite Z.shiftl_mul_pow2 by lia.
  apply wrap_small. split; lia.
Qed.

Lemma block_frames_u64 i : 0 <= i <= BLOCK_COUNT -> u64 (i * 512) = i * 512.
Proof. intros Hi. pose proof block_count_range. apply wrap_small. split; lia. Qed.

Lemma wp_take_whole s first n (Q : Z -> pmm -> Prop) :
  inv s -> 0 <= first -> 0 < n -> first + n <= BLOCK_COUNT ->
  (forall s', inv s' -> m_lock s' = m_lock s ->
     frames_set s s' (first * 512) ((first + n) * 512) false -> Q (first * 512 * 4096) s') ->
  wp (take_whole first n) Q s.
Proof.
  intros Hs Hf Hn Hcap HQ. unfold take_whole. change FRAMES_PER_BLOCK with 512.
  rewrite !block_frames_u64 by lia. apply wp_bind. unfold clear_range.
  apply wp_assign_frames; [apply Hs | lia.. | rewrite max_frames_eq; lia |].
  intros b Hb. replace (first * 512 + n * 512) with ((first + n) * 512) in Hb by lia.
  apply wp_bind. apply wp_recount; [ | lia | lia | lia | | lia | ].
  - eapply frames_set_inv; [exact Hs | done | done | done | exact Hb | lia | lia | lia].
  - intros i Hi. apply true_count_empty. intros f Hfr. destruct Hb as [_ Hb].
    rewrite Hb by (rewrite max_frames_eq; nia). destruct_comparisons; cbn [andb]; try done; nia.
  - intros s' Hs' Hfr Hlk. wp_steps. rewrite address_of_eq by (rewrite max_frames_eq; lia).
    apply HQ; [done | by rewrite Hlk |]. unfold frames_set, is_free in *. by rewrite Hfr.
Qed.

(** The head of a list is nil exactly when no block belongs to it. *)
Lemma head_spec s k :
  block_lists s ->
  (head_of k s = NIL /\ forall i, block_index i -> list_of (count_of s i) <> Some k) \/
  (block_index (head_of k s) /\ list_of (count_of s (head_of k s)) = Some k).
Proof.
  intros [_ [L HL]]. destruct (HL k) as [Hd Hm].
  destruct (head_block _ _ _ _ Hd Hm) as [Hn|]; [left|by right]. split; [done|].
  intros i Hi Hc. pose proof (proj2 (Hm i) (conj Hi Hc)) as Hin.
  apply (dlist_nil _ _ _ _ (L k)) in Hd; [|by intros [? _]%Hm; apply nil_not_block].
  apply Hd in Hn. rewrite Hn in Hin. by apply elem_of_nil in Hin.
Qed.

Lemma list_of_whole c : list_of c = Some WHOLE <-> c = 512.
Proof.
  unfold list_of. change FRAMES_PER_BLOCK with 512.
  destruct (Z.eqb_spec c 0); [by subst|]. destruct (Z.eqb_spec c 512); done.
Qed.

Lemma wp_whole_from s B first (Q : Z -> pmm -> Prop) :
  zlen (m_blocks s) = BLOCK_COUNT -> 0 <= first -> 0 <= B -> first + B <= BLOCK_COUNT ->
  (forall w, 0 <= w <= B -> (forall j, first <= j < first + w -> whole_block s j) ->
     (w < B -> ~ whole_block s (first + w)) -> Q w s) ->
  wp (whole_from B first) Q s.
Proof.
  intros Hl Hf HB Hcap HQ. pose proof block_count_range. unfold whole_from.
  apply wp_while with
    (Inv := fun w s1 => s1 = s /\ 0 <= w <= B /\ forall j, first <= j < first + w -> whole_block s j)
    (variant := fun w _ => B - w).
  - split; [done|]. split; lia.
  - lia.
  - intros w s1 (-> & Hw & Hall) _. destruct (Z.ltb_spec w B).
    + assert (u64 (first + w) = first + w) as -> by (apply wrap_small; split; lia).
      wp_steps. apply wp_get_block; [done | unfold block_index; lia |]. wp_steps.
      change FRAMES_PER_BLOCK with 512. fold (count_of s (first + w)).
      destruct (Z.eqb_spec (count_of s (first + w)) 512); wp_steps; [|by apply HQ].
      assert (u64 (w + 1) = w + 1) as -> by (apply wrap_small; split; lia).
      split; [|lia]. split; [done|]. split; [lia|]. intros j Hj.
      destruct (Z.eq_dec j (first + w)) as [->|]; [done | apply Hall; lia].
    + wp_steps. apply HQ; [lia | done | lia].
Qed.

(** The outcome of the search for [B] aligned whole blocks. *)
Definition run_found (s : pmm) (B r : Z) : Prop :=
  (r = NIL /\ forall first, 0 <= first -> first + B <= BLOCK_COUNT -> first mod B = 0 ->
     exists i, first <= i < first + B /\ ~ whole_block s i) \/
  (r <> NIL /\ 0 <= r /\ r + B <= BLOCK_COUNT /\ r mod B = 0 /\
     forall i, r <= i < r + B -> whole_block s i).

Lemma wp_find_run_loop s B (Q : Z -> pmm -> Prop) :
  zlen (m_blocks s) = BLOCK_COUNT -> 1 < B -> BLOCK_COUNT mod B = 0 ->
  (forall r, run_found s B r -> Q r s) -> wp (find_whole_run B) Q s.
Proof.
  intros Hl HB Hdiv HQ. pose proof block_count_range. unfold find_whole_run.
  destruct (Z.eqb_spec B 1); [lia|]. apply wp_bind.
  apply Z.mod_divide in Hdiv as [q Hq]; [|lia].
  apply wp_while with
    (Inv := fun '(first, found) s1 => s1 = s /\ 0 <= first <= BLOCK_COUNT /\ first mod B = 0 /\
       if found : bool then first + B <= BLOCK_COUNT /\ forall i, first <= i < first + B -> whole_block s i
       else forall f, 0 <= f < first -> f mod B = 0 -> exists i, f <= i < f + B /\ ~ whole_block s i)
    (variant := fun '(first, found) _ => if found : bool then 0 else BLOCK_COUNT - first).
  - split; [done|]. split; [lia|]. split; [done|]. lia.
  - lia.
  - intros [first found] s1 (-> & Hr & Hm & Hinv) _. wp_steps.
    apply Z.mod_divide in Hm as [p Hp]; [|lia]. subst first.
    destruct found; [|destruct (Z.ltb_spec (p * B) BLOCK_COUNT) as [Hlt|Hge]]; cbn [negb andb].
    + rewrite andb_false_r. wp_steps. apply HQ. right.
      split; [change NIL with 65535; lia|]. split; [lia|]. split; [lia|].
      split; [apply Z.mod_mul; lia | apply Hinv].
    + assert (p < q) by (apply (Z.mul_lt_mono_pos_r B); lia).
      assert (p * B + B <= BLOCK_COUNT) by nia. wp_steps.
      apply wp_whole_from; [done | lia..|]. intros w Hw Hall Hnot. wp_steps.
      destruct (Z.eqb_spec w B) as [->|].
      * split; [|lia]. split; [done|]. split; [lia|]. split; [apply Z.mod_mul; lia | done].
      * assert (u64 (p * B + B) = p * B + B) as -> by (apply wrap_small; split; lia).
        split; [|lia]. split; [done|]. split; [lia|].
        split; [replace (p * B + B) with ((p + 1) * B) by lia; apply Z.mod_mul; lia|].
        intros f Hf Hfm. destruct (Z_lt_le_dec f (p * B)); [apply Hinv; [lia | done]|].
        apply Z.mod_divide in Hfm as [p' Hp']; [|lia].
        assert (p' = p) as -> by nia. exists (p * B + w). subst f.
        split; [lia|]. apply Hnot. lia.
    + wp_steps. apply HQ. left. split; [done|]. intros f Hf Hfc Hfm. apply Hinv; [lia | done].
Qed.

Lemma wp_find_whole_run s B (Q : Z -> pmm -> Prop) :
  inv s -> B = 1 \/ B = 512 -> (forall r, run_found s B r -> Q r s) ->
  wp (find_whole_run B) Q s.
Proof.
  intros Hs [->| ->] HQ.
  - unfold find_whole_run. cbn [Z.eqb Pos.eqb]. wp_steps. apply HQ. unfold run_found, whole_block.
    destruct (head_spec s WHOLE (inv_lists _ _ _ Hs)) as [[Hn Hno]|[Hb Hl]]; cbn [head_of] in *.
    + left. split; [done|]. intros first Hf Hcap _. exists first. split; [lia|].
      intros Hc. apply (Hno first); [unfold block_index; lia | by apply list_of_whole].
    + right. apply list_of_whole in Hl. unfold block_index in Hb. split; [|split; [lia|split; [lia|split]]].
      * intros E. rewrite E in Hb. by apply nil_not_block.
      * apply Z.mod_1_r.
      * intros i Hi. by assert (i = m_whole s) as -> by lia.
  - apply wp_find_run_loop; [apply (inv_lists _ _ _ Hs) | lia | apply blocks_per_gib | done].
Qed.

(** A block on a list holds a free frame; when both lists are empty no frame is free. *)
Lemma listed_block_has_free s i k :
  inv s -> block_index i -> list_of (count_of s i) = Some k -> true_count s i <> 0.
Proof.
  intros Hs Hi. rewrite (inv_count s i Hs Hi). unfold list_of.
  by destruct (Z.eqb_spec (true_count s i) 0).
Qed.

Lemma no_list_no_frame s f :
  inv s -> (forall i k, block_index i -> list_of (count_of s i) <> Some k) ->
  0 <= f < MAX_FRAMES -> is_free s f = false.
Proof.
  intros Hs Hno Hf. rewrite max_frames_eq in Hf.
  pose proof (Z.div_mod f 512 ltac:(lia)). pose proof (Z.mod_pos_bound f 512 ltac:(lia)).
  assert (block_index (f / 512)) as Hi by (unfold block_index; nia).
  apply (proj1 (true_count_empty s (f / 512))); [|lia].
  rewrite <- inv_count by done. unfold list_of in Hno. specialize (Hno (f / 512)).
  destruct (Z.eqb_spec (count_of s (f / 512)) 0); [done|].
  destruct (count_of s (f / 512) =? FRAMES_PER_BLOCK); by edestruct Hno.
Qed.

(** What [take] promises for runs of [n] frames. *)
Definition take_spec (n : Z) (s : pmm) (r : Result Z mm_error) (s' : pmm) : Prop :=
  inv s' /\ m_lock s' = m_lock s /\
  match r with
  | Ok address => exists f, address = f * 4096 /\ available s n f /\ frames_set s s' f (f + n) false
  | Err e => e = OUT_OF_MEMORY /\ s' = s /\ forall f, ~ available s n f
  end.

Lemma wp_take_frame_in s index (Q : Result Z mm_error -> pmm -> Prop) :
  inv s -> block_index index -> true_count s index <> 0 ->
  (forall r s', take_spec 1 s r s' -> Q r s') ->
  wp (frame ← on_frames (find_set WORD (u64 (index * WORDS_PER_BLOCK)) WORDS_PER_BLOCK);
      if frame =? NPOS then kpanic "pmm: block {} is listed as free but holds nothing"
      else
        on_frames (clear WORD frame);;
        b ← get_block index;
        set_free index (u64 (free_count b - 1));;
        mret (Ok (address_of frame))) Q s.
Proof.
  intros Hs Hi Hne HQ. pose proof block_count_range. unfold block_index in Hi.
  change WORDS_PER_BLOCK with 8.
  assert (u64 (index * 8) = index * 8) as -> by (apply wrap_small; split; lia).
  apply wp_bind, wp_on_frames, (wp_find_set WORD MAX_FRAMES word_ok max_frames_range);
    [apply Hs | lia | lia | rewrite word_count_eq; lia |].
  intros f Hfirst. rewrite set_frames_same. change WORD with 64 in Hfirst.
  destruct Hfirst as [[_ Hnone]|(Hf & Hfree & _)].
  { destruct Hne. apply true_count_empty. intros f' Hf'. apply Hnone. lia. }
  assert (Hfm : 0 <= f < MAX_FRAMES) by (rewrite max_frames_eq; nia).
  destruct (Z.eqb_spec f NPOS) as [E|_].
  { unfold NPOS in E. pose proof max_frames_range. lia. }
  apply wp_bind, wp_on_frames, (wp_clear WORD MAX_FRAMES word_ok);
    [apply Hs | by rewrite capacity_eq, <- max_frames_eq |].
  intros b [Hwb Hb]. rewrite capacity_eq, <- max_frames_eq in Hb.
  set (s1 := set_frames b s).
  assert (Hset : frames_set s s1 f (f + 1) false) by (split; [done | exact Hb]).
  assert (Hs1 : inv_except index (index + 1) s1).
  { eapply frames_set_inv; [exact Hs | done | done | done | exact Hset | lia | lia | lia]. }
  assert (Hcount : true_count s1 index = count_of s index - 1).
  { rewrite (inv_count s index Hs) by done. unfold true_count.
    rewrite (count_range_update (is_free s) (is_free s1) _ _ f); [|lia|].
    2: { intros g Hg Hgf. destruct Hset as [_ ->]; [|rewrite max_frames_eq; nia].
         destruct_comparisons; cbn [andb]; try done; lia. }
    destruct Hset as [_ ->]; [|done].
    replace (is_free s f) with true by (symmetry; exact Hfree).
    destruct_comparisons; cbn [andb Z.b2z]; try lia. }
  apply wp_bind. apply wp_get_block; [apply (inv_lists _ _ _ Hs1) | done |].
  change (free_count (znth (m_blocks s1) index)) with (count_of s index).
  rewrite <- Hcount. pose proof (true_count_bounds s1 index).
  assert (u64 (true_count s1 index) = true_count s1 index) as -> by (apply wrap_small; split; lia).
  apply wp_bind, wp_set_free; [apply Hs1 | done | done |].
  intros s2 Hb2 Hf2 Hl2 Hc2. wp_steps. rewrite address_of_eq by done. apply HQ.
  split; [|split; [by rewrite Hl2|]].
  - split; [done | rewrite Hf2; apply Hs1 |]. intros i Hib _. rewrite Hc2 by done.
    unfold true_count at 2, is_free. rewrite Hf2. destruct (Z.eqb_spec i index) as [->|]; [done|].
    apply (inv_counts _ _ _ Hs1); [done | lia].
  - exists f. split; [done|]. split.
    + split; [lia|]. split; [lia|]. split; [apply Z.mod_1_r|]. intros g Hg.
      assert (g = f) as -> by lia. exact Hfree.
    + unfold frames_set, is_free in *. by rewrite Hf2.
Qed.

Lemma wp_take_frame s (Q : Result Z mm_error -> pmm -> Prop) :
  inv s -> (forall r s', take_spec 1 s r s' -> Q r s') -> wp (take SIZE_4K) Q s.
Proof.
  intros Hs HQ. unfold take. rewrite Z.eqb_refl. wp_step. wp_step. wp_step. wp_step.
  pose proof (inv_lists _ _ _ Hs) as Hl.
  destruct (head_spec s BROKEN Hl) as [[Hb Hbn]|[Hb Hbl]]; cbn [head_of] in *.
  - rewrite Hb, Z.eqb_refl. cbn [negb].
    destruct (head_spec s WHOLE Hl) as [[Hw Hwn]|[Hw Hwl]]; cbn [head_of] in *.
    + rewrite Hw, Z.eqb_refl. wp_steps. apply HQ. split; [done|]. split; [done|].
      split; [done|]. split; [done|]. intros f (Hf & Hcap & _ & Hfree).
      specialize (Hfree f ltac:(lia)). rewrite no_list_no_frame in Hfree; [done..| |lia].
      intros i [] Hi; [by apply Hwn | by apply Hbn].
    + destruct (Z.eqb_spec (m_whole s) NIL) as [E|_]; [rewrite E in Hw; by destruct nil_not_block|].
      apply wp_take_frame_in; [done | done | by eapply listed_block_has_free | done].
  - destruct (Z.eqb_spec (m_broken s) NIL) as [E|Hne]; [rewrite E in Hb; by destruct nil_not_block|].
    cbn [negb]. destruct (Z.eqb_spec (m_broken s) NIL); [done|].
    apply wp_take_frame_in; [done | done | by eapply listed_block_has_free | done].
Qed.

Lemma wp_take_blocks s size B (Q : Result Z mm_error -> pmm -> Prop) :
  inv s -> size <> SIZE_4K -> frames_in size = B * 512 -> B = 1 \/ B = 512 ->
  (forall r s', take_spec (B * 512) s r s' -> Q r s') -> wp (take size) Q s.
Proof.
  intros Hs Hne Hframes HB HQ. unfold take. destruct (Z.eqb_spec size SIZE_4K); [done|].
  rewrite Hframes. change FRAMES_PER_BLOCK with 512. rewrite Z.div_mul by lia.
  apply wp_bind, wp_find_whole_run; [done..|]. intros r [[-> Hno]|(Hr & Hr0 & Hcap & Hmod & Hall)].
  - rewrite Z.eqb_refl. wp_steps. apply HQ. split; [done|]. split; [done|]. split; [done|].
    split; [done|]. intros f Hav. apply available_blocks in Hav as (first & -> & H1 & H2 & H3 & Hw);
      [|done|lia]. destruct (Hno first H1 H2 H3) as (i & Hi & Hnw). by apply Hnw, Hw.
  - destruct (Z.eqb_spec r NIL); [done|]. apply wp_bind.
    apply wp_take_whole; [done | lia..|]. intros s' Hs' Hlk Hset. wp_steps. apply HQ.
    split; [done|]. split; [done|]. exists (r * 512). split; [done|]. split.
    + apply available_blocks; [done | lia |]. by exists r.
    + by replace (r * 512 + B * 512) with ((r + B) * 512) by lia.
Qed.

Definition supported (size : page_size) : Prop := size = SIZE_4K \/ size = SIZE_2M \/ size = SIZE_1G.

Lemma wp_take s size (Q : Result Z mm_error -> pmm -> Prop) :
  inv s -> supported size ->
  (forall r s', take_spec (frames_in size) s r s' -> Q r s') -> wp (take size) Q s.
Proof.
  intros Hs [->|[->| ->]] HQ.
  - by apply wp_take_frame.
  - by apply (wp_take_blocks s SIZE_2M 1); [| | | left |].
  - by apply (wp_take_blocks s SIZE_1G 512); [| | | right |].
Qed.

(** The state between calls: consistent, with the lock free. *)
Definition ready (s : pmm) : Prop := inv s /\ m_lock s = SPINLOCK_UNLOCKED.

Lemma inv_set_lock x s : inv s -> inv (set_lock x s).
Proof.
  intros [[Hl [L HL]] Hf Hc]. split; [split; [done|] | done | exact Hc]. exists L. intros k.
  destruct (HL k) as [Hd Hm]. split; [|exact Hm]. by destruct k.
Qed.

Lemma wp_locked {A} (body : kernel pmm A) (Q : A -> pmm -> Prop) s :
  ready s ->
  wp body (fun a s' => Q a (set_lock SPINLOCK_UNLOCKED s')) (set_lock SPINLOCK_LOCKED s) ->
  wp (locked body) Q s.
Proof. intros [_ Hl] Hb. apply wp_guarded_by; [unfold LOCK_FUEL; lia | done | done]. Qed.

Lemma set_lock_twice x y s : set_lock x (set_lock y s) = set_lock x s.
Proof. done. Qed.

Lemma set_lock_free s : ready s -> set_lock SPINLOCK_UNLOCKED s = s.
Proof. intros [_ Hl]. destruct s; cbn in *. by rewrite Hl. Qed.

(** ** Releasing *)

(** The arguments [free] accepts: a run of frames that is aligned and within memory. *)
Definition valid_release (n base : Z) : Prop :=
  base mod (n * 4096) = 0 /\ base / 4096 + n <= MAX_FRAMES.

Lemma supported_frames size : supported size -> 0 < frames_in size <= 262144.
Proof. by intros [->|[->| ->]]. Qed.

Lemma supported_shift size : supported size -> bytes_in size = 2 ^ size /\ 0 <= size < 64 /\
  bytes_in size = frames_in size * 4096.
Proof. by intros [->|[->| ->]]. Qed.

Lemma release_check size base :
  supported size -> 0 <= base < 2 ^ 64 ->
  let n := frames_in size in
  let f := Z.shiftr base FRAME_SHIFT in
  (negb (is_aligned 64 base (bytes_in size)) || (MAX_FRAMES <=? f) ||
     (u64 (MAX_FRAMES - f) <? n)) = negb (bool_decide (valid_release n base)) /\
  f = base / 4096.
Proof.
  intros Hs Hb n f. assert (Hf : f = base / 4096) by (exact (Z.shiftr_div_pow2 base 12 ltac:(lia))).
  split; [|exact Hf]. pose proof (supported_frames _ Hs). pose proof max_frames_range.
  destruct (supported_shift _ Hs) as (Hp & Hr & Hn). rewrite Hp.
  rewrite is_aligned_spec by (done || lia). rewrite <- Hp, Hn. fold n.
  assert (0 <= f) by (rewrite Hf; apply Z.div_pos; lia).
  case_bool_decide as Hv; unfold valid_release in Hv; rewrite <- Hf in Hv; cbn [negb].
  - destruct Hv as [-> Hcap]. cbn [Z.eqb negb orb]. unfold u64. rewrite wrap_small by (split; lia).
    destruct_comparisons; cbn; try done; lia.
  - destruct (Z.eqb_spec (base mod (n * 4096)) 0) as [Hm|]; [|done]. cbn [negb orb].
    destruct (Z.leb_spec MAX_FRAMES f); [done|]. cbn [orb].
    unfold u64. rewrite wrap_small by (split; lia). apply Z.ltb_lt.
    destruct (Z_lt_le_dec (MAX_FRAMES - f) n); [done|]. destruct Hv. split; [done | lia].
Qed.

Lemma wp_find_taken s first count (Q : Z -> pmm -> Prop) :
  wf WORD MAX_FRAMES (m_frames s) -> 0 <= first -> 0 <= count -> first + count <= MAX_FRAMES ->
  (forall r, (r = NPOS <-> forall f, first <= f < first + count -> is_free s f = false) -> Q r s) ->
  wp (on_frames (find_set_in WORD first count)) Q s.
Proof.
  intros Hw Hf Hc Hcap HQ. pose proof max_frames_range.
  apply wp_on_frames, (wp_find_set_in WORD MAX_FRAMES word_ok max_frames_range); [done..| |].
  { by rewrite capacity_eq, <- max_frames_eq. }
  intros r Hr. rewrite set_frames_same. apply HQ.
  destruct Hr as [[-> Hno]|(Hb & Hset & _)]; [done|]. split.
  - intros ->. unfold NPOS in Hb. lia.
  - intros Hno. specialize (Hno r Hb). unfold is_free in Hno. congruence.
Qed.

(** The body of [free], with the lock held. *)
Lemma wp_release s f n (Q : unit -> pmm -> Prop) :
  inv s -> n = 1 \/ n = 512 \/ n = 262144 -> 0 <= f -> f mod n = 0 -> f + n <= MAX_FRAMES ->
  (forall g, f <= g < f + n -> is_free s g = false) ->
  (forall s', inv s' -> m_lock s' = m_lock s -> frames_set s s' f (f + n) true -> Q tt s') ->
  wp (on_frames (set_range WORD f n);;
      let index := f / FRAMES_PER_BLOCK in
      if n <? FRAMES_PER_BLOCK then
        b ← get_block index;
        set_free index (u64 (free_count b + n))
      else
        for_range 0 (n / FRAMES_PER_BLOCK)
          (fun i => set_free (u64 (index + i)) FRAMES_PER_BLOCK)) Q s.
Proof.
  intros Hs Hn Hf Hmod Hcap Htaken HQ. pose proof block_count_range. rewrite max_frames_eq in Hcap.
  apply wp_bind. unfold set_range.
  apply wp_assign_frames; [apply Hs | lia | lia | rewrite max_frames_eq; lia |].
  intros b Hb. cbv zeta. change FRAMES_PER_BLOCK with 512. set (s1 := set_frames b s) in *.
  pose proof (Z.div_mod f 512 ltac:(lia)). pose proof (Z.mod_pos_bound f 512 ltac:(lia)).
  destruct (Z.ltb_spec n 512) as [Hlt|Hge].
  - assert (n = 1) as -> by lia.
    assert (Hi : block_index (f / 512)) by (unfold block_index; nia).
    assert (Hs1 : inv_except (f / 512) (f / 512 + 1) s1).
    { eapply frames_set_inv; [exact Hs | done | done | done | exact Hb | lia | lia | lia]. }
    assert (Hcount : true_count s1 (f / 512) = count_of s (f / 512) + 1).
    { rewrite (inv_count s _ Hs Hi). unfold true_count. destruct Hb as [_ Hb].
      rewrite (count_range_update (is_free s) (is_free s1) _ _ f); [|lia|].
      2: { intros g Hg Hgf. rewrite Hb by (rewrite max_frames_eq; nia).
           destruct_comparisons; cbn [andb]; try done; lia. }
      rewrite Htaken, Hb by (rewrite ?max_frames_eq; lia).
      destruct_comparisons; cbn [andb Z.b2z]; lia. }
    apply wp_bind, wp_get_block; [apply (inv_lists _ _ _ Hs1) | done |].
    change (free_count (znth (m_blocks s1) (f / 512))) with (count_of s (f / 512)).
    rewrite <- Hcount. pose proof (true_count_bounds s1 (f / 512)).
    assert (u64 (true_count s1 (f / 512)) = true_count s1 (f / 512)) as ->
      by (apply wrap_small; split; lia).
    apply wp_set_free; [apply Hs1 | done | done |].
    intros s2 Hb2 Hf2 Hl2 Hc2. apply HQ; [|by rewrite Hl2|].
    + split; [done | rewrite Hf2; apply Hs1 |]. intros i Hib _. rewrite Hc2 by done.
      unfold true_count at 2, is_free. rewrite Hf2.
      destruct (Z.eqb_spec i (f / 512)) as [->|]; [done|].
      apply (inv_counts _ _ _ Hs1); [done | lia].
    + unfold frames_set, is_free in *. by rewrite Hf2.
  - assert (exists q, f = q * 512) as [q ->].
    { destruct Hn as [->|[->| ->]]; [lia|exists (f / 512); lia|].
      apply Z.mod_divide in Hmod as [q Hq]; [|lia]. exists (q * 512). lia. }
    assert (exists B, n = B * 512 /\ 0 < B) as (B & -> & HB).
    { destruct Hn as [->|[->| ->]]; [lia | by exists 1 | by exists 512]. }
    rewrite !Z.div_mul by lia. apply wp_recount; [ | lia | lia | lia | | lia | ].
    + eapply frames_set_inv; [exact Hs | done | done | done | exact Hb | lia | lia | lia].
    + intros i Hi. apply true_count_full. intros g Hg. destruct Hb as [_ Hb].
      rewrite Hb by (rewrite max_frames_eq; nia). destruct_comparisons; cbn [andb]; try done; nia.
    + intros s' Hs' Hfr Hlk. apply HQ; [done | by rewrite Hlk |].
      unfold frames_set, is_free in *. by rewrite Hfr.
Qed.

(** ** Populating the map *)

(** The bytes of [base, base + length) decide frame [f]: a usable range frees the frames it covers
    wholly, a reserved one takes every frame it touches. *)
Definition covers (usable : bool) (f : Z) (r : Z * Z) : bool :=
  let '(base, length) := r in
  if usable then (base <=? f * 4096) && ((f + 1) * 4096 <=? base + length)
  else (0 <? length) && (base <? (f + 1) * 4096) && (f * 4096 <? base + length).

Definition u64_range (r : Z * Z) : Prop := in_width 64 (fst r) /\ in_width 64 (snd r).

(** [s'] is [s] with the ranges of [l] marked usable or reserved. *)
Definition marked (usable : bool) (l : list (Z * Z)) (s s' : pmm) : Prop :=
  exists b, s' = set_frames b s /\ wf WORD MAX_FRAMES b /\
    forall f, 0 <= f < MAX_FRAMES ->
      is_free s' f = if existsb (covers usable f) l then usable else is_free s f.

Lemma marked_nil u s : wf WORD MAX_FRAMES (m_frames s) -> marked u [] s s.
Proof. intros Hw. exists (m_frames s). by rewrite set_frames_same. Qed.

Lemma marked_app u l1 l2 s s1 s2 : marked u l1 s s1 -> marked u l2 s1 s2 -> marked u (l1 ++ l2) s s2.
Proof.
  intros (b1 & -> & Hw1 & H1') (b2 & -> & Hw2 & H2'). exists b2. split; [done|]. split; [done|].
  intros f Hf. rewrite H2', H1', existsb_app by done. by destruct (existsb _ l1), (existsb _ l2).
Qed.

Lemma marked_wf u l s s' : marked u l s s' -> wf WORD MAX_FRAMES (m_frames s').
Proof. by intros (b & -> & Hw & _). Qed.

Lemma max_memory_eq : MAX_PHYSICAL_MEMORY = MAX_FRAMES * 4096.
Proof. destruct blocks_per_gib as [-> _]. rewrite max_frames_eq. lia. Qed.

Lemma max_memory_range : 0 < MAX_PHYSICAL_MEMORY < 2 ^ 37.
Proof. rewrite max_memory_eq, max_frames_eq. pose proof block_count_range. lia. Qed.

Lemma div_le_iff a b k : 0 < k -> a / k <= b <-> a < (b + 1) * k.
Proof.
  intros Hk. pose proof (Z.div_mod a k ltac:(lia)). pose proof (Z.mod_pos_bound a k ltac:(lia)). nia.
Qed.

(** The two roundings of an address of memory, in frames. *)
Lemma align_down_frame a :
  0 <= a <= MAX_PHYSICAL_MEMORY -> align_down 64 a FRAME_SIZE = a / 4096 * 4096.
Proof.
  intros Ha. pose proof max_memory_range. change FRAME_SIZE with (2 ^ 12).
  rewrite align_down_eq by (lia || split; lia). change (2 ^ 12) with 4096.
  pose proof (Z.div_mod a 4096 ltac:(lia)). lia.
Qed.

Lemma align_up_frame a :
  0 <= a <= MAX_PHYSICAL_MEMORY -> align_up 64 a FRAME_SIZE = (a + 4095) / 4096 * 4096.
Proof.
  intros Ha. pose proof max_memory_range. change FRAME_SIZE with (2 ^ 12).
  rewrite align_up_no_wrap by (lia || split; lia). change (2 ^ 12) with 4096.
  replace (a + 4096 - 1) with (a + 4095) by lia.
  pose proof (Z.div_mod (a + 4095) 4096 ltac:(lia)). lia.
Qed.

Lemma frame_shift_mul q : Z.shiftr (q * 4096) FRAME_SHIFT = q.
Proof.
  change FRAME_SHIFT with 12. rewrite Z.shiftr_div_pow2 by lia. apply Z.div_mul. lia.
Qed.

(** The frames [mark] touches: between the rounded bounds, where the end is clipped to memory. *)
Definition first_frame (usable : bool) (base : Z) : Z :=
  if usable then (base + 4095) / 4096 else base / 4096.
Definition last_frame (usable : bool) (base length : Z) : Z :=
  let stop := Z.min MAX_PHYSICAL_MEMORY (base + length) in
  if usable then stop / 4096 else (stop + 4095) / 4096.

Lemma covers_frames usable base length f :
  0 <= base < MAX_PHYSICAL_MEMORY -> 0 < length -> 0 <= f < MAX_FRAMES ->
  covers usable f (base, length) =
  (first_frame usable base <=? f) && (f <? last_frame usable base length).
Proof.
  intros Hb Hl Hf. pose proof max_memory_eq. unfold covers, first_frame, last_frame.
  assert (Hd : forall a b, (a / 4096 <=? b) = (a <? (b + 1) * 4096)).
  { intros a b. apply eq_true_iff_eq. rewrite Z.leb_le, Z.ltb_lt. by apply div_le_iff. }
  destruct usable; rewrite (Z.ltb_antisym (_ / _) f), !Hd; destruct_comparisons; cbn; lia || done.
Qed.

Lemma mark_bounds (usable : bool) base length :
  0 <= base < MAX_PHYSICAL_MEMORY -> 0 < length -> length < 2 ^ 64 ->
  let stop := if u64 (MAX_PHYSICAL_MEMORY - base) <? length then MAX_PHYSICAL_MEMORY
              else u64 (base + length) in
  (if usable then align_up 64 base FRAME_SIZE else align_down 64 base FRAME_SIZE) =
    first_frame usable base * 4096 /\
  (if usable then align_down 64 stop FRAME_SIZE else align_up 64 stop FRAME_SIZE) =
    last_frame usable base length * 4096 /\
  0 <= first_frame usable base <= MAX_FRAMES /\ 0 <= last_frame usable base length <= MAX_FRAMES.
Proof.
  intros Hb Hl Hl64 stop. pose proof max_memory_range. pose proof max_memory_eq.
  assert (stop = Z.min MAX_PHYSICAL_MEMORY (base + length)) as ->.
  { unfold stop, u64. rewrite (wrap_small 64 (_ - base)) by (split; lia).
    destruct (Z.ltb_spec (MAX_PHYSICAL_MEMORY - base) length); [lia|].
    rewrite wrap_small by (split; lia). lia. }
  unfold first_frame, last_frame.
  destruct usable; rewrite align_up_frame, align_down_frame by lia;
    (split; [done | split; [done|]]);
    repeat split; try (apply Z.div_pos; lia); apply div_le_iff; lia.
Qed.

Lemma wp_mark s base length usable (Q : unit -> pmm -> Prop) :
  wf WORD MAX_FRAMES (m_frames s) -> u64_range (base, length) ->
  (forall s', marked usable [(base, length)] s s' -> Q tt s') ->
  wp (mark base length usable) Q s.
Proof.
  intros Hw [[Hb0 Hb] [Hl0 Hl]] HQ. cbn [fst snd] in *.
  pose proof max_memory_range as HM. pose proof max_memory_eq as HMf. unfold mark.
  assert (Hskip : (forall f, 0 <= f < MAX_FRAMES -> covers usable f (base, length) = false) ->
    Q tt s).
  { intros Hno. apply HQ. exists (m_frames s). rewrite set_frames_same. split; [done|].
    split; [done|]. intros f Hf. cbn [existsb]. by rewrite Hno. }
  destruct (Z.eqb_spec length 0) as [->|Hnz]; cbn [orb].
  { wp_steps. apply Hskip. intros f Hf. unfold covers. destruct usable; destruct_comparisons; cbn; lia || done. }
  destruct (Z.leb_spec MAX_PHYSICAL_MEMORY base) as [Hge|Hlt].
  { wp_steps. apply Hskip. intros f Hf. unfold covers. destruct usable; destruct_comparisons; cbn; lia || done. }
  pose proof (mark_bounds usable base length ltac:(lia) ltac:(lia) Hl) as (-> & -> & Hq1 & Hq2).
  assert (Hcov : forall f, 0 <= f < MAX_FRAMES -> covers usable f (base, length) =
    (first_frame usable base <=? f) && (f <? last_frame usable base length))
    by (intros; apply covers_frames; lia).
  set (q1 := first_frame usable base) in *. set (q2 := last_frame usable base length) in *.
  clearbody q1 q2.
  destruct (Z.leb_spec (q2 * 4096) (q1 * 4096)).
  { wp_steps. apply Hskip. intros f Hf. rewrite Hcov by done. destruct_comparisons; cbn; lia || done. }
  assert (Hrun : wp (on_frames (apply WORD q1 (q2 - q1) usable)) Q s).
  { apply wp_assign_frames; [done | lia..|]. intros b [Hwb Hset]. apply HQ.
    exists b. split; [done|]. split; [done|]. intros f Hf. rewrite Hset by done.
    replace (q1 + (q2 - q1)) with q2 by lia. cbn [existsb]. rewrite Hcov, orb_false_r by done. done. }
  rewrite frame_shift_mul. unfold u64. rewrite wrap_small by (split; lia).
  rewrite <- Z.mul_sub_distr_r, frame_shift_mul. by destruct usable.
Qed.

(** *** The walk over the boot information *)

Definition range_bytes (r : address_range) : Z * Z := (range_base r, range_length r).
Definition region_bytes (r : memory_region) : Z * Z := (region_base r, region_length r).

(** The ranges a phase of the walk marks, in the order of the walk. *)
Definition region_claims (p : phase) (r : memory_region) : list (Z * Z) :=
  if eqb (bool_decide (p = FREE)) (bool_decide (region_kind r = USABLE)) then [region_bytes r] else [].

Definition range_claims (p : phase) (r : address_range) : list (Z * Z) :=
  if bool_decide (p = RESERVE) then [range_bytes r] else [].

Definition claims (p : phase) (boot : info) : list (Z * Z) :=
  concat (map (region_claims p) (InplaceVector.elements (memory_map boot))) ++
  concat (map (fun m => range_claims p (module_range m)) (InplaceVector.elements (modules boot))) ++
  concat (map (range_claims p) (InplaceVector.elements (reserved boot))) ++
  range_claims p (range (framebuffer boot)) ++
  range_claims p (rsdp (acpi boot)).

Definition usable_phase (p : phase) : bool := bool_decide (p = FREE).

(** A piece of the walk that marks the ranges [l] of phase [p]. *)
Definition claims_ranges (m : kernel pmm unit) (p : phase) (l : list (Z * Z)) : Prop :=
  Forall u64_range l -> forall s, wf WORD MAX_FRAMES (m_frames s) ->
  wp m (fun _ s' => marked (usable_phase p) l s s') s.

Lemma claims_nothing p : claims_ranges (mret tt) p [].
Proof. intros _ s Hw. wp_steps. by apply marked_nil. Qed.

Lemma claims_seq m1 m2 p l1 l2 :
  claims_ranges m1 p l1 -> claims_ranges m2 p l2 -> claims_ranges (m1;; m2) p (l1 ++ l2).
Proof.
  intros Hm1 Hm2 Hl s Hw. apply Forall_app in Hl as [Hl1 Hl2]. apply wp_bind.
  eapply wp_mono; [by apply Hm1|]. intros [] s1 Hs1. cbv beta.
  eapply wp_mono; [apply Hm2; [done | by eapply marked_wf]|]. intros [] s2 Hs2.
  by eapply marked_app.
Qed.

Lemma claims_region r p : claims_ranges (claim_region r p) p (region_claims p r).
Proof.
  intros Hl s Hw. unfold claim_region, region_claims in *.
  destruct (eqb _ _) eqn:E; cbn [when]; [|by apply claims_nothing].
  apply eqb_prop in E. unfold usable_phase. rewrite E.
  apply Forall_inv in Hl. by apply wp_mark.
Qed.

Lemma claims_range r p : claims_ranges (claim_range r p) p (range_claims p r).
Proof.
  intros Hl s Hw. unfold claim_range, range_claims, usable_phase in *.
  destruct p; cbn; [by apply marked_nil|]. apply Forall_inv in Hl. by apply wp_mark.
Qed.

Lemma claims_each {A} `{Inhabited A} n (claim : A -> phase -> kernel pmm unit) p c v :
  InplaceVectorFacts.wf n v -> 0 <= n -> (forall x, claims_ranges (claim x p) p (c x)) ->
  claims_ranges (claim_each claim v p) p (concat (map c (InplaceVector.elements v))).
Proof.
  intros [Hlen Hsz] Hn Hc Hl s Hw. unfold claim_each.
  set (l := InplaceVector.elements v) in *.
  assert (Hll : zlen l = InplaceVector.m_size v) by (apply zlen_take; lia).
  apply wp_for_range with (Inv := fun i s1 =>
    marked (usable_phase p) (concat (map c (firstn (Z.to_nat i) l))) s s1).
  - by apply marked_nil.
  - intros i s1 Hi Hs1. apply wp_bind, wp_observe, wp_zoom, wp_array_get; [lia|].
    set (x := znth (InplaceVector.m_items v) i).
    assert (Hx : firstn (Z.to_nat (i + 1)) l = firstn (Z.to_nat i) l ++ [x]).
    { replace (Z.to_nat (i + 1)) with (S (Z.to_nat i)) by lia. apply take_S_r.
      unfold l, InplaceVector.elements. rewrite lookup_take_lt by lia.
      apply list_lookup_lookup_total_lt. unfold zlen in Hlen. lia. }
    rewrite Hx, map_app, concat_app. cbn [map concat]. rewrite app_nil_r.
    assert (Forall u64_range (c x)).
    { rewrite <- (take_drop (Z.to_nat (i + 1)) l), Hx, !map_app, !concat_app in Hl.
      cbn [map concat] in Hl. rewrite app_nil_r in Hl.
      apply Forall_app in Hl as [Hl _]. by apply Forall_app in Hl as [_ Hl]. }
    eapply wp_mono; [apply Hc; [done | by eapply marked_wf]|]. intros [] s2 Hs2.
    by eapply marked_app.
  - intros s1 Hs1. rewrite Z.max_r in Hs1 by lia.
    rewrite take_ge in Hs1; [done|]. unfold zlen in Hll. lia.
Qed.

Lemma claims_palette p (v : InplaceVector.inplace_vector palette_color) n :
  InplaceVectorFacts.wf n v -> 0 <= n -> claims_ranges (claim_each claim_scalar v p) p [].
Proof.
  intros Hv Hn.
  replace (@nil (Z * Z)) with (concat (map (fun _ : palette_color => @nil (Z * Z)) (InplaceVector.elements v))).
  - apply (claims_each n); [done..|]. intros x. apply claims_nothing.
  - by induction (InplaceVector.elements v).
Qed.

Lemma claims_skip m p l : claims_ranges m p l -> claims_ranges (mret tt;; m) p l.
Proof. done. Qed.

Lemma claims_info boot p : wf_info boot -> claims_ranges (claim_info boot p) p (claims p boot).
Proof.
  intros Hw. unfold claim_info, claims. do 2 apply claims_skip.
  apply claims_seq; [apply (claims_each MAX_BOOT_MEMORY_REGIONS); [apply Hw | done |]|].
  { intros x. apply claims_region. }
  apply claims_seq; [apply (claims_each MAX_BOOT_MODULES); [apply Hw | done |]|].
  { intros x. rewrite <- (app_nil_r (range_claims _ _)).
    apply claims_seq; [apply claims_range | apply claims_nothing]. }
  apply claims_seq; [apply (claims_each MAX_BOOT_RESERVED_RANGES); [apply Hw | done |]|].
  { intros x. apply claims_range. }
  apply claims_seq.
  - unfold claim_framebuffer. do 2 apply claims_skip.
    rewrite <- (app_nil_r (range_claims _ _)). apply claims_seq; [apply claims_range|].
    do 7 apply claims_skip.
    apply (claims_palette _ _ MAX_BOOT_PALETTE_COLORS); [apply Hw | done].
  - unfold claim_acpi. apply claims_skip.
    rewrite <- (app_nil_r (range_claims _ _)). apply claims_seq; [apply claims_range | apply claims_nothing].
Qed.

(** The memory that is never handed out besides what the boot information reserves: the first MiB
    and the kernel's image. *)
Definition fixed_ranges : list (Z * Z) :=
  [(0, 1024 * 1024); (boot_start, kernel_physical_end - boot_start)].

(** Frame [f] is usable: a usable region covers it, and nothing reserved touches it. *)
Definition usable_frame (boot : info) (f : Z) : bool :=
  existsb (covers true f) (claims FREE boot) &&
  negb (existsb (covers false f) (fixed_ranges ++ claims RESERVE boot)).

(** The boot information holds 64-bit addresses and lengths. *)
Definition typed_info (boot : info) : Prop :=
  wf_info boot /\ Forall u64_range (claims FREE boot) /\ Forall u64_range (claims RESERVE boot).

Lemma wp_marks boot s (k : kernel pmm unit) (Q : unit -> pmm -> Prop) :
  typed_info boot -> wf WORD MAX_FRAMES (m_frames s) ->
  (forall f, 0 <= f < MAX_FRAMES -> is_free s f = false) ->
  (forall b, wf WORD MAX_FRAMES b ->
     (forall f, 0 <= f < MAX_FRAMES -> is_free (set_frames b s) f = usable_frame boot f) ->
     wp k Q (set_frames b s)) ->
  wp (claim_info boot FREE;;
      mark 0 (1024 * 1024) false;;
      mark boot_start (u64 (kernel_physical_end - boot_start)) false;;
      claim_info boot RESERVE;;
      k) Q s.
Proof.
  intros (Hw & Hf & Hr) Hws Hz HQ. pose proof layout_image.
  apply wp_bind. eapply wp_mono; [by apply claims_info|]. intros [] s1 Hs1.
  apply wp_bind. apply wp_mark; [by eapply marked_wf | by vm_compute |]. intros s2 Hs2.
  unfold u64. rewrite wrap_small by (split; lia).
  apply wp_bind. apply wp_mark; [by eapply marked_wf | split; split; cbn; lia |]. intros s3 Hs3.
  apply wp_bind. eapply wp_mono; [apply claims_info; [done | done | by eapply marked_wf]|].
  intros [] s4 Hs4. pose proof (marked_app _ _ _ _ _ _ Hs2 (marked_app _ _ _ _ _ _ Hs3 Hs4)) as Hres.
  destruct Hs1 as (b1 & -> & Hw1 & Hb1), Hres as (b & -> & Hwb & Hb).
  apply HQ; [done|]. intros f Hfr. change (set_frames b s) with (set_frames b (set_frames b1 s)).
  rewrite Hb, Hb1, Hz by done. unfold usable_frame. cbn [app fixed_ranges].
  change (usable_phase FREE) with true. by destruct (existsb (covers false f) _), (existsb (covers true f) _).
Qed.

Lemma wp_count_blocks s (Q : unit -> pmm -> Prop) :
  inv_except 0 BLOCK_COUNT s ->
  (forall s', inv s' -> m_frames s' = m_frames s -> m_lock s' = m_lock s -> Q tt s') ->
  wp (for_range 0 BLOCK_COUNT (fun index =>
        free ← on_frames (count_set WORD (u64 (index * WORDS_PER_BLOCK)) WORDS_PER_BLOCK);
        set_free index free)) Q s.
Proof.
  intros Hs HQ. pose proof block_count_range.
  apply wp_for_range with (Inv := fun i s1 =>
    inv_except i BLOCK_COUNT s1 /\ m_frames s1 = m_frames s /\ m_lock s1 = m_lock s).
  - done.
  - intros i s1 Hi (Hs1 & Hfr & Hlk). change WORDS_PER_BLOCK with 8.
    assert (u64 (i * 8) = i * 8) as -> by (apply wrap_small; split; lia).
    apply wp_bind, wp_on_frames, (wp_count_set WORD MAX_FRAMES word_ok max_frames_range);
      [apply Hs1 | lia | lia | rewrite word_count_eq; lia |].
    rewrite set_frames_same. replace (i * 8 * WORD) with (i * 512) by (unfold WORD; lia).
    replace ((i * 8 + 8) * WORD) with ((i + 1) * 512) by (unfold WORD; lia).
    fold (true_count s1 i). apply wp_set_free; [apply Hs1 | done | apply true_count_bounds |].
    intros s2 Hb2 Hf2 Hl2 Hc2. split; [|by rewrite Hf2, Hl2]. split; [done | rewrite Hf2; apply Hs1 |].
    intros j Hj Hout. rewrite Hc2 by done.
    replace (true_count s2 j) with (true_count s1 j) by (unfold true_count, is_free; by rewrite Hf2).
    destruct (Z.eqb_spec j i) as [->|]; [done|]. apply (inv_counts _ _ _ Hs1); [done | lia].
  - intros s1 (Hs1 & Hfr & Hlk). apply HQ; [|done..]. rewrite Z.max_r in Hs1 by lia.
    split; [apply Hs1 | apply Hs1 |]. intros i Hi _. apply (inv_counts _ _ _ Hs1); [done | lia].
Qed.

Lemma block_lists_init b : block_lists (set_frames b pmm_init).
Proof.
  pose proof block_count_range. split; [cbn; apply zlen_replicate; lia|].
  exists (fun _ => []). intros k. split.
  - split; [constructor|]. exists NIL. by destruct k.
  - intros i. split; [by intros Hin%elem_of_nil|]. intros [Hi Hc].
    unfold count_of in Hc. cbn in Hc. by rewrite znth_replicate in Hc.
Qed.

Lemma init_frames_free f : 0 <= f < MAX_FRAMES -> is_free pmm_init f = false.
Proof.
  intros Hf. apply (contains_init WORD MAX_FRAMES word_ok). by rewrite capacity_eq, <- max_frames_eq.
Qed.

Lemma init_frames_wf : wf WORD MAX_FRAMES (m_frames pmm_init).
Proof. apply wf_init; [apply word_ok | apply max_frames_range]. Qed.

(** The lists are both empty exactly when no frame is free. *)
Lemma no_memory s :
  inv s ->
  (m_whole s =? NIL) && (m_broken s =? NIL) = true <-> forall f, 0 <= f < MAX_FRAMES -> is_free s f = false.
Proof.
  intros Hs. pose proof (inv_lists _ _ _ Hs) as Hl. rewrite andb_true_iff, !Z.eqb_eq. split.
  - intros [Hw Hb] f Hf. apply no_list_no_frame; [done | | done]. intros i [] Hi.
    + destruct (head_spec s WHOLE Hl) as [[_ Hn]|[Hx _]]; [by apply Hn|].
      cbn in Hx. rewrite Hw in Hx. by destruct nil_not_block.
    + destruct (head_spec s BROKEN Hl) as [[_ Hn]|[Hx _]]; [by apply Hn|].
      cbn in Hx. rewrite Hb in Hx. by destruct nil_not_block.
  - intros Hno.
    assert (Hzero : forall k, head_of k s = NIL).
    { intros k. destruct (head_spec s k Hl) as [[Hn _]|[Hi Hc]]; [done|].
      destruct (listed_block_has_free s _ k Hs Hi Hc). apply true_count_empty. intros f Hf.
      apply Hno. rewrite max_frames_eq. unfold block_index in Hi. nia. }
    split; [apply (Hzero WHOLE) | apply (Hzero BROKEN)].
Qed.

Lemma some_memory s boot :
  inv s -> (m_whole s =? NIL) && (m_broken s =? NIL) = false ->
  (forall f, 0 <= f < MAX_FRAMES -> is_free s f = usable_frame boot f) ->
  exists f, 0 <= f < MAX_FRAMES /\ usable_frame boot f = true.
Proof.
  intros Hs E Hfree. pose proof (inv_lists _ _ _ Hs) as Hl.
  assert (exists k, head_of k s <> NIL) as [k Hk].
  { apply andb_false_iff in E as [E|E]; apply Z.eqb_neq in E; [by exists WHOLE | by exists BROKEN]. }
  destruct (head_spec s k Hl) as [[Hn _]|[Hi Hc]]; [done|].
  pose proof (listed_block_has_free s _ k Hs Hi Hc) as Hne. set (i := head_of k s) in *.
  destruct (decide (Forall (fun j => is_free s (i * 512 + Z.of_nat j) = false) (seq 0 512))) as [Hall|Hex].
  - destruct Hne. apply true_count_empty. intros f Hf. rewrite Forall_forall in Hall.
    specialize (Hall (Z.to_nat (f - i * 512))). rewrite Z2Nat.id in Hall by lia.
    replace (i * 512 + (f - i * 512)) with f in Hall by lia. apply Hall, elem_of_seq. lia.
  - apply not_Forall_Exists, Exists_exists in Hex as (j & Hj & Hf); [|intros j; apply _].
    apply elem_of_seq in Hj. unfold block_index in Hi. exists (i * 512 + Z.of_nat j).
    rewrite max_frames_eq. split; [lia|]. rewrite <- Hfree by (rewrite max_frames_eq; lia).
    by apply not_false_is_true.
Qed.

Lemma wp_alloc s size (Q : Result Z mm_error -> pmm -> Prop) :
  ready s -> supported size ->
  (forall r s', ready s' ->
     match r with
     | Ok address => exists f, address = f * 4096 /\ available s (frames_in size) f /\
         frames_set s s' f (f + frames_in size) false
     | Err e => e = OUT_OF_MEMORY /\ s' = s /\ forall f, ~ available s (frames_in size) f
     end -> Q r s') ->
  wp (alloc size) Q s.
Proof.
  intros Hs Hsize HQ. unfold alloc. apply wp_locked; [done|].
  replace (if size =? SIZE_4K then _ else _) with (take size) by (by destruct Hsize as [->|[->| ->]]).
  apply wp_take; [apply inv_set_lock, Hs | done |]. intros r s' (Hs' & _ & Hr).
  apply HQ; [split; [by apply inv_set_lock | done]|].
  destruct r as [address|e]; [exact Hr|]. destruct Hr as (-> & -> & Hno).
  split; [done|]. split; [exact (set_lock_free s Hs) | exact Hno].
Qed.

Lemma release_run size base :
  supported size -> 0 <= base < 2 ^ 64 -> valid_release (frames_in size) base ->
  0 <= base / 4096 /\ (base / 4096) mod frames_in size = 0 /\
  base / 4096 + frames_in size <= MAX_FRAMES.
Proof.
  intros Hsize Hb [Hm Hcap]. pose proof (supported_frames _ Hsize).
  split; [apply Z.div_pos; lia|]. split; [|exact Hcap].
  apply Z.mod_divide in Hm as [q Hq]; [|lia].
  rewrite Hq. replace (q * (frames_in size * 4096)) with (q * frames_in size * 4096) by lia.
  rewrite Z.div_mul by lia. apply Z.mod_mul. lia.
Qed.

Lemma wp_free s size base (Q : unit -> pmm -> Prop) :
  let n := frames_in size in
  let f := base / 4096 in
  ready s -> supported size -> 0 <= base < 2 ^ 64 -> valid_release n base ->
  (forall g, f <= g < f + n -> is_free s g = false) ->
  (forall s', ready s' -> frames_set s s' f (f + n) true -> Q tt s') ->
  wp (free size base) Q s.
Proof.
  intros n f Hs Hsize Hbase Hv Htaken HQ. unfold free.
  destruct (release_check size base Hsize Hbase) as [-> ->].
  destruct (release_run size base Hsize Hbase Hv) as (Hf & Hmod & Hcap). fold n f.
  fold n in Hmod, Hcap. fold f in Hf, Hmod, Hcap.
  pose proof (supported_frames _ Hsize). rewrite bool_decide_eq_true_2 by done. cbn [negb].
  apply wp_locked; [done|]. apply wp_bind, wp_find_taken; [apply Hs | lia | lia | done |].
  intros r Hr. destruct (Z.eqb_spec r NPOS) as [_|Hne]; [|destruct Hne; by apply Hr].
  cbn [negb]. apply wp_release; [apply inv_set_lock, Hs | | done.. | ].
  - unfold n. destruct Hsize as [->|[->| ->]]; [by left | by right; left | by right; right].
  - intros s' Hs' _ Hset. apply HQ; [split; [by apply inv_set_lock | done] | exact Hset].
Qed.

Lemma available_release s size f :
  supported size -> available s (frames_in size) f ->
  0 <= f * 4096 < 2 ^ 64 /\ valid_release (frames_in size) (f * 4096) /\ f * 4096 / 4096 = f.
Proof.
  intros Hsize (Hf & Hcap & Hm & _). pose proof (supported_frames _ Hsize).
  pose proof block_count_range. rewrite max_frames_eq in Hcap. split; [lia|].
  assert (f * 4096 / 4096 = f) as E by (apply Z.div_mul; lia).
  split; [|exact E]. split; [|rewrite E, max_frames_eq; lia].
  apply Z.mod_divide in Hm as [q ->]; [|lia].
  replace (q * frames_in size * 4096) with (q * (frames_in size * 4096)) by lia.
  apply Z.mod_mul. lia.
Qed.
End PmmFacts.

(** ** Properties *)
Section PmmProperties.
Context `{layout_ok}.

Definition initialised (boot : info) (r : init_result) (s : pmm) : Prop :=
  ready s /\
  (forall f, 0 <= f < MAX_FRAMES -> is_free s f = usable_frame boot f) /\
  match r with
  | Ok _ => exists f, 0 <= f < MAX_FRAMES /\ usable_frame boot f = true
  | Err e => e = NO_USABLE_MEMORY /\ forall f, 0 <= f < MAX_FRAMES -> usable_frame boot f = false
  end.

Lemma wp_init_allocator boot : typed_info boot -> wp (init_allocator boot) (initialised boot) pmm_init.
Proof.
  intros Hboot. unfold init_allocator, populate. apply wp_bind.
  apply wp_marks; [done | apply init_frames_wf | apply init_frames_free |].
  intros b Hwb Hb. apply wp_count_blocks.
  { split; [apply block_lists_init | done |]. intros i Hi []. exact Hi. }
  intros s' Hs' Hfr Hlk. wp_steps.
  assert (Hfree : forall f, 0 <= f < MAX_FRAMES -> is_free s' f = usable_frame boot f).
  { intros f Hf. unfold is_free. rewrite Hfr. by apply Hb. }
  split; [by split|]. split; [done|].
  destruct ((m_whole s' =? NIL) && (m_broken s' =? NIL)) eqn:E.
  - split; [done|]. intros f Hf. rewrite <- Hfree by done. by apply no_memory.
  - by apply (some_memory s').
Qed.

(** C23: Initialisation: from the zeroed state and any well-typed boot information, [init_allocator]
    returns with the allocator consistent, free frames being exactly those that a usable region
    covers wholly and that neither the first MiB, nor the kernel's image, nor anything the boot
    information reserves touches; it reports [NO_USABLE_MEMORY] exactly when there are none. *)
Theorem init_allocator_correct boot :
  typed_info boot ->
  wp (init_allocator boot) (fun r s' =>
    ready s' /\
    (forall f, 0 <= f < MAX_FRAMES -> is_free s' f = usable_frame boot f) /\
    match r with
    | Ok _ => exists f, 0 <= f < MAX_FRAMES /\ usable_frame boot f = true
    | Err e => e = NO_USABLE_MEMORY /\ forall f, 0 <= f < MAX_FRAMES -> usable_frame boot f = false
    end) pmm_init.
Proof. apply wp_init_allocator. Qed.

(** C24: Allocation, for each page size: the allocator returns a run of frames that was free and is
    aligned to the size, and takes exactly that run; it reports [OUT_OF_MEMORY], and changes
    nothing, exactly when no such run exists. *)
Theorem alloc_correct s size :
  ready s -> supported size ->
  wp (alloc size) (fun r s' =>
    ready s' /\
    match r with
    | Ok address => exists f, address = f * 4096 /\ available s (frames_in size) f /\
        frames_set s s' f (f + frames_in size) false
    | Err e => e = OUT_OF_MEMORY /\ s' = s /\ forall f, ~ available s (frames_in size) f
    end) s.
Proof.
  intros Hs Hsize. apply wp_alloc; [done..|]. by intros r s' Hs' Hr.
Qed.

(** Any other size is refused. *)
Theorem alloc_unsupported s size :
  ready s -> ~ supported size ->
  wp (alloc size) (fun r s' => r = Err UNSUPPORTED_SIZE /\ s' = s) s.
Proof.
  intros Hs Hsize. unfold alloc. apply wp_locked; [done|]. unfold supported in Hsize.
  destruct (Z.eqb_spec size SIZE_4K); [tauto|]. destruct (Z.eqb_spec size SIZE_2M); [tauto|].
  destruct (Z.eqb_spec size SIZE_1G); [tauto|]. wp_steps. split; [done|]. exact (set_lock_free s Hs).
Qed.

(** C25: Release: a run that is not aligned or not within memory is refused with a panic, a run with a
    frame that is already free is a double free, and any other run becomes free. *)
Theorem free_correct s size base :
  ready s -> supported size -> 0 <= base < 2 ^ 64 ->
  let n := frames_in size in
  let f := base / 4096 in
  (~ valid_release n base -> panics (free size base) "pmm: invalid release of {} frames at {:#018X}" s) /\
  (valid_release n base -> (exists g, f <= g < f + n /\ is_free s g = true) ->
     panics (free size base) "pmm: double free of {} frames at {:#018X}" s) /\
  (valid_release n base -> (forall g, f <= g < f + n -> is_free s g = false) ->
     wp (free size base) (fun _ s' => ready s' /\ frames_set s s' f (f + n) true) s).
Proof.
  intros Hs Hsize Hbase n f.
  destruct (release_check size base Hsize Hbase) as [Hcheck Hshift].
  split; [|split].
  - intros Hv. unfold free. rewrite Hcheck, bool_decide_eq_false_2 by done. apply panics_kpanic.
  - intros Hv (g & Hg & Hfree). destruct (release_run size base Hsize Hbase Hv) as (H1' & H2' & H3').
    unfold free. rewrite Hcheck, Hshift, bool_decide_eq_true_2 by done. cbn [negb]. fold n f.
    fold n in H2', H3'. fold f in H1', H2', H3'. pose proof (supported_frames _ Hsize).
    apply panics_guarded_by; [unfold LOCK_FUEL; lia | apply Hs |].
    apply panics_bind, wp_find_taken; [apply Hs | lia | lia | done |].
    intros r Hr. destruct (Z.eqb_spec r NPOS) as [E|]; [|apply panics_kpanic].
    pose proof (proj1 Hr E g Hg) as E'. change (is_free s g = false) in E'. congruence.
  - intros Hv Htaken. fold f n. apply wp_free; [done..|]. by intros s' Hs' Hset.
Qed.

(** A run that was just allocated can be released, and releasing it gives back the frames that
    were free before. *)
Theorem alloc_free_roundtrip s size :
  ready s -> supported size ->
  wp (r ← alloc size;
      match r with Ok address => free size address | Err _ => mret tt end)
     (fun _ s' => ready s' /\ forall f, 0 <= f < MAX_FRAMES -> is_free s' f = is_free s f) s.
Proof.
  intros Hs Hsize. apply wp_bind, wp_alloc; [done..|]. intros [address|e] s1 Hs1 Hr; cycle 1.
  { destruct Hr as (_ & -> & _). by wp_steps. }
  destruct Hr as (f & -> & Hav & _ & Hset).
  destruct (available_release s size f Hsize Hav) as (Hb & Hv & E).
  destruct Hav as (Hf & Hcap & _ & Hfree). pose proof (supported_frames _ Hsize).
  apply wp_free; [done.. | |]; rewrite E.
  - intros g Hg. rewrite Hset by lia. destruct_comparisons; cbn; lia || done.
  - intros s2 Hs2 [_ Hset2]. split; [done|]. intros g Hg. rewrite Hset2, Hset by lia.
    destruct (Z.leb_spec f g), (Z.ltb_spec g (f + frames_in size)); cbn [andb]; try done.
    symmetry. apply Hfree. lia.
Qed.
End PmmProperties.

(** ** The configured layout, and the properties at work on it *)

(** The numbers of [config/layout.h]; the end of the image is the linker's. *)
Definition configured_layout (image_end : Z) : layout := {|
  MAX_PHYSICAL_MEMORY := DOOM_OS_MAX_PHYSICAL_MEMORY;
  boot_start := DOOM_OS_KERNEL_LMA;
  kernel_physical_end := image_end;
|}.

Lemma configured_layout_ok image_end :
  0x100000 <= image_end < 2 ^ 64 -> @layout_ok (configured_layout image_end).
Proof.
  intros Hi. split; [reflexivity | reflexivity | reflexivity |].
  cbn [boot_start kernel_physical_end configured_layout]. unfold DOOM_OS_KERNEL_LMA. lia.
Qed.

Section PmmWitnesses.
Local Instance example_layout : layout := configured_layout 0x200000.
Local Instance example_layout_ok : layout_ok := configured_layout_ok 0x200000 ltac:(lia).

(** A consistent state whose free frames are those of given usable ranges. *)
Lemma populated_state (base length : Z) :
  u64_range (base, length) ->
  exists s, ready s /\ forall f, 0 <= f < MAX_FRAMES -> is_free s f = covers true f (base, length).
Proof.
  intros Hu.
  assert (Hwp : wp (mark base length true;;
    for_range 0 BLOCK_COUNT (fun index =>
        free ← on_frames (count_set WORD (u64 (index * WORDS_PER_BLOCK)) WORDS_PER_BLOCK);
        set_free index free))
    (fun _ s => ready s /\ forall f, 0 <= f < MAX_FRAMES -> is_free s f = covers true f (base, length))
    pmm_init).
  { apply wp_bind, wp_mark; [apply init_frames_wf | done |]. intros s1 (b & -> & Hwb & Hb).
    apply wp_count_blocks.
    { split; [apply block_lists_init | done |]. intros i Hi []. exact Hi. }
    intros s' Hs' Hfr Hlk. split; [by split|]. intros f Hf. unfold is_free. rewrite Hfr.
    change (is_free (set_frames b pmm_init) f = covers true f (base, length)).
    rewrite Hb, init_frames_free by done. cbn [existsb]. rewrite orb_false_r.
    by destruct (covers true f (base, length)). }
  destruct (wp_elim _ _ _ Hwp) as (u & s & _ & Hs). by exists s.
Qed.

Definition example_boot : info :=
  set_memory_map (InplaceVector.Build_inplace_vector memory_region
    ({| region_base := 0; region_length := 0x800000; region_kind := USABLE |} ::
     replicate 127 memory_region_init) 1) info_init.

Lemma example_boot_typed : typed_info example_boot.
Proof.
  split; [|split].
  - destruct wf_info_init as [H1 H2 _ H4 H5 H6]. split; try done.
  - by repeat constructor.
  - cbn. by repeat constructor.
Qed.

Lemma init_allocator_correct_witness :
  typed_info example_boot /\
  wp (init_allocator example_boot) (fun r s' => r = Ok tt /\ is_free s' 1000 = true /\ is_free s' 300 = false)
    pmm_init.
Proof.
  split; [apply example_boot_typed|].
  eapply wp_mono; [apply (init_allocator_correct example_boot example_boot_typed)|].
  intros r s' (Hr & Hf & Hres). rewrite !Hf by (vm_compute; split; congruence).
  split; [|by vm_compute]. destruct r as [[]|e]; [done|]. destruct Hres as [_ Hno].
  specialize (Hno 1000 ltac:(vm_compute; split; congruence)). by vm_compute in Hno.
Defined.

Lemma example_run : exists s, ready s /\ available s (frames_in SIZE_2M) 512.
Proof.
  destruct (populated_state 0x100000 0x400000) as (s & Hs & Hfree); [by vm_compute|].
  exists s. split; [done|]. change (frames_in SIZE_2M) with 512.
  split; [lia|]. split; [by vm_compute|]. split; [done|]. intros g Hg.
  rewrite Hfree; [unfold covers; destruct_comparisons; lia || done|].
  change MAX_FRAMES with 4194304. lia.
Qed.

Lemma alloc_correct_witness :
  exists s, ready s /\ wp (alloc SIZE_2M) (fun r _ => exists address, r = Ok address) s.
Proof.
  destruct example_run as (s & Hs & Hav). exists s. split; [exact Hs|].
  eapply wp_mono; [apply (alloc_correct s SIZE_2M Hs); right; left; reflexivity|].
  intros [address|e] s' (_ & Hr); [by exists address|]. destruct Hr as (_ & _ & Hno).
  destruct (Hno 512 Hav).
Defined.

Lemma alloc_unsupported_witness :
  exists s, ready s /\ wp (alloc 13) (fun r s' => r = Err UNSUPPORTED_SIZE /\ s' = s) s.
Proof.
  destruct example_run as (s & Hs & Hav). exists s. split; [exact Hs|].
  apply (alloc_unsupported s 13 Hs). intros [H|[H|H]]; discriminate H.
Defined.

Lemma free_correct_witness :
  exists s, ready s /\ panics (free SIZE_2M (512 * 4096)) "pmm: double free of {} frames at {:#018X}" s.
Proof.
  destruct example_run as (s & Hs & Hav). exists s. split; [exact Hs|].
  refine (proj1 (proj2 (free_correct s SIZE_2M (512 * 4096) Hs _ _)) _ _).
  - right; left; reflexivity.
  - lia.
  - split; [reflexivity | by vm_compute].
  - exists 512. split; [by vm_compute|]. apply Hav. by vm_compute.
Defined.

Lemma alloc_free_roundtrip_witness :
  exists s, ready s /\ wp (r ← alloc SIZE_2M;
      match r with Ok address => free SIZE_2M address | Err _ => mret tt end)
     (fun _ s' => is_free s' 600 = true) s.
Proof.
  destruct example_run as (s & Hs & Hav). exists s. split; [exact Hs|].
  eapply wp_mono; [apply (alloc_free_roundtrip s SIZE_2M Hs); right; left; reflexivity|].
  intros _ s' (_ & Hf). rewrite Hf by (change MAX_FRAMES with 4194304; lia).
  apply Hav. change (frames_in SIZE_2M) with 512. lia.
Defined.
End PmmWitnesses.
