(* ===== verification/Radix.v ===== *)
(** * Radix: the page-table tree, [arch/common/mmu/radix_tree.hpp] and [traits.hpp]

    The tree is generic in a page format [F] and an environment [E], which are type classes here as
    they are concepts in the source.  The operations are those of [radix_tree<F, E>]; the theorems
    about them are proved from the laws of the two interfaces, in [RadixFacts]. *)

From S2P Require Import Prelude Bits Page.

(** ** The interfaces *)

(** [page_format]: how a virtual address indexes the tables and how an entry is encoded.  [split]
    fills a table, which it reaches through the writer it is given. *)
Class page_format : Type := {
  LEVELS : Z;
  ENTRIES : Z;
  index : Z -> Z -> Z;
  level_of : page_size -> Z;
  size_at : Z -> page_size;
  valid : Z -> bool;
  supports : page_size -> bool;
  present : Z -> bool;
  leaf : Z -> Z -> bool;
  address : Z -> Z;
  entry_prot : Z -> page_prot;
  table_entry : Z -> Z;
  leaf_entry : Z -> page_size -> page_prot -> Z;
  split : forall {S}, (Z -> Z -> kernel S unit) -> Z -> Z -> kernel S unit;
}.

(** A reference [u64 &] to an entry: the physical address of its table, and its index. *)
Definition slot : Type := Z * Z.

(** [page_env]: the memory that holds the tables, and where tables come from.  [read] and [write]
    are the accesses through the pointer that [at] returns. *)
Class page_env (S : Type) : Type := {
  read : slot -> kernel S Z;
  write : slot -> Z -> kernel S unit;
  alloc_table : kernel S (Result Z mm_error);
  free_table : Z -> kernel S unit;
  replace_entry : slot -> Z -> Z -> kernel S unit;
}.

(** [radix9<Levels>], the base of the formats with 512-entry tables. *)
Module Radix9.
Definition ENTRIES : Z := 512.
Definition index (level va : Z) : Z := Z.land (Z.shiftr va (u64 (3 + 9 * level))) 0x1FF.
Definition level_of (size : page_size) : Z := (shift_of size - 12) / 9 + 1.
Definition size_at (level : Z) : page_size := 12 + 9 * (level - 1).
End Radix9.

(** ** The tree *)
Section Radix.
Context `{F : page_format} {S : Type} `{E : page_env S}.

(** [m_root]. *)
Context (m_root : Z).

(** [walk_path]; an entry of [slots] that was not visited is null. *)
Record walk_path : Type := {
  slots : list (option slot);
  tables : list Z;
  reached_level : Z;
}.

Definition empty_path : walk_path := {|
  slots := replicate (Z.to_nat (LEVELS + 1)) None;
  tables := replicate (Z.to_nat (LEVELS + 1)) 0;
  reached_level := 0;
|}.

(** [*path.slots[level]], as a reference. *)
Definition slot_at (path : walk_path) (level : Z) : kernel S slot :=
  p ← observe (slots path) (array_get level);
  match p with Some s => mret s | None => undefined end.

Definition table_at_level (path : walk_path) (level : Z) : kernel S Z :=
  observe (tables path) (array_get level).

(** The three assignments to the path at the start of a step of [walk]. *)
Definition record_step (path : walk_path) (level table : Z) (s : slot) : kernel S walk_path :=
  sl ← local (slots path) (array_set level (Some s));
  ta ← local (tables path) (array_set level table);
  mret {| slots := snd sl; tables := snd ta; reached_level := level |}.

(** [leaf_size]; the loop has fuel [LEVELS + 1]. *)
Definition leaf_size (size : page_size) : kernel S page_size :=
  level ← while (Z.to_nat (LEVELS + 1))
    (fun level => mret ((1 <? level) && negb (supports (size_at level))))
    (fun level => mret (u64 (level - 1)))
    (level_of size);
  mret (size_at level).

Definition validate (va : Z) (size : page_size) (pa : Z) : Result Z mm_error :=
  if negb (valid va) || negb (Z.land (Z.lor va pa) (u64 (bytes_in size - 1)) =? 0)
  then Err INVALID_ADDRESS
  else Ok (level_of size).

Definition is_table_empty (table : Z) : kernel S bool :=
  r ← scan_range 0 ENTRIES (fun i =>
        entry ← read (table, i);
        mret (if negb (entry =? 0) then Some false else None));
  mret (match r with Some b => b | None => true end).

(** [walk]: one iteration per level, from the root down; fuel [LEVELS + 1]. *)
Fixpoint walk_loop (n : nat) (va target : Z) (allocate : bool) (level table : Z) (path : walk_path) :
    kernel S (Result walk_path mm_error) :=
  match n with
  | O => diverge
  | Datatypes.S n' =>
      let s := (table, index level va) in
      path ← record_step path level table s;
      if level =? target then mret (Ok path)
      else
        let descend :=
          entry ← read s;
          walk_loop n' va target allocate (u64 (level - 1)) (address entry) path in
        entry ← read s;
        if negb (present entry) then
          if negb allocate then mret (Err NOT_MAPPED)
          else
            child ←? alloc_table;
            replace_entry s (table_entry child) va;;
            descend
        else if leaf entry level then
          if negb allocate then mret (Ok path)
          else
            child ←? alloc_table;
            entry ← read s;
            split (fun i => write (child, i)) entry level;;
            replace_entry s (table_entry child) va;;
            descend
        else descend
  end.

Definition walk (va target : Z) (allocate : bool) : kernel S (Result walk_path mm_error) :=
  walk_loop (Z.to_nat (LEVELS + 1)) va target allocate LEVELS m_root empty_path.

Definition walk_to_leaf (va target : Z) : kernel S (Result walk_path mm_error) :=
  path ←? walk va target false;
  path ←? (if target <? reached_level path then walk va target true else mret (Ok path));
  s ← slot_at path target;
  entry ← read s;
  if negb (present entry) then mret (Err NOT_MAPPED)
  else if negb (leaf entry target) then mret (Err CONFLICT)
  else mret (Ok path).

(** [prune]: the loop returns at the first table that is not empty. *)
Definition prune (path : walk_path) (from_level va : Z) : kernel S unit :=
  scan_range from_level LEVELS (fun level =>
    table ← table_at_level path level;
    e ← is_table_empty table;
    if negb e then mret (Some tt)
    else
      s ← slot_at path (level + 1);
      replace_entry s 0 va;;
      free_table table;;
      mret None);;
  mret tt.

Definition map_leaf (va pa : Z) (size : page_size) (prot : page_prot) : kernel S (Result unit mm_error) :=
  target ←? mret (validate va size pa);
  path ←? walk va target true;
  let entry := leaf_entry pa size prot in
  s ← slot_at path target;
  old ← read s;
  if present old && negb (old =? entry) then mret (Err CONFLICT)
  else
    when (negb (present old)) (replace_entry s entry va);;
    mret (Ok tt).

Definition protect_leaf (va : Z) (size : page_size) (prot : page_prot) : kernel S (Result unit mm_error) :=
  target ←? mret (validate va size 0);
  path ←? walk_to_leaf va target;
  s ← slot_at path target;
  old ← read s;
  replace_entry s (leaf_entry (address old) size prot) va;;
  mret (Ok tt).

Definition split_at (boundary target : Z) : kernel S (Result unit mm_error) :=
  path ← walk boundary target false;
  match path with
  | Err _ => mret (Ok tt)
  | Ok path =>
      let level := reached_level path in
      if (target <? level) && negb (Z.land boundary (u64 (bytes_in (size_at level) - 1)) =? 0)
      then path ←? walk boundary target true; mret (Ok tt)
      else mret (Ok tt)
  end.

Definition remove_leaf (va : Z) : kernel S (Result mapping mm_error) :=
  if negb (valid va) then mret (Err INVALID_ADDRESS)
  else
    path ←? walk va 1 false;
    let level := reached_level path in
    s ← slot_at path level;
    entry ← read s;
    if negb (present entry) then mret (Err NOT_MAPPED)
    else
      let removed := {| frame := address entry; offset := 0; size := size_at level;
                        prot := entry_prot entry |} in
      replace_entry s 0 va;;
      prune path level va;;
      mret (Ok removed).

(** [for_each_leaf]; the loop has fuel [length / step + 2]. *)
Definition for_each_leaf (va length : Z) (size : page_size)
    (fn : Z -> Z -> page_size -> kernel S (Result unit mm_error)) : kernel S (Result unit mm_error) :=
  size ← leaf_size size;
  let step := bytes_in size in
  if (length =? 0) || negb (length mod step =? 0) then mret (Err INVALID_ADDRESS)
  else
    r ← while (Z.to_nat (length / step + 2))
      (fun '(offset, failed) => mret (match failed with Some _ => false | None => offset <? length end))
      (fun '(offset, _) =>
         r ← fn (u64 (va + offset)) offset size;
         mret (match r with Err e => (offset, Some e) | Ok _ => (u64 (offset + step), None) end))
      (0, None);
    mret (match snd r with Some e => Err e | None => Ok tt end).

Definition map_range (va pa length : Z) (size : page_size) (prot : page_prot) :
    kernel S (Result unit mm_error) :=
  for_each_leaf va length size (fun leaf offset leaf_sz => map_leaf leaf (u64 (pa + offset)) leaf_sz prot).

Definition protect_range (va length : Z) (size : page_size) (prot : page_prot) :
    kernel S (Result unit mm_error) :=
  for_each_leaf va length size (fun leaf _ leaf_sz => protect_leaf leaf leaf_sz prot).

(** [unmap_range]; the leaves it removes are at least frames: the loop has fuel
    [length / FRAME_SIZE + 2]. *)
Definition unmap_range (va length : Z) (size : page_size) (on_removed : mapping -> kernel S unit) :
    kernel S (Result unit mm_error) :=
  size ← leaf_size size;
  target ←? mret (validate va size 0);
  let end_ := u64 (va + length) in
  if (length =? 0) || negb (length mod bytes_in size =? 0) || (u64 (end_ - 1) <? va) ||
     negb (valid (u64 (end_ - 1)))
  then mret (Err INVALID_ADDRESS)
  else
    _ ←? split_at va target;
    _ ←? (if (va <? end_) && valid end_ then split_at end_ target else mret (Ok tt));
    r ← while (Z.to_nat (length / FRAME_SIZE + 2))
      (fun '(offset, failed) => mret (match failed with Some _ => false | None => offset <? length end))
      (fun '(offset, _) =>
         removed ← remove_leaf (u64 (va + offset));
         match removed with
         | Err e => mret (offset, Some e)
         | Ok removed =>
             on_removed removed;;
             mret (u64 (offset + bytes_in (Page.size removed)), None)
         end)
      (0, None);
    mret (match snd r with Some e => Err e | None => Ok tt end).

Definition translate (va : Z) : kernel S (Result mapping mm_error) :=
  if negb (valid va) then mret (Err INVALID_ADDRESS)
  else
    path ←? walk va 1 false;
    let level := reached_level path in
    s ← slot_at path level;
    entry ← read s;
    if negb (present entry) then mret (Err NOT_MAPPED)
    else
      let size := size_at level in
      mret (Ok {| frame := address entry; offset := Z.land va (u64 (bytes_in size - 1));
                  size := size; prot := entry_prot entry |}).
End Radix.
