(* ===== verification/RadixFacts.v ===== *)
(** * RadixFacts: what the tree operations do to translation

    The laws of the two interfaces of [Radix], the abstract view of a tree as a translation from
    valid addresses to physical addresses and protections, and the invariant under which the
    operations act on that view as their names say: no two paths share a table. *)

From S2P Require Import Prelude Bits Page Radix.

(** ** Laws of the page format *)

(** The bytes an entry of level [l] covers. *)
Definition span `{page_format} (l : Z) : Z := bytes_in (size_at l).

(** Two addresses go through the same entry of level [l] (through the root, above the top). *)
Definition same_page `{page_format} (l va va' : Z) : Prop :=
  LEVELS < l \/ va / span l = va' / span l.

(** An address a table may have. *)
Definition addressable (p : Z) : Prop := 0 <= p < 2 ^ 52 /\ p mod 4096 = 0.

Class page_format_laws `{F : page_format} : Type := {
  (** The protection an entry made with a given one has. *)
  effective_prot : page_prot -> page_prot;

  levels_range : 1 <= LEVELS < 16;
  entries_positive : ENTRIES = 512;
  span_one : span 1 = 4096;
  span_step l : 1 <= l < LEVELS -> span (l + 1) = ENTRIES * span l;
  span_top : span LEVELS < 2 ^ 52;
  span_pow l : 1 <= l <= LEVELS -> exists k, 0 <= k < 64 /\ bytes_in (size_at l) = 2 ^ k;

  index_range l va : 1 <= l <= LEVELS -> 0 <= va < 2 ^ 64 -> 0 <= index l va < ENTRIES;
  index_page l va va' :
    1 <= l <= LEVELS -> 0 <= va < 2 ^ 64 -> 0 <= va' < 2 ^ 64 ->
    valid va = true -> valid va' = true ->
    same_page l va va' <-> same_page (l + 1) va va' /\ index l va = index l va';
  index_offset l va :
    1 <= l < LEVELS -> 0 <= va < 2 ^ 64 ->
    va mod span (l + 1) = index l va * span l + va mod span l;
  valid_page l va va' :
    1 <= l <= LEVELS -> 0 <= va < 2 ^ 64 -> valid va = true -> va / span l = va' / span l ->
    0 <= va' < 2 ^ 64 /\ valid va' = true;
  level_of_size l : 1 <= l <= LEVELS -> level_of (size_at l) = l;

  present_zero : present 0 = false;
  leaf_one e : leaf e 1 = true;
  address_addressable e : addressable (address e);

  table_entry_ok p : addressable p ->
    present (table_entry p) = true /\ address (table_entry p) = p /\
    forall l, 1 < l <= LEVELS -> leaf (table_entry p) l = false;

  leaf_entry_ok l pa prot :
    1 <= l < LEVELS -> 0 <= pa < 2 ^ 52 -> pa mod span l = 0 ->
    let e := leaf_entry pa (size_at l) prot in
    present e = true /\ leaf e l = true /\ address e = pa /\ entry_prot e = effective_prot prot;

  (** The entries of a split: what they are, and that [split] writes them all. *)
  split_entry : Z -> Z -> Z -> Z;
  split_eq {S} (write : Z -> Z -> kernel S unit) e l :
    split write e l = for_range 0 ENTRIES (fun i => write i (split_entry e l i));
  split_entry_ok e l i :
    1 < l <= LEVELS -> 0 <= i < ENTRIES ->
    present e = true -> leaf e l = true -> address e mod span l = 0 -> address e + span l <= 2 ^ 52 ->
    let c := split_entry e l i in
    present c = true /\ leaf c (l - 1) = true /\
    address c = address e + i * span (l - 1) /\ entry_prot c = entry_prot e;
}.

(** ** Laws of the environment *)

Class page_env_laws {S : Type} `{E : page_env S} : Type := {
  (** The environment's own invariant, the entry [i] of the table at [p], and the tables that are in
      use: the allocator does not hand them out; a state with nothing left to hand out, the frames the
      allocator can hand out, and the tables that are never given back. *)
  env_inv : S -> Prop;
  exhausted : S -> Prop;
  word : S -> Z -> Z -> Z;
  owned : S -> Z -> Prop;
  spare : S -> Z -> Prop;
  pinned : Z -> Prop;

  owned_addressable s p : env_inv s -> owned s p -> addressable p;

  wp_read s p i Q :
    env_inv s -> owned s p -> 0 <= i < 512 -> Q (word s p i) s -> wp (read (p, i)) Q s;

  wp_write s p i x Q :
    env_inv s -> owned s p -> 0 <= i < 512 ->
    (forall s', env_inv s' -> (forall q, owned s' q <-> owned s q) ->
       (forall q j, owned s q -> 0 <= j < 512 ->
          word s' q j = if decide (q = p /\ j = i) then x else word s q j) ->
       (forall q, spare s q -> spare s' q) -> Q tt s') ->
    wp (write (p, i) x) Q s;

  wp_replace s p i x va Q :
    env_inv s -> owned s p -> 0 <= i < 512 ->
    (forall s', env_inv s' -> (forall q, owned s' q <-> owned s q) ->
       (forall q j, owned s q -> 0 <= j < 512 ->
          word s' q j = if decide (q = p /\ j = i) then x else word s q j) ->
       (forall q, spare s q -> spare s' q) -> Q tt s') ->
    wp (replace_entry (p, i) x va) Q s;

  wp_alloc_table s Q :
    env_inv s ->
    (forall p s', env_inv s' -> ~ owned s p -> owned s' p -> (forall q, owned s q -> owned s' q) ->
       (forall i, 0 <= i < 512 -> word s' p i = 0) ->
       (forall q j, owned s q -> 0 <= j < 512 -> word s' q j = word s q j) ->
       (forall q, spare s q -> spare s' q \/ q = p) -> Q (Ok p) s') ->
    (forall s', env_inv s' -> (forall q, owned s q -> owned s' q) ->
       (forall q j, owned s q -> 0 <= j < 512 -> word s' q j = word s q j) -> exhausted s' ->
       (forall q, spare s q -> spare s' q) -> Q (Err OUT_OF_MEMORY) s') ->
    wp alloc_table Q s;

  wp_free_table s p Q :
    env_inv s -> owned s p ->
    (forall s', env_inv s' -> (forall q, owned s q -> q <> p -> owned s' q) ->
       (forall q j, owned s q -> 0 <= j < 512 -> word s' q j = word s q j) ->
       (forall q, spare s q -> spare s' q) -> spare s' p \/ pinned p -> Q tt s') ->
    wp (free_table p) Q s;
}.

Section RadixFacts.
Context `{FL : page_format_laws} {S : Type} `{EL : page_env_laws S}.
Context (root : Z).

(** ** Addresses *)

Definition canonical (va : Z) : Prop := 0 <= va < 2 ^ 64 /\ valid va = true.

Lemma span_positive l : 1 <= l <= LEVELS -> 0 < span l.
Proof. intros Hl. destruct (span_pow l Hl) as (k & Hk & E0). unfold span. rewrite E0. apply pow2_pos. lia. Qed.

Lemma span_nonzero l : 1 <= l <= LEVELS -> span l <> 0.
Proof. intros Hl. pose proof (span_positive l Hl). lia. Qed.

Lemma span_below l : 1 < l <= LEVELS -> span l = 512 * span (l - 1).
Proof.
  intros Hl. replace l with (l - 1 + 1) at 1 by lia. rewrite span_step by lia. by rewrite entries_positive.
Qed.

Lemma span_mono l l' : 1 <= l <= l' -> l' <= LEVELS -> exists k, 0 < k /\ span l' = k * span l.
Proof.
  intros Hl Hl'. replace l' with (l + Z.of_nat (Z.to_nat (l' - l))) in * by lia.
  set (n := Z.to_nat (l' - l)) in *. clearbody n. clear l'.
  induction n as [|n IH]; [exists 1; split; [lia|]; rewrite Z.add_0_r; lia|].
  destruct IH as (k & Hk & E0); [lia..|]. exists (512 * k). split; [lia|].
  replace (l + Z.of_nat (Datatypes.S n)) with (l + Z.of_nat n + 1) by lia.
  rewrite span_step, entries_positive, E0 by lia. lia.
Qed.

Lemma span_le_top l : 1 <= l <= LEVELS -> span l < 2 ^ 52.
Proof.
  intros Hl. destruct (span_mono l LEVELS) as (k & Hk & E0); [lia..|].
  pose proof span_top. pose proof (span_positive l Hl). nia.
Qed.

Lemma page_index l va va' :
  1 <= l <= LEVELS -> canonical va -> canonical va' ->
  same_page l va va' <-> same_page (l + 1) va va' /\ index l va = index l va'.
Proof. intros Hl [Hr Hv] [Hr' Hv']. by apply index_page. Qed.

Lemma same_page_refl l va : same_page l va va.
Proof. by right. Qed.

Lemma same_page_sym l va va' : same_page l va va' -> same_page l va' va.
Proof. intros [|]; [by left | by right]. Qed.

Lemma same_page_trans l va va' va'' :
  same_page l va va' -> same_page l va' va'' -> same_page l va va''.
Proof. intros [|E1]; [by left|]. intros [|E2]; [by left|]. right. congruence. Qed.

Lemma same_page_up l l' va va' :
  1 <= l <= l' -> canonical va -> canonical va' -> same_page l va va' -> same_page l' va va'.
Proof.
  intros Hl Hva Hva' Hs.
  destruct (Z_lt_le_dec LEVELS l') as [|Hle]; [by left|].
  replace l' with (l + Z.of_nat (Z.to_nat (l' - l))) in * by lia.
  set (n := Z.to_nat (l' - l)) in *. clearbody n. clear l'.
  induction n as [|n IH]; [by rewrite Z.add_0_r|].
  replace (l + Z.of_nat (Datatypes.S n)) with (l + Z.of_nat n + 1) in * by lia.
  apply (page_index (l + Z.of_nat n) va va'); [lia | done..|]. apply IH; lia.
Qed.

Global Instance same_page_dec l va va' : Decision (same_page l va va').
Proof. unfold same_page. apply _. Defined.

(** ** The tables on the path to an address *)

(** An entry that leads to a table of the next level. *)
Definition links (e l : Z) : bool := present e && negb (leaf e l).

(** The table [n] levels below the root on the path to [va]. *)
Fixpoint table_below (s : S) (va : Z) (n : nat) : option Z :=
  match n with
  | O => Some root
  | Datatypes.S n' =>
      match table_below s va n' with
      | Some t =>
          let l := LEVELS - Z.of_nat n' in
          let e := word s t (index l va) in
          if links e l then Some (address e) else None
      | None => None
      end
  end.

Definition table_at (s : S) (va l : Z) : option Z := table_below s va (Z.to_nat (LEVELS - l)).

Lemma table_at_top s va : table_at s va LEVELS = Some root.
Proof. unfold table_at. by rewrite Z.sub_diag. Qed.

Lemma table_at_step s va l :
  1 < l <= LEVELS ->
  table_at s va (l - 1) =
  match table_at s va l with
  | Some t => let e := word s t (index l va) in if links e l then Some (address e) else None
  | None => None
  end.
Proof.
  intros Hl. unfold table_at. replace (Z.to_nat (LEVELS - (l - 1))) with (Datatypes.S (Z.to_nat (LEVELS - l))) by lia.
  cbn [table_below]. by replace (LEVELS - Z.of_nat (Z.to_nat (LEVELS - l))) with l by lia.
Qed.

(** Induction from the root down. *)
Lemma level_ind (P : Z -> Prop) :
  P LEVELS -> (forall l, 1 < l <= LEVELS -> P l -> P (l - 1)) -> forall l, 1 <= l <= LEVELS -> P l.
Proof.
  intros Htop Hstep l Hl. replace l with (LEVELS - Z.of_nat (Z.to_nat (LEVELS - l))) by lia.
  set (n := Z.to_nat (LEVELS - l)). assert (Z.of_nat n < LEVELS) by lia. clearbody n.
  induction n as [|n IH]; [by rewrite Z.sub_0_r|].
  replace (LEVELS - Z.of_nat (Datatypes.S n)) with (LEVELS - Z.of_nat n - 1) by lia.
  apply Hstep; [lia|]. apply IH. lia.
Qed.

Lemma table_at_above s va l l' t :
  1 <= l <= l' -> l' <= LEVELS -> table_at s va l = Some t -> exists t', table_at s va l' = Some t'.
Proof.
  intros Hl Hl'. replace l with (l' - Z.of_nat (Z.to_nat (l' - l))) in * by lia.
  set (n := Z.to_nat (l' - l)) in *. clearbody n. revert t. induction n as [|n IH]; intros t.
  - rewrite Z.sub_0_r. eauto.
  - replace (l' - Z.of_nat (Datatypes.S n)) with (l' - Z.of_nat n - 1) in * by lia.
    rewrite table_at_step by lia. destruct (table_at s va (l' - Z.of_nat n)) eqn:E0; [|done].
    intros _. apply (IH ltac:(lia) z). done.
Qed.

(** The path depends on the part of the address above the level only. *)
Lemma table_at_same s va va' l :
  canonical va -> canonical va' -> 1 <= l <= LEVELS -> same_page (l + 1) va va' ->
  table_at s va l = table_at s va' l.
Proof.
  intros Hva Hva' Hl. pattern l. apply level_ind; [| |exact Hl]; clear l Hl.
  - by rewrite !table_at_top.
  - intros l Hl IH Hs. replace (l - 1 + 1) with l in Hs by lia.
    apply page_index in Hs as [Hs' Hi]; [|lia|done|done]. rewrite !table_at_step by lia. by rewrite IH, Hi.
Qed.

(** ** The invariant *)

Record tree_ok (s : S) : Prop := {
  tree_env : env_inv s;
  (** Every table on a path is in use, *)
  tree_owned va l t : canonical va -> 1 <= l <= LEVELS -> table_at s va l = Some t -> owned s t;
  (** two paths to a table are the same path, *)
  tree_unshared va va' l l' t :
    canonical va -> canonical va' -> 1 <= l <= LEVELS -> 1 <= l' <= LEVELS ->
    table_at s va l = Some t -> table_at s va' l' = Some t -> l = l' /\ same_page (l + 1) va va';
  (** and every leaf maps an aligned page of physical memory. *)
  tree_leaves va l t :
    canonical va -> 1 <= l <= LEVELS -> table_at s va l = Some t ->
    let e := word s t (index l va) in
    present e = true -> leaf e l = true ->
    address e mod span l = 0 /\ address e + span l <= 2 ^ 52;
}.

(** ** The frames of the tree *)

(** A table of the tree, and a frame that is accounted for: a table, or in the allocator's hands. *)
Definition table_of (s : S) (p : Z) : Prop :=
  exists va l, canonical va /\ 1 <= l <= LEVELS /\ table_at s va l = Some p.

Definition held (s : S) (p : Z) : Prop := spare s p \/ table_of s p.

(** Nothing that was held is lost; a table that is pinned may be. *)
Definition conserves (s s' : S) : Prop := forall p, held s p -> held s' p.
Definition returns (s s' : S) : Prop := forall p, held s p -> held s' p \/ pinned p.

(** A table with no entry; and that none was left behind: below the root, a table that is blank was
    blank before. *)
Definition blank (s : S) (t : Z) : Prop := forall i, 0 <= i < 512 -> word s t i = 0.

Definition tidy (s s' : S) : Prop :=
  forall va l t, canonical va -> 1 <= l < LEVELS -> table_at s' va l = Some t -> blank s' t ->
    table_at s va l = Some t /\ blank s t.

Lemma conserves_refl s : conserves s s.
Proof. by intros p. Qed.

Lemma conserves_trans s1 s2 s3 : conserves s1 s2 -> conserves s2 s3 -> conserves s1 s3.
Proof. intros H1 H2 p Hp. by apply H2, H1. Qed.

Lemma conserves_returns s s' : conserves s s' -> returns s s'.
Proof. intros Hc p Hp. left. by apply Hc. Qed.

Lemma returns_trans s1 s2 s3 : returns s1 s2 -> returns s2 s3 -> returns s1 s3.
Proof. intros H1 H2 p Hp. destruct (H1 p Hp); [by apply H2 | by right]. Qed.

Lemma tidy_refl s : tidy s s.
Proof. by intros va l t. Qed.

Lemma tidy_trans s1 s2 s3 : tidy s1 s2 -> tidy s2 s3 -> tidy s1 s3.
Proof. intros H1 H2 va l t Hva Hl Ht Hb. destruct (H2 va l t Hva Hl Ht Hb). by apply H1. Qed.

(** ** The view: where an address is mapped *)

(** The walk of the hardware, from the table [t] of level [n]: the level and the entry of the leaf
    it ends in. *)
Fixpoint resolve (s : S) (va : Z) (n : nat) (t : Z) : option (Z * Z) :=
  match n with
  | O => None
  | Datatypes.S n' =>
      let l := Z.of_nat n in
      let e := word s t (index l va) in
      if negb (present e) then None
      else if leaf e l then Some (l, e)
      else resolve s va n' (address e)
  end.

Definition leaf_of (s : S) (va : Z) : option (Z * Z) := resolve s va (Z.to_nat LEVELS) root.

(** The physical address and the protection of an address. *)
Definition mapped (va : Z) (le : Z * Z) : Z * page_prot :=
  (address (snd le) + va mod span (fst le), entry_prot (snd le)).

Definition translation (s : S) (va : Z) : option (Z * page_prot) :=
  match leaf_of s va with Some le => Some (mapped va le) | None => None end.

Lemma resolve_step s va l t :
  1 <= l ->
  resolve s va (Z.to_nat l) t =
  let e := word s t (index l va) in
  if negb (present e) then None
  else if leaf e l then Some (l, e)
  else resolve s va (Z.to_nat (l - 1)) (address e).
Proof.
  intros Hl. replace (Z.to_nat l) with (Datatypes.S (Z.to_nat (l - 1))) by lia. cbn [resolve].
  by replace (Z.of_nat (Datatypes.S (Z.to_nat (l - 1)))) with l by lia.
Qed.

(** The view is what the walk finds from any table of the path. *)
Lemma leaf_of_via s va l t :
  1 <= l <= LEVELS -> table_at s va l = Some t -> leaf_of s va = resolve s va (Z.to_nat l) t.
Proof.
  intros Hl. revert t. pattern l. apply level_ind; [| |exact Hl]; clear l Hl.
  - intros t Ht. rewrite table_at_top in Ht. by injection Ht as <-.
  - intros l Hl IH t Ht. rewrite table_at_step in Ht by lia.
    destruct (table_at s va l) as [t'|]; [|done]. rewrite (IH t' eq_refl), resolve_step by lia.
    cbv zeta in *. unfold links in Ht.
    destruct (present _); [|done]. destruct (leaf _ _); [done|]. by injection Ht as <-.
Qed.

(** The leaf of an address is an entry of a table of its path. *)
Lemma leaf_of_table s va l e :
  leaf_of s va = Some (l, e) ->
  1 <= l <= LEVELS /\ present e = true /\ leaf e l = true /\
  exists t, table_at s va l = Some t /\ e = word s t (index l va).
Proof.
  unfold leaf_of. pose proof levels_range.
  assert (Hgen : forall n t, (Z.of_nat n <= LEVELS) ->
    table_at s va (Z.of_nat n) = Some t \/ n = O -> resolve s va n t = Some (l, e) ->
    1 <= l <= LEVELS /\ present e = true /\ leaf e l = true /\
    exists t, table_at s va l = Some t /\ e = word s t (index l va)).
  { induction n as [|n IH]; intros t Hn Ht; [done|]. destruct Ht as [Ht|]; [|done].
    cbn [resolve]. cbv zeta. set (w := word s t _).
    destruct (present w) eqn:Hp; cbn [negb]; [|discriminate]. destruct (leaf w _) eqn:Hlf.
    - intros [= <- <-]. split; [lia|]. split; [done|]. split; [done|]. by exists t.
    - apply IH; [lia|]. destruct (Z.eq_dec (Z.of_nat n) 0); [right; lia|]. left.
      replace (Z.of_nat n) with (Z.of_nat (Datatypes.S n) - 1) by lia.
      rewrite table_at_step, Ht by lia. cbv zeta. unfold links. fold w. by rewrite Hp, Hlf. }
  apply Hgen; [lia|]. left. rewrite Z2Nat.id by lia. apply table_at_top.
Qed.

(** ** Writing an entry *)

(** [s'] is [s] with the entry of level [l] of [va], in table [t], set to [e].  Tables that are
    not in use in [s] may differ. *)
Record entry_set (s s' : S) (va l t e : Z) : Prop := {
  set_env : env_inv s';
  set_owned q : owned s q -> owned s' q;
  set_word q j : owned s q -> 0 <= j < 512 ->
    word s' q j = if decide (q = t /\ j = index l va) then e else word s q j;
  set_spare q : spare s q -> spare s' q;
}.

Lemma index_bounds l va : 1 <= l <= LEVELS -> canonical va -> 0 <= index l va < 512.
Proof. intros Hl [Hr _]. pose proof (index_range l va Hl Hr). rewrite entries_positive in H. done. Qed.

Section EntrySet.
Context (s s' : S) (va l t e : Z).
Context (Hok : tree_ok s) (Hva : canonical va) (Hl : 1 <= l <= LEVELS).
Context (Ht : table_at s va l = Some t) (Hset : entry_set s s' va l t e).

(** The entry another path uses is the written one only where the paths coincide. *)
Lemma set_other va' l' t' :
  canonical va' -> 1 <= l' <= LEVELS -> table_at s va' l' = Some t' ->
  (l' <> l \/ ~ same_page l va va') ->
  word s' t' (index l' va') = word s t' (index l' va').
Proof.
  intros Hva' Hl' Ht' Hne. rewrite (set_word _ _ _ _ _ _ Hset).
  - case_decide as Hd; [|done]. destruct Hd as [-> Hi]. exfalso.
    destruct (tree_unshared s Hok va' va l' l t) as [-> Hs]; [done..|].
    destruct Hne as [|Hne]; [done|]. apply Hne, same_page_sym. by apply page_index.
  - by eapply tree_owned.
  - by apply index_bounds.
Qed.

Lemma set_here : word s' t (index l va) = e.
Proof.
  rewrite (set_word _ _ _ _ _ _ Hset); [by rewrite decide_True | by eapply tree_owned | by apply index_bounds].
Qed.

(** Tables at or above the level of the entry, and tables of other pages, are where they were. *)
Lemma set_tables_kept va' l' :
  canonical va' -> 1 <= l' <= LEVELS -> l <= l' \/ ~ same_page l va va' ->
  table_at s' va' l' = table_at s va' l'.
Proof.
  intros Hva' Hl'. pattern l'. apply level_ind; [| |exact Hl']; clear l' Hl'.
  - by rewrite !table_at_top.
  - intros k Hk IH Hor. rewrite !table_at_step by lia.
    rewrite IH by (destruct Hor; [left; lia | by right]).
    destruct (table_at s va' k) as [t'|] eqn:Ht'; [|done]. cbv zeta.
    rewrite (set_other va' k t'); [done | done | lia | done |].
    destruct Hor as [|]; [left; lia | by right].
Qed.

(** At the entry's own pages the walk continues as the new entry says. *)
Lemma set_table_below va' :
  canonical va' -> same_page l va va' -> 1 < l ->
  table_at s' va' (l - 1) = if links e l then Some (address e) else None.
Proof.
  intros Hva' Hs Hl1. rewrite table_at_step by lia.
  rewrite set_tables_kept by (try done; try lia; left; lia).
  apply page_index in Hs as [Hs' Hi]; [|done..]. rewrite <- (table_at_same s va va' l) by done.
  rewrite Ht. cbv zeta. by rewrite <- Hi, set_here.
Qed.

(** Other pages are resolved as before. *)
Lemma set_leaf_other va' :
  canonical va' -> ~ same_page l va va' -> leaf_of s' va' = leaf_of s va'.
Proof.
  intros Hva' Hne. unfold leaf_of.
  assert (Hgen : forall n t', (Z.of_nat n <= LEVELS) ->
    table_at s va' (Z.of_nat n) = Some t' \/ n = O -> resolve s' va' n t' = resolve s va' n t').
  { induction n as [|n IH]; intros t' Hn Hor; [done|]. destruct Hor as [Ht'|]; [|done].
    cbn [resolve]. rewrite (set_other va' _ t') by (done || lia || by right). cbv zeta.
    destruct (present _) eqn:Hp; [|done]. cbn [negb].
    destruct (leaf _ _) eqn:Hlf; [done|]. apply IH; [lia|].
    destruct (Z.eq_dec (Z.of_nat n) 0); [right; lia|]. left.
    replace (Z.of_nat n) with (Z.of_nat (Datatypes.S n) - 1) by lia.
    rewrite table_at_step, Ht' by lia. cbv zeta. unfold links. by rewrite Hp, Hlf. }
  apply Hgen; [pose proof levels_range; lia|]. left. pose proof levels_range.
  rewrite Z2Nat.id by lia. apply table_at_top.
Qed.

(** The entry's own pages are resolved through the new entry. *)
Lemma set_leaf_here va' :
  canonical va' -> same_page l va va' ->
  leaf_of s' va' =
  if negb (present e) then None
  else if leaf e l then Some (l, e)
  else resolve s' va' (Z.to_nat (l - 1)) (address e).
Proof.
  intros Hva' Hs. rewrite (leaf_of_via s' va' l t); [| done |].
  - rewrite resolve_step by lia. cbv zeta.
    apply page_index in Hs as [_ <-]; [|done..]. by rewrite set_here.
  - rewrite set_tables_kept by (done || (left; lia)).
    apply page_index in Hs as [Hs' _]; [|done..]. by rewrite <- (table_at_same s va va' l).
Qed.

(** An entry that is a leaf, or nothing, ends the walk: the tree loses tables, and gains none. *)
Lemma set_tables_subset va' l' t' :
  links e l = false \/ l = 1 ->
  canonical va' -> 1 <= l' <= LEVELS -> table_at s' va' l' = Some t' -> table_at s va' l' = Some t'.
Proof.
  intros Hend Hva' Hl' Ht'.
  destruct (decide (l <= l')) as [Hle|Hgt]; [rewrite <- set_tables_kept by (done || (left; lia)); done|].
  destruct (decide (same_page l va va')) as [Hs|Hs];
    [exfalso | by rewrite <- set_tables_kept by (done || by right)].
  destruct (table_at_above s' va' l' (l - 1) t') as (t'' & Ht''); [lia..|done|].
  rewrite set_table_below in Ht'' by (done || lia).
  destruct Hend as [E0|]; [by rewrite E0 in Ht'' | lia].
Qed.

Lemma set_end_ok :
  links e l = false \/ l = 1 ->
  (present e = true -> leaf e l = true -> address e mod span l = 0 /\ address e + span l <= 2 ^ 52) ->
  tree_ok s'.
Proof.
  intros Hend Hleaf. pose proof set_tables_subset as Hsub. split.
  - apply Hset.
  - intros va' l' t' Hva' Hl' Ht'. apply (set_owned _ _ _ _ _ _ Hset).
    eapply (tree_owned s Hok); [exact Hva' | exact Hl' | by eapply Hsub].
  - intros va1 va2 l1 l2 t' H1 H2 H3 H4 H5 H6.
    eapply (tree_unshared s Hok); [done.. | by eapply Hsub | by eapply Hsub].
  - intros va' l' t' Hva' Hl' Ht'. cbv zeta.
    pose proof (Hsub _ _ _ Hend Hva' Hl' Ht') as Ht0.
    destruct (decide (l' = l /\ same_page l va va')) as [[-> Hs]|Hne].
    + apply page_index in Hs as [Hs' Hi]; [|done..]. rewrite <- Hi.
      assert (t' = t) as ->; [|by rewrite set_here].
      rewrite <- (table_at_same s va va' l) in Ht0 by done. congruence.
    + rewrite (set_other va' l' t'); [by apply (tree_leaves s Hok) | done.. |].
      destruct (decide (l' = l)); [right; tauto | by left].
Qed.

(** The tables after an entry that ended the walk was replaced are still there. *)
Lemma set_tables_held p : links (word s t (index l va)) l = false -> table_of s p -> table_of s' p.
Proof.
  intros Hold (va' & l' & Hva' & Hl' & Ht'). exists va', l'. split; [done|]. split; [done|].
  destruct (decide (l <= l')) as [Hle|Hgt]; [rewrite set_tables_kept by (done || (left; lia)); done|].
  destruct (decide (same_page l va va')) as [Hs|Hs]; [exfalso | by rewrite set_tables_kept by (done || by right)].
  destruct (table_at_above s va' l' (l - 1) p) as (t'' & Ht''); [lia..|done|].
  apply page_index in Hs as [Hs' Hi]; [|done..].
  rewrite table_at_step, <- (table_at_same s va va' l), Ht in Ht'' by (done || lia). cbv zeta in Ht''.
  by rewrite <- Hi, Hold in Ht''.
Qed.

Lemma set_conserves : links (word s t (index l va)) l = false -> conserves s s'.
Proof.
  intros Hold p [Hp|Hp]; [left; by apply (set_spare _ _ _ _ _ _ Hset) | right; by apply set_tables_held].
Qed.

(** Blank tables, apart from the one that was written, were blank before. *)
Lemma set_blank t' : owned s t' -> t' <> t -> blank s' t' -> blank s t'.
Proof.
  intros Ho Hne Hb i Hi. rewrite <- (Hb i Hi), (set_word _ _ _ _ _ _ Hset) by done.
  rewrite decide_False; [done | by intros []].
Qed.

Lemma set_not_blank : e <> 0 -> ~ blank s' t.
Proof. intros He Hb. apply He. rewrite <- set_here. apply Hb. by apply index_bounds. Qed.

Lemma set_end_tidy : links e l = false \/ l = 1 -> e <> 0 -> tidy s s'.
Proof.
  intros Hend He va' l' t' Hva' Hl' Ht' Hb.
  pose proof (set_tables_subset va' l' t' Hend Hva' ltac:(lia) Ht') as H0. split; [done|].
  apply set_blank; [by apply (tree_owned s Hok va' l'); [|lia|] | | done].
  intros ->. by apply set_not_blank.
Qed.

(** Linking a table whose own entries end the walk: the tree gains that table alone. *)
Lemma set_link_tables child va' l' t' :
  1 < l -> links e l = true -> address e = child ->
  (forall i, 0 <= i < 512 -> links (word s' child i) (l - 1) = false \/ l - 1 = 1) ->
  canonical va' -> 1 <= l' <= LEVELS -> table_at s' va' l' = Some t' ->
  (table_at s va' l' = Some t' /\ (l' <> l - 1 \/ ~ same_page l va va')) \/
  (l' = l - 1 /\ same_page l va va' /\ t' = child).
Proof.
  intros Hl1 Hlink Hchild Hend Hva' Hl' Ht'.
  destruct (decide (l <= l')) as [Hle|Hgt].
  { left. rewrite <- set_tables_kept by (done || (left; lia)). split; [done | left; lia]. }
  destruct (decide (same_page l va va')) as [Hs|Hs].
  2: { left. rewrite <- set_tables_kept by (done || by right). split; [done | by right]. }
  right. pose proof (set_table_below va' Hva' Hs Hl1) as Hb. rewrite Hlink, Hchild in Hb.
  destruct (decide (l' = l - 1)) as [->|Hne]; [split; [done|]; split; [done | congruence]|].
  exfalso. destruct (table_at_above s' va' l' (l - 1 - 1) t') as (t2 & Ht2); [lia..|done|].
  rewrite table_at_step, Hb in Ht2 by lia. cbv zeta in Ht2.
  pose proof (index_bounds (l - 1) va' ltac:(lia) Hva') as Hi.
  destruct (Hend _ Hi) as [E0|]; [|lia]. by rewrite E0 in Ht2.
Qed.

(** Linking a table that is not in the tree and whose own entries end the walk. *)
Lemma set_link_ok child :
  1 < l -> links e l = true -> address e = child -> owned s' child ->
  (forall va' l', canonical va' -> 1 <= l' <= LEVELS -> table_at s va' l' <> Some child) ->
  (forall i, 0 <= i < 512 -> links (word s' child i) (l - 1) = false \/ l - 1 = 1) ->
  (forall i, 0 <= i < 512 -> present (word s' child i) = true -> leaf (word s' child i) (l - 1) = true ->
     address (word s' child i) mod span (l - 1) = 0 /\
     address (word s' child i) + span (l - 1) <= 2 ^ 52) ->
  tree_ok s'.
Proof.
  intros Hl1 Hlink Hchild Hown Hnew Hend Hleaves.
  pose proof (fun va' l' t' => set_link_tables child va' l' t' Hl1 Hlink Hchild Hend) as Hcases.
  split.
  - apply Hset.
  - intros va' l' t' Hva' Hl' Ht'. destruct (Hcases _ _ _ Hva' Hl' Ht') as [[H0 _]|(-> & _ & ->)]; [|done].
    apply (set_owned _ _ _ _ _ _ Hset). by eapply (tree_owned s Hok).
  - intros va1 va2 l1 l2 t' H1 H2 H3 H4 H5 H6.
    destruct (Hcases _ _ _ H1 H3 H5) as [[H7 _]|(-> & H7 & ->)],
      (Hcases _ _ _ H2 H4 H6) as [[H8 _]|(-> & H8 & E1)].
    + by eapply (tree_unshared s Hok).
    + subst t'. by destruct (Hnew _ _ H1 H3).
    + by destruct (Hnew _ _ H2 H4).
    + split; [done|]. replace (l - 1 + 1) with l by lia.
      eapply same_page_trans; [by apply same_page_sym | done].
  - intros va' l' t' Hva' Hl' Ht'. cbv zeta.
    destruct (Hcases _ _ _ Hva' Hl' Ht') as [[H0 Hne]|(-> & Hs & ->)]; cycle 1.
    { apply Hleaves. by apply index_bounds. }
    destruct (decide (l' = l /\ same_page l va va')) as [[-> Hs]|Hd].
    + apply page_index in Hs as [Hs' Hi]; [|done..]. rewrite <- Hi.
      assert (t' = t) as ->; [rewrite <- (table_at_same s va va' l) in H0 by done; congruence|].
      rewrite set_here. intros Hp Hlf. unfold links in Hlink. by rewrite Hlf, andb_false_r in Hlink.
    + rewrite (set_other va' l' t'); [by apply (tree_leaves s Hok) | done.. |].
      destruct (decide (l' = l)); [right; tauto | by left].
Qed.
End EntrySet.

(** ** Refinement: the same translation, through pages that are no larger *)

Definition refines (s s' : S) : Prop :=
  forall va, canonical va ->
    translation s' va = translation s va /\
    forall l' e', leaf_of s' va = Some (l', e') -> exists l e, leaf_of s va = Some (l, e) /\ l' <= l.

Lemma refines_refl s : refines s s.
Proof. intros va _. split; [done|]. intros l e He. exists l, e. split; [done | lia]. Qed.

Lemma refines_trans s1 s2 s3 : refines s1 s2 -> refines s2 s3 -> refines s1 s3.
Proof.
  intros H12 H23 va Hva. destruct (H12 va Hva) as [T12 L12], (H23 va Hva) as [T23 L23].
  split; [congruence|]. intros l3 e3 H3. destruct (L23 _ _ H3) as (l2 & e2 & H2 & Hle2).
  destruct (L12 _ _ H2) as (l1 & e1 & H1 & Hle1). exists l1, e1. split; [done | lia].
Qed.

(** Memory outside the tables in use may change. *)
Lemma tables_agree s s' va l :
  tree_ok s -> canonical va -> 1 <= l <= LEVELS ->
  (forall q j, owned s q -> 0 <= j < 512 -> word s' q j = word s q j) ->
  table_at s' va l = table_at s va l.
Proof.
  intros Hok Hva Hl Hw. pattern l. apply level_ind; [| |exact Hl]; clear l Hl.
  - by rewrite !table_at_top.
  - intros l Hl IH. rewrite !table_at_step, IH by lia.
    destruct (table_at s va l) as [t|] eqn:Ht; [|done]. cbv zeta.
    rewrite Hw; [done | apply (tree_owned s Hok va l); [done | lia | done] | apply index_bounds; [lia | done]].
Qed.

Lemma agree_ok s s' :
  tree_ok s -> env_inv s' ->
  (forall va l t, canonical va -> 1 <= l <= LEVELS -> table_at s va l = Some t -> owned s' t) ->
  (forall q j, owned s q -> 0 <= j < 512 -> word s' q j = word s q j) ->
  tree_ok s' /\ (forall va, canonical va -> leaf_of s' va = leaf_of s va).
Proof.
  intros Hok He Ho Hw.
  assert (Ht : forall va l, canonical va -> 1 <= l <= LEVELS -> table_at s' va l = table_at s va l)
    by (intros; by apply tables_agree).
  assert (Hword : forall va l t, canonical va -> 1 <= l <= LEVELS -> table_at s va l = Some t ->
    word s' t (index l va) = word s t (index l va)).
  { intros va l t Hva Hl Hta. apply Hw; [by eapply (tree_owned s Hok) | by apply index_bounds]. }
  split; [split|].
  - done.
  - intros va l t Hva Hl. rewrite Ht by done. by apply Ho.
  - intros va va' l l' t Hva Hva' Hl Hl'. rewrite !Ht by done. by apply (tree_unshared s Hok).
  - intros va l t Hva Hl. rewrite Ht by done. intros Hta. cbv zeta. rewrite (Hword va) by done.
    by apply (tree_leaves s Hok).
  - intros va Hva. pose proof levels_range. unfold leaf_of.
    assert (Hgen : forall n t, (Z.of_nat n <= LEVELS) ->
      table_at s va (Z.of_nat n) = Some t \/ n = O -> resolve s' va n t = resolve s va n t).
    { induction n as [|n IH]; intros t Hn Hta; [done|]. destruct Hta as [Hta|]; [|done].
      cbn [resolve]. rewrite (Hword va) by (done || lia). cbv zeta.
      destruct (present _) eqn:Hp; [|done]. cbn [negb]. destruct (leaf _ _) eqn:Hlf; [done|].
      apply IH; [lia|]. destruct (Z.eq_dec (Z.of_nat n) 0); [right; lia|]. left.
      replace (Z.of_nat n) with (Z.of_nat (Datatypes.S n) - 1) by lia.
      rewrite table_at_step, Hta by lia. cbv zeta. unfold links. by rewrite Hp, Hlf. }
    apply Hgen; [lia|]. left. rewrite Z2Nat.id by lia. apply table_at_top.
Qed.

Lemma leaf_of_refines s s' :
  (forall va, canonical va -> leaf_of s' va = leaf_of s va) -> refines s s'.
Proof.
  intros Heq va Hva. unfold translation. rewrite Heq by done. split; [done|].
  intros l e He. exists l, e. split; [done | lia].
Qed.

(** ** The path a walk records *)

Record path_ok (s : S) (va : Z) (path : walk_path) (lo : Z) : Prop := {
  path_slots : zlen (slots path) = LEVELS + 1;
  path_tables : zlen (tables path) = LEVELS + 1;
  path_at l : lo <= l <= LEVELS -> exists t,
    table_at s va l = Some t /\ znth (slots path) l = Some (t, index l va) /\ znth (tables path) l = t;
}.

Lemma path_ok_kept s s' va path lo :
  (forall l, lo <= l <= LEVELS -> table_at s' va l = table_at s va l) ->
  path_ok s va path lo -> path_ok s' va path lo.
Proof.
  intros Heq [Hs Ht Hp]. split; [done..|]. intros l Hl. destruct (Hp l Hl) as (t & H1 & H2 & H3).
  exists t. by rewrite Heq.
Qed.

Lemma path_ok_empty s va : path_ok s va empty_path (LEVELS + 1).
Proof.
  pose proof levels_range. split; cbn [slots tables empty_path].
  - apply zlen_replicate. lia.
  - apply zlen_replicate. lia.
  - lia.
Qed.

Lemma wp_record_step s va path l t (Q : walk_path -> S -> Prop) :
  1 <= l <= LEVELS -> path_ok s va path (l + 1) -> table_at s va l = Some t ->
  (forall path', path_ok s va path' l -> reached_level path' = l -> Q path' s) ->
  wp (record_step path l t (t, index l va)) Q s.
Proof.
  intros Hl [Hs Ht Hp] Hta HQ. unfold record_step. wp_steps. apply wp_array_set; [lia|]. wp_steps.
  apply wp_array_set; [lia|]. wp_steps. apply HQ; [|done].
  split; cbn [slots tables fst snd]; autorewrite with arrays; [done..|].
  intros k Hk. rewrite !znth_zset by lia. destruct (Z.eqb_spec l k) as [<-|]; [by exists t|].
  apply Hp. lia.
Qed.

Lemma wp_slot_at s va path lo l (Q : slot -> S -> Prop) :
  path_ok s va path lo -> 0 <= lo <= l -> l <= LEVELS ->
  (forall t, table_at s va l = Some t -> Q (t, index l va) s) -> wp (slot_at path l) Q s.
Proof.
  intros [Hs Ht Hp] Hlo Hl HQ. destruct (Hp l ltac:(lia)) as (t & H1 & H2 & H3).
  unfold slot_at. wp_steps. apply wp_array_get; [lia|]. rewrite H2. wp_steps. by apply HQ.
Qed.

Lemma wp_table_at s va path lo l (Q : Z -> S -> Prop) :
  path_ok s va path lo -> 0 <= lo <= l -> l <= LEVELS ->
  (forall t, table_at s va l = Some t -> Q t s) -> wp (table_at_level path l) Q s.
Proof.
  intros [Hs Ht Hp] Hlo Hl HQ. destruct (Hp l ltac:(lia)) as (t & H1 & H2 & H3).
  unfold table_at_level. wp_steps. apply wp_array_get; [lia|]. rewrite H3. by apply HQ.
Qed.

(** Reading the entry of a path. *)
Lemma wp_read_path s va l t (Q : Z -> S -> Prop) :
  tree_ok s -> canonical va -> 1 <= l <= LEVELS -> table_at s va l = Some t ->
  Q (word s t (index l va)) s -> wp (read (t, index l va)) Q s.
Proof.
  intros Hok Hva Hl Ht HQ. apply wp_read; [apply Hok | by eapply (tree_owned s Hok) | by apply index_bounds | done].
Qed.

Lemma u64_level l : 1 <= l <= LEVELS -> u64 (l - 1) = l - 1.
Proof. intros Hl. pose proof levels_range. apply wrap_small. split; lia. Qed.

(** ** A walk that allocates nothing *)

Definition found (s : S) (va target : Z) (r : Result walk_path mm_error) : Prop :=
  match r with
  | Ok path => target <= reached_level path <= LEVELS /\ path_ok s va path (reached_level path) /\
      (target < reached_level path -> exists e, leaf_of s va = Some (reached_level path, e))
  | Err e => e = NOT_MAPPED /\ leaf_of s va = None
  end.

Lemma wp_walk_find_loop n s va target l t path (Q : Result walk_path mm_error -> S -> Prop) :
  tree_ok s -> canonical va -> 1 <= target <= l -> l <= LEVELS -> l - target < Z.of_nat n ->
  table_at s va l = Some t -> path_ok s va path (l + 1) ->
  (forall r, found s va target r -> Q r s) ->
  wp (walk_loop n va target false l t path) Q s.
Proof.
  revert l t path. induction n as [|n IH]; intros l t path Hok Hva Htg Hl Hn Ht Hp HQ; [lia|].
  cbn [walk_loop]. apply wp_bind. eapply wp_record_step; [lia | done | done |].
  intros path' Hp' Hr'. destruct (Z.eqb_spec l target) as [->|Hne].
  { wp_steps. apply HQ. cbn. rewrite Hr'. split; [lia|]. split; [done | lia]. }
  apply wp_bind. apply wp_read_path; [done | done | lia | done |].
  pose proof (leaf_of_via s va l t ltac:(lia) Ht) as Hleaf. rewrite resolve_step in Hleaf by lia.
  cbv zeta in Hleaf. set (e := word s t (index l va)) in *.
  destruct (present e) eqn:Hpr; cbn [negb] in *; [|by wp_steps; apply HQ].
  destruct (leaf e l) eqn:Hlf.
  - wp_steps. apply HQ. cbn. rewrite Hr'. split; [lia|]. split; [done|]. intros _. by exists e.
  - apply wp_bind. apply wp_read_path; [done | done | lia | done |]. fold e. rewrite u64_level by lia.
    apply IH; [done | done | lia | lia | lia | | | done].
    + rewrite table_at_step, Ht by lia. cbv zeta. fold e. unfold links. by rewrite Hpr, Hlf.
    + by replace (l - 1 + 1) with l by lia.
Qed.

Lemma wp_walk_find s va target (Q : Result walk_path mm_error -> S -> Prop) :
  tree_ok s -> canonical va -> 1 <= target <= LEVELS ->
  (forall r, found s va target r -> Q r s) -> wp (walk root va target false) Q s.
Proof.
  intros Hok Hva Htg HQ. unfold walk.
  apply wp_walk_find_loop; [done | done | lia | lia | lia | apply table_at_top | apply path_ok_empty | done].
Qed.

(** ** What an operation on one address does to the tables *)

(** Nothing held is lost, new tables are on the path to [va], and when [va] was mapped no blank table
    was added. *)
Record spread (s s' : S) (va : Z) : Prop := {
  spread_held : conserves s s';
  spread_tables va' l t : canonical va' -> 1 <= l <= LEVELS -> table_at s' va' l = Some t ->
    table_at s va' l = Some t \/ same_page (l + 1) va va';
  spread_tidy : leaf_of s va <> None -> tidy s s';
}.

Lemma spread_refl s va : spread s s va.
Proof. split; [apply conserves_refl | by left | intros _; apply tidy_refl]. Qed.

Lemma refines_mapped s s' va : canonical va -> refines s s' -> leaf_of s va <> None -> leaf_of s' va <> None.
Proof.
  intros Hva Hr Hm Hno. destruct (Hr va Hva) as [Ht _]. unfold translation in Ht. rewrite Hno in Ht.
  by destruct (leaf_of s va).
Qed.

Lemma spread_trans s s1 s2 va :
  canonical va -> refines s s1 -> spread s s1 va -> spread s1 s2 va -> spread s s2 va.
Proof.
  intros Hva Hr [H1 T1 N1] [H2 T2 N2]. split.
  - by eapply conserves_trans.
  - intros va' l t Hva' Hl Ht. destruct (T2 va' l t Hva' Hl Ht) as [Ht1|]; [by apply T1 | by right].
  - intros Hm. eapply tidy_trans; [by apply N1 | apply N2; by apply (refines_mapped s)].
Qed.

(** Frames were taken or set aside at most. *)
Lemma agree_spread s s' va :
  tree_ok s -> (forall q j, owned s q -> 0 <= j < 512 -> word s' q j = word s q j) ->
  (forall q, spare s q -> spare s' q) -> spread s s' va.
Proof.
  intros Hok Hw Ha.
  assert (Ht : forall va l, canonical va -> 1 <= l <= LEVELS -> table_at s' va l = table_at s va l)
    by (intros; by apply tables_agree).
  split.
  - intros p [Hp|(x & l & Hx & Hl & Hp)]; [left; by apply Ha | right]. exists x, l. by rewrite Ht.
  - intros x l t Hx Hl. rewrite Ht by done. by left.
  - intros _ x l t Hx Hl. rewrite Ht by (done || lia). intros Hxt Hb. split; [done|]. intros i Hi.
    rewrite <- (Hb i Hi), Hw; [done | by apply (tree_owned s Hok x l); [|lia|] | done].
Qed.

(** ** Linking a table *)

(** [s'] is [s] with a table set aside and filled: nothing of the tree has changed. *)
Record prepared (s s' : S) (child : Z) : Prop := {
  prep_env : env_inv s';
  prep_owned q : owned s q -> owned s' q;
  prep_word q j : owned s q -> 0 <= j < 512 -> word s' q j = word s q j;
  prep_fresh : ~ owned s child;
  prep_child : owned s' child;
  prep_spare q : spare s q -> spare s' q \/ q = child;
}.

(** What filling a table in place of the entry [e] of level [l] must keep. *)
Definition stands_for (l e va c : Z) : Prop :=
  if present c then
    leaf c (l - 1) = true /\ present e = true /\ leaf e l = true /\ mapped va (l - 1, c) = mapped va (l, e)
  else present e = false.

Lemma stands_ends l e va c : stands_for l e va c -> links e l = false.
Proof.
  unfold stands_for, links. destruct (present c).
  - intros (_ & _ & -> & _). apply andb_false_r.
  - by intros ->.
Qed.

(** Linking the child: the tables it adds and the frames it keeps. *)
Lemma link_spread s s1 s2 va l t child :
  tree_ok s -> tree_ok s1 -> canonical va -> 1 < l <= LEVELS -> table_at s va l = Some t ->
  prepared s s1 child ->
  (forall va' l', canonical va' -> 1 <= l' <= LEVELS -> table_at s1 va' l' = table_at s va' l') ->
  stands_for l (word s t (index l va)) va (word s1 child (index (l - 1) va)) ->
  (forall i, 0 <= i < 512 -> present (word s1 child i) = true -> leaf (word s1 child i) (l - 1) = true) ->
  (forall i, 0 <= i < 512 -> word s2 child i = word s1 child i) ->
  entry_set s1 s2 va l t (table_entry child) -> spread s s2 va.
Proof.
  intros Hok Hok1 Hva Hl Ht [He Ho Hw Hfresh Hchild Hav] Htab Hstand Hleaves Hc Hset.
  destruct (table_entry_ok child (owned_addressable s1 child He Hchild)) as (Hp & Ha & Hlf).
  assert (Hlink : links (table_entry child) l = true) by (unfold links; by rewrite Hp, Hlf by lia).
  assert (Ht1 : table_at s1 va l = Some t) by (rewrite Htab by (done || lia); done).
  assert (Hot : owned s t) by (apply (tree_owned s Hok va l); [done | lia | done]).
  assert (Hw1 : word s1 t (index l va) = word s t (index l va)) by (apply Hw; [done | apply index_bounds; [lia | done]]).
  assert (Hold : links (word s1 t (index l va)) l = false) by (rewrite Hw1; by eapply stands_ends).
  assert (Hbelow : table_at s2 va (l - 1) = Some child).
  { rewrite (set_table_below s1 s2 va l t _ Hok1 Hva ltac:(lia) Ht1 Hset) by (done || lia || apply same_page_refl).
    by rewrite Hlink, Ha. }
  assert (Hend : forall i, 0 <= i < 512 -> links (word s2 child i) (l - 1) = false \/ l - 1 = 1).
  { intros i Hi. left. rewrite Hc by done. unfold links.
    destruct (present (word s1 child i)) eqn:Hpi; [by rewrite (Hleaves i Hi Hpi) | done]. }
  pose proof (fun va' l' t' => set_link_tables s1 s2 va l t _ Hok1 Hva ltac:(lia) Ht1 Hset child va' l' t'
    ltac:(lia) Hlink Ha Hend) as Hcases.
  split.
  - intros p [Hpa|(x & k & Hx & Hk & Hpt)].
    + destruct (Hav p Hpa) as [| ->]; [left; by apply (set_spare _ _ _ _ _ _ Hset)|]. right. exists va, (l - 1).
      split; [done|]. split; [lia | done].
    + right. apply (set_tables_held s1 s2 va l t _ Hok1 Hva ltac:(lia) Ht1 Hset p Hold). exists x, k. by rewrite Htab.
  - intros x k t' Hx Hk Ht'. destruct (Hcases x k t' Hx Hk Ht') as [[H0 _]|(-> & Hs & _)].
    + left. by rewrite <- Htab.
    + right. by replace (l - 1 + 1) with l by lia.
  - intros Hm x k t' Hx Hk Ht' Hb. destruct (Hcases x k t' Hx ltac:(lia) Ht') as [[H0 _]|(-> & Hs & ->)].
    + assert (Hne : t' <> t).
      { intros ->. apply (set_not_blank s1 s2 va l t _ Hok1 Hva ltac:(lia) Ht1 Hset); [|done]. intros E0. by rewrite E0, present_zero in Hp. }
      rewrite Htab in H0 by (done || lia). split; [done|].
      assert (Ho' : owned s t') by (by apply (tree_owned s Hok x k); [|lia|]).
      pose proof (set_blank s1 s2 va l t _ Hset t' (Ho t' Ho') Hne Hb) as Hb1.
      intros i Hi. rewrite <- (Hb1 i Hi). by rewrite Hw.
    + exfalso. pose proof (index_bounds (l - 1) va ltac:(lia) Hva) as Hi.
      specialize (Hb _ Hi). rewrite Hc in Hb by done. unfold stands_for in Hstand. rewrite Hb, present_zero in Hstand.
      apply Hm. rewrite (leaf_of_via s va l t ltac:(lia) Ht), resolve_step by lia. cbv zeta. by rewrite Hstand.
Qed.

Lemma wp_link s s1 va l t child (Q : unit -> S -> Prop) :
  tree_ok s -> canonical va -> 1 < l <= LEVELS -> table_at s va l = Some t -> prepared s s1 child ->
  (forall va', canonical va' -> same_page l va va' ->
     stands_for l (word s t (index l va)) va' (word s1 child (index (l - 1) va'))) ->
  (forall i, 0 <= i < 512 ->
     present (word s1 child i) = true ->
     leaf (word s1 child i) (l - 1) = true /\
     address (word s1 child i) mod span (l - 1) = 0 /\
     address (word s1 child i) + span (l - 1) <= 2 ^ 52) ->
  (forall s2, tree_ok s2 -> refines s s2 ->
     (forall l', l <= l' <= LEVELS -> table_at s2 va l' = table_at s va l') ->
     table_at s2 va (l - 1) = Some child -> word s2 t (index l va) = table_entry child -> spread s s2 va ->
     Q tt s2) ->
  wp (replace_entry (t, index l va) (table_entry child) va) Q s1.
Proof.
  intros Hok Hva Hl Ht Hprep Hstand Hleaves HQ. pose proof Hprep as [He Ho Hw Hfresh Hchild _].
  destruct (agree_ok s s1 Hok He) as [Hok1 Hleaf1]; [|done|].
  { intros va' l' t' Hva' Hl' Ht'. by apply Ho, (tree_owned s Hok va' l'). }
  assert (Htab : forall va' l', canonical va' -> 1 <= l' <= LEVELS -> table_at s1 va' l' = table_at s va' l')
    by (intros; by apply tables_agree).
  assert (Hot : owned s t) by (apply (tree_owned s Hok va l); [done | lia | done]).
  pose proof (index_bounds l va ltac:(lia) Hva) as Hib.
  assert (Htc : t <> child) by (intros ->; done).
  assert (Ht1 : table_at s1 va l = Some t) by (rewrite Htab by (done || lia); done).
  destruct (table_entry_ok child (owned_addressable s1 child He Hchild)) as (Hp & Ha & Hlf).
  assert (Hlink : links (table_entry child) l = true) by (unfold links; by rewrite Hp, Hlf by lia).
  apply wp_replace; [done | by apply Ho | done |]. intros s2 He2 Ho2 Hw2 Hav2.
  assert (Hset : entry_set s1 s2 va l t (table_entry child)) by (split; [done | by intros q; rewrite Ho2 | done | done]).
  assert (Hc : forall i, 0 <= i < 512 -> word s2 child i = word s1 child i).
  { intros i Hi. rewrite Hw2 by done. rewrite decide_False; [done|]. by intros [-> _]. }
  apply HQ.
  - eapply (set_link_ok s1 s2 va l t _ Hok1 Hva ltac:(lia) Ht1 Hset child); [lia | done | done | | | |].
    + by apply Ho2.
    + intros va' l' Hva' Hl'. rewrite Htab by done. intros Hx. by apply Hfresh, (tree_owned s Hok va' l').
    + intros i Hi. left. rewrite Hc by done. unfold links.
      destruct (present (word s1 child i)) eqn:Hpi; [|done]. by destruct (Hleaves i Hi Hpi) as [-> _].
    + intros i Hi. rewrite Hc by done. intros Hpi _. by apply Hleaves.
  - intros va' Hva'.
    assert (Hleaf0 : leaf_of s va' = leaf_of s1 va') by (by rewrite Hleaf1).
    destruct (decide (same_page l va va')) as [Hs|Hs].
    + assert (Ht' : table_at s va' l = Some t).
      { apply page_index in Hs as [Hs' _]; [|lia|done|done]. rewrite <- (table_at_same s va va' l); [done..|lia|done]. }
      pose proof (leaf_of_via s va' l t ltac:(lia) Ht') as Hold. rewrite resolve_step in Hold by lia.
      cbv zeta in Hold.
      assert (index l va' = index l va) as Hi by (apply page_index in Hs as [_ ->]; [done | lia | done..]).
      rewrite Hi in Hold.
      pose proof (set_leaf_here s1 s2 va l t _ Hok1 Hva ltac:(lia) Ht1 Hset va' Hva' Hs) as Hnew.
      unfold links in Hlink. rewrite Hp, Ha, Hlf in Hnew by lia. cbn [negb] in Hnew.
      rewrite resolve_step in Hnew by lia. cbv zeta in Hnew.
      pose proof (index_bounds (l - 1) va' ltac:(lia) Hva') as Hib'.
      rewrite Hc in Hnew by done. specialize (Hstand va' Hva' Hs). unfold stands_for in Hstand.
      set (c := word s1 child (index (l - 1) va')) in *. set (e := word s t (index l va)) in *.
      destruct (present c) eqn:Hpc; cbn [negb] in Hnew.
      * destruct Hstand as (Hlc & Hpe & Hle & Hm). rewrite Hlc in Hnew. rewrite Hpe, Hle in Hold.
        cbn [negb] in Hold. unfold translation. rewrite Hold, Hnew, Hm. split; [done|].
        intros l' e' [= <- <-]. exists l, e. split; [done | lia].
      * rewrite Hstand in Hold. cbn [negb] in Hold. unfold translation. rewrite Hold, Hnew. done.
    + rewrite Hleaf0. unfold translation. rewrite Hleaf0.
      rewrite (set_leaf_other s1 s2 va l t _ Hok1 Hva ltac:(lia) Ht1 Hset va' Hva' Hs).
      split; [done|]. intros l' e' H'. exists l', e'. split; [done | lia].
  - intros l' Hl'. rewrite <- (Htab va l') by (done || lia).
    apply (set_tables_kept s1 s2 va l t _ Hok1 Hva ltac:(lia) Ht1 Hset); [done | lia | left; lia].
  - rewrite (set_table_below s1 s2 va l t _ Hok1 Hva ltac:(lia) Ht1 Hset) by (done || lia || apply same_page_refl).
    by rewrite Hlink, Ha.
  - apply (set_here s1 s2 va l t _ Hok1 Hva ltac:(lia) Ht1 Hset).
  - apply (link_spread s s1 s2 va l t child); [done.. | by apply Hstand; [|apply same_page_refl] | | done | done].
    intros i Hi Hpi. by apply Hleaves.
Qed.

Lemma wp_split s s1 child e l (Q : unit -> S -> Prop) :
  prepared s s1 child ->
  (forall s2, prepared s s2 child -> (forall i, 0 <= i < 512 -> word s2 child i = split_entry e l i) -> Q tt s2) ->
  wp (split (fun i => write (child, i)) e l) Q s1.
Proof.
  intros Hp HQ. rewrite split_eq, entries_positive.
  apply wp_for_range with (Inv := fun n s2 =>
    prepared s s2 child /\ forall i, 0 <= i < n -> word s2 child i = split_entry e l i).
  - split; [done | lia].
  - intros n s2 Hn [[He Ho Hw Hf Hc Ha] Hdone]. apply wp_write; [done..|].
    intros s3 He3 Ho3 Hw3 Ha3. split.
    + split; [done | by intros q Hq; apply Ho3, Ho | | done | by apply Ho3 |].
      * intros q j Hq Hj. rewrite Hw3 by (try apply Ho; done).
        rewrite decide_False; [by apply Hw|]. by intros [-> _].
      * intros q Hq. destruct (Ha q Hq); [left; by apply Ha3 | by right].
    + intros i Hi. rewrite Hw3 by (done || lia). case_decide as Hd; [by destruct Hd as [_ ->]|].
      apply Hdone. destruct (Z.eq_dec i n) as [->|]; [by destruct Hd | lia].
  - intros s2 [Hp2 Hdone]. by apply HQ.
Qed.

(** The entries of a split stand for the leaf they replace. *)
Lemma split_stands_for s va l t :
  tree_ok s -> canonical va -> 1 < l <= LEVELS -> table_at s va l = Some t ->
  let e := word s t (index l va) in
  present e = true -> leaf e l = true ->
  (forall va', canonical va' -> same_page l va va' ->
     stands_for l e va' (split_entry e l (index (l - 1) va'))) /\
  (forall i, 0 <= i < 512 -> present (split_entry e l i) = true ->
     leaf (split_entry e l i) (l - 1) = true /\
     address (split_entry e l i) mod span (l - 1) = 0 /\
     address (split_entry e l i) + span (l - 1) <= 2 ^ 52).
Proof.
  intros Hok Hva Hl Ht e Hp Hlf. destruct (tree_leaves s Hok va l t Hva ltac:(lia) Ht Hp Hlf) as [Hal Hmax].
  fold e in Hal, Hmax. pose proof (span_below l Hl) as Hstep.
  pose proof (span_positive (l - 1) ltac:(lia)) as Hpos.
  assert (Hsplit : forall i, 0 <= i < 512 ->
    present (split_entry e l i) = true /\ leaf (split_entry e l i) (l - 1) = true /\
    address (split_entry e l i) = address e + i * span (l - 1) /\
    entry_prot (split_entry e l i) = entry_prot e)
    by (intros i Hi; apply split_entry_ok; rewrite ?entries_positive; done).
  split.
  - intros va' Hva' Hs. pose proof (index_bounds (l - 1) va' ltac:(lia) Hva') as Hi.
    destruct (Hsplit _ Hi) as (H1 & H2 & H3 & H4). unfold stands_for. rewrite H1.
    split; [done|]. split; [done|]. split; [done|]. unfold mapped. cbn [fst snd]. rewrite H3, H4.
    f_equal.
    assert (Hoff : va' mod span (l - 1 + 1) = index (l - 1) va' * span (l - 1) + va' mod span (l - 1))
      by (apply index_offset; [lia | apply Hva']).
    replace (l - 1 + 1) with l in Hoff by lia. rewrite Hoff. lia.
  - intros i Hi _. destruct (Hsplit i Hi) as (H1 & H2 & H3 & H4). split; [done|]. rewrite H3.
    split; [|nia]. rewrite Z.mod_add by lia. rewrite Hstep in Hal.
    apply Z.mod_divide in Hal as [q Hq]; [|lia].
    rewrite Hq. replace (q * (512 * span (l - 1))) with (q * 512 * span (l - 1)) by lia.
    apply Z.mod_mul. lia.
Qed.

(** ** A walk that allocates *)

(** What it does: the tree is refined, and on success the path to the target level is complete. *)
Definition extended (s : S) (va target l : Z) (r : Result walk_path mm_error) (s' : S) : Prop :=
  tree_ok s' /\ refines s s' /\
  (forall l', l <= l' <= LEVELS -> table_at s' va l' = table_at s va l') /\
  spread s s' va /\
  match r with
  | Ok path => reached_level path = target /\ path_ok s' va path target
  | Err e => e = OUT_OF_MEMORY /\ exhausted s'
  end.

Lemma extended_trans s s1 va target l r s2 :
  canonical va -> 1 < l <= LEVELS -> refines s s1 -> spread s s1 va -> (forall l', l <= l' <= LEVELS -> table_at s1 va l' = table_at s va l') ->
  extended s1 va target (l - 1) r s2 -> extended s va target l r s2.
Proof.
  intros Hva Hl Hr Hsp Ht (Hok & Hr' & Ht' & Hsp' & Hres). split; [done|]. split; [by eapply refines_trans|].
  split; [|split; [by eapply spread_trans | done]]. intros l' Hl'. rewrite Ht' by lia. by apply Ht.
Qed.

Lemma wp_alloc_prepared s (Q : Result Z mm_error -> S -> Prop) :
  tree_ok s ->
  (forall p s', prepared s s' p -> (forall i, 0 <= i < 512 -> word s' p i = 0) -> Q (Ok p) s') ->
  (forall s', tree_ok s' -> refines s s' ->
     (forall va l, canonical va -> 1 <= l <= LEVELS -> table_at s' va l = table_at s va l) ->
     exhausted s' -> (forall va, spread s s' va) -> Q (Err OUT_OF_MEMORY) s') ->
  wp alloc_table Q s.
Proof.
  intros Hok HQ HE. apply wp_alloc_table; [apply Hok | |].
  - intros p s1 He Hf Hown Ho Hz Hw Ha. apply HQ; [by split | done].
  - intros s1 He Ho Hw Hex Ha. destruct (agree_ok s s1 Hok He) as [Hok1 Hleaf]; [|done|].
    { intros va' l' t' Hva' Hl' Ht'. by apply Ho, (tree_owned s Hok va' l'). }
    apply HE; [done | | | |].
    + by apply leaf_of_refines.
    + intros va l Hva Hl. by apply tables_agree.
    + done.
    + intros va. by apply agree_spread.
Qed.

Section WalkAlloc.
Context (va target : Z) (Hva : canonical va) (Htg : 1 <= target).

(** The walk from one level below, given that it is right. *)
Definition descends (n : nat) : Prop :=
  forall l t path s (Q : Result walk_path mm_error -> S -> Prop),
    tree_ok s -> target <= l <= LEVELS -> l - target < Z.of_nat n ->
    table_at s va l = Some t -> path_ok s va path (l + 1) ->
    (forall r s', extended s va target l r s' -> Q r s') ->
    wp (walk_loop n va target true l t path) Q s.

Lemma wp_descend n s l t path c (Q : Result walk_path mm_error -> S -> Prop) :
  descends n -> tree_ok s -> target < l <= LEVELS -> l - 1 - target < Z.of_nat n ->
  table_at s va l = Some t -> table_at s va (l - 1) = Some c -> address (word s t (index l va)) = c ->
  path_ok s va path l ->
  (forall r s', extended s va target (l - 1) r s' -> Q r s') ->
  wp (entry ← read (t, index l va);
      walk_loop n va target true (u64 (l - 1)) (address entry) path) Q s.
Proof.
  intros IH Hok Hl Hn Ht Hc Ha Hp HQ. apply wp_bind. apply wp_read_path; [done | done | lia | done |].
  rewrite Ha, u64_level by lia. apply IH; [done | lia | lia | done | | done].
  by replace (l - 1 + 1) with l by lia.
Qed.

(** The link and the step below it. *)
Lemma wp_link_descend n s s1 l t child path (Q : Result walk_path mm_error -> S -> Prop) :
  descends n -> tree_ok s -> target < l <= LEVELS -> l - 1 - target < Z.of_nat n ->
  table_at s va l = Some t -> path_ok s va path l -> prepared s s1 child ->
  (forall va', canonical va' -> same_page l va va' ->
     stands_for l (word s t (index l va)) va' (word s1 child (index (l - 1) va'))) ->
  (forall i, 0 <= i < 512 ->
     present (word s1 child i) = true ->
     leaf (word s1 child i) (l - 1) = true /\
     address (word s1 child i) mod span (l - 1) = 0 /\
     address (word s1 child i) + span (l - 1) <= 2 ^ 52) ->
  (forall r s', extended s va target l r s' -> Q r s') ->
  wp (replace_entry (t, index l va) (table_entry child) va;;
      entry ← read (t, index l va);
      walk_loop n va target true (u64 (l - 1)) (address entry) path) Q s1.
Proof.
  intros IH Hok Hl Hn Ht Hp Hprep Hstand Hleaves HQ. apply wp_bind.
  apply (wp_link s s1 va l t child); [done | done | lia | done | done | done | done |].
  intros s2 Hok2 Hr2 Ht2 Hc2 Hw2 Hsp2.
  eapply wp_descend; [done | done | done | done | | exact Hc2 | | |].
  - rewrite Ht2 by lia. exact Ht.
  - rewrite Hw2. apply table_entry_ok. eapply owned_addressable; [apply Hok2|].
    apply (tree_owned s2 Hok2 va (l - 1)); [done | lia | done].
  - eapply path_ok_kept; [|exact Hp]. intros l' Hl'. apply Ht2. lia.
  - intros r s3 Hext. apply HQ. eapply extended_trans; [done | lia | exact Hr2 | exact Hsp2 | exact Ht2 | exact Hext].
Qed.

Lemma wp_walk_alloc_loop n : descends n.
Proof.
  induction n as [|n IH]; intros l t path s Q Hok Hl Hn Ht Hp HQ; [lia|].
  cbn [walk_loop]. apply wp_bind. eapply wp_record_step; [lia | done | done |].
  intros path' Hp' Hr'. destruct (Z.eqb_spec l target) as [->|Hne].
  { wp_steps. apply HQ. split; [done|]. split; [apply refines_refl|]. split; [done|]. split; [apply spread_refl | done]. }
  apply wp_bind. apply wp_read_path; [done | done | lia | done |]. cbv zeta.
  set (e := word s t (index l va)).
  assert (Herr : forall s', tree_ok s' -> refines s s' ->
    (forall va l, canonical va -> 1 <= l <= LEVELS -> table_at s' va l = table_at s va l) ->
    exhausted s' -> (forall va, spread s s' va) -> Q (Err OUT_OF_MEMORY) s').
  { intros s' Hok' Hr2 Ht' Hex Hsp. apply HQ. split; [done|]. split; [done|]. split; [|by split].
    intros l' Hl'. apply Ht'; [done | lia]. }
  destruct (present e) eqn:Hpr; cbn [negb]; [destruct (leaf e l) eqn:Hlf; cbn [negb]|].
  - apply wp_ktry. apply wp_alloc_prepared; [done | | done]. intros p s1 Hprep _.
    apply wp_bind, wp_read.
    { apply Hprep. } { apply Hprep. apply (tree_owned s Hok va l); [done | lia | done]. }
    { apply index_bounds; [lia | done]. }
    rewrite (prep_word _ _ _ Hprep) by (apply (tree_owned s Hok va l) || apply index_bounds; done || lia).
    fold e. apply wp_bind. eapply wp_split; [exact Hprep|]. intros s2 Hprep2 Hw2.
    destruct (split_stands_for s va l t Hok Hva ltac:(lia) Ht Hpr Hlf) as [Hst Hlv]. fold e in Hst, Hlv.
    apply (wp_link_descend n s s2); [done | done | lia | lia | done | done | done | | | done].
    + intros va' Hva' Hs. fold e. rewrite Hw2 by (apply index_bounds; [lia | done]). by apply Hst.
    + intros i Hi. rewrite Hw2 by done. by apply Hlv.
  - eapply wp_descend; [done | done | lia | lia | done | | reflexivity | done |].
    + rewrite table_at_step, Ht by lia. cbv zeta. fold e. unfold links. by rewrite Hpr, Hlf.
    + intros r s' Hext. apply HQ. eapply extended_trans; [done | lia | apply refines_refl | apply spread_refl | done | exact Hext].
  - apply wp_ktry. apply wp_alloc_prepared; [done | | done]. intros p s1 Hprep Hz.
    apply (wp_link_descend n s s1); [done | done | lia | lia | done | done | done | | | done].
    + intros va' Hva' Hs. fold e. unfold stands_for.
      rewrite Hz by (apply index_bounds; [lia | done]). by rewrite present_zero.
    + intros i Hi. rewrite Hz by done. by rewrite present_zero.
Qed.
End WalkAlloc.

Lemma wp_walk_alloc s va target (Q : Result walk_path mm_error -> S -> Prop) :
  tree_ok s -> canonical va -> 1 <= target <= LEVELS ->
  (forall r s', extended s va target LEVELS r s' -> Q r s') -> wp (walk root va target true) Q s.
Proof.
  intros Hok Hva Htg HQ. unfold walk.
  apply wp_walk_alloc_loop; [done | lia | done | lia | lia | apply table_at_top | apply path_ok_empty | done].
Qed.

(** ** Removing and setting leaves *)

Lemma wp_is_table_empty s t (Q : bool -> S -> Prop) :
  env_inv s -> owned s t ->
  (forall b, (b = true <-> blank s t) -> Q b s) ->
  wp (is_table_empty t) Q s.
Proof.
  intros He Ho HQ. unfold is_table_empty. apply wp_bind. rewrite entries_positive.
  apply wp_scan_range with
    (Inv := fun n s' => s' = s /\ forall i, 0 <= i < n -> word s t i = 0)
    (Found := fun b s' => s' = s /\ b = false /\ ~ blank s t).
  - split; [done | lia].
  - intros i s' Hi [-> Hz]. wp_steps. apply wp_read; [done..|]. wp_steps.
    destruct (Z.eqb_spec (word s t i) 0) as [Hw|Hw]; cbn [negb]; (split; [done|]).
    2: { split; [done|]. intros Hb. by apply Hw, Hb. }
    intros j Hj. destruct (Z.eq_dec j i) as [->|]; [done | apply Hz; lia].
  - intros b s' (-> & -> & Hnb). wp_steps. by apply HQ.
  - intros s' [-> Hz]. wp_steps. apply HQ. split; [|done]. intros _ i Hi. by apply Hz.
Qed.

Lemma links_zero l : links 0 l = false.
Proof. unfold links. by rewrite present_zero. Qed.

(** Replacing the entry of a path. *)
Lemma wp_replace_path s va l t e (Q : unit -> S -> Prop) :
  tree_ok s -> canonical va -> 1 <= l <= LEVELS -> table_at s va l = Some t ->
  (forall s', entry_set s s' va l t e -> Q tt s') -> wp (replace_entry (t, index l va) e va) Q s.
Proof.
  intros Hok Hva Hl Ht HQ. apply wp_replace; [apply Hok | by apply (tree_owned s Hok va l) | by apply index_bounds |].
  intros s' He Ho Hw Ha. apply HQ. split; [done | by intros q; rewrite Ho | done | done].
Qed.

(** Unlinking an empty table changes no leaf, and the table leaves the tree. *)
Lemma unlink_empty s s2 va k t tk :
  tree_ok s -> canonical va -> 1 <= k < LEVELS ->
  table_at s va k = Some t -> table_at s va (k + 1) = Some tk ->
  (forall i, 0 <= i < 512 -> word s t i = 0) -> entry_set s s2 va (k + 1) tk 0 ->
  tree_ok s2 /\ (forall va', canonical va' -> leaf_of s2 va' = leaf_of s va') /\
  (forall va' l', canonical va' -> 1 <= l' <= LEVELS -> table_at s2 va' l' <> Some t).
Proof.
  intros Hok Hva Hk Ht Htk Hz Hset.
  assert (Hend : links 0 (k + 1) = false \/ k + 1 = 1) by (left; apply links_zero).
  split; [|split].
  - apply (set_end_ok s s2 va (k + 1) tk 0 Hok Hva ltac:(lia) Htk Hset Hend).
    by rewrite present_zero.
  - intros va' Hva'. destruct (decide (same_page (k + 1) va va')) as [Hs|Hs].
    + rewrite (set_leaf_here s s2 va (k + 1) tk 0 Hok Hva ltac:(lia) Htk Hset va' Hva' Hs).
      rewrite present_zero. cbn [negb].
      rewrite (leaf_of_via s va' k t); [| lia |].
      * rewrite resolve_step by lia. cbv zeta. rewrite Hz by (apply index_bounds; [lia | done]).
        by rewrite present_zero.
      * rewrite <- (table_at_same s va va' k); [done | done | done | lia | done].
    + apply (set_leaf_other s s2 va (k + 1) tk 0 Hok Hva ltac:(lia) Htk Hset va' Hva' Hs).
  - intros va' l' Hva' Hl' Ht'.
    pose proof (set_tables_subset s s2 va (k + 1) tk 0 Hok Hva ltac:(lia) Htk Hset va' l' t Hend Hva' Hl' Ht') as H0.
    destruct (tree_unshared s Hok va va' k l' t) as [<- Hs]; [done | done | lia | done..|].
    pose proof (set_table_below s s2 va (k + 1) tk 0 Hok Hva ltac:(lia) Htk Hset va' Hva' Hs ltac:(lia)) as Hb.
    replace (k + 1 - 1) with k in Hb by lia. rewrite links_zero in Hb. congruence.
Qed.

(** Frames are given back: none that is available is taken, and the tables that leave the tree become
    available, or are pinned. *)
Definition releases (s s' : S) : Prop := (forall q, spare s q -> spare s' q) /\ returns s s'.

Lemma releases_refl s : releases s s.
Proof. split; [done | apply conserves_returns, conserves_refl]. Qed.

Lemma releases_trans s1 s2 s3 : releases s1 s2 -> releases s2 s3 -> releases s1 s3.
Proof. intros [A1 R1] [A2 R2]. split; [by auto | by eapply returns_trans]. Qed.

(** No blank table was left behind, except perhaps the table of level [k] on the path to [va]. *)
Definition tidy_but (s0 s : S) (va k : Z) : Prop :=
  forall va' l t, canonical va' -> 1 <= l < LEVELS -> table_at s va' l = Some t -> blank s t ->
    (table_at s0 va' l = Some t /\ blank s0 t) \/ table_at s va k = Some t.

(** Unlinking an empty table and giving it back. *)
Section Unlink.
Context (s s2 s3 : S) (va k t tk : Z).
Context (Hok : tree_ok s) (Hva : canonical va) (Hk : 1 <= k < LEVELS).
Context (Ht : table_at s va k = Some t) (Htk : table_at s va (k + 1) = Some tk) (Hblank : blank s t).
Context (Hset : entry_set s s2 va (k + 1) tk 0) (Hok2 : tree_ok s2).
Context (Hw : forall q j, owned s2 q -> 0 <= j < 512 -> word s3 q j = word s2 q j).
Context (Ha : forall q, spare s2 q -> spare s3 q) (Hgone : spare s3 t \/ pinned t).

Lemma unlink_tables va' l' :
  canonical va' -> 1 <= l' <= LEVELS -> table_at s3 va' l' = table_at s2 va' l'.
Proof using FL Hok2 Hw. intros. by apply tables_agree. Qed.

Lemma unlink_releases : releases s s3.
Proof.
  assert (Hav : forall q, spare s q -> spare s3 q).
  { intros q Hq. by apply Ha, (set_spare _ _ _ _ _ _ Hset). }
  split; [exact Hav|]. intros q [Hq|(va' & l' & Hva' & Hl' & Hq)]; [by left; left; apply Hav|].
  destruct (Z.eq_dec q t) as [->|Hne]; [destruct Hgone; [by left; left | by right]|].
  left; right. exists va', l'. split; [done|]. split; [done|]. rewrite unlink_tables by done.
  destruct (decide (k + 1 <= l' \/ ~ same_page (k + 1) va va')) as [Hout|Hin].
  { by rewrite (set_tables_kept s s2 va (k + 1) tk 0 Hok Hva ltac:(lia) Htk Hset) by done. }
  exfalso. assert (Hs : same_page (k + 1) va va') by (destruct (decide (same_page (k + 1) va va')); tauto).
  assert (Hl : l' <= k) by lia. rewrite (table_at_same s va va' k) in Ht by (done || lia).
  destruct (Z.eq_dec l' k) as [->|]; [congruence|].
  destruct (table_at_above s va' l' (k - 1) q) as (t'' & Ht''); [lia..|done|].
  rewrite table_at_step, Ht in Ht'' by lia. cbv zeta in Ht''.
  rewrite Hblank in Ht'' by (apply index_bounds; [lia | done]). by rewrite links_zero in Ht''.
Qed.

Lemma unlink_tidy s0 : tidy_but s0 s va k -> tidy_but s0 s3 va (k + 1).
Proof.
  intros Hbut va' l' t' Hva' Hl' Ht' Hb. rewrite unlink_tables in Ht' by (done || lia).
  assert (Hend : links 0 (k + 1) = false \/ k + 1 = 1) by (left; apply links_zero).
  pose proof (set_tables_subset s s2 va (k + 1) tk 0 Hok Hva ltac:(lia) Htk Hset va' l' t' Hend Hva' ltac:(lia) Ht') as H0.
  destruct (Z.eq_dec t' tk) as [->|Hne].
  { right. rewrite unlink_tables by (done || lia).
    by rewrite (set_tables_kept s s2 va (k + 1) tk 0 Hok Hva ltac:(lia) Htk Hset) by (done || lia || (left; lia)). }
  assert (Hb2 : blank s2 t').
  { intros i Hi. rewrite <- (Hb i Hi), Hw; [done | by apply (tree_owned s2 Hok2 va' l'); [|lia|] | done]. }
  pose proof (set_blank s s2 va (k + 1) tk 0 Hset t' ltac:(by apply (tree_owned s Hok va' l'); [|lia|]) Hne Hb2) as Hb0.
  destruct (Hbut va' l' t' Hva' Hl' H0 Hb0) as [|E0]; [by left | exfalso].
  assert (t' = t) as -> by congruence.
  destruct (unlink_empty s s2 va k t tk Hok Hva Hk Ht Htk Hblank Hset) as (_ & _ & Hout).
  by apply (Hout va' l' Hva' ltac:(lia)).
Qed.
End Unlink.

(** [prune] changes no leaf; it gives back the tables it empties, and stops at one that is not blank. *)
Lemma wp_prune s va path l (Q : unit -> S -> Prop) :
  tree_ok s -> canonical va -> 1 <= l <= LEVELS -> path_ok s va path l ->
  (forall s', tree_ok s' -> (forall va', canonical va' -> leaf_of s' va' = leaf_of s va') ->
     releases s s' -> (forall s0, tidy_but s0 s va l -> tidy s0 s') -> Q tt s') ->
  wp (prune path l va) Q s.
Proof.
  intros Hok Hva Hl Hp HQ. unfold prune. apply wp_bind.
  apply wp_scan_range with
    (Inv := fun k s1 => tree_ok s1 /\ (forall va', canonical va' -> leaf_of s1 va' = leaf_of s va') /\
       path_ok s1 va path k /\ releases s s1 /\ (forall s0, tidy_but s0 s va l -> tidy_but s0 s1 va k))
    (Found := fun _ s1 => tree_ok s1 /\ (forall va', canonical va' -> leaf_of s1 va' = leaf_of s va') /\
       releases s s1 /\ (forall s0, tidy_but s0 s va l -> tidy s0 s1)).
  - split; [done|]. split; [done|]. split; [done|]. split; [apply releases_refl | done].
  - intros k s1 Hk (Hok1 & Hleaf1 & Hp1 & Hrel1 & Hbut1). apply wp_bind.
    eapply wp_table_at; [exact Hp1 | lia | lia |]. intros t Ht. apply wp_bind.
    apply wp_is_table_empty; [apply Hok1 | apply (tree_owned s1 Hok1 va k); [done | lia | done] |].
    intros b Hz. destruct b; cbn [negb]; cycle 1.
    { wp_steps. split; [done|]. split; [done|]. split; [done|]. intros s0 Hs0 va' l' t' Hva' Hl' Ht' Hb.
      destruct (Hbut1 s0 Hs0 va' l' t' Hva' Hl' Ht' Hb) as [|E0]; [done | exfalso].
      assert (t' = t) as -> by congruence. by apply Hz in Hb. }
    pose proof (proj1 Hz eq_refl) as Hblank.
    apply wp_bind. eapply wp_slot_at; [exact Hp1 | lia | lia |]. intros tk Htk. apply wp_bind.
    apply wp_replace_path; [done | done | lia | done |]. intros s2 Hset.
    destruct (unlink_empty s1 s2 va k t tk Hok1 Hva ltac:(lia) Ht Htk Hblank Hset) as (Hok2 & Hleaf2 & Hout).
    apply wp_bind, wp_free_table; [apply Hok2 | |].
    { apply (set_owned _ _ _ _ _ _ Hset), (tree_owned s1 Hok1 va k); [done | lia | done]. }
    intros s3 He3 Ho3 Hw3 Ha3 Hg3. wp_steps. destruct (agree_ok s2 s3 Hok2 He3) as [Hok3 Hleaf3]; [|done|].
    { intros va' l' t' Hva' Hl' Ht'. apply Ho3; [by apply (tree_owned s2 Hok2 va' l')|].
      intros ->. by apply (Hout va' l'). }
    split; [done|]. split; [intros va' Hva'; rewrite Hleaf3, Hleaf2 by done; by apply Hleaf1|].
    split; [|split].
    + destruct Hp1 as [Hps Hpt Hpa]. apply (path_ok_kept s1 s3).
      * intros l' Hl'. rewrite (tables_agree s2 s3) by (done || lia).
        apply (set_tables_kept s1 s2 va (k + 1) tk 0 Hok1 Hva ltac:(lia) Htk Hset); [done | lia | left; lia].
      * split; [done | done |]. intros l' Hl'. apply Hpa. lia.
    + eapply releases_trans; [exact Hrel1|]. apply (unlink_releases s1 s2 s3 va k t tk); done || lia.
    + intros s0 Hs0. apply (unlink_tidy s1 s2 s3 va k t tk); try (done || lia). by apply Hbut1.
  - intros [] s1 (Hok1 & Hleaf1 & Hrel1 & Htidy1). wp_steps. by apply HQ.
  - intros s1 (Hok1 & Hleaf1 & _ & Hrel1 & Hbut1). wp_steps. apply HQ; [done | done | done |].
    intros s0 Hs0 va' l' t' Hva' Hl' Ht' Hb. replace (Z.max l LEVELS) with LEVELS in Hbut1 by lia.
    destruct (Hbut1 s0 Hs0 va' l' t' Hva' Hl' Ht' Hb) as [|E0]; [done | exfalso].
    destruct (tree_unshared s1 Hok1 va' va l' LEVELS t') as [E1 _]; done || lia.
Qed.

(** The leaf of an address goes, with its whole page; no other translation changes, and the tables that
    are blank now are given back. *)
Definition removed (s s' : S) (va : Z) (r : Result mapping mm_error) : Prop :=
  tree_ok s' /\
  match r with
  | Ok m => exists l e, leaf_of s va = Some (l, e) /\
      m = {| frame := address e; offset := 0; size := size_at l; prot := entry_prot e |} /\
      (forall va', canonical va' ->
        leaf_of s' va' = if decide (same_page l va va') then None else leaf_of s va') /\
      releases s s' /\ tidy s s'
  | Err e => e = NOT_MAPPED /\ leaf_of s va = None /\ s' = s
  end.

Lemma found_entry s va path e0 :
  canonical va -> path_ok s va path (reached_level path) -> 1 <= reached_level path <= LEVELS ->
  (1 < reached_level path -> leaf_of s va = Some (reached_level path, e0)) ->
  forall t, table_at s va (reached_level path) = Some t ->
  leaf_of s va =
    if present (word s t (index (reached_level path) va))
    then Some (reached_level path, word s t (index (reached_level path) va)) else None.
Proof.
  intros Hva Hp Hl Hhigh t Ht. pose proof (leaf_of_via s va _ t Hl Ht) as Hv.
  rewrite resolve_step in Hv by lia. cbv zeta in Hv. rewrite Hv.
  set (e := word s t _) in *. destruct (present e); cbn [negb] in *; [|done].
  destruct (leaf e _) eqn:Hlf; [done|]. destruct (Z.eq_dec (reached_level path) 1) as [E1|].
  - rewrite E1, leaf_one in Hlf. done.
  - exfalso. rewrite Hhigh in Hv by lia. symmetry in Hv.
    assert (Hn : forall m t' l' e', resolve s va m t' = Some (l', e') -> l' <= Z.of_nat m).
    { intros m. induction m as [|m IH]; intros t' l' e'; [done|]. cbn [resolve]. cbv zeta.
      set (w := word s t' _). destruct (present w); cbn [negb]; [|done].
      destruct (leaf w _); [intros [= <- _]; lia | intros H'%IH; lia]. }
    apply Hn in Hv. lia.
Qed.

Lemma wp_remove_leaf s va (Q : Result mapping mm_error -> S -> Prop) :
  tree_ok s -> canonical va -> (forall r s', removed s s' va r -> Q r s') ->
  wp (remove_leaf root va) Q s.
Proof.
  intros Hok Hva HQ. pose proof levels_range. unfold remove_leaf. rewrite (proj2 Hva). cbn [negb].
  apply wp_ktry, wp_walk_find; [done | done | lia |]. intros r Hr.
  destruct r as [path|er]; [|destruct Hr as [-> Hno]; by apply HQ].
  destruct Hr as (Hl & Hp & Hhigh). apply wp_bind. eapply wp_slot_at; [exact Hp | lia | lia |].
  intros t Ht. apply wp_bind, wp_read_path; [done | done | lia | done |].
  set (l := reached_level path) in *. set (e := word s t (index l va)).
  assert (Hleaf : leaf_of s va = if present e then Some (l, e) else None).
  { destruct (Z.eq_dec l 1) as [E1|].
    - by apply (found_entry s va path 0 Hva Hp); [lia | lia |].
    - destruct (Hhigh ltac:(lia)) as [e0 He0]. by apply (found_entry s va path e0 Hva Hp); [lia | |]. }
  destruct (present e) eqn:Hpr; cbn [negb]; [|wp_steps; by apply HQ].
  destruct (leaf_of_table s va l e Hleaf) as (_ & _ & Hlf & _).
  apply wp_bind, wp_replace_path; [done | done | lia | done |]. intros s1 Hset.
  assert (Hend : links 0 l = false \/ l = 1) by (left; apply links_zero).
  assert (Hok1 : tree_ok s1).
  { apply (set_end_ok s s1 va l t 0 Hok Hva ltac:(lia) Ht Hset Hend). by rewrite present_zero. }
  apply wp_bind, wp_prune; [done | done | lia | |].
  { eapply path_ok_kept; [|exact Hp]. intros l' Hl'.
    apply (set_tables_kept s s1 va l t 0 Hok Hva ltac:(lia) Ht Hset); [done | lia | left; lia]. }
  intros s2 Hok2 Hleaf2 Hrel2 Htidy2. wp_steps. apply HQ. split; [done|]. exists l, e.
  split; [done|]. split; [done|]. split; [|split].
  - intros va' Hva'. rewrite Hleaf2 by done. case_decide as Hs.
    + rewrite (set_leaf_here s s1 va l t 0 Hok Hva ltac:(lia) Ht Hset va' Hva' Hs). by rewrite present_zero.
    + apply (set_leaf_other s s1 va l t 0 Hok Hva ltac:(lia) Ht Hset va' Hva' Hs).
  - eapply releases_trans; [|exact Hrel2]. split; [apply (set_spare _ _ _ _ _ _ Hset)|].
    apply conserves_returns, (set_conserves s s1 va l t 0 Hok Hva ltac:(lia) Ht Hset).
    fold e. unfold links. by rewrite Hlf, andb_false_r.
  - apply Htidy2. intros va' l' t' Hva' Hl' Ht' Hb.
    pose proof (set_tables_subset s s1 va l t 0 Hok Hva ltac:(lia) Ht Hset va' l' t' Hend Hva' ltac:(lia) Ht') as H0.
    destruct (Z.eq_dec t' t) as [->|Hne].
    + right. by rewrite (set_tables_kept s s1 va l t 0 Hok Hva ltac:(lia) Ht Hset) by (done || lia || (left; lia)).
    + left. split; [done|]. apply (set_blank s s1 va l t 0 Hset); [by apply (tree_owned s Hok va' l'); [|lia|] | done | done].
Qed.

(** ** Checking arguments *)

Lemma lor_mod a b k : 0 <= k -> Z.lor a b mod 2 ^ k = Z.lor (a mod 2 ^ k) (b mod 2 ^ k).
Proof.
  intros Hk. apply Z.bits_inj'. intros i Hi. rewrite Z.lor_spec, !Z.testbit_mod_pow2, Z.lor_spec by done.
  by destruct (i <? k), (Z.testbit a i), (Z.testbit b i).
Qed.

Lemma land_span l x :
  1 <= l <= LEVELS -> Z.land x (u64 (bytes_in (size_at l) - 1)) = x mod span l.
Proof.
  intros Hl. destruct (span_pow l Hl) as (k & Hk & E0). unfold span. rewrite E0.
  pose proof (pow2_pos k ltac:(lia)). pose proof (Z.pow_lt_mono_r 2 k 64 ltac:(lia) ltac:(lia) ltac:(lia)).
  unfold u64. rewrite wrap_small by (split; lia). rewrite <- Z.land_ones by lia.
  by rewrite Z.ones_equiv.
Qed.

Lemma validate_spec l va pa :
  1 <= l <= LEVELS ->
  validate va (size_at l) pa =
  if valid va && (va mod span l =? 0) && (pa mod span l =? 0) then Ok l else Err INVALID_ADDRESS.
Proof.
  intros Hl. unfold validate. rewrite land_span, level_of_size by done.
  destruct (span_pow l Hl) as (k & Hk & E0). change (bytes_in (size_at l)) with (span l) in E0.
  rewrite E0, lor_mod by lia. destruct (valid va); cbn [negb orb andb]; [|done].
  destruct (Z.eqb_spec (va mod 2 ^ k) 0) as [->|Hva]; cbn [andb].
  - rewrite Z.lor_0_l. by destruct (pa mod 2 ^ k =? 0).
  - destruct (Z.eqb_spec (Z.lor (va mod 2 ^ k) (pa mod 2 ^ k)) 0) as [H0|]; [|done].
    by apply Z.lor_eq_0_iff in H0 as [? _].
Qed.

(** The level [leaf_size] settles on: the largest supported one that is not above [n]. *)
Fixpoint usable (n : nat) : Z :=
  match n with
  | O => 0
  | Datatypes.S n' =>
      if (1 <? Z.of_nat n) && negb (supports (size_at (Z.of_nat n))) then usable n' else Z.of_nat n
  end.

Definition usable_level (l : Z) : Z := usable (Z.to_nat l).

Lemma usable_level_step l :
  1 <= l ->
  usable_level l = if (1 <? l) && negb (supports (size_at l)) then usable_level (l - 1) else l.
Proof.
  intros Hl. unfold usable_level. replace (Z.to_nat l) with (Datatypes.S (Z.to_nat (l - 1))) by lia.
  cbn [usable]. by replace (Z.of_nat (Datatypes.S (Z.to_nat (l - 1)))) with l by lia.
Qed.

Lemma usable_level_range l : 1 <= l -> 1 <= usable_level l <= l.
Proof.
  intros Hl. replace l with (1 + Z.of_nat (Z.to_nat (l - 1))) by lia.
  induction (Z.to_nat (l - 1)) as [|n IH]; [split; by vm_compute|].
  rewrite usable_level_step by lia. destruct (_ && _); [|lia].
  replace (1 + Z.of_nat (Datatypes.S n) - 1) with (1 + Z.of_nat n) by lia. lia.
Qed.

Lemma wp_leaf_size s l (Q : page_size -> S -> Prop) :
  1 <= l <= LEVELS -> Q (size_at (usable_level l)) s -> wp (leaf_size (size_at l)) Q s.
Proof.
  intros Hl HQ. unfold leaf_size. pose proof levels_range. rewrite level_of_size by done. apply wp_bind.
  apply wp_while with
    (Inv := fun l' s' => s' = s /\ 1 <= l' <= l /\ usable_level l' = usable_level l)
    (variant := fun l' _ => l').
  - split; [done|]. split; [lia | done].
  - lia.
  - intros l' s' (-> & Hl' & Hu) _. wp_steps. rewrite usable_level_step in Hu by lia.
    destruct (_ && _) eqn:E0.
    + apply andb_true_iff in E0 as [E0 _]. apply Z.ltb_lt in E0. wp_steps.
      rewrite u64_level by lia. split; [|lia]. split; [done|]. split; [lia | done].
    + wp_steps. by rewrite Hu.
Qed.

(** ** Pages *)

Lemma page_interval l va x :
  1 <= l <= LEVELS -> va mod span l = 0 -> va / span l = x / span l <-> va <= x < va + span l.
Proof.
  intros Hl Hm. pose proof (span_positive l Hl). pose proof (Z.div_mod va _ (span_nonzero l Hl)).
  pose proof (Z.div_mod x _ (span_nonzero l Hl)).
  pose proof (Z.mod_pos_bound x _ (span_positive l Hl)).
  set (q := va / span l) in *. split.
  - intros E0. rewrite <- E0 in *. lia.
  - intros Hx. apply Z.div_unique with (x - va); [left; lia | lia].
Qed.

Lemma same_page_interval l va x :
  1 <= l <= LEVELS -> va mod span l = 0 -> same_page l va x <-> va <= x < va + span l.
Proof.
  intros Hl Hm. rewrite <- page_interval by done. unfold same_page. split; [intros [|]; lia | by right].
Qed.

(** Addresses of a page share its leaf. *)
Lemma leaf_of_page s x y l e :
  canonical x -> canonical y -> leaf_of s x = Some (l, e) -> same_page l x y -> leaf_of s y = Some (l, e).
Proof.
  intros Hx Hy Hleaf Hs. destruct (leaf_of_table s x l e Hleaf) as (Hl & Hp & Hlf & t & Ht & He).
  apply page_index in Hs as [Hs' Hi]; [|done..]. rewrite (table_at_same s x y l) in Ht by done.
  rewrite (leaf_of_via s y l t Hl Ht), resolve_step by lia. cbv zeta. by rewrite <- Hi, <- He, Hp, Hlf.
Qed.

Lemma canonical_page l x y : 1 <= l <= LEVELS -> canonical x -> x / span l = y / span l -> canonical y.
Proof. intros Hl [Hr Hv] Hd. by apply (valid_page l x y). Qed.

(** ** Mapping and protecting one leaf *)

Lemma wp_set_leaf s va l t pa prot (Q : unit -> S -> Prop) :
  tree_ok s -> canonical va -> 1 <= l < LEVELS -> table_at s va l = Some t ->
  0 <= pa -> pa + span l <= 2 ^ 52 -> pa mod span l = 0 -> links (word s t (index l va)) l = false ->
  (forall s', tree_ok s' -> (forall va', canonical va' -> leaf_of s' va' =
     if decide (same_page l va va') then Some (l, leaf_entry pa (size_at l) prot)
     else leaf_of s va') -> spread s s' va -> Q tt s') ->
  wp (replace_entry (t, index l va) (leaf_entry pa (size_at l) prot) va) Q s.
Proof.
  intros Hok Hva Hl Ht Hpa Hmax Hal Hold HQ. pose proof (span_positive l ltac:(lia)).
  destruct (leaf_entry_ok l pa prot Hl ltac:(lia) Hal) as (Hp & Hlf & Ha & Hpr).
  apply wp_replace_path; [done | done | lia | done |]. intros s' Hset.
  set (e := leaf_entry pa (size_at l) prot) in *.
  assert (Hend : links e l = false \/ l = 1) by (left; unfold links; by rewrite Hlf, andb_false_r).
  apply HQ.
  - apply (set_end_ok s s' va l t e Hok Hva ltac:(lia) Ht Hset Hend). by rewrite Ha.
  - intros va' Hva'. case_decide as Hs.
    + rewrite (set_leaf_here s s' va l t e Hok Hva ltac:(lia) Ht Hset va' Hva' Hs).
      by rewrite Hp, Hlf.
    + by rewrite (set_leaf_other s s' va l t e Hok Hva ltac:(lia) Ht Hset va' Hva' Hs).
  - split.
    + apply (set_conserves s s' va l t e Hok Hva ltac:(lia) Ht Hset Hold).
    + intros va' l' t' Hva' Hl' Ht'. left.
      by apply (set_tables_subset s s' va l t e Hok Hva ltac:(lia) Ht Hset va' l' t').
    + intros _. apply (set_end_tidy s s' va l t e Hok Hva ltac:(lia) Ht Hset Hend).
      intros E0. by rewrite E0, present_zero in Hp.
Qed.

(** The sizes of the leaves after [n] bytes from [va] got leaves of level [l] at most: elsewhere
    leaves can only have been split. *)
Definition grains (s s' : S) (va n l : Z) : Prop :=
  forall x l' e', canonical x -> leaf_of s' x = Some (l', e') ->
    if (va <=? x) && (x <? va + n) then l' <= l
    else exists l0 e0, leaf_of s x = Some (l0, e0) /\ l' <= l0.

Lemma grains_refines s s' va l : refines s s' -> grains s s' va 0 l.
Proof.
  intros Hr x l' e' Hx Hleaf. destruct (Hr x Hx) as [_ Hl]. specialize (Hl l' e' Hleaf).
  destruct_comparisons; cbn [andb]; done || lia.
Qed.

Lemma grains_trans s s1 s2 va n m l :
  0 <= n -> 0 <= m -> grains s s1 va n l -> grains s1 s2 (va + n) m l -> grains s s2 va (n + m) l.
Proof.
  intros Hn Hm H1 H2 x l2 e2 Hx Hleaf. specialize (H2 x l2 e2 Hx Hleaf).
  destruct (Z.leb_spec (va + n) x), (Z.ltb_spec x (va + n + m)); cbn [andb] in H2.
  { destruct_comparisons; cbn [andb]; done || lia. }
  all: destruct H2 as (l1 & e1 & H' & Hle); specialize (H1 x l1 e1 Hx H').
  all: destruct (Z.leb_spec va x), (Z.ltb_spec x (va + n)); cbn [andb] in H1; try lia.
  all: destruct (Z.ltb_spec x (va + (n + m))); cbn [andb]; try lia.
  all: destruct H1 as (l0 & e0 & Hlf0 & Hle0); exists l0, e0; split; [done | lia].
Qed.

(** The view after [n] bytes from [va] were mapped to [pa] with leaves of level [l]. *)
Definition maps (s s' : S) (va pa n l : Z) (prot : page_prot) : Prop :=
  (forall x, canonical x ->
     translation s' x = if (va <=? x) && (x <? va + n) then Some (pa + (x - va), effective_prot prot)
                        else translation s x) /\
  grains s s' va n l.

Lemma maps_nothing s s' va pa l prot : refines s s' -> maps s s' va pa 0 l prot.
Proof.
  intros Hr. split; [|by apply grains_refines]. intros x Hx. rewrite (proj1 (Hr x Hx)).
  destruct_comparisons; cbn; done || lia.
Qed.

Lemma maps_trans s s1 s2 va pa n m l prot :
  0 <= n -> 0 <= m -> maps s s1 va pa n l prot -> maps s1 s2 (va + n) (pa + n) m l prot ->
  maps s s2 va pa (n + m) l prot.
Proof.
  intros Hn Hm [H1 G1] [H2 G2]. split; [|by eapply grains_trans]. intros x Hx.
  rewrite H2, H1 by done. destruct_comparisons; cbn; try lia; try done.
  f_equal. f_equal. lia.
Qed.

Lemma page_offset l va x :
  1 <= l <= LEVELS -> va mod span l = 0 -> va <= x < va + span l -> x mod span l = x - va.
Proof.
  intros Hl Hm Hx. pose proof (span_positive l Hl). apply Z.mod_divide in Hm as [q ->]; [|lia].
  replace x with (x - q * span l + q * span l) at 1 by lia. rewrite Z.mod_add by lia.
  apply Z.mod_small. lia.
Qed.

(** Why a page was not mapped, when the tree is left in [s']. *)
Definition map_error (s s' : S) (va pa l : Z) (e : mm_error) : Prop :=
  match e with
  | INVALID_ADDRESS => ~ (valid va = true /\ va mod span l = 0 /\ pa mod span l = 0)
  | CONFLICT => valid va = true /\ (1 < l \/ translation s va <> None)
  | OUT_OF_MEMORY => exhausted s'
  | UNSUPPORTED_SIZE | NOT_MAPPED => False
  end.

(** One leaf, set after the tree was refined. *)
Lemma set_grains s s1 s2 va l e :
  refines s s1 -> canonical va -> 1 <= l <= LEVELS -> va mod span l = 0 ->
  (forall x, canonical x -> leaf_of s2 x = if decide (same_page l va x) then Some (l, e) else leaf_of s1 x) ->
  grains s s2 va (span l) l.
Proof.
  intros Hr Hva Hl Hal H2 x l' e' Hx. rewrite H2 by done.
  pose proof (same_page_interval l va x Hl Hal) as Hpg. case_decide as Hs; intros Hleaf.
  - injection Hleaf as <- <-. apply Hpg in Hs. destruct_comparisons; cbn [andb]; done || lia.
  - destruct (_ && _) eqn:E0; [|by apply (proj2 (Hr x Hx)) with (1 := Hleaf)].
    apply andb_true_iff in E0. exfalso. apply Hs, Hpg. lia.
Qed.

Lemma set_maps s s1 s2 va pa l prot :
  refines s s1 -> canonical va -> va mod span l = 0 -> pa mod span l = 0 ->
  1 <= l < LEVELS -> 0 <= pa < 2 ^ 52 ->
  (forall x, canonical x -> leaf_of s2 x =
     if decide (same_page l va x) then Some (l, leaf_entry pa (size_at l) prot) else leaf_of s1 x) ->
  maps s s2 va pa (span l) l prot.
Proof.
  intros Hr Hva Hal Hpal Hl Hpa H2.
  destruct (leaf_entry_ok l pa prot Hl Hpa Hpal) as (_ & _ & Ha & Hpr).
  split; [|eapply set_grains; [exact Hr | done | lia | done | exact H2]].
  intros x Hx. unfold translation at 1. rewrite H2 by done.
  pose proof (same_page_interval l va x ltac:(lia) Hal) as Hpg. case_decide as Hs.
  - unfold mapped. cbn [fst snd]. rewrite Ha, Hpr. apply Hpg in Hs.
    rewrite (page_offset l va x) by (done || lia). destruct_comparisons; cbn; done || lia.
  - destruct (_ && _) eqn:E0; [apply andb_true_iff in E0; exfalso; apply Hs, Hpg; lia|].
    by apply Hr.
Qed.

Lemma wp_map_leaf s va pa l prot (Q : Result unit mm_error -> S -> Prop) :
  tree_ok s -> 0 <= va < 2 ^ 64 -> 1 <= l < LEVELS -> 0 <= pa -> pa + span l <= 2 ^ 52 ->
  (forall r s', tree_ok s' -> spread s s' va ->
     match r with
     | Ok _ => maps s s' va pa (span l) l prot
     | Err e => maps s s' va pa 0 l prot /\ map_error s s' va pa l e
     end -> Q r s') ->
  wp (map_leaf root va pa (size_at l) prot) Q s.
Proof.
  intros Hok Hr Hl Hpa Hmax HQ. unfold map_leaf. rewrite validate_spec by lia. wp_steps.
  assert (HE : forall e s', tree_ok s' -> refines s s' -> spread s s' va -> map_error s s' va pa l e -> Q (Err e) s')
    by (intros; apply HQ; [done | done | split; [by apply maps_nothing | done]]).
  destruct (valid va) eqn:Hv; cbn [andb];
    [|by apply HE; [| apply refines_refl | apply spread_refl | intros (E0 & _); congruence]].
  destruct (Z.eqb_spec (va mod span l) 0) as [Hva|]; cbn [andb];
    [|by apply HE; [| apply refines_refl | apply spread_refl | intros (_ & ? & _)]].
  destruct (Z.eqb_spec (pa mod span l) 0) as [Hal|];
    [|by apply HE; [| apply refines_refl | apply spread_refl | intros (_ & _ & ?)]].
  assert (Hc : canonical va) by done.
  wp_steps. apply wp_walk_alloc; [done | done | lia |]. intros r s1 (Hok1 & Href & _ & Hsp & Hres).
  assert (Hview : forall x, canonical x -> translation s1 x = translation s x) by (intros x Hx; by apply Href).
  destruct r as [path|er]; [|destruct Hres as [-> Hex]; by apply HE]. destruct Hres as [_ Hp].
  wp_steps. eapply wp_slot_at; [exact Hp | lia | lia |]. intros t Ht. wp_steps.
  apply wp_read_path; [done | done | lia | done |]. set (old := word s1 t (index l va)).
  destruct (leaf_entry_ok l pa prot Hl ltac:(pose proof (span_positive l ltac:(lia)); lia) Hal) as (Hpe & Hlf & Ha & Hpr).
  destruct (present old) eqn:Hpo; cbn [andb negb when].
  - destruct (Z.eqb_spec old (leaf_entry pa (size_at l) prot)) as [Heq|]; cbn [negb].
    + wp_steps. apply HQ; [done | done |]. apply (set_maps s s1); [done | done | done | done | done | pose proof (span_positive l ltac:(lia)); lia |].
      intros x Hx. case_decide as Hs; [|done]. rewrite (leaf_of_via s1 x l t); [| lia |].
      * apply page_index in Hs as [_ Hi]; [|lia|done|done]. rewrite resolve_step by lia. cbv zeta.
        rewrite <- Hi. fold old. by rewrite Hpo, Heq, Hlf.
      * apply page_index in Hs as [Hs' _]; [|lia|done|done]. rewrite <- (table_at_same s1 va x l); done || lia.
    + wp_steps. apply HE; [done | done | done |]. split; [done|]. destruct (Z.eq_dec l 1) as [El|]; [right | left; lia].
      rewrite <- Hview by done. unfold translation. rewrite (leaf_of_via s1 va l t) by (done || lia).
      rewrite resolve_step by lia. cbv zeta. fold old. by rewrite Hpo, El, leaf_one.
  - wp_steps. apply wp_set_leaf; [done | done | done | done | done | done | done | |].
    { fold old. unfold links. by rewrite Hpo. }
    intros s2 Hok2 H2 Hsp2. wp_steps. apply HQ; [done | by eapply spread_trans |]. apply (set_maps s s1); [done | done | done | done | done | pose proof (span_positive l ltac:(lia)); lia | done].
Qed.

(** ** Ranges *)

(** The loop over the leaves of a range: [fn] takes [Inv] from an offset to the next or fails. *)
Definition bad_length (l length : Z) : Prop := length = 0 \/ length mod span (usable_level l) <> 0.

Lemma wp_for_each_leaf s va length l fn (Inv : Z -> S -> Prop) (Failed : mm_error -> S -> Prop)
    (Q : Result unit mm_error -> S -> Prop) :
  1 <= l <= LEVELS -> 0 <= va -> 0 <= length -> va + length <= 2 ^ 64 -> length < 2 ^ 64 ->
  Inv 0 s ->
  (forall offset s', 0 <= offset -> offset mod span (usable_level l) = 0 ->
     offset + span (usable_level l) <= length -> Inv offset s' ->
     wp (fn (va + offset) offset (size_at (usable_level l)))
        (fun r s'' => match r with Ok _ => Inv (offset + span (usable_level l)) s'' | Err e => Failed e s'' end) s') ->
  (bad_length l length -> Q (Err INVALID_ADDRESS) s) ->
  (forall s', Inv length s' -> Q (Ok tt) s') ->
  (forall e s', Failed e s' -> Q (Err e) s') ->
  wp (for_each_leaf va length (size_at l) fn) Q s.
Proof.
  intros Hl Hva Hlen Hend Hlen64 H0 Hfn HI HQ HE. unfold for_each_leaf.
  pose proof (usable_level_range l ltac:(lia)) as Hu.
  apply wp_bind, wp_leaf_size; [done|]. cbv zeta. set (step := span (usable_level l)) in *.
  change (bytes_in (size_at (usable_level l))) with step.
  assert (0 < step) as Hstep by (apply span_positive; lia).
  destruct (Z.eqb_spec length 0); cbn [orb]; [wp_steps; apply HI; by left|].
  destruct (Z.eqb_spec (length mod step) 0) as [Hm|]; cbn [negb]; [|wp_steps; apply HI; by right].
  rename n into Hnz. apply Z.mod_divide in Hm as [n Hn]; [|lia]. apply wp_bind.
  assert (Hdiv : length / step = n) by (rewrite Hn; apply Z.div_mul; lia). rewrite Hdiv.
  apply wp_while with
    (Inv := fun '(offset, failed) s' =>
       match failed with
       | None => exists k, offset = k * step /\ 0 <= k <= n /\ Inv offset s'
       | Some e => Failed e s'
       end)
    (variant := fun '(offset, failed) _ => match failed with None => n - offset / step + 1 | Some _ => 0 end).
  - exists 0. split; [lia|]. split; [nia | done].
  - rewrite Z.div_0_l by lia. nia.
  - intros [offset failed] s' HInv _. destruct failed as [e|].
    { wp_steps. cbn. by apply HE. }
    destruct HInv as (k & -> & Hk & HInv). rewrite Z.div_mul by lia. wp_steps.
    destruct (Z.ltb_spec (k * step) length) as [Hlt|Hge].
    + assert (k < n) by nia. wp_steps.
      assert (u64 (va + k * step) = va + k * step) as -> by (apply wrap_small; split; nia).
      eapply wp_mono; [apply Hfn; [nia | by apply Z.mod_mul; lia | nia | done]|]. intros r s'' Hr. cbv beta. wp_steps.
      destruct r as [[]|e]; [|split; [done | lia]].
      assert (u64 (k * step + step) = (k + 1) * step) as -> by (transitivity (k * step + step); [apply wrap_small; split; nia | lia]).
      rewrite Z.div_mul by lia. split; [|lia]. exists (k + 1). split; [done|]. split; [lia|].
      by replace ((k + 1) * step) with (k * step + step) by lia.
    + wp_steps. cbn. apply HQ. assert (k = n) as -> by nia. by rewrite Hn.
Qed.

Lemma map_error_kept s s' s2 va pa n k prot l e :
  0 <= va + n < 2 ^ 64 -> maps s s' va pa n k prot -> map_error s' s2 (va + n) (pa + n) l e ->
  map_error s s2 (va + n) (pa + n) l e.
Proof.
  intros Hr [Hm _]. destruct e; try done. cbn. intros [Hv [?|Ht]]; (split; [done|]); [by left|]. right.
  by rewrite (Hm (va + n)), Z.ltb_irrefl, andb_false_r in Ht by (by split).
Qed.

(** What the mapping of [n] bytes from [va] does to the tables. *)
Record spread_over (s s' : S) (va n : Z) : Prop := {
  over_held : conserves s s';
  over_tables x l t : canonical x -> 1 <= l <= LEVELS -> table_at s' x l = Some t ->
    table_at s x l = Some t \/ exists y, va <= y < va + n /\ same_page (l + 1) y x;
}.

Lemma spread_over_refl s va n : spread_over s s va n.
Proof. split; [apply conserves_refl | by left]. Qed.

Lemma spread_over_trans s s1 s2 va n m :
  0 <= n -> 0 <= m -> spread_over s s1 va n -> spread_over s1 s2 (va + n) m -> spread_over s s2 va (n + m).
Proof.
  intros Hn Hm [H1 T1] [H2 T2]. split; [by eapply conserves_trans|]. intros x l t Hx Hl Ht.
  destruct (T2 x l t Hx Hl Ht) as [Ht1|(y & Hy & Hs)]; [|right; exists y; split; [lia | done]].
  destruct (T1 x l t Hx Hl Ht1) as [|(y & Hy & Hs)]; [by left | right; exists y; split; [lia | done]].
Qed.

Lemma spread_one s s' va n : 0 < n -> spread s s' va -> spread_over s s' va n.
Proof.
  intros Hn [H1 T1 _]. split; [done|]. intros x l t Hx Hl Ht.
  destruct (T1 x l t Hx Hl Ht) as [|Hs]; [by left | right]. exists va. split; [lia | done].
Qed.

Lemma spread_over_more s s' va n m : n <= m -> spread_over s s' va n -> spread_over s s' va m.
Proof.
  intros Hn [H1 T1]. split; [done|]. intros x l t Hx Hl Ht.
  destruct (T1 x l t Hx Hl Ht) as [|(y & Hy & Hs)]; [by left | right; exists y; split; [lia | done]].
Qed.

Lemma wp_map_range s va pa length l prot (Q : Result unit mm_error -> S -> Prop) :
  tree_ok s -> 1 <= l < LEVELS -> 0 <= va -> 0 <= length < 2 ^ 64 -> va + length <= 2 ^ 64 ->
  0 <= pa -> pa + length <= 2 ^ 52 ->
  (forall r s', tree_ok s' -> spread_over s s' va length ->
     match r with
     | Ok _ => maps s s' va pa length (usable_level l) prot
     | Err e => exists n, 0 <= n <= length /\ n mod span (usable_level l) = 0 /\
         maps s s' va pa n (usable_level l) prot /\
         (e = INVALID_ADDRESS /\ bad_length l length \/
          n < length /\ map_error s s' (va + n) (pa + n) (usable_level l) e)
     end -> Q r s') ->
  wp (map_range root va pa length (size_at l) prot) Q s.
Proof.
  intros Hok Hl Hva Hlen Hend Hpa Hmax HQ. unfold map_range.
  pose proof (usable_level_range l ltac:(lia)) as Hu.
  pose proof (span_positive (usable_level l) ltac:(lia)) as Hpos.
  apply wp_for_each_leaf with
    (Inv := fun offset s' => tree_ok s' /\ spread_over s s' va offset /\ maps s s' va pa offset (usable_level l) prot)
    (Failed := fun e s' => tree_ok s' /\ spread_over s s' va length /\ exists n, 0 <= n <= length /\ n mod span (usable_level l) = 0 /\
         maps s s' va pa n (usable_level l) prot /\
       (e = INVALID_ADDRESS /\ bad_length l length \/
        n < length /\ map_error s s' (va + n) (pa + n) (usable_level l) e));
    [lia | lia | lia | lia | lia | | | | |].
  - split; [done|]. split; [apply spread_over_refl | by apply maps_nothing, refines_refl].
  - intros offset s' Ho Hmod Hfit (Hok' & Hsp & Hm).
    assert (u64 (pa + offset) = pa + offset) as -> by (apply wrap_small; split; lia).
    apply wp_map_leaf; [done | lia | lia | lia | lia |]. intros r s'' Hok'' Hsp' Hr.
    assert (Hsp2 : spread_over s s'' va (offset + span (usable_level l))).
    { eapply spread_over_trans; [lia | lia | exact Hsp |]. by apply spread_one. }
    destruct r as [[]|e]; (split; [done|]).
    + split; [done|]. eapply maps_trans; [lia | lia | exact Hm | exact Hr].
    + split; [by eapply spread_over_more|]. destruct Hr as [Hr He]. exists (offset + 0). split; [lia|]. split; [by rewrite Z.add_0_r|].
      split; [eapply maps_trans; [lia | lia | exact Hm | exact Hr]|]. right. split; [lia|].
      rewrite Z.add_0_r. eapply map_error_kept; [lia | exact Hm | exact He].
  - intros Hbad. apply HQ; [done | apply spread_over_refl |]. exists 0. split; [lia|]. split; [apply Z.mod_0_l; lia|].
    split; [by apply maps_nothing, refines_refl | by left].
  - intros s' (Hok' & Hsp & Hm). by apply HQ.
  - intros e s' (Hok' & Hsp & Hm). by apply HQ.
Qed.

(** ** Protecting *)

(** The view after the protection of [n] mapped bytes from [va] was changed. *)
Definition protects (s s' : S) (va n l : Z) (prot : page_prot) : Prop :=
  (forall x, canonical x ->
     if (va <=? x) && (x <? va + n)
     then exists pa old, translation s x = Some (pa, old) /\ translation s' x = Some (pa, effective_prot prot)
     else translation s' x = translation s x) /\
  grains s s' va n l.

Lemma protects_nothing s s' va l prot : refines s s' -> protects s s' va 0 l prot.
Proof.
  intros Hr. split; [|by apply grains_refines]. intros x Hx. rewrite (proj1 (Hr x Hx)).
  destruct_comparisons; cbn; done || lia.
Qed.

Lemma protects_trans s s1 s2 va n m l prot :
  0 <= n -> 0 <= m -> protects s s1 va n l prot -> protects s1 s2 (va + n) m l prot ->
  protects s s2 va (n + m) l prot.
Proof.
  intros Hn Hm [H1 G1] [H2 G2]. split; [|by eapply grains_trans].
  intros x Hx. specialize (H1 x Hx). specialize (H2 x Hx).
  destruct (Z.leb_spec va x), (Z.ltb_spec x (va + n)), (Z.leb_spec (va + n) x),
    (Z.ltb_spec x (va + n + m)), (Z.ltb_spec x (va + (n + m))); cbn [andb] in *; try lia;
    first [ congruence
          | destruct H1 as (pa & old & HA & HB); exists pa, old; split; congruence
          | destruct H2 as (pa & old & HA & HB); exists pa, old; split; congruence ].
Qed.

Lemma resolve_level s va m t l e : resolve s va m t = Some (l, e) -> l <= Z.of_nat m.
Proof.
  revert t. induction m as [|m IH]; intros t; [done|]. cbn [resolve]. cbv zeta.
  set (w := word s t _). destruct (present w); cbn [negb]; [|done].
  destruct (leaf w _); [intros [= <- _]; lia | intros H'%IH; lia].
Qed.

(** Why the protection of a page was not changed, when the tree is left in [s']. *)
Definition protect_error (s s' : S) (va l : Z) (e : mm_error) : Prop :=
  match e with
  | INVALID_ADDRESS => ~ (valid va = true /\ va mod span l = 0)
  | NOT_MAPPED => valid va = true /\ translation s va = None
  | CONFLICT => valid va = true /\ 1 < l
  | OUT_OF_MEMORY => valid va = true /\ exhausted s' /\ exists l' e', leaf_of s va = Some (l', e') /\ l < l'
  | UNSUPPORTED_SIZE => False
  end.

(** After [walk_to_leaf], the target entry is a leaf and maps the address. *)
Lemma wp_walk_to_leaf s va target (Q : Result walk_path mm_error -> S -> Prop) :
  tree_ok s -> canonical va -> 1 <= target <= LEVELS ->
  (forall r s', tree_ok s' -> refines s s' -> conserves s s' ->
     match r with
     | Ok path => path_ok s' va path target /\ exists t, table_at s' va target = Some t /\
         present (word s' t (index target va)) = true /\ leaf (word s' t (index target va)) target = true
     | Err e => protect_error s s' va target e
     end -> Q r s') ->
  wp (walk_to_leaf root va target) Q s.
Proof.
  intros Hok Hva Htg HQ. unfold walk_to_leaf. apply wp_ktry, wp_walk_find; [done..|]. intros r Hr.
  destruct r as [path|er]; cycle 1.
  { destruct Hr as [-> Hno]. apply HQ; [done | apply refines_refl | apply conserves_refl |]. split; [apply Hva|].
    unfold translation. by rewrite Hno. }
  destruct Hr as (Hl & Hp & Hhigh). apply wp_ktry.
  assert (Hrest : forall path s1, tree_ok s1 -> refines s s1 -> conserves s s1 -> path_ok s1 va path target ->
    wp (sl ← slot_at path target; entry ← read sl;
        if negb (present entry) then mret (Err NOT_MAPPED)
        else if negb (leaf entry target) then mret (Err CONFLICT) else mret (Ok path)) Q s1).
  { intros p1 s1 Hok1 Hr1 Hc1 Hp1. apply wp_bind. eapply wp_slot_at; [exact Hp1 | lia | lia |].
    intros t Ht. apply wp_bind, wp_read_path; [done | done | lia | done |].
    destruct (present _) eqn:Hpr; cbn [negb]; cycle 1.
    { wp_steps. apply HQ; [done | done | done |]. split; [apply Hva|]. rewrite <- (proj1 (Hr1 va Hva)).
      unfold translation. rewrite (leaf_of_via s1 va target t), resolve_step by (done || lia).
      cbv zeta. by rewrite Hpr. }
    destruct (leaf _ _) eqn:Hlf; cbn [negb]; wp_steps; apply HQ; try done.
    - split; [done|]. by exists t.
    - split; [apply Hva|]. destruct (Z.eq_dec target 1) as [El|]; [|lia]. by rewrite El, leaf_one in Hlf. }
  destruct (Z.ltb_spec target (reached_level path)).
  - apply wp_walk_alloc; [done | done | lia |]. intros r s1 (Hok1 & Hr1 & _ & Hsp1 & Hres).
    destruct r as [p1|e]; [destruct Hres as [_ Hp1]; by apply Hrest; [| | apply Hsp1 |]|]. destruct Hres as [-> Hex].
    apply HQ; [done | done | apply Hsp1 |]. split; [apply Hva|]. split; [done|]. destruct (Hhigh ltac:(lia)) as [e He].
    by exists (reached_level path), e.
  - wp_step. assert (reached_level path = target) as E0 by lia. rewrite E0 in Hp.
    apply Hrest; [done | apply refines_refl | apply conserves_refl | done].
Qed.

Lemma wp_protect_leaf s va l prot (Q : Result unit mm_error -> S -> Prop) :
  tree_ok s -> 0 <= va < 2 ^ 64 -> 1 <= l < LEVELS ->
  (forall r s', tree_ok s' -> conserves s s' ->
     match r with
     | Ok _ => protects s s' va (span l) l prot
     | Err e => protects s s' va 0 l prot /\ protect_error s s' va l e
     end -> Q r s') ->
  wp (protect_leaf root va (size_at l) prot) Q s.
Proof.
  intros Hok Hr Hl HQ. unfold protect_leaf. rewrite validate_spec by lia. wp_steps.
  assert (HE : forall e s', tree_ok s' -> refines s s' -> conserves s s' -> protect_error s s' va l e -> Q (Err e) s')
    by (intros; apply HQ; [done | done | split; [by apply protects_nothing | done]]).
  destruct (valid va) eqn:Hv; cbn [andb]; [|by apply HE; [| apply refines_refl | apply conserves_refl | intros (E0 & _); congruence]].
  destruct (Z.eqb_spec (va mod span l) 0) as [Hva|]; cbn [andb]; [|by apply HE; [| apply refines_refl | apply conserves_refl | intros (_ & ?)]].
  rewrite Z.mod_0_l by (apply span_nonzero; lia). cbn [Z.eqb].
  assert (Hc : canonical va) by done.
  wp_steps. apply wp_walk_to_leaf; [done | done | lia |]. intros r s1 Hok1 Href Hcons Hres.
  assert (Hview : forall x, canonical x -> translation s1 x = translation s x) by (intros x Hx; by apply Href).
  destruct r as [path|er]; [|by apply HE].
  destruct Hres as [Hp (t & Ht & Hpr & Hlf)].
  wp_steps. eapply wp_slot_at; [exact Hp | lia | lia |]. intros t' Ht'. assert (t' = t) as -> by congruence.
  wp_steps. apply wp_read_path; [done | done | lia | done |].
  set (old := word s1 t (index l va)) in *.
  destruct (tree_leaves s1 Hok1 va l t Hc ltac:(lia) Ht Hpr Hlf) as [Hal Hmax]. fold old in Hal, Hmax.
  wp_steps. apply wp_set_leaf; [done | done | done | done | apply address_addressable | done | done | |].
  { fold old. unfold links. by rewrite Hlf, andb_false_r. }
  intros s2 Hok2 H2 Hsp2. wp_steps. apply HQ; [done | eapply conserves_trans; [exact Hcons | apply Hsp2] |].
  split; [|eapply set_grains; [exact Href | done | lia | done | exact H2]]. intros x Hx.
  pose proof (same_page_interval l va x ltac:(lia) Hva) as Hpg.
  destruct (leaf_entry_ok l (address old) prot Hl ltac:(apply address_addressable) Hal) as (_ & _ & Ha' & Hpr').
  rewrite <- (Hview x) by done. unfold translation at 2 3. rewrite H2 by done.
  case_decide as Hs.
  - assert (Hbr : (va <=? x) && (x <? va + span l) = true).
    { apply Hpg in Hs. apply andb_true_iff. lia. }
    rewrite Hbr. exists (address old + x mod span l), (entry_prot old).
    split; [|unfold mapped; cbn [fst snd]; by rewrite Ha', Hpr'].
    unfold translation. rewrite (leaf_of_via s1 x l t); [| lia |].
    + apply page_index in Hs as [_ Hi]; [|lia|done|done]. rewrite resolve_step by lia. cbv zeta.
      rewrite <- Hi. fold old. by rewrite Hpr, Hlf.
    + apply page_index in Hs as [Hs' _]; [|lia|done|done]. rewrite <- (table_at_same s1 va x l); done || lia.
  - assert (Hbr : (va <=? x) && (x <? va + span l) = false); [|by rewrite Hbr].
    destruct (_ && _) eqn:E0; [|done]. apply andb_true_iff in E0. exfalso. apply Hs, Hpg. lia.
Qed.

Lemma protect_error_kept s s' s2 va n k prot l e :
  0 <= va + n < 2 ^ 64 -> protects s s' va n k prot -> protect_error s' s2 (va + n) l e ->
  protect_error s s2 (va + n) l e.
Proof.
  intros Hr [Hm Hg]. destruct e; try done; cbn; intros [Hv Ht]; (split; [done|]).
  - destruct Ht as (Hex & l' & e' & He & Hl). split; [done|]. specialize (Hg (va + n) l' e' ltac:(by split) He).
    rewrite Z.ltb_irrefl, andb_false_r in Hg. destruct Hg as (l0 & e0 & He0 & Hle).
    exists l0, e0. split; [done | lia].
  - specialize (Hm (va + n) ltac:(by split)). rewrite Z.ltb_irrefl, andb_false_r in Hm. congruence.
Qed.

Lemma wp_protect_range s va length l prot (Q : Result unit mm_error -> S -> Prop) :
  tree_ok s -> 1 <= l < LEVELS -> 0 <= va -> 0 <= length < 2 ^ 64 -> va + length <= 2 ^ 64 ->
  (forall r s', tree_ok s' -> conserves s s' ->
     match r with
     | Ok _ => protects s s' va length (usable_level l) prot
     | Err e => exists n, 0 <= n <= length /\ n mod span (usable_level l) = 0 /\
         protects s s' va n (usable_level l) prot /\
         (e = INVALID_ADDRESS /\ bad_length l length \/
          n < length /\ protect_error s s' (va + n) (usable_level l) e)
     end -> Q r s') ->
  wp (protect_range root va length (size_at l) prot) Q s.
Proof.
  intros Hok Hl Hva Hlen Hend HQ. unfold protect_range.
  pose proof (usable_level_range l ltac:(lia)) as Hu.
  pose proof (span_positive (usable_level l) ltac:(lia)) as Hpos.
  apply wp_for_each_leaf with
    (Inv := fun offset s' => tree_ok s' /\ conserves s s' /\ protects s s' va offset (usable_level l) prot)
    (Failed := fun e s' => tree_ok s' /\ conserves s s' /\ exists n, 0 <= n <= length /\ n mod span (usable_level l) = 0 /\
         protects s s' va n (usable_level l) prot /\
       (e = INVALID_ADDRESS /\ bad_length l length \/
        n < length /\ protect_error s s' (va + n) (usable_level l) e));
    [lia | lia | lia | lia | lia | | | | |].
  - split; [done|]. split; [apply conserves_refl | by apply protects_nothing, refines_refl].
  - intros offset s' Ho Hmod Hfit (Hok' & Hcons & Hm).
    apply wp_protect_leaf; [done | lia | lia |]. intros r s'' Hok'' Hcons' Hr.
    destruct r as [[]|e]; (split; [done|]); (split; [by eapply conserves_trans|]).
    + eapply protects_trans; [lia | lia | exact Hm | exact Hr].
    + destruct Hr as [Hr He]. exists (offset + 0). split; [lia|]. split; [by rewrite Z.add_0_r|].
      split; [eapply protects_trans; [lia | lia | exact Hm | exact Hr]|]. right. split; [lia|].
      rewrite Z.add_0_r. eapply protect_error_kept; [lia | exact Hm | exact He].
  - intros Hbad. apply HQ; [done | apply conserves_refl |]. exists 0. split; [lia|]. split; [apply Z.mod_0_l; lia|].
    split; [by apply protects_nothing, refines_refl | by left].
  - intros s' (Hok' & Hcons & Hm). by apply HQ.
  - intros e s' (Hok' & Hcons & Hm). by apply HQ.
Qed.

(** ** Translating *)

Lemma wp_translate s va (Q : Result mapping mm_error -> S -> Prop) :
  tree_ok s -> 0 <= va < 2 ^ 64 ->
  (forall r,
     match r with
     | Ok m => valid va = true /\ exists l e, leaf_of s va = Some (l, e) /\
         m = {| frame := address e; offset := va mod span l; size := size_at l; prot := entry_prot e |}
     | Err INVALID_ADDRESS => valid va = false
     | Err e => e = NOT_MAPPED /\ valid va = true /\ leaf_of s va = None
     end -> Q r s) ->
  wp (translate root va) Q s.
Proof.
  intros Hok Hr HQ. pose proof levels_range. unfold translate.
  destruct (valid va) eqn:Hv; cbn [negb]; [|by wp_steps; apply HQ].
  assert (Hva : canonical va) by done.
  apply wp_ktry, wp_walk_find; [done | done | lia |]. intros r Hfound.
  destruct r as [path|er]; [|destruct Hfound as [-> Hno]; by apply HQ].
  destruct Hfound as (Hl & Hp & Hhigh). apply wp_bind. eapply wp_slot_at; [exact Hp | lia | lia |].
  intros t Ht. apply wp_bind, wp_read_path; [done | done | lia | done |].
  set (l := reached_level path) in *. set (e := word s t (index l va)).
  assert (Hleaf : leaf_of s va = if present e then Some (l, e) else None).
  { destruct (Z.eq_dec l 1) as [E1|].
    - by apply (found_entry s va path 0 Hva Hp); [lia | lia |].
    - destruct (Hhigh ltac:(lia)) as [e0 He0]. by apply (found_entry s va path e0 Hva Hp); [lia | |]. }
  destruct (present e) eqn:Hpr; cbn [negb]; wp_steps; [|by apply HQ].
  apply HQ. split; [done|]. exists l, e. split; [done|]. by rewrite land_span by lia.
Qed.

(** The physical address of a mapping does not wrap. *)
Lemma translation_leaf s va l e :
  tree_ok s -> canonical va -> leaf_of s va = Some (l, e) ->
  translation s va = Some (u64 (address e + va mod span l), entry_prot e).
Proof.
  intros Hok Hva Hleaf. unfold translation. rewrite Hleaf. unfold mapped. cbn [fst snd].
  destruct (leaf_of_table s va l e Hleaf) as (Hl & Hp & Hlf & t & Ht & ->).
  destruct (tree_leaves s Hok va l t Hva Hl Ht Hp Hlf) as [_ Hmax].
  pose proof (Z.mod_pos_bound va _ (span_positive l Hl)).
  destruct (address_addressable (word s t (index l va))) as [? _].
  unfold u64. by rewrite wrap_small by (unfold in_width; lia).
Qed.

(** ** Boundaries *)

(** No leaf spans the address: one that covers it starts there. *)
Definition boundary (s : S) (b : Z) : Prop :=
  canonical b -> forall l e, leaf_of s b = Some (l, e) -> b mod span l = 0.

Lemma mod_span_down l l' b : 1 <= l <= l' -> l' <= LEVELS -> b mod span l' = 0 -> b mod span l = 0.
Proof.
  intros Hl Hl' Hm. destruct (span_mono l l') as (k & Hk & E0); [lia..|].
  pose proof (span_positive l ltac:(lia)). rewrite E0 in Hm.
  apply Z.mod_divide in Hm as [q ->]; [|nia].
  replace (q * (k * span l)) with (q * k * span l) by lia. apply Z.mod_mul. lia.
Qed.

Lemma boundary_refines s s' b : refines s s' -> boundary s b -> boundary s' b.
Proof.
  intros Hr Hb Hc l' e' Hleaf. destruct (Hr b Hc) as [_ H']. destruct (H' _ _ Hleaf) as (l & e & Hl & Hle).
  destruct (leaf_of_table s b l e Hl) as (Hlr & _). destruct (leaf_of_table s' b l' e' Hleaf) as (Hlr' & _).
  apply (mod_span_down l' l); [lia | lia | by eapply Hb].
Qed.

Lemma wp_split_at s b target (Q : Result unit mm_error -> S -> Prop) :
  tree_ok s -> canonical b -> 1 <= target <= LEVELS -> b mod span target = 0 ->
  (forall r s', tree_ok s' -> refines s s' -> conserves s s' /\ tidy s s' ->
     r = Ok tt /\ boundary s' b \/ r = Err OUT_OF_MEMORY /\ exhausted s' -> Q r s') ->
  wp (split_at root b target) Q s.
Proof.
  intros Hok Hb Htg Hm HQ. assert (Hsame : conserves s s /\ tidy s s) by (split; [apply conserves_refl | apply tidy_refl]).
  unfold split_at. apply wp_bind, wp_walk_find; [done..|]. intros r Hr.
  destruct r as [path|er]; cycle 1.
  { destruct Hr as [_ Hno]. wp_steps. apply HQ; [done | apply refines_refl | done |]. left. split; [done|]. intros _ l e. by rewrite Hno. }
  destruct Hr as (Hl & Hp & Hhigh). set (l := reached_level path) in *. rewrite land_span by lia.
  destruct (Z.ltb_spec target l) as [Hlt|Hge]; cbn [andb]; cycle 1.
  { wp_steps. apply HQ; [done | apply refines_refl | done |]. left. split; [done|]. intros _ l' e' Hleaf.
    assert (Hle : l' <= target).
    { destruct (path_at _ _ _ _ Hp l ltac:(lia)) as (t & Ht & _).
      rewrite (leaf_of_via s b l t ltac:(lia) Ht) in Hleaf. apply resolve_level in Hleaf. lia. }
    destruct (leaf_of_table s b l' e' Hleaf) as (Hlr & _). apply (mod_span_down l' target); [lia | lia | done]. }
  destruct (Z.eqb_spec (b mod span l) 0) as [Hal|Hun]; cbn [negb].
  { wp_steps. apply HQ; [done | apply refines_refl | done |]. left. split; [done|]. intros _ l' e' Hleaf.
    destruct (Hhigh Hlt) as [e He]. rewrite He in Hleaf. by injection Hleaf as <- <-. }
  apply wp_ktry, wp_walk_alloc; [done | done | lia |]. intros r s1 (Hok1 & Hr1 & _ & Hsp1 & Hres).
  assert (Hclean : conserves s s1 /\ tidy s s1).
  { destruct Hsp1 as [Hc _ Ht]. split; [done|]. apply Ht. destruct (Hhigh Hlt) as [e He]. by rewrite He. }
  destruct r as [p1|e1]; [|destruct Hres as [-> Hex]; apply HQ; auto]. destruct Hres as [_ Hp1]. wp_steps.
  apply HQ; [done | done | done |]. left. split; [done|]. intros _ l' e' Hleaf.
  destruct (path_at _ _ _ _ Hp1 target ltac:(lia)) as (t & Ht & _).
  destruct (leaf_of_table s1 b l' e' Hleaf) as (Hlr & _).
  rewrite (leaf_of_via s1 b target t ltac:(lia) Ht) in Hleaf. apply resolve_level in Hleaf.
  apply (mod_span_down l' target); [lia | lia | done].
Qed.

(** Nothing is split when the leaf at the boundary is small enough. *)
Lemma wp_split_at_fits s b target (Q : Result unit mm_error -> S -> Prop) :
  tree_ok s -> canonical b -> 1 <= target <= LEVELS ->
  (forall l e, leaf_of s b = Some (l, e) -> l <= target) ->
  Q (Ok tt) s -> wp (split_at root b target) Q s.
Proof.
  intros Hok Hb Htg Hfit HQ. unfold split_at. apply wp_bind, wp_walk_find; [done..|]. intros r Hr.
  destruct r as [path|er]; [|by wp_steps]. destruct Hr as (Hl & Hp & Hhigh).
  destruct (Z.ltb_spec target (reached_level path)) as [Hlt|Hge]; cbn [andb]; [|by wp_steps].
  destruct (Hhigh Hlt) as [e He]. apply Hfit in He. lia.
Qed.

(** ** Unmapping *)

(** The view after [n] mapped bytes from [va] were unmapped. *)
Definition unmaps (s s' : S) (va n : Z) : Prop :=
  forall x, canonical x ->
    if (va <=? x) && (x <? va + n) then translation s x <> None /\ translation s' x = None
    else translation s' x = translation s x.

Lemma unmaps_nothing s s' va :
  (forall x, canonical x -> translation s' x = translation s x) -> unmaps s s' va 0.
Proof. intros Hv x Hx. rewrite Hv by done. destruct_comparisons; cbn; done || lia. Qed.

Lemma unmaps_trans s s1 s2 va n m :
  0 <= n -> 0 <= m -> unmaps s s1 va n -> unmaps s1 s2 (va + n) m -> unmaps s s2 va (n + m).
Proof.
  intros Hn Hm H1 H2 x Hx. specialize (H1 x Hx). specialize (H2 x Hx).
  destruct (Z.leb_spec va x), (Z.ltb_spec x (va + n)), (Z.leb_spec (va + n) x),
    (Z.ltb_spec x (va + n + m)), (Z.ltb_spec x (va + (n + m))); cbn [andb] in *; try lia;
    first [ congruence
          | destruct H1 as [HA HB]; split; congruence
          | destruct H2 as [HA HB]; split; congruence ].
Qed.

(** No leaf below [stop] reaches past it. *)
Definition contained (s : S) (stop : Z) : Prop :=
  forall x l e, canonical x -> x < stop -> leaf_of s x = Some (l, e) -> x - x mod span l + span l <= stop.

Lemma boundary_contained s stop :
  0 < stop <= 2 ^ 64 -> canonical (stop - 1) -> boundary s stop -> contained s stop.
Proof.
  intros Hstop Hlast Hb x l e Hx Hlt Hleaf. destruct (leaf_of_table s x l e Hleaf) as (Hl & _).
  pose proof (span_positive l Hl) as Hpos. pose proof (Z.mod_pos_bound x _ Hpos).
  pose proof (Z.div_mod x _ (span_nonzero l Hl)) as Hdm.
  destruct (Z_lt_le_dec stop (x - x mod span l + span l)) as [Hover|]; [exfalso | lia].
  assert (Hq : x / span l = stop / span l) by (apply Z.div_unique with (stop - span l * (x / span l)); [left|]; lia).
  assert (Hc : canonical stop) by (eapply canonical_page; [exact Hl | exact Hx | exact Hq]).
  pose proof (leaf_of_page s x stop l e Hx Hc Hleaf (or_intror Hq)) as Hls.
  pose proof (Hb Hc l e Hls) as Hm. pose proof (Z.div_mod stop _ (span_nonzero l Hl)) as Hds. lia.
Qed.

(** Removing the leaf that starts at [va] unmaps its page, and the next address is a boundary. *)
Lemma removed_step s s' va m stop :
  tree_ok s -> canonical va -> boundary s va -> contained s stop -> va < stop ->
  removed s s' va (Ok m) ->
  exists l, 1 <= l <= LEVELS /\ bytes_in (Page.size m) = span l /\ va + span l <= stop /\
    unmaps s s' va (span l) /\ boundary s' (va + span l) /\ contained s' stop.
Proof.
  intros Hok Hva Hb Hcon Hlt (Hok' & l & e & Hleaf & -> & Hview & _).
  destruct (leaf_of_table s va l e Hleaf) as (Hl & _). pose proof (Hb Hva l e Hleaf) as Hal.
  pose proof (Hcon va l e Hva Hlt Hleaf) as Hfit. rewrite Hal, Z.sub_0_r in Hfit.
  pose proof (span_positive l Hl) as Hpos. exists l. split; [done|]. split; [done|]. split; [done|].
  assert (Hpage : forall x, same_page l va x <-> va <= x < va + span l) by (intros; by apply same_page_interval).
  split; [|split].
  - intros x Hx. unfold translation. rewrite Hview by done. case_decide as Hs.
    + pose proof (proj1 (Hpage x) Hs) as Hin. assert ((va <=? x) && (x <? va + span l) = true) as ->
        by (apply andb_true_iff; lia). rewrite (leaf_of_page s va x l e) by done. done.
    + destruct (_ && _) eqn:E0; [|done]. apply andb_true_iff in E0. exfalso. apply Hs, Hpage. lia.
  - intros Hc l2 e2 Hleaf2. destruct (leaf_of_table s' _ l2 e2 Hleaf2) as (Hl2 & _).
    pose proof (span_positive l2 Hl2) as Hpos2.
    destruct (Z.eq_dec ((va + span l) mod span l2) 0) as [|Hne]; [done|exfalso].
    set (b := va + span l) in *. pose proof (Z.mod_pos_bound b _ Hpos2).
    pose proof (Z.div_mod b _ (span_nonzero l2 Hl2)) as Hdm.
    assert (Hq : b / span l2 = (b - 1) / span l2) by (apply Z.div_unique with (b mod span l2 - 1); [left|]; lia).
    assert (Hc1 : canonical (b - 1)) by (eapply canonical_page; [exact Hl2 | exact Hc | exact Hq]).
    pose proof (leaf_of_page s' b (b - 1) l2 e2 Hc Hc1 Hleaf2 (or_intror Hq)) as Hl1.
    rewrite Hview in Hl1 by done. rewrite decide_True in Hl1; [done|]. apply Hpage. unfold b. lia.
  - intros x l2 e2 Hx Hxs. rewrite Hview by done. case_decide; [done|]. by apply Hcon.
Qed.

(** No table is left blank, and those that left the tree were given back. *)
Definition cleared (s s' : S) : Prop := tidy s s' /\ returns s s'.

Lemma cleared_refl s : cleared s s.
Proof. split; [apply tidy_refl | apply conserves_returns, conserves_refl]. Qed.

Lemma cleared_trans s1 s2 s3 : cleared s1 s2 -> cleared s2 s3 -> cleared s1 s3.
Proof. intros [T1 R1] [T2 R2]. split; [by eapply tidy_trans | by eapply returns_trans]. Qed.

(** A step that leaves the tree alone. *)
Definition aside (s s' : S) : Prop :=
  tree_ok s' /\ (forall x, canonical x -> leaf_of s' x = leaf_of s x) /\ cleared s s'.

Section Unmap.
Context (va length : Z) (on_removed : mapping -> kernel S unit).
Context (Hva : 0 <= va) (Hlen : 0 <= length < 2 ^ 64) (Hend : va + length <= 2 ^ 64).

(** The callback leaves the tree alone. *)
Context (Hcall : forall m s, tree_ok s -> wp (on_removed m) (fun _ s' => aside s s') s).

(** Why a page was not unmapped. *)
Definition unmap_error (s : S) (va : Z) (e : mm_error) : Prop :=
  e = INVALID_ADDRESS /\ valid va = false \/ e = NOT_MAPPED /\ valid va = true /\ translation s va = None.

(** The state after [offset] bytes were unmapped. *)
Definition unmapping (s : S) (offset : Z) (s' : S) : Prop :=
  tree_ok s' /\ unmaps s s' va offset /\ boundary s' (va + offset) /\ contained s' (va + length) /\
  0 <= offset <= length /\ cleared s s'.

Lemma wp_unmap_step s offset s1 (Q : Z * option mm_error -> S -> Prop) :
  unmapping s offset s1 -> offset < length ->
  (forall k s', 4096 <= k -> unmapping s (offset + k) s' -> Q (offset + k, None) s') ->
  (forall e s', tree_ok s' -> unmaps s s' va offset -> cleared s s' -> unmap_error s (va + offset) e ->
     Q (offset, Some e) s') ->
  wp (removed ← remove_leaf root (u64 (va + offset));
      match removed with
      | Err e => mret (offset, Some e)
      | Ok removed =>
          on_removed removed;;
          mret (u64 (offset + bytes_in (Page.size removed)), None)
      end) Q s1.
Proof.
  intros (Hok1 & Hun & Hb & Hcon & Ho & Hcl) Hlt HQ HE. pose proof levels_range.
  assert (u64 (va + offset) = va + offset) as -> by (apply wrap_small; split; lia).
  destruct (valid (va + offset)) eqn:Hv; cycle 1.
  { apply wp_bind. unfold remove_leaf. rewrite Hv. cbn [negb]. wp_steps. apply HE; [done | done | done | by left]. }
  assert (Hc : canonical (va + offset)) by (split; [lia | done]).
  apply wp_bind, wp_remove_leaf; [done | done |]. intros r s2 Hrem. destruct r as [m|e]; cycle 1.
  { destruct Hrem as (Hok2 & -> & Hno & ->). wp_steps. apply HE; [done | done | done |]. right.
    split; [done|]. split; [done|]. specialize (Hun (va + offset) Hc).
    rewrite Z.ltb_irrefl, andb_false_r in Hun.
    rewrite <- Hun. unfold translation. by rewrite Hno. }
  destruct (removed_step s1 s2 (va + offset) m (va + length) Hok1 Hc Hb Hcon ltac:(lia) Hrem)
    as (k & Hk & -> & Hfit & Hun2 & Hb2 & Hcon2).
  assert (Hcl2 : cleared s1 s2) by (destruct Hrem as (_ & l0 & e0 & _ & _ & _ & [_ Hret] & Htd); by split).
  apply wp_bind. eapply wp_mono; [apply Hcall, Hrem|]. intros [] s3 (Hok3 & Hsame & Hcl3). cbv beta.
  destruct (span_mono 1 k) as (q & Hq & Hspan); [lia..|]. rewrite span_one in Hspan.
  assert (u64 (offset + span k) = offset + span k) as -> by (apply wrap_small; split; lia).
  wp_steps. apply HQ; [lia|]. split; [done|]. split.
  { eapply unmaps_trans; [lia | lia | exact Hun |]. intros x Hx. specialize (Hun2 x Hx).
    unfold translation in *. by rewrite Hsame. }
  rewrite Z.add_assoc. split; [|split; [|split; [lia|]]].
  - intros Hcb l2 e2. rewrite Hsame by done. by apply Hb2.
  - intros x l2 e2 Hx Hxs. rewrite Hsame by done. by apply Hcon2.
  - eapply cleared_trans; [exact Hcl|]. by eapply cleared_trans.
Qed.

Lemma wp_unmap_loop s (Q : Result unit mm_error -> S -> Prop) :
  unmapping s 0 s ->
  (forall s', tree_ok s' -> unmaps s s' va length -> cleared s s' -> Q (Ok tt) s') ->
  (forall e n s', tree_ok s' -> 0 <= n < length -> unmaps s s' va n -> cleared s s' ->
     unmap_error s (va + n) e -> Q (Err e) s') ->
  wp (r ← while (Z.to_nat (length / FRAME_SIZE + 2))
        (fun '(offset, failed) => mret (match failed with Some _ => false | None => offset <? length end))
        (fun '(offset, _) =>
           removed ← remove_leaf root (u64 (va + offset));
           match removed with
           | Err e => mret (offset, Some e)
           | Ok removed =>
               on_removed removed;;
               mret (u64 (offset + bytes_in (Page.size removed)), None)
           end)
        (0, None);
      mret (match snd r with Some e => Err e | None => Ok tt end)) Q s.
Proof.
  intros Hstart HQ HE. apply wp_bind. change FRAME_SIZE with 4096.
  pose proof (Z.div_pos length 4096 ltac:(lia) ltac:(lia)).
  apply wp_while with
    (Inv := fun '(offset, failed) s' =>
       match failed with
       | None => unmapping s offset s'
       | Some e => 0 <= offset < length /\ tree_ok s' /\ unmaps s s' va offset /\ cleared s s' /\
           unmap_error s (va + offset) e
       end)
    (variant := fun '(offset, failed) _ => match failed with None => (length - offset) / 4096 + 1 | Some _ => 0 end).
  - done.
  - rewrite Z.sub_0_r. lia.
  - intros [offset failed] s1 HInv _. destruct failed as [e|].
    { destruct HInv as (Ho & Hok1 & Hun & Hcl & Hwhy). wp_steps. cbn. by eapply HE. }
    pose proof HInv as (Hok1 & Hun & _ & _ & Ho & Hcl). wp_steps.
    destruct (Z.ltb_spec offset length).
    + pose proof (Z.div_pos (length - offset) 4096 ltac:(lia) ltac:(lia)).
      apply (wp_unmap_step s); [done | done | |].
      * intros k s2 Hk H2. split; [done|]. pose proof H2 as (_ & _ & _ & _ & Ho2 & _).
        pose proof (Z.div_pos (length - (offset + k)) 4096 ltac:(lia) ltac:(lia)).
        pose proof (Z.div_le_mono (length - (offset + k)) (length - offset - 1 * 4096) 4096 ltac:(lia) ltac:(lia)) as Hd.
        replace (length - offset - 1 * 4096) with (length - offset + (-1) * 4096) in Hd by lia.
        rewrite Z.div_add in Hd by lia. lia.
      * intros e s2 Hok2 Hun2 Hcl2 Hwhy. split; [split; [lia | done] | lia].
    + wp_steps. cbn. assert (offset = length) as -> by lia. by apply HQ.
Qed.
End Unmap.

(** The arguments [unmap_range] accepts describe a range that ends by the top of memory. *)
Lemma range_check va length :
  0 <= va < 2 ^ 64 -> 0 < length < 2 ^ 64 ->
  let end_ := u64 (va + length) in
  (u64 (end_ - 1) <? va) = false ->
  va + length <= 2 ^ 64 /\ u64 (end_ - 1) = va + length - 1 /\
  ((va <? end_) = true -> end_ = va + length) /\ ((va <? end_) = false -> va + length = 2 ^ 64).
Proof.
  intros Hva Hlen end_ Hcheck. apply Z.ltb_ge in Hcheck.
  destruct (Z_lt_le_dec (va + length) (2 ^ 64)) as [Hlt|Hge].
  - assert (end_ = va + length) as E0 by (apply wrap_small; split; lia).
    assert (u64 (end_ - 1) = va + length - 1) as -> by (rewrite E0; apply wrap_small; split; lia).
    rewrite E0. split; [lia|]. split; [done|]. split; [done|]. intros ?%Z.ltb_ge. lia.
  - assert (end_ = va + length - 2 ^ 64) as E0.
    { unfold end_, u64, wrap. symmetry. apply Z.mod_unique with 1; lia. }
    destruct (Z.eq_dec (va + length) (2 ^ 64)) as [E1|].
    + rewrite E0, E1 in *. replace (2 ^ 64 - 2 ^ 64) with 0 in * by lia.
      split; [lia|]. split; [by vm_compute|]. split; [intros ?%Z.ltb_lt; lia | done].
    + assert (u64 (end_ - 1) = end_ - 1) as E2 by (apply wrap_small; split; lia). lia.
Qed.

Lemma range_wraps va length :
  0 <= va < 2 ^ 64 -> 0 <= length < 2 ^ 64 -> length <> 0 ->
  (u64 (u64 (va + length) - 1) <? va) = true -> 2 ^ 64 < va + length.
Proof.
  intros Hva Hlen Hnz Hc. apply Z.ltb_lt in Hc.
  destruct (Z_lt_le_dec (2 ^ 64) (va + length)) as [|Hle]; [done|exfalso]. unfold u64 in Hc.
  destruct (Z.eq_dec (va + length) (2 ^ 64)) as [Eq|]; [rewrite Eq in Hc|].
  - change (wrap 64 (wrap 64 (2 ^ 64) - 1)) with (2 ^ 64 - 1) in Hc. lia.
  - rewrite (wrap_small 64 (va + length)), wrap_small in Hc by (unfold in_width; lia). lia.
Qed.

(** The arguments [unmap_range] refuses. *)
Definition bad_range (va length l : Z) : Prop :=
  bad_length l length \/ va mod span (usable_level l) <> 0 \/ valid va = false \/
  2 ^ 64 < va + length \/ valid (va + length - 1) = false.

(** The outcome of unmapping a range. *)
Definition unmapped (s : S) (va length l : Z) (r : Result unit mm_error) (s' : S) : Prop :=
  match r with
  | Ok _ => unmaps s s' va length
  | Err e => exists n, 0 <= n <= length /\ unmaps s s' va n /\
      (n = 0 /\ e = OUT_OF_MEMORY /\ exhausted s' \/ n = 0 /\ e = INVALID_ADDRESS /\ bad_range va length l \/
       n < length /\ unmap_error s (va + n) e)
  end.

(** The loop, once neither end of the range is inside a leaf. *)
Lemma wp_unmap_rest s s1 va length l (on_removed : mapping -> kernel S unit) (Q : Result unit mm_error -> S -> Prop) :
  tree_ok s1 -> refines s s1 -> 0 <= va -> 0 < length < 2 ^ 64 -> va + length <= 2 ^ 64 ->
  valid (va + length - 1) = true -> boundary s1 va -> boundary s1 (va + length) ->
  cleared s s1 -> (forall m s, tree_ok s -> wp (on_removed m) (fun _ s' => aside s s') s) ->
  (forall r s', tree_ok s' -> cleared s s' -> unmapped s va length l r s' -> Q r s') ->
  wp (r ← while (Z.to_nat (length / FRAME_SIZE + 2))
        (fun '(offset, failed) => mret (match failed with Some _ => false | None => offset <? length end))
        (fun '(offset, _) =>
           removed ← remove_leaf root (u64 (va + offset));
           match removed with
           | Err e => mret (offset, Some e)
           | Ok removed =>
               on_removed removed;;
               mret (u64 (offset + bytes_in (Page.size removed)), None)
           end)
        (0, None);
      mret (match snd r with Some e => Err e | None => Ok tt end)) Q s1.
Proof.
  intros Hok1 Hr Hva Hlen Hend Hlast Hb Hbe Hcl1 Hcall HQ.
  assert (Hun : forall n s', unmaps s1 s' va n -> unmaps s s' va n).
  { intros n s' Hun x Hx. specialize (Hun x Hx). by rewrite <- (proj1 (Hr x Hx)). }
  apply (wp_unmap_loop va length on_removed); [lia | lia | lia | done | | |].
  - split; [done|]. split; [by apply unmaps_nothing|]. rewrite Z.add_0_r. split; [done|].
    split; [|split; [lia | apply cleared_refl]]. apply boundary_contained; [lia | split; [lia | done] | done].
  - intros s' Hok' Hu Hcl. apply HQ; [done | by eapply cleared_trans |]. by apply Hun.
  - intros e n s' Hok' Hn Hu Hcl Hwhy. apply HQ; [done | by eapply cleared_trans |]. exists n. split; [lia|]. split; [by apply Hun|].
    right; right. split; [lia|]. destruct Hwhy as [|(-> & Hv & Ht)]; [by left|]. right.
    split; [done|]. split; [done|]. assert (Hc : canonical (va + n)) by (split; [lia | done]).
    by rewrite <- (proj1 (Hr (va + n) Hc)).
Qed.

Lemma wp_unmap_range s va length l on_removed (Q : Result unit mm_error -> S -> Prop) :
  tree_ok s -> 1 <= l <= LEVELS -> 0 <= va < 2 ^ 64 -> 0 <= length < 2 ^ 64 ->
  (forall m s, tree_ok s -> wp (on_removed m) (fun _ s' => aside s s') s) ->
  (forall r s', tree_ok s' -> cleared s s' -> unmapped s va length l r s' -> Q r s') ->
  wp (unmap_range root va length (size_at l) on_removed) Q s.
Proof.
  intros Hok Hl Hva Hlen Hcall HQ. unfold unmap_range.
  pose proof (usable_level_range l ltac:(lia)) as Hu. set (lu := usable_level l) in *.
  assert (Hcons : forall s1 s2, conserves s1 s2 /\ tidy s1 s2 -> cleared s1 s2).
  { intros s1 s2 [Hc Ht]. split; [done | by apply conserves_returns]. }
  assert (Hsame : forall e s', tree_ok s' -> refines s s' -> cleared s s' ->
    e = OUT_OF_MEMORY /\ exhausted s' \/ e = INVALID_ADDRESS /\ bad_range va length l -> Q (Err e) s').
  { intros e s' Hok' Hr Hcl Hwhy. apply HQ; [done | done |]. exists 0. split; [lia|]. split.
    - apply unmaps_nothing. intros x Hx. by apply Hr.
    - destruct Hwhy as [|[]]; auto. }
  assert (HE : bad_range va length l -> Q (Err INVALID_ADDRESS) s)
    by (intros; apply Hsame; [done | apply refines_refl | apply cleared_refl | by right]).
  apply wp_bind, wp_leaf_size; [done|]. fold lu. rewrite validate_spec by lia. wp_steps.
  destruct (valid va) eqn:Hv; cbn [andb]; [|apply HE; unfold bad_range; auto].
  destruct (Z.eqb_spec (va mod span lu) 0) as [Hal|]; cbn [andb]; [|apply HE; unfold bad_range; auto].
  rewrite Z.mod_0_l by (apply span_nonzero; lia). cbn [Z.eqb].
  change (bytes_in (size_at lu)) with (span lu).
  destruct (Z.eqb_spec length 0); cbn [orb]; [wp_steps; apply HE; by do 2 left|].
  destruct (Z.eqb_spec (length mod span lu) 0) as [Hml|]; cbn [negb orb]; [|wp_steps; apply HE; by left; right].
  destruct (u64 (u64 (va + length) - 1) <? va) eqn:Hcheck; cbn [orb].
  { wp_steps. apply HE. do 3 right. left. by apply range_wraps. }
  destruct (range_check va length ltac:(lia) ltac:(lia) Hcheck) as (Hend & Hlast & Hin & Hout).
  set (end_ := u64 (va + length)) in *. rewrite Hlast.
  destruct (valid (va + length - 1)) eqn:Hvl; cbn [negb]; [|wp_steps; apply HE; by do 4 right].
  apply wp_ktry, wp_split_at; [done | done | lia | done |]. intros r1 s1 Hok1 Hr1 Hc1%Hcons [[-> Hb1]|[-> Hex]];
    [|apply Hsame; auto].
  assert (Hmend : (va + length) mod span lu = 0).
  { rewrite Z.add_mod, Hal, Hml by (apply span_nonzero; lia). cbn. apply Z.mod_0_l, span_nonzero. lia. }
  apply wp_ktry. destruct (va <? end_) eqn:Hlt; cbn [andb]; [destruct (valid end_) eqn:Hve|].
  - specialize (Hin eq_refl). rewrite Hin in *. apply wp_split_at; [done | | lia | done |].
    { split; [|done]. pose proof (wrap_range 64 (va + length) ltac:(lia)) as Hw. unfold in_width in Hw.
      change (wrap 64 (va + length)) with end_ in Hw. lia. }
    intros r2 s2 Hok2 Hr2 Hc2%Hcons [[-> Hbe]|[-> Hex]];
      [|apply Hsame; [done | by eapply refines_trans | by eapply cleared_trans | auto]].
    apply (wp_unmap_rest s s2 va length l); [done | by eapply refines_trans | lia | lia | done | done
      | by eapply boundary_refines | done | by eapply cleared_trans | done | exact HQ].
  - wp_step. apply (wp_unmap_rest s s1 va length l); [done | done | lia | lia | done | done | done | | done | done | exact HQ].
    intros [_ Hc]. rewrite <- Hin in Hc by done. congruence.
  - wp_step. apply (wp_unmap_rest s s1 va length l); [done | done | lia | lia | done | done | done | | done | done | exact HQ].
    intros [Hc _]. specialize (Hout eq_refl). lia.
Qed.

(** ** The empty tree *)

Lemma empty_tree s :
  env_inv s -> owned s root -> (forall i, 0 <= i < 512 -> word s root i = 0) ->
  tree_ok s /\ forall va, canonical va -> translation s va = None.
Proof.
  intros He Ho Hz. pose proof levels_range.
  assert (Hw : forall va, canonical va -> word s root (index LEVELS va) = 0).
  { intros va Hva. apply Hz, index_bounds; [lia | done]. }
  assert (Hnone : forall va l, canonical va -> 1 <= l < LEVELS -> table_at s va l = None).
  { intros va l Hva Hl. replace l with (l + 1 - 1) by lia.
    assert (Hx : exists n, l + 1 = LEVELS - Z.of_nat n) by (exists (Z.to_nat (LEVELS - (l + 1))); lia).
    destruct Hx as [n Hn]. rewrite Hn. assert (Z.of_nat n <= LEVELS - 2) by lia. clear Hl Hn l.
    induction n as [|n IH].
    - rewrite Z.sub_0_r, table_at_step, table_at_top by lia. cbv zeta. unfold links.
      by rewrite Hw, present_zero.
    - rewrite table_at_step by lia.
      replace (LEVELS - Z.of_nat (Datatypes.S n)) with (LEVELS - Z.of_nat n - 1) by lia. by rewrite IH by lia. }
  assert (Hroot : forall va l t, canonical va -> 1 <= l <= LEVELS -> table_at s va l = Some t -> l = LEVELS /\ t = root).
  { intros va l t Hva Hl Ht. destruct (Z.eq_dec l LEVELS) as [->|].
    - rewrite table_at_top in Ht. by injection Ht as <-.
    - rewrite Hnone in Ht by (done || lia). done. }
  split; [split|].
  - done.
  - intros va l t Hva Hl Ht. by destruct (Hroot va l t Hva Hl Ht) as [_ ->].
  - intros va va' l l' t Hva Hva' Hl Hl' Ht Ht'. destruct (Hroot va l t Hva Hl Ht) as [-> _].
    destruct (Hroot va' l' t Hva' Hl' Ht') as [-> _]. split; [done | left; lia].
  - intros va l t Hva Hl Ht. destruct (Hroot va l t Hva Hl Ht) as [-> ->]. cbv zeta.
    by rewrite Hw, present_zero.
  - intros va Hva. unfold translation. rewrite (leaf_of_via s va LEVELS root) by (done || lia || apply table_at_top).
    rewrite resolve_step by lia. cbv zeta. by rewrite Hw, present_zero.
Qed.
End RadixFacts.
