(* ===== verification/Cpu.v ===== *)
(** * Cpu: registers, the translation buffer and the FPU,
    [arch/x86_64/cpu/{registers.hpp,fpu.cpp}] and [arch/x86_64/mmu/tlb.cpp]

    The state of a core is what the kernel reads back: control registers and model-specific
    registers.  Every privileged instruction is also recorded, in order, newest first; loading the
    descriptor tables, which assembly code does ([gdt_load], [idt_load]), is one of them. *)

From S2P Require Import Prelude.

(** The answer of [cpuid], which is the machine's. *)
Record cpuid_result : Type := { eax : Z; ebx : Z; ecx : Z; edx : Z }.

Class machine : Type := { cpuid : Z -> Z -> cpuid_result }.

Definition CR0_MONITOR_COPROCESSOR : Z := Z.shiftl 1 1.
Definition CR0_EMULATION : Z := Z.shiftl 1 2.
Definition CR0_WRITE_PROTECT : Z := Z.shiftl 1 16.
Definition CR4_PAGE_GLOBAL_ENABLE : Z := Z.shiftl 1 7.
Definition CR4_OS_FXSR : Z := Z.shiftl 1 9.
Definition CR4_OS_XMM_EXCEPT : Z := Z.shiftl 1 10.
Definition MSR_EFER : Z := 0xC0000080.
Definition EFER_NO_EXECUTE_ENABLE : Z := Z.shiftl 1 11.

Inductive instruction : Type :=
| Mov_cr0 (value : Z)
| Mov_cr3 (value : Z)
| Mov_cr4 (value : Z)
| Wrmsr (msr low high : Z)
| Invlpg (va : Z)
| Fninit
| Lgdt (limit base code_selector data_selector : Z)
| Lidt (limit base : Z)
| Ltr (selector : Z)
| Cli.

#[export] Instance instruction_eq_dec : EqDecision instruction.
Proof. solve_decision. Defined.

Record cpu : Type := {
  cr0 : Z;
  cr3 : Z;
  cr4 : Z;
  msrs : gmap Z (Z * Z);
  executed : list instruction;
}.

(** What each instruction does to the state, besides being executed. *)
Definition effect (i : instruction) (c : cpu) : cpu :=
  let log := i :: executed c in
  match i with
  | Mov_cr0 v => {| cr0 := v; cr3 := cr3 c; cr4 := cr4 c; msrs := msrs c; executed := log |}
  | Mov_cr3 v => {| cr0 := cr0 c; cr3 := v; cr4 := cr4 c; msrs := msrs c; executed := log |}
  | Mov_cr4 v => {| cr0 := cr0 c; cr3 := cr3 c; cr4 := v; msrs := msrs c; executed := log |}
  | Wrmsr m low high => {| cr0 := cr0 c; cr3 := cr3 c; cr4 := cr4 c;
      msrs := <[m := (low, high)]> (msrs c); executed := log |}
  | Invlpg _ | Fninit | Lgdt _ _ _ _ | Lidt _ _ | Ltr _ | Cli =>
      {| cr0 := cr0 c; cr3 := cr3 c; cr4 := cr4 c; msrs := msrs c; executed := log |}
  end.

Definition execute (i : instruction) : kernel cpu unit := modify (effect i).

Definition read_cr0 : kernel cpu Z := gets cr0.
Definition read_cr3 : kernel cpu Z := gets cr3.
Definition read_cr4 : kernel cpu Z := gets cr4.
Definition write_cr0 (value : Z) : kernel cpu unit := execute (Mov_cr0 value).
Definition write_cr3 (value : Z) : kernel cpu unit := execute (Mov_cr3 value).
Definition write_cr4 (value : Z) : kernel cpu unit := execute (Mov_cr4 value).

(** A model-specific register is read and written as two halves; one never written holds 0. *)
Definition read_msr (msr : Z) : kernel cpu Z :=
  halves ← gets (fun c => default (0, 0) (msrs c !! msr));
  let '(low, high) := halves : Z * Z in
  mret (Z.lor (u64 (Z.shiftl high 32)) low).

Definition write_msr (msr value : Z) : kernel cpu unit :=
  execute (Wrmsr msr (u32 value) (u32 (Z.shiftr value 32))).

(** [tlb::flush], [tlb::flush_all] and [tlb::flush_all_global]. *)
Definition flush (vaddr : Z) : kernel cpu unit := execute (Invlpg vaddr).

Definition flush_all : kernel cpu unit := v ← read_cr3; write_cr3 v.

Definition flush_all_global : kernel cpu unit :=
  cr4 ← read_cr4;
  if Z.land cr4 CR4_PAGE_GLOBAL_ENABLE =? 0 then flush_all
  else
    write_cr4 (Z.land cr4 (bnot 64 CR4_PAGE_GLOBAL_ENABLE));;
    write_cr4 cr4.

(** [enable_sse]. *)
Definition enable_sse : kernel cpu unit :=
  v ← read_cr0;
  write_cr0 (Z.lor (Z.land v (bnot 64 CR0_EMULATION)) CR0_MONITOR_COPROCESSOR);;
  cr4 ← read_cr4;
  write_cr4 (Z.lor (Z.lor cr4 CR4_OS_FXSR) CR4_OS_XMM_EXCEPT);;
  execute Fninit.

(** ** Facts *)

Lemma msr_halves low high :
  in_width 32 low -> in_width 32 high ->
  let v := Z.lor (u64 (Z.shiftl high 32)) low in
  in_width 64 v /\ u32 v = low /\ u32 (Z.shiftr v 32) = high.
Proof.
  intros Hl Hh. cbn zeta. split; [|split].
  - apply in_width_lor; [apply wrap_range; lia | unfold in_width in *; lia | lia].
  - apply (width_bits_inj 32); [lia | apply wrap_range; lia | done|]. intros i Hi.
    unfold u32, u64. autorewrite with bits. rewrite Z.shiftl_spec by lia.
    rewrite (Z.testbit_neg_r high) by lia. destruct_comparisons; try lia. by rewrite andb_true_l, andb_false_r.
  - apply (width_bits_inj 32); [lia | apply wrap_range; lia | done|]. intros i Hi.
    unfold u32, u64. autorewrite with bits. rewrite Z.shiftl_spec by lia.
    rewrite (testbit_high 32 low) by (done || lia). replace (i + 32 - 32) with i by lia.
    destruct_comparisons; try lia. by rewrite orb_false_r.
Qed.

(** A written register reads back as what was written. *)
Lemma wp_write_then_read_msr msr value (Q : Z -> cpu -> Prop) s :
  in_width 64 value ->
  (forall s', cr0 s' = cr0 s -> cr3 s' = cr3 s -> cr4 s' = cr4 s -> Q value s') ->
  wp (write_msr msr value;; read_msr msr) Q s.
Proof.
  intros Hv HQ. apply wp_bind, wp_modify. unfold read_msr. apply wp_bind, wp_gets. cbn [effect msrs].
  rewrite lookup_insert_eq. cbn [default]. apply wp_ret.
  replace (Z.lor _ _) with value; [by apply HQ|].
  apply (width_bits_inj 64); [lia | done | apply in_width_lor; [apply wrap_range; lia | | lia] |].
  { pose proof (wrap_range 32 value ltac:(lia)). unfold in_width, u32 in *. lia. }
  intros i Hi. unfold u32, u64. autorewrite with bits. rewrite Z.shiftl_spec by lia.
  destruct (Z.ltb_spec i 32).
  - rewrite (Z.testbit_neg_r _ (i - 32)) by lia. destruct_comparisons; try lia. by rewrite andb_false_r.
  - rewrite testbit_wrap, Z.shiftr_spec by lia. replace (i - 32 + 32) with i by lia.
    destruct_comparisons; try lia. by rewrite orb_false_r.
Qed.
