(* ===== verification/Paging.v ===== *)
(** * Paging: the entries of the x86-64 page tables, [arch/x86_64/mmu/{paging.hpp,features.cpp}]

    [paging] is the page format of the kernel's tables.  The optional features of the processor are
    flags that [enable_paging_features] sets once; the format depends on them, so they are a class
    that its operations take. *)

From S2P Require Import Prelude Bits Page Radix RadixFacts Cpu.

(** ** Features *)

Class features : Type := {
  nx_enabled : bool;
  global_pages_enabled : bool;
  gib_pages_supported : bool;
}.

Definition features_init : features :=
  {| nx_enabled := false; global_pages_enabled := false; gib_pages_supported := false |}.

Definition CPUID_BASE : Z := 0x00000001.
Definition CPUID_EXTENDED_MAX : Z := 0x80000000.
Definition CPUID_EXTENDED_FEATURES : Z := 0x80000001.
Definition EDX_PAGE_GLOBAL_ENABLE : Z := Z.shiftl 1 13.
Definition EDX_NO_EXECUTE : Z := Z.shiftl 1 20.
Definition EDX_GIB_PAGES : Z := Z.shiftl 1 26.

(** [enable_paging_features], on the three flags and the core. *)
Definition enable_paging_features `{machine} : kernel (features * cpu) unit :=
  let on_cpu {A} (m : kernel cpu A) : kernel (features * cpu) A := zoom snd (fun c s => (fst s, c)) m in
  let set (g : features -> features) : kernel (features * cpu) unit := modify (fun s => (g (fst s), snd s)) in
  let extended_max := eax (cpuid CPUID_EXTENDED_MAX 0) in
  let extended_edx :=
    if CPUID_EXTENDED_FEATURES <=? extended_max then edx (cpuid CPUID_EXTENDED_FEATURES 0) else 0 in
  let nx_supported := negb (Z.land extended_edx EDX_NO_EXECUTE =? 0) in
  let global_pages_supported := negb (Z.land (edx (cpuid CPUID_BASE 0)) EDX_PAGE_GLOBAL_ENABLE =? 0) in
  when nx_supported (
    efer ← on_cpu (read_msr MSR_EFER);
    on_cpu (write_msr MSR_EFER (Z.lor efer EFER_NO_EXECUTE_ENABLE));;
    set (fun f => {| nx_enabled := true; global_pages_enabled := @global_pages_enabled f;
                     gib_pages_supported := @gib_pages_supported f |}));;
  when global_pages_supported (
    cr4 ← on_cpu read_cr4;
    on_cpu (write_cr4 (Z.lor cr4 CR4_PAGE_GLOBAL_ENABLE));;
    set (fun f => {| nx_enabled := @nx_enabled f; global_pages_enabled := true;
                     gib_pages_supported := @gib_pages_supported f |}));;
  set (fun f => {| nx_enabled := @nx_enabled f; global_pages_enabled := @global_pages_enabled f;
                   gib_pages_supported := negb (Z.land extended_edx EDX_GIB_PAGES =? 0) |}).

(** ** The format *)
Section Paging.
Context `{features}.

Definition PRESENT : Z := Z.shiftl 1 0.
Definition WRITABLE : Z := Z.shiftl 1 1.
Definition USER : Z := Z.shiftl 1 2.
Definition WRITE_THROUGH : Z := Z.shiftl 1 3.
Definition CACHE_DISABLE : Z := Z.shiftl 1 4.
Definition LARGE : Z := Z.shiftl 1 7.
Definition GLOBAL : Z := Z.shiftl 1 8.
Definition NO_EXECUTE : Z := Z.shiftl 1 63.
Definition ADDRESS_MASK : Z := 0x000FFFFFFFFFF000.
Definition PROT_MASK : Z :=
  Z.lor (Z.lor (Z.lor (Z.lor (Z.lor WRITABLE USER) WRITE_THROUGH) CACHE_DISABLE) GLOBAL) NO_EXECUTE.

Definition paging_valid (va : Z) : bool :=
  (Z.shiftr va 47 =? 0) || (Z.shiftr va 47 =? 0x1FFFF).

Definition paging_supports (size : page_size) : bool := negb (size =? SIZE_1G) || gib_pages_supported.

Definition paging_present (entry : Z) : bool := negb (Z.land entry PRESENT =? 0).

Definition paging_leaf (entry level : Z) : bool := (level =? 1) || negb (Z.land entry LARGE =? 0).

Definition paging_address (entry : Z) : Z := Z.land entry ADDRESS_MASK.

Definition paging_prot (entry : Z) : page_prot :=
  let prot := PROT_NONE in
  let prot := if negb (Z.land entry WRITABLE =? 0) then prot_or prot PROT_WRITE else prot in
  let prot := if Z.land entry NO_EXECUTE =? 0 then prot_or prot PROT_EXEC else prot in
  let prot := if negb (Z.land entry USER =? 0) then prot_or prot PROT_USER else prot in
  let prot := if negb (Z.land entry GLOBAL =? 0) then prot_or prot PROT_GLOBAL else prot in
  if negb (Z.land entry CACHE_DISABLE =? 0) then prot_or prot PROT_UNCACHED else prot.

Definition paging_table_entry (phys : Z) : Z :=
  Z.lor (Z.lor (Z.lor (Z.land phys ADDRESS_MASK) PRESENT) WRITABLE) USER.

Definition paging_leaf_entry (phys : Z) (size : page_size) (prot : page_prot) : Z :=
  let entry := Z.lor (Z.land phys ADDRESS_MASK) PRESENT in
  let entry := if negb (size =? SIZE_4K) then Z.lor entry LARGE else entry in
  let entry := if has prot PROT_WRITE then Z.lor entry WRITABLE else entry in
  let entry := if has prot PROT_USER then Z.lor entry USER else entry in
  let entry := if has prot PROT_UNCACHED then Z.lor entry (Z.lor CACHE_DISABLE WRITE_THROUGH) else entry in
  let entry := if has prot PROT_GLOBAL && global_pages_enabled then Z.lor entry GLOBAL else entry in
  if negb (has prot PROT_EXEC) && nx_enabled then Z.lor entry NO_EXECUTE else entry.

Definition split_flags (entry level : Z) : Z :=
  Z.lor (Z.land entry (Z.lor PRESENT PROT_MASK)) (if level - 1 =? 1 then 0 else LARGE).

Definition paging_split {S} (child : Z -> Z -> kernel S unit) (entry level : Z) : kernel S unit :=
  let step := bytes_in (Radix9.size_at (level - 1)) in
  let flags := split_flags entry level in
  for_range 0 Radix9.ENTRIES (fun i =>
    child i (Z.lor (Z.land (u64 (paging_address entry + u64 (i * step))) ADDRESS_MASK) flags)).

#[export] Instance paging : page_format := {
  LEVELS := 4;
  ENTRIES := Radix9.ENTRIES;
  index := Radix9.index;
  level_of := Radix9.level_of;
  size_at := Radix9.size_at;
  valid := paging_valid;
  supports := paging_supports;
  present := paging_present;
  leaf := paging_leaf;
  address := paging_address;
  entry_prot := paging_prot;
  table_entry := paging_table_entry;
  leaf_entry := paging_leaf_entry;
  split := @paging_split;
}.
End Paging.

(** ** The laws of the format *)
Section PagingLaws.
Context `{features}.

Lemma land_mask e : Z.land e ADDRESS_MASK = (e / 4096) mod 2 ^ 40 * 4096.
Proof.
  change ADDRESS_MASK with (Z.shiftl (Z.ones 40) 12). apply Z.bits_inj'. intros i Hi.
  change 4096 with (2 ^ 12). rewrite <- Z.shiftr_div_pow2, <- Z.shiftl_mul_pow2 by lia.
  rewrite Z.land_spec, !Z.shiftl_spec by lia. destruct (Z.ltb_spec i 12).
  - rewrite !(Z.testbit_neg_r _ (i - 12)) by lia. by rewrite andb_false_r.
  - rewrite Z.testbit_mod_pow2, Z.shiftr_spec, Z.testbit_ones_nonneg by lia.
    replace (i - 12 + 12) with i by lia. apply andb_comm.
Qed.

Lemma land_mask_id p : addressable p -> Z.land p ADDRESS_MASK = p.
Proof. unfold addressable. intros [Hp Hm]. rewrite land_mask. change (2 ^ 52) with (2 ^ 40 * 4096) in Hp.
  rewrite Z.mod_small by div_lia. div_lia. Qed.

Lemma land_mask_addressable e : addressable (Z.land e ADDRESS_MASK).
Proof. unfold addressable. rewrite land_mask. change (2 ^ 52) with (2 ^ 40 * 4096).
  pose proof (Z.mod_pos_bound (e / 4096) (2 ^ 40) ltac:(lia)). rewrite Z.mod_mul by lia. lia.
Qed.

(** A field of an entry is a field of its flags. *)
Lemma land_entry p fl c :
  Z.land ADDRESS_MASK c = 0 -> Z.land (Z.lor (Z.land p ADDRESS_MASK) fl) c = Z.land fl c.
Proof.
  intros Hc. rewrite Z.land_lor_distr_l, <- Z.land_assoc, Hc, Z.land_0_r. apply Z.lor_0_l.
Qed.

Lemma address_entry p fl :
  addressable p -> Z.land fl ADDRESS_MASK = 0 -> paging_address (Z.lor (Z.land p ADDRESS_MASK) fl) = p.
Proof.
  intros Hp Hf. unfold paging_address.
  rewrite Z.land_lor_distr_l, Hf, Z.lor_0_r, !land_mask_id by (rewrite ?land_mask_id; done). done.
Qed.

Lemma level_cases l : 1 <= l <= 4 -> l = 1 \/ l = 2 \/ l = 3 \/ l = 4.
Proof. lia. Qed.

Lemma span_eq l : 1 <= l <= 4 -> span l = 2 ^ (3 + 9 * l).
Proof. intros Hl. by destruct (level_cases l Hl) as [->|[->|[->| ->]]]. Qed.

Lemma index_eq l va : 1 <= l <= 4 -> 0 <= va -> index l va = va / 2 ^ (3 + 9 * l) mod 512.
Proof.
  intros Hl Hv. cbn [index paging]. unfold Radix9.index.
  replace (u64 (3 + 9 * l)) with (3 + 9 * l) by (symmetry; apply wrap_small; unfold in_width; lia).
  change 0x1FF with (Z.ones 9). by rewrite Z.land_ones, Z.shiftr_div_pow2 by lia.
Qed.

Lemma valid_eq va : valid va = true <-> va / 2 ^ 47 = 0 \/ va / 2 ^ 47 = 0x1FFFF.
Proof.
  cbn [valid paging]. unfold paging_valid. rewrite Z.shiftr_div_pow2 by lia.
  by rewrite orb_true_iff, !Z.eqb_eq.
Qed.

(** The flags of a leaf, gathered. *)
Definition leaf_flags (large write user uncached global noexec : bool) : Z :=
  Z.lor PRESENT (Z.lor (if large then LARGE else 0) (Z.lor (if write then WRITABLE else 0)
    (Z.lor (if user then USER else 0)
      (Z.lor (if uncached then Z.lor CACHE_DISABLE WRITE_THROUGH else 0)
        (Z.lor (if global then GLOBAL else 0) (if noexec then NO_EXECUTE else 0)))))).

Lemma leaf_entry_flags pa size prot :
  paging_leaf_entry pa size prot =
  Z.lor (Z.land pa ADDRESS_MASK)
    (leaf_flags (negb (size =? SIZE_4K)) (has prot PROT_WRITE) (has prot PROT_USER)
       (has prot PROT_UNCACHED) (has prot PROT_GLOBAL && global_pages_enabled)
       (negb (has prot PROT_EXEC) && nx_enabled)).
Proof.
  unfold paging_leaf_entry, leaf_flags.
  destruct (negb (size =? SIZE_4K)), (has prot PROT_WRITE), (has prot PROT_USER),
    (has prot PROT_UNCACHED), (has prot PROT_GLOBAL && global_pages_enabled),
    (negb (has prot PROT_EXEC) && nx_enabled);
    rewrite <- ?Z.lor_assoc; reflexivity.
Qed.

(** The protection of an entry, from its flags. *)
Definition prot_of (write exec user global uncached : bool) : page_prot :=
  Z.lor (if write then PROT_WRITE else 0) (Z.lor (if exec then PROT_EXEC else 0)
    (Z.lor (if user then PROT_USER else 0) (Z.lor (if global then PROT_GLOBAL else 0)
      (if uncached then PROT_UNCACHED else 0)))).

Lemma prot_eq e :
  paging_prot e =
  prot_of (negb (Z.land e WRITABLE =? 0)) (Z.land e NO_EXECUTE =? 0) (negb (Z.land e USER =? 0))
    (negb (Z.land e GLOBAL =? 0)) (negb (Z.land e CACHE_DISABLE =? 0)).
Proof.
  unfold paging_prot.
  by destruct (negb (Z.land e WRITABLE =? 0)), (Z.land e NO_EXECUTE =? 0),
    (negb (Z.land e USER =? 0)), (negb (Z.land e GLOBAL =? 0)), (negb (Z.land e CACHE_DISABLE =? 0)).
Qed.

(** What an entry built from [prot] grants: without the no-execute feature everything is
    executable, and without global pages nothing is global. *)
Definition granted (prot : page_prot) : page_prot :=
  prot_of (has prot PROT_WRITE) (has prot PROT_EXEC || negb nx_enabled) (has prot PROT_USER)
    (has prot PROT_GLOBAL && global_pages_enabled) (has prot PROT_UNCACHED).

Lemma leaf_flags_fields la w u c g n :
  let fl := leaf_flags la w u c g n in
  Z.land fl ADDRESS_MASK = 0 /\ (Z.land fl PRESENT =? 0) = false /\ (Z.land fl LARGE =? 0) = negb la /\
  (Z.land fl WRITABLE =? 0) = negb w /\ (Z.land fl USER =? 0) = negb u /\
  (Z.land fl CACHE_DISABLE =? 0) = negb c /\ (Z.land fl GLOBAL =? 0) = negb g /\
  (Z.land fl NO_EXECUTE =? 0) = negb n.
Proof. by destruct la, w, u, c, g, n. Qed.

Lemma leaf_entry_fields l pa prot :
  1 <= l < 4 -> addressable pa ->
  let e := paging_leaf_entry pa (Radix9.size_at l) prot in
  paging_present e = true /\ paging_leaf e l = true /\ paging_address e = pa /\
  paging_prot e = granted prot.
Proof.
  intros Hl Hpa. cbn zeta. rewrite leaf_entry_flags.
  set (la := negb (Radix9.size_at l =? SIZE_4K)).
  assert (Hla : la = negb (l =? 1)).
  { unfold la, Radix9.size_at, SIZE_4K. f_equal. destruct_comparisons; lia. }
  clearbody la. subst la.
  match goal with |- context [leaf_flags ?a ?b ?c ?d ?e ?f] =>
    destruct (leaf_flags_fields a b c d e f) as (H0 & H1 & H2 & H3 & H4 & H5 & H6 & H7);
    set (fl := leaf_flags a b c d e f) in * end.
  split; [|split; [|split]].
  - unfold paging_present. by rewrite land_entry, H1 by reflexivity.
  - unfold paging_leaf. rewrite land_entry, H2, !negb_involutive by reflexivity. by destruct (l =? 1).
  - by apply address_entry.
  - rewrite prot_eq, !land_entry, H3, H4, H5, H6, H7, !negb_involutive, negb_andb, negb_involutive
      by reflexivity. done.
Qed.

Definition split_child (e l i : Z) : Z :=
  Z.lor (Z.land (u64 (paging_address e + u64 (i * bytes_in (Radix9.size_at (l - 1))))) ADDRESS_MASK)
    (split_flags e l).

Lemma split_flags_land e l c :
  Z.land LARGE c = 0 -> Z.land (split_flags e l) c = Z.land e (Z.land (Z.lor PRESENT PROT_MASK) c).
Proof.
  intros Hc. unfold split_flags. rewrite Z.land_lor_distr_l, <- Z.land_assoc.
  destruct (l - 1 =? 1); [by rewrite Z.land_0_l, Z.lor_0_r | by rewrite Hc, Z.lor_0_r].
Qed.

Lemma split_child_fields e l i :
  1 < l <= 4 -> 0 <= i < 512 ->
  paging_present e = true -> paging_address e mod span l = 0 -> paging_address e + span l <= 2 ^ 52 ->
  let c := split_child e l i in
  paging_present c = true /\ paging_leaf c (l - 1) = true /\
  paging_address c = paging_address e + i * span (l - 1) /\ paging_prot c = paging_prot e.
Proof.
  intros Hl Hi Hpr Hm Hend. cbn zeta. unfold split_child.
  change (bytes_in (Radix9.size_at (l - 1))) with (span (l - 1)).
  assert (Hs : span l = 512 * span (l - 1)).
  { rewrite !span_eq by lia. replace (3 + 9 * l) with (9 + (3 + 9 * (l - 1))) by lia.
    rewrite Z.pow_add_r by lia. reflexivity. }
  assert (Hs4 : exists k, 0 < k /\ span (l - 1) = k * 4096).
  { rewrite span_eq by lia. exists (2 ^ (9 * (l - 2))). split; [apply pow2_pos; lia|].
    change 4096 with (2 ^ 12). rewrite <- Z.pow_add_r by lia. f_equal. lia. }
  destruct Hs4 as (k & Hk & Hs4).
  pose proof (land_mask_addressable e) as [Ha Ham]. fold (paging_address e) in Ha, Ham.
  assert (Hb : 0 <= i * span (l - 1) < span l) by nia.
  unfold u64. rewrite (wrap_small 64 (i * _)), wrap_small by (unfold in_width; lia).
  assert (Hp : addressable (paging_address e + i * span (l - 1))).
  { split; [lia|]. rewrite Hs4 in *. rewrite Z.mul_assoc, Z.mod_add; lia. }
  split; [|split; [|split]].
  - unfold paging_present. rewrite land_entry, split_flags_land by reflexivity. exact Hpr.
  - unfold paging_leaf. rewrite land_entry by reflexivity. unfold split_flags.
    rewrite Z.land_lor_distr_l, <- Z.land_assoc.
    change (Z.land (Z.lor PRESENT PROT_MASK) LARGE) with 0. rewrite Z.land_0_r, Z.lor_0_l.
    by destruct (l - 1 =? 1).
  - apply address_entry; [done|]. rewrite split_flags_land by reflexivity. apply Z.land_0_r.
  - rewrite !prot_eq, !land_entry, !split_flags_land by reflexivity. reflexivity.
Qed.

#[export] Program Instance paging_laws : page_format_laws := {
  effective_prot := granted;
  split_entry := split_child;
}.
Next Obligation. cbn. lia. Qed.
Next Obligation. done. Qed.
Next Obligation. done. Qed.
Next Obligation.
  cbn. intros l Hl. rewrite !span_eq by lia. replace (3 + 9 * (l + 1)) with (9 + (3 + 9 * l)) by lia.
  by rewrite Z.pow_add_r by lia.
Qed.
Next Obligation. cbn. rewrite span_eq by lia. lia. Qed.
Next Obligation.
  cbn. intros l Hl. exists (3 + 9 * l). split; [lia|]. exact (span_eq l Hl).
Qed.
Next Obligation. cbn -[index ENTRIES]. intros l va Hl Hv. rewrite index_eq by lia. change ENTRIES with 512. apply Z.mod_pos_bound. lia. Qed.
Next Obligation. 
  cbn -[index]. intros l va va' Hl Hv Hv' Hc Hc'. apply valid_eq in Hc, Hc'.
  rewrite !index_eq by lia. unfold same_page. cbn [LEVELS paging].
  destruct (Z.eq_dec l 4) as [->|].
  - rewrite (span_eq 4) by lia. change (3 + 9 * 4) with 39.
    generalize (va / span (4 + 1)) (va' / span (4 + 1)). intros t t'.
    change (2 ^ 47) with (2 ^ 39 * 256) in Hc, Hc'. rewrite <- !Z.div_div in Hc, Hc' by lia.
    set (q := va / 2 ^ 39) in *. set (q' := va' / 2 ^ 39) in *. clearbody q q'. clear Hv Hv'. div_lia.
  - rewrite !span_eq by lia. replace (3 + 9 * (l + 1)) with (3 + 9 * l + 9) by lia.
    rewrite (Z.pow_add_r 2 (3 + 9 * l) 9), <- !Z.div_div by (try apply Z.pow_nonzero; lia).
    set (q := va / 2 ^ (3 + 9 * l)) in *. set (q' := va' / _) in *. clearbody q q'.
    clear Hv Hv' Hc Hc'. change (2 ^ 9) with 512. div_lia.
Qed.
Next Obligation.
  cbn -[index]. intros l va Hl Hv. rewrite index_eq, !span_eq by lia.
  replace (3 + 9 * (l + 1)) with (3 + 9 * l + 9) by lia.
  rewrite (Z.pow_add_r 2 (3 + 9 * l) 9) by lia. change (2 ^ 9) with 512.
  rewrite Z.rem_mul_r by (try apply Z.pow_nonzero; lia). lia.
Qed.
Next Obligation.
  cbn -[valid]. intros l va va' Hl Hv Hc Heq. rewrite valid_eq in Hc |- *. rewrite !span_eq in Heq by lia.
  assert (E : forall x, x / 2 ^ 47 = x / 2 ^ (3 + 9 * l) / 2 ^ (44 - 9 * l)).
  { intros x. rewrite Z.div_div, <- Z.pow_add_r by (try apply Z.pow_nonzero; lia). do 2 f_equal. lia. }
  assert (E64 : forall x, x / 2 ^ 64 = x / 2 ^ (3 + 9 * l) / 2 ^ (61 - 9 * l)).
  { intros x. rewrite Z.div_div, <- Z.pow_add_r by (try apply Z.pow_nonzero; lia). do 2 f_equal. lia. }
  rewrite E, <- Heq, <- E. split; [|done].
  assert (Hs : va' / 2 ^ 64 = 0) by (rewrite E64, <- Heq, <- E64; by apply Z.div_small).
  apply Z.div_small_iff in Hs; lia.
Qed.
Next Obligation.
  cbn. intros l Hl. by destruct (level_cases l Hl) as [->|[->|[->| ->]]].
Qed.
Next Obligation. done. Qed.
Next Obligation. done. Qed.
Next Obligation. intros e. apply land_mask_addressable. Qed.
Next Obligation.
  cbn. unfold paging_table_entry. intros p Hp. rewrite <- !Z.lor_assoc. split; [|split].
  - unfold paging_present. by rewrite land_entry by reflexivity.
  - by apply address_entry.
  - intros l Hl. unfold paging_leaf. rewrite land_entry by reflexivity.
    destruct (Z.eqb_spec l 1); [lia | done].
Qed.
Next Obligation.
  cbn. intros l pa prot Hl Hpa Hm. apply leaf_entry_fields; [done|]. split; [done|].
  rewrite span_eq in Hm by lia. replace (3 + 9 * l) with (12 + 9 * (l - 1)) in Hm by lia.
  rewrite Z.pow_add_r, Z.rem_mul_r in Hm by (try apply Z.pow_nonzero; lia).
  change (2 ^ 12) with 4096 in Hm. pose proof (pow2_pos (9 * (l - 1)) ltac:(lia)).
  pose proof (Z.mod_pos_bound (pa / 4096) (2 ^ (9 * (l - 1))) ltac:(lia)).
  pose proof (Z.mod_pos_bound pa 4096 ltac:(lia)). lia.
Qed.
Next Obligation. done. Qed.
Next Obligation.
  cbn. intros e l i Hl Hi Hpr Hlf Hm Hend. by apply split_child_fields.
Qed.
End PagingLaws.
