(* ===== verification/Mmu.v ===== *)
(** * Mmu: the kernel's address space, [arch/x86_64/mmu/{mmu.hpp,mmu.cpp}]

    [kernel_env] gives the page-table tree its memory, the direct map, and its tables, which come
    from the frame allocator.  [init_kernel_space] builds the first tree in tables of the image. *)

From S2P Require Import Prelude Layout Bits Bitmap Page Containers Boot Pmm Radix RadixFacts Cpu Paging.

(** ** Layout *)

(** The direct map is as large as the memory the allocator manages. *)
Definition DIRECT_MAP_BASE : Z := Eval cbv in DOOM_OS_DIRECT_MAP_BASE.
Definition MMIO_MAP_BASE : Z := Eval cbv in DOOM_OS_MMIO_MAP_BASE.
Definition MMIO_MAP_SIZE : Z := Eval cbv in DOOM_OS_MMIO_MAP_SIZE.
Definition VMALLOC_BASE : Z := Eval cbv in DOOM_OS_VMALLOC_BASE.
Definition VMALLOC_SIZE : Z := Eval cbv in DOOM_OS_VMALLOC_SIZE.
Definition KERNEL_BASE : Z := Eval cbv in DOOM_OS_KERNEL_VMA.

Definition PAGE_4K : Z := bytes_in SIZE_4K.
Definition PAGE_2M : Z := bytes_in SIZE_2M.
Definition PAGE_1G : Z := bytes_in SIZE_1G.
Definition PML4_SPAN : Z := Z.shiftl 1 39.

(** The addresses the linker gives to the static tables and to the sections of the image. *)
Class image : Type := {
  m_pml4 : Z;
  m_kernel_pdpt : Z;
  m_kernel_pd : Z;
  m_direct_pdpt : Z;
  m_direct_pds : Z;
  kernel_physical_start : Z;
  kernel_end : Z;
  text_start : Z;
  text_end : Z;
  rodata_start : Z;
  rodata_end : Z;
  data_rel_ro_start : Z;
}.

(** ** State *)

(** Physical memory, by the address of each 8-byte word (a word not in the map holds 0), the
    allocator, the core, the paging features and [m_kernel_space]. *)
Record mmu : Type := {
  words : gmap Z Z;
  allocator : pmm;
  core : cpu;
  flags : features;
  kernel_root : Z;
}.

Definition set_words x s := {| words := x; allocator := allocator s; core := core s; flags := flags s;
  kernel_root := kernel_root s |}.
Definition set_allocator x s := {| words := words s; allocator := x; core := core s; flags := flags s;
  kernel_root := kernel_root s |}.
Definition set_core x s := {| words := words s; allocator := allocator s; core := x; flags := flags s;
  kernel_root := kernel_root s |}.
Definition set_features (x : features * cpu) s := {| words := words s; allocator := allocator s;
  core := snd x; flags := fst x; kernel_root := kernel_root s |}.
Definition set_kernel_root x s := {| words := words s; allocator := allocator s; core := core s;
  flags := flags s; kernel_root := x |}.

Section Mmu.
Context `{layout} `{image}.

Definition DIRECT_MAP_SIZE : Z := MAX_PHYSICAL_MEMORY.

Definition on_allocator {A} (m : kernel pmm A) : kernel mmu A := zoom allocator set_allocator m.
Definition on_core {A} (m : kernel cpu A) : kernel mmu A := zoom core set_core m.

Definition word_at (s : mmu) (p : Z) : Z := default 0 (words s !! p).

(** An access to a word of physical memory; one that is not aligned is not modelled. *)
Definition load (p : Z) : kernel mmu Z := if p mod 8 =? 0 then gets (fun s => word_at s p) else undefined.
Definition store (p x : Z) : kernel mmu unit :=
  if p mod 8 =? 0 then modify (fun s => set_words (<[p := x]> (words s)) s) else undefined.

(** The physical address behind an address of the direct map; the rest of it is not mapped. *)
Definition behind_direct_map (va : Z) : kernel mmu Z :=
  if (DIRECT_MAP_BASE <=? va) && (va <? DIRECT_MAP_BASE + DIRECT_MAP_SIZE)
  then mret (va - DIRECT_MAP_BASE) else undefined.

(** [phy_to_vrt]; [None] is the null pointer. *)
Definition phy_to_vrt (phys : Z) : option Z :=
  if phys <? DIRECT_MAP_SIZE then Some (u64 (DIRECT_MAP_BASE + phys)) else None.

(** ** [kernel_env] *)

(** [at], and an access to the entry [i] of the table it returns. *)
Definition at_ (phys : Z) : Z := u64 (DIRECT_MAP_BASE + phys).

Definition env_read (s : slot) : kernel mmu Z :=
  p ← behind_direct_map (at_ (fst s) + 8 * snd s); load p.
Definition env_write (s : slot) (x : Z) : kernel mmu unit :=
  p ← behind_direct_map (at_ (fst s) + 8 * snd s); store p x.

Definition env_alloc_table : kernel mmu (Result Z mm_error) :=
  phys ←? on_allocator (alloc SIZE_4K);
  for_range 0 Radix9.ENTRIES (fun i => env_write (phys, i) 0);;
  mret (Ok phys).

Definition env_free_table (phys : Z) : kernel mmu unit :=
  when ((phys <? kernel_physical_start) || (kernel_physical_end <=? phys))
    (on_allocator (free SIZE_4K phys)).

(** [replace]. *)
Definition env_replace (s : slot) (entry va : Z) : kernel mmu unit :=
  old ← env_read s;
  env_write s entry;;
  when (paging_present old) (on_core (flush va)).

#[export] Instance kernel_env : page_env mmu := {
  read := env_read;
  write := env_write;
  alloc_table := env_alloc_table;
  free_table := env_free_table;
  replace_entry := env_replace;
}.

(** ** Building the first tree *)

Definition DIRECT_PD_COUNT : Z := DIRECT_MAP_SIZE / PAGE_1G.

Definition image_phys (address : Z) : Z := u64 (address - KERNEL_BASE).

Definition kernel_window_size : Z := align_up 64 kernel_physical_end PAGE_2M.

(** [table.entries[i] = x], for a table of the image. *)
Definition set_entry (table i x : Z) : kernel mmu unit :=
  if (0 <=? i) && (i <? Radix9.ENTRIES) then store (image_phys table + 8 * i) x else undefined.

(** [m_direct_pds[i]]. *)
Definition direct_pd (i : Z) : kernel mmu Z :=
  if (0 <=? i) && (i <? DIRECT_PD_COUNT) then mret (m_direct_pds + 4096 * i) else undefined.

Definition link_tables : kernel mmu unit :=
  set_entry m_pml4 0 0;;
  set_entry m_pml4 (Radix9.index 4 KERNEL_BASE) (paging_table_entry (image_phys m_kernel_pdpt));;
  set_entry m_kernel_pdpt (Radix9.index 3 KERNEL_BASE) (paging_table_entry (image_phys m_kernel_pd));;
  set_entry m_pml4 (Radix9.index 4 DIRECT_MAP_BASE) (paging_table_entry (image_phys m_direct_pdpt));;
  for_range 0 DIRECT_PD_COUNT (fun i =>
    pd ← direct_pd i;
    set_entry m_direct_pdpt i (paging_table_entry (image_phys pd))).

(** [for (u64 offset = 0; offset < length; offset += PAGE_2M)], with fuel [length / PAGE_2M + 2]. *)
Definition fill_2m (pd va pa length : Z) (prot : page_prot) : kernel mmu unit :=
  while (Z.to_nat (length / PAGE_2M + 2))
    (fun offset => mret (offset <? length))
    (fun offset =>
       f ← gets flags;
       set_entry pd (Radix9.index 2 (u64 (va + offset)))
         (@paging_leaf_entry f (u64 (pa + offset)) SIZE_2M prot);;
       mret (u64 (offset + PAGE_2M)))
    0;;
  mret tt.

(** The loop over a region, from its first 2 MiB page to its last; fuel [(last - first) / 2 MiB + 2]. *)
Definition fill_region (region : memory_region) : kernel mmu unit :=
  if bool_decide (region_kind region = DEFECTIVE) || (region_length region =? 0) ||
     (DIRECT_MAP_SIZE <=? region_base region)
  then mret tt
  else
    let end_ := if u64 (DIRECT_MAP_SIZE - region_base region) <? region_length region
                then DIRECT_MAP_SIZE else u64 (region_base region + region_length region) in
    let first := align_down 64 (region_base region) PAGE_2M in
    let last := align_up 64 end_ PAGE_2M in
    while (Z.to_nat ((last - first) / PAGE_2M + 2))
      (fun pa => mret (pa <? last))
      (fun pa =>
         pd ← direct_pd (pa / PAGE_1G);
         fill_2m pd (u64 (DIRECT_MAP_BASE + pa)) pa PAGE_2M KERNEL_DATA;;
         mret (u64 (pa + PAGE_2M)))
      first;;
    mret tt.

Definition fill_direct_map (boot : info) : kernel mmu unit :=
  for_range 0 (InplaceVector.m_size (memory_map boot)) (fun i =>
    region ← observe (memory_map boot) (InplaceVector.get i);
    fill_region region).

Definition protect_region (first last : Z) (prot : page_prot) : kernel mmu (Result unit mm_error) :=
  let start := align_down 64 first PAGE_4K in
  let end_ := align_up 64 last PAGE_4K in
  f ← gets flags;
  root ← gets kernel_root;
  protect_range (F := @paging f) root start (u64 (end_ - start)) SIZE_4K prot.

(** [m_kernel_space.unmap_range] with the default [on_removed]. *)
Definition unmap_kernel (va length : Z) : kernel mmu (Result unit mm_error) :=
  f ← gets flags;
  root ← gets kernel_root;
  unmap_range (F := @paging f) root va length SIZE_4K (fun _ => mret tt).

Definition protect_image : kernel mmu (Result unit mm_error) :=
  _ ←? protect_region data_rel_ro_start kernel_end KERNEL_DATA;
  _ ←? protect_region rodata_start rodata_end KERNEL_RODATA;
  _ ←? protect_region text_start text_end KERNEL_TEXT;
  let image_first := align_down 64 text_start PAGE_4K in
  let image_last := align_up 64 kernel_end PAGE_4K in
  let window_last := u64 (KERNEL_BASE + kernel_window_size) in
  _ ←? (if KERNEL_BASE <? image_first
        then unmap_kernel KERNEL_BASE (u64 (image_first - KERNEL_BASE)) else mret (Ok tt));
  _ ←? (if image_last <? window_last
        then unmap_kernel image_last (u64 (window_last - image_last)) else mret (Ok tt));
  mret (Ok tt).

Definition init_kernel_space `{machine} (boot : info) : kernel mmu init_result :=
  zoom (fun s => (flags s, core s)) set_features enable_paging_features;;
  link_tables;;
  fill_2m m_kernel_pd KERNEL_BASE 0 kernel_window_size
    (prot_or (prot_or PROT_WRITE PROT_EXEC) PROT_GLOBAL);;
  fill_direct_map boot;;
  modify (set_kernel_root (image_phys m_pml4));;
  root ← gets kernel_root;
  on_core (write_cr3 root);;
  r ← protect_image;
  match r with
  | Err _ => mret (Err NO_USABLE_MEMORY)
  | Ok _ =>
      on_core flush_all_global;;
      v ← on_core read_cr0;
      on_core (write_cr0 (Z.lor v CR0_WRITE_PROTECT));;
      mret (Ok tt)
  end.
End Mmu.

(** ** The environment keeps its promises *)

Definition registers (c : cpu) : Z * Z * Z * gmap Z (Z * Z) := (cr0 c, cr3 c, cr4 c, msrs c).

(** The processor honours the bits of the entries that the features allow. *)
Definition features_on (f : features) (c : cpu) : Prop :=
  (@nx_enabled f = true -> wp (read_msr MSR_EFER) (fun v _ => Z.testbit v 11 = true) c) /\
  (@global_pages_enabled f = true -> Z.testbit (cr4 c) 7 = true).

Lemma read_msr_kept m (P : Z -> Prop) c c' :
  msrs c' = msrs c -> wp (read_msr m) (fun v _ => P v) c -> wp (read_msr m) (fun v _ => P v) c'.
Proof.
  unfold wp, read_msr, mbind, kernel_bind, gets. intros ->. by destruct (default _ _).
Qed.

Lemma features_on_same f c c' : cr4 c' = cr4 c -> msrs c' = msrs c -> features_on f c -> features_on f c'.
Proof.
  intros Hcr4 Hmsrs [Hnx Hg]. unfold features_on. rewrite Hcr4. split; [|exact Hg].
  intros Hf. by apply (read_msr_kept _ _ c), Hnx.
Qed.

Lemma features_on_kept f c c' : registers c' = registers c -> features_on f c -> features_on f c'.
Proof. intros [= _ _ Hcr4 Hmsrs]. by apply features_on_same. Qed.

(** What the operations of a tree leave alone: the frames that are in use for something other than a
    table (what the kernel maps), the features and the root of the kernel's own tree. *)
Class space_frame : Type := {
  claimed : Z -> Prop;
  kept_flags : features;
  kept_root : Z;
}.

Section EnvLaws.
Context `{layout_ok} `{image}.

Definition entry_at (s : mmu) (p i : Z) : Z := word_at s (p + 8 * i).

(** A frame that can hold a table: in memory, aligned, and not free. *)
Definition table_frame (s : mmu) (p : Z) : Prop :=
  0 <= p < MAX_PHYSICAL_MEMORY /\ p mod 4096 = 0 /\ is_free (allocator s) (p / 4096) = false.

(** A frame the allocator can hand out. *)
Definition free_frame (s : mmu) (p : Z) : Prop :=
  0 <= p < MAX_PHYSICAL_MEMORY /\ p mod 4096 = 0 /\ is_free (allocator s) (p / 4096) = true.

(** Nothing was taken from the allocator. *)
Definition frames_kept (s s' : mmu) : Prop := forall p, free_frame s p -> free_frame s' p.

Definition no_frame_left (s : mmu) : Prop := forall f, 0 <= f < MAX_FRAMES -> is_free (allocator s) f = false.

Definition same_space (s s' : mmu) : Prop :=
  flags s' = flags s /\ kernel_root s' = kernel_root s /\ registers (core s') = registers (core s).

Lemma table_frame_range s p : table_frame s p -> 0 <= p /\ p + 4096 <= MAX_PHYSICAL_MEMORY.
Proof. intros (Hp & Hm & _). rewrite max_memory_eq in *. div_lia. Qed.

Lemma table_frame_index s p : table_frame s p -> 0 <= p / 4096 < MAX_FRAMES /\ p = p / 4096 * 4096.
Proof. intros (Hp & Hm & _). rewrite max_memory_eq in *. div_lia. Qed.

Lemma free_frame_index s p : free_frame s p -> 0 <= p / 4096 < MAX_FRAMES /\ p = p / 4096 * 4096.
Proof. intros (Hp & Hm & _). rewrite max_memory_eq in *. div_lia. Qed.

Lemma free_frame_at s f : 0 <= f < MAX_FRAMES -> free_frame s (f * 4096) <-> is_free (allocator s) f = true.
Proof.
  intros Hf. unfold free_frame. rewrite max_memory_eq, Z.div_mul, Z.mod_mul by lia.
  split; [tauto|]. split; [lia | done].
Qed.

Lemma at_eq p : 0 <= p < MAX_PHYSICAL_MEMORY -> at_ p = DIRECT_MAP_BASE + p.
Proof.
  intros Hp. pose proof max_memory_range. apply wrap_small. unfold in_width, DIRECT_MAP_BASE. lia.
Qed.

Lemma wp_behind_direct_map p i (Q : Z -> mmu -> Prop) s :
  0 <= p -> p + 4096 <= MAX_PHYSICAL_MEMORY -> 0 <= i < 512 ->
  Q (p + 8 * i) s -> wp (behind_direct_map (at_ p + 8 * i)) Q s.
Proof.
  intros Hp Hend Hi HQ. rewrite at_eq by lia. unfold behind_direct_map, DIRECT_MAP_SIZE.
  destruct_comparisons; try lia. cbn [andb]. apply wp_ret.
  by replace (DIRECT_MAP_BASE + p + 8 * i - DIRECT_MAP_BASE) with (p + 8 * i) by lia.
Qed.

Lemma word_aligned p i : p mod 4096 = 0 -> ((p + 8 * i) mod 8 =? 0) = true.
Proof. intros Hm. apply Z.eqb_eq. div_lia. Qed.

Lemma wp_env_read s p i (Q : Z -> mmu -> Prop) :
  table_frame s p -> 0 <= i < 512 -> Q (entry_at s p i) s -> wp (env_read (p, i)) Q s.
Proof.
  intros Hp Hi HQ. destruct (table_frame_range s p Hp) as [Hlo Hend].
  apply wp_bind, wp_behind_direct_map; [done..|]. unfold load.
  rewrite word_aligned by apply Hp. by apply wp_gets.
Qed.

(** A write to an entry of a table that is in memory. *)
Lemma wp_env_write_word s p i x (Q : unit -> mmu -> Prop) :
  0 <= p -> p mod 4096 = 0 -> p + 4096 <= MAX_PHYSICAL_MEMORY -> 0 <= i < 512 ->
  Q tt (set_words (<[p + 8 * i := x]> (words s)) s) -> wp (env_write (p, i) x) Q s.
Proof.
  intros Hlo Hm Hend Hi HQ. apply wp_bind, wp_behind_direct_map; [done..|]. unfold store.
  rewrite word_aligned by done. by apply wp_modify.
Qed.

Lemma entry_at_set s p i x q j :
  p mod 4096 = 0 -> q mod 4096 = 0 -> 0 <= i < 512 -> 0 <= j < 512 ->
  entry_at (set_words (<[p + 8 * i := x]> (words s)) s) q j =
  if decide (q = p /\ j = i) then x else entry_at s q j.
Proof.
  intros Hp Hq Hi Hj. unfold entry_at, word_at. cbn [words set_words].
  destruct (decide (q = p /\ j = i)) as [[-> ->]|Hne]; [by rewrite lookup_insert_eq|].
  rewrite lookup_insert_ne; [done|]. intros E. apply Hne. div_lia.
Qed.

Lemma wp_env_write s p i x (Q : unit -> mmu -> Prop) :
  ready (allocator s) -> table_frame s p -> 0 <= i < 512 ->
  (forall s', ready (allocator s') -> (forall q, table_frame s' q <-> table_frame s q) ->
     (forall q j, table_frame s q -> 0 <= j < 512 ->
        entry_at s' q j = if decide (q = p /\ j = i) then x else entry_at s q j) -> same_space s s' ->
     frames_kept s s' -> Q tt s') ->
  wp (env_write (p, i) x) Q s.
Proof.
  intros Hs Hp Hi HQ. destruct (table_frame_range s p Hp) as [Hlo Hend].
  apply wp_env_write_word; [done | apply Hp | done..|]. apply HQ; [done | done | | done | by intros q Hq].
  intros q j Hq Hj. apply entry_at_set; [apply Hp | apply Hq | done..].
Qed.

Lemma wp_env_replace s p i x va (Q : unit -> mmu -> Prop) :
  ready (allocator s) -> table_frame s p -> 0 <= i < 512 ->
  (forall s', ready (allocator s') -> (forall q, table_frame s' q <-> table_frame s q) ->
     (forall q j, table_frame s q -> 0 <= j < 512 ->
        entry_at s' q j = if decide (q = p /\ j = i) then x else entry_at s q j) -> same_space s s' ->
     frames_kept s s' -> Q tt s') ->
  wp (env_replace (p, i) x va) Q s.
Proof.
  intros Hs Hp Hi HQ. apply wp_bind, wp_env_read; [done..|].
  apply wp_bind, wp_env_write; [done..|]. intros s' Hs' Hfr Hw Hsp Hk.
  unfold when. destruct (paging_present _); [|by apply HQ]. apply wp_zoom. by apply HQ.
Qed.

(** Clearing a fresh table touches no other. *)
Lemma wp_clear_table s p (Q : unit -> mmu -> Prop) :
  0 <= p -> p mod 4096 = 0 -> p + 4096 <= MAX_PHYSICAL_MEMORY ->
  (forall s', allocator s' = allocator s -> (forall i, 0 <= i < 512 -> entry_at s' p i = 0) ->
     (forall q j, q mod 4096 = 0 -> q <> p -> 0 <= j < 512 -> entry_at s' q j = entry_at s q j) ->
     same_space s s' -> Q tt s') ->
  wp (for_range 0 Radix9.ENTRIES (fun i => env_write (p, i) 0)) Q s.
Proof.
  intros Hlo Hm Hend HQ.
  apply (wp_for_range (fun i s' => allocator s' = allocator s /\
    (forall j, 0 <= j < i -> entry_at s' p j = 0) /\
    (forall q j, q mod 4096 = 0 -> q <> p -> 0 <= j < 512 -> entry_at s' q j = entry_at s q j) /\
    same_space s s')).
  - split; [done|]. split; [lia | done].
  - intros i s1 Hi (Ha & Hz & Ho & Hsp). change Radix9.ENTRIES with 512 in Hi.
    apply wp_env_write_word; [done..|]. split; [done|]. split.
    + intros j Hj. rewrite entry_at_set by (done || lia). destruct (decide _) as [|Hne]; [done|].
      apply Hz. lia.
    + split; [|done]. intros q j Hq Hne Hj. rewrite entry_at_set by done.
      destruct (decide _) as [[-> _]|]; [done|]. by apply Ho.
  - intros s1 (Ha & Hz & Ho & Hsp). change (Z.max 0 Radix9.ENTRIES) with 512 in Hz. by apply HQ.
Qed.

Lemma wp_env_alloc_table s (Q : Result Z mm_error -> mmu -> Prop) :
  ready (allocator s) ->
  (forall p s', ready (allocator s') -> ~ table_frame s p -> table_frame s' p ->
     (forall q, table_frame s q -> table_frame s' q) ->
     (forall i, 0 <= i < 512 -> entry_at s' p i = 0) ->
     (forall q j, table_frame s q -> 0 <= j < 512 -> entry_at s' q j = entry_at s q j) -> same_space s s' ->
     (forall q, free_frame s q -> free_frame s' q \/ q = p) -> Q (Ok p) s') ->
  (forall s', ready (allocator s') -> (forall q, table_frame s q -> table_frame s' q) ->
     (forall q j, table_frame s q -> 0 <= j < 512 -> entry_at s' q j = entry_at s q j) ->
     same_space s s' -> no_frame_left s' -> frames_kept s s' -> Q (Err OUT_OF_MEMORY) s') ->
  wp env_alloc_table Q s.
Proof.
  intros Hs HOk HErr. apply wp_ktry, wp_zoom. apply wp_alloc; [done | by left |].
  intros [p|e] a Ha Hr; [|destruct Hr as (-> & -> & Hno); apply HErr; [done.. | | by intros q Hq]].
  2: { intros f Hf. destruct (is_free (allocator s) f) eqn:E; [|done]. destruct (Hno f).
       change (frames_in SIZE_4K) with 1. split; [lia|]. split; [lia|]. split; [apply Z.mod_1_r|].
       intros g Hg. cbn. by replace g with f by lia. }
  destruct Hr as (f & -> & (Hf & Hcap & _ & Hfree) & _ & Hset). change (frames_in SIZE_4K) with 1 in *.
  assert (Hdiv : f * 4096 / 4096 = f) by (apply Z.div_mul; lia).
  assert (Hmod : (f * 4096) mod 4096 = 0) by (apply Z.mod_mul; lia).
  assert (Hmem : f * 4096 + 4096 <= MAX_PHYSICAL_MEMORY) by (rewrite max_memory_eq; lia).
  assert (Hnot : ~ table_frame s (f * 4096)).
  { intros (_ & _ & Hb). rewrite Hdiv, Hfree in Hb by lia. discriminate Hb. }
  apply wp_bind, wp_clear_table; [lia | done | done |]. intros s2 Ha2 Hz Ho Hsp. cbn in Ha2.
  apply wp_ret. apply HOk.
  - by rewrite Ha2.
  - done.
  - split; [lia|]. split; [done|]. rewrite Ha2, Hdiv, Hset by lia. destruct_comparisons; lia || done.
  - intros q Hq. pose proof (table_frame_index s q Hq) as [Hqi Hqe]. split; [apply Hq|].
    split; [apply Hq|]. rewrite Ha2, Hset by done. destruct (_ && _); [done|]. apply Hq.
  - done.
  - intros q j Hq Hj. rewrite Ho; [done | apply Hq | | done]. by intros ->.
  - done.
  - intros q (Hq & Hqm & Hqf). destruct (Z.eq_dec q (f * 4096)) as [|Hne]; [by right | left].
    split; [done|]. split; [done|]. rewrite max_memory_eq in Hq.
    assert (Hqi : 0 <= q / 4096 < MAX_FRAMES) by div_lia. rewrite Ha2, Hset by done.
    destruct (_ && _) eqn:E0; [|done]. exfalso. apply Hne. div_lia.
Qed.

Lemma wp_env_free_table s p (Q : unit -> mmu -> Prop) :
  ready (allocator s) -> table_frame s p ->
  (forall s', ready (allocator s') -> (forall q, table_frame s q -> q <> p -> table_frame s' q) ->
     (forall q j, table_frame s q -> 0 <= j < 512 -> entry_at s' q j = entry_at s q j) -> same_space s s' ->
     frames_kept s s' -> (free_frame s' p \/ kernel_physical_start <= p < kernel_physical_end) -> Q tt s') ->
  wp (env_free_table p) Q s.
Proof.
  intros Hs Hp HQ. unfold env_free_table, when. destruct (_ || _) eqn:Hout.
  2: { apply wp_ret. apply HQ; [done | by auto | done | done | by intros q Hq | right; lia]. }
  destruct (table_frame_index s p Hp) as [Hi He]. pose proof max_memory_range.
  apply wp_zoom, wp_free; change (frames_in SIZE_4K) with 1.
  - done.
  - by left.
  - destruct Hp as [Hp _]. lia.
  - split; [apply Hp | lia].
  - intros g Hg. replace g with (p / 4096) by lia. apply Hp.
  - intros a Ha [_ Hset]. apply HQ; [done | | done | done | |].
    + intros q Hq Hne. destruct (table_frame_index s q Hq) as [Hqi Hqe]. split; [apply Hq|]. split; [apply Hq|].
      cbn [allocator set_allocator]. rewrite Hset by done.
      destruct_comparisons; cbn [andb]; try apply Hq. destruct Hne. lia.
    + intros q Hq. destruct (free_frame_index s q Hq) as [Hqi _]. split; [apply Hq|]. split; [apply Hq|].
      cbn [allocator set_allocator]. rewrite Hset by done. destruct (_ && _); [done | apply Hq].
    + left. split; [apply Hp|]. split; [apply Hp|]. cbn [allocator set_allocator]. rewrite Hset by done.
      destruct_comparisons; lia || done.
Qed.

Lemma table_frame_addressable s p : table_frame s p -> addressable p.
Proof. intros (Hp & Hm & _). pose proof max_memory_range. split; [lia | done]. Qed.

(** The tables are the frames in use that are not claimed for something else. *)
Context `{space_frame}.

Record env_ok (s : mmu) : Prop := {
  env_ready : ready (allocator s);
  env_claimed p : claimed p -> table_frame s p;
  env_flags : flags s = kept_flags;
  env_root : kernel_root s = kept_root;
  (** The processor walks the kernel's tree. *)
  env_installed : cr3 (core s) = kept_root;
  env_features : features_on kept_flags (core s);
}.

Definition table_owned (s : mmu) (p : Z) : Prop := table_frame s p /\ ~ claimed p.

Lemma env_ok_kept s s' :
  env_ok s -> ready (allocator s') -> (forall q, claimed q -> table_frame s q -> table_frame s' q) ->
  same_space s s' -> env_ok s'.
Proof.
  intros [Hs Hc Hf Hr Hi Hon] Hs' Hfr (Hf' & Hr' & Hg). assert (cr3 (core s') = cr3 (core s)) by (by injection Hg).
  split; [done | | congruence.. | by eapply features_on_kept].
  intros p Hp. apply Hfr; [done | by apply Hc].
Qed.

(** A write keeps the invariant. *)
Lemma written_ok s s' p i x :
  env_ok s -> ready (allocator s') -> (forall q, table_frame s' q <-> table_frame s q) ->
  (forall q j, table_frame s q -> 0 <= j < 512 ->
     entry_at s' q j = if decide (q = p /\ j = i) then x else entry_at s q j) ->
  same_space s s' ->
  env_ok s' /\ (forall q, table_owned s' q <-> table_owned s q) /\
  (forall q j, table_owned s q -> 0 <= j < 512 ->
     entry_at s' q j = if decide (q = p /\ j = i) then x else entry_at s q j).
Proof.
  intros Hs Hs' Hfr Hw Hsp. split; [|split].
  - eapply env_ok_kept; [exact Hs | done | | done]. intros q _ Hq. by apply Hfr.
  - intros q. unfold table_owned. by rewrite Hfr.
  - intros q j [Hq _]. by apply Hw.
Qed.

#[export] Program Instance kernel_env_laws : page_env_laws := {
  env_inv := env_ok;
  exhausted := no_frame_left;
  word := entry_at;
  owned := table_owned;
  spare := free_frame;
  pinned p := kernel_physical_start <= p < kernel_physical_end;
  owned_addressable s p _ Hp := table_frame_addressable s p (proj1 Hp);
}.
Next Obligation. intros s p i Q _ [Hp _] Hi HQ. by apply wp_env_read. Qed.
Next Obligation.
  intros s p i x Q Hs [Hp _] Hi HQ. apply wp_env_write; [apply Hs | done..|]. intros s' Hs' Hfr Hw Hsp Hk.
  destruct (written_ok s s' p i x Hs Hs' Hfr Hw Hsp) as (H1' & H2' & H3'). by apply HQ.
Qed.
Next Obligation.
  intros s p i x va Q Hs [Hp _] Hi HQ. apply wp_env_replace; [apply Hs | done..|]. intros s' Hs' Hfr Hw Hsp Hk.
  destruct (written_ok s s' p i x Hs Hs' Hfr Hw Hsp) as (H1' & H2' & H3'). by apply HQ.
Qed.
Next Obligation.
  intros s Q Hs HOk HErr. apply wp_env_alloc_table; [apply Hs | |].
  - intros p s' Hs' Hnew Hp Hkeep Hz Hw Hsp Hfree. apply HOk.
    + eapply env_ok_kept; [exact Hs | done | by auto | done].
    + by intros [].
    + split; [done|]. intros Hp'. by apply Hnew, Hs.
    + intros q [Hq Hn]. split; [by apply Hkeep | done].
    + done.
    + intros q j [Hq _]. by apply Hw.
    + exact Hfree.
  - intros s' Hs' Hkeep Hw Hsp Hno Hfree. apply HErr.
    + eapply env_ok_kept; [exact Hs | done | by auto | done].
    + intros q [Hq Hn]. split; [by apply Hkeep | done].
    + intros q j [Hq _]. by apply Hw.
    + exact Hno.
    + exact Hfree.
Qed.
Next Obligation.
  intros s p Q Hs [Hp Hn] HQ. apply wp_env_free_table; [apply Hs | done |].
  intros s' Hs' Hkeep Hw Hsp Hfree Hgone. apply HQ.
  - eapply env_ok_kept; [exact Hs | done | | done]. intros q Hq Hf. apply Hkeep; [done | by intros ->].
  - intros q [Hq Hnq] Hne. split; [by apply Hkeep | done].
  - intros q j [Hq _]. by apply Hw.
  - exact Hfree.
  - exact Hgone.
Qed.
End EnvLaws.

(** ** Properties *)
Section MmuProperties.
Context `{layout_ok} `{image} `{features} `{space_frame}.
Context (root : Z).

(** C20: Mapping a range: on success exactly the range changes, to the physical range and the granted
    protection; on failure a prefix was mapped, and the error says what stopped the next page. *)
Theorem map_range_correct s va pa length l prot :
  tree_ok root s -> 1 <= l <= 3 -> 0 <= va -> 0 <= length < 2 ^ 64 -> va + length <= 2 ^ 64 ->
  0 <= pa -> pa + length <= 2 ^ 52 ->
  wp (map_range root va pa length (size_at l) prot) (fun r s' =>
    tree_ok root s' /\
    match r with
    | Ok _ => maps root s s' va pa length (usable_level l) prot
    | Err e => exists n, 0 <= n <= length /\ n mod span (usable_level l) = 0 /\
        maps root s s' va pa n (usable_level l) prot /\
        (e = INVALID_ADDRESS /\ bad_length l length \/
         n < length /\ map_error root s s' (va + n) (pa + n) (usable_level l) e)
    end) s.
Proof.
  intros Hok Hl Hva Hlen Hend Hpa Hmax. apply wp_map_range; try done.
  cbn. lia.
Qed.

(** C21: Changing the protection of a range: on success every address of the range keeps its physical
    address and gets the granted protection, and no other address changes, large pages that
    straddle the range being split; on failure a prefix was changed. *)
Theorem protect_range_correct s va length l prot :
  tree_ok root s -> 1 <= l <= 3 -> 0 <= va -> 0 <= length < 2 ^ 64 -> va + length <= 2 ^ 64 ->
  wp (protect_range root va length (size_at l) prot) (fun r s' =>
    tree_ok root s' /\
    match r with
    | Ok _ => protects root s s' va length (usable_level l) prot
    | Err e => exists n, 0 <= n <= length /\ n mod span (usable_level l) = 0 /\
        protects root s s' va n (usable_level l) prot /\
        (e = INVALID_ADDRESS /\ bad_length l length \/
         n < length /\ protect_error root s s' (va + n) (usable_level l) e)
    end) s.
Proof.
  intros Hok Hl Hva Hlen Hend. apply wp_protect_range; try done. cbn. lia.
Qed.

(** The table that the walk to an address goes through at a level, below the root, when it has no entry. *)
Definition empty_table (s : mmu) (va l t : Z) : Prop :=
  canonical va /\ 1 <= l < 4 /\ table_at root s va l = Some t /\ forall i, 0 <= i < 512 -> entry_at s t i = 0.

(** A table of the tree. *)
Definition is_table (s : mmu) (t : Z) : Prop :=
  exists va l, canonical va /\ 1 <= l <= 4 /\ table_at root s va l = Some t.

(** C22: Unmapping a range: on success every address of the range was mapped and is mapped no more, and
    no other address changes; on failure a prefix was unmapped.  Either way no table is left empty that
    was not empty before, and a table that is no longer in the tree is free again, unless it is one of
    the kernel image; no frame that was free is lost: it is free or a table of the tree. *)
Theorem unmap_range_correct s va length l :
  tree_ok root s -> 1 <= l <= 4 -> 0 <= va < 2 ^ 64 -> 0 <= length < 2 ^ 64 ->
  wp (unmap_range root va length (size_at l) (fun _ => mret tt)) (fun r s' =>
    tree_ok root s' /\ unmapped root s va length l r s' /\
    (forall x k t, empty_table s' x k t -> empty_table s x k t) /\
    (forall t, is_table s t -> is_table s' t \/ free_frame s' t \/ kernel_physical_start <= t < kernel_physical_end) /\
    (forall p, free_frame s p -> free_frame s' p \/ is_table s' p \/ kernel_physical_start <= p < kernel_physical_end)) s.
Proof.
  intros Hok Hl Hva Hlen. apply wp_unmap_range; try done.
  { intros m s1 Hs1. apply wp_ret. split; [done|]. split; [done | apply cleared_refl]. }
  intros r s' Hok' [Htidy Hret] Hr. split; [done|]. split; [done|]. split; [|split].
  - intros x k t (Hx & Hk & Ht & Hz). destruct (Htidy x k t Hx Hk Ht Hz).
    split; [done|]. split; [done|]. by split.
  - intros t Ht. destruct (Hret t (or_intror Ht)) as [[Hf|Hf]|Hf]; [right; left | left | right; right]; exact Hf.
  - intros t Ht. destruct (Hret t (or_introl Ht)) as [[Hf|Hf]|Hf]; [left | right; left | right; right]; exact Hf.
Qed.

(** Translating an address: the mapping found is the one the tables give, and an error says that
    the address is not canonical or not mapped; nothing changes. *)
Theorem translate_correct s va :
  tree_ok root s -> 0 <= va < 2 ^ 64 ->
  wp (translate root va) (fun r s' =>
    s' = s /\
    match r with
    | Ok m => valid va = true /\ translation root s va = Some (physical m, prot m)
    | Err e => e = INVALID_ADDRESS /\ valid va = false \/
        e = NOT_MAPPED /\ valid va = true /\ translation root s va = None
    end) s.
Proof.
  intros Hok Hva. apply wp_translate; [done | done |]. intros r Hr. split; [done|].
  destruct r as [m|e].
  - destruct Hr as (Hv & l & e & Hleaf & ->). split; [done|]. by apply translation_leaf.
  - destruct e; try (destruct Hr as (? & Hv & Hno); try done).
    + by left.
    + right. split; [done|]. split; [done|]. unfold translation. by rewrite Hno.
Qed.
End MmuProperties.

(** ** The properties at work: an empty address space *)
Section MmuWitnesses.
Local Instance example_layout : layout := configured_layout 0x200000.
Local Instance example_layout_ok : layout_ok := configured_layout_ok 0x200000 ltac:(lia).
Local Instance example_features : features :=
  {| nx_enabled := true; global_pages_enabled := true; gib_pages_supported := false |}.

(** The linker script places the image at 1 MiB; its tables are page-aligned. *)
Definition example_image : image := {|
  m_pml4 := KERNEL_BASE + 0x150000;
  m_kernel_pdpt := KERNEL_BASE + 0x151000;
  m_kernel_pd := KERNEL_BASE + 0x152000;
  m_direct_pdpt := KERNEL_BASE + 0x153000;
  m_direct_pds := KERNEL_BASE + 0x154000;
  kernel_physical_start := 0x100000;
  kernel_end := KERNEL_BASE + 0x200000;
  text_start := KERNEL_BASE + 0x110000;
  text_end := KERNEL_BASE + 0x130000;
  rodata_start := KERNEL_BASE + 0x130000;
  rodata_end := KERNEL_BASE + 0x140000;
  data_rel_ro_start := KERNEL_BASE + 0x140000;
|}.
Local Existing Instance example_image.

Definition example_root : Z := 0x150000.

Definition blank_space (a : pmm) : mmu := {|
  words := ∅;
  allocator := a;
  core := {| cr0 := 0; cr3 := example_root; cr4 := 0x80; msrs := {[MSR_EFER := (0x800, 0)]}; executed := [] |};
  flags := example_features;
  kernel_root := example_root;
|}.

(** The frame at 0x170000 is in use for data. *)
Local Instance example_frame : space_frame :=
  {| claimed := fun p => p = 0x170000; kept_flags := example_features; kept_root := example_root |}.

Lemma example_space :
  exists s, tree_ok example_root s /\ forall va, canonical va -> translation example_root s va = None.
Proof.
  destruct (populated_state 0x200000 0x400000) as (a & Ha & Hfree); [by vm_compute|].
  exists (blank_space a). apply empty_tree.
  - split; [exact Ha | | done..]. intros p ->. split; [by vm_compute|]. split; [done|].
    cbn [allocator blank_space]. rewrite Hfree by (split; by vm_compute). by vm_compute.
  - split; [|by intros E]. split; [by vm_compute|]. split; [done|]. cbn [allocator blank_space].
    rewrite Hfree by (split; by vm_compute). by vm_compute.
  - done.
Qed.

Lemma vmalloc_canonical : canonical VMALLOC_BASE.
Proof. by vm_compute. Qed.

Lemma map_range_correct_witness :
  exists s, tree_ok example_root s /\
    wp (map_range example_root VMALLOC_BASE 0x200000 0x2000 SIZE_4K KERNEL_DATA) (fun r s' =>
      r = Ok tt -> translation example_root s' (VMALLOC_BASE + 0x1234) = Some (0x201234, granted KERNEL_DATA)) s.
Proof.
  destruct example_space as (s & Hs & Hnone). exists s. split; [exact Hs|].
  eapply wp_mono; [apply (map_range_correct example_root s VMALLOC_BASE 0x200000 0x2000 1 KERNEL_DATA Hs);
    [lia | by vm_compute.. ]|].
  intros r s' (_ & Hr) ->. rewrite (proj1 Hr (VMALLOC_BASE + 0x1234)) by (by vm_compute). by vm_compute.
Defined.

Lemma protect_range_correct_witness :
  exists s, tree_ok example_root s /\
    wp (protect_range example_root VMALLOC_BASE 0x2000 SIZE_4K KERNEL_RODATA) (fun r s' =>
      exists e, r = Err e) s.
Proof.
  destruct example_space as (s & Hs & Hnone). exists s. split; [exact Hs|].
  eapply wp_mono; [apply (protect_range_correct example_root s VMALLOC_BASE 0x2000 1 KERNEL_RODATA Hs);
    [lia | by vm_compute.. ]|].
  intros [[]|e] s' (_ & Hr); [|by exists e].
  destruct (proj1 Hr VMALLOC_BASE vmalloc_canonical) as (pa & old & Ht & _). by rewrite Hnone in Ht.
Defined.

(** A page is mapped and unmapped: it is gone, and the tables made for it are not left behind. *)
Lemma unmap_range_correct_witness :
  exists s, tree_ok example_root s /\
    wp (mapped ← map_range example_root VMALLOC_BASE 0x200000 0x1000 SIZE_4K KERNEL_DATA;
        match mapped with
        | Ok _ => unmap_range example_root VMALLOC_BASE 0x1000 SIZE_4K (fun _ => mret tt)
        | Err e => mret (Err e)
        end) (fun r s' => r = Ok tt -> translation example_root s' VMALLOC_BASE = None) s.
Proof.
  destruct example_space as (s & Hs & Hnone). exists s. split; [exact Hs|]. apply wp_bind.
  change SIZE_4K with (size_at 1). apply wp_map_range; [exact Hs | cbn; lia | by vm_compute.. |].
  intros [[]|e] s1 Hs1 _ _; [|by apply wp_ret].
  eapply wp_mono; [apply (unmap_range_correct example_root s1 VMALLOC_BASE 0x1000 1 Hs1);
    [lia | by vm_compute.. ]|].
  intros r s' (_ & Hr & _) ->. exact (proj2 (Hr VMALLOC_BASE vmalloc_canonical)).
Defined.

Lemma translate_correct_witness :
  exists s, tree_ok example_root s /\
    wp (translate example_root VMALLOC_BASE) (fun r s' => r = Err NOT_MAPPED) s.
Proof.
  destruct example_space as (s & Hs & Hnone). exists s. split; [exact Hs|].
  eapply wp_mono; [apply (translate_correct example_root s VMALLOC_BASE Hs); by vm_compute|].
  intros [m|e] s' (_ & Hr).
  - destruct Hr as [_ Ht]. by rewrite Hnone in Ht.
  - destruct Hr as [[_ Hv]|[-> _]]; [by vm_compute in Hv | done].
Defined.
End MmuWitnesses.
