(* ===== verification/Vmm.v ===== *)
(** * Vmm: kernel virtual memory, [kernel/mm/vmm.cpp]

    Allocations of the virtual area [VMALLOC], kept in an array sorted by address with a guard page
    between neighbours; each is backed by frames of the physical allocator, page by page. *)

From S2P Require Import Prelude Bits Page Spinlock Containers Boot Pmm Radix RadixFacts Cpu Paging Mmu.

Definition MAX_ALLOCATIONS : Z := 1024.

Record allocation : Type := { alloc_base : Z; alloc_bytes : Z }.

#[export] Instance allocation_inhabited : Inhabited allocation :=
  {| inhabitant := {| alloc_base := 0; alloc_bytes := 0 |} |}.

Record vmm : Type := {
  space : mmu;
  m_allocations : list allocation;
  m_count : Z;
  vmm_lock : Z;
}.

Definition set_space x s := {| space := x; m_allocations := m_allocations s; m_count := m_count s;
  vmm_lock := vmm_lock s |}.
Definition set_allocations x s := {| space := space s; m_allocations := x; m_count := m_count s;
  vmm_lock := vmm_lock s |}.
Definition set_count x s := {| space := space s; m_allocations := m_allocations s; m_count := x;
  vmm_lock := vmm_lock s |}.
Definition set_vmm_lock x s := {| space := space s; m_allocations := m_allocations s;
  m_count := m_count s; vmm_lock := x |}.

Section Vmm.
Context `{layout} `{image}.

Definition on_space {A} (m : kernel mmu A) : kernel vmm A := zoom space set_space m.

Definition frame_alloc : kernel vmm (Result Z mm_error) := on_space (on_allocator (alloc SIZE_4K)).
Definition frame_free (size : page_size) (frame : Z) : kernel vmm unit :=
  on_space (on_allocator (Pmm.free size frame)).

(** An operation of [mmu::kernel_space()], with the paging features as they were enabled. *)
Definition kernel_space {A} (m : features -> Z -> kernel mmu A) : kernel vmm A :=
  on_space (f ← gets flags; root ← gets kernel_root; m f root).

Definition get_allocation (index : Z) : kernel vmm allocation :=
  zoom m_allocations set_allocations (array_get index).
Definition set_allocation (index : Z) (entry : allocation) : kernel vmm unit :=
  zoom m_allocations set_allocations (array_set index entry).

Definition gap_start (index : Z) : kernel vmm Z :=
  if index =? 0 then mret VMALLOC_BASE
  else
    previous ← get_allocation (u64 (index - 1));
    mret (u64 (u64 (alloc_base previous + alloc_bytes previous) + FRAME_SIZE)).

Definition gap_end (index : Z) : kernel vmm Z :=
  count ← gets m_count;
  if index =? count then mret (u64 (VMALLOC_BASE + VMALLOC_SIZE))
  else entry ← get_allocation index; mret (alloc_base entry).

Definition find_gap (bytes : Z) : kernel vmm (Result Z mm_error) :=
  count ← gets m_count;
  if count =? MAX_ALLOCATIONS then mret (Err OUT_OF_MEMORY)
  else
    r ← scan_range 0 (count + 1) (fun index =>
          stop ← gap_end index;
          start ← gap_start index;
          mret (if u64 (bytes + FRAME_SIZE) <=? u64 (stop - start) then Some index else None));
    mret (match r with Some index => Ok index | None => Err OUT_OF_MEMORY end).

(** [insert]: the loop runs down from [m_count] to [index]; fuel [m_count - index + 1]. *)
Definition insert (index : Z) (entry : allocation) : kernel vmm unit :=
  count ← gets m_count;
  while (Z.to_nat (count - index + 1))
    (fun i => mret (index <? i))
    (fun i =>
       previous ← get_allocation (u64 (i - 1));
       set_allocation i previous;;
       mret (u64 (i - 1)))
    count;;
  set_allocation index entry;;
  modify (fun s => set_count (u64 (m_count s + 1)) s).

Definition erase (index : Z) : kernel vmm unit :=
  count ← gets m_count;
  for_range (index + 1) count (fun i =>
    entry ← get_allocation i;
    set_allocation (u64 (i - 1)) entry);;
  modify (fun s => set_count (u64 (m_count s - 1)) s).

Definition release (base bytes : Z) : kernel vmm unit :=
  if bytes =? 0 then mret tt
  else
    unmapped ← kernel_space (fun f root =>
      unmap_range (F := @paging f) root base bytes SIZE_4K
        (fun removed => on_allocator (Pmm.free (Page.size removed) (frame removed))));
    match unmapped with
    | Err _ => kpanic "vmm: allocation at {:#018X} is not fully mapped"
    | Ok _ => mret tt
    end.

(** [back]: one page per iteration; fuel [bytes / FRAME_SIZE + 2]. *)
Definition back_page (base offset : Z) (prot : page_prot) : kernel vmm (Result unit mm_error) :=
  frame ← frame_alloc;
  match frame with
  | Err e => release base offset;; mret (Err e)
  | Ok f =>
      mapped ← kernel_space (fun ft root =>
        map_range (F := @paging ft) root (u64 (base + offset)) f FRAME_SIZE SIZE_4K prot);
      match mapped with
      | Err e => frame_free SIZE_4K f;; release base offset;; mret (Err e)
      | Ok _ => mret (Ok tt)
      end
  end.

Definition back (base bytes : Z) (prot : page_prot) : kernel vmm (Result unit mm_error) :=
  r ← while (Z.to_nat (bytes / FRAME_SIZE + 2))
    (fun '(offset, failed) => mret (match failed with Some _ => false | None => offset <? bytes end))
    (fun '(offset, _) =>
       r ← back_page base offset prot;
       mret (match r with Err e => (offset, Some e) | Ok _ => (u64 (offset + FRAME_SIZE), None) end))
    (0, None);
  mret (match snd r with Some e => Err e | None => Ok tt end).

Definition guarded {A} (body : kernel vmm A) : kernel vmm A :=
  guarded_by LOCK_FUEL vmm_lock set_vmm_lock body.

Definition vmm_alloc (bytes : Z) (prot : page_prot) : kernel vmm (Result Z mm_error) :=
  if (bytes =? 0) || (VMALLOC_SIZE <? bytes) then mret (Err INVALID_ADDRESS)
  else
    let size := align_up 64 bytes FRAME_SIZE in
    guarded
      (index ←? find_gap size;
       base ← gap_start index;
       _ ←? back base size prot;
       insert index {| alloc_base := base; alloc_bytes := size |};;
       mret (Ok base)).

Definition vmm_free (base bytes : Z) : kernel vmm (Result unit mm_error) :=
  guarded
    (count ← gets m_count;
     r ← scan_range 0 count (fun index =>
           entry ← get_allocation index;
           if negb (alloc_base entry =? base) then mret None
           else if negb (alloc_bytes entry =? align_up 64 bytes FRAME_SIZE)
           then mret (Some (Err INVALID_ADDRESS))
           else
             release (alloc_base entry) (alloc_bytes entry);;
             erase index;;
             mret (Some (Ok tt)));
     mret (match r with Some result => result | None => Err INVALID_ADDRESS end)).

Definition vmm_protect (first bytes : Z) (prot : page_prot) : kernel vmm (Result unit mm_error) :=
  let last := align_up 64 (u64 (first + bytes)) FRAME_SIZE in
  if (bytes =? 0) || negb (Z.land first (u64 (FRAME_SIZE - 1)) =? 0) || (last <=? first)
  then mret (Err INVALID_ADDRESS)
  else
    guarded
      (count ← gets m_count;
       r ← scan_range 0 count (fun index =>
             entry ← get_allocation index;
             if (alloc_base entry <=? first) && (last <=? u64 (alloc_base entry + alloc_bytes entry))
             then
               result ← kernel_space (fun f root =>
                 protect_range (F := @paging f) root first (u64 (last - first)) SIZE_4K prot);
               mret (Some result)
             else mret None);
       mret (match r with Some result => result | None => Err INVALID_ADDRESS end)).

Definition vrt_to_phy (va : Z) : kernel vmm (Result mapping mm_error) :=
  guarded (kernel_space (fun f root => translate (F := @paging f) root va)).

Definition map_mmio (pa bytes : Z) : kernel vmm (Result Z mm_error) :=
  if (bytes =? 0) || (MMIO_MAP_SIZE <=? pa) || (u64 (MMIO_MAP_SIZE - pa) <? bytes)
  then mret (Err INVALID_ADDRESS)
  else
    let first := align_down 64 pa FRAME_SIZE in
    let last := align_up 64 (u64 (pa + bytes)) FRAME_SIZE in
    _ ←? guarded (kernel_space (fun f root =>
           map_range (F := @paging f) root (u64 (MMIO_MAP_BASE + first)) first (u64 (last - first))
             SIZE_4K MMIO));
    mret (Ok (u64 (MMIO_MAP_BASE + pa))).
End Vmm.
