(* ===== verification/VmmFacts.v ===== *)
(** * VmmFacts: what the virtual-memory operations promise

    The area as a map from pages to frames, the table of allocations as a sorted list of disjoint
    blocks, the invariant that ties the two to the page tables and to the frame allocator, and the
    theorems about [Vmm]'s operations. *)

From S2P Require Import Prelude Bits Bitmap Page Spinlock Containers Boot Pmm Radix RadixFacts Cpu Paging Mmu Vmm.

(** ** Pages and the frames behind them

    The contents of the area, abstractly: the frame and the protection of each mapped page. *)
Abbreviation backing := (gmap Z (Z * page_prot)).

Section VmmSpace.
Context `{layout_ok} `{image} `{features}.
Context (root : Z).


Definition backs (b : backing) (p : Z) : Prop := exists y q, b !! y = Some (p, q).

(** The frames of [b] are in use, and are not tables. *)
Definition keeping (b : backing) : space_frame :=
  {| claimed := backs b; kept_flags := _; kept_root := root |}.

Abbreviation laws b := (@kernel_env_laws _ _ _ (keeping b)).

(** A page of the area, or the page after its end. *)
Definition area_page (y : Z) : Prop := VMALLOC_BASE <= y <= VMALLOC_BASE + VMALLOC_SIZE /\ y mod 4096 = 0.

Definition page_is (s : mmu) (y : Z) (o : option (Z * page_prot)) : Prop :=
  match o with
  | None => leaf_of (EL := laws ∅) root s y = None
  | Some (f, q) => exists e, leaf_of (EL := laws ∅) root s y = Some (1, e) /\ address e = f /\ entry_prot e = q
  end.

Definition pages_ok (b : backing) (s : mmu) : Prop := forall y, area_page y -> page_is s y (b !! y).

Record backing_ok (b : backing) : Prop := {
  backing_area y f : b !! y = Some f -> area_page y;
  backing_injective y y' f q q' : b !! y = Some (f, q) -> b !! y' = Some (f, q') -> y = y';
}.

Record space_ok (b : backing) (s : mmu) : Prop := {
  space_tree : tree_ok (EL := laws b) root s;
  space_pages : pages_ok b s;
  space_backing : backing_ok b;
}.

Lemma in_area_canonical y : VMALLOC_BASE <= y <= VMALLOC_BASE + VMALLOC_SIZE -> canonical y.
Proof. unfold VMALLOC_BASE, VMALLOC_SIZE. intros Hy. split; [lia|]. apply valid_eq. right. div_lia. Qed.

Lemma area_canonical y : area_page y -> canonical y.
Proof. intros [Hy _]. by apply in_area_canonical. Qed.

(** A table of the kernel's tree. *)
Definition tree_table (s : mmu) (p : Z) : Prop := table_of (EL := laws ∅) root s p.

(** One of the tables of the image, which are never given back. *)
Definition image_table (p : Z) : Prop := kernel_physical_start <= p < kernel_physical_end.

Lemma span_page : span 1 = 4096.
Proof. reflexivity. Qed.

Lemma level_one : usable_level 1 = 1.
Proof. reflexivity. Qed.

(** A page keeps its frame when its translation is kept and leaves were split at most. *)
Lemma page_kept s s' y o :
  canonical y ->
  translation (EL := laws ∅) root s' y = translation (EL := laws ∅) root s y ->
  (forall l' e', leaf_of (EL := laws ∅) root s' y = Some (l', e') ->
     exists l e, leaf_of (EL := laws ∅) root s y = Some (l, e) /\ l' <= l) ->
  page_is s y o -> page_is s' y o.
Proof.
  intros Hy Ht Hl. unfold translation in Ht. destruct o as [[f q]|]; cbn.
  - intros (e & He & Ha & Hq). rewrite He in Ht.
    destruct (leaf_of root s' y) as [[l' e']|] eqn:He'; [|done].
    destruct (Hl l' e' eq_refl) as (l & e0 & He0 & Hle). rewrite He in He0. injection He0 as <- <-.
    destruct (leaf_of_table (EL := laws ∅) root s' y l' e' He') as ((Hlo & _) & _).
    replace l' with 1 in * by lia. injection Ht as Hta Htq. unfold mapped in *. cbn [fst snd] in *.
    exists e'. split; [done|]. split; [lia | congruence].
  - intros He. rewrite He in Ht. by destruct (leaf_of root s' y).
Qed.

(** The accounting of frames changes, the tables do not. *)
Lemma table_at_reframe b b' s a va l :
  table_at (EL := laws b') root (set_allocator a s) va l = table_at (EL := laws b) root s va l.
Proof.
  unfold table_at. induction (Z.to_nat (LEVELS - l)) as [|n IH]; [done|]. cbn [table_below].
  rewrite IH. by destruct (table_below root s va n).
Qed.

Lemma leaf_of_reframe b b' s a va :
  leaf_of (EL := laws b') root (set_allocator a s) va = leaf_of (EL := laws b) root s va.
Proof.
  unfold leaf_of. generalize root as t. induction (Z.to_nat LEVELS) as [|n IH]; intros t; [done|].
  cbn [resolve]. cbv zeta. change (@word _ _ (laws b') (set_allocator a s) t) with (@word _ _ (laws b) s t).
  destruct (negb _); [done|]. destruct (leaf _ _); [done | apply IH].
Qed.

Lemma tree_reframe b b' s a :
  tree_ok (EL := laws b) root s -> ready a ->
  (forall p, backs b' p -> table_frame (set_allocator a s) p) ->
  (forall p, table_frame s p -> ~ backs b p -> table_frame (set_allocator a s) p /\ ~ backs b' p) ->
  tree_ok (EL := laws b') root (set_allocator a s).
Proof.
  intros [[Hr Hc Hf Hk] Ho Hu Hl] Ha Hb Hkeep. split.
  - by split.
  - intros va l t Hva Hlv. rewrite (table_at_reframe b). intros Ht.
    destruct (Ho va l t Hva Hlv Ht) as [H1' H2']. by apply Hkeep.
  - intros va va' l l' t Hva Hva' Hlv Hlv'. rewrite !(table_at_reframe b). by apply Hu.
  - intros va l t Hva Hlv. rewrite (table_at_reframe b). by apply Hl.
Qed.

Lemma page_is_reframe s a y o : page_is s y o -> page_is (set_allocator a s) y o.
Proof. unfold page_is. by rewrite (leaf_of_reframe ∅). Qed.


Lemma pages_reframe b s a : pages_ok b s -> pages_ok b (set_allocator a s).
Proof. intros Hp y Hy. by apply page_is_reframe, Hp. Qed.

Lemma tree_frames b s f : tree_ok (EL := laws b) root s -> backs b f -> table_frame s f.
Proof. intros [[_ Hc _ _] _ _ _]. apply Hc. Qed.

(** Taking a frame for the page [x]. *)
Lemma wp_claim b s x q (Q : Result Z mm_error -> mmu -> Prop) :
  tree_ok (EL := laws b) root s -> b !! x = None ->
  (forall f a, tree_ok (EL := laws (<[x := (f, q)]> b)) root (set_allocator a s) ->
     0 <= f /\ f + 4096 <= MAX_PHYSICAL_MEMORY /\ f mod 4096 = 0 -> ~ backs b f ->
     (forall p, free_frame s p -> free_frame (set_allocator a s) p \/ p = f) -> Q (Ok f) (set_allocator a s)) ->
  (no_frame_left s -> Q (Err OUT_OF_MEMORY) s) ->
  wp (on_allocator (alloc SIZE_4K)) Q s.
Proof.
  intros Ht Hx HOk HErr. pose proof (tree_env root s Ht) as [Hr Hc _ _ _ _].
  apply wp_zoom, wp_alloc; [done | by left |]. intros [p|e] a Ha Hres; cycle 1.
  { destruct Hres as (-> & -> & Hno). replace (set_allocator (allocator s) s) with s by (by destruct s).
    apply HErr. intros f Hf. destruct (is_free (allocator s) f) eqn:E; [|done]. destruct (Hno f).
    change (frames_in SIZE_4K) with 1. split; [lia|]. split; [lia|]. split; [apply Z.mod_1_r|].
    intros g Hg. by replace g with f by lia. }
  destruct Hres as (f & -> & (Hf & Hcap & _ & Hfree) & _ & Hset). change (frames_in SIZE_4K) with 1 in *.
  assert (Hdiv : f * 4096 / 4096 = f) by (apply Z.div_mul; lia).
  assert (Hmod : (f * 4096) mod 4096 = 0) by (apply Z.mod_mul; lia).
  assert (Hmem : f * 4096 + 4096 <= MAX_PHYSICAL_MEMORY) by (rewrite max_memory_eq; lia).
  assert (Hnot : ~ table_frame s (f * 4096)).
  { intros (_ & _ & Hb). rewrite Hdiv, Hfree in Hb by lia. discriminate Hb. }
  assert (Hnew : table_frame (set_allocator a s) (f * 4096)).
  { split; [lia|]. split; [done|]. cbn [allocator set_allocator]. rewrite Hdiv, Hset by lia.
    destruct_comparisons; lia || done. }
  assert (Hkeep : forall p, table_frame s p -> table_frame (set_allocator a s) p).
  { intros p Hp. pose proof (table_frame_index s p Hp) as [Hpi _]. split; [apply Hp|]. split; [apply Hp|].
    cbn [allocator set_allocator]. rewrite Hset by done. destruct (_ && _); [done | apply Hp]. }
  assert (Hother : forall p, free_frame s p -> free_frame (set_allocator a s) p \/ p = f * 4096).
  { intros p Hp. destruct (free_frame_index s p Hp) as [Hpi Hpe]. destruct (Z.eq_dec p (f * 4096)) as [|Hne]; [by right | left].
    split; [apply Hp|]. split; [apply Hp|]. cbn [allocator set_allocator]. rewrite Hset by done.
    destruct (_ && _) eqn:E0; [lia | apply Hp]. }
  apply HOk; [| lia | by intros Hb; apply Hnot, Hc | done].
  apply (tree_reframe b); [done | done | |].
  - intros p (y & q' & Hy). destruct (Z.eq_dec y x) as [->|].
    + rewrite lookup_insert_eq in Hy. injection Hy as <- _. done.
    + rewrite lookup_insert_ne in Hy by done. apply Hkeep, Hc. by exists y, q'.
  - intros p Hp Hnb. split; [by apply Hkeep|]. intros (y & q' & Hy). destruct (Z.eq_dec y x) as [->|].
    + rewrite lookup_insert_eq in Hy. injection Hy as <- _. done.
    + rewrite lookup_insert_ne in Hy by done. apply Hnb. by exists y, q'.
Qed.

(** Giving the frame of the page [x] back. *)
Lemma wp_unclaim b s x f q (Q : unit -> mmu -> Prop) :
  tree_ok (EL := laws b) root s -> backing_ok b -> b !! x = Some (f, q) ->
  (forall a, tree_ok (EL := laws (delete x b)) root (set_allocator a s) ->
     frames_kept s (set_allocator a s) -> free_frame (set_allocator a s) f -> Q tt (set_allocator a s)) ->
  wp (on_allocator (Pmm.free SIZE_4K f)) Q s.
Proof.
  intros Ht Hb Hx HQ. pose proof (tree_env root s Ht) as [Hr Hc _ _ _ _].
  assert (Hf : table_frame s f) by (apply Hc; by exists x, q).
  destruct (table_frame_index s f Hf) as [Hi He]. pose proof max_memory_range.
  apply wp_zoom, wp_free; change (frames_in SIZE_4K) with 1.
  - done.
  - by left.
  - destruct Hf as [Hf _]. lia.
  - split; [apply Hf | lia].
  - intros g Hg. replace g with (f / 4096) by lia. apply Hf.
  - intros a Ha [_ Hset]. apply HQ; cycle 1.
    { intros p Hp. destruct (free_frame_index s p Hp) as [Hpi Hpe]. split; [apply Hp|]. split; [apply Hp|].
      cbn [allocator set_allocator]. rewrite Hset by done. destruct (_ && _); [done | apply Hp]. }
    { split; [apply Hf|]. split; [apply Hf|]. cbn [allocator set_allocator]. rewrite Hset by done.
      destruct_comparisons; lia || done. }
    assert (Hkeep : forall p, table_frame s p -> p <> f -> table_frame (set_allocator a s) p).
    { intros p Hp Hne. destruct (table_frame_index s p Hp) as [Hpi Hpe]. split; [apply Hp|]. split; [apply Hp|].
      cbn [allocator set_allocator]. rewrite Hset by done.
      destruct_comparisons; cbn [andb]; try apply Hp. destruct Hne. lia. }
    apply (tree_reframe b); [done | done | |].
    + intros p (y & q' & Hy). apply lookup_delete_Some in Hy as [Hne Hy]. apply Hkeep; [apply Hc; by exists y, q'|].
      intros ->. destruct Hne. by apply (backing_injective b Hb) with (1 := Hx) (2 := Hy).
    + intros p Hp Hnb. split.
      * apply Hkeep; [done|]. intros ->. apply Hnb. by exists x, q.
      * intros (y & q' & Hy). apply lookup_delete_Some in Hy as [_ Hy]. apply Hnb. by exists y, q'.
Qed.

Lemma backing_ok_insert b x f q :
  backing_ok b -> area_page x -> ~ backs b f -> backing_ok (<[x := (f, q)]> b).
Proof.
  intros [Ha Hi] Hx Hf. split.
  - intros y g. destruct (Z.eq_dec y x) as [->|]; [done|]. rewrite lookup_insert_ne by done. apply Ha.
  - intros y y' g q1 q2. destruct (Z.eq_dec y x) as [->|], (Z.eq_dec y' x) as [->|];
      rewrite ?lookup_insert_eq, ?lookup_insert_ne by done.
    + done.
    + intros [= <- _] Hy'. destruct Hf. by exists y', q2.
    + intros Hy [= <- _]. destruct Hf. by exists y, q1.
    + apply Hi.
Qed.

Lemma backing_ok_delete b x : backing_ok b -> backing_ok (delete x b).
Proof.
  intros [Ha Hi]. split.
  - intros y f Hy. apply lookup_delete_Some in Hy as [_ Hy]. by eapply Ha.
  - intros y y' f q q' Hy Hy'. apply lookup_delete_Some in Hy as [_ Hy], Hy' as [_ Hy']. by eapply Hi.
Qed.

(** Mapping the frame of the page [x]. *)
Lemma wp_map_page b b1 s x f prot (Q : Result unit mm_error -> mmu -> Prop) :
  b1 = <[x := (f, granted prot)]> b ->
  tree_ok (EL := laws b1) root s -> pages_ok b s -> b !! x = None -> area_page x ->
  0 <= f /\ f + 4096 <= MAX_PHYSICAL_MEMORY /\ f mod 4096 = 0 ->
  (forall s', tree_ok (EL := laws b1) root s' -> pages_ok b1 s' ->
     spread_over (EL := laws b1) root s s' x 4096 -> Q (Ok tt) s') ->
  (forall s', tree_ok (EL := laws b1) root s' -> pages_ok b s' ->
     spread_over (EL := laws b1) root s s' x 4096 -> no_frame_left s' -> Q (Err OUT_OF_MEMORY) s') ->
  wp (map_range root x f FRAME_SIZE SIZE_4K prot) Q s.
Proof.
  intros Eb Ht Hp Hbx Hx (Hf & Hmax & Hal) HOk HErr. pose proof (area_canonical x Hx) as Hcx.
  pose proof max_memory_range. change FRAME_SIZE with 4096. change SIZE_4K with (size_at 1).
  assert (Hxr : 0 <= x /\ x + 4096 <= 2 ^ 64).
  { destruct Hx as [Hx _]. unfold VMALLOC_BASE, VMALLOC_SIZE in Hx. lia. }
  pose proof (Hp x Hx) as Hnone. rewrite Hbx in Hnone. cbn in Hnone.
  assert (Hother : forall y, area_page y -> y <> x -> (x <=? y) && (y <? x + 4096) = false).
  { intros y [_ Hy] Hne. destruct Hx as [_ Hxm]. destruct_comparisons; cbn; [div_lia | done..]. }
  apply (wp_map_range (EL := laws b1)); [done | cbn; lia | lia | lia | lia | lia | lia |].
  intros r s' Ht' Hsp Hr. rewrite level_one in Hr. change (span 1) with 4096 in Hr. destruct r as [[]|e].
  - destruct Hr as [Hm Hg]. apply HOk; [done | | exact Hsp]. intros y Hy. subst b1. destruct (Z.eq_dec y x) as [->|Hne].
    + rewrite lookup_insert_eq. specialize (Hm x Hcx). specialize (Hg x).
      assert (Hin : (x <=? x) && (x <? x + 4096) = true) by (destruct_comparisons; lia || done).
      rewrite Hin in Hm. unfold translation in Hm.
      destruct (leaf_of root s' x) as [[l' e']|] eqn:He'; [|done].
      specialize (Hg l' e' Hcx eq_refl). rewrite Hin in Hg.
      destruct (leaf_of_table root s' x l' e' He') as ((Hlo & _) & _). replace l' with 1 in * by lia.
      injection Hm as Hma Hmq. unfold mapped in *. cbn [fst snd] in *. exists e'. split; [done|].
      split; [|done]. destruct Hx as [_ Hxm]. change (span 1) with 4096 in Hma.
      change (paging_address e' = f). lia.
    + rewrite lookup_insert_ne by done. apply (page_kept s); [by apply area_canonical | | | by apply Hp].
      * specialize (Hm y (area_canonical y Hy)). rewrite (Hother y Hy Hne) in Hm. exact Hm.
      * intros l' e' He'. specialize (Hg y l' e' (area_canonical y Hy) He'). rewrite (Hother y Hy Hne) in Hg. exact Hg.
  - destruct Hr as (n & Hn & Hnm & [Hm Hg] & Hwhy). destruct Hwhy as [[-> Hbad]|[Hlt Hwhy]].
    { exfalso. destruct Hbad as [|Hbad]; [done|]. by apply Hbad. }
    assert (n = 0) as -> by div_lia. rewrite !Z.add_0_r in *.
    assert (e = OUT_OF_MEMORY) as ->.
    { destruct e; try done.
      - exfalso. apply Hwhy. split; [apply Hcx|]. split; [apply Hx | exact Hal].
      - exfalso. destruct Hwhy as [_ [|Hw]]; [lia|]. apply Hw. unfold translation.
        change (match leaf_of (EL := laws ∅) root s x with Some le => Some (mapped x le) | None => None end = None).
        by rewrite Hnone. }
    apply HErr; [done | | exact Hsp | exact Hwhy]. intros y Hy. apply (page_kept s); [by apply area_canonical | | | by apply Hp].
    + specialize (Hm y (area_canonical y Hy)). destruct (Z.leb_spec x y), (Z.ltb_spec y x); cbn [andb] in Hm; done || lia.
    + intros l' e' He'. specialize (Hg y l' e' (area_canonical y Hy) He').
      rewrite Z.add_0_r in Hg. destruct (Z.leb_spec x y), (Z.ltb_spec y x); cbn [andb] in Hg; done || lia.
Qed.

(** Removing the page [x]: its mapping is returned, and its frame is still in use. *)
Lemma wp_remove_page b s x f q (Q : Result mapping mm_error -> mmu -> Prop) :
  tree_ok (EL := laws b) root s -> pages_ok b s -> area_page x -> b !! x = Some (f, q) ->
  (forall s' m, tree_ok (EL := laws b) root s' -> pages_ok (delete x b) s' ->
     frame m = f -> Page.size m = SIZE_4K -> frames_kept s s' ->
     (forall p, tree_table s p -> tree_table s' p \/ free_frame s' p \/ image_table p) -> Q (Ok m) s') ->
  wp (remove_leaf root x) Q s.
Proof.
  intros Ht Hp Hx Hbx HQ. pose proof (area_canonical x Hx) as Hcx.
  pose proof (Hp x Hx) as Hpx. rewrite Hbx in Hpx. destruct Hpx as (e & He & Hf & Hq).
  apply (wp_remove_leaf (EL := laws b)); [done | done |]. intros r s' (Ht' & Hr).
  destruct r as [m|er]; cycle 1.
  { destruct Hr as (_ & Hno & _).
    change (leaf_of (EL := laws ∅) root s x = None) in Hno. congruence. }
  destruct Hr as (l & e0 & He0 & -> & Hview & [Hkeep Hret] & _).
  change (leaf_of (EL := laws ∅) root s x = Some (l, e0)) in He0.
  rewrite He in He0. injection He0 as <- <-. apply HQ; [done | | done | done | exact Hkeep |]; cycle 1.
  { intros p Hpt. destruct (Hret p (or_intror Hpt)) as [[Hg|Hg]|Hg]; [right; left | left | right; right]; exact Hg. }
  intros y Hy. pose proof (Hview y (area_canonical y Hy)) as Hvy. specialize (Hp y Hy).
  destruct (decide (x = y)) as [<-|Hne].
  - rewrite lookup_delete_eq. rewrite decide_True in Hvy by apply same_page_refl. exact Hvy.
  - rewrite lookup_delete_ne by done. rewrite decide_False in Hvy.
    + destruct (b !! y) as [[f' q']|]; cbn in *; [|by rewrite <- Hp].
      destruct Hp as (e' & He' & Ha'). exists e'. split; [|done]. by rewrite <- He'.
    + intros Hs. apply same_page_interval in Hs; [|cbn; lia | apply Hx]. change (span 1) with 4096 in Hs.
      destruct Hx as [_ Hxm], Hy as [_ Hym]. apply Hne. div_lia.
Qed.

(** The pages of a range, taken out. *)
Definition without (lo hi : Z) (b : backing) : backing :=
  base.filter (fun kv : Z * (Z * page_prot) => ~ (lo <= fst kv < hi)) b.

Lemma lookup_without lo hi b y :
  without lo hi b !! y = if (lo <=? y) && (y <? hi) then None else b !! y.
Proof.
  unfold without. destruct ((lo <=? y) && (y <? hi)) eqn:E0.
  - apply map_lookup_filter_None. right. intros v _ Hn. apply Hn. cbn. lia.
  - destruct (b !! y) eqn:Hy.
    + apply map_lookup_filter_Some. split; [done|]. cbn. lia.
    + apply map_lookup_filter_None. by left.
Qed.

Lemma without_none lo b : without lo lo b = b.
Proof. apply map_eq. intros y. rewrite lookup_without. destruct_comparisons; cbn; lia || done. Qed.

Lemma without_step lo y b :
  backing_ok b -> area_page y -> lo <= y -> delete y (without lo y b) = without lo (y + 4096) b.
Proof.
  intros Hb Hy Hlo. apply map_eq. intros z. rewrite lookup_without. destruct (decide (y = z)) as [<-|Hne].
  - rewrite lookup_delete_eq. destruct_comparisons; cbn; lia || done.
  - rewrite lookup_delete_ne, lookup_without by done.
    destruct (Z.leb_spec lo z), (Z.ltb_spec z y), (Z.ltb_spec z (y + 4096)); cbn; try lia; try done.
    destruct (b !! z) eqn:Hz; [|done]. destruct (backing_area b Hb z _ Hz) as [_ Hzm].
    destruct Hy as [_ Hym]. exfalso. apply Hne. div_lia.
Qed.

Lemma backing_ok_without lo hi b : backing_ok b -> backing_ok (without lo hi b).
Proof.
  intros [Ha Hi]. split.
  - intros y f. rewrite lookup_without. destruct (_ && _); [done | apply Ha].
  - intros y y' f q q'. rewrite !lookup_without.
    destruct ((lo <=? y) && _), ((lo <=? y') && _); try done. apply Hi.
Qed.

(** The pages of [\[lo, hi)] were given back: no frame that was free was taken, the frames behind the
    pages are free, and so are the tables that are no longer needed. *)
Record freed (b : backing) (s s' : mmu) (lo hi : Z) : Prop := {
  freed_kept : frames_kept s s';
  freed_pages y f q : lo <= y < hi -> b !! y = Some (f, q) -> free_frame s' f;
  freed_tables p : tree_table s p -> tree_table s' p \/ free_frame s' p \/ image_table p;
}.

Lemma freed_none b s lo : freed b s s lo lo.
Proof. split; [by intros p | lia | by left]. Qed.

Lemma freed_trans b s s1 s2 lo mid hi :
  freed b s s1 lo mid -> freed b s1 s2 mid hi -> freed b s s2 lo hi.
Proof.
  intros [K1 P1 T1] [K2 P2 T2]. split.
  - intros p Hp. by apply K2, K1.
  - intros y f q Hy Hb. destruct (Z_lt_le_dec y mid); [|apply (P2 y f q); [lia | done]].
    apply K2, (P1 y f q); [lia | done].
  - intros p Hp. destruct (T1 p Hp) as [Ht|[Hf|Hi]]; [by apply T2 | right; left; by apply K2 | by right; right].
Qed.

Lemma tree_table_reframe a s p : tree_table (set_allocator a s) p <-> tree_table s p.
Proof.
  unfold tree_table, table_of. split; intros (va & l & Hva & Hl & Ht); exists va, l; (split; [done|]; split; [done|]).
  - by rewrite (table_at_reframe ∅) in Ht.
  - by rewrite (table_at_reframe ∅).
Qed.

Definition free_removed (removed : mapping) : kernel mmu unit :=
  on_allocator (Pmm.free (Page.size removed) (frame removed)).

Definition all_backed (b : backing) (lo hi : Z) : Prop :=
  forall y, area_page y -> lo <= y < hi -> b !! y <> None.

(** A page in the middle of unmapping is at its level: nothing is split. *)
Lemma wp_no_split b s x (Q : Result unit mm_error -> mmu -> Prop) :
  space_ok b s -> area_page x -> Q (Ok tt) s -> wp (split_at root x 1) Q s.
Proof.
  intros [Ht Hp _] Hx HQ. apply (wp_split_at_fits (EL := laws b)); [done | by apply area_canonical | cbn; lia | | done].
  intros l e He. change (leaf_of (EL := laws ∅) root s x = Some (l, e)) in He.
  specialize (Hp x Hx). destruct (b !! x) as [[f q]|]; cbn in Hp; [|congruence].
  destruct Hp as (e' & He' & _). rewrite He in He'. injection He' as -> _. lia.
Qed.

Lemma wp_unmap_pages_step b s lo y (Q : Z * option mm_error -> mmu -> Prop) :
  space_ok (without lo y b) s -> backing_ok b -> area_page y -> lo <= y -> b !! y <> None ->
  (forall s', space_ok (without lo (y + 4096) b) s' -> freed b s s' y (y + 4096) -> Q (u64 (y - lo + 4096), None) s') ->
  wp (removed ← remove_leaf root y;
      match removed with
      | Err e => mret (y - lo, Some e)
      | Ok removed => free_removed removed;; mret (u64 (y - lo + bytes_in (Page.size removed)), None)
      end) Q s.
Proof.
  intros [Ht Hp Hbk] Hb Hy Hlo Hby HQ. destruct (b !! y) as [[f q]|] eqn:Hf; [|by destruct Hby].
  assert (Hf' : without lo y b !! y = Some (f, q)).
  { rewrite lookup_without, Hf. destruct_comparisons; cbn; lia || done. }
  apply wp_bind. eapply wp_remove_page; [exact Ht | exact Hp | done | exact Hf' |].
  intros s' m Ht' Hp' Hm Hsz Hk1 Htab. cbv beta. unfold free_removed. rewrite Hm, Hsz. apply wp_bind.
  eapply wp_unclaim; [exact Ht' | done | exact Hf' |]. intros a Ht2 Hk2 Hfree. apply wp_ret.
  change (bytes_in SIZE_4K) with 4096. apply HQ.
  - rewrite <- without_step by done. split; [exact Ht2 | by apply pages_reframe | by apply backing_ok_delete].
  - split.
    + intros p Hp0. by apply Hk2, Hk1.
    + intros z g q' Hz Hg. assert (z = y) as ->; [|rewrite Hf in Hg; by injection Hg as <- _].
      destruct Hy as [_ Hym]. destruct (backing_area b Hb z _ Hg) as [_ Hzm]. div_lia.
    + intros p Hp0. rewrite tree_table_reframe. destruct (Htab p Hp0) as [|[|]]; [by left | right; left; by apply Hk2 | by right; right].
Qed.

Lemma wp_unmap_pages b s x n (Q : Result unit mm_error -> mmu -> Prop) :
  space_ok b s -> 0 < n -> area_page x -> area_page (x + n) -> all_backed b x (x + n) ->
  (forall s', space_ok (without x (x + n) b) s' -> freed b s s' x (x + n) -> Q (Ok tt) s') ->
  wp (unmap_range root x n SIZE_4K free_removed) Q s.
Proof.
  intros Hs Hn Hx Hxn Hall HQ. pose proof (space_backing b s Hs) as Hb.
  pose proof (area_canonical x Hx) as [_ Hvx]. pose proof (area_canonical _ Hxn) as [_ Hvn].
  assert (Hrange : 0 <= x /\ x + n < 2 ^ 64 /\ n mod 4096 = 0 /\ x mod 4096 = 0).
  { destruct Hx as [Hx Hxm], Hxn as [Hxn Hxnm]. unfold VMALLOC_BASE, VMALLOC_SIZE in *.
    split; [lia|]. split; [lia|]. split; [div_lia | done]. }
  destruct Hrange as (Hx0 & Hend & Hnm & Hxm). unfold unmap_range. change SIZE_4K with (size_at 1).
  apply wp_bind, wp_leaf_size; [cbn; lia|]. rewrite level_one, validate_spec by (cbn; lia).
  change (span 1) with 4096. rewrite Hvx, Hxm. cbn [Z.eqb andb]. wp_step. wp_step.
  change (bytes_in (size_at 1)) with 4096. rewrite Hnm.
  assert (u64 (x + n) = x + n) as -> by (apply wrap_small; split; lia).
  assert (u64 (x + n - 1) = x + n - 1) as -> by (apply wrap_small; split; lia).
  assert (valid (x + n - 1) = true) as ->.
  { apply valid_eq. right. destruct Hx as [Hx _], Hxn as [Hxn _]. unfold VMALLOC_BASE, VMALLOC_SIZE in *. div_lia. }
  destruct (Z.eqb_spec n 0); [lia|]. destruct (Z.ltb_spec (x + n - 1) x); [lia|]. cbn [Z.eqb negb orb].
  apply wp_ktry. eapply wp_no_split; [exact Hs | done |].
  rewrite Hvn. destruct (Z.ltb_spec x (x + n)); [|lia]. cbn [andb].
  apply wp_ktry. eapply wp_no_split; [exact Hs | done |]. apply wp_bind.
  change FRAME_SIZE with 4096. pose proof (Z.div_pos n 4096 ltac:(lia) ltac:(lia)).
  apply wp_while with
    (Inv := fun '(offset, failed) s' => failed = None /\ 0 <= offset <= n /\ offset mod 4096 = 0 /\
       space_ok (without x (x + offset) b) s' /\ freed b s s' x (x + offset))
    (variant := fun '(offset, _) _ => (n - offset) / 4096 + 1).
  - split; [done|]. split; [lia|]. split; [done|]. rewrite Z.add_0_r, without_none. split; [done | apply freed_none].
  - rewrite Z.sub_0_r. lia.
  - intros [offset failed] s1 (-> & Ho & Hom & Hs1 & Hfr1) _. apply wp_ret.
    destruct (Z.ltb_spec offset n) as [Hlt|]; cycle 1.
    { apply wp_ret. cbn. replace offset with n in * by lia. by apply HQ. }
    assert (u64 (x + offset) = x + offset) as -> by (apply wrap_small; split; lia).
    assert (Hy : area_page (x + offset)).
    { destruct Hx as [Hx _], Hxn as [Hxn _]. split; [lia | div_lia]. }
    pose proof (wp_unmap_pages_step b s1 x (x + offset)) as Hstep. replace (x + offset - x) with offset in Hstep by lia.
    apply Hstep; [done | done | done | lia | apply Hall; [done | lia] |]. intros s2 Hs2 Hfr2.
    assert (offset + 4096 <= n) by div_lia.
    assert (u64 (offset + 4096) = offset + 4096) as -> by (apply wrap_small; split; lia).
    split; [|div_lia]. split; [done|]. split; [div_lia|]. split; [div_lia|]. rewrite Z.add_assoc.
    split; [done | by eapply freed_trans].
Qed.

(** No frame is lost: one that is free or a table is free or a table afterwards. *)
Definition frames_conserved (s s' : mmu) : Prop :=
  forall p, free_frame s p \/ tree_table s p -> free_frame s' p \/ tree_table s' p.

(** The pages of a range with another protection. *)
Definition reprotected (lo hi : Z) (q : page_prot) (b : backing) : backing :=
  map_imap (fun y fq => Some (if (lo <=? y) && (y <? hi) then (fst fq, q) else fq)) b.

Lemma lookup_reprotected lo hi q b y :
  reprotected lo hi q b !! y =
  match b !! y with
  | Some fq => Some (if (lo <=? y) && (y <? hi) then (fst fq, q) else fq)
  | None => None
  end.
Proof. unfold reprotected. rewrite map_lookup_imap. by destruct (b !! y). Qed.

Lemma backs_reprotected lo hi q b f : backs (reprotected lo hi q b) f <-> backs b f.
Proof.
  split; intros (y & q' & Hy).
  - rewrite lookup_reprotected in Hy. destruct (b !! y) as [[g p]|] eqn:Hb; [|done].
    exists y, p. destruct (_ && _) in Hy; injection Hy; intros; by subst.
  - exists y. rewrite lookup_reprotected, Hy. cbn. destruct (_ && _); eauto.
Qed.

Lemma backing_ok_reprotected lo hi q b : backing_ok b -> backing_ok (reprotected lo hi q b).
Proof.
  intros [Ha Hi]. split.
  - intros y f. rewrite lookup_reprotected. destruct (b !! y) eqn:Hy; [|done]. intros _. by eapply Ha.
  - intros y y' f q1 q2. rewrite !lookup_reprotected.
    destruct (b !! y) as [[g p]|] eqn:Hy; [|done]. destruct (b !! y') as [[g' p']|] eqn:Hy'; [|done].
    cbn. intros E1 E2. assert (g = f) as -> by (destruct (_ && _) in E1; by injection E1).
    assert (g' = f) as -> by (destruct (_ && _) in E2; by injection E2). by eapply Hi.
Qed.

(** Only the frames that are claimed matter to the tree. *)
Lemma tree_claims b b' s :
  (forall f, backs b' f <-> backs b f) -> tree_ok (EL := laws b) root s -> tree_ok (EL := laws b') root s.
Proof.
  intros Hb Ht. replace s with (set_allocator (allocator s) s) by (by destruct s).
  apply (tree_reframe b); [done | apply Ht | |]; replace (set_allocator (allocator s) s) with s by (by destruct s).
  - intros p Hp. apply Ht. by apply Hb.
  - intros p Hp Hn. split; [done|]. by rewrite Hb.
Qed.

Lemma wp_protect_pages b s x n prot (Q : Result unit mm_error -> mmu -> Prop) :
  space_ok b s -> 0 < n -> area_page x -> area_page (x + n) -> all_backed b x (x + n) ->
  (forall s', space_ok (reprotected x (x + n) (granted prot) b) s' -> frames_conserved s s' -> Q (Ok tt) s') ->
  wp (protect_range root x n SIZE_4K prot) Q s.
Proof.
  intros [Ht Hp Hbk] Hn Hx Hxn Hall HQ. change SIZE_4K with (size_at 1).
  assert (Hrange : 0 <= x /\ x + n < 2 ^ 64 /\ n mod 4096 = 0 /\ x mod 4096 = 0).
  { destruct Hx as [Hx Hxm], Hxn as [Hxn Hxnm]. unfold VMALLOC_BASE, VMALLOC_SIZE in *.
    split; [lia|]. split; [lia|]. split; [div_lia | done]. }
  destruct Hrange as (Hx0 & Hend & Hnm & Hxm).
  apply (wp_protect_range (EL := laws b)); [done | cbn; lia | lia | lia | lia |].
  intros r s' Ht' Hcons Hr. rewrite level_one in Hr. destruct r as [[]|e]; cycle 1.
  { exfalso. destruct Hr as (k & Hk & Hkm & _ & [[_ Hbad]|[Hlt Hwhy]]).
    - destruct Hbad as [|Hbad]; [lia|]. by apply Hbad.
    - change (span 1) with 4096 in Hkm. assert (Hy : area_page (x + k)).
      { destruct Hx as [Hx _], Hxn as [Hxn _]. split; [lia | div_lia]. }
      pose proof (area_canonical _ Hy) as [_ Hv]. specialize (Hp _ Hy). specialize (Hall _ Hy ltac:(lia)).
      destruct (b !! (x + k)) as [[f q]|]; [|by destruct Hall]. destruct Hp as (e0 & He0 & _).
      destruct e; cbn in Hwhy.
      + destruct Hwhy as (_ & _ & l' & e' & He' & Hl').
        change (leaf_of (EL := laws ∅) root s (x + k) = Some (l', e')) in He'. rewrite He0 in He'.
        injection He' as <- _. lia.
      + apply Hwhy. split; [done|]. change (span 1) with 4096. div_lia.
      + done.
      + destruct Hwhy as [_ Hno]. unfold translation in Hno.
        change (leaf_of (EL := laws b) root s (x + k)) with (leaf_of (EL := laws ∅) root s (x + k)) in Hno.
        by rewrite He0 in Hno.
      + lia. }
  destruct Hr as [Hm Hg]. apply HQ; [|intros p Hpt; exact (Hcons p Hpt)]. split.
  - eapply tree_claims; [|exact Ht']. intros f. apply backs_reprotected.
  - intros y Hy. rewrite lookup_reprotected. pose proof (Hp y Hy) as Hpy.
    pose proof (area_canonical y Hy) as Hc. specialize (Hm y Hc). specialize (fun l' e' => Hg y l' e' Hc).
    destruct ((x <=? y) && (y <? x + n)) eqn:Hin.
    + destruct Hm as (pa & old & Hold & Hnew). destruct (b !! y) as [[f q]|].
      2:{ exfalso. unfold translation in Hold. cbn in Hpy.
          change (leaf_of (EL := laws b) root s y) with (leaf_of (EL := laws ∅) root s y) in Hold.
          by rewrite Hpy in Hold. }
      destruct Hpy as (e & He & Ha & _). unfold translation in Hold, Hnew.
      change (leaf_of (EL := laws b) root s y) with (leaf_of (EL := laws ∅) root s y) in Hold.
      rewrite He in Hold. injection Hold as <- _.
      destruct (leaf_of root s' y) as [[l' e']|] eqn:He'; [|done]. specialize (Hg l' e' eq_refl).
      destruct (leaf_of_table root s' y l' e' He') as ((Hlo & _) & _). replace l' with 1 in * by lia.
      injection Hnew as Hna Hnq. exists e'. split; [done|]. split; [|done].
      change (paging_address e' = f). change (paging_address e = f) in Ha.
      change (span 1) with 4096 in Hna. lia.
    + assert (Hgoal : page_is s' y (b !! y)) by (by apply (page_kept s)).
      by destruct (b !! y).
  - by apply backing_ok_reprotected.
Qed.
(** *** What a block takes from the allocator *)

(** Since [s0] a frame that was free went behind a page of [\[base, base + n)], or to the tree, if it is
    not free any more. *)
Definition frames_drawn (b : backing) (s0 s : mmu) (base n : Z) : Prop :=
  forall p, free_frame s0 p ->
    free_frame s p \/ (exists y q, base <= y < base + n /\ b !! y = Some (p, q)) \/ tree_table s p.

(** And the tree got tables only on the way to those pages. *)
Definition tables_drawn (s0 s : mmu) (base n : Z) : Prop :=
  forall x l t, canonical x -> 1 <= l <= 4 -> table_at (EL := laws ∅) root s x l = Some t ->
    table_at (EL := laws ∅) root s0 x l = Some t \/ exists y, base <= y < base + n /\ same_page (l + 1) y x.

Lemma frames_drawn_none b s base : frames_drawn b s s base 0.
Proof. intros p Hp. by left. Qed.

Lemma tables_drawn_none s base : tables_drawn s s base 0.
Proof. intros x l t _ _ Ht. by left. Qed.

(** The frame of the next page. *)
Lemma frames_drawn_claim b b1 s0 s a base n f q :
  frames_drawn b s0 s base n -> 0 <= n -> b1 = <[base + n := (f, q)]> b ->
  (forall y, base <= y < base + n -> y <> base + n) ->
  (forall p, free_frame s p -> free_frame (set_allocator a s) p \/ p = f) ->
  frames_drawn b1 s0 (set_allocator a s) base (n + 4096).
Proof.
  intros Hd Hn -> Hne Hother p Hp. rewrite tree_table_reframe.
  destruct (Hd p Hp) as [Hf|[(y & q' & Hy & Hb)|Ht]]; [| |by right; right].
  - destruct (Hother p Hf) as [| ->]; [by left|]. right; left. exists (base + n), q. split; [lia | apply lookup_insert_eq].
  - right; left. exists y, q'. split; [lia|]. rewrite lookup_insert_ne; [done|]. pose proof (Hne y Hy). congruence.
Qed.

Lemma frames_drawn_conserved b b' s0 s1 s2 base n :
  frames_drawn b s0 s1 base n -> frames_conserved s1 s2 ->
  (forall y p q, b !! y = Some (p, q) -> exists q', b' !! y = Some (p, q')) -> frames_drawn b' s0 s2 base n.
Proof.
  intros Hd Hc Hb p Hp. destruct (Hd p Hp) as [Hf|[(y & q & Hy & Hyb)|Ht]].
  - destruct (Hc p (or_introl Hf)); [by left | by right; right].
  - destruct (Hb y p q Hyb) as [q' Hq']. right; left. by exists y, q'.
  - destruct (Hc p (or_intror Ht)); [by left | by right; right].
Qed.

Lemma tables_drawn_reframe s0 s a base n m :
  n <= m -> tables_drawn s0 s base n -> tables_drawn s0 (set_allocator a s) base m.
Proof.
  intros Hn Hd x l t Hx Hl. rewrite (table_at_reframe ∅). intros Ht.
  destruct (Hd x l t Hx Hl Ht) as [|(y & Hy & Hs)]; [by left | right; exists y; split; [lia | done]].
Qed.

(** Mapping it. *)
Lemma frames_drawn_spread b b' s0 s1 s2 base n y m :
  frames_drawn b s0 s1 base n -> spread_over (EL := laws b') root s1 s2 y m -> frames_drawn b s0 s2 base n.
Proof.
  intros Hd [Hheld _] p Hp.
  destruct (Hd p Hp) as [Hf|[Hb|Ht]]; [| by right; left |].
  - destruct (Hheld p (or_introl Hf)) as [Hg|Hg]; [left | right; right]; exact Hg.
  - destruct (Hheld p (or_intror Ht)) as [Hg|Hg]; [left | right; right]; exact Hg.
Qed.

Lemma tables_drawn_spread b' s0 s1 s2 base n y m :
  base <= y -> y + m <= base + n -> tables_drawn s0 s1 base n -> spread_over (EL := laws b') root s1 s2 y m ->
  tables_drawn s0 s2 base n.
Proof.
  intros Hy Hm Hd [_ Htab] x l t Hx Hl Ht.
  destruct (Htab x l t Hx Hl Ht) as [Ht1|(z & Hz & Hs)]; [by apply Hd | right; exists z; split; [lia | done]].
Qed.

(** Nothing is lost when the pages are released again. *)
Definition nothing_lost (s0 s : mmu) : Prop :=
  forall p, free_frame s0 p -> free_frame s p \/ tree_table s p \/ image_table p.

Lemma drawn_freed b s0 s s' base n :
  frames_drawn b s0 s base n -> freed b s s' base (base + n) -> nothing_lost s0 s'.
Proof.
  intros Hd [K P T] p Hp. destruct (Hd p Hp) as [Hf|[(y & q & Hy & Hb)|Ht]].
  - left. by apply K.
  - left. by eapply P.
  - destruct (T p Ht) as [|[|]]; [right; left | left | right; right]; done.
Qed.

(** **** Counting them *)

Definition free_count (s : mmu) : Z := count_range (is_free (allocator s)) 0 MAX_FRAMES.

(** The most frames that [n] bytes of pages can need: one per page, and on each level below the root
    one table per stretch of the address space that the pages reach. *)
Definition frames_needed (n : Z) : Z := n / 4096 + (n / 2 ^ 21 + 2) + (n / 2 ^ 30 + 2) + (n / 2 ^ 39 + 2).

Lemma frames_needed_mono n m : n <= m -> frames_needed n <= frames_needed m.
Proof.
  intros Hn. unfold frames_needed.
  pose proof (Z.div_le_mono n m 4096 ltac:(lia) Hn). pose proof (Z.div_le_mono n m (2 ^ 21) ltac:(lia) Hn).
  pose proof (Z.div_le_mono n m (2 ^ 30) ltac:(lia) Hn). pose proof (Z.div_le_mono n m (2 ^ 39) ltac:(lia) Hn). lia.
Qed.

Lemma omap_seqZ_length {A} (f : Z -> option A) lo n : 0 <= n -> Z.of_nat (length (omap f (seqZ lo n))) <= n.
Proof.
  intros Hn. assert (Hl : forall l, (length (omap f l) <= length l)%nat).
  { induction l as [|x l IH]; cbn; [lia|]. destruct (f x); cbn; lia. }
  specialize (Hl (seqZ lo n)). rewrite length_seqZ in Hl. lia.
Qed.

Definition page_frames (b : backing) (base n : Z) : list Z :=
  omap (fun i => (fun fq => fst fq / 4096) <$> b !! (base + i * 4096)) (seqZ 0 (n / 4096)).

(** The tables of level [l] on the way to the pages, [size] bytes each. *)
Definition path_tables (s : mmu) (base n l size : Z) : list Z :=
  omap (fun k => (fun t => t / 4096) <$> table_at (EL := laws ∅) root s (Z.max base (k * size)) l)
    (seqZ (base / size) (n / size + 2)).

Lemma page_frames_length b base n : 0 <= n -> Z.of_nat (length (page_frames b base n)) <= n / 4096.
Proof. intros Hn. apply omap_seqZ_length, Z.div_pos; lia. Qed.

Lemma path_tables_length s base n l size :
  0 <= n -> 0 < size -> Z.of_nat (length (path_tables s base n l size)) <= n / size + 2.
Proof. intros Hn Hs. apply omap_seqZ_length. pose proof (Z.div_pos n size Hn Hs). lia. Qed.

Lemma page_frame_listed b base n y f q :
  backing_ok b -> area_page base -> base <= y < base + n -> b !! y = Some (f * 4096, q) -> n mod 4096 = 0 ->
  f ∈ page_frames b base n.
Proof.
  intros Hb [_ Hbm] Hy Hyb Hm. destruct (backing_area b Hb y _ Hyb) as [_ Hym].
  apply list_elem_of_omap. exists ((y - base) / 4096). split; [apply elem_of_seqZ; div_lia|].
  replace (base + (y - base) / 4096 * 4096) with y by div_lia. rewrite Hyb. cbn. by rewrite Z.div_mul by lia.
Qed.

(** A table on the way to one of the pages. *)
Lemma path_table_listed s base n x l y f :
  area_page base -> base + n <= VMALLOC_BASE + VMALLOC_SIZE -> canonical x -> 1 <= l < 4 ->
  base <= y < base + n -> same_page (l + 1) y x -> table_at (EL := laws ∅) root s x l = Some (f * 4096) ->
  f ∈ path_tables s base n l (span (l + 1)).
Proof.
  intros [Hb _] He Hx Hl Hy Hs Ht. set (size := span (l + 1)).
  assert (Hpos : 0 < size) by (apply span_positive; cbn; lia).
  set (k := y / size). set (rep := Z.max base (k * size)).
  pose proof (Z.div_mod y size ltac:(lia)). pose proof (Z.mod_pos_bound y size Hpos).
  assert (Hrep : base <= rep <= y /\ rep / size = k).
  { split; [unfold rep; lia|]. symmetry. apply Z.div_unique with (rep - size * k); [left|]; unfold rep; nia. }
  apply list_elem_of_omap. exists k. split.
  - apply elem_of_seqZ. split; [apply Z.div_le_mono; lia|].
    pose proof (Z.div_mod base size ltac:(lia)). pose proof (Z.mod_pos_bound base size Hpos).
    pose proof (Z.div_mod n size ltac:(lia)). pose proof (Z.mod_pos_bound n size Hpos). nia.
  - fold rep. rewrite (table_at_same (EL := laws ∅) root s rep x l).
    + rewrite Ht. cbn. by rewrite Z.div_mul by lia.
    + apply in_area_canonical. lia.
    + done.
    + cbn. lia.
    + eapply same_page_trans; [|exact Hs]. right. fold size. tauto.
Qed.

(** When nothing is left, the block has taken everything. *)
Lemma drawn_count b b0 s0 s base n :
  tree_ok (EL := laws b0) root s0 -> backing_ok b -> frames_drawn b s0 s base n -> tables_drawn s0 s base n ->
  area_page base -> 0 <= n -> n mod 4096 = 0 -> base + n <= VMALLOC_BASE + VMALLOC_SIZE -> no_frame_left s ->
  free_count s0 <= frames_needed n.
Proof.
  intros Ht0 Hb Hf Ht Hbase Hn Hm He Hno.
  pose proof (page_frames_length b base n Hn) as L0.
  pose proof (path_tables_length s base n 1 (2 ^ 21) Hn ltac:(lia)) as L1.
  pose proof (path_tables_length s base n 2 (2 ^ 30) Hn ltac:(lia)) as L2.
  pose proof (path_tables_length s base n 3 (2 ^ 39) Hn ltac:(lia)) as L3.
  unfold free_count. etransitivity.
  { apply (count_range_listed _ _ _ (page_frames b base n ++ path_tables s base n 1 (2 ^ 21) ++
      path_tables s base n 2 (2 ^ 30) ++ path_tables s base n 3 (2 ^ 39))).
    intros f Hfr Hff. apply (free_frame_at s0 f Hfr) in Hff as Hff'.
    destruct (Hf _ Hff') as [Hs|[(y & q & Hy & Hyb)|(x & l & Hx & Hl & Htx)]].
    - apply free_frame_at in Hs; [|done]. by rewrite Hno in Hs.
    - apply elem_of_app. left. by eapply page_frame_listed.
    - assert (Hold : table_at (EL := laws ∅) root s0 x l <> Some (f * 4096)).
      { intros Hx0. destruct (tree_owned (EL := laws b0) root s0 Ht0 x l (f * 4096) Hx Hl Hx0) as [(_ & _ & Hused) _].
        rewrite Z.div_mul in Hused by lia. congruence. }
      destruct (Ht x l (f * 4096) Hx Hl Htx) as [|(y & Hy & Hs)]; [done|].
      destruct (Z.eq_dec l 4) as [->|]; [exfalso; by apply Hold|].
      pose proof (path_table_listed s base n x l y f Hbase He Hx ltac:(cbn in Hl; lia) Hy Hs Htx) as Hin.
      rewrite !elem_of_app. assert (l = 1 \/ l = 2 \/ l = 3) as [->|[->| ->]] by (cbn in Hl; lia);
        [right; left | right; right; left | right; right; right]; exact Hin. }
  rewrite !length_app. unfold frames_needed. lia.
Qed.
End VmmSpace.

(** ** The table of allocations *)

Definition AREA_END : Z := VMALLOC_BASE + VMALLOC_SIZE.

Definition base_at (l : list allocation) (i : Z) : Z := alloc_base (znth l i).
Definition bytes_at (l : list allocation) (i : Z) : Z := alloc_bytes (znth l i).
Definition end_at (l : list allocation) (i : Z) : Z := base_at l i + bytes_at l i.

(** The gap before the entry [i] of the first [n], guard page of its predecessor excluded. *)
Definition start_at (l : list allocation) (i : Z) : Z := if i =? 0 then VMALLOC_BASE else end_at l (i - 1) + 4096.
Definition stop_at (l : list allocation) (n i : Z) : Z := if i =? n then AREA_END else base_at l i.

Record allocation_ok (base bytes : Z) : Prop := {
  allocation_bytes : 0 < bytes /\ bytes mod 4096 = 0;
  allocation_base : VMALLOC_BASE <= base /\ base mod 4096 = 0;
  allocation_end : base + bytes + 4096 <= AREA_END;
}.

(** Sorted, with a guard page between neighbours. *)
Record table_ok (l : list allocation) (n : Z) : Prop := {
  table_length : zlen l = MAX_ALLOCATIONS;
  table_count : 0 <= n <= MAX_ALLOCATIONS;
  table_entries i : 0 <= i < n -> allocation_ok (base_at l i) (bytes_at l i);
  table_sorted i j : 0 <= i < j -> j < n -> end_at l i + 4096 <= base_at l j;
}.

Definition allocated (l : list allocation) (n y : Z) : Prop :=
  exists i, 0 <= i < n /\ base_at l i <= y < end_at l i.

Lemma gap_bounds l n i :
  table_ok l n -> 0 <= i <= n -> VMALLOC_BASE <= start_at l i <= stop_at l n i /\ stop_at l n i <= AREA_END /\
  start_at l i mod 4096 = 0.
Proof.
  intros [_ Hn He Hs] Hi.
  assert (Hstart : VMALLOC_BASE <= start_at l i /\ start_at l i mod 4096 = 0 /\ start_at l i <= AREA_END).
  { unfold start_at. destruct (Z.eqb_spec i 0) as [_|]; [by vm_compute|].
    destruct (He (i - 1) ltac:(lia)) as [[] [] ]. unfold end_at. split; [lia|]. split; [div_lia | lia]. }
  assert (Hstop : stop_at l n i <= AREA_END /\ start_at l i <= stop_at l n i); [|tauto].
  unfold stop_at. destruct (Z.eqb_spec i n) as [_|]; [split; [done | apply Hstart]|].
  destruct (He i ltac:(lia)) as [[] [] ]. split; [lia|]. unfold start_at.
  destruct (Z.eqb_spec i 0) as [_|]; [lia|]. apply Hs; lia.
Qed.

(** A gap holds no allocated page. *)
Lemma gap_free l n i y :
  table_ok l n -> 0 <= i <= n -> start_at l i - 4096 <= y < stop_at l n i -> ~ allocated l n y.
Proof.
  intros [_ Hn He Hs] Hi Hy (j & Hj & Hyj). unfold start_at, stop_at in Hy.
  destruct (Z_lt_le_dec j i) as [Hlt|Hge].
  - destruct (Z.eqb_spec i 0); [lia|]. assert (Hend : end_at l j <= end_at l (i - 1)); [|lia].
    destruct (Z.eq_dec j (i - 1)) as [->|]; [lia|].
    pose proof (Hs j (i - 1) ltac:(lia) ltac:(lia)). destruct (He (i - 1) ltac:(lia)) as [[] _ _]. unfold end_at in *. lia.
  - destruct (Z.eqb_spec i n); [lia|]. assert (Hb : base_at l i <= base_at l j); [|lia].
    destruct (Z.eq_dec i j) as [->|]; [lia|].
    pose proof (Hs i j ltac:(lia) ltac:(lia)). destruct (He i ltac:(lia)) as [[] _ _]. unfold end_at in *. lia.
Qed.

(** There is room for a block of [bytes]: a place in the area where it would be a page or more away from
    every other block. *)
Definition room (l : list allocation) (n bytes : Z) : Prop :=
  exists base, allocation_ok base bytes /\
    forall y, base - 4096 <= y < base + bytes + 4096 -> ~ allocated l n y.

(** A place with room is in one of the gaps. *)
Lemma room_in_gap l n bytes base :
  table_ok l n -> allocation_ok base bytes ->
  (forall y, base - 4096 <= y < base + bytes + 4096 -> ~ allocated l n y) ->
  exists i, 0 <= i <= n /\ start_at l i <= base /\ base + bytes + 4096 <= stop_at l n i.
Proof.
  intros [_ Hn He Hs] [[Hb _] [Hlo _] Hend] Hfree.
  assert (Hfirst : forall k, 0 <= k <= n -> (forall j, 0 <= j < k -> base_at l j < base) ->
    exists i, k <= i <= n /\ (forall j, 0 <= j < i -> base_at l j < base) /\ (i = n \/ base <= base_at l i)).
  { intros k Hk. replace k with (n - Z.of_nat (Z.to_nat (n - k))) in * by lia.
    set (m := Z.to_nat (n - k)) in *. clearbody m. clear k. induction m as [|m IH]; intros Hbelow.
    - exists n. rewrite Z.sub_0_r in *. split; [lia|]. split; [done | by left].
    - destruct (Z_lt_le_dec (base_at l (n - Z.of_nat (S m))) base) as [Hlt|Hge].
      + destruct IH as (i & Hi & H2 & H3); [lia | | exists i; split; [lia | done]].
        intros j Hj. destruct (Z.eq_dec j (n - Z.of_nat (S m))) as [->|]; [done | apply Hbelow; lia].
      + exists (n - Z.of_nat (S m)). split; [lia|]. split; [done | by right]. }
  destruct (Hfirst 0) as (i & Hi & Hbelow & Hat); [lia | lia |]. exists i. split; [lia|]. unfold start_at, stop_at. split.
  - destruct (Z.eqb_spec i 0); [lia|]. specialize (Hbelow (i - 1) ltac:(lia)).
    destruct (He (i - 1) ltac:(lia)) as [[Hp _] _ _].
    destruct (Z_le_gt_dec (end_at l (i - 1) + 4096) base) as [|Hgt]; [done|exfalso].
    apply (Hfree (Z.max (base_at l (i - 1)) (base - 4096))); [lia|]. exists (i - 1). unfold end_at in *. split; lia.
  - destruct (Z.eqb_spec i n); [lia|]. destruct Hat as [|Hat]; [done|].
    destruct (He i ltac:(lia)) as [[Hp _] _ _].
    destruct (Z_le_gt_dec (base + bytes + 4096) (base_at l i)) as [|Hgt]; [done|exfalso].
    apply (Hfree (base_at l i)); [lia|]. exists i. unfold end_at. split; lia.
Qed.

(** An entry inserted in a gap, and an entry erased. *)
Definition inserted (l l' : list allocation) (index : Z) (e : allocation) (n : Z) : Prop :=
  zlen l' = zlen l /\ forall j, 0 <= j <= n ->
    znth l' j = if j <? index then znth l j else if j =? index then e else znth l (j - 1).

Definition erased (l l' : list allocation) (index n : Z) : Prop :=
  zlen l' = zlen l /\ forall j, 0 <= j < n - 1 -> znth l' j = if j <? index then znth l j else znth l (j + 1).

Lemma table_ok_inserted l l' n index e :
  table_ok l n -> n < MAX_ALLOCATIONS -> 0 <= index <= n -> inserted l l' index e n ->
  0 < alloc_bytes e -> alloc_bytes e mod 4096 = 0 -> alloc_base e = start_at l index ->
  alloc_bytes e + 4096 <= stop_at l n index - start_at l index ->
  table_ok l' (n + 1) /\
  forall y, allocated l' (n + 1) y <-> allocated l n y \/ alloc_base e <= y < alloc_base e + alloc_bytes e.
Proof.
  intros Hok Hn Hi [Hlen Hl'] Hb Hbm Hbase Hfit.
  destruct (gap_bounds l n index Hok Hi) as (Hlo & Hhi & Hm). destruct Hok as [Hlen0 Hc He Hs].
  assert (Hbefore : forall i, 0 <= i < index -> end_at l i + 4096 <= alloc_base e).
  { intros i Hii. rewrite Hbase. unfold start_at. destruct (Z.eqb_spec index 0); [lia|].
    destruct (Z.eq_dec i (index - 1)) as [->|]; [lia|].
    pose proof (Hs i (index - 1) ltac:(lia) ltac:(lia)). destruct (He (index - 1) ltac:(lia)) as [[] _ _].
    unfold end_at in *. lia. }
  assert (Hafter : forall i, index <= i < n -> alloc_base e + alloc_bytes e + 4096 <= base_at l i).
  { intros i Hii. unfold stop_at in Hfit. destruct (Z.eqb_spec index n); [lia|].
    destruct (Z.eq_dec i index) as [->|]; [lia|].
    pose proof (Hs index i ltac:(lia) ltac:(lia)). destruct (He index ltac:(lia)) as [[] _ _].
    unfold end_at in *. lia. }
  assert (Hat : forall j, 0 <= j <= n ->
    base_at l' j = (if j <? index then base_at l j else if j =? index then alloc_base e else base_at l (j - 1)) /\
    bytes_at l' j = (if j <? index then bytes_at l j else if j =? index then alloc_bytes e else bytes_at l (j - 1))).
  { intros j Hj. unfold base_at, bytes_at. rewrite Hl' by done. by destruct (j <? index), (j =? index). }
  split; [split|].
  - by rewrite Hlen.
  - lia.
  - intros i Hii. destruct (Hat i ltac:(lia)) as [-> ->].
    destruct (Z.ltb_spec i index); [apply He; lia|]. destruct (Z.eqb_spec i index); [|apply He; lia].
    split; [done | rewrite Hbase; split; [lia | done] |]. rewrite Hbase. lia.
  - intros i j Hij Hj. unfold end_at. destruct (Hat i ltac:(lia)) as [-> ->], (Hat j ltac:(lia)) as [-> _].
    destruct (Z.ltb_spec i index), (Z.ltb_spec j index), (Z.eqb_spec i index), (Z.eqb_spec j index); try lia;
      first [ apply Hs; lia | apply Hbefore; lia | apply Hafter; lia ].
  - intros y. split.
    + intros (j & Hj & Hy). unfold end_at in Hy. destruct (Hat j ltac:(lia)) as [E1 E2]. rewrite E1, E2 in Hy.
      destruct (Z.ltb_spec j index); [left; exists j; unfold end_at; lia|].
      destruct (Z.eqb_spec j index); [by right|]. left. exists (j - 1). unfold end_at. lia.
    + intros [(j & Hj & Hy)|Hy].
      * destruct (Z_lt_le_dec j index).
        -- exists j. unfold end_at in *. destruct (Hat j ltac:(lia)) as [-> ->].
           destruct (Z.ltb_spec j index); lia.
        -- exists (j + 1). unfold end_at in *. destruct (Hat (j + 1) ltac:(lia)) as [-> ->].
           replace (j + 1 - 1) with j by lia.
           destruct (Z.ltb_spec (j + 1) index), (Z.eqb_spec (j + 1) index); lia.
      * exists index. unfold end_at. destruct (Hat index ltac:(lia)) as [-> ->].
        rewrite Z.ltb_irrefl, Z.eqb_refl. lia.
Qed.

Lemma table_ok_erased l l' n index :
  table_ok l n -> 0 <= index < n -> erased l l' index n ->
  table_ok l' (n - 1) /\
  forall y, allocated l' (n - 1) y <-> allocated l n y /\ ~ base_at l index <= y < end_at l index.
Proof.
  intros [Hlen0 Hc He Hs] Hi [Hlen Hl'].
  assert (Hat : forall j, 0 <= j < n - 1 ->
    base_at l' j = base_at l (if j <? index then j else j + 1) /\
    bytes_at l' j = bytes_at l (if j <? index then j else j + 1)).
  { intros j Hj. unfold base_at, bytes_at. rewrite Hl' by done. by destruct (j <? index). }
  split; [split|].
  - by rewrite Hlen.
  - lia.
  - intros i Hii. destruct (Hat i ltac:(lia)) as [-> ->]. apply He. destruct (i <? index); lia.
  - intros i j Hij Hj. unfold end_at. destruct (Hat i ltac:(lia)) as [-> ->], (Hat j ltac:(lia)) as [-> _].
    apply Hs; destruct (Z.ltb_spec i index), (Z.ltb_spec j index); lia.
  - intros y. split.
    + intros (j & Hj & Hy). unfold end_at in Hy. destruct (Hat j Hj) as [E1 E2]. rewrite E1, E2 in Hy.
      set (k := if j <? index then j else j + 1) in *.
      assert (Hk : 0 <= k < n /\ k <> index) by (unfold k; destruct (Z.ltb_spec j index); lia).
      split; [exists k; unfold end_at; lia|]. unfold end_at. intros Hin.
      destruct (He k ltac:(lia)) as [[] _ _], (He index ltac:(lia)) as [[] _ _].
      destruct (Z_lt_le_dec k index).
      * pose proof (Hs k index ltac:(lia) ltac:(lia)). unfold end_at in *. lia.
      * pose proof (Hs index k ltac:(lia) ltac:(lia)). unfold end_at in *. lia.
    + intros [(j & Hj & Hy) Hout]. assert (j <> index) by (intros ->; done).
      exists (if j <? index then j else j - 1).
      destruct (Z.ltb_spec j index).
      * split; [lia|]. unfold end_at in *. destruct (Hat j ltac:(lia)) as [-> ->].
        destruct (Z.ltb_spec j index); lia.
      * split; [lia|]. unfold end_at in *. destruct (Hat (j - 1) ltac:(lia)) as [-> ->].
        destruct (Z.ltb_spec (j - 1) index); [lia|]. by replace (j - 1 + 1) with j by lia.
Qed.

(** ** The operations *)
Section VmmFacts.
Context `{layout_ok} `{image} `{features}.
Context (root : Z).

Abbreviation laws b := (@kernel_env_laws _ _ _ (keeping root b)).

(** Between calls: the lock is free, the table is sorted, and the pages that are mapped are those of
    the allocations. *)
Record vmm_ok (b : backing) (s : vmm) : Prop := {
  vmm_unlocked : vmm_lock s = SPINLOCK_UNLOCKED;
  vmm_table : table_ok (m_allocations s) (m_count s);
  vmm_space : space_ok root b (space s);
  vmm_pages y : area_page y -> b !! y <> None <-> allocated (m_allocations s) (m_count s) y;
}.

Lemma wp_kernel_space {A} (m : features -> Z -> kernel mmu A) b (Q : A -> vmm -> Prop) s :
  tree_ok (EL := laws b) root (space s) ->
  wp (m _ root) (fun a sp => Q a (set_space sp s)) (space s) -> wp (kernel_space m) Q s.
Proof.
  intros Ht Hm. pose proof (tree_env root _ Ht) as [_ _ Hf Hr _ _]. apply wp_zoom.
  apply wp_bind, wp_gets. apply wp_bind, wp_gets. by rewrite Hf, Hr.
Qed.

Lemma wp_frame_alloc (Q : Result Z mm_error -> vmm -> Prop) s :
  wp (on_allocator (alloc SIZE_4K)) (fun a sp => Q a (set_space sp s)) (space s) -> wp frame_alloc Q s.
Proof. apply wp_zoom. Qed.

Lemma set_space_twice x y s : set_space x (set_space y s) = set_space x s.
Proof. done. Qed.

Lemma set_space_same s : set_space (space s) s = s.
Proof. by destruct s. Qed.

(** Releasing mapped pages never panics. *)
Lemma wp_release_area b s base bytes (Q : unit -> vmm -> Prop) :
  space_ok root b (space s) -> 0 <= bytes -> area_page base -> area_page (base + bytes) ->
  all_backed b base (base + bytes) ->
  (forall sp, space_ok root (without base (base + bytes) b) sp -> freed root b (space s) sp base (base + bytes) ->
     Q tt (set_space sp s)) ->
  wp (release base bytes) Q s.
Proof.
  intros Hs Hn Hb He Hall HQ. unfold release. destruct (Z.eqb_spec bytes 0) as [->|].
  { apply wp_ret. rewrite <- (set_space_same s). rewrite Z.add_0_r in HQ. apply HQ; [by rewrite without_none | apply freed_none]. }
  apply wp_bind, (wp_kernel_space _ b); [apply Hs|].
  apply (wp_unmap_pages root b); [done | lia | done | done | done |].
  intros sp Hsp Hfr. apply wp_ret. by apply HQ.
Qed.

(** The pages of [\[base, base + offset)] are backed by fresh frames, and nothing else differs. *)
Definition backed_from (b b' : backing) (base offset : Z) (q : page_prot) : Prop :=
  forall y, if (base <=? y) && (y <? base + offset)
            then (area_page y -> exists f, b' !! y = Some (f, q) /\ ~ backs b f) /\ (~ area_page y -> b' !! y = None)
            else b' !! y = b !! y.

Lemma backed_from_all b b' base offset q : backed_from b b' base offset q -> all_backed b' base (base + offset).
Proof.
  intros Hb y Hy Hr. specialize (Hb y). destruct (_ && _) eqn:E0; [|lia].
  destruct Hb as [Hb _]. destruct (Hb Hy) as (f & -> & _). done.
Qed.

Lemma backed_from_undo b b' base offset q :
  backed_from b b' base offset q -> (forall y, base <= y < base + offset -> b !! y = None) ->
  without base (base + offset) b' = b.
Proof.
  intros Hb Hno. apply map_eq. intros y. rewrite lookup_without. specialize (Hb y).
  destruct (_ && _) eqn:E0; [|done]. symmetry. apply Hno. lia.
Qed.

Lemma backed_from_step b b' base offset q f :
  backing_ok b' -> backed_from b b' base offset q -> ~ backs b' f -> area_page (base + offset) -> 0 <= offset ->
  (forall y, base <= y < base + offset + 4096 -> b !! y = None) ->
  b' !! (base + offset) = None /\ backed_from b (<[base + offset := (f, q)]> b') base (offset + 4096) q.
Proof.
  intros Hbk Hb Hf Hx Ho Hno.
  assert (Hout : forall y, base + offset <= y < base + offset + 4096 -> b' !! y = None).
  { intros y Hy. specialize (Hb y). destruct (_ && _) eqn:E0; [lia|]. rewrite Hb. apply Hno. lia. }
  split; [apply Hout; lia|]. intros y. pose proof (Hb y) as Hby. destruct (decide (y = base + offset)) as [->|Hne].
  - destruct (Z.leb_spec base (base + offset)), (Z.ltb_spec (base + offset) (base + (offset + 4096))); try lia.
    cbn [andb]. split; [|done]. intros _. exists f. split; [apply lookup_insert_eq|].
    intros (z & p & Hz). apply Hf. exists z, p. specialize (Hb z). destruct ((base <=? z) && _) eqn:E0.
    + rewrite Hno in Hz by lia. done.
    + by rewrite Hb.
  - rewrite lookup_insert_ne by done.
    destruct (Z.leb_spec base y), (Z.ltb_spec y (base + offset)), (Z.ltb_spec y (base + (offset + 4096)));
      cbn [andb] in *; try lia; try done.
    split; [|intros _; apply Hout; lia]. intros [_ Hym]. exfalso. destruct Hx as [_ Hxm].
    apply Hne. div_lia.
Qed.

(** The block so far: the pages of [\[base, base + n)] are backed by [b'], at the cost of the frames and
    tables drawn since [s0]. *)
Record backed_so_far (b b' : backing) (s0 s : mmu) (base n : Z) (q : page_prot) : Prop := {
  far_space : space_ok root b' s;
  far_backed : backed_from b b' base n q;
  far_frames : frames_drawn root b' s0 s base n;
  far_tables : tables_drawn root s0 s base n;
}.

(** A block that could not be backed: the pages are as they were, no frame is lost, and the block
    needs at least as many frames as were free. *)
Definition backing_failed (b : backing) (s0 s : mmu) (n : Z) : Prop :=
  space_ok root b s /\ nothing_lost root s0 s /\ free_count s0 <= frames_needed n.

(** Giving up: what was backed is released. *)
Lemma wp_give_up b b' s0 s base n q m (Q : Result unit mm_error -> vmm -> Prop) :
  space_ok root b' (space s) -> backed_from b b' base n q -> frames_drawn root b' s0 (space s) base n ->
  area_page base -> area_page (base + n) -> 0 <= n -> (forall y, base <= y < base + n -> b !! y = None) ->
  free_count s0 <= frames_needed m ->
  (forall sp, backing_failed b s0 sp m -> Q (Err OUT_OF_MEMORY) (set_space sp s)) ->
  wp (release base n;; mret (Err OUT_OF_MEMORY)) Q s.
Proof.
  intros Hsp Hb Hd Hbase Hx Hn Hno Hcount HQ.
  apply wp_bind, (wp_release_area b'); [done | done | done | done | by eapply backed_from_all |].
  intros sp Hsp' Hfr. apply wp_ret, HQ. split; [|split; [by eapply drawn_freed | done]].
  rewrite (backed_from_undo b b' base n q) in Hsp' by done. exact Hsp'.
Qed.

Lemma wp_back_page b b' s0 s base offset prot (Q : Result unit mm_error -> vmm -> Prop) :
  tree_ok (EL := laws b) root s0 -> backed_so_far b b' s0 (space s) base offset (granted prot) ->
  area_page base -> area_page (base + offset) -> 0 <= offset -> base + (offset + 4096) <= AREA_END ->
  (forall y, base <= y < base + offset + 4096 -> b !! y = None) ->
  (forall b2 sp, backed_so_far b b2 s0 sp base (offset + 4096) (granted prot) -> Q (Ok tt) (set_space sp s)) ->
  (forall sp, backing_failed b s0 sp (offset + 4096) -> Q (Err OUT_OF_MEMORY) (set_space sp s)) ->
  wp (back_page base offset prot) Q s.
Proof.
  intros Ht0 [[Ht Hp Hbk] Hb Hdf Hdt] Hbase Hx Ho Hend Hno HOk HErr.
  assert (Hom : offset mod 4096 = 0) by (destruct Hbase as [_ E1], Hx as [_ E2]; div_lia).
  assert (Hnone : b' !! (base + offset) = None).
  { specialize (Hb (base + offset)). destruct (_ && _) eqn:E0; [lia|]. rewrite Hb. apply Hno. lia. }
  assert (Hu : u64 (base + offset) = base + offset).
  { apply wrap_small. destruct Hx as [Hx _]. unfold in_width, VMALLOC_BASE, VMALLOC_SIZE in *. lia. }
  unfold back_page. apply wp_bind, wp_frame_alloc.
  apply (wp_claim root b' (space s) (base + offset) (granted prot)); [done | done | |]; cycle 1.
  { intros Hleft. rewrite set_space_same.
    apply (wp_give_up b b' s0 s base offset (granted prot) (offset + 4096)); [done | done | done | done | done | done | | | done].
    - intros y Hy. apply Hno. lia.
    - etransitivity; [|apply (frames_needed_mono offset); lia].
      apply (drawn_count root b' b s0 (space s) base);
        [exact Ht0 | exact Hbk | exact Hdf | exact Hdt | exact Hbase | exact Ho | exact Hom | unfold AREA_END in Hend; lia | exact Hleft]. }
  intros f a Ht1 Hfr Hnf Hother. set (b1 := <[base + offset := (f, granted prot)]> b') in *.
  destruct (backed_from_step b b' base offset (granted prot) f Hbk Hb Hnf Hx Ho Hno) as [_ Hb1].
  assert (Hbk1 : backing_ok b1) by (by apply backing_ok_insert).
  assert (Hdf1 : frames_drawn root b1 s0 (set_allocator a (space s)) base (offset + 4096)).
  { eapply frames_drawn_claim; [exact Hdf | done | reflexivity | lia | done]. }
  assert (Hdt1 : tables_drawn root s0 (set_allocator a (space s)) base (offset + 4096)).
  { eapply tables_drawn_reframe; [|exact Hdt]. lia. }
  apply wp_bind, (wp_kernel_space _ b1); [exact Ht1|]. rewrite Hu. cbn [space set_space].
  apply (wp_map_page root b' b1); [done | done | by apply pages_reframe | done | done | done | |].
  - intros sp Ht2 Hp2 Hsp. apply wp_ret. rewrite set_space_twice. apply HOk with b1. split; [by split | done | |].
    + by eapply frames_drawn_spread.
    + eapply tables_drawn_spread; [| |exact Hdt1|exact Hsp]; lia.
  - intros sp Ht2 Hp2 Hsp Hleft. apply wp_bind. apply wp_zoom. cbn [space set_space].
    assert (Hcount : free_count s0 <= frames_needed (offset + 4096)).
    { apply (drawn_count root b1 b s0 sp base);
        [exact Ht0 | exact Hbk1 | by eapply frames_drawn_spread | | exact Hbase | lia | div_lia | unfold AREA_END in Hend; lia | exact Hleft].
      eapply tables_drawn_spread; [| |exact Hdt1|exact Hsp]; lia. }
    apply (wp_unclaim root b1 sp (base + offset) f (granted prot)); [done | done | by apply lookup_insert_eq |].
    intros a2 Ht3 Hk3 Hf3. rewrite set_space_twice, set_space_twice.
    replace (delete (base + offset) b1) with b' in Ht3 by (symmetry; by apply delete_insert_id).
    apply (wp_give_up b b' s0 (set_space (set_allocator a2 sp) s) base offset (granted prot) (offset + 4096));
      [split; [done | by apply pages_reframe | done] | done | | done | done | done | | done |].
    + intros p Hp0. cbn [space set_space]. rewrite tree_table_reframe.
      destruct (frames_drawn_spread root b1 b1 s0 _ sp base _ _ _ Hdf1 Hsp p Hp0) as [|[(y & q & Hy & Hyb)|]];
        [left; by apply Hk3 | | by right; right].
      destruct (Z.eq_dec y (base + offset)) as [->|Hne].
      * unfold b1 in Hyb. rewrite lookup_insert_eq in Hyb. injection Hyb as <- _. by left.
      * unfold b1 in Hyb. rewrite lookup_insert_ne in Hyb by done. right; left. exists y, q. split; [|done].
        destruct (backing_area b' Hbk y _ Hyb) as [_ Hym], Hx as [_ Hxm]. div_lia.
    + intros y Hy. apply Hno. lia.
    + intros sp'. rewrite set_space_twice. apply HErr.
Qed.

Lemma wp_back b s base bytes prot (Q : Result unit mm_error -> vmm -> Prop) :
  space_ok root b (space s) -> 0 <= bytes -> bytes mod 4096 = 0 -> area_page base -> base + bytes <= AREA_END ->
  (forall y, base <= y < base + bytes -> b !! y = None) ->
  (forall b2 sp, backed_so_far b b2 (space s) sp base bytes (granted prot) -> Q (Ok tt) (set_space sp s)) ->
  (forall sp, backing_failed b (space s) sp bytes -> Q (Err OUT_OF_MEMORY) (set_space sp s)) ->
  wp (back base bytes prot) Q s.
Proof.
  intros Hs Hn Hm Hb He Hno HOk HErr. unfold back. apply wp_bind. change FRAME_SIZE with 4096.
  pose proof (Z.div_pos bytes 4096 ltac:(lia) ltac:(lia)).
  assert (Hend : AREA_END < 2 ^ 64) by reflexivity.
  assert (Hlo : 0 <= base) by (destruct Hb as [Hb _]; unfold VMALLOC_BASE in Hb; lia).
  apply wp_while with
    (Inv := fun '(offset, failed) s1 => exists sp, s1 = set_space sp s /\
       match failed with
       | None => 0 <= offset <= bytes /\ offset mod 4096 = 0 /\ exists b1,
           backed_so_far b b1 (space s) sp base offset (granted prot)
       | Some e => e = OUT_OF_MEMORY /\ backing_failed b (space s) sp bytes
       end)
    (variant := fun '(offset, failed) _ => match failed with None => (bytes - offset) / 4096 + 1 | Some _ => 0 end).
  - exists (space s). split; [by rewrite set_space_same|]. split; [lia|]. split; [done|]. exists b.
    split; [done | | apply frames_drawn_none | apply tables_drawn_none].
    intros y. destruct (_ && _) eqn:E0; [lia | done].
  - rewrite Z.sub_0_r. lia.
  - intros [offset failed] s1 (sp & -> & Hinv) _. apply wp_ret. destruct failed as [e|].
    { destruct Hinv as [-> Hsp]. apply wp_ret. by apply HErr. }
    destruct Hinv as (Ho & Hom & b1 & Hfar). destruct (Z.ltb_spec offset bytes); cycle 1.
    { apply wp_ret. cbn. replace offset with bytes in Hfar by lia. by apply (HOk b1). }
    assert (offset + 4096 <= bytes) by div_lia.
    assert (u64 (offset + 4096) = offset + 4096) as Hu by (apply wrap_small; split; lia).
    assert (Hx : area_page (base + offset)) by (destruct Hb as [Hb Hbm]; split; [unfold AREA_END in He; lia | div_lia]).
    apply wp_bind, (wp_back_page b b1 (space s)); [apply Hs | done | done | done | lia | lia | intros; apply Hno; lia | |].
    + intros b2 sp2 Hfar2. apply wp_ret. rewrite Hu. split; [|div_lia]. exists sp2. split; [done|].
      split; [lia|]. split; [div_lia|]. by exists b2.
    + intros sp2 (Hsp2 & Hl2 & Hc2). apply wp_ret. split; [|pose proof (Z.div_pos (bytes - offset) 4096); lia].
      exists sp2. split; [done|]. split; [done|]. split; [done|]. split; [done|].
      pose proof (frames_needed_mono (offset + 4096) bytes). lia.
Qed.

Lemma wp_get_allocation s i (Q : allocation -> vmm -> Prop) :
  zlen (m_allocations s) = MAX_ALLOCATIONS -> 0 <= i < MAX_ALLOCATIONS ->
  Q (znth (m_allocations s) i) s -> wp (get_allocation i) Q s.
Proof.
  intros Hl Hi HQ. apply wp_zoom, wp_array_get; [lia|]. by destruct s.
Qed.

Lemma wp_gap_start s i (Q : Z -> vmm -> Prop) :
  table_ok (m_allocations s) (m_count s) -> 0 <= i <= m_count s ->
  Q (start_at (m_allocations s) i) s -> wp (gap_start i) Q s.
Proof.
  intros Ht Hi HQ. destruct (gap_bounds _ _ i Ht Hi) as (Hlo & Hhi & _).
  pose proof Ht as [Hl Hc He _]. unfold gap_start, start_at in *. destruct (Z.eqb_spec i 0); [by apply wp_ret|].
  assert (u64 (i - 1) = i - 1) as -> by (apply wrap_small; unfold in_width, MAX_ALLOCATIONS in *; lia).
  apply wp_bind, wp_get_allocation; [done | lia |]. apply wp_ret. fold (base_at (m_allocations s) (i - 1)).
  fold (bytes_at (m_allocations s) (i - 1)). fold (end_at (m_allocations s) (i - 1)).
  assert (Hend : AREA_END < 2 ^ 64) by reflexivity. unfold VMALLOC_BASE in Hlo.
  destruct (He (i - 1) ltac:(lia)) as [[] [] ]. unfold VMALLOC_BASE in *.
  assert (u64 (end_at (m_allocations s) (i - 1)) = end_at (m_allocations s) (i - 1)) as ->
    by (apply wrap_small; unfold in_width, end_at; lia).
  change FRAME_SIZE with 4096. assert (u64 (end_at (m_allocations s) (i - 1) + 4096) = end_at (m_allocations s) (i - 1) + 4096) as ->
    by (apply wrap_small; unfold in_width, end_at in *; lia). done.
Qed.

Lemma wp_gap_end s i (Q : Z -> vmm -> Prop) :
  table_ok (m_allocations s) (m_count s) -> 0 <= i <= m_count s ->
  Q (stop_at (m_allocations s) (m_count s) i) s -> wp (gap_end i) Q s.
Proof.
  intros [Hl Hc He _] Hi HQ. unfold gap_end, stop_at in *. apply wp_bind, wp_gets.
  destruct (Z.eqb_spec i (m_count s)); [by apply wp_ret|].
  apply wp_bind, wp_get_allocation; [done | lia |]. by apply wp_ret.
Qed.

(** The first gap that is large enough, or the reason there is none. *)
Definition gap_found (s : vmm) (bytes : Z) (r : Result Z mm_error) : Prop :=
  let gap i := stop_at (m_allocations s) (m_count s) i - start_at (m_allocations s) i in
  match r with
  | Ok i => 0 <= i <= m_count s /\ m_count s < MAX_ALLOCATIONS /\ bytes + 4096 <= gap i
  | Err e => e = OUT_OF_MEMORY /\
      (m_count s = MAX_ALLOCATIONS \/ forall i, 0 <= i <= m_count s -> gap i < bytes + 4096)
  end.

Lemma wp_find_gap s bytes (Q : Result Z mm_error -> vmm -> Prop) :
  table_ok (m_allocations s) (m_count s) -> 0 <= bytes <= VMALLOC_SIZE ->
  (forall r, gap_found s bytes r -> Q r s) -> wp (find_gap bytes) Q s.
Proof.
  intros Ht Hb HQ. pose proof Ht as [_ Hc _ _]. unfold find_gap. apply wp_bind, wp_gets.
  destruct (Z.eqb_spec (m_count s) MAX_ALLOCATIONS); [apply wp_ret, HQ; split; [done | by left]|].
  assert (Hu : u64 (bytes + FRAME_SIZE) = bytes + 4096).
  { change FRAME_SIZE with 4096. apply wrap_small. unfold in_width, VMALLOC_SIZE in *. lia. }
  rewrite Hu. apply wp_bind, (wp_scan_range
    (fun i s' => s' = s /\ forall j, 0 <= j < i ->
       stop_at (m_allocations s) (m_count s) j - start_at (m_allocations s) j < bytes + 4096)
    (fun i s' => s' = s /\ gap_found s bytes (Ok i))).
  - split; [done | lia].
  - intros i s' Hi [-> Hno]. apply wp_bind, wp_gap_end; [done | lia |]. apply wp_bind, wp_gap_start; [done | lia |].
    apply wp_ret. destruct (gap_bounds _ _ i Ht ltac:(lia)) as (Hlo & Hhi & _).
    assert (Hend : AREA_END < 2 ^ 64) by reflexivity. unfold VMALLOC_BASE in Hlo.
    assert (u64 (stop_at (m_allocations s) (m_count s) i - start_at (m_allocations s) i) =
      stop_at (m_allocations s) (m_count s) i - start_at (m_allocations s) i) as -> by (apply wrap_small; unfold in_width; lia).
    destruct (Z.leb_spec (bytes + 4096) (stop_at (m_allocations s) (m_count s) i - start_at (m_allocations s) i)).
    + split; [done|]. cbn. lia.
    + split; [done|]. intros j Hj. destruct (Z.eq_dec j i) as [->|]; [done | apply Hno; lia].
  - intros i s' [-> Hi]. apply wp_ret. by apply HQ.
  - intros s' [-> Hno]. apply wp_ret, HQ. cbn. split; [done|]. right. intros i Hi. apply Hno. lia.
Qed.

Lemma wp_set_allocation s i e (Q : unit -> vmm -> Prop) :
  zlen (m_allocations s) = MAX_ALLOCATIONS -> 0 <= i < MAX_ALLOCATIONS ->
  Q tt (set_allocations (zset (m_allocations s) i e) s) -> wp (set_allocation i e) Q s.
Proof. intros Hl Hi HQ. apply wp_zoom, wp_array_set; [lia | done]. Qed.

Lemma wp_insert s index e (Q : unit -> vmm -> Prop) :
  zlen (m_allocations s) = MAX_ALLOCATIONS -> 0 <= index <= m_count s -> m_count s < MAX_ALLOCATIONS ->
  (forall l, inserted (m_allocations s) l index e (m_count s) ->
     Q tt (set_count (m_count s + 1) (set_allocations l s))) ->
  wp (insert index e) Q s.
Proof.
  intros Hl Hi Hn HQ. unfold insert. apply wp_bind, wp_gets. set (n := m_count s) in *. apply wp_bind.
  apply wp_while with
    (Inv := fun i s' => exists l, s' = set_allocations l s /\ zlen l = MAX_ALLOCATIONS /\ index <= i <= n /\
       forall j, 0 <= j <= n -> j <> i -> znth l j = if j <? i then znth (m_allocations s) j else znth (m_allocations s) (j - 1))
    (variant := fun i _ => i - index).
  - exists (m_allocations s). split; [by destruct s|]. split; [done|]. split; [lia|]. intros j Hj Hne.
    destruct (Z.ltb_spec j n); [done | lia].
  - unfold MAX_ALLOCATIONS in *. lia.
  - intros i s' (l & -> & Hll & Hin & Hat) _. apply wp_ret. destruct (Z.ltb_spec index i).
    + assert (u64 (i - 1) = i - 1) as -> by (apply wrap_small; unfold in_width, MAX_ALLOCATIONS in *; lia).
      apply wp_bind, wp_get_allocation; [done | lia |]. apply wp_bind, wp_set_allocation; [done | lia |].
      apply wp_ret. split; [|lia]. exists (zset l i (znth l (i - 1))). split; [done|]. rewrite zlen_zset.
      split; [done|]. split; [lia|]. intros j Hj Hne. cbn [m_allocations set_allocations].
      rewrite znth_zset by lia. destruct (Z.eqb_spec i j) as [<-|].
      * rewrite Hat by lia. destruct (Z.ltb_spec (i - 1) i), (Z.ltb_spec i (i - 1)); done || lia.
      * rewrite Hat by lia. destruct (Z.ltb_spec j i), (Z.ltb_spec j (i - 1)); done || lia.
    + assert (i = index) as -> by lia. apply wp_bind, wp_set_allocation; [done | lia |]. apply wp_modify.
      cbn [m_count m_allocations set_allocations]. fold n.
      assert (u64 (n + 1) = n + 1) as -> by (apply wrap_small; unfold in_width, MAX_ALLOCATIONS in *; lia).
      apply (HQ (zset l index e)). split; [rewrite zlen_zset; lia|]. intros j Hj.
      rewrite znth_zset by lia. rewrite (Z.eqb_sym index j). destruct (Z.eqb_spec j index) as [->|].
      * by rewrite Z.ltb_irrefl.
      * by apply Hat.
Qed.

Lemma wp_erase s index (Q : unit -> vmm -> Prop) :
  zlen (m_allocations s) = MAX_ALLOCATIONS -> 0 <= index < m_count s -> m_count s <= MAX_ALLOCATIONS ->
  (forall l, erased (m_allocations s) l index (m_count s) ->
     Q tt (set_count (m_count s - 1) (set_allocations l s))) ->
  wp (erase index) Q s.
Proof.
  intros Hl Hi Hn HQ. unfold erase. apply wp_bind, wp_gets. set (n := m_count s) in *. apply wp_bind.
  apply wp_for_range with
    (Inv := fun i s' => exists l, s' = set_allocations l s /\ zlen l = MAX_ALLOCATIONS /\
       forall j, 0 <= j < n -> znth l j = if (index <=? j) && (j <? i - 1) then znth (m_allocations s) (j + 1)
                                           else znth (m_allocations s) j).
  - exists (m_allocations s). split; [by destruct s|]. split; [done|]. intros j Hj.
    destruct (Z.leb_spec index j), (Z.ltb_spec j (index + 1 - 1)); cbn; done || lia.
  - intros i s' Hin (l & -> & Hll & Hat). apply wp_bind, wp_get_allocation; [done | lia |].
    assert (u64 (i - 1) = i - 1) as -> by (apply wrap_small; unfold in_width, MAX_ALLOCATIONS in *; lia).
    apply wp_set_allocation; [done | lia |]. exists (zset l (i - 1) (znth l i)). split; [done|].
    rewrite zlen_zset. split; [done|]. intros j Hj. rewrite znth_zset by lia.
    replace (i + 1 - 1) with i by lia. rewrite !Hat by lia.
    destruct (Z.eqb_spec (i - 1) j) as [<-|].
    + replace (i - 1 + 1) with i by lia.
      destruct (Z.leb_spec index i), (Z.ltb_spec i (i - 1)), (Z.leb_spec index (i - 1)), (Z.ltb_spec (i - 1) i); cbn; done || lia.
    + destruct (Z.leb_spec index j), (Z.ltb_spec j (i - 1)), (Z.ltb_spec j i); cbn; done || lia.
  - intros s' (l & -> & Hll & Hat). apply wp_modify. cbn [m_count set_allocations]. fold n.
    assert (u64 (n - 1) = n - 1) as -> by (apply wrap_small; unfold in_width, MAX_ALLOCATIONS in *; lia).
    apply HQ. split; [lia|]. intros j Hj. rewrite Hat by lia. replace (Z.max (index + 1) n) with n by lia.
    destruct (Z.leb_spec index j), (Z.ltb_spec j (n - 1)), (Z.ltb_spec j index); cbn; done || lia.
Qed.
End VmmFacts.

(** ** Properties *)
Section VmmProperties.
Context `{layout_ok} `{image} `{features}.
Context (root : Z).

(** [bytes], rounded up to whole pages. *)
Definition whole_pages (bytes : Z) : Z := (bytes + 4095) / 4096 * 4096.

Lemma align_up_pages bytes : 0 <= bytes -> bytes + 4095 < 2 ^ 64 -> align_up 64 bytes FRAME_SIZE = whole_pages bytes.
Proof.
  intros Hb Hmax. change FRAME_SIZE with (2 ^ 12). rewrite align_up_no_wrap by (unfold in_width; lia).
  unfold whole_pages. change (2 ^ 12) with 4096. div_lia.
Qed.

Lemma wp_guarded {A} (body : kernel vmm A) (Q : A -> vmm -> Prop) s :
  vmm_lock s = SPINLOCK_UNLOCKED ->
  wp body (fun a s' => Q a (set_vmm_lock SPINLOCK_UNLOCKED s')) (set_vmm_lock SPINLOCK_LOCKED s) ->
  wp (guarded body) Q s.
Proof. intros Hl Hb. apply wp_guarded_by; [unfold LOCK_FUEL; lia | done | done]. Qed.

Lemma vmm_ok_unlock b s s' :
  vmm_ok root b s -> m_allocations s' = m_allocations s -> m_count s' = m_count s ->
  space_ok root b (space s') -> vmm_ok root b (set_vmm_lock SPINLOCK_UNLOCKED s').
Proof.
  intros [Hl Ht Hs Hp] Ha Hc Hs'. split; cbn; rewrite ?Ha, ?Hc; done.
Qed.

Lemma unallocated_none b s y : vmm_ok root b s -> ~ allocated (m_allocations s) (m_count s) y -> b !! y = None.
Proof.
  intros Hs Hy. destruct (b !! y) as [f|] eqn:E0; [|done].
  pose proof (backing_area b (space_backing root b _ (vmm_space root b s Hs)) y f E0) as Hyp.
  destruct Hy. apply (vmm_pages root b s Hs y Hyp). by rewrite E0.
Qed.

(** Why there is no memory for a block of [size] bytes: the table is full, no gap of the area has room
    for it, or it needs at least as many frames as are free. *)
Definition no_memory (s : vmm) (size : Z) : Prop :=
  m_count s = MAX_ALLOCATIONS \/ ~ room (m_allocations s) (m_count s) size \/
  free_count (space s) <= frames_needed size.

(** What an allocation does: the block is whole pages of the area, a page or more away from every
    other block, every page of it is mapped with the protection asked for to a frame of its own, the
    frames that are no longer free are behind it or in the page tables, and nothing else changes; a
    failure changes no mapping and no entry, loses no frame and has its reason. *)
Definition alloc_outcome (b : backing) (s : vmm) (bytes : Z) (prot : page_prot) (r : Result Z mm_error) (s' : vmm) : Prop :=
  match r with
  | Ok base => exists b',
      let size := whole_pages bytes in
      vmm_ok root b' s' /\ 0 < bytes <= VMALLOC_SIZE /\ allocation_ok base size /\
      (forall y, base - 4096 <= y < base + size + 4096 -> ~ allocated (m_allocations s) (m_count s) y) /\
      (forall y, allocated (m_allocations s') (m_count s') y <->
         allocated (m_allocations s) (m_count s) y \/ base <= y < base + size) /\
      backed_from b b' base size (granted prot) /\
      frames_drawn root b' (space s) (space s') base size
  | Err e =>
      vmm_ok root b s' /\ m_allocations s' = m_allocations s /\ m_count s' = m_count s /\
      nothing_lost root (space s) (space s') /\
      (e = INVALID_ADDRESS /\ (bytes = 0 \/ VMALLOC_SIZE < bytes) \/
       e = OUT_OF_MEMORY /\ 0 < bytes <= VMALLOC_SIZE /\ no_memory s (whole_pages bytes))
  end.

Lemma wp_vmm_alloc b s bytes prot :
  vmm_ok root b s -> 0 <= bytes < 2 ^ 64 -> wp (vmm_alloc bytes prot) (alloc_outcome b s bytes prot) s.
Proof.
  intros Hs Hb. pose proof Hs as [Hl Ht Hsp Hp]. unfold vmm_alloc.
  destruct ((bytes =? 0) || (VMALLOC_SIZE <? bytes)) eqn:Hbad.
  { apply wp_ret. apply orb_true_iff in Hbad. split; [done|]. split; [done|]. split; [done|].
    split; [by intros p; left|]. left. split; [done | lia]. }
  apply orb_false_iff in Hbad. assert (Hr : 0 < bytes <= VMALLOC_SIZE) by lia. assert (Hv : VMALLOC_SIZE = 2 ^ 39) by reflexivity.
  rewrite align_up_pages by lia. set (size := whole_pages bytes).
  assert (Hsize : 0 < size <= VMALLOC_SIZE /\ size mod 4096 = 0).
  { unfold size, whole_pages. rewrite Hv in *. split; [div_lia|]. apply Z.mod_mul. lia. }
  apply wp_guarded; [done|]. apply wp_ktry, wp_find_gap; [done | lia |].
  intros r Hgap. change (gap_found s size r) in Hgap. destruct r as [index|e]; cycle 1.
  { destruct Hgap as [-> Hwhy]. split; [by apply (vmm_ok_unlock b s)|]. split; [done|]. split; [done|].
    split; [by intros p; left|]. right. split; [done|]. split; [done|]. destruct Hwhy as [|Hsmall]; [by left | right; left].
    intros (base & Hbase & Hfree). destruct (room_in_gap _ _ size base Ht Hbase Hfree) as (i & Hi & Hlo & Hhi).
    specialize (Hsmall i Hi). cbv beta in Hsmall. cbn [m_allocations m_count set_vmm_lock] in Hsmall. lia. }
  destruct Hgap as (Hi & Hn & Hgap). cbv beta in Hgap. apply wp_bind, wp_gap_start; [done | done |].
  cbn [set_vmm_lock m_allocations]. set (base := start_at (m_allocations s) index) in *.
  destruct (gap_bounds _ _ index Ht Hi) as (Hlo & Hhi & Hbm). fold base in Hlo, Hbm.
  assert (Hfree : forall y, base - 4096 <= y < base + size + 4096 -> ~ allocated (m_allocations s) (m_count s) y).
  { intros y Hy. apply (gap_free _ _ index); [done | done |]. fold base. lia. }
  assert (Hpage : area_page base) by (split; [unfold AREA_END in Hhi; lia | done]).
  apply wp_ktry, (wp_back root b); [done | lia | apply Hsize | done | lia | | |].
  { intros y Hy. apply (unallocated_none b s); [done|]. apply Hfree. lia. }
  2:{ intros sp (Hsp' & Hlost & Hcount). split; [by apply (vmm_ok_unlock b s)|]. split; [done|]. split; [done|].
      split; [done|]. right. split; [done|]. split; [done|]. by right; right. }
  intros b' sp [Hsp' Hback Hdrawn _]. apply wp_bind, wp_insert; [apply Ht | done | done |].
  cbn [set_vmm_lock set_space m_allocations m_count]. intros l Hins.
  destruct (table_ok_inserted _ l _ index _ Ht Hn Hi Hins) as [Ht' Hall]; cbn [alloc_base alloc_bytes]; [lia | apply Hsize | done | lia |].
  cbn [alloc_base alloc_bytes] in Hall. apply wp_ret. exists b'. cbv zeta. fold size. split; [|split; [done|split; [|by split]]].
  - split; [done | done | done |]. cbn. intros y Hy. rewrite Hall, <- (Hp y Hy). specialize (Hback y).
    destruct (_ && _) eqn:E0.
    + destruct Hback as [Hback _]. destruct (Hback Hy) as (f & -> & _). split; [right; lia | done].
    + rewrite Hback. split; [by left|]. intros [|]; [done | lia].
  - split; [lia | lia | lia].
Qed.

Lemma relock s : vmm_lock s = SPINLOCK_UNLOCKED -> set_vmm_lock SPINLOCK_UNLOCKED (set_vmm_lock SPINLOCK_LOCKED s) = s.
Proof. destruct s; cbn. by intros ->. Qed.

Lemma distinct_bases l n i j : table_ok l n -> 0 <= i < n -> 0 <= j < n -> base_at l i = base_at l j -> i = j.
Proof.
  intros [_ _ He Hs] Hi Hj E0. destruct (He i Hi) as [[] _ _], (He j Hj) as [[] _ _].
  destruct (Z_lt_le_dec i j); [pose proof (Hs i j ltac:(lia) ltac:(lia)); unfold end_at in *; lia|].
  destruct (Z.eq_dec i j); [done|]. pose proof (Hs j i ltac:(lia) ltac:(lia)). unfold end_at in *. lia.
Qed.

Lemma set_space_twice_lock s x :
  set_vmm_lock x (set_space (space s) (set_vmm_lock SPINLOCK_LOCKED s)) = set_vmm_lock x (set_vmm_lock SPINLOCK_LOCKED s).
Proof. done. Qed.

Abbreviation laws b := (@kernel_env_laws _ _ _ (keeping root b)).

(** The pages of an entry. *)
Lemma entry_pages b s i :
  vmm_ok root b s -> 0 <= i < m_count s ->
  let base := base_at (m_allocations s) i in
  let bytes := bytes_at (m_allocations s) i in
  area_page base /\ area_page (base + bytes) /\ 0 < bytes /\ all_backed b base (base + bytes).
Proof.
  intros Hs Hi. cbv zeta. destruct (table_entries _ _ (vmm_table root b s Hs) i Hi) as [[] [] Hend].
  unfold AREA_END in Hend. split; [split; [lia | done]|]. split; [split; [lia | div_lia]|]. split; [done|].
  intros y Hy Hr. apply (vmm_pages root b s Hs y Hy). exists i. split; [done|]. unfold end_at. lia.
Qed.

Lemma vmm_freed b s s' i l :
  vmm_ok root b s -> 0 <= i < m_count s -> erased (m_allocations s) l i (m_count s) ->
  let lo := base_at (m_allocations s) i in
  let hi := end_at (m_allocations s) i in
  m_allocations s' = l -> m_count s' = m_count s - 1 -> vmm_lock s' = SPINLOCK_UNLOCKED ->
  space_ok root (without lo hi b) (space s') ->
  vmm_ok root (without lo hi b) s' /\
  forall y, allocated l (m_count s - 1) y <-> allocated (m_allocations s) (m_count s) y /\ ~ lo <= y < hi.
Proof.
  intros Hs Hi Her lo hi Ha Hc Hl Hsp.
  destruct (table_ok_erased _ l _ i (vmm_table root b s Hs) Hi Her) as [Ht Hall]. split; [|done].
  split; rewrite ?Ha, ?Hc; [done | done | done |]. intros y Hy. rewrite Hall, lookup_without.
  rewrite <- (vmm_pages root b s Hs y Hy). destruct (_ && _) eqn:E0; [|split; [intros ?; split; [done | lia] | by intros [? _]]].
  split; [done|]. intros [_ []]. lia.
Qed.

(** What a release does: the block whose base and size are given is unmapped, its frames, its entry and
    the tables that are no longer needed are given back and nothing else changes; when there is no such
    block nothing happens. *)
Definition free_outcome (b : backing) (s : vmm) (base size : Z) (r : Result unit mm_error) (s' : vmm) : Prop :=
  match r with
  | Ok _ => vmm_ok root (without base (base + size) b) s' /\
      (exists i, 0 <= i < m_count s /\ base_at (m_allocations s) i = base /\ bytes_at (m_allocations s) i = size) /\
      (forall y, allocated (m_allocations s') (m_count s') y <->
        allocated (m_allocations s) (m_count s) y /\ ~ base <= y < base + size) /\
      freed root b (space s) (space s') base (base + size)
  | Err e => e = INVALID_ADDRESS /\ s' = s /\
      forall i, 0 <= i < m_count s -> ~ (base_at (m_allocations s) i = base /\ bytes_at (m_allocations s) i = size)
  end.

Lemma wp_vmm_free b s base bytes :
  vmm_ok root b s -> 0 <= bytes -> bytes + 4095 < 2 ^ 64 ->
  wp (vmm_free base bytes) (free_outcome b s base (whole_pages bytes)) s.
Proof.
  intros Hs Hb Hmax. set (size := whole_pages bytes).
  pose proof Hs as [Hl Ht Hsp Hp]. pose proof Ht as [Hlen Hc He _]. unfold vmm_free.
  apply wp_guarded; [done|]. apply wp_bind, wp_gets. set (s1 := set_vmm_lock SPINLOCK_LOCKED s).
  apply wp_bind. apply (wp_scan_range
    (fun i s' => s' = s1 /\ forall j, 0 <= j < i -> base_at (m_allocations s) j <> base)
    (fun r s' => match r with
      | Ok _ => exists i, 0 <= i < m_count s /\ base_at (m_allocations s) i = base /\
          bytes_at (m_allocations s) i = size /\
          exists l sp, s' = set_count (m_count s - 1) (set_allocations l (set_space sp s1)) /\
            erased (m_allocations s) l i (m_count s) /\ space_ok root (without base (base + size) b) sp /\
            freed root b (space s) sp base (base + size)
      | Err e => e = INVALID_ADDRESS /\ s' = s1 /\ exists i, 0 <= i < m_count s /\
          base_at (m_allocations s) i = base /\ bytes_at (m_allocations s) i <> size
      end)).
  - split; [done | lia].
  - intros i s' Hi [-> Hno]. cbn [s1 set_vmm_lock m_count] in Hi.
    apply wp_bind, wp_get_allocation; [done | lia |]. rewrite align_up_pages by done. fold size.
    change (alloc_base (znth (m_allocations s1) i)) with (base_at (m_allocations s) i).
    change (alloc_bytes (znth (m_allocations s1) i)) with (bytes_at (m_allocations s) i).
    destruct (Z.eqb_spec (base_at (m_allocations s) i) base) as [Eb|Hne]; cbn [negb]; cycle 1.
    { apply wp_ret. split; [done|]. intros j Hj. destruct (Z.eq_dec j i) as [->|]; [done | apply Hno; lia]. }
    destruct (Z.eqb_spec (bytes_at (m_allocations s) i) size) as [Es|Hns]; cbn [negb]; cycle 1.
    { apply wp_ret. split; [done|]. split; [done|]. by exists i. }
    destruct (entry_pages b s i Hs Hi) as (Hpb & Hpe & Hpos & Hall). rewrite Eb in Hpb. rewrite Eb, Es in Hpe, Hall. rewrite Eb, Es.
    apply wp_bind, (wp_release_area root b); [done | lia | done | done | done |]. intros sp Hsp2 Hfr2.
    apply wp_bind, wp_erase; [done | exact Hi | apply Hc |]. intros l Her. apply wp_ret.
    exists i. split; [done|]. split; [done|]. split; [done|]. by exists l, sp.
  - intros r s' Hr. apply wp_ret. destruct r as [[]|e].
    + destruct Hr as (i & Hi & Eb & Es & l & sp & -> & Her & Hsp2 & Hfr2).
      assert (Ehi : end_at (m_allocations s) i = base + size) by (unfold end_at; lia).
      destruct (vmm_freed b s (set_vmm_lock SPINLOCK_UNLOCKED (set_count (m_count s - 1) (set_allocations l (set_space sp s1)))) i l
        Hs Hi Her) as [Hok Hall]; [done | done | done | by rewrite Eb, Ehi |]. rewrite Eb, Ehi in Hok, Hall.
      split; [done|]. split; [by exists i|]. by split.
    + destruct Hr as (-> & -> & i & Hi & Eb & Es). split; [done|]. split; [by apply relock|].
      intros j Hj [Ej Esj]. assert (j = i) as -> by (apply (distinct_bases _ _ j i Ht); [done | done | congruence]). done.
  - intros s' [-> Hno]. apply wp_ret. split; [done|]. split; [by apply relock|].
    intros i Hi [Ei _]. cbn [s1 set_vmm_lock m_count] in Hno. apply (Hno i); [lia | done].
Qed.

Lemma wp_vmm_protect b s first bytes prot :
  vmm_ok root b s -> 0 <= first -> 0 <= bytes -> first + bytes + 4095 < 2 ^ 64 ->
  let last := whole_pages (first + bytes) in
  let inside i := base_at (m_allocations s) i <= first /\ last <= end_at (m_allocations s) i in
  wp (vmm_protect first bytes prot) (fun r s' =>
    match r with
    | Ok _ => vmm_ok root (reprotected first last (granted prot) b) s' /\ 0 < bytes /\ first mod 4096 = 0 /\
        (exists i, 0 <= i < m_count s /\ inside i) /\
        m_allocations s' = m_allocations s /\ m_count s' = m_count s /\ frames_conserved root (space s) (space s')
    | Err e => e = INVALID_ADDRESS /\ s' = s /\
        (bytes = 0 \/ first mod 4096 <> 0 \/ forall i, 0 <= i < m_count s -> ~ inside i)
    end) s.
Proof.
  intros Hs Hf Hb Hmax last inside. pose proof Hs as [Hl Ht Hsp Hp]. pose proof Ht as [Hlen Hc He _].
  unfold vmm_protect.
  assert (u64 (first + bytes) = first + bytes) as -> by (apply wrap_small; unfold in_width; lia).
  rewrite align_up_pages by lia. fold last.
  assert (Hand : Z.land first (u64 (FRAME_SIZE - 1)) = first mod 4096).
  { change (u64 (FRAME_SIZE - 1)) with (Z.ones 12). by rewrite Z.land_ones by lia. }
  rewrite Hand. assert (Hlast : first + bytes <= last /\ last mod 4096 = 0).
  { unfold last, whole_pages. split; [div_lia | apply Z.mod_mul; lia]. }
  destruct (Z.eqb_spec bytes 0) as [|Hb0]; cbn [orb]; [apply wp_ret; split; [done | split; [done | by left]]|].
  destruct (Z.eqb_spec (first mod 4096) 0) as [Hfm|]; cbn [negb orb]; [|apply wp_ret; split; [done | split; [done | by right; left]]].
  destruct (Z.leb_spec last first); [lia|].
  apply wp_guarded; [done|]. apply wp_bind, wp_gets. set (s1 := set_vmm_lock SPINLOCK_LOCKED s).
  apply wp_bind. apply (wp_scan_range
    (fun i s' => s' = s1 /\ forall j, 0 <= j < i -> ~ inside j)
    (fun r s' => r = Ok tt /\ (exists i, 0 <= i < m_count s /\ inside i) /\
       exists sp, s' = set_space sp s1 /\ space_ok root (reprotected first last (granted prot) b) sp /\
         frames_conserved root (space s) sp)).
  - split; [done | lia].
  - intros i s' Hi [-> Hno]. cbn [s1 set_vmm_lock m_count] in Hi.
    apply wp_bind, wp_get_allocation; [done | lia |].
    change (alloc_base (znth (m_allocations s1) i)) with (base_at (m_allocations s) i).
    change (alloc_bytes (znth (m_allocations s1) i)) with (bytes_at (m_allocations s) i).
    fold (end_at (m_allocations s) i).
    destruct (entry_pages b s i Hs Hi) as (Hpb & Hpe & Hpos & Hall).
    fold (end_at (m_allocations s) i) in Hpe, Hall.
    assert (u64 (end_at (m_allocations s) i) = end_at (m_allocations s) i) as ->.
    { apply wrap_small. destruct Hpb as [Hpb _], Hpe as [Hpe _]. unfold in_width, VMALLOC_BASE, VMALLOC_SIZE in *. lia. }
    destruct (Z.leb_spec (base_at (m_allocations s) i) first), (Z.leb_spec last (end_at (m_allocations s) i)); cbn [andb];
      try (apply wp_ret; split; [done|]; intros j Hj; destruct (Z.eq_dec j i) as [->|]; [unfold inside; lia | apply Hno; lia]).
    apply wp_bind, (wp_kernel_space root _ b); [apply Hsp|].
    assert (u64 (last - first) = last - first) as ->.
    { apply wrap_small. destruct Hpe as [Hpe _]. unfold in_width, VMALLOC_BASE, VMALLOC_SIZE in *. lia. }
    assert (Hin : area_page first /\ area_page last).
    { destruct Hpb as [Hpb _], Hpe as [Hpe _]. split; (split; [lia | tauto]). }
    apply (wp_protect_pages root b); [exact Hsp | lia | apply Hin | | |].
    + replace (first + (last - first)) with last by lia. apply Hin.
    + intros y Hy Hr. apply Hall; [done | lia].
    + intros sp Hsp' Hcons. replace (first + (last - first)) with last in Hsp' by lia. apply wp_ret.
      split; [done|]. split; [by exists i|]. by exists sp.
  - intros r s' (-> & Hex & sp & -> & Hsp' & Hcons). apply wp_ret.
    split; [|split; [lia | split; [done | split; [done | split; [done | by split]]]]]. split; [done | done | done |].
    cbn. intros y Hy. rewrite <- (Hp y Hy), lookup_reprotected. by destruct (b !! y).
  - intros s' [-> Hno]. apply wp_ret. split; [done|]. split; [by apply relock|]. right; right.
    intros i Hi. cbn [s1 set_vmm_lock m_count] in Hno. apply Hno. lia.
Qed.

(** The processor finds an address of the area where [b] says. *)
Lemma wp_translate_area b s va (Q : Result mapping mm_error -> vmm -> Prop) :
  space_ok root b (space s) -> VMALLOC_BASE <= va < VMALLOC_BASE + VMALLOC_SIZE ->
  Q (match b !! (va - va mod 4096) with
     | Some (f, q) => Ok {| frame := f; offset := va mod 4096; size := SIZE_4K; prot := q |}
     | None => Err NOT_MAPPED
     end) s ->
  wp (kernel_space (fun f root => translate (F := @paging f) root va)) Q s.
Proof.
  intros Hsp Hva HQ. apply (wp_kernel_space root _ b); [apply Hsp|].
  assert (Hpage : area_page (va - va mod 4096)) by (unfold area_page, VMALLOC_BASE, VMALLOC_SIZE in *; split; div_lia).
  assert (Hc : canonical va).
  { unfold VMALLOC_BASE, VMALLOC_SIZE in *. split; [lia|]. apply valid_eq. right. div_lia. }
  pose proof (space_pages root b _ Hsp _ Hpage) as Hpg. pose proof (area_canonical _ Hpage) as Hcp.
  assert (Hsame : same_page 1 (va - va mod 4096) va) by (right; change (span 1) with 4096; div_lia).
  apply (wp_translate (EL := laws b)); [apply Hsp | apply Hc |]. intros r Hr. rewrite set_space_same.
  match type of HQ with Q ?x _ => enough (r = x) as -> by exact HQ end.
  destruct (b !! (va - va mod 4096)) as [[f q]|]; cbn in Hpg.
  - destruct Hpg as (e & He & Ha & Hq). pose proof (leaf_of_page (EL := laws b) root _ _ va 1 e Hcp Hc He Hsame) as Hva'.
    destruct r as [m|er].
    + destruct Hr as (_ & l & e' & He' & ->). rewrite Hva' in He'. injection He' as <- <-. by rewrite <- Ha, <- Hq.
    + destruct er; try (destruct Hr as (_ & _ & Hno); congruence). by destruct Hc as [_ Hv]; rewrite Hv in Hr.
  - destruct r as [m|er].
    + exfalso. destruct Hr as (_ & l & e' & He' & _).
      destruct (leaf_of_table (EL := laws b) root _ va l e' He') as (Hlv & _).
      assert (Hs' : same_page l va (va - va mod 4096)).
      { apply (same_page_up 1 l); [lia | done | done | by apply same_page_sym]. }
      pose proof (leaf_of_page (EL := laws b) root _ va _ l e' Hc Hcp He' Hs') as Hx.
      change (leaf_of (EL := laws ∅) root (space s) (va - va mod 4096) = Some (l, e')) in Hx. congruence.
    + destruct er; try (by destruct Hr as (? & _)). by destruct Hc as [_ Hv]; rewrite Hv in Hr.
Qed.

(** Translation of an address of the area: the frame and the protection of its page. *)
Theorem vrt_to_phy_correct b s va :
  vmm_ok root b s -> VMALLOC_BASE <= va < VMALLOC_BASE + VMALLOC_SIZE ->
  wp (vrt_to_phy va) (fun r s' => s' = s /\
    r = match b !! (va - va mod 4096) with
        | Some (f, q) => Ok {| frame := f; offset := va mod 4096; size := SIZE_4K; prot := q |}
        | None => Err NOT_MAPPED
        end) s.
Proof.
  intros Hs Hva. pose proof Hs as [Hl Ht Hsp Hp]. unfold vrt_to_phy. apply wp_guarded; [done|].
  apply (wp_translate_area b); [exact Hsp | done |]. split; [by apply relock | done].
Qed.

(** The address translation of the kernel's space. *)
Definition seen (s : vmm) (va : Z) : option (Z * page_prot) := translation (EL := laws ∅) root (space s) va.

Lemma wp_map_mmio b s pa bytes :
  vmm_ok root b s -> 0 <= pa < 2 ^ 64 -> 0 <= bytes < 2 ^ 64 ->
  wp (map_mmio pa bytes) (fun r s' =>
    vmm_ok root b s' /\ m_allocations s' = m_allocations s /\ m_count s' = m_count s /\
    (forall x, canonical x -> ~ MMIO_MAP_BASE <= x < MMIO_MAP_BASE + MMIO_MAP_SIZE -> seen s' x = seen s x) /\
    match r with
    | Ok va => va = MMIO_MAP_BASE + pa /\ 0 < bytes /\ pa + bytes <= MMIO_MAP_SIZE /\
        (forall i, 0 <= i < bytes -> seen s' (va + i) = Some (pa + i, granted MMIO)) /\
        (forall x, canonical x -> x < va - pa mod 4096 \/ va - pa + whole_pages (pa + bytes) <= x -> seen s' x = seen s x)
    | Err e => e = INVALID_ADDRESS /\ (bytes = 0 \/ MMIO_MAP_SIZE < pa + bytes) \/
        0 < bytes /\ (e = OUT_OF_MEMORY /\ no_frame_left (space s') \/ e = CONFLICT)
    end) s.
Proof.
  intros Hs Hpa Hb. pose proof Hs as [Hl Ht Hsp Hp]. unfold map_mmio.
  assert (Hms : MMIO_MAP_SIZE = 2 ^ 39) by reflexivity.
  assert (Hbase : MMIO_MAP_BASE = 0xffff808000000000) by reflexivity.
  destruct ((bytes =? 0) || (MMIO_MAP_SIZE <=? pa) || (u64 (MMIO_MAP_SIZE - pa) <? bytes)) eqn:Hbad.
  { apply wp_ret. split; [done|]. split; [done|]. split; [done|]. split; [done|]. left. split; [done|].
    apply orb_true_iff in Hbad as [Hbad|Hbad]; [apply orb_true_iff in Hbad; lia|].
    destruct (Z_lt_le_dec pa MMIO_MAP_SIZE); [|lia].
    unfold u64 in Hbad. rewrite wrap_small in Hbad by (unfold in_width; lia). lia. }
  apply orb_false_iff in Hbad as [Hbad Hb3]. apply orb_false_iff in Hbad.
  assert (Hr : 0 < bytes /\ pa + bytes <= MMIO_MAP_SIZE).
  { unfold u64 in Hb3. rewrite wrap_small in Hb3 by (unfold in_width; lia). lia. }
  assert (u64 (pa + bytes) = pa + bytes) as -> by (apply wrap_small; unfold in_width; lia).
  rewrite align_up_pages by lia. set (last := whole_pages (pa + bytes)).
  assert (Hfirst : align_down 64 pa FRAME_SIZE = pa - pa mod 4096).
  { change FRAME_SIZE with (2 ^ 12). by rewrite align_down_eq by (unfold in_width; lia). }
  rewrite Hfirst. set (first := pa - pa mod 4096).
  assert (Hlast : pa + bytes <= last <= 2 ^ 39 /\ last mod 4096 = 0).
  { unfold last, whole_pages. split; [div_lia | apply Z.mod_mul; lia]. }
  assert (Hf : 0 <= first <= pa /\ first mod 4096 = 0) by (unfold first; split; div_lia).
  assert (u64 (MMIO_MAP_BASE + first) = MMIO_MAP_BASE + first) as -> by (apply wrap_small; unfold in_width; lia).
  assert (u64 (last - first) = last - first) as -> by (apply wrap_small; unfold in_width; lia).
  assert (u64 (MMIO_MAP_BASE + pa) = MMIO_MAP_BASE + pa) as -> by (apply wrap_small; unfold in_width; lia).
  apply wp_ktry, wp_guarded; [done|]. apply (wp_kernel_space root _ b); [apply Hsp|].
  change SIZE_4K with (size_at 1). cbn [space set_vmm_lock].
  apply (wp_map_range (EL := laws b)); [apply Hsp | cbn; lia | lia | lia | lia | lia | lia |].
  intros r sp Ht' _ Hres. rewrite level_one in Hres. change (span 1) with 4096 in Hres.
  assert (Hkeep : forall n, 0 <= n <= last - first ->
    maps (EL := laws b) root (space s) sp (MMIO_MAP_BASE + first) first n 1 MMIO ->
    vmm_ok root b (set_vmm_lock SPINLOCK_UNLOCKED (set_space sp (set_vmm_lock SPINLOCK_LOCKED s)))).
  { intros n Hn [Hm Hg]. apply (vmm_ok_unlock b s); [done | done | done |]. split; [exact Ht' | | apply Hsp].
    intros y Hy. pose proof (area_canonical y Hy) as Hc.
    assert (Hout : (MMIO_MAP_BASE + first <=? y) && (y <? MMIO_MAP_BASE + first + n) = false).
    { destruct Hy as [Hy _]. unfold VMALLOC_BASE in Hy. destruct_comparisons; cbn; done || lia. }
    apply (page_kept root (space s)); [done | | | by apply Hsp].
    - specialize (Hm y Hc). rewrite Hout in Hm. exact Hm.
    - intros l' e' He'. specialize (Hg y l' e' Hc He'). rewrite Hout in Hg. exact Hg. }
  assert (Helse : forall n, 0 <= n <= last - first ->
    maps (EL := laws b) root (space s) sp (MMIO_MAP_BASE + first) first n 1 MMIO ->
    forall x, canonical x -> ~ MMIO_MAP_BASE <= x < MMIO_MAP_BASE + MMIO_MAP_SIZE ->
      translation (EL := laws ∅) root sp x = seen s x).
  { intros n Hn [Hm _] x Hx Hout. specialize (Hm x Hx).
    destruct (_ && _) eqn:E0 in Hm; [exfalso; lia | exact Hm]. }
  destruct r as [[]|e].
  - apply wp_ret. split; [by apply (Hkeep (last - first)); [lia|]|]. split; [done|]. split; [done|].
    split; [by apply (Helse (last - first)); [lia|]|].
    split; [done|]. split; [lia|]. split; [lia|]. destruct Hres as [Hm _]. split.
    + intros i Hi. assert (Hc : canonical (MMIO_MAP_BASE + pa + i)).
      { split; [lia|]. apply valid_eq. right. rewrite Hbase. clear - Hi Hr Hms Hpa. rewrite Hms in Hr. div_lia. }
      specialize (Hm _ Hc). destruct (_ && _) eqn:E0 in Hm; [|lia].
      transitivity (Some (first + (MMIO_MAP_BASE + pa + i - (MMIO_MAP_BASE + first)), granted MMIO)); [exact Hm|].
      do 2 f_equal. lia.
    + intros x Hx Hout. specialize (Hm x Hx).
      destruct (_ && _) eqn:E0 in Hm; [exfalso; fold last in Hout; unfold first in *; lia | exact Hm].
  - destruct Hres as (n & Hn & Hnm & Hm & Hwhy). split; [by apply (Hkeep n)|]. split; [done|]. split; [done|].
    split; [by apply (Helse n)|]. right. split; [lia|]. destruct Hwhy as [[_ Hbad2]|[Hlt Hwhy]].
    + exfalso. destruct Hbad2 as [|Hbad2]; [lia|]. apply Hbad2. rewrite level_one. change (span 1) with 4096. div_lia.
    + destruct e; cbn in Hwhy; try tauto. exfalso. apply Hwhy. change (span 1) with 4096.
      split; [|split; [rewrite Hbase|]; div_lia]. apply valid_eq. right. rewrite Hbase.
      clear - Hlt Hn Hlast Hf. div_lia.
Qed.

(** Device memory: the address returned and the bytes after it are mapped, uncached, to the device's
    bytes; the area of the allocations is not touched.  An error leaves at most whole pages of the
    window mapped. *)
Theorem map_mmio_correct b s pa bytes :
  vmm_ok root b s -> 0 <= pa < 2 ^ 64 -> 0 <= bytes < 2 ^ 64 ->
  wp (map_mmio pa bytes) (fun r s' =>
    vmm_ok root b s' /\ m_allocations s' = m_allocations s /\ m_count s' = m_count s /\
    (forall x, canonical x -> ~ MMIO_MAP_BASE <= x < MMIO_MAP_BASE + MMIO_MAP_SIZE -> seen s' x = seen s x) /\
    match r with
    | Ok va => va = MMIO_MAP_BASE + pa /\ 0 < bytes /\ pa + bytes <= MMIO_MAP_SIZE /\
        (forall i, 0 <= i < bytes -> seen s' (va + i) = Some (pa + i, granted MMIO)) /\
        (forall x, canonical x -> x < va - pa mod 4096 \/ va - pa + whole_pages (pa + bytes) <= x -> seen s' x = seen s x)
    | Err e => e = INVALID_ADDRESS /\ (bytes = 0 \/ MMIO_MAP_SIZE < pa + bytes) \/
        0 < bytes /\ (e = OUT_OF_MEMORY /\ no_frame_left (space s') \/ e = CONFLICT)
    end) s.
Proof. apply wp_map_mmio. Qed.

(** Protection: a range of whole pages inside one block gets the protection, with the same frames
    behind it; any other range is refused and nothing happens. *)
Theorem vmm_protect_correct b s first bytes prot :
  vmm_ok root b s -> 0 <= first -> 0 <= bytes -> first + bytes + 4095 < 2 ^ 64 ->
  let last := whole_pages (first + bytes) in
  let inside i := base_at (m_allocations s) i <= first /\ last <= end_at (m_allocations s) i in
  wp (vmm_protect first bytes prot) (fun r s' =>
    match r with
    | Ok _ => vmm_ok root (reprotected first last (granted prot) b) s' /\ 0 < bytes /\ first mod 4096 = 0 /\
        (exists i, 0 <= i < m_count s /\ inside i) /\
        m_allocations s' = m_allocations s /\ m_count s' = m_count s /\ frames_conserved root (space s) (space s')
    | Err e => e = INVALID_ADDRESS /\ s' = s /\
        (bytes = 0 \/ first mod 4096 <> 0 \/ forall i, 0 <= i < m_count s -> ~ inside i)
    end) s.
Proof. apply wp_vmm_protect. Qed.

(** The new entry is where the block is. *)
Lemma vmm_alloc_entry s b' s1 base size i :
  vmm_ok root b' s1 -> allocation_ok base size ->
  (forall y, base - 4096 <= y < base + size + 4096 -> ~ allocated (m_allocations s) (m_count s) y) ->
  (forall y, allocated (m_allocations s1) (m_count s1) y <->
     allocated (m_allocations s) (m_count s) y \/ base <= y < base + size) ->
  0 <= i < m_count s1 -> base_at (m_allocations s1) i <= base < end_at (m_allocations s1) i ->
  base_at (m_allocations s1) i = base /\ bytes_at (m_allocations s1) i = size.
Proof.
  intros Hok [[Hpos _] _ _] Hfar Hall Hi Hin.
  assert (Hlo : base_at (m_allocations s1) i = base).
  { destruct (Z.eq_dec (base_at (m_allocations s1) i) base) as [|Hne]; [done|exfalso].
    destruct (proj1 (Hall (base - 1))) as [Hold|]; [exists i; split; [done | lia] | | lia].
    apply (Hfar (base - 1)); [lia | done]. }
  assert (Hhi : end_at (m_allocations s1) i = base + size); [|unfold end_at in Hhi; lia].
  destruct (Z_lt_le_dec (base + size) (end_at (m_allocations s1) i)) as [Hlt|Hle].
  { exfalso. destruct (proj1 (Hall (base + size))) as [Hold|]; [exists i; split; [done | lia] | | lia].
    apply (Hfar (base + size)); [lia | done]. }
  destruct (Z.eq_dec (end_at (m_allocations s1) i) (base + size)) as [|Hne]; [done|exfalso].
  destruct (proj2 (Hall (end_at (m_allocations s1) i))) as (j & Hj & Hjin); [right; lia|].
  destruct (vmm_table root b' s1 Hok) as [_ _ He Hs].
  destruct (Z_lt_le_dec i j); [pose proof (Hs i j ltac:(lia) ltac:(lia)); lia|].
  destruct (Z.eq_dec i j) as [->|]; [lia|]. pose proof (Hs j i ltac:(lia) ltac:(lia)).
  destruct (He i Hi) as [[Hp _] _ _]. unfold end_at in *. lia.
Qed.

(** C15: Allocation, on every branch: see [alloc_outcome].  It returns or fails cleanly from every
    consistent state: what a failing [back] had mapped is released, no frame is lost, and no panic is
    reached.  OUT_OF_MEMORY has its reason ([no_memory]): the table of allocations is full, no gap of the
    area has room for the block and its guard pages, or at most as many frames were free as the block and
    the page tables for it can need; so it succeeds whenever there is room and memory. *)
Theorem vmm_alloc_correct b s bytes prot :
  vmm_ok root b s -> 0 <= bytes < 2 ^ 64 -> wp (vmm_alloc bytes prot) (alloc_outcome b s bytes prot) s.
Proof. apply wp_vmm_alloc. Qed.

(** C16: Release, on every branch: see [free_outcome].  The frames behind the block are free afterwards, so
    are the tables that are no longer needed, and no frame that was free is taken ([freed]).  The panic of
    a block that is not fully mapped is not reached. *)
Theorem vmm_free_correct b s base bytes :
  vmm_ok root b s -> 0 <= bytes -> bytes + 4095 < 2 ^ 64 ->
  wp (vmm_free base bytes) (free_outcome b s base (whole_pages bytes)) s.
Proof. apply wp_vmm_free. Qed.

(** Releasing the block that was just allocated undoes the allocation, and loses no frame. *)
Lemma wp_free_allocated b s bytes prot base s1 :
  vmm_ok root b s -> 0 <= bytes -> bytes + 4095 < 2 ^ 64 -> alloc_outcome b s bytes prot (Ok base) s1 ->
  wp (vmm_free base bytes) (fun r s' => r = Ok tt /\ vmm_ok root b s' /\
    (forall y, allocated (m_allocations s') (m_count s') y <-> allocated (m_allocations s) (m_count s) y) /\
    nothing_lost root (space s) (space s')) s1.
Proof.
  intros Hs Hb Hmax (b' & Hok & Hbytes & Ha & Hfar & Hall & Hback & Hdrawn).
  assert (Hsize : 0 < whole_pages bytes) by (apply Ha).
  eapply wp_mono; [apply (wp_vmm_free b'); [done | lia | lia]|]. intros [[]|e] s2 Hfree.
  - destruct Hfree as (Hok2 & _ & Hall2 & Hfreed). rewrite (backed_from_undo b b' base _ _ Hback) in Hok2.
    2:{ intros y Hy. apply (unallocated_none b s); [done|]. apply Hfar. lia. }
    split; [done|]. split; [done|]. split; [|by eapply drawn_freed]. intros y. rewrite Hall2, Hall. split; [tauto|].
    intros Hy. split; [by left|]. intros Hin. apply (Hfar y); [lia | done].
  - exfalso. destruct Hfree as (_ & _ & Hno). destruct (proj2 (Hall base)) as (i & Hi & Hin); [right; lia|].
    destruct (vmm_alloc_entry s b' s1 base (whole_pages bytes) i) as [E1 E2]; try done. by apply (Hno i).
Qed.

(** A block that was just allocated can be released by its base and size, and the area is then as it
    was: the same pages are mapped to the same frames, the same addresses are allocated, and no frame is
    lost. *)
Theorem vmm_alloc_free_roundtrip b s bytes prot :
  vmm_ok root b s -> 0 <= bytes -> bytes + 4095 < 2 ^ 64 ->
  wp (r ← vmm_alloc bytes prot;
      match r with Ok base => vmm_free base bytes | Err e => mret (Ok tt) end)
     (fun r s' => r = Ok tt /\ vmm_ok root b s' /\
        (forall y, allocated (m_allocations s') (m_count s') y <-> allocated (m_allocations s) (m_count s) y) /\
        nothing_lost root (space s) (space s')) s.
Proof.
  intros Hs Hb Hmax. apply wp_bind. eapply wp_mono; [apply (wp_vmm_alloc b); [done | lia]|].
  intros [base|e] s1 Hout; [by eapply wp_free_allocated|].
  apply wp_ret. destruct Hout as (Hok & -> & -> & Hlost & _). done.
Qed.
End VmmProperties.

(** ** The properties at work, on an area with nothing allocated *)
Section VmmWitnesses.
Local Existing Instance Mmu.example_layout.
Local Existing Instance Mmu.example_layout_ok.
Local Existing Instance Mmu.example_image.
Local Existing Instance Mmu.example_features.

Definition blank_vmm (a : pmm) : vmm := {|
  space := blank_space a;
  m_allocations := replicate 1024 {| alloc_base := 0; alloc_bytes := 0 |};
  m_count := 0;
  vmm_lock := SPINLOCK_UNLOCKED;
|}.

(** An area with nothing allocated, and four megabytes of memory free. *)
Lemma example_memory :
  exists s, vmm_ok example_root ∅ s /\ m_count s = 0 /\ 100 <= free_count (space s).
Proof.
  destruct (populated_state 0x200000 0x400000) as (a & Ha & Hfree); [by vm_compute|].
  exists (blank_vmm a).
  assert (Hempty : forall p, ~ backs ∅ p) by (intros p (y & q & Hy); by rewrite lookup_empty in Hy).
  destruct (empty_tree (EL := @kernel_env_laws _ _ _ (keeping example_root ∅)) example_root (blank_space a)) as [Ht Hno].
  { split; [exact Ha | | done..]. intros p Hp. by destruct (Hempty p). }
  { split; [|apply Hempty]. split; [by vm_compute|]. split; [done|]. cbn [allocator blank_space].
    rewrite Hfree by (split; by vm_compute). by vm_compute. }
  { done. }
  split; [|split; [done|]].
  - split; [done | | |].
    + split; [done | cbn; unfold MAX_ALLOCATIONS; lia | cbn; lia | cbn; lia].
    + split; [exact Ht | |].
      * intros y Hy. rewrite lookup_empty. cbn. specialize (Hno y (area_canonical y Hy)). unfold translation in Hno.
        change (leaf_of (EL := @kernel_env_laws _ _ _ (keeping example_root ∅)) example_root (blank_space a) y = None).
        by destruct (leaf_of _ _ y).
      * by split; intros *; rewrite lookup_empty.
    + intros y Hy. rewrite lookup_empty. split; [done|]. intros (i & Hi & _). cbn in Hi. lia.
  - assert (Hmax : 612 <= MAX_FRAMES) by (by vm_compute). unfold free_count. cbn [space blank_vmm allocator blank_space].
    rewrite (count_range_split _ 0 512 MAX_FRAMES), (count_range_split _ 512 612 MAX_FRAMES) by lia.
    pose proof (count_range_bounds (is_free a) 0 512). pose proof (count_range_bounds (is_free a) 612 MAX_FRAMES).
    assert (Hhere : count_range (is_free a) 512 612 = 100); [|lia].
    apply (count_range_const_true (is_free a) 512 612 ltac:(lia)). intros f Hf.
    assert (Hr : 0 <= f < MAX_FRAMES) by lia. rewrite (Hfree f Hr). cbn. apply andb_true_iff. split; apply Z.leb_le; lia.
Qed.

Lemma example_vmm : exists s, vmm_ok example_root ∅ s.
Proof. destruct example_memory as (s & Hs & _). by exists s. Qed.

(** There is room and memory for a small block. *)
Lemma example_plenty s : m_count s = 0 -> 100 <= free_count (space s) -> ~ no_memory s 8192.
Proof.
  intros Hc Hf [Hn|[Hn|Hn]].
  - by rewrite Hc in Hn.
  - apply Hn. exists VMALLOC_BASE. split; [by split; vm_compute|]. intros y _ (i & Hi & _). lia.
  - change (frames_needed 8192) with 8 in Hn. lia.
Qed.

Lemma vmm_alloc_correct_witness :
  exists s, vmm_ok example_root ∅ s /\ wp (vmm_alloc 5000 KERNEL_DATA) (fun r s' =>
    exists base b', r = Ok base /\ VMALLOC_BASE <= base /\ vmm_ok example_root b' s' /\
      allocated (m_allocations s') (m_count s') (base + 8191)) s.
Proof.
  destruct example_memory as (s & Hs & Hc & Hf). exists s. split; [exact Hs|].
  eapply wp_mono; [apply (vmm_alloc_correct example_root ∅ s 5000 KERNEL_DATA Hs); lia|].
  intros [base|e] s' Hr.
  - destruct Hr as (b' & Hok & _ & Ha & _ & Hall & _). exists base, b'. split; [done|]. split; [apply Ha|].
    split; [exact Hok|]. apply Hall. right. change (whole_pages 5000) with 8192. lia.
  - destruct Hr as (_ & _ & _ & _ & [[_ [E|E]]|(_ & _ & E)]); [discriminate E | by vm_compute in E |].
    by destruct (example_plenty s Hc Hf).
Defined.

(** A block is allocated and released: both succeed. *)
Lemma vmm_free_correct_witness :
  exists s, vmm_ok example_root ∅ s /\
    wp (r ← vmm_alloc 5000 KERNEL_DATA;
        match r with Ok base => vmm_free base 5000 | Err e => mret (Err e) end) (fun r s' =>
      r = Ok tt /\ ~ exists y, allocated (m_allocations s') (m_count s') y) s.
Proof.
  destruct example_memory as (s & Hs & Hc & Hf). exists s. split; [exact Hs|]. apply wp_bind.
  eapply wp_mono; [apply (wp_vmm_alloc example_root ∅); [exact Hs | lia]|]. intros [base|e] s1 Hout; cycle 1.
  { destruct Hout as (_ & _ & _ & _ & [[_ [E|E]]|(_ & _ & E)]); [discriminate E | by vm_compute in E |].
    by destruct (example_plenty s Hc Hf). }
  destruct Hout as (b' & Hok & _ & Ha & Hfar & Hall & _).
  eapply wp_mono; [apply (vmm_free_correct example_root b' s1 base 5000 Hok); lia|].
  change (whole_pages 5000) with 8192 in *. intros [[]|e] s2 Hfree.
  - split; [done|]. destruct Hfree as (_ & _ & Hall2 & _). intros (y & Hy).
    apply Hall2 in Hy as [Hy Hout]. apply Hall in Hy as [(i & Hi & _)|]; [lia | done].
  - exfalso. destruct Hfree as (_ & _ & Hno). destruct (proj2 (Hall base)) as (i & Hi & Hin); [right; lia|].
    destruct (vmm_alloc_entry example_root s b' s1 base 8192 i) as [E1 E2]; try done. by apply (Hno i).
Defined.

Lemma vmm_alloc_free_roundtrip_witness :
  exists s, vmm_ok example_root ∅ s /\
    wp (r ← vmm_alloc 5000 KERNEL_DATA;
        match r with Ok base => vmm_free base 5000 | Err e => mret (Ok tt) end)
       (fun r s' => r = Ok tt /\ vmm_ok example_root ∅ s') s.
Proof.
  destruct example_vmm as (s & Hs). exists s. split; [exact Hs|].
  eapply wp_mono; [apply (vmm_alloc_free_roundtrip example_root ∅ s 5000 KERNEL_DATA Hs); lia|].
  intros r s' (H1 & H2 & _). by split.
Defined.

Lemma vmm_protect_correct_witness :
  exists s, vmm_ok example_root ∅ s /\ wp (vmm_protect VMALLOC_BASE 0 KERNEL_RODATA) (fun r s' =>
    r = Err INVALID_ADDRESS /\ s' = s) s.
Proof.
  destruct example_vmm as (s & Hs). exists s. split; [exact Hs|].
  eapply wp_mono; [apply (vmm_protect_correct example_root ∅ s VMALLOC_BASE 0 KERNEL_RODATA Hs);
    [by vm_compute | lia | by vm_compute]|].
  intros [u|e] s' Hr; [exfalso; destruct Hr as (_ & E & _); lia | by destruct Hr as (-> & -> & _)].
Defined.

Lemma vrt_to_phy_correct_witness :
  exists s, vmm_ok example_root ∅ s /\ wp (vrt_to_phy (VMALLOC_BASE + 5)) (fun r _ => r = Err NOT_MAPPED) s.
Proof.
  destruct example_vmm as (s & Hs). exists s. split; [exact Hs|].
  eapply wp_mono; [apply (vrt_to_phy_correct example_root ∅ s (VMALLOC_BASE + 5) Hs); by vm_compute|].
  intros r s' (_ & Hr). by rewrite lookup_empty in Hr.
Defined.

Lemma map_mmio_correct_witness :
  exists s, vmm_ok example_root ∅ s /\ wp (map_mmio 0xfee00030 16) (fun r s' =>
    match r with
    | Ok va => va = 0xffff8080fee00030 /\ seen example_root s' 0xffff8080fee00033 = Some (0xfee00033, granted MMIO)
    | Err e => e <> INVALID_ADDRESS
    end) s.
Proof.
  destruct example_vmm as (s & Hs). exists s. split; [exact Hs|].
  eapply wp_mono; [apply (map_mmio_correct example_root ∅ s 0xfee00030 16 Hs); lia|].
  intros [va|e] s' (_ & _ & _ & _ & Hr).
  - destruct Hr as (-> & _ & _ & Hm & _). split; [reflexivity|]. exact (Hm 3 ltac:(lia)).
  - destruct Hr as [[_ [E|E]]|[_ [[-> _]| ->]]]; [discriminate E | by vm_compute in E | done | done].
Defined.
End VmmWitnesses.
