(* ===== verification/KernelSpace.v ===== *)
(** * KernelSpace: the address space the kernel builds for itself, [arch/x86_64/mmu/mmu.cpp]

    [init_kernel_space] writes the first tree in tables of the image, loads it, and then splits and
    protects it with the operations of the tree.  The first tree is described entry by entry
    ([first_word]), then as a translation ([first_view]); [kernel_view] is what it is in the end. *)

From S2P Require Import Prelude Layout Bits Bitmap Page Spinlock Containers Boot Pmm Radix RadixFacts Cpu Paging Mmu Vmm VmmFacts.

(** ** What the linker script guarantees *)

Definition page_ceil (x : Z) : Z := (x + 4095) / 4096 * 4096.

Section Image.
Context `{layout} `{image}.

(** The tables of the image, numbered: the root, the two of the kernel's window, the direct map's
    table of level 3 and its tables of level 2. *)
Definition static_address (n : Z) : Z :=
  if n =? 0 then m_pml4
  else if n =? 1 then m_kernel_pdpt
  else if n =? 2 then m_kernel_pd
  else if n =? 3 then m_direct_pdpt
  else m_direct_pds + 4096 * (n - 4).

Definition table_number (n : Z) : Prop := 0 <= n < 4 + DIRECT_PD_COUNT.

(** The sections follow each other, each from a page boundary; the kernel fits the early page
    tables; the tables are distinct page-aligned objects of the data sections. *)
Class image_ok : Prop := {
  image_text : KERNEL_BASE + boot_start <= text_start /\ text_start mod 4096 = 0;
  image_rodata : text_start < text_end /\ rodata_start = page_ceil text_end;
  image_data : rodata_start < rodata_end /\ data_rel_ro_start = page_ceil rodata_end;
  image_last : data_rel_ro_start < kernel_end /\ kernel_end = KERNEL_BASE + kernel_physical_end;
  image_end_aligned : kernel_physical_end mod 4096 = 0;
  image_fits : kernel_physical_end <= DOOM_OS_EARLY_MAP_SIZE;
  static_aligned n : table_number n -> static_address n mod 4096 = 0;
  static_in_image n : table_number n ->
    data_rel_ro_start <= static_address n /\ static_address n + 4096 <= kernel_end;
  static_distinct m n : table_number m -> table_number n -> static_address m = static_address n -> m = n;
}.
End Image.

(** ** The tables of the image *)
Section Static.
Context `{layout_ok} `{image} `{!image_ok}.

Definition static (n : Z) : Z := image_phys (static_address n).

Lemma direct_count : DIRECT_MAP_SIZE = DIRECT_PD_COUNT * 2 ^ 30 /\ 1 <= DIRECT_PD_COUNT <= 127.
Proof.
  unfold DIRECT_PD_COUNT, DIRECT_MAP_SIZE. pose proof layout_aligned as Ha. pose proof max_memory_range as Hr.
  change (bytes_in SIZE_1G) with (2 ^ 30) in Ha. change PAGE_1G with (2 ^ 30).
  change (2 ^ 37) with (128 * 2 ^ 30) in Hr. div_lia.
Qed.

(** The sections, as offsets in the kernel's window. *)
Lemma image_order :
  0 <= boot_start /\ KERNEL_BASE + boot_start <= text_start < rodata_start /\
  rodata_start < data_rel_ro_start < kernel_end /\ text_start mod 4096 = 0 /\
  rodata_start mod 4096 = 0 /\ data_rel_ro_start mod 4096 = 0 /\ kernel_end mod 4096 = 0 /\
  kernel_end <= KERNEL_BASE + 2 ^ 30 /\ kernel_end = KERNEL_BASE + kernel_physical_end.
Proof.
  destruct image_text, image_rodata as [? Hr], image_data as [? Hd], image_last as [? He].
  pose proof image_end_aligned. pose proof image_fits. pose proof layout_image.
  unfold page_ceil, DOOM_OS_EARLY_MAP_SIZE, KERNEL_BASE in *.
  split; [lia|]. rewrite He, Hd, Hr in *. clear Hr Hd He. repeat split; div_lia.
Qed.

Lemma static_phys n : table_number n -> static n = static_address n - KERNEL_BASE.
Proof.
  intros Hn. destruct (static_in_image n Hn). pose proof image_order. apply wrap_small.
  unfold in_width, KERNEL_BASE in *. lia.
Qed.

Lemma static_range n : table_number n ->
  boot_start <= static n /\ static n + 4096 <= kernel_physical_end /\ static n + 4096 <= MAX_PHYSICAL_MEMORY /\
  static n mod 4096 = 0 /\ addressable (static n).
Proof.
  intros Hn. destruct (static_in_image n Hn) as [Hl Hr]. pose proof image_order. pose proof direct_count.
  pose proof (static_aligned n Hn) as Ha. pose proof max_memory_range. unfold addressable.
  rewrite static_phys by done. unfold DIRECT_MAP_SIZE, KERNEL_BASE in *.
  assert ((static_address n - 0xffffffff80000000) mod 4096 = 0) by (clear Hl Hr; div_lia).
  change (2 ^ 52) with 4503599627370496. change (2 ^ 37) with 137438953472 in *. lia.
Qed.

Lemma static_injective m n : table_number m -> table_number n -> static m = static n -> m = n.
Proof.
  intros Hm Hn. rewrite !static_phys by done. intros E. apply static_distinct; [done..|]. lia.
Qed.

(** The entries of the tables are [g]; all but memory is as in [s0]. *)
Record contents (g : Z -> Z -> Z) (s0 s : mmu) : Prop := {
  contents_allocator : allocator s = allocator s0;
  contents_core : core s = core s0;
  contents_flags : flags s = flags s0;
  contents_root : kernel_root s = kernel_root s0;
  contents_word n i : table_number n -> 0 <= i < 512 -> entry_at s (static n) i = g n i;
}.

Definition update (g : Z -> Z -> Z) (n i x : Z) : Z -> Z -> Z :=
  fun m j => if (m =? n) && (j =? i) then x else g m j.

Lemma contents_ext g g' s0 s :
  contents g s0 s -> (forall n i, table_number n -> 0 <= i < 512 -> g n i = g' n i) -> contents g' s0 s.
Proof. intros [? ? ? ? Hw] E. split; [done..|]. intros n i Hn Hi. rewrite <- E by done. by apply Hw. Qed.

Lemma wp_set_entry g s0 s n a i x (Q : unit -> mmu -> Prop) :
  contents g s0 s -> table_number n -> a = static_address n -> 0 <= i < 512 ->
  (forall s', contents (update g n i x) s0 s' -> Q tt s') -> wp (set_entry a i x) Q s.
Proof.
  intros [? ? ? ? Hw] Hn -> Hi HQ. unfold set_entry. change Radix9.ENTRIES with 512.
  destruct (Z.leb_spec 0 i), (Z.ltb_spec i 512); try lia. cbn [andb]. unfold store.
  fold (static n). destruct (static_range n Hn) as (_ & _ & _ & Ha & _). rewrite word_aligned by done.
  apply wp_modify, HQ. split; [done..|]. intros m j Hm Hj.
  destruct (static_range m Hm) as (_ & _ & _ & Ham & _). rewrite entry_at_set by done. unfold update.
  rewrite <- Hw by done. case_decide as E.
  - destruct E as [E ->]. apply static_injective in E as ->; [|done..]. by rewrite !Z.eqb_refl.
  - destruct (Z.eqb_spec m n) as [->|], (Z.eqb_spec j i) as [->|]; cbn [andb]; try done. destruct E. done.
Qed.

Lemma wp_direct_pd i (Q : Z -> mmu -> Prop) s :
  0 <= i < DIRECT_PD_COUNT -> Q (static_address (4 + i)) s -> wp (direct_pd i) Q s.
Proof.
  intros Hi HQ. unfold direct_pd. destruct (Z.leb_spec 0 i), (Z.ltb_spec i DIRECT_PD_COUNT); try lia.
  cbn [andb]. apply wp_ret. unfold static_address in HQ. destruct_comparisons; try lia.
  all: destruct (Z.eqb_spec (4 + i) 0), (Z.eqb_spec (4 + i) 1), (Z.eqb_spec (4 + i) 2), (Z.eqb_spec (4 + i) 3); try lia.
  all: by replace (4 + i - 4) with i in HQ by lia.
Qed.
End Static.

(** ** Filling the tables *)

Lemma radix9_index l va : 1 <= l <= 4 -> 0 <= va -> Radix9.index l va = va / 2 ^ (3 + 9 * l) mod 512.
Proof. exact (@index_eq features_init l va). Qed.

(** [N] leaves of 2 MiB in table [n], from entry [i0] and the physical address [pa]. *)
Definition filled (f : features) (n i0 N pa : Z) (prot : page_prot) (g : Z -> Z -> Z) : Z -> Z -> Z :=
  fun m j => if (m =? n) && ((i0 <=? j) && (j <? i0 + N))
             then paging_leaf_entry (pa + (j - i0) * 2 ^ 21) SIZE_2M prot else g m j.

(** Block [b] of 2 MiB has a byte of a region that the direct map covers. *)
Definition touches `{layout} (b : Z) (r : memory_region) : bool :=
  negb (bool_decide (region_kind r = DEFECTIVE)) && negb (region_length r =? 0) &&
  (region_base r <? (b + 1) * 2 ^ 21) && (b * 2 ^ 21 <? Z.min DIRECT_MAP_SIZE (region_base r + region_length r)).

Definition direct_mapped `{layout} (boot : info) (b : Z) : bool :=
  existsb (touches b) (InplaceVector.elements (memory_map boot)).

(** The blocks [c] of the direct map. *)
Definition direct_filled (f : features) (c : Z -> bool) (g : Z -> Z -> Z) : Z -> Z -> Z :=
  fun n j => let b := 512 * (n - 4) + j in
    if (4 <=? n) && c b then paging_leaf_entry (b * 2 ^ 21) SIZE_2M KERNEL_DATA else g n j.

Definition region_typed (r : memory_region) : Prop := 0 <= region_base r < 2 ^ 64 /\ 0 <= region_length r < 2 ^ 64.

(** The first three tables, which lead to the others. *)
Definition linked (s : Z -> Z) : Z -> Z -> Z := fun n i =>
  if n =? 0 then if i =? 511 then paging_table_entry (s 1) else if i =? 256 then paging_table_entry (s 3) else 0
  else if n =? 1 then if i =? 510 then paging_table_entry (s 2) else 0
  else 0.

Section Filling.
Context `{layout_ok} `{image} `{!image_ok} (s0 : mmu).

Abbreviation features_now := (flags s0).

Lemma wp_fill_2m g s n pd va pa N i0 prot (Q : unit -> mmu -> Prop) :
  contents g s0 s -> table_number n -> pd = static_address n -> 0 <= N -> 0 <= pa -> pa + N * 2 ^ 21 <= 2 ^ 52 ->
  0 <= va -> va mod 2 ^ 21 = 0 -> va + N * 2 ^ 21 < 2 ^ 64 -> i0 = va / 2 ^ 21 mod 512 -> i0 + N <= 512 ->
  (forall s', contents (filled features_now n i0 N pa prot g) s0 s' -> Q tt s') ->
  wp (fill_2m pd va pa (N * 2 ^ 21) prot) Q s.
Proof.
  intros Hs Hn Hpd HN Hpa Hmax Hva Hal Hend Hi HiN HQ. unfold fill_2m. change PAGE_2M with (2 ^ 21).
  rewrite Z.div_mul by lia. apply wp_bind.
  apply wp_while with (variant := fun o _ => N - o / 2 ^ 21)
    (Inv := fun o s' => exists k, 0 <= k <= N /\ o = k * 2 ^ 21 /\
       contents (filled features_now n i0 k pa prot g) s0 s').
  - exists 0. split; [lia|]. split; [done|]. eapply contents_ext; [exact Hs|]. intros m j _ _. unfold filled.
    destruct_comparisons; done || lia.
  - rewrite Z.div_0_l by lia. lia.
  - intros o s' (k & Hk & -> & Hs') _. rewrite Z.div_mul by lia. apply wp_ret.
    destruct (Z.ltb_spec (k * 2 ^ 21) (N * 2 ^ 21)) as [Hlt|Hge].
    + wp_steps. rewrite (contents_flags _ _ _ Hs'). unfold u64. rewrite !wrap_small by (unfold in_width; lia).
      assert (Hix : Radix9.index 2 (va + k * 2 ^ 21) = i0 + k).
      { rewrite radix9_index by lia. change (3 + 9 * 2) with 21. rewrite Z.div_add by lia. div_lia. }
      rewrite Hix. assert (0 <= i0) by div_lia.
      eapply (wp_set_entry _ s0 s' n); [exact Hs' | done | done | lia |]. intros s2 Hs2. wp_steps.
      replace (k * 2 ^ 21 + 2 ^ 21) with ((k + 1) * 2 ^ 21) by lia. rewrite Z.div_mul by lia.
      split; [|lia]. exists (k + 1). split; [lia|]. split; [done|]. eapply contents_ext; [exact Hs2|].
      intros m j _ _. unfold filled, update.
      destruct (Z.eqb_spec m n), (Z.eqb_spec j (i0 + k)) as [->|]; cbn [andb]; try done.
      * destruct_comparisons; try lia. cbn [andb]. by replace (i0 + k - i0) with k by lia.
      * destruct_comparisons; try lia; done.
    + wp_steps. apply HQ. by replace k with N in Hs' by lia.
Qed.

Lemma wp_link_tables s (Q : unit -> mmu -> Prop) :
  contents (fun _ _ => 0) s0 s ->
  (forall s', contents (fun n i => if (n =? 3) && (i <? DIRECT_PD_COUNT) then paging_table_entry (static (4 + i))
                                   else linked static n i) s0 s' -> Q tt s') ->
  wp link_tables Q s.
Proof.
  intros Hs HQ. unfold link_tables. pose proof direct_count as [_ Hc].
  assert (Hn : forall n, 0 <= n <= 3 -> table_number n) by (intros n Hn; unfold table_number; lia).
  change (image_phys m_kernel_pdpt) with (static 1). change (image_phys m_kernel_pd) with (static 2).
  change (image_phys m_direct_pdpt) with (static 3).
  change (Radix9.index 4 KERNEL_BASE) with 511. change (Radix9.index 3 KERNEL_BASE) with 510.
  change (Radix9.index 4 DIRECT_MAP_BASE) with 256.
  apply wp_bind; eapply (wp_set_entry _ s0 s 0); [exact Hs | apply Hn; lia | done | lia |]. intros s1 Hs1.
  apply wp_bind; eapply (wp_set_entry _ s0 s1 0); [exact Hs1 | apply Hn; lia | done | lia |]. intros s2 Hs2.
  apply wp_bind; eapply (wp_set_entry _ s0 s2 1); [exact Hs2 | apply Hn; lia | done | lia |]. intros s3 Hs3.
  apply wp_bind; eapply (wp_set_entry _ s0 s3 0); [exact Hs3 | apply Hn; lia | done | lia |]. intros s4 Hs4.
  apply wp_for_range with (Inv := fun i s' => contents (fun n j =>
    if (n =? 3) && (j <? i) then paging_table_entry (static (4 + j)) else linked static n j) s0 s').
  - eapply contents_ext; [exact Hs4|]. intros n i _ Hi. unfold update, linked.
    destruct (Z.eqb_spec n 0) as [->|]; [cbn; destruct_comparisons; lia || done|].
    destruct (Z.eqb_spec n 1) as [->|]; [cbn; destruct_comparisons; lia || done|].
    cbn. destruct_comparisons; lia || by rewrite ?andb_false_r.
  - intros i s' Hi Hs'. apply wp_bind, wp_direct_pd; [done|].
    eapply (wp_set_entry _ s0 s' 3); [exact Hs' | apply Hn; lia | done | lia |]. intros s5 Hs5.
    eapply contents_ext; [exact Hs5|]. intros n j _ Hj. unfold update. fold (static (4 + i)).
    destruct (Z.eqb_spec n 3) as [->|]; cbn [andb]; [|done].
    destruct (Z.eqb_spec j i) as [->|]; destruct_comparisons; lia || done.
  - intros s' Hs'. apply HQ. by rewrite Z.max_r in Hs' by lia.
Qed.

Lemma wp_assoc {A B C} (m : kernel mmu A) (f : A -> kernel mmu B) (k : kernel mmu C) (Q : C -> mmu -> Prop) s :
  wp (a ← m; f a) (fun _ => wp k Q) s -> wp (a ← m; f a;; k) Q s.
Proof.
  unfold wp, mbind, kernel_bind. destruct (m s) as [[a s']| | |]; try done.
  by destruct (f a s') as [[b s2]| | |].
Qed.

(** One block of the direct map. *)
Lemma wp_fill_direct_block g s b (Q : unit -> mmu -> Prop) :
  contents g s0 s -> 0 <= b < 512 * DIRECT_PD_COUNT ->
  (forall s', contents (direct_filled features_now (Z.eqb b) g) s0 s' -> Q tt s') ->
  wp (pd ← direct_pd (b * 2 ^ 21 / PAGE_1G);
      fill_2m pd (u64 (DIRECT_MAP_BASE + b * 2 ^ 21)) (b * 2 ^ 21) PAGE_2M KERNEL_DATA) Q s.
Proof.
  intros Hs Hb HQ. pose proof direct_count as [_ Hc].
  assert (Hdiv : b * 2 ^ 21 / PAGE_1G = b / 512).
  { change PAGE_1G with (512 * 2 ^ 21). apply Z.div_mul_cancel_r; lia. }
  rewrite Hdiv. assert (Hi : 0 <= b / 512 < DIRECT_PD_COUNT) by div_lia.
  apply wp_bind, wp_direct_pd; [done|]. unfold u64. rewrite wrap_small by (unfold in_width, DIRECT_MAP_BASE; lia).
  change PAGE_2M with (1 * 2 ^ 21).
  apply (wp_fill_2m g s (4 + b / 512) _ _ _ 1 (b mod 512)); try done.
  - unfold table_number. lia.
  - lia.
  - change (2 ^ 52) with (2 ^ 31 * 2 ^ 21). lia.
  - unfold DIRECT_MAP_BASE. lia.
  - unfold DIRECT_MAP_BASE. div_lia.
  - unfold DIRECT_MAP_BASE. lia.
  - unfold DIRECT_MAP_BASE. div_lia.
  - div_lia.
  - intros s' Hs'. apply HQ. eapply contents_ext; [exact Hs'|]. intros n j Hn Hj. unfold filled, direct_filled.
    assert (Heq : (4 <=? n) && (b =? 512 * (n - 4) + j) =
      (n =? 4 + b / 512) && ((b mod 512 <=? j) && (j <? b mod 512 + 1))).
    { clear - Hb Hj. destruct_comparisons; cbn [andb]; try done; exfalso; div_lia. }
    rewrite Heq. destruct ((n =? _) && _) eqn:E0; [|done]. f_equal. rewrite !andb_true_iff in E0.
    destruct E0 as (E1 & E2 & E3). apply Z.eqb_eq in E1. apply Z.leb_le in E2. apply Z.ltb_lt in E3.
    subst n. clear - Hb Hj E2 E3. div_lia.
Qed.

Lemma direct_filled_or g c c' c2 :
  (forall b, 0 <= b < 512 * DIRECT_PD_COUNT -> c2 b = c b || c' b) ->
  forall n i, table_number n -> 0 <= i < 512 ->
  direct_filled features_now c' (direct_filled features_now c g) n i = direct_filled features_now c2 g n i.
Proof.
  intros Hc n i Hn Hi. unfold direct_filled. destruct (Z.leb_spec 4 n); cbn [andb]; [|done].
  unfold table_number in Hn. rewrite Hc by lia. by destruct (c _), (c' _).
Qed.

Lemma direct_filled_none g c :
  (forall b, 0 <= b < 512 * DIRECT_PD_COUNT -> c b = false) ->
  forall n i, table_number n -> 0 <= i < 512 -> direct_filled features_now c g n i = g n i.
Proof.
  intros Hc n i Hn Hi. unfold direct_filled. destruct (Z.leb_spec 4 n); cbn [andb]; [|done].
  unfold table_number in Hn. by rewrite Hc by lia.
Qed.

Lemma wp_fill_region g s r (Q : unit -> mmu -> Prop) :
  contents g s0 s -> region_typed r ->
  (forall s', contents (direct_filled features_now (fun b => touches b r) g) s0 s' -> Q tt s') ->
  wp (fill_region r) Q s.
Proof.
  intros Hs [Hb Hl] HQ. unfold fill_region. pose proof direct_count as [Hsz Hc].
  pose proof max_memory_range as Hmr. fold DIRECT_MAP_SIZE in Hmr.
  destruct (_ || _ || _) eqn:Eskip.
  { apply wp_ret, HQ. eapply contents_ext; [exact Hs|]. intros n i Hn Hi. symmetry.
    apply direct_filled_none; [|done..]. intros b Hbb. unfold touches.
    rewrite !orb_true_iff, Z.eqb_eq, Z.leb_le in Eskip. destruct Eskip as [[E0|E0]|E0].
    - by rewrite E0.
    - by rewrite (proj2 (Z.eqb_eq _ _) E0), andb_false_r.
    - destruct (Z.ltb_spec (region_base r) ((b + 1) * 2 ^ 21)); [lia | by rewrite andb_false_r]. }
  rewrite !orb_false_iff, Z.eqb_neq, Z.leb_gt in Eskip. destruct Eskip as [[Ek Hnz] Hlt].
  cbv zeta. assert (Hu : u64 (DIRECT_MAP_SIZE - region_base r) = DIRECT_MAP_SIZE - region_base r)
    by (apply wrap_small; unfold in_width; lia).
  rewrite Hu. clear Hu.
  set (stop := Z.min DIRECT_MAP_SIZE (region_base r + region_length r)).
  assert (Hstop : (if DIRECT_MAP_SIZE - region_base r <? region_length r then DIRECT_MAP_SIZE
    else u64 (region_base r + region_length r)) = stop).
  { unfold stop, u64. destruct (Z.ltb_spec (DIRECT_MAP_SIZE - region_base r) (region_length r)); [lia|].
    rewrite wrap_small by (unfold in_width; lia). lia. }
  rewrite Hstop. change PAGE_2M with (2 ^ 21).
  assert (Hfirst : align_down 64 (region_base r) (2 ^ 21) = region_base r / 2 ^ 21 * 2 ^ 21).
  { rewrite align_down_eq by (lia || unfold in_width; lia). div_lia. }
  assert (Hlast : align_up 64 stop (2 ^ 21) = (stop + 2 ^ 21 - 1) / 2 ^ 21 * 2 ^ 21).
  { rewrite align_up_no_wrap by (unfold in_width; lia). div_lia. }
  rewrite Hfirst, Hlast. set (x := region_base r / 2 ^ 21). set (y := (stop + 2 ^ 21 - 1) / 2 ^ 21).
  assert (Hxy : 0 <= x <= y /\ y <= 512 * DIRECT_PD_COUNT) by (unfold x, y; clear Hfirst Hlast; div_lia).
  assert (Htouch : forall b, touches b r = (x <=? b) && (b <? y)).
  { intros b. unfold touches. rewrite Ek, (proj2 (Z.eqb_neq _ _) Hnz). cbn [negb andb]. fold stop.
    unfold x, y. clear - Hb. destruct_comparisons; cbn [andb]; try done; exfalso; div_lia. }
  clearbody x y stop. clear Hfirst Hlast Hstop.
  rewrite <- Z.mul_sub_distr_r, Z.div_mul by lia. apply wp_bind.
  apply wp_while with (variant := fun pa _ => y - pa / 2 ^ 21)
    (Inv := fun pa s' => exists k, x <= k <= y /\ pa = k * 2 ^ 21 /\
       contents (direct_filled features_now (fun b => (x <=? b) && (b <? k)) g) s0 s').
  - exists x. split; [lia|]. split; [done|]. eapply contents_ext; [exact Hs|]. intros n i Hn Hi. symmetry.
    apply direct_filled_none; [|done..]. intros b _. destruct_comparisons; lia || done.
  - rewrite Z.div_mul by lia. lia.
  - intros pa s' (k & Hk & -> & Hs') _. rewrite Z.div_mul by lia. apply wp_ret.
    destruct (Z.ltb_spec (k * 2 ^ 21) (y * 2 ^ 21)).
    + apply wp_assoc. apply (wp_fill_direct_block _ s' k _ Hs' ltac:(lia)). intros s2 Hs2. apply wp_ret.
      unfold u64. rewrite wrap_small by (unfold in_width; lia).
      replace (k * 2 ^ 21 + 2 ^ 21) with ((k + 1) * 2 ^ 21) by lia. rewrite Z.div_mul by lia.
      split; [|lia]. exists (k + 1). split; [lia|]. split; [done|]. eapply contents_ext; [exact Hs2|].
      intros n i Hn Hi. apply direct_filled_or; [|done..]. intros b _. destruct_comparisons; lia || done.
    + apply wp_ret, HQ. eapply contents_ext; [exact Hs'|]. intros n i _ _. unfold direct_filled.
      rewrite Htouch. by replace k with y by lia.
Qed.

Lemma wp_fill_direct_map g s boot N (Q : unit -> mmu -> Prop) :
  contents g s0 s -> InplaceVectorFacts.wf N (memory_map boot) ->
  Forall region_typed (InplaceVector.elements (memory_map boot)) ->
  (forall s', contents (direct_filled features_now (direct_mapped boot) g) s0 s' -> Q tt s') ->
  wp (fill_direct_map boot) Q s.
Proof.
  intros Hs [Hlen Hsz] Ht HQ. unfold fill_direct_map, direct_mapped in *.
  set (l := InplaceVector.elements (memory_map boot)) in *.
  assert (Hll : zlen l = InplaceVector.m_size (memory_map boot)) by (apply zlen_take; lia).
  apply wp_for_range with (Inv := fun i s' => contents
    (direct_filled features_now (fun b => existsb (touches b) (firstn (Z.to_nat i) l)) g) s0 s').
  - eapply contents_ext; [exact Hs|]. intros n i Hn Hi. symmetry. by apply direct_filled_none.
  - intros i s' Hi Hs'. apply wp_bind, wp_observe, wp_zoom, wp_array_get; [lia|].
    set (x := znth (InplaceVector.m_items (memory_map boot)) i).
    assert (Hx : firstn (Z.to_nat (i + 1)) l = firstn (Z.to_nat i) l ++ [x]).
    { replace (Z.to_nat (i + 1)) with (Datatypes.S (Z.to_nat i)) by lia. apply take_S_r.
      unfold l, InplaceVector.elements. rewrite lookup_take_lt by lia.
      apply list_lookup_lookup_total_lt. unfold zlen in Hlen. lia. }
    rewrite <- (take_drop (Z.to_nat (i + 1)) l), Hx, !Forall_app in Ht. destruct Ht as [[_ Hr%Forall_inv] _].
    apply (wp_fill_region _ s' x _ Hs' Hr). intros s2 Hs2. eapply contents_ext; [exact Hs2|]. intros n j Hn Hj.
    apply direct_filled_or; [|done..]. intros b _. rewrite Hx, existsb_app. cbn [existsb].
    by rewrite orb_false_r.
  - intros s' Hs'. apply HQ. eapply contents_ext; [exact Hs'|]. intros n j _ _. unfold direct_filled.
    rewrite firstn_all2 by (unfold zlen in Hll; lia). done.
Qed.
End Filling.

(** ** The first tree *)

(** The protection of the kernel's window before its sections are protected. *)
Definition WINDOW_PROT : page_prot := prot_or (prot_or PROT_WRITE PROT_EXEC) PROT_GLOBAL.

Section FirstTree.
Context `{layout_ok} `{image} `{!image_ok} `{features} `{space_frame}.

(** The entries of the first tree. *)
Definition first_word (boot : info) : Z -> Z -> Z :=
  direct_filled _ (direct_mapped boot)
    (filled _ 2 0 (kernel_window_size / 2 ^ 21) 0 WINDOW_PROT
      (fun n i => if (n =? 3) && (i <? DIRECT_PD_COUNT) then paging_table_entry (static (4 + i))
                  else linked static n i)).

(** The translation it denotes: the kernel's window, and the direct map. *)
Definition direct_view (boot : info) (va : Z) : option (Z * page_prot) :=
  if (DIRECT_MAP_BASE <=? va) && (va <? DIRECT_MAP_BASE + DIRECT_MAP_SIZE) &&
     direct_mapped boot ((va - DIRECT_MAP_BASE) / 2 ^ 21)
  then Some (va - DIRECT_MAP_BASE, granted KERNEL_DATA) else None.

Definition first_view (boot : info) (va : Z) : option (Z * page_prot) :=
  if (KERNEL_BASE <=? va) && (va <? KERNEL_BASE + kernel_window_size)
  then Some (va - KERNEL_BASE, granted WINDOW_PROT) else direct_view boot va.

Record first_tree (boot : info) (s : mmu) : Prop := {
  first_env : env_ok s;
  first_owned n : table_number n -> table_owned s (static n);
  first_words n i : table_number n -> 0 <= i < 512 -> entry_at s (static n) i = first_word boot n i;
}.

Context (boot : info) (s : mmu) (Hs : first_tree boot s).

Abbreviation at_level := (table_at (static 0) s).

Lemma window_range : 0 < kernel_window_size <= 2 ^ 30 /\ kernel_window_size mod 2 ^ 21 = 0 /\
  kernel_end <= KERNEL_BASE + kernel_window_size.
Proof.
  pose proof image_order as Ho. unfold kernel_window_size. change PAGE_2M with (2 ^ 21).
  rewrite align_up_no_wrap by (unfold in_width, KERNEL_BASE in *; lia).
  unfold KERNEL_BASE in *. div_lia.
Qed.

Lemma index_4 va : canonical va ->
  (index 4 va = 511 <-> va / 2 ^ 39 = 0x1FFFFFF) /\ (index 4 va = 256 <-> va / 2 ^ 39 = 0x1FFFF00).
Proof.
  intros [Hr Hv]. apply valid_eq in Hv. rewrite index_eq by lia. change (3 + 9 * 4) with 39.
  change (2 ^ 47) with (2 ^ 39 * 2 ^ 8) in Hv. rewrite <- Z.div_div in Hv by lia.
  set (a := va / 2 ^ 39) in *. clearbody a. clear Hr. div_lia.
Qed.

Lemma index_3 va : 0 <= va -> index 3 va = va / 2 ^ 30 mod 512.
Proof. intros Hva. by rewrite index_eq by lia. Qed.

Lemma index_2 va : 0 <= va -> index 2 va = va / 2 ^ 21 mod 512.
Proof. intros Hva. by rewrite index_eq by lia. Qed.

Lemma static_links n l : table_number n -> 1 < l <= 4 ->
  links (paging_table_entry (static n)) l = true /\ paging_address (paging_table_entry (static n)) = static n.
Proof.
  intros Hn Hl. destruct (static_range n Hn) as (_ & _ & _ & _ & Ha).
  destruct (table_entry_ok (static n) Ha) as (H1' & H2' & H3').
  split; [|exact H2']. unfold links. cbn [present leaf paging] in *.
  change (table_entry (static n)) with (paging_table_entry (static n)) in *. by rewrite H1', H3'.
Qed.

Lemma table_numbers : table_number 0 /\ table_number 1 /\ table_number 2 /\ table_number 3.
Proof. pose proof direct_count. unfold table_number. lia. Qed.

Lemma first_step va l : 1 < l <= 4 ->
  at_level va (l - 1) =
  match at_level va l with
  | Some t => let e := entry_at s t (index l va) in if links e l then Some (paging_address e) else None
  | None => None
  end.
Proof. intros Hl. pose proof (table_at_step (F := paging) (static 0) s va l Hl) as E0. cbv zeta in *. cbn [word kernel_env_laws address paging] in E0. exact E0. Qed.

Lemma first_table_3 va : canonical va ->
  at_level va 3 = if index 4 va =? 511 then Some (static 1) else if index 4 va =? 256 then Some (static 3) else None.
Proof.
  intros Hva. destruct table_numbers as (N0 & N1 & N2 & N3).
  assert (E4 : at_level va 4 = Some (static 0)) by exact (table_at_top (static 0) s va).
  change 3 with (4 - 1) at 1. rewrite first_step, E4 by lia. cbv zeta.
  assert (Hi : 0 <= index 4 va < 512) by (apply (index_bounds (F := paging)); [cbn; lia | done]).
  rewrite (first_words _ _ Hs) by done. unfold first_word, direct_filled, filled, linked.
  cbn [Z.leb Z.eqb Z.compare andb Pos.compare Pos.compare_cont].
  destruct (Z.eqb_spec (index 4 va) 511) as [E|]; [|destruct (Z.eqb_spec (index 4 va) 256) as [E|]; [|done]].
  - destruct (static_links 1 4 N1 ltac:(lia)) as [HL HA]. rewrite HL. f_equal. exact HA.
  - destruct (static_links 3 4 N3 ltac:(lia)) as [HL HA]. rewrite HL. f_equal. exact HA.
Qed.

Lemma canonical_index l va : 1 <= l <= 4 -> canonical va -> 0 <= index l va < 512.
Proof. intros Hl Hva. by apply (index_bounds (F := paging)). Qed.

Lemma first_table_2 va : canonical va ->
  at_level va 2 =
  if index 4 va =? 511 then if index 3 va =? 510 then Some (static 2) else None
  else if index 4 va =? 256 then if index 3 va <? DIRECT_PD_COUNT then Some (static (4 + index 3 va)) else None
  else None.
Proof.
  intros Hva. destruct table_numbers as (N0 & N1 & N2 & N3). pose proof direct_count as [_ Hc].
  change 2 with (3 - 1) at 1. rewrite first_step, first_table_3 by (done || lia). cbv zeta.
  assert (Hi : 0 <= index 3 va < 512) by (apply canonical_index; [lia | done]).
  destruct (Z.eqb_spec (index 4 va) 511) as [|]; [|destruct (Z.eqb_spec (index 4 va) 256) as [|]; [|done]].
  - rewrite (first_words _ _ Hs) by done. unfold first_word, direct_filled, filled, linked.
    cbn [Z.leb Z.eqb Z.compare Pos.eqb andb Pos.compare Pos.compare_cont].
    destruct (Z.eqb_spec (index 3 va) 510) as [E|]; [|done].
    destruct (static_links 2 3 N2 ltac:(lia)) as [HL HA]. rewrite HL. f_equal. exact HA.
  - rewrite (first_words _ _ Hs) by done. unfold first_word, direct_filled, filled, linked.
    cbn [Z.leb Z.eqb Z.compare Pos.eqb andb Pos.compare Pos.compare_cont].
    destruct (Z.ltb_spec (index 3 va) DIRECT_PD_COUNT) as [E|]; [|done].
    destruct (static_links (4 + index 3 va) 3) as [HL HA]; [unfold table_number; lia | lia |].
    rewrite HL. f_equal. exact HA.
Qed.

(** The entries of the last tables: leaves of 2 MiB, or nothing. *)
Definition window_word (i : Z) : Z :=
  if i <? kernel_window_size / 2 ^ 21 then paging_leaf_entry (i * 2 ^ 21) SIZE_2M WINDOW_PROT else 0.

Definition direct_word (b : Z) : Z :=
  if direct_mapped boot b then paging_leaf_entry (b * 2 ^ 21) SIZE_2M KERNEL_DATA else 0.

Lemma first_window_word i : 0 <= i < 512 -> entry_at s (static 2) i = window_word i.
Proof.
  intros Hi. destruct table_numbers as (N0 & N1 & N2 & N3). rewrite (first_words _ _ Hs) by done.
  unfold first_word, direct_filled, filled, linked, window_word.
  cbn [Z.leb Z.eqb Z.compare Pos.eqb andb Pos.compare Pos.compare_cont].
  rewrite Z.sub_0_r, !Z.add_0_l. destruct (Z.leb_spec 0 i); [done | lia].
Qed.

Lemma first_direct_word k i : 0 <= k < DIRECT_PD_COUNT -> 0 <= i < 512 ->
  entry_at s (static (4 + k)) i = direct_word (512 * k + i).
Proof.
  intros Hk Hi. rewrite (first_words _ _ Hs) by (unfold table_number; lia).
  unfold first_word, direct_filled, direct_word. destruct (Z.leb_spec 4 (4 + k)); [|lia]. cbn [andb].
  replace (4 + k - 4) with k by lia. destruct (direct_mapped _ _); [done|]. unfold filled, linked.
  destruct (Z.eqb_spec (4 + k) 2), (Z.eqb_spec (4 + k) 3), (Z.eqb_spec (4 + k) 0), (Z.eqb_spec (4 + k) 1); lia || done.
Qed.

Lemma block_leaf b prot : 0 <= b < 2 ^ 31 ->
  let e := paging_leaf_entry (b * 2 ^ 21) SIZE_2M prot in
  paging_present e = true /\ paging_leaf e 2 = true /\ paging_address e = b * 2 ^ 21 /\ paging_prot e = granted prot.
Proof.
  intros Hb. apply (leaf_entry_fields 2); [lia|]. unfold addressable. change (2 ^ 52) with (2 ^ 31 * 2 ^ 21).
  split; [lia|]. div_lia.
Qed.

Lemma window_word_cases i : 0 <= i < 512 ->
  window_word i = 0 \/ paging_present (window_word i) = true /\ paging_leaf (window_word i) 2 = true /\
    paging_address (window_word i) = i * 2 ^ 21.
Proof.
  intros Hi. unfold window_word. destruct (i <? _); [right | by left].
  by destruct (block_leaf i WINDOW_PROT) as (? & ? & ? & _); [lia|].
Qed.

Lemma direct_word_cases b : 0 <= b < 2 ^ 31 ->
  direct_word b = 0 \/ paging_present (direct_word b) = true /\ paging_leaf (direct_word b) 2 = true /\
    paging_address (direct_word b) = b * 2 ^ 21.
Proof.
  intros Hb. unfold direct_word. destruct (direct_mapped _ _); [right | by left].
  by destruct (block_leaf b KERNEL_DATA) as (? & ? & ? & _).
Qed.

(** The entry of level 2 of an address. *)
Lemma first_word_2 va t : canonical va -> at_level va 2 = Some t ->
  let e := entry_at s t (index 2 va) in
  e = 0 \/ paging_present e = true /\ paging_leaf e 2 = true /\
    paging_address e mod 2 ^ 21 = 0 /\ paging_address e + 2 ^ 21 <= 2 ^ 52.
Proof.
  intros Hva Ht. rewrite first_table_2 in Ht by done. pose proof direct_count as [_ Hc].
  pose proof (canonical_index 2 va ltac:(lia) Hva) as H2'. pose proof (canonical_index 3 va ltac:(lia) Hva) as H3'.
  assert (Hblock : forall b, 0 <= b < 2 ^ 20 -> (b * 2 ^ 21) mod 2 ^ 21 = 0 /\ b * 2 ^ 21 + 2 ^ 21 <= 2 ^ 52) by (intros; div_lia).
  cbv zeta. destruct (_ =? 511); [destruct (_ =? 510); [|done] | destruct (_ =? 256); [|done];
    destruct (Z.ltb_spec (index 3 va) DIRECT_PD_COUNT); [|done]]; apply (inj Some) in Ht as <-.
  - rewrite first_window_word by done. destruct (window_word_cases _ H2') as [->|(? & ? & ->)]; [by left|].
    right. split; [done|]. split; [done|]. apply Hblock. lia.
  - rewrite (first_direct_word (index 3 va) (index 2 va)) by (done || lia).
    destruct (direct_word_cases (512 * index 3 va + index 2 va)) as [->|(? & ? & ->)]; [lia | by left|].
    right. split; [done|]. split; [done|]. apply Hblock. lia.
Qed.

Lemma first_table_1 va : canonical va -> at_level va 1 = None.
Proof.
  intros Hva. change 1 with (2 - 1) at 1. rewrite first_step by lia. cbv zeta.
  destruct (at_level va 2) as [t|] eqn:Ht; [|done].
  destruct (first_word_2 va t Hva Ht) as [->|(Hp & Hl & _)]; [done|].
  unfold links. cbn [present leaf paging]. by rewrite Hl, andb_false_r.
Qed.

(** Where a table of the image is in the tree. *)
Definition home (n l va : Z) : Prop :=
  n = 0 /\ l = 4 \/ n = 1 /\ l = 3 /\ va / 2 ^ 39 = 0x1FFFFFF \/ n = 3 /\ l = 3 /\ va / 2 ^ 39 = 0x1FFFF00 \/
  n = 2 /\ l = 2 /\ va / 2 ^ 30 = 0x3FFFFFFFE \/
  4 <= n /\ l = 2 /\ va / 2 ^ 30 = 0x3FFFE0000 + (n - 4).

Lemma first_home va l t : canonical va -> 1 <= l <= 4 -> at_level va l = Some t ->
  exists n, table_number n /\ t = static n /\ home n l va.
Proof.
  intros Hva Hl Ht. destruct table_numbers as (N0 & N1 & N2 & N3). pose proof direct_count as [_ Hc].
  destruct (index_4 va Hva) as [H511 H256]. pose proof (index_3 va (proj1 (proj1 Hva))) as Hi3.
  assert (Hq : va / 2 ^ 39 = va / 2 ^ 30 / 512) by (by rewrite Z.div_div).
  destruct (level_cases l Hl) as [->|[->|[->| ->]]].
  - by rewrite first_table_1 in Ht.
  - rewrite first_table_2 in Ht by done. unfold home.
    destruct (Z.eqb_spec (index 4 va) 511) as [E|].
    + destruct (Z.eqb_spec (index 3 va) 510) as [E3|]; [|done]. apply (inj Some) in Ht as <-. exists 2.
      split; [done|]. split; [done|]. apply H511 in E. rewrite Hi3 in E3. do 3 right. left.
      split; [done|]. split; [done|]. clear - E E3 Hq. div_lia.
    + destruct (Z.eqb_spec (index 4 va) 256) as [E|]; [|done].
      destruct (Z.ltb_spec (index 3 va) DIRECT_PD_COUNT) as [E3|]; [|done]. apply (inj Some) in Ht as <-.
      exists (4 + index 3 va). pose proof (canonical_index 3 va ltac:(lia) Hva).
      split; [unfold table_number; lia|]. split; [done|]. apply H256 in E. do 4 right.
      split; [lia|]. split; [done|]. rewrite Hi3. clear - E Hq. div_lia.
  - rewrite first_table_3 in Ht by done. unfold home.
    destruct (Z.eqb_spec (index 4 va) 511) as [E|]; [|destruct (Z.eqb_spec (index 4 va) 256) as [E|]; [|done]];
      apply (inj Some) in Ht as <-.
    + exists 1. apply H511 in E. tauto.
    + exists 3. apply H256 in E. tauto.
  - exists 0. split; [done|]. split; [|by left]. symmetry. apply (inj Some). rewrite <- Ht.
    symmetry. exact (table_at_top (static 0) s va).
Qed.

Lemma home_unique n va va' l l' : home n l va -> home n l' va' -> l = l' /\ same_page (l + 1) va va'.
Proof.
  intros Hv Hv'. unfold home in *.
  assert (E : l = l' /\ (l = 4 \/ l = 3 /\ va / 2 ^ 39 = va' / 2 ^ 39 \/ l = 2 /\ va / 2 ^ 30 = va' / 2 ^ 30)) by lia.
  destruct E as [<- E]. split; [done|]. unfold same_page.
  destruct E as [->|[[-> E]|[-> E]]]; [left; cbn; lia | right; exact E..].
Qed.

(** The upper entries lead to a table, or are empty. *)
Lemma upper_links va l t : canonical va -> l = 3 \/ l = 4 -> at_level va l = Some t ->
  paging_present (entry_at s t (index l va)) = true -> at_level va (l - 1) <> None.
Proof.
  intros Hva Hl Ht Hp. destruct table_numbers as (N0 & N1 & _ & N3).
  pose proof (canonical_index l va ltac:(lia) Hva).
  destruct Hl as [-> | ->]; cbn [Z.sub Z.add Z.opp Z.pos_sub Pos.pred_double].
  - rewrite first_table_3 in Ht by done. change (3 - 1) with 2. rewrite first_table_2 by done.
    destruct (_ =? 511); [|destruct (_ =? 256); [|done]]; apply (inj Some) in Ht as <-;
      rewrite (first_words _ _ Hs) in Hp by done; unfold first_word, direct_filled, filled, linked in Hp;
      cbn [Z.leb Z.eqb Z.compare Pos.eqb andb Pos.compare Pos.compare_cont] in Hp.
    + destruct (_ =? 510); [done | discriminate Hp].
    + destruct (_ <? _); [done | discriminate Hp].
  - assert (t = static 0) as ->.
    { apply (inj Some). rewrite <- Ht. exact (table_at_top (static 0) s va). }
    change (4 - 1) with 3. rewrite first_table_3 by done. rewrite (first_words _ _ Hs) in Hp by done.
    unfold first_word, direct_filled, filled, linked in Hp.
    cbn [Z.leb Z.eqb Z.compare Pos.eqb andb Pos.compare Pos.compare_cont] in Hp.
    destruct (_ =? 511); [done|]. destruct (_ =? 256); [done | discriminate Hp].
Qed.

Lemma first_tree_ok : tree_ok (static 0) s.
Proof.
  split; [apply Hs | | |].
  - intros va l t Hva Hl Ht. destruct (first_home va l t Hva Hl Ht) as (n & Hn & -> & _).
    by apply (first_owned _ _ Hs).
  - intros va va' l l' t Hva Hva' Hl Hl' Ht Ht'.
    destruct (first_home va l t Hva Hl Ht) as (n & Hn & -> & Hh).
    destruct (first_home va' l' _ Hva' Hl' Ht') as (n' & Hn' & E & Hh').
    apply static_injective in E as <-; [|done..]. by eapply home_unique.
  - intros va l t Hva Hl Ht. cbn [word kernel_env_laws present leaf address paging]. cbv zeta.
    intros Hp Hlf. assert (Hcases : l = 1 \/ l = 2 \/ l = 3 \/ l = 4) by (cbn in Hl; lia).
    destruct Hcases as [->|[->|H34]].
    + by rewrite first_table_1 in Ht.
    + destruct (first_word_2 va t Hva Ht) as [E|(_ & _ & HA & HB)]; [|by split].
      rewrite E in Hp. discriminate Hp.
    + destruct (upper_links va l t Hva H34 Ht Hp). rewrite first_step, Ht by lia. cbv zeta. unfold links.
      cbn [present leaf paging]. by rewrite Hlf, andb_false_r.
Qed.

Lemma first_unmapped va : canonical va -> at_level va 2 = None -> translation (static 0) s va = None.
Proof.
  intros Hva Hno. unfold translation. destruct (leaf_of _ s va) as [[l e]|] eqn:Hleaf; [exfalso | done].
  destruct (leaf_of_table (F := paging) (static 0) s va l e Hleaf) as (Hl & Hp & Hlf & t & Ht & ->).
  assert (Hcases : l = 1 \/ l = 2 \/ l = 3 \/ l = 4) by (cbn in Hl; lia).
  destruct Hcases as [->|[->|H34]]; [by rewrite first_table_1 in Ht | congruence |].
  destruct (upper_links va l t Hva H34 Ht Hp). rewrite first_step, Ht by lia. cbv zeta. unfold links.
  cbn [word kernel_env_laws] in Hlf. by rewrite Hlf, andb_false_r.
Qed.

Lemma first_mapped va t : canonical va -> at_level va 2 = Some t ->
  translation (static 0) s va =
  let e := entry_at s t (index 2 va) in
  if paging_present e then Some (paging_address e + va mod 2 ^ 21, paging_prot e) else None.
Proof.
  intros Hva Ht. unfold translation. rewrite (leaf_of_via (F := paging) (static 0) s va 2 t ltac:(cbn; lia) Ht).
  rewrite (resolve_step (F := paging)) by lia. cbn [word kernel_env_laws present leaf address paging]. cbv zeta.
  destruct (first_word_2 va t Hva Ht) as [->|(-> & -> & _)]; done.
Qed.

(** The addresses of the two windows, by their indices. *)
Lemma window_address va : canonical va ->
  index 4 va = 511 /\ index 3 va = 510 <-> KERNEL_BASE <= va < KERNEL_BASE + 2 ^ 30.
Proof.
  intros Hva. destruct (index_4 va Hva) as [-> _]. rewrite index_3 by apply Hva. destruct Hva as [Hr _].
  unfold KERNEL_BASE. split; intros Hx; [destruct Hx|split]; div_lia.
Qed.

Lemma direct_address va : canonical va ->
  index 4 va = 256 /\ index 3 va < DIRECT_PD_COUNT <-> DIRECT_MAP_BASE <= va < DIRECT_MAP_BASE + DIRECT_MAP_SIZE.
Proof.
  intros Hva. destruct (index_4 va Hva) as [_ ->]. rewrite index_3 by apply Hva. destruct Hva as [Hr _].
  destruct direct_count as [-> Hc]. unfold DIRECT_MAP_BASE. set (n := DIRECT_PD_COUNT) in *. clearbody n.
  split; intros Hx; [destruct Hx|split]; div_lia.
Qed.

Lemma window_translation va : canonical va -> KERNEL_BASE <= va < KERNEL_BASE + 2 ^ 30 ->
  translation (static 0) s va =
  if va <? KERNEL_BASE + kernel_window_size then Some (va - KERNEL_BASE, granted WINDOW_PROT) else None.
Proof.
  intros Hva Hw. destruct (proj2 (window_address va Hva) Hw) as [I4 I3].
  destruct window_range as (Hs' & Hm & _). pose proof (canonical_index 2 va ltac:(lia) Hva) as B2.
  rewrite (first_mapped va (static 2)); [|done | by rewrite first_table_2, I4, I3 by done]. cbv zeta.
  rewrite first_window_word by done. unfold window_word.
  assert (Hlt : (index 2 va <? kernel_window_size / 2 ^ 21) = (va <? KERNEL_BASE + kernel_window_size)).
  { rewrite (index_2 va (proj1 (proj1 Hva))). unfold KERNEL_BASE in *. apply eq_bool_prop_intro. rewrite !Is_true_true, !Z.ltb_lt.
    clear - Hw Hs' Hm. set (w := kernel_window_size) in *. clearbody w. split; intros; div_lia. }
  rewrite Hlt. destruct (Z.ltb_spec va (KERNEL_BASE + kernel_window_size)); [|done].
  destruct (block_leaf (index 2 va) WINDOW_PROT) as (-> & _ & -> & ->); [lia|]. do 2 f_equal.
  rewrite (index_2 va (proj1 (proj1 Hva))). unfold KERNEL_BASE in *. clear - Hw. div_lia.
Qed.

Lemma direct_translation va : canonical va -> DIRECT_MAP_BASE <= va < DIRECT_MAP_BASE + DIRECT_MAP_SIZE ->
  translation (static 0) s va = direct_view boot va.
Proof.
  intros Hva Hw. destruct (proj2 (direct_address va Hva) Hw) as [I4 I3]. destruct direct_count as [Hsz Hc].
  pose proof (canonical_index 2 va ltac:(lia) Hva) as B2. pose proof (canonical_index 3 va ltac:(lia) Hva) as B3.
  assert (Hb : 512 * index 3 va + index 2 va = (va - DIRECT_MAP_BASE) / 2 ^ 21).
  { rewrite (index_2 va (proj1 (proj1 Hva))), (index_3 va (proj1 (proj1 Hva))). unfold DIRECT_MAP_BASE in *. rewrite Hsz in Hw. clear - Hw Hc.
    set (n := DIRECT_PD_COUNT) in *. clearbody n. div_lia. }
  rewrite (first_mapped va (static (4 + index 3 va))); [|done |].
  2: { rewrite first_table_2, I4 by done. cbn [Z.eqb Pos.eqb]. destruct (Z.ltb_spec (index 3 va) DIRECT_PD_COUNT); [done | lia]. }
  cbv zeta. rewrite first_direct_word, Hb by (done || lia). unfold direct_word, direct_view.
  destruct (Z.leb_spec DIRECT_MAP_BASE va), (Z.ltb_spec va (DIRECT_MAP_BASE + DIRECT_MAP_SIZE)); try lia. cbn [andb].
  destruct (direct_mapped boot _); [|done].
  destruct (block_leaf ((va - DIRECT_MAP_BASE) / 2 ^ 21) KERNEL_DATA) as (-> & _ & -> & ->); [rewrite <- Hb; lia|].
  do 2 f_equal. unfold DIRECT_MAP_BASE in *. clear - Hw. div_lia.
Qed.

(** What the first tree translates. *)
Lemma first_translation va : canonical va -> translation (static 0) s va = first_view boot va.
Proof.
  intros Hva. destruct window_range as (Hws & _ & _). destruct direct_count as [Hsz Hc].
  unfold first_view.
  destruct (Z.leb_spec KERNEL_BASE va), (Z.ltb_spec va (KERNEL_BASE + 2 ^ 30)).
  { rewrite window_translation by done. cbn [andb]. destruct (Z.ltb_spec va (KERNEL_BASE + kernel_window_size)); [done|].
    unfold direct_view. destruct (Z.ltb_spec va (DIRECT_MAP_BASE + DIRECT_MAP_SIZE)); [|by rewrite andb_false_r].
    unfold KERNEL_BASE, DIRECT_MAP_BASE in *. lia. }
  all: assert (Hout : ~ KERNEL_BASE <= va < KERNEL_BASE + 2 ^ 30) by lia.
  all: destruct (Z.ltb_spec va (KERNEL_BASE + kernel_window_size)); try lia; cbn [andb].
  all: destruct (Z_le_gt_dec DIRECT_MAP_BASE va), (Z_lt_le_dec va (DIRECT_MAP_BASE + DIRECT_MAP_SIZE));
    try (by apply direct_translation).
  all: unfold direct_view; destruct (Z.leb_spec DIRECT_MAP_BASE va), (Z.ltb_spec va (DIRECT_MAP_BASE + DIRECT_MAP_SIZE));
    try lia; cbn [andb].
  all: apply first_unmapped; [exact Hva|]; rewrite first_table_2 by done.
  all: rewrite <- (window_address va Hva) in Hout; assert (Hout' : ~ (index 4 va = 256 /\ index 3 va < DIRECT_PD_COUNT))
    by (rewrite (direct_address va Hva); lia).
  all: destruct (Z.eqb_spec (index 4 va) 511), (Z.eqb_spec (index 3 va) 510),
    (Z.eqb_spec (index 4 va) 256), (Z.ltb_spec (index 3 va) DIRECT_PD_COUNT); tauto || done.
Qed.
End FirstTree.

(** ** Protecting the image *)

(** The protection each section gets. *)
Definition section_prot `{image} (va : Z) : page_prot :=
  if va <? rodata_start then KERNEL_TEXT else if va <? data_rel_ro_start then KERNEL_RODATA else KERNEL_DATA.

(** The kernel's address space: its sections, the direct map, and nothing else. *)
Definition kernel_view `{layout} `{image} `{features} (boot : info) (va : Z) : option (Z * page_prot) :=
  if (text_start <=? va) && (va <? kernel_end)
  then Some (va - KERNEL_BASE, granted (section_prot va)) else direct_view boot va.

(** The frame of the operations while the kernel starts: its tree is rooted in the image. *)
Definition booting `{image} (f : features) (c : Z -> Prop) : space_frame :=
  {| claimed := c; kept_flags := f; kept_root := static 0 |}.

Section Protecting.
Context `{layout_ok} `{image} `{!image_ok} {f : features} (c : Z -> Prop) (boot : info).
#[local] Instance booting_frame : space_frame := booting f c.

(** The window translates an address to its offset, with the protection [q] gives. *)
Definition viewed (q : Z -> option page_prot) (s : mmu) : Prop :=
  forall va, canonical va -> translation (static 0) s va =
    if (KERNEL_BASE <=? va) && (va <? KERNEL_BASE + kernel_window_size)
    then option_map (fun p => (va - KERNEL_BASE, p)) (q va) else direct_view boot va.

Definition within (a n va : Z) : bool := (a <=? va) && (va <? a + n).

Lemma viewed_protects q s s' a n l prot :
  viewed q s -> protects (static 0) s s' a n l prot ->
  KERNEL_BASE <= a -> a + n <= KERNEL_BASE + kernel_window_size ->
  viewed (fun va => if within a n va then Some (granted prot) else q va) s'.
Proof.
  intros Hq [Hp _] Ha Hn va Hva. specialize (Hq va Hva). specialize (Hp va Hva). unfold within in *.
  destruct ((a <=? va) && (va <? a + n)) eqn:E; cycle 1.
  { by rewrite Hp, Hq. }
  destruct Hp as (pa & old & Ht & ->). rewrite Ht in Hq.
  rewrite andb_true_iff, Z.leb_le, Z.ltb_lt in E.
  destruct (Z.leb_spec KERNEL_BASE va), (Z.ltb_spec va (KERNEL_BASE + kernel_window_size)); try lia.
  cbn [andb] in *. destruct (q va); cbn in *; [|discriminate Hq]. injection Hq as -> _. done.
Qed.

Lemma viewed_unmaps q s s' a n :
  viewed q s -> unmaps (static 0) s s' a n ->
  KERNEL_BASE <= a -> a + n <= KERNEL_BASE + kernel_window_size ->
  viewed (fun va => if within a n va then None else q va) s'.
Proof.
  intros Hq Hp Ha Hn va Hva. specialize (Hq va Hva). specialize (Hp va Hva). unfold within in *.
  destruct ((a <=? va) && (va <? a + n)) eqn:E; [|by rewrite Hp, Hq].
  destruct Hp as (_ & ->). rewrite andb_true_iff, Z.leb_le, Z.ltb_lt in E.
  destruct (Z.leb_spec KERNEL_BASE va), (Z.ltb_spec va (KERNEL_BASE + kernel_window_size)); lia || done.
Qed.

Lemma window_canonical va : KERNEL_BASE <= va < KERNEL_BASE + 2 ^ 30 -> canonical va.
Proof. unfold KERNEL_BASE. intros Hva. split; [lia|]. apply valid_eq. right. div_lia. Qed.

Lemma usable_one : usable_level (F := paging) 1 = 1.
Proof. pose proof (usable_level_range (F := paging) 1 ltac:(lia)). lia. Qed.

(** A page of the window whose address [q] maps. *)
Lemma viewed_mapped q s va :
  viewed q s -> KERNEL_BASE <= va < KERNEL_BASE + kernel_window_size -> q va <> None ->
  translation (static 0) s va <> None.
Proof.
  intros Hq Hva Hn. destruct window_range as (Hw & _). rewrite (Hq va) by (apply window_canonical; lia).
  destruct (Z.leb_spec KERNEL_BASE va), (Z.ltb_spec va (KERNEL_BASE + kernel_window_size)); try lia.
  cbn [andb]. by destruct (q va).
Qed.

Lemma env_registers s : tree_ok (static 0) s -> flags s = f /\ kernel_root s = static 0.
Proof. intros Ht. by destruct (tree_env (static 0) s Ht) as [_ _ ? ? _ _]. Qed.

Lemma wp_protect_region q s first last stop prot (Q : Result unit mm_error -> mmu -> Prop) :
  tree_ok (static 0) s -> viewed q s -> first mod 4096 = 0 -> stop = page_ceil last ->
  KERNEL_BASE <= first < last -> stop <= KERNEL_BASE + kernel_window_size ->
  (forall va, first <= va < stop -> q va <> None) ->
  (forall s', tree_ok (static 0) s' ->
     viewed (fun va => if within first (stop - first) va then Some (granted prot) else q va) s' -> Q (Ok tt) s') ->
  (forall s', tree_ok (static 0) s' -> no_frame_left s' -> Q (Err OUT_OF_MEMORY) s') ->
  wp (protect_region first last prot) Q s.
Proof.
  intros Ht Hq Hm -> Hr Hend Hmapped HOk HErr. destruct window_range as (Hw & _).
  unfold protect_region. destruct (env_registers s Ht) as [Hf Hroot].
  assert (Hstop : last <= page_ceil last /\ page_ceil last mod 4096 = 0) by (unfold page_ceil; div_lia).
  assert (Ea : align_down 64 first PAGE_4K = first).
  { change PAGE_4K with (2 ^ 12). rewrite align_down_eq by (unfold in_width, KERNEL_BASE in *; lia).
    change (2 ^ 12) with 4096. lia. }
  assert (Eb : align_up 64 last PAGE_4K = page_ceil last).
  { change PAGE_4K with (2 ^ 12). rewrite align_up_no_wrap by (unfold in_width, KERNEL_BASE in *; lia).
    unfold page_ceil. change (2 ^ 12) with 4096. div_lia. }
  rewrite Ea, Eb. set (stop := page_ceil last) in *. clearbody stop. cbv zeta.
  apply wp_bind, wp_gets, wp_bind, wp_gets. rewrite Hf, Hroot. unfold u64.
  rewrite wrap_small by (unfold in_width, KERNEL_BASE in *; lia).
  change SIZE_4K with (@size_at paging 1).
  apply (wp_protect_range (static 0) s first (stop - first) 1 prot); [done | cbn; lia | unfold KERNEL_BASE in *; lia
    | unfold KERNEL_BASE in *; lia | unfold KERNEL_BASE in *; lia |].
  rewrite usable_one. change (span 1) with 4096. intros r s' Ht' _ Hres. destruct r as [[]|e].
  - apply HOk; [done|]. eapply viewed_protects; [exact Hq | exact Hres | lia | lia].
  - destruct Hres as (n & Hn & Hnm & _ & [[_ [Hb|Hb]]|[Hlt He]]).
    + lia.
    + rewrite usable_one in Hb. change (span 1) with 4096 in Hb. destruct Hb. div_lia.
    + assert (Hc : canonical (first + n)) by (apply window_canonical; lia).
      destruct e; cbn in He; try done.
      * apply HErr; [done | apply He].
      * destruct He. split; [apply Hc|]. change (span 1) with 4096. div_lia.
      * destruct He as [_ He]. destruct (viewed_mapped q s (first + n) Hq); [lia | apply Hmapped; lia | done].
      * destruct He as [_ He]. lia.
Qed.

Lemma wp_unmap_window q s a n (Q : Result unit mm_error -> mmu -> Prop) :
  tree_ok (static 0) s -> viewed q s -> a mod 4096 = 0 -> n mod 4096 = 0 -> 0 < n ->
  KERNEL_BASE <= a -> a + n <= KERNEL_BASE + kernel_window_size ->
  (forall va, a <= va < a + n -> q va <> None) ->
  (forall s', tree_ok (static 0) s' -> viewed (fun va => if within a n va then None else q va) s' -> Q (Ok tt) s') ->
  (forall s', tree_ok (static 0) s' -> no_frame_left s' -> Q (Err OUT_OF_MEMORY) s') ->
  wp (unmap_kernel a n) Q s.
Proof.
  intros Ht Hq Hma Hmn Hn Ha Hend Hmapped HOk HErr. destruct window_range as (Hw & _).
  unfold unmap_kernel. destruct (env_registers s Ht) as [Hf Hroot].
  apply wp_bind, wp_gets, wp_bind, wp_gets. rewrite Hf, Hroot. change SIZE_4K with (@size_at paging 1).
  assert (Hv : forall m, 0 <= m < n -> valid (a + m) = true) by (intros m Hm; apply window_canonical; lia).
  apply (wp_unmap_range (static 0) s a n 1); [done | cbn; lia | unfold KERNEL_BASE in *; lia
    | unfold KERNEL_BASE in *; lia | |].
  { intros m s1 Hs1. apply wp_ret. split; [done|]. split; [done | apply cleared_refl]. }
  intros [[]|e] s' Ht' _ Hres.
  - apply HOk; [done|]. by eapply viewed_unmaps.
  - destruct Hres as (m & Hm & _ & [(_ & -> & Hex)|[(_ & _ & Hbad)|(Hlt & [[_ He]|(_ & _ & He)])]]); [by apply HErr | exfalso..].
    + unfold bad_range, bad_length in Hbad. rewrite usable_one in Hbad. change (span 1) with 4096 in Hbad.
      destruct Hbad as [[|]|[|[Hb|[|Hb]]]]; try lia.
      * specialize (Hv 0 ltac:(lia)). rewrite Z.add_0_r in Hv. congruence.
      * unfold KERNEL_BASE in *. lia.
      * specialize (Hv (n - 1) ltac:(lia)). replace (a + (n - 1)) with (a + n - 1) in Hv by lia. congruence.
    + rewrite Hv in He by lia. discriminate He.
    + destruct (viewed_mapped q s (a + m) Hq); [lia | apply Hmapped; lia | done].
Qed.

(** Unmapping, unless there is nothing to unmap. *)
Lemma wp_unmap_rest_of_window q s a b (Q : Result unit mm_error -> mmu -> Prop) :
  tree_ok (static 0) s -> viewed q s -> a mod 4096 = 0 -> b mod 4096 = 0 ->
  KERNEL_BASE <= a <= b -> b <= KERNEL_BASE + kernel_window_size ->
  (forall va, a <= va < b -> q va <> None) ->
  (forall s', tree_ok (static 0) s' -> viewed (fun va => if within a (b - a) va then None else q va) s' -> Q (Ok tt) s') ->
  (forall s', tree_ok (static 0) s' -> no_frame_left s' -> Q (Err OUT_OF_MEMORY) s') ->
  wp (if a <? b then unmap_kernel a (u64 (b - a)) else mret (Ok tt)) Q s.
Proof.
  intros Ht Hq Hma Hmb Ha Hend Hmapped HOk HErr. destruct window_range as (Hw & _).
  destruct (Z.ltb_spec a b).
  - unfold u64. rewrite wrap_small by (unfold in_width, KERNEL_BASE in *; lia).
    apply (wp_unmap_window q); [done | done | done | div_lia | lia | lia | lia | intros; apply Hmapped; lia | done | done].
  - apply wp_ret, HOk; [done|]. intros va Hva. rewrite (Hq va Hva). unfold within.
    destruct (Z.leb_spec a va), (Z.ltb_spec va (a + (b - a))); cbn [andb]; lia || done.
Qed.

(** [protect_image], from the window as it is first mapped. *)
Lemma wp_protect_image s (Q : Result unit mm_error -> mmu -> Prop) :
  tree_ok (static 0) s -> (forall va, canonical va -> translation (static 0) s va = first_view boot va) ->
  (forall s', tree_ok (static 0) s' ->
     (forall va, canonical va -> translation (static 0) s' va = kernel_view boot va) -> Q (Ok tt) s') ->
  (forall s', tree_ok (static 0) s' -> no_frame_left s' -> Q (Err OUT_OF_MEMORY) s') ->
  wp protect_image Q s.
Proof.
  intros Ht Hview HOk HErr. destruct window_range as (Hw & Hwm & Hke). destruct image_text as [Htx _].
  destruct image_rodata as [Hro Hro2], image_data as [Hda Hda2].
  destruct image_order as (Hb & (Hx0 & Hx1) & (Hx2 & Hx3) & Hm1 & Hm2 & Hm3 & Hm4 & Hx4 & Hx5).
  assert (Hke' : kernel_end = page_ceil kernel_end) by (unfold page_ceil; div_lia).
  assert (Hr : forall x, KERNEL_BASE <= x <= KERNEL_BASE + 2 ^ 30 -> 0 <= x /\ x + 4095 < 2 ^ 64)
    by (unfold KERNEL_BASE; lia).
  assert (Ea : align_down 64 text_start PAGE_4K = text_start).
  { change PAGE_4K with (2 ^ 12). rewrite align_down_eq by (unfold in_width; specialize (Hr text_start); lia).
    change (2 ^ 12) with 4096. lia. }
  assert (Eb : align_up 64 kernel_end PAGE_4K = kernel_end).
  { change PAGE_4K with (2 ^ 12). specialize (Hr kernel_end).
    apply align_up_aligned; first [exact Hm4 | lia | unfold in_width; lia]. }
  assert (Ew : u64 (KERNEL_BASE + kernel_window_size) = KERNEL_BASE + kernel_window_size).
  { apply wrap_small. unfold in_width. specialize (Hr (KERNEL_BASE + kernel_window_size)). lia. }
  assert (Hwm' : (KERNEL_BASE + kernel_window_size) mod 4096 = 0) by (unfold KERNEL_BASE; div_lia).
  unfold protect_image. rewrite Ea, Eb, Ew. cbv zeta. clear Ea Eb Ew Hr.
  apply wp_ktry. eapply (wp_protect_region (fun _ => Some (granted WINDOW_PROT)) s data_rel_ro_start kernel_end);
    [done | exact Hview | done | exact Hke' | lia | lia | done | | exact HErr]. intros s1 T1 V1.
  apply wp_ktry. eapply (wp_protect_region _ s1 rodata_start rodata_end);
    [done | exact V1 | done | exact Hda2 | lia | lia | | | exact HErr].
  { intros va _. cbv beta. by repeat case_match. }
  intros s2 T2 V2.
  apply wp_ktry. eapply (wp_protect_region _ s2 text_start text_end);
    [done | exact V2 | done | exact Hro2 | lia | lia | | | exact HErr].
  { intros va _. cbv beta. by repeat case_match. }
  intros s3 T3 V3.
  apply wp_ktry. eapply (wp_unmap_rest_of_window _ s3);
    [done | exact V3 | done | done | lia | lia | | | exact HErr].
  { intros va _. cbv beta. by repeat case_match. }
  intros s4 T4 V4.
  apply wp_ktry. eapply (wp_unmap_rest_of_window _ s4);
    [done | exact V4 | done | done | lia | lia | | | exact HErr].
  { intros va Hva. cbv beta. unfold within at 1. destruct (Z.ltb_spec va (KERNEL_BASE + (text_start - KERNEL_BASE))); [lia|].
    rewrite andb_false_r. by repeat case_match. }
  intros s5 T5 V5. apply wp_ret, HOk; [done|]. intros va Hva. rewrite (V5 va Hva).
  assert (Hno : KERNEL_BASE <= va -> direct_view boot va = None).
  { intros Hge. unfold direct_view. pose proof direct_count as [Hsz Hc].
    destruct (Z.ltb_spec va (DIRECT_MAP_BASE + DIRECT_MAP_SIZE)); [|by rewrite andb_false_r].
    unfold KERNEL_BASE, DIRECT_MAP_BASE in *. lia. }
  unfold kernel_view, section_prot, within. clear - Hx0 Hx1 Hx2 Hx3 Hke Hb Hno.
  replace (KERNEL_BASE + (text_start - KERNEL_BASE)) with text_start by lia.
  replace (text_start + (rodata_start - text_start)) with rodata_start by lia.
  replace (rodata_start + (data_rel_ro_start - rodata_start)) with data_rel_ro_start by lia.
  replace (data_rel_ro_start + (kernel_end - data_rel_ro_start)) with kernel_end by lia.
  replace (kernel_end + (KERNEL_BASE + kernel_window_size - kernel_end)) with (KERNEL_BASE + kernel_window_size) by lia.
  destruct (Z.leb_spec KERNEL_BASE va) as [Hge|], (Z.ltb_spec va (KERNEL_BASE + kernel_window_size));
    cbn [andb]; try (destruct (Z.leb_spec text_start va), (Z.ltb_spec va kernel_end); lia || done).
  specialize (Hno Hge). destruct (Z.leb_spec text_start va), (Z.ltb_spec va kernel_end),
    (Z.leb_spec kernel_end va), (Z.ltb_spec va text_start); try lia; cbn [andb option_map]; try done.
  destruct (Z.leb_spec rodata_start va), (Z.ltb_spec va rodata_start), (Z.leb_spec data_rel_ro_start va),
    (Z.ltb_spec va data_rel_ro_start); lia || done.
Qed.
End Protecting.

(** ** Starting *)
Section Starting.
Context `{layout_ok} `{image} `{!image_ok} `{machine}.

(** The features the processor reports. *)
Definition detected : features :=
  let extended := if CPUID_EXTENDED_FEATURES <=? eax (cpuid CPUID_EXTENDED_MAX 0)
                  then edx (cpuid CPUID_EXTENDED_FEATURES 0) else 0 in
  {| nx_enabled := Z.testbit extended 20;
     global_pages_enabled := Z.testbit (edx (cpuid CPUID_BASE 0)) 13;
     gib_pages_supported := Z.testbit extended 26 |}.

Lemma land_shiftl_bit x n : 0 <= n -> negb (Z.land x (Z.shiftl 1 n) =? 0) = Z.testbit x n.
Proof.
  intros Hn. destruct (Z.eqb_spec (Z.land x (Z.shiftl 1 n)) 0) as [E|E]; cbn [negb].
  - apply (f_equal (fun y => Z.testbit y n)) in E. rewrite Z.land_spec, testbit_shiftl1, Z.eqb_refl, andb_true_r, Z.bits_0 in E by lia.
    done.
  - destruct (Z.testbit x n) eqn:Hb; [done|]. destruct E. apply Z.bits_inj'. intros i Hi.
    rewrite Z.land_spec, testbit_shiftl1, Z.bits_0 by lia. destruct (Z.eqb_spec i n) as [->|]; [by rewrite Hb | apply andb_false_r].
Qed.

Lemma written_efer v c :
  Z.testbit v 11 = true -> wp (write_msr MSR_EFER v;; read_msr MSR_EFER) (fun w _ => Z.testbit w 11 = true) c.
Proof.
  intros Hv. apply wp_bind, wp_modify. unfold read_msr. apply wp_bind, wp_gets. cbn [effect msrs].
  rewrite lookup_insert_eq. cbn [default]. apply wp_ret. unfold u32. autorewrite with bits.
  by rewrite Hv, andb_true_r, orb_true_r.
Qed.

Lemma wp_enable_paging_features c (Q : unit -> features * cpu -> Prop) :
  (forall c', features_on detected c' -> cr0 c' = cr0 c -> Q tt (detected, c')) ->
  wp enable_paging_features Q (features_init, c).
Proof.
  intros HQ. unfold enable_paging_features. cbv zeta.
  set (extended := if _ <=? _ then _ else _). unfold EDX_NO_EXECUTE, EDX_PAGE_GLOBAL_ENABLE, EDX_GIB_PAGES.
  rewrite !land_shiftl_bit by lia. unfold detected in HQ. fold extended in HQ. cbv zeta in HQ.
  set (nx := Z.testbit extended 20) in *. set (gl := Z.testbit (edx _) 13) in *. set (gib := Z.testbit extended 26) in *.
  assert (Hnx : exists c1, (nx = true -> wp (read_msr MSR_EFER) (fun v _ => Z.testbit v 11 = true) c1) /\
    cr0 c1 = cr0 c /\ forall (k : kernel (features * cpu) unit),
    wp k Q ({| nx_enabled := nx; global_pages_enabled := false; gib_pages_supported := false |}, c1) ->
    wp (when nx (
      efer ← zoom snd (fun c s => (fst s, c)) (read_msr MSR_EFER);
      zoom snd (fun c s => (fst s, c)) (write_msr MSR_EFER (Z.lor efer EFER_NO_EXECUTE_ENABLE));;
      modify (fun s => ({| nx_enabled := true; global_pages_enabled := @global_pages_enabled (fst s);
                           gib_pages_supported := @gib_pages_supported (fst s) |}, snd s)));; k) Q (features_init, c)).
  { clearbody nx. destruct nx; cbn [when].
    - pose (v := Z.lor (let '(low, high) := default (0, 0) (msrs c !! MSR_EFER) in
        Z.lor (u64 (Z.shiftl high 32)) low) EFER_NO_EXECUTE_ENABLE).
      exists (effect (Wrmsr MSR_EFER (u32 v) (u32 (Z.shiftr v 32))) c). split; [|split; [done|]].
      + intros _. assert (Hv : Z.testbit v 11 = true).
        { unfold v. change EFER_NO_EXECUTE_ENABLE with (Z.shiftl 1 11). rewrite Z.lor_spec, testbit_shiftl1 by lia.
          by rewrite orb_true_r. }
        exact (written_efer v c Hv).
      + intros k Hk. unfold v in Hk. unfold wp, mbind, kernel_bind, zoom, read_msr, mbind, kernel_bind, gets in *.
        cbn [snd fst]. by destruct (default _ _).
    - exists c. split; [done|]. split; [done|]. intros k Hk. exact Hk. }
  destruct Hnx as (c1 & Hefer & Hcr0 & Hrun). apply Hrun. clear Hrun. clearbody gl gib.
  destruct gl; cbn [when].
  - wp_steps. unfold wp, read_cr4, write_cr4, zoom, modify, gets, mbind, kernel_bind, execute. cbn.
    apply HQ; [|done]. split; [intros Hf; by apply (read_msr_kept _ _ c1), Hefer|]. intros _. cbn [cr4]. rewrite Z.lor_spec.
    change CR4_PAGE_GLOBAL_ENABLE with (Z.shiftl 1 7). rewrite testbit_shiftl1 by lia. by rewrite orb_true_r.
  - wp_steps. apply HQ; [|done]. by split.
Qed.

(** What [init_kernel_space] starts from: the allocator is ready and has not given the image away, and
    the static tables are zero, as is every object without an initialiser. *)
Record before_start (c : Z -> Prop) (boot : info) (s : mmu) : Prop := {
  start_ready : ready (allocator s);
  start_reserved f : boot_start / 4096 <= f < kernel_physical_end / 4096 -> is_free (allocator s) f = false;
  start_zero n i : table_number n -> 0 <= i < 512 -> entry_at s (static n) i = 0;
  start_claimed p : c p -> table_frame s p /\ forall n, table_number n -> p <> static n;
  start_flags : flags s = features_init;
  start_regions : Forall region_typed (InplaceVector.elements (memory_map boot));
  start_map : exists n, InplaceVectorFacts.wf n (memory_map boot);
}.

Lemma static_table_frame c boot s n : before_start c boot s -> table_number n -> table_frame s (static n).
Proof.
  intros Hs Hn. destruct (static_range n Hn) as (H1' & H2' & H3' & H4' & _). pose proof layout_image.
  split; [lia|]. split; [done|]. apply (start_reserved _ _ _ Hs). pose proof image_end_aligned. div_lia.
Qed.

(** Flushing changes no register. *)
Lemma wp_flush_all_global c (Q : unit -> cpu -> Prop) :
  (forall c', registers c' = registers c -> Q tt c') -> wp flush_all_global Q c.
Proof.
  intros HQ. unfold flush_all_global, flush_all. apply wp_bind, wp_gets. destruct (_ =? 0).
  - apply wp_bind, wp_gets, wp_modify, HQ. done.
  - apply wp_bind, wp_modify, wp_modify, HQ. done.
Qed.

Section FromBoot.
Context (c : Z -> Prop) (boot : info).
#[local] Existing Instance detected.
#[local] Instance starting_frame : space_frame := booting detected c.

(** The tree does not depend on the registers, once they are right. *)
Lemma tree_ok_core s k :
  tree_ok (static 0) s -> cr3 k = static 0 -> features_on detected k ->
  tree_ok (static 0) (set_core k s) /\
  forall va, canonical va -> translation (static 0) (set_core k s) va = translation (static 0) s va.
Proof.
  intros Ht Hcr3 Hon. destruct (tree_env _ _ Ht) as [Hr Hc Hf Hk Hi Hfe].
  destruct (agree_ok (static 0) s (set_core k s) Ht) as [Ht' Hleaf]; [by split | | done |].
  - intros va l t Hva Hl Hta. exact (tree_owned _ _ Ht va l t Hva Hl Hta).
  - split; [done|]. intros va Hva. unfold translation. by rewrite Hleaf.
Qed.

Lemma wp_init_kernel_space s (Q : init_result -> mmu -> Prop) :
  before_start c boot s ->
  (forall s', tree_ok (static 0) s' -> (forall va, canonical va -> translation (static 0) s' va = kernel_view boot va) ->
     Z.testbit (cr0 (core s')) 16 = true -> Q (Ok tt) s') ->
  (forall s', tree_ok (static 0) s' -> no_frame_left s' -> Q (Err NO_USABLE_MEMORY) s') ->
  wp (init_kernel_space boot) Q s.
Proof.
  intros Hs HOk HErr. unfold init_kernel_space. apply wp_bind, wp_zoom. rewrite (start_flags _ _ _ Hs).
  apply wp_enable_paging_features. intros k Hon _.
  set (s0 := set_features (detected, k) s).
  assert (Hc0 : contents (fun _ _ => 0) s0 s0) by (split; [done..|]; intros n i; apply (start_zero _ _ _ Hs)).
  apply wp_bind, (wp_link_tables s0 s0); [exact Hc0|]. intros s1 Hs1.
  destruct window_range as (Hw & Hwm & _). destruct table_numbers as (_ & _ & N2 & _).
  replace kernel_window_size with (kernel_window_size / 2 ^ 21 * 2 ^ 21) by div_lia.
  apply wp_bind. eapply (wp_fill_2m s0 _ s1 2 _ _ _ _ 0); [exact Hs1 | done | done | div_lia | lia | | | done | | done | | ].
  1-4: unfold KERNEL_BASE; div_lia.
  intros s2 Hs2. destruct (start_map _ _ _ Hs) as [nr Hmap]. apply wp_bind.
  eapply wp_fill_direct_map; [exact Hs2 | exact Hmap | apply (start_regions _ _ _ Hs)|].
  intros s3 Hs3. change (flags s0) with detected in Hs3.
  apply wp_bind, wp_modify, wp_bind, wp_gets, wp_bind, wp_zoom, wp_modify.
  set (s4 := set_core _ _).
  assert (Htree : first_tree boot s4).
  { destruct Hs3 as [Ha Hk Hf _ Hwd]. split.
    - split; cbn; rewrite ?Ha, ?Hk; [apply Hs | | done.. | by apply (features_on_same _ k)].
      intros p Hp. destruct (start_claimed _ _ _ Hs p Hp) as [(Hp1 & Hp2 & Hp3) _]. split; [done|]. split; [done|].
      cbn. by rewrite Ha.
    - intros n Hn. destruct (static_table_frame c boot s n Hs Hn) as (Hp1 & Hp2 & Hp3). split.
      + split; [done|]. split; [done|]. cbn. by rewrite Ha.
      + intros Hp. by apply (start_claimed _ _ _ Hs) in Hp as [_ Hp]; destruct (Hp n Hn).
    - intros n i Hn Hi. exact (Hwd n i Hn Hi). }
  apply wp_bind, (wp_protect_image c boot s4).
  - exact (first_tree_ok boot s4 Htree).
  - exact (first_translation boot s4 Htree).
  - intros s5 T5 V5. pose proof (tree_env _ _ T5) as [_ _ _ _ Hi5 Hon5].
    apply wp_bind, wp_zoom, wp_flush_all_global. intros k6 Hk6.
    apply wp_bind, wp_zoom, wp_gets, wp_bind, wp_zoom, wp_modify, wp_ret. cbn [core set_core].
    assert (Hcr3 : cr3 k6 = static 0) by (transitivity (cr3 (core s5)); [by injection Hk6 | exact Hi5]).
    pose proof (features_on_kept _ _ k6 Hk6 Hon5) as Hon6.
    destruct (tree_ok_core s5 (effect (Mov_cr0 (Z.lor (cr0 k6) CR0_WRITE_PROTECT)) k6) T5 Hcr3) as [T7 V7].
    { by apply (features_on_same _ k6). }
    apply HOk.
    + exact T7.
    + intros va Hva. rewrite <- V5 by done. by rewrite <- V7.
    + cbn [core set_core effect cr0]. change CR0_WRITE_PROTECT with (Z.shiftl 1 16).
      rewrite Z.lor_spec, testbit_shiftl1 by lia. apply orb_true_r.
  - intros s5 T5 Hno. apply wp_ret. by apply HErr.
Qed.

(** The kernel's view has nothing in the area of virtual allocations. *)
Lemma area_empty va : area_page va -> kernel_view boot va = None.
Proof.
  intros [Hva _]. pose proof image_order as (Hb & (Ht & _) & _). pose proof direct_count as [Hsz Hc].
  unfold kernel_view, direct_view, VMALLOC_BASE, VMALLOC_SIZE, KERNEL_BASE, DIRECT_MAP_BASE in *.
  destruct (Z.leb_spec text_start va); [lia|]. cbn [andb].
  destruct (Z.ltb_spec va (0xffff800000000000 + DIRECT_MAP_SIZE)); [lia | by rewrite andb_false_r].
Qed.
End FromBoot.

Lemma typed_regions boot : typed_info boot -> Forall region_typed (InplaceVector.elements (memory_map boot)).
Proof.
  intros (_ & Hf & Hr). unfold claims in *. apply Forall_app in Hf as [Hf _], Hr as [Hr _].
  induction (InplaceVector.elements (memory_map boot)) as [|r l IH]; [done|].
  cbn [map concat] in *. apply Forall_app in Hf as [Hf1 Hf2], Hr as [Hr1 Hr2].
  constructor; [|by apply IH]. unfold region_claims in *.
  destruct (bool_decide (region_kind r = USABLE)); cbn in Hf1, Hr1;
    [apply Forall_inv in Hf1; exact Hf1 | apply Forall_inv in Hr1; exact Hr1].
Qed.

(** The frames of the image are not usable. *)
Lemma image_not_usable boot f :
  boot_start / 4096 <= f < kernel_physical_end / 4096 -> usable_frame boot f = false.
Proof.
  intros Hf. unfold usable_frame, fixed_ranges. cbn [app existsb]. pose proof layout_image. pose proof image_end_aligned.
  assert (covers false f (boot_start, kernel_physical_end - boot_start) = true) as ->.
  { unfold covers. destruct_comparisons; cbn [andb]; try done; exfalso; div_lia. }
  by rewrite orb_true_l, orb_true_r, andb_false_r.
Qed.
End Starting.

(** ** The three parts of memory, one after the other *)
Section MemoryStarts.
Context `{layout_ok} `{image} `{!image_ok} `{machine}.

(** The address space and the manager in their first state. *)
Record unstarted (v : vmm) : Prop := {
  unstarted_flags : flags (space v) = features_init;
  unstarted_tables n i : table_number n -> 0 <= i < 512 -> entry_at (space v) (static n) i = 0;
  unstarted_areas : zlen (m_allocations v) = MAX_ALLOCATIONS;
  unstarted_count : m_count v = 0;
  unstarted_lock : vmm_lock v = SPINLOCK_UNLOCKED;
}.

Lemma nothing_backed p : ~ backs ∅ p.
Proof. intros (y & q & Hy). by rewrite lookup_empty in Hy. Qed.

(** The frame allocator has started: the address space may. *)
Lemma frames_started boot v a :
  typed_info boot -> unstarted v -> initialised boot (Ok tt) a ->
  before_start (backs ∅) boot (set_allocator a (space v)).
Proof.
  intros Hboot [Hf Hz _ _ _] (Hr & Hfree & _). split; [exact Hr | | exact Hz | | exact Hf | by apply typed_regions |].
  - intros f Hfr. pose proof layout_image. pose proof image_fits. pose proof image_end_aligned.
    pose proof direct_count as [Hsz Hc]. unfold DIRECT_MAP_SIZE, DOOM_OS_EARLY_MAP_SIZE in *.
    cbn [allocator set_allocator]. rewrite Hfree; [by apply image_not_usable|].
    assert (MAX_PHYSICAL_MEMORY = MAX_FRAMES * 4096) by apply max_memory_eq. div_lia.
  - intros p Hp. by destruct (nothing_backed p).
  - exists MAX_BOOT_MEMORY_REGIONS. apply Hboot.
Qed.

(** The address space has started: the manager is consistent, with no area. *)
Lemma space_started boot v s :
  unstarted v -> @tree_ok (@paging detected) _ _ (@kernel_env_laws _ _ _ (booting detected (backs ∅))) (image_phys m_pml4) s ->
  (forall va, @canonical (@paging detected) va ->
     @translation (@paging detected) _ _ (@kernel_env_laws _ _ _ (booting detected (backs ∅))) (image_phys m_pml4) s va
     = @kernel_view _ _ detected boot va) ->
  @vmm_ok _ _ _ detected (image_phys m_pml4) ∅ (set_space s v).
Proof.
  intros [Hf Hz Hl Hn Hlk] Ht Hv. split; cbn [vmm_lock set_space m_allocations m_count space]; [done | | |].
  - rewrite Hn. split; [done | unfold MAX_ALLOCATIONS; lia | lia | lia].
  - split; [exact Ht | | by split; intros *; rewrite lookup_empty].
    intros y Hy. rewrite lookup_empty. cbn. pose proof (Hv y (area_canonical y Hy)) as Hno.
    rewrite area_empty in Hno by done. unfold translation in Hno.
    match type of Hno with match ?x with _ => _ end = _ => change (x = None); by destruct x end.
  - intros y Hy. rewrite Hn, lookup_empty. split; [done|]. intros (i & Hi & _). lia.
Qed.
End MemoryStarts.

(** ** Properties *)
Section KernelSpaceProperties.
Context `{layout_ok} `{image} `{!image_ok} `{machine}.

(** C18: Starting the kernel's address space: from zeroed static tables and an allocator that keeps the
    image, [init_kernel_space] returns; on success the tree is consistent, rooted in the image and
    loaded in CR3, and translates exactly the sections of the kernel, each with its protection, and
    through the direct map every whole block of 2 MiB that a region of the memory map touches which is
    not defective: more than the described memory, where a region does not end at a block; supervisor
    writes respect the protections; it fails only when no frame of memory is left for a table. *)
Theorem init_kernel_space_correct (c : Z -> Prop) boot s :
  before_start c boot s ->
  wp (init_kernel_space boot) (fun r s' =>
    let F := @paging detected in
    let EL := @kernel_env_laws _ _ _ (booting detected c) in
    let root := image_phys m_pml4 in
    @tree_ok F _ _ EL root s' /\ kernel_root s' = root /\ cr3 (core s') = root /\
    flags s' = detected /\ features_on detected (core s') /\
    match r with
    | Ok _ =>
        (forall va, @canonical F va -> @translation F _ _ EL root s' va = @kernel_view _ _ detected boot va) /\
        Z.testbit (cr0 (core s')) 16 = true
    | Err e => e = NO_USABLE_MEMORY /\ forall f, 0 <= f < MAX_FRAMES -> is_free (allocator s') f = false
    end) s.
Proof.
  intros Hs. cbv zeta. apply (wp_init_kernel_space c boot s); [exact Hs | |].
  - intros s' Ht Hv Hwp. pose proof Ht as [[_ _ Hf Hr Hi Hon] _ _ _].
    split; [exact Ht|]. done.
  - intros s' Ht Hno. pose proof Ht as [[_ _ Hf Hr Hi Hon] _ _ _].
    split; [exact Ht|]. done.
Qed.

(** C19: Once the kernel's address space has started, and where the processor can forbid execution, no
    address is both writable and executable, and none is reachable from user mode. *)
Theorem kernel_space_protected (c : Z -> Prop) boot s :
  before_start c boot s -> @nx_enabled detected = true ->
  wp (init_kernel_space boot) (fun r s' => r = Ok tt ->
    forall va pa prot,
      @canonical (@paging detected) va ->
      @translation (@paging detected) _ _ (@kernel_env_laws _ _ _ (booting detected c)) (image_phys m_pml4) s' va
        = Some (pa, prot) ->
      has prot PROT_WRITE && has prot PROT_EXEC = false /\ has prot PROT_USER = false) s.
Proof.
  intros Hs Hnx. apply (wp_init_kernel_space c boot s); [exact Hs | | done].
  intros s' Ht Hv _ _ va pa prot Hva. change (image_phys m_pml4) with (static 0). rewrite Hv by done.
  unfold kernel_view, direct_view, section_prot, granted. rewrite Hnx.
  destruct (@global_pages_enabled detected), (va <? rodata_start), (va <? data_rel_ro_start);
    repeat case_match; intros E0; try discriminate E0; injection E0 as _ <-; done.
Qed.

(** C17: Memory starts: the frame allocator, the kernel's address space and the virtual memory manager,
    started in that order on a machine in its first state, end in a state that satisfies the manager's
    invariant with no area allocated; otherwise the error says that there is no usable memory, and no
    frame is free. *)
Theorem memory_starts boot v :
  typed_info boot -> allocator (space v) = pmm_init -> flags (space v) = features_init ->
  (forall n i, table_number n -> 0 <= i < 512 -> entry_at (space v) (static n) i = 0) ->
  zlen (m_allocations v) = MAX_ALLOCATIONS -> m_count v = 0 -> vmm_lock v = SPINLOCK_UNLOCKED ->
  wp (_ ←? zoom space set_space (on_allocator (init_allocator boot));
      _ ←? zoom space set_space (init_kernel_space boot);
      mret (Ok tt)) (fun r v' =>
    match r with
    | Ok _ => @vmm_ok _ _ _ detected (image_phys m_pml4) ∅ v'
    | Err e => e = NO_USABLE_MEMORY /\ forall f, 0 <= f < MAX_FRAMES -> is_free (allocator (space v')) f = false
    end) v.
Proof.
  intros Hboot Ha Hf Hz Hl Hn Hlk. assert (Hv : unstarted v) by by split.
  apply wp_ktry, wp_zoom, wp_zoom. rewrite Ha. eapply wp_mono; [by apply wp_init_allocator|].
  intros [[]|e] a Hinit; cycle 1.
  { destruct Hinit as (_ & Hfree & -> & Hno). split; [done|]. intros f Hfr.
    cbn [allocator space set_space set_allocator]. rewrite Hfree by done. by apply Hno. }
  apply wp_ktry, wp_zoom. apply (wp_init_kernel_space (backs ∅) boot); [by apply frames_started | |done].
  intros s' Ht Hview _. by apply wp_ret, (space_started boot v).
Qed.
End KernelSpaceProperties.

(** ** The properties at work, on the image of the example *)
Section KernelSpaceWitnesses.
Local Instance boot_layout : layout := configured_layout 0x200000.
Local Instance boot_layout_ok : layout_ok := configured_layout_ok 0x200000 ltac:(lia).
Local Existing Instance example_image.

(** A processor with every feature but pages of 1 GiB. *)
Local Instance boot_machine : machine := {|
  cpuid := fun leaf _ =>
    if leaf =? CPUID_EXTENDED_MAX then {| eax := 0x80000008; ebx := 0; ecx := 0; edx := 0 |}
    else {| eax := 0; ebx := 0; ecx := 0; edx := Z.lor (Z.shiftl 1 13) (Z.shiftl 1 20) |} |}.

Local Instance example_image_ok : image_ok.
Proof.
  assert (Hn : forall n, table_number n -> 0 <= n < 20) by (intros n Hn; exact Hn).
  assert (Ha : forall n, table_number n -> static_address n = KERNEL_BASE + 0x150000 + 4096 * n).
  { intros n Hn0%Hn. unfold static_address. cbn [m_pml4 m_kernel_pdpt m_kernel_pd m_direct_pdpt m_direct_pds example_image].
    unfold KERNEL_BASE. destruct_comparisons; lia. }
  split; [by vm_compute.. | | |].
  - intros n Ht. rewrite Ha by done. unfold KERNEL_BASE. clear. div_lia.
  - intros n Ht. rewrite Ha by done. apply Hn in Ht. cbn. unfold KERNEL_BASE. lia.
  - intros m n Hm Hn'. rewrite !Ha by done. lia.
Qed.

Definition boot_core : cpu :=
  {| cr0 := 0x80000011; cr3 := 0x1000; cr4 := 0x20; msrs := {[MSR_EFER := (0x500, 0)]}; executed := [] |}.

Definition cold_space (a : pmm) : mmu :=
  {| words := ∅; allocator := a; core := boot_core; flags := features_init; kernel_root := 0 |}.

(** The frame at 0x170000 is in use for data. *)
Definition example_claims (p : Z) : Prop := p = 0x170000.

Lemma cold_start : exists s, before_start example_claims example_boot s.
Proof.
  destruct (populated_state 0x200000 0x400000) as (a & Ha & Hfree); [by vm_compute|].
  assert (Himage : forall f, 0x100 <= f < 0x200 -> is_free a f = false).
  { intros f Hf. rewrite Hfree by (change MAX_FRAMES with 4194304; lia). unfold covers.
    destruct (Z.leb_spec 0x200000 (f * 4096)); [lia | done]. }
  exists (cold_space a). split; [exact Ha | exact Himage | done | | done | |].
  - intros p ->. split; [|].
    + split; [by vm_compute|]. split; [done|]. apply Himage. by vm_compute.
    + intros n Hn. rewrite static_phys by done. unfold static_address, table_number in *.
      change (4 + DIRECT_PD_COUNT) with 20 in Hn. cbn [m_pml4 m_kernel_pdpt m_kernel_pd m_direct_pdpt m_direct_pds example_image].
      unfold KERNEL_BASE. destruct_comparisons; lia.
  - apply typed_regions, example_boot_typed.
  - exists MAX_BOOT_MEMORY_REGIONS. apply example_boot_typed.
Qed.

(** An address of the text, and the same byte in the direct map. *)
Lemma init_kernel_space_correct_witness :
  exists s, before_start example_claims example_boot s /\
    wp (init_kernel_space example_boot) (fun r s' => r = Ok tt ->
      let translate_to := @translation (@paging detected) _ _ (@kernel_env_laws _ _ _ (booting detected example_claims)) 0x150000 s' in
      translate_to (KERNEL_BASE + 0x110234) = Some (0x110234, KERNEL_TEXT) /\
      translate_to (DIRECT_MAP_BASE + 0x110234) = Some (0x110234, KERNEL_DATA) /\
      translate_to (KERNEL_BASE + 0x100000) = None) s.
Proof.
  destruct cold_start as (s & Hs). exists s. split; [exact Hs|].
  eapply wp_mono; [exact (init_kernel_space_correct example_claims example_boot s Hs)|].
  intros [[]|e] s' (_ & _ & _ & _ & _ & Hres) Hok; [|discriminate Hok]. destruct Hres as [Hv _].
  change (image_phys m_pml4) with 0x150000 in Hv. cbv zeta.
  rewrite !Hv by (by vm_compute). by vm_compute.
Defined.

Lemma kernel_space_protected_witness :
  exists s, before_start example_claims example_boot s /\ @nx_enabled detected = true /\
    wp (init_kernel_space example_boot) (fun r s' => r = Ok tt ->
      forall pa prot,
        @translation (@paging detected) _ _ (@kernel_env_laws _ _ _ (booting detected example_claims)) 0x150000 s'
          (KERNEL_BASE + 0x110234) = Some (pa, prot) ->
        has prot PROT_WRITE && has prot PROT_EXEC = false) s.
Proof.
  destruct cold_start as (s & Hs). exists s. split; [exact Hs|]. split; [by vm_compute|].
  eapply wp_mono; [exact (kernel_space_protected example_claims example_boot s Hs eq_refl)|].
  intros r s' Hres Hok pa prot Ht. by destruct (Hres Hok (KERNEL_BASE + 0x110234) pa prot ltac:(by vm_compute) Ht).
Defined.

Definition cold_vmm : vmm := {|
  space := cold_space pmm_init;
  m_allocations := replicate 1024 {| alloc_base := 0; alloc_bytes := 0 |};
  m_count := 0;
  vmm_lock := SPINLOCK_UNLOCKED;
|}.

Lemma memory_starts_witness :
  wp (_ ←? zoom space set_space (on_allocator (init_allocator example_boot));
      _ ←? zoom space set_space (init_kernel_space example_boot);
      mret (Ok tt)) (fun r v' => r = Ok tt -> @vmm_ok _ _ _ detected 0x150000 ∅ v') cold_vmm.
Proof.
  eapply wp_mono; [apply (memory_starts example_boot cold_vmm example_boot_typed); done|].
  intros [[]|e] v' Hres Hok; [exact Hres | discriminate Hok].
Defined.
End KernelSpaceWitnesses.
