(* ===== verification/Heap.v ===== *)
(** * Heap: the kernel heap, [kernel/mm/kheap.cpp]

    The kernel gives a third-party allocator (dlmalloc) pages to live on and guards its calls.  Both sides are
    interfaces here: what the allocator asks of the system ([os_memory], the macros [MMAP], [MUNMAP] and [ABORT]),
    and the allocator ([heap_code]), code that runs on any system with that interface.  [HeapFacts] discharges the
    laws of the first from the virtual memory manager; those of the second are what the allocator documents. *)

From S2P Require Import Prelude Bits Page Boot Pmm Mmu Vmm VmmFacts Spinlock.

(** ** What the allocator asks of the system *)

Class os_memory (S : Type) : Type := {
  os_mmap : Z -> kernel S Z;
  os_munmap : Z -> Z -> kernel S Z;
  os_abort : kernel S unit;
}.

(** The answer of [os_mmap] when there is no memory. *)
Definition MFAIL : Z := u64 (Z.lnot 0).

(** Two ranges of addresses with no common one. *)
Definition disjoint_ranges (p n q k : Z) : Prop := p + n <= q \/ q + k <= p.

(** The areas handed out, by base and size in whole pages.  A new one is apart from all of them; one can be given
    back as it was handed out, and nothing else can. *)
Class os_memory_laws (S : Type) `{os_memory S} : Type := {
  os_ok : S -> gmap Z Z -> Prop;
  os_mmap_law s areas n :
    os_ok s areas -> in_width 64 n ->
    wp (os_mmap n) (fun r s' =>
      (r = MFAIL /\ os_ok s' areas) \/
      (0 < n /\ 0 < r /\ r mod 4096 = 0 /\ r + whole_pages n < 2 ^ 64 /\
       map_Forall (disjoint_ranges r (whole_pages n)) areas /\ areas !! r = None /\
       os_ok s' (<[r := whole_pages n]> areas))) s;
  os_munmap_law s areas p n :
    os_ok s areas -> 0 <= n -> n + 4095 < 2 ^ 64 ->
    wp (os_munmap p n) (fun r s' =>
      if decide (areas !! p = Some (whole_pages n)) then r = 0 /\ os_ok s' (delete p areas)
      else r = -1 /\ s' = s) s;
}.

(** ** The allocator *)

(** Its own state beside that of the system. *)
Class heap_code : Type := {
  malloc_state : Type;
  dlmalloc S `{os_memory S} : Z -> kernel (malloc_state * S) Z;
  dlmemalign S `{os_memory S} : Z -> Z -> kernel (malloc_state * S) Z;
  dlfree S `{os_memory S} : Z -> kernel (malloc_state * S) unit;
}.

(** A block of [n] bytes at [p] inside one of the areas. *)
Definition inside_area (areas : gmap Z Z) (p n : Z) : Prop :=
  exists base size, areas !! base = Some size /\ base <= p /\ p + n <= base + size.

(** The blocks that are in use, by address and size: in the allocator's areas, and apart from each other. *)
Record blocks_ok (own blocks : gmap Z Z) : Prop := {
  blocks_inside : map_Forall (inside_area own) blocks;
  blocks_apart p n q k : blocks !! p = Some n -> blocks !! q = Some k -> p <> q -> disjoint_ranges p n q k;
}.

(** The areas that are not the allocator's are as before. *)
Definition others_kept (areas own areas' own' : gmap Z Z) : Prop :=
  forall p n, areas !! p = Some n -> own !! p = None -> areas' !! p = Some n /\ own' !! p = None.

(** Between calls: some areas are the allocator's own, and its blocks are in them. *)
Record heap_at `{code : heap_code} (inv : malloc_state -> gmap Z Z -> gmap Z Z -> Prop) {S : Type} `{os_memory_laws S}
    (s : malloc_state * S) (areas own blocks : gmap Z Z) : Prop := {
  at_system : os_ok (snd s) areas;
  at_own : own ⊆ areas;
  at_inv : inv (fst s) own blocks;
}.

(** The answer of an allocation of [n] bytes with an alignment: null, or a new block. *)
Definition new_block (align n r : Z) (blocks blocks' : gmap Z Z) : Prop :=
  (r = 0 /\ blocks' = blocks) \/
  (0 < r /\ r mod align = 0 /\ blocks !! r = None /\ blocks' = <[r := n]> blocks).

(** What its documentation says: a block of the size asked for, apart from the others, aligned to 16 bytes or, by
    [dlmemalign], to the power of two asked for (and no less than malloc); or null, when there is no memory.  A block
    in use can be freed.  Areas of others are left alone. *)
Class heap_code_laws `{code : heap_code} : Type := {
  malloc_inv : malloc_state -> gmap Z Z -> gmap Z Z -> Prop;
  malloc_blocks d own blocks : malloc_inv d own blocks -> blocks_ok own blocks;
  dlmalloc_law S `{os_memory_laws S} s areas own blocks n :
    heap_at malloc_inv s areas own blocks -> in_width 64 n -> 0 < n ->
    wp (dlmalloc S n) (fun r s' => exists areas' own' blocks',
      new_block 16 n r blocks blocks' /\ heap_at malloc_inv s' areas' own' blocks' /\
      others_kept areas own areas' own') s;
  dlmemalign_law S `{os_memory_laws S} s areas own blocks k n :
    heap_at malloc_inv s areas own blocks -> in_width 64 n -> 0 < n -> 4 <= k < 64 ->
    wp (dlmemalign S (2 ^ k) n) (fun r s' => exists areas' own' blocks',
      new_block (2 ^ k) n r blocks blocks' /\ heap_at malloc_inv s' areas' own' blocks' /\
      others_kept areas own areas' own') s;
  dlfree_law S `{os_memory_laws S} s areas own blocks p :
    heap_at malloc_inv s areas own blocks -> blocks !! p <> None ->
    wp (dlfree S p) (fun _ s' => exists areas' own',
      heap_at malloc_inv s' areas' own' (delete p blocks) /\ others_kept areas own areas' own') s;
}.

(** ** The kernel's side *)

Definition NATURAL_ALIGNMENT : Z := 16.

Section Heap.
Context `{layout} `{image}.

Definition heap_mmap (bytes : Z) : kernel vmm Z :=
  r ← vmm_alloc bytes KERNEL_DATA;
  mret (match r with Ok base => base | Err _ => MFAIL end).

Definition heap_munmap (ptr bytes : Z) : kernel vmm Z :=
  r ← vmm_free ptr bytes;
  mret (match r with Ok _ => 0 | Err _ => -1 end).

Definition corrupted : kernel vmm unit := kpanic "kernel heap detected a corrupted chunk".

#[export] Instance kernel_os : os_memory vmm :=
  {| os_mmap := heap_mmap; os_munmap := heap_munmap; os_abort := corrupted |}.

Context `{heap_code}.

Record heap : Type := { m_heap_ready : bool; m_lock : Z; m_dl : malloc_state; m_vmm : vmm }.

Definition set_heap_ready x s := {| m_heap_ready := x; m_lock := m_lock s; m_dl := m_dl s; m_vmm := m_vmm s |}.
Definition set_heap_lock x s := {| m_heap_ready := m_heap_ready s; m_lock := x; m_dl := m_dl s; m_vmm := m_vmm s |}.
Definition set_heap_dl (x : malloc_state * vmm) s :=
  {| m_heap_ready := m_heap_ready s; m_lock := m_lock s; m_dl := fst x; m_vmm := snd x |}.

Definition heap_init (d : malloc_state) (v : vmm) : heap :=
  {| m_heap_ready := false; m_lock := SPINLOCK_UNLOCKED; m_dl := d; m_vmm := v |}.

Definition on_allocator {A} (m : kernel (malloc_state * vmm) A) : kernel heap A :=
  guarded_by LOCK_FUEL m_lock set_heap_lock (zoom (fun s => (m_dl s, m_vmm s)) set_heap_dl m).

Definition heap_alloc (bytes alignment : Z) : kernel heap Z :=
  ready ← gets m_heap_ready;
  if negb ready then kpanic "kernel heap used before KHEAP init"
  else if bytes =? 0 then mret 0
  else
    on_allocator (if alignment <=? NATURAL_ALIGNMENT then dlmalloc vmm bytes else dlmemalign vmm alignment bytes).

Definition heap_free (ptr : Z) : kernel heap unit :=
  if ptr =? 0 then mret tt
  else
    ready ← gets m_heap_ready;
    if negb ready then kpanic "kernel heap freed before KHEAP init"
    else on_allocator (dlfree vmm ptr).

Definition init_heap : kernel heap init_result := modify (set_heap_ready true);; mret (Ok tt).
End Heap.
