(* ===== verification/HeapFacts.v ===== *)
(** * HeapFacts: the kernel heap on the virtual memory manager

    First the manager's areas implement what the allocator asks of the system.  Then the heap's own promises, on every
    branch; and the invariant of a running system in which the heap and other parts of the kernel share the
    manager.  The laws of the allocator have a model, at the end: one that gives each block its own pages. *)

From S2P Require Import Prelude Bits Page Boot Pmm Radix RadixFacts Paging Mmu Vmm VmmFacts Spinlock Heap.

(** ** Areas as sets of addresses *)

(** A maximal run of addresses. *)
Record is_run (A : Z -> Prop) (p n : Z) : Prop := {
  run_size : 0 < n;
  run_in y : p <= y < p + n -> A y;
  run_before : ~ A (p - 1);
  run_after : ~ A (p + n);
}.

Lemma run_ext (A A' : Z -> Prop) p n : (forall y, A y <-> A' y) -> is_run A p n <-> is_run A' p n.
Proof.
  intros E. split; intros [H1 H2 H3 H4].
  - split; [done | intros y Hy; by apply E, H2 | by rewrite <- E | by rewrite <- E].
  - split; [done | intros y Hy; by apply E, H2 | by rewrite E | by rewrite E].
Qed.

Lemma run_unique A p n k : is_run A p n -> is_run A p k -> n = k.
Proof.
  intros [Hn1 Hi1 _ Ha1] [Hn2 Hi2 _ Ha2]. destruct (Z.lt_trichotomy n k) as [Hlt|[E|Hgt]]; [|done|].
  - destruct Ha1. apply Hi2. lia.
  - destruct Ha2. apply Hi1. lia.
Qed.

Lemma run_disjoint A p n q k : is_run A p n -> is_run A q k -> p <> q -> p + n < q \/ q + k < p.
Proof.
  intros [Hn1 Hi1 Hb1 Ha1] [Hn2 Hi2 Hb2 Ha2] Hne.
  destruct (Z.lt_trichotomy p q) as [Hlt|[E|Hgt]]; [left | done | right].
  - destruct (Z_lt_le_dec (p + n) q) as [|Hge]; [done|]. destruct Hb2. apply Hi1. lia.
  - destruct (Z_lt_le_dec (q + k) p) as [|Hge]; [done|]. destruct Hb1. apply Hi2. lia.
Qed.

(** A new run, apart from the others. *)
Lemma run_added (A A' : Z -> Prop) r k p n :
  0 < k -> (forall y, r - 1 <= y <= r + k -> ~ A y) -> (forall y, A' y <-> A y \/ r <= y < r + k) ->
  is_run A' p n <-> (p = r /\ n = k) \/ is_run A p n.
Proof.
  intros Hk Hfar E. assert (Hnew : is_run A' r k).
  { split; [done | intros y Hy; apply E; by right | |]; rewrite E; intros [HA|HA]; try lia; revert HA; apply Hfar; lia. }
  assert (Hother : p <> r -> is_run A' p n -> p + n < r \/ r + k < p) by (intros Hne Hr; by eapply run_disjoint).
  split.
  - intros Hr. destruct (Z.eq_dec p r) as [->|Hne]; [left; split; [done | by eapply run_unique]|]. right.
    pose proof (Hother Hne Hr) as Hd. destruct Hr as [Hn Hi Hb Ha]. split; [done | | by rewrite E in Hb; tauto | by rewrite E in Ha; tauto].
    intros y Hy. destruct (proj1 (E y) (Hi y Hy)) as [|Hin]; [done | lia].
  - intros [[-> ->]|Hr]; [done|]. assert (Hd : p + n < r \/ r + k < p).
    { destruct (Z_lt_le_dec (p + n) r); [by left|]. destruct (Z_lt_le_dec (r + k) p); [by right|]. exfalso.
      destruct Hr as [Hn Hi _ _]. destruct (Z_lt_le_dec p r).
      - destruct (Z.eq_dec (p + n) r) as [E'|]; [|apply (Hfar r); [lia | apply Hi; lia]].
        apply (Hfar (r - 1)); [lia | apply Hi; lia].
      - apply (Hfar p); [lia | apply Hi; lia]. }
    destruct Hr as [Hn Hi Hb Ha]. split; [done | intros y Hy; apply E; left; by apply Hi | |]; rewrite E; intros [HA|HA]; try tauto; lia.
Qed.

(** A run taken away. *)
Lemma run_removed (A A' : Z -> Prop) r k p n :
  is_run A r k -> (forall y, A' y <-> A y /\ ~ r <= y < r + k) -> is_run A' p n <-> is_run A p n /\ p <> r.
Proof.
  intros Hr E. pose proof Hr as [Hk Hri Hrb Hra]. split.
  - intros [Hn Hi Hb Ha]. assert (Hp : A p /\ ~ r <= p < r + k) by (apply E, Hi; lia).
    split; [|lia]. split; [done | intros y Hy; apply E, Hi, Hy | |].
    + intros HA. apply Hb, E. split; [done|]. intros Hin. apply Hra. replace (r + k) with p by lia. tauto.
    + intros HA. apply Ha, E. split; [done|]. intros Hin.
      assert (Hl : A (p + n - 1) /\ ~ r <= p + n - 1 < r + k) by (apply E, Hi; lia).
      apply Hrb. replace (r - 1) with (p + n - 1) by lia. tauto.
  - intros [Hp Hne]. pose proof (run_disjoint A _ _ _ _ Hp Hr Hne) as Hd. destruct Hp as [Hn Hi Hb Ha].
    split; [done | intros y Hy; apply E; split; [by apply Hi | lia] | |]; rewrite E; tauto.
Qed.

(** The entries of a table are the maximal runs of its addresses. *)
Lemma entry_run l n p k :
  table_ok l n -> (exists i, 0 <= i < n /\ base_at l i = p /\ bytes_at l i = k) <-> is_run (allocated l n) p k.
Proof.
  intros [_ _ He Hs].
  assert (Hrun : forall i, 0 <= i < n -> is_run (allocated l n) (base_at l i) (bytes_at l i)).
  { intros i Hi. destruct (He i Hi) as [[Hpos _] _ _]. split; [done | by exists i | |].
    - intros (j & Hj & Hy). destruct (Z.lt_trichotomy i j) as [Hlt|[->|Hgt]]; [|lia|].
      + pose proof (Hs i j ltac:(lia) ltac:(lia)). unfold end_at in *. lia.
      + pose proof (Hs j i ltac:(lia) ltac:(lia)). lia.
    - intros (j & Hj & Hy). destruct (Z.lt_trichotomy i j) as [Hlt|[->|Hgt]]; [| unfold end_at in *; lia |].
      + pose proof (Hs i j ltac:(lia) ltac:(lia)). unfold end_at in *. lia.
      + pose proof (Hs j i ltac:(lia) ltac:(lia)). destruct (He j Hj) as [[] _ _]. unfold end_at in *. lia. }
  split; [intros (i & Hi & <- & <-); by apply Hrun|]. intros Hr. pose proof Hr as [Hk Hin _ _].
  destruct (Hin p ltac:(lia)) as (i & Hi & Hp). exists i. split; [done|].
  assert (E : base_at l i = p).
  { destruct (Z.eq_dec (base_at l i) p) as [|Hne]; [done|].
    pose proof (run_disjoint _ _ _ _ _ (Hrun i Hi) Hr Hne). unfold end_at in Hp. lia. }
  split; [done|]. rewrite <- E in Hr. by apply (run_unique _ _ _ _ (Hrun i Hi)).
Qed.

(** ** The manager gives the allocator what it asks for *)
Section KernelOs.
Context `{layout_ok} `{image} `{features}.
Context (root : Z).

(** The areas of the manager, as maximal runs of its addresses. *)
Definition manager_areas (s : vmm) (areas : gmap Z Z) : Prop :=
  forall p n, areas !! p = Some n <-> is_run (allocated (m_allocations s) (m_count s)) p n.

Definition manager_ok (s : vmm) (areas : gmap Z Z) : Prop := (exists b, vmm_ok root b s) /\ manager_areas s areas.

Lemma manager_area s areas p n : manager_ok s areas -> areas !! p = Some n -> allocation_ok p n.
Proof.
  intros [(b & Hb) Ha] Hp%Ha. pose proof (vmm_table _ _ _ Hb) as Ht.
  apply (entry_run _ _ _ _ Ht) in Hp as (i & Hi & <- & <-). by apply (table_entries _ _ Ht).
Qed.

Lemma far_disjoint (A : Z -> Prop) r k p n :
  0 < k -> is_run A p n -> (forall y, r <= y < r + k -> ~ A y) -> disjoint_ranges r k p n.
Proof.
  intros Hk [Hn Hi _ _] Hfar. unfold disjoint_ranges.
  destruct (Z_le_gt_dec (r + k) p); [by left|]. destruct (Z_le_gt_dec (p + n) r); [by right|]. exfalso.
  destruct (Z_le_gt_dec r p); [apply (Hfar p); [lia | apply Hi; lia] | apply (Hfar r); [lia | apply Hi; lia]].
Qed.

(** What the manager hands out and takes back, on the areas. *)
Lemma wp_manager_alloc s areas n prot :
  manager_ok s areas -> in_width 64 n ->
  wp (vmm_alloc n prot) (fun r s' =>
    match r with
    | Err _ => manager_ok s' areas
    | Ok r => 0 < n /\ allocation_ok r (whole_pages n) /\ map_Forall (disjoint_ranges r (whole_pages n)) areas /\
        areas !! r = None /\ manager_ok s' (<[r := whole_pages n]> areas)
    end) s.
Proof.
  intros [(b & Hb) Ha] Hn. eapply wp_mono; [by apply (wp_vmm_alloc root b)|].
  intros [r|e] s' Hout; cycle 1.
  { destruct Hout as (Hok & El & Ec & _). split; [by exists b|]. intros p k. rewrite El, Ec. apply Ha. }
  destruct Hout as (b' & Hok & Hbytes & Hr & Hfar & Hall & _). pose proof Hr as [[Hk _] _ _].
  assert (Hnone : areas !! r = None).
  { destruct (areas !! r) as [k|] eqn:E; [exfalso | done]. apply Ha in E as [? Hi _ _]. apply (Hfar r); [lia | apply Hi; lia]. }
  split; [lia|]. split; [done|]. split; [|split; [done|split; [by exists b'|]]].
  - intros p k Hp%Ha. eapply far_disjoint; [lia | done|]. intros y Hy. apply Hfar. lia.
  - intros p k. assert (Hguard : forall y, r - 1 <= y <= r + whole_pages n -> ~ allocated (m_allocations s) (m_count s) y).
    { intros y Hy. apply Hfar. lia. }
    rewrite (run_added _ _ r _ p k Hk Hguard Hall), lookup_insert_Some, <- (Ha p k). split.
    + intros [[<- <-]|[_ Hp]]; tauto.
    + intros [[-> ->]|Hp]; [by left | right]. split; [intros <-; congruence | done].
Qed.

Lemma wp_manager_free s areas p n :
  manager_ok s areas -> 0 <= n -> n + 4095 < 2 ^ 64 ->
  wp (vmm_free p n) (fun r s' =>
    if decide (areas !! p = Some (whole_pages n)) then r = Ok tt /\ manager_ok s' (delete p areas)
    else r = Err INVALID_ADDRESS /\ s' = s) s.
Proof.
  intros [(b & Hb) Ha] Hn Hmax. pose proof (vmm_table _ _ _ Hb) as Ht.
  eapply wp_mono; [by apply (wp_vmm_free root b)|]. intros [[]|e] s' Hout.
  - destruct Hout as (Hok & Hin & Hall & _). apply (entry_run _ _ _ _ Ht) in Hin. rewrite decide_True by by apply Ha.
    split; [done|]. split; [by eexists|]. intros q k. rewrite lookup_delete_Some, (Ha q k).
    rewrite (run_removed _ _ p (whole_pages n) q k Hin Hall). split; intros [? ?]; split; congruence.
  - destruct Hout as (-> & -> & Hno). rewrite decide_False; [done|]. intros Hp%Ha.
    apply (entry_run _ _ _ _ Ht) in Hp as (i & Hi & Hbase & Hbytes). by apply (Hno i).
Qed.

(** A manager none of whose pages is backed has no area. *)
Lemma manager_empty s : vmm_ok root ∅ s -> manager_ok s ∅.
Proof.
  intros Hv. split; [by exists ∅|]. intros p n. rewrite lookup_empty. split; [done|].
  intros Hr%(entry_run _ _ _ _ (vmm_table _ _ _ Hv)). exfalso. destruct Hr as (i & Hi & <- & <-).
  destruct (table_entries _ _ (vmm_table _ _ _ Hv) i Hi) as [[Hn _] [Hlo Hm] He].
  apply (proj2 (vmm_pages _ _ _ Hv (base_at (m_allocations s) i) ltac:(unfold area_page, AREA_END in *; lia))).
  - exists i. split; [done|]. unfold end_at. lia.
  - by rewrite lookup_empty.
Qed.

#[export] Instance kernel_os_laws : os_memory_laws vmm.
Proof.
  refine {| os_ok := manager_ok |}.
  - intros s areas n Hs Hn. apply wp_bind. eapply wp_mono; [by apply (wp_manager_alloc s areas)|].
    intros [r|e] s' Hout; apply wp_ret; [right | by left].
    destruct Hout as (Hpos & Hr & Hd & Hnone & Hok). destruct Hr as [_ [Hb Hm] He].
    assert (VMALLOC_BASE = 0xffffc00000000000) as EB by reflexivity.
    assert (AREA_END = 0xffffc08000000000) as EE by reflexivity. split; [lia|]. split; [lia|].
    split; [done|]. split; [lia|]. by split.
  - intros s areas p n Hs Hn Hmax. apply wp_bind. eapply wp_mono; [by apply (wp_manager_free s areas)|].
    intros r s' Hout. destruct (decide _); destruct Hout as [-> Hs']; by apply wp_ret.
Defined.

(** ** The heap *)
Section HeapFacts.
Context {code : heap_code} {code_laws : heap_code_laws}.

(** Between calls: the lock is free, some of the manager's areas are the heap's, and the blocks are in them. *)
Record heap_ok (s : heap) (areas own blocks : gmap Z Z) : Prop := {
  heap_unlocked : m_lock s = SPINLOCK_UNLOCKED;
  heap_inner : heap_at malloc_inv (m_dl s, m_vmm s) areas own blocks;
}.

Lemma wp_on_allocator {A} (m : kernel (malloc_state * vmm) A) (Q : A -> heap -> Prop) s :
  m_lock s = SPINLOCK_UNLOCKED ->
  wp m (fun a s' => Q a (set_heap_lock SPINLOCK_UNLOCKED (set_heap_dl s' (set_heap_lock SPINLOCK_LOCKED s))))
    (m_dl s, m_vmm s) ->
  wp (on_allocator m) Q s.
Proof. intros Hl Hm. apply wp_guarded_by; [unfold LOCK_FUEL; lia | done|]. by apply wp_zoom. Qed.

(** The alignments that have a meaning. *)
Definition alignment_ok (a : Z) : Prop := a <= NATURAL_ALIGNMENT \/ exists k, 0 <= k < 64 /\ a = 2 ^ k.

Definition heap_result (n align : Z) (s : heap) (areas own blocks : gmap Z Z) (r : Z) (s' : heap) : Prop :=
  exists areas' own' blocks', heap_ok s' areas' own' blocks' /\ m_heap_ready s' = m_heap_ready s /\
    others_kept areas own areas' own' /\
    (r = 0 /\ blocks' = blocks \/
     0 < r /\ 0 < n /\ r mod Z.max NATURAL_ALIGNMENT align = 0 /\ map_Forall (disjoint_ranges r n) blocks /\
     inside_area areas' r n /\ blocks' = <[r := n]> blocks).

Lemma heap_result_intro n align align' s areas own blocks areas' own' blocks' r s' :
  heap_at malloc_inv s' areas' own' blocks' -> 0 < n -> align' = Z.max NATURAL_ALIGNMENT align ->
  new_block align' n r blocks blocks' -> others_kept areas own areas' own' ->
  heap_result n align s areas own blocks r (set_heap_lock SPINLOCK_UNLOCKED (set_heap_dl s' (set_heap_lock SPINLOCK_LOCKED s))).
Proof.
  intros Hat Hn -> Hnew Hothers. exists areas', own', blocks'.
  split; [split; [done | by destruct s']|]. split; [done|]. split; [done|].
  destruct Hnew as [[-> ->]|(Hr & Hm & Hnone & ->)]; [by left | right].
  pose proof (malloc_blocks _ _ _ (at_inv _ _ _ _ _ Hat)) as [Hin Hap].
  split; [done|]. split; [done|]. split; [done|]. split; [|split; [|done]].
  - intros q k Hq. assert (r <> q) as Hne by congruence.
    apply (Hap r n q k); [apply lookup_insert_eq | by rewrite lookup_insert_ne | done].
  - destruct (Hin r n) as (b & z & Hb & Hrest); [apply lookup_insert_eq|]. exists b, z. split; [|done].
    eapply lookup_weaken; [done | apply Hat].
Qed.

Lemma wp_heap_alloc n align s areas own blocks :
  heap_ok s areas own blocks -> m_heap_ready s = true -> in_width 64 n -> alignment_ok align ->
  wp (heap_alloc n align) (heap_result n align s areas own blocks) s.
Proof.
  intros [Hl Hat] Hready Hn Halign. apply wp_bind, wp_gets. rewrite Hready. cbn [negb].
  destruct (Z.eqb_spec n 0) as [->|Hne].
  { apply wp_ret. exists areas, own, blocks. split; [done|]. split; [done|]. split; [by split|]. by left. }
  assert (Hpos : 0 < n) by (unfold in_width in Hn; lia). apply wp_on_allocator; [done|].
  destruct (Z.leb_spec align NATURAL_ALIGNMENT) as [Hle|Hgt].
  - eapply wp_mono; [by apply (dlmalloc_law vmm _ areas own blocks)|].
    intros r s' (areas' & own' & blocks' & Hnew & Hat' & Hothers).
    eapply heap_result_intro; [done | done | | done | done]. unfold NATURAL_ALIGNMENT in *. lia.
  - destruct Halign as [|(k & Hk & ->)]; [lia|]. unfold NATURAL_ALIGNMENT in *.
    assert (Hk4 : 4 <= k < 64).
    { destruct (Z_lt_le_dec k 4); [|lia]. pose proof (Z.pow_le_mono_r 2 k 4). lia. }
    eapply wp_mono; [exact (dlmemalign_law vmm _ areas own blocks k n Hat Hn Hpos Hk4)|].
    intros r s' (areas' & own' & blocks' & Hnew & Hat' & Hothers).
    eapply heap_result_intro; [done | done | | done | done]. unfold NATURAL_ALIGNMENT in *. lia.
Qed.

Lemma wp_heap_free p s areas own blocks :
  heap_ok s areas own blocks -> m_heap_ready s = true -> p = 0 \/ blocks !! p <> None -> blocks !! 0 = None ->
  wp (heap_free p) (fun _ s' => exists areas' own', heap_ok s' areas' own' (delete p blocks) /\
    m_heap_ready s' = m_heap_ready s /\ others_kept areas own areas' own') s.
Proof.
  intros [Hl Hat] Hready Hp Hzero. unfold heap_free. destruct (Z.eqb_spec p 0) as [->|Hne].
  { apply wp_ret. exists areas, own. rewrite delete_id by done. split; [done|]. split; [done|]. by split. }
  apply wp_bind, wp_gets. rewrite Hready. cbn [negb]. apply wp_on_allocator; [done|].
  eapply wp_mono; [apply (dlfree_law vmm _ areas own blocks); [done | by destruct Hp]|].
  intros [] s' (areas' & own' & Hat' & Hothers). exists areas', own'. split; [split; [done | by destruct s']|]. done.
Qed.

(** ** The heap among the other parts of the kernel *)

(** The heap in use: the blocks its clients hold, and the areas other parts of the kernel got from the manager
    (application memory, for one).  A client gives back a block it holds, a part of the kernel an area it holds. *)
Record system : Type := { kernel_heap : heap; held : gmap Z Z; other_areas : gmap Z Z }.

Inductive system_step : system -> system -> Prop :=
| step_start s h r : init_heap (kernel_heap s) = Ret (r, h) ->
    system_step s {| kernel_heap := h; held := held s; other_areas := other_areas s |}
| step_alloc s n align r h : in_width 64 n -> alignment_ok align -> heap_alloc n align (kernel_heap s) = Ret (r, h) ->
    system_step s {| kernel_heap := h; held := if r =? 0 then held s else <[r := n]> (held s); other_areas := other_areas s |}
| step_free s p h : p = 0 \/ held s !! p <> None -> heap_free p (kernel_heap s) = Ret (tt, h) ->
    system_step s {| kernel_heap := h; held := delete p (held s); other_areas := other_areas s |}
| step_other_alloc s n prot r v : in_width 64 n -> vmm_alloc n prot (m_vmm (kernel_heap s)) = Ret (r, v) ->
    system_step s {| kernel_heap := set_heap_dl (m_dl (kernel_heap s), v) (kernel_heap s); held := held s;
      other_areas := match r with Ok p => <[p := whole_pages n]> (other_areas s) | Err _ => other_areas s end |}
| step_other_free s p n r v : 0 <= n -> n + 4095 < 2 ^ 64 -> other_areas s !! p = Some (whole_pages n) ->
    vmm_free p n (m_vmm (kernel_heap s)) = Ret (r, v) ->
    system_step s {| kernel_heap := set_heap_dl (m_dl (kernel_heap s), v) (kernel_heap s); held := held s;
      other_areas := delete p (other_areas s) |}.

(** The areas are the heap's own and those of the others; a heap that is not ready has no blocks. *)
Record system_ok (s : system) (areas own : gmap Z Z) : Prop := {
  system_heap : heap_ok (kernel_heap s) areas own (held s);
  system_others : other_areas s ⊆ areas;
  system_apart p n : other_areas s !! p = Some n -> own !! p = None;
  system_idle : m_heap_ready (kernel_heap s) = false -> held s = ∅;
  system_no_null : held s !! 0 = None;
}.

Lemma others_kept_step s areas own areas' own' :
  other_areas s ⊆ areas -> (forall p n, other_areas s !! p = Some n -> own !! p = None) ->
  others_kept areas own areas' own' ->
  other_areas s ⊆ areas' /\ forall p n, other_areas s !! p = Some n -> own' !! p = None.
Proof.
  intros Hsub Hap Hkept. split; [apply map_subseteq_spec|]; intros p n Hp; destruct (Hkept p n) as [Hk1 Hk2]; eauto using lookup_weaken.
Qed.

Lemma system_step_alloc s areas own n align r h :
  system_ok s areas own -> in_width 64 n -> alignment_ok align -> heap_alloc n align (kernel_heap s) = Ret (r, h) ->
  exists areas' own', system_ok {| kernel_heap := h; held := if r =? 0 then held s else <[r := n]> (held s);
    other_areas := other_areas s |} areas' own'.
Proof.
  intros [Hh Hsub Hap Hidle Hnull] Hn Ha E. destruct (m_heap_ready (kernel_heap s)) eqn:Hready; cycle 1.
  { unfold heap_alloc, mbind, kernel_bind, gets in E. rewrite Hready in E. discriminate. }
  pose proof (wp_heap_alloc n align _ _ _ _ Hh Hready Hn Ha) as Hwp. unfold wp in Hwp. rewrite E in Hwp.
  destruct Hwp as (areas' & own' & blocks' & Hh' & Hr' & Hkept & Hres). exists areas', own'.
  destruct (others_kept_step s _ _ _ _ Hsub Hap Hkept) as [Hsub' Hap'].
  assert (Hb : (if r =? 0 then held s else <[r := n]> (held s)) = blocks' /\ blocks' !! 0 = None).
  { destruct Hres as [[-> ->]|(Hpos & _ & _ & _ & _ & ->)]; [done|].
    destruct (Z.eqb_spec r 0); [lia|]. by rewrite lookup_insert_ne by lia. }
  destruct Hb as [-> Hb]. split; try done. cbn. congruence.
Qed.

Lemma system_step_free s areas own p h :
  system_ok s areas own -> p = 0 \/ held s !! p <> None -> heap_free p (kernel_heap s) = Ret (tt, h) ->
  exists areas' own', system_ok {| kernel_heap := h; held := delete p (held s); other_areas := other_areas s |} areas' own'.
Proof.
  intros [Hh Hsub Hap Hidle Hnull] Hp E. destruct (m_heap_ready (kernel_heap s)) eqn:Hready.
  - pose proof (wp_heap_free p _ _ _ _ Hh Hready Hp Hnull) as Hwp. unfold wp in Hwp. rewrite E in Hwp.
    destruct Hwp as (areas' & own' & Hh' & Hr' & Hkept). exists areas', own'.
    destruct (others_kept_step s _ _ _ _ Hsub Hap Hkept) as [Hsub' Hap']. split; try done; cbn.
    + congruence.
    + by rewrite lookup_delete_None; right.
  - exists areas, own. rewrite (Hidle eq_refl) in *. destruct Hp as [->|Hp]; [|by rewrite lookup_empty in Hp].
    injection E as <-. rewrite delete_id by done. by split.
Qed.

Lemma heap_ok_vmm s areas own blocks v areas' :
  heap_ok s areas own blocks -> manager_ok v areas' -> own ⊆ areas' ->
  heap_ok (set_heap_dl (m_dl s, v) s) areas' own blocks.
Proof. intros [Hl [_ _ Hinv]] Hv Hsub. by split. Qed.

Lemma system_step_ok s s' areas own :
  system_step s s' -> system_ok s areas own -> exists areas' own', system_ok s' areas' own'.
Proof.
  intros Hstep Hs. destruct Hstep as [s h r E | s n align r h Hn Ha E | s p h Hp E | s n prot r v Hn E | s p n r v Hn Hmax Hp E].
  - exists areas, own. injection E as _ <-. destruct Hs as [[Hl Hat] ? ? Hidle ?]. by split.
  - by eapply system_step_alloc.
  - by eapply system_step_free.
  - destruct Hs as [Hh Hsub Hap Hidle Hnull]. pose proof Hh as [_ [Hv Hown _]].
    pose proof (wp_manager_alloc _ _ n prot Hv Hn) as Hwp. unfold wp in Hwp. cbn [snd] in Hwp. rewrite E in Hwp.
    destruct r as [p|e]; [|by exists areas, own; split; [by eapply heap_ok_vmm | done..]].
    destruct Hwp as (_ & _ & _ & Hnone & Hv'). exists (<[p := whole_pages n]> areas), own.
    assert (Hp : own !! p = None) by (by eapply lookup_weaken_None).
    split; try done; cbn [kernel_heap held other_areas].
    + eapply heap_ok_vmm; [done | done|]. by apply insert_subseteq_r.
    + by apply insert_mono.
    + intros q k [[<- _]|[_ Hq]]%lookup_insert_Some; [done | by eapply Hap].
  - destruct Hs as [Hh Hsub Hap Hidle Hnull]. pose proof Hh as [_ [Hv Hown _]].
    pose proof (wp_manager_free _ _ p n Hv Hn Hmax) as Hwp. unfold wp in Hwp. cbn [snd] in Hwp. rewrite E in Hwp.
    rewrite decide_True in Hwp by by eapply lookup_weaken. destruct Hwp as [_ Hv']. exists (delete p areas), own.
    split; try done; cbn [kernel_heap held other_areas].
    + eapply heap_ok_vmm; [done | done|]. apply map_subseteq_spec. intros q k Hq.
      apply lookup_delete_Some. split; [|by eapply lookup_weaken]. intros <-. by rewrite (Hap _ _ Hp) in Hq.
    + by apply delete_mono.
    + intros q k [_ Hq]%lookup_delete_Some. by eapply Hap.
Qed.

Lemma system_run s s' areas own :
  system_ok s areas own -> rtc system_step s s' -> exists areas' own', system_ok s' areas' own'.
Proof.
  intros Hs Hrun. revert areas own Hs. induction Hrun as [s|s s1 s2 Hstep _ IH]; intros areas own Hs; [by eauto|].
  destruct (system_step_ok _ _ _ _ Hstep Hs) as (areas1 & own1 & Hs1). by eapply IH.
Qed.

(** What every part of the kernel can rely on. *)
Record memory_separate (s : system) : Prop := {
  separate_backed p n y : held s !! p = Some n -> p <= y < p + n ->
    allocated (m_allocations (m_vmm (kernel_heap s))) (m_count (m_vmm (kernel_heap s))) y;
  separate_blocks p n q k : held s !! p = Some n -> held s !! q = Some k -> p <> q -> disjoint_ranges p n q k;
  separate_others p n q k : held s !! p = Some n -> other_areas s !! q = Some k -> disjoint_ranges p n q k;
  separate_unlocked : m_lock (kernel_heap s) = SPINLOCK_UNLOCKED;
}.

Lemma system_separate s areas own : system_ok s areas own -> memory_separate s.
Proof.
  intros [[Hl [[Hv Ha] Hown Hinv]] Hsub Hap _ _]. pose proof (malloc_blocks _ _ _ Hinv) as [Hin Hd].
  assert (Hrun : forall p n, held s !! p = Some n -> exists b z, own !! b = Some z /\ b <= p /\ p + n <= b + z /\
    is_run (allocated (m_allocations (m_vmm (kernel_heap s))) (m_count (m_vmm (kernel_heap s)))) b z).
  { intros p n Hp. destruct (Hin p n Hp) as (b & z & Hb & Hlo & Hhi). exists b, z. do 3 (split; [done|]).
    apply Ha. by eapply lookup_weaken. }
  split; [| done | | done].
  - intros p n y Hp Hy. destruct (Hrun p n Hp) as (b & z & _ & Hlo & Hhi & [_ Hi _ _]). apply Hi. lia.
  - intros p n q k Hp Hq. destruct (Hrun p n Hp) as (b & z & Hb & Hlo & Hhi & Hbz).
    assert (b <> q) as Hne by (intros ->; pose proof (Hap _ _ Hq); congruence).
    assert (Hqk : areas !! q = Some k) by by eapply lookup_weaken.
    apply Ha in Hqk. pose proof (run_disjoint _ _ _ _ _ Hbz Hqk Hne). unfold disjoint_ranges. lia.
Qed.

(** Allocation, on every branch.  Before the component has started it panics.  Then it answers null (for no
    bytes, or when there is no memory) and no block has changed; or a block inside an area of the manager,
    apart from every other one, with the alignment asked for and at least the natural one; areas of others stay. *)
Theorem heap_alloc_correct n align s areas own blocks :
  heap_ok s areas own blocks -> in_width 64 n -> alignment_ok align ->
  if m_heap_ready s then wp (heap_alloc n align) (heap_result n align s areas own blocks) s
  else heap_alloc n align s = Panic "kernel heap used before KHEAP init".
Proof.
  intros Hs Hn Ha. destruct (m_heap_ready s) eqn:E; [by apply wp_heap_alloc|].
  unfold heap_alloc, mbind, kernel_bind, gets. by rewrite E.
Qed.

(** C38: In every run of the kernel from a heap with no blocks, whatever the order of its clients' calls and those of
    other parts to the manager: each block lies in allocated pages, blocks are apart from each other and from the
    areas of others, and the lock is free between calls. *)
Theorem heap_blocks_separate s s' areas own :
  system_ok s areas own -> rtc system_step s s' -> memory_separate s'.
Proof. intros Hs Hrun. destruct (system_run _ _ _ _ Hs Hrun) as (? & ? & Hs'). by eapply system_separate. Qed.
End HeapFacts.
End KernelOs.

(** ** A model of the allocator's laws: each block has pages of its own *)
Section PageHeap.
Definition set_snd {A B} (x : B) (s : A * B) : A * B := (fst s, x).

Definition page_malloc (S : Type) `{os_memory S} (n : Z) : kernel (gmap Z Z * S) Z :=
  r ← zoom snd set_snd (os_mmap n);
  if r =? MFAIL then mret 0 else modify (fun s => (<[r := n]> (fst s), snd s));; mret r.

#[local] Instance page_heap : heap_code := {|
  malloc_state := gmap Z Z;
  dlmalloc := page_malloc;
  dlmemalign S _ align n := if align <=? 4096 then page_malloc S n else mret 0;
  dlfree S _ p :=
    d ← gets fst;
    match d !! p with
    | None => zoom snd set_snd os_abort
    | Some n => zoom snd set_snd (os_munmap p n);; modify (fun s => (delete p (fst s), snd s))
    end;
|}.

Record page_inv (d own blocks : gmap Z Z) : Prop := {
  page_blocks : d = blocks;
  page_own : own = whole_pages <$> blocks;
  page_size : map_Forall (fun p n => 0 < n /\ n + 4095 < 2 ^ 64) blocks;
  page_apart p n q k : own !! p = Some n -> own !! q = Some k -> p <> q -> disjoint_ranges p n q k;
}.

Lemma page_inv_blocks d own blocks : page_inv d own blocks -> blocks_ok own blocks.
Proof.
  intros [_ -> Hsize Hap]. assert (Hle : forall n, n <= whole_pages n) by (unfold whole_pages; intros n; div_lia).
  split.
  - intros p n Hp. exists p, (whole_pages n). split; [by rewrite lookup_fmap, Hp|]. pose proof (Hle n). lia.
  - intros p n q k Hp Hq Hne. assert (Hd : disjoint_ranges p (whole_pages n) q (whole_pages k)).
    { apply Hap; [by rewrite lookup_fmap, Hp | by rewrite lookup_fmap, Hq | done]. }
    unfold disjoint_ranges in *. pose proof (Hle n). pose proof (Hle k). lia.
Qed.

Lemma wp_page_malloc {T : Type} `{os_memory_laws T} (s : gmap Z Z * T) areas own blocks a n :
  heap_at page_inv s areas own blocks -> in_width 64 n -> 0 < n -> 0 < a -> 4096 mod a = 0 ->
  wp (page_malloc T n) (fun r s' => exists areas' own' blocks',
    new_block a n r blocks blocks' /\ heap_at page_inv s' areas' own' blocks' /\ others_kept areas own areas' own') s.
Proof.
  intros [Hos Hsub Hinv] Hn Hpos Ha Hdiv. apply wp_bind, wp_zoom. eapply wp_mono; [by apply (os_mmap_law _ areas)|].
  intros r s' [[-> Hs']|(_ & Hr & Hm & Hmax & Hfar & Hnone & Hs')].
  - apply wp_ret. exists areas, own, blocks. split; [by left|]. by split.
  - assert (Hmin : n <= whole_pages n /\ 0 < whole_pages n) by (unfold whole_pages; split; div_lia).
    destruct (Z.eqb_spec r MFAIL) as [->|_]; [vm_compute in Hm; discriminate|].
    apply wp_bind, wp_modify, wp_ret. destruct Hinv as [Hd Hown Hsize Hap].
    exists (<[r := whole_pages n]> areas), (<[r := whole_pages n]> own), (<[r := n]> blocks).
    assert (Hno : own !! r = None) by by eapply lookup_weaken_None.
    split; [|split; [split|]]; cbn [fst snd set_snd].
    + right. split; [done|]. split; [|split; [|done]].
      * apply Z.mod_divide in Hdiv; [|lia]. apply Z.mod_divide in Hm; [|lia]. apply Z.mod_divide; [lia|].
        by eapply Z.divide_trans.
      * rewrite Hown, lookup_fmap in Hno. by destruct (blocks !! r).
    + done.
    + by apply insert_mono.
    + split; [exact (f_equal (base.insert r n) Hd) | by rewrite fmap_insert, Hown | |].
      * assert (Hr2 : 4096 <= r) by (clear - Hr Hm; div_lia). apply map_Forall_insert_2; [lia | done].
      * assert (Hfar' : forall q k, own !! q = Some k -> disjoint_ranges r (whole_pages n) q k).
        { intros q k Hq. apply (Hfar q k). by eapply lookup_weaken. }
        intros p1 n1 q k [[<- <-]|[_ Hp1]]%lookup_insert_Some [[<- <-]|[_ Hq]]%lookup_insert_Some Hne; [done | by apply Hfar' | | by eapply Hap].
        pose proof (Hfar' _ _ Hp1). unfold disjoint_ranges in *. lia.
    + intros p1 n1 Hp1 Hq1. assert (r <> p1) by congruence. by rewrite !lookup_insert_ne.
Qed.

#[local] Instance page_heap_laws : heap_code_laws.
Proof.
  refine {| malloc_inv := page_inv |}.
  - exact page_inv_blocks.
  - intros S HS HL s areas own blocks n Hat Hn Hpos. by apply (wp_page_malloc s areas own).
  - intros S HS HL s areas own blocks k n Hat Hn Hpos Hk. cbn [dlmemalign page_heap].
    destruct (Z.leb_spec (2 ^ k) 4096) as [Hle|Hgt].
    + apply (wp_page_malloc s areas own); try done; [lia|]. apply Z.mod_divide; [lia|].
      assert (Hk12 : k <= 12) by (apply (Z.pow_le_mono_r_iff 2); lia). exists (2 ^ (12 - k)).
      rewrite <- Z.pow_add_r by lia. change 4096 with (2 ^ 12). f_equal. lia.
    + apply wp_ret. exists areas, own, blocks. split; [by left|]. by split.
  - intros S HS HL s areas own blocks p [Hos Hsub Hinv] Hp. cbn [dlfree malloc_state page_heap] in *. apply wp_bind, wp_gets.
    destruct Hinv as [Hd Hown Hsize Hap]. destruct s as [d st]. cbn [fst snd] in *. subst d.
    destruct (blocks !! p) as [n|] eqn:En; [|done].
    destruct (Hsize p n En) as [Hn Hmax].
    assert (Hpo : own !! p = Some (whole_pages n)) by by rewrite Hown, lookup_fmap, En.
    apply wp_bind, wp_zoom. eapply wp_mono; [apply (os_munmap_law _ areas); [done | lia | done]|].
    intros r s' Hr. cbv beta in Hr. rewrite decide_True in Hr by by eapply lookup_weaken. destruct Hr as [_ Hs'].
    apply wp_modify. exists (delete p areas), (delete p own). split; [split|]; cbn [fst snd set_snd].
    + done.
    + by apply delete_mono.
    + split; [done | by rewrite fmap_delete, Hown | by apply map_Forall_delete|].
      intros p1 n1 q k [_ Hp1]%lookup_delete_Some [_ Hq]%lookup_delete_Some. by eapply Hap.
    + intros p1 n1 Hp1 Hq1. assert (p <> p1) by congruence. by rewrite !lookup_delete_ne.
Defined.

(** ** The properties at work: a heap on an empty area *)
#[local] Existing Instance Mmu.example_layout.
#[local] Existing Instance Mmu.example_layout_ok.
#[local] Existing Instance Mmu.example_image.
#[local] Existing Instance Mmu.example_features.

Lemma example_manager : exists v, manager_ok example_root v ∅.
Proof. destruct example_vmm as (v & Hv). exists v. by apply manager_empty. Qed.

Definition fresh_heap (v : vmm) : heap := heap_init ∅ v.
Definition ready_heap (v : vmm) : heap := set_heap_ready true (fresh_heap v).

Lemma example_heap_ok ready v :
  manager_ok example_root v ∅ -> heap_ok example_root (set_heap_ready ready (fresh_heap v)) ∅ ∅ ∅.
Proof. intros Hv. split; [done|]. split; [exact Hv | done|]. by split. Qed.

Lemma heap_alloc_correct_witness : exists v,
  heap_alloc 100 64 (fresh_heap v) = Panic "kernel heap used before KHEAP init" /\
  wp (heap_alloc 100 64) (fun r _ => 0 <= r /\ r mod 64 = 0) (ready_heap v).
Proof.
  destruct example_manager as (v & Hv). exists v. split.
  - refine (heap_alloc_correct example_root 100 64 (fresh_heap v) ∅ ∅ ∅ (example_heap_ok false v Hv) _ _); [by vm_compute|].
    right. by exists 6.
  - eapply wp_mono.
    { refine (heap_alloc_correct example_root 100 64 (ready_heap v) ∅ ∅ ∅ (example_heap_ok true v Hv) _ _); [by vm_compute|].
      right. by exists 6. }
    intros r s' (areas & own & blocks & _ & _ & _ & [[-> _]|(Hr & _ & Hm & _)]); [by vm_compute|].
    change (Z.max NATURAL_ALIGNMENT 64) with 64 in Hm. lia.
Defined.

(** With memory in the area, a hundred bytes are given out. *)
Lemma example_block v :
  vmm_ok example_root ∅ v -> m_count v = 0 -> 100 <= free_count (space v) ->
  wp (heap_alloc 100 16) (fun r _ => r <> 0) (ready_heap v).
Proof.
  intros Hv Hc Hf. apply wp_bind, wp_gets. cbn [negb m_heap_ready ready_heap set_heap_ready Z.eqb].
  change (16 <=? NATURAL_ALIGNMENT) with true. cbv iota.
  apply wp_guarded_by; [unfold LOCK_FUEL; lia | done |]. apply wp_zoom.
  apply wp_bind, wp_zoom, wp_bind. eapply wp_mono; [apply (wp_vmm_alloc example_root ∅ v 100); [exact Hv | lia]|].
  intros [base|e] v' Hout; apply wp_ret.
  - destruct Hout as (b' & _ & _ & [_ [Hlo _] Hhi] & _). unfold AREA_END, VMALLOC_BASE, VMALLOC_SIZE in *.
    destruct (Z.eqb_spec base MFAIL) as [E|_]; [change MFAIL with (2 ^ 64 - 1) in E; change (whole_pages 100) with 4096 in Hhi; lia|].
    apply wp_bind, wp_modify, wp_ret. lia.
  - exfalso. destruct Hout as (_ & _ & _ & _ & [[_ [E|E]]|(_ & _ & E)]); [discriminate E | by vm_compute in E |].
    destruct E as [E|[E|E]]; [by rewrite Hc in E | | change (frames_needed (whole_pages 100)) with 7 in E; lia].
    apply E. exists VMALLOC_BASE. split; [by split; vm_compute|]. intros y _ (i & Hi & _). lia.
Qed.

(** A run: the component starts, and a client asks for a hundred bytes. *)
Lemma example_heap_run v :
  vmm_ok example_root ∅ v -> m_count v = 0 -> 100 <= free_count (space v) -> exists r h, r <> 0 /\
  rtc system_step {| kernel_heap := fresh_heap v; held := ∅; other_areas := ∅ |}
    {| kernel_heap := h; held := <[r := 100]> ∅; other_areas := ∅ |}.
Proof.
  intros Hv Hc Hf. destruct (wp_elim _ _ _ (example_block v Hv Hc Hf)) as (r & h & E & Hr). exists r, h. split; [done|].
  eapply rtc_l; [by apply (step_start {| kernel_heap := fresh_heap v; held := ∅; other_areas := ∅ |} (ready_heap v) (Ok tt))|].
  apply rtc_once. replace (<[r := 100]> ∅) with (if r =? 0 then ∅ else <[r := 100]> (∅ : gmap Z Z))
    by by rewrite (proj2 (Z.eqb_neq r 0) Hr).
  apply (step_alloc {| kernel_heap := ready_heap v; held := ∅; other_areas := ∅ |} 100 16); [by vm_compute | by left | exact E].
Qed.

Lemma heap_blocks_separate_witness : exists v r h,
  r <> 0 /\
  rtc system_step {| kernel_heap := fresh_heap v; held := ∅; other_areas := ∅ |}
    {| kernel_heap := h; held := <[r := 100]> ∅; other_areas := ∅ |} /\
  memory_separate {| kernel_heap := h; held := <[r := 100]> ∅; other_areas := ∅ |}.
Proof.
  destruct example_memory as (v & Hv & Hc & Hf). destruct (example_heap_run v Hv Hc Hf) as (r & h & Hr & Hrun). exists v, r, h.
  split; [exact Hr|]. split; [exact Hrun|]. refine (heap_blocks_separate example_root _ _ ∅ ∅ _ Hrun).
  split; [exact (example_heap_ok false v (manager_empty _ v Hv)) | done | done | done | done].
Defined.
End PageHeap.
