(* ===== verification/Registry.v ===== *)
(** * Registry: the driver metadata of [include/uk/registry.hpp] and [include/uk/capability.hpp]

    Drivers describe themselves by constant records that the linker gathers into sections.  A
    pointer to a constant object is an address, with the objects behind the addresses given by the
    image; a C string is the characters before its terminator, and a null string is [None]. *)

From S2P Require Import Prelude.

Definition pointer : Type := Z.
Definition nullptr : pointer := 0.

Inductive capability_multiplicity : Type := SINGLE | MULTIPLE.

#[export] Instance capability_multiplicity_eq_dec : EqDecision capability_multiplicity.
Proof. solve_decision. Defined.

Record driver_id : Type := { driver_name : option string }.

Record capability_key : Type := {
  key_name : option string;
  multiplicity : capability_multiplicity;
}.

Inductive error : Type :=
| UNSPECIFIED
| CAPACITY_EXCEEDED
| INVALID_RECORD
| DUPLICATE_DRIVER
| DUPLICATE_DRIVER_ENTRY
| DUPLICATE_DRIVER_EXIT
| UNKNOWN_DRIVER
| UNKNOWN_DRIVER_DEPENDENCY
| MISSING_CAPABILITY_PROVIDER
| MULTIPLE_CAPABILITY_PROVIDERS
| DEPENDENCY_CYCLE
| CAPABILITY_RESOLVE_FAILED.

#[export] Instance error_eq_dec : EqDecision error.
Proof. solve_decision. Defined.

Definition init_result : Type := Result unit error.

Record init_record : Type := { init_driver : pointer; init_entry : pointer }.
Record exit_record : Type := { exit_driver : pointer; exit_entry : pointer }.
Record provide_record : Type := {
  provide_driver : pointer;
  provide_capability : pointer;
  provide_resolve : pointer;
}.
Record require_driver_record : Type := {
  require_driver : pointer;
  dependency_name : option string;
}.
Record require_capability_record : Type := {
  requiring_driver : pointer;
  required_capability : pointer;
}.

Definition describe (value : error) : string :=
  match value with
  | UNSPECIFIED => "unspecified failure"
  | CAPACITY_EXCEEDED => "driver registry capacity exceeded"
  | INVALID_RECORD => "invalid driver metadata record"
  | DUPLICATE_DRIVER => "duplicate driver name"
  | DUPLICATE_DRIVER_ENTRY => "driver has more than one entry point"
  | DUPLICATE_DRIVER_EXIT => "driver has more than one exit point"
  | UNKNOWN_DRIVER => "metadata references an unknown driver"
  | UNKNOWN_DRIVER_DEPENDENCY => "driver depends on an unknown driver"
  | MISSING_CAPABILITY_PROVIDER => "driver capability has no provider"
  | MULTIPLE_CAPABILITY_PROVIDERS => "singleton driver capability has multiple providers"
  | DEPENDENCY_CYCLE => "driver dependency cycle detected"
  | CAPABILITY_RESOLVE_FAILED => "driver capability resolver returned null"
  end%string.

(** A linker section: its elements, or [None] when the weak symbols that bound it are null. *)
Definition section_range (T : Type) : Type := option (list T).

Definition section_items {T} (r : section_range T) : list T :=
  match r with
  | Some items => items
  | None => []
  end.

Definition section_empty {T} (r : section_range T) : bool := bool_decide (length (section_items r) = 0%nat).

Definition section_size {T} (r : section_range T) : Z := zlen (section_items r).

(** The sections of the image, and the objects the records point to. *)
Class registry : Type := {
  driver_at : pointer -> driver_id;
  key_at : pointer -> capability_key;
  driver_ids : section_range pointer;
  driver_init : section_range init_record;
  driver_exit : section_range exit_record;
  driver_provides : section_range provide_record;
  driver_requires_driver : section_range require_driver_record;
  driver_requires_capability : section_range require_capability_record;
}.

Section Registry.
Context `{registry}.

Definition drivers : list pointer := section_items driver_ids.
Definition init_records : list init_record := section_items driver_init.
Definition exit_records : list exit_record := section_items driver_exit.
Definition provide_records : list provide_record := section_items driver_provides.
Definition require_driver_records : list require_driver_record :=
  section_items driver_requires_driver.
Definition require_capability_records : list require_capability_record :=
  section_items driver_requires_capability.

(** [id->name] and [key->...] on a pointer: undefined on null. *)
Definition name_of {S} (id : pointer) : kernel S (option string) :=
  if id =? nullptr then undefined else mret (driver_name (driver_at id)).

Definition key_of {S} (key : pointer) : kernel S capability_key :=
  if key =? nullptr then undefined else mret (key_at key).
End Registry.
