(* ===== verification/Lifecycle.v ===== *)
(** * Lifecycle: starting and stopping the drivers, [kernel/device/lifecycle.cpp]

    The registry of drivers is built from the linker sections and validated; the drivers are then
    initialised by a depth-first walk of their dependencies and stopped in the reverse order.  The
    code of the drivers is a parameter: a driver's functions act on the rest of the kernel, [W],
    and see the lifecycle's state only through [find_capability].  The messages on the console are
    kept as a log of events. *)

From S2P Require Import Prelude Boot Registry.

Definition MAX_DRIVERS : Z := 128.
Definition MAX_REGISTERED_CAPABILITIES : Z := 256.

Inductive visit_state : Type := NOT_VISITED | VISITING | VISITED.

#[export] Instance visit_state_eq_dec : EqDecision visit_state.
Proof. solve_decision. Defined.

Record driver_node : Type := {
  node_id : pointer;
  node_init : pointer;
  node_exit : pointer;
  node_visit : visit_state;
  node_initialized : bool;
}.

Definition driver_node_init (id : pointer) : driver_node :=
  {| node_id := id; node_init := nullptr; node_exit := nullptr; node_visit := NOT_VISITED;
     node_initialized := false |}.

#[export] Instance driver_node_inhabited : Inhabited driver_node :=
  {| inhabitant := driver_node_init nullptr |}.

Record registered_capability : Type := {
  cap_key : pointer;
  cap_driver : pointer;
  cap_api : pointer;
}.

#[export] Instance registered_capability_inhabited : Inhabited registered_capability :=
  {| inhabitant := {| cap_key := nullptr; cap_driver := nullptr; cap_api := nullptr |} |}.

(** [initialized] holds pointers into [nodes]: an index, or [None] for null. *)
Record lifecycle_state : Type := {
  nodes : list driver_node;
  node_count : Z;
  initialized : list (option Z);
  initialized_count : Z;
  capabilities : list registered_capability;
  capability_count : Z;
  built : bool;
  initialized_all : bool;
}.

Definition lifecycle_state_init : lifecycle_state := {|
  nodes := replicate (Z.to_nat MAX_DRIVERS) inhabitant;
  node_count := 0;
  initialized := replicate (Z.to_nat MAX_DRIVERS) None;
  initialized_count := 0;
  capabilities := replicate (Z.to_nat MAX_REGISTERED_CAPABILITIES) inhabitant;
  capability_count := 0;
  built := false;
  initialized_all := false;
|}.

Definition set_nodes x s := {| nodes := x; node_count := node_count s; initialized := initialized s;
  initialized_count := initialized_count s; capabilities := capabilities s;
  capability_count := capability_count s; built := built s; initialized_all := initialized_all s |}.
Definition set_node_count x s := {| nodes := nodes s; node_count := x; initialized := initialized s;
  initialized_count := initialized_count s; capabilities := capabilities s;
  capability_count := capability_count s; built := built s; initialized_all := initialized_all s |}.
Definition set_initialized x s := {| nodes := nodes s; node_count := node_count s; initialized := x;
  initialized_count := initialized_count s; capabilities := capabilities s;
  capability_count := capability_count s; built := built s; initialized_all := initialized_all s |}.
Definition set_initialized_count x s := {| nodes := nodes s; node_count := node_count s;
  initialized := initialized s; initialized_count := x; capabilities := capabilities s;
  capability_count := capability_count s; built := built s; initialized_all := initialized_all s |}.
Definition set_capabilities x s := {| nodes := nodes s; node_count := node_count s;
  initialized := initialized s; initialized_count := initialized_count s; capabilities := x;
  capability_count := capability_count s; built := built s; initialized_all := initialized_all s |}.
Definition set_capability_count x s := {| nodes := nodes s; node_count := node_count s;
  initialized := initialized s; initialized_count := initialized_count s;
  capabilities := capabilities s; capability_count := x; built := built s;
  initialized_all := initialized_all s |}.
Definition set_built x s := {| nodes := nodes s; node_count := node_count s;
  initialized := initialized s; initialized_count := initialized_count s;
  capabilities := capabilities s; capability_count := capability_count s; built := x;
  initialized_all := initialized_all s |}.
Definition set_initialized_all x s := {| nodes := nodes s; node_count := node_count s;
  initialized := initialized s; initialized_count := initialized_count s;
  capabilities := capabilities s; capability_count := capability_count s; built := built s;
  initialized_all := x |}.

Definition with_init f n := {| node_id := node_id n; node_init := f; node_exit := node_exit n;
  node_visit := node_visit n; node_initialized := node_initialized n |}.
Definition with_exit f n := {| node_id := node_id n; node_init := node_init n; node_exit := f;
  node_visit := node_visit n; node_initialized := node_initialized n |}.
Definition with_visit v n := {| node_id := node_id n; node_init := node_init n;
  node_exit := node_exit n; node_visit := v; node_initialized := node_initialized n |}.
Definition with_initialized b n := {| node_id := node_id n; node_init := node_init n;
  node_exit := node_exit n; node_visit := node_visit n; node_initialized := b |}.

(** The code behind the function pointers of the records. *)
Class driver_code (W : Type) : Type := {
  call_init : pointer -> lifecycle_state -> kernel W init_result;
  call_exit : pointer -> lifecycle_state -> kernel W unit;
  call_resolve : pointer -> lifecycle_state -> kernel W pointer;
}.

(** What the lifecycle prints. *)
Inductive event : Type :=
| Starting (driver : option string)
| Failed (driver : option string) (reason : error)
| Started (driver : option string)
| Exiting (driver : option string)
| RegistryFailed (reason : error).

Record lifecycle (W : Type) : Type := {
  m_state : lifecycle_state;
  world : W;
  log : list event;
}.
Arguments m_state {W} _.
Arguments world {W} _.
Arguments log {W} _.

(** [strcmp]-like equality of two C strings, null included. *)
Fixpoint equal_from (lhs rhs : string) : bool :=
  match lhs, rhs with
  | String a lhs', String b rhs' => if Ascii.eqb a b then equal_from lhs' rhs' else false
  | EmptyString, EmptyString => true
  | _, _ => false
  end.

Definition string_equal (lhs rhs : option string) : bool :=
  match lhs, rhs with
  | None, None => true
  | Some l, Some r => equal_from l r
  | _, _ => false
  end.

Definition same_capability (lhs rhs : capability_key) : bool :=
  string_equal (key_name lhs) (key_name rhs).

Definition is_singleton (key : capability_key) : bool := bool_decide (multiplicity key = SINGLE).

Section Lifecycle.
Context {W : Type} `{registry} `{driver_code W}.
Implicit Types key : capability_key.

Local Abbreviation M := (kernel (lifecycle W)).

Definition set_state (x : lifecycle_state) (m : lifecycle W) : lifecycle W :=
  {| m_state := x; world := world m; log := log m |}.

Definition on_state {A} (c : kernel lifecycle_state A) : M A := zoom m_state set_state c.

(** A call of a driver's function. *)
Definition call {A} (f : lifecycle_state -> kernel W A) : M A :=
  s ← gets m_state;
  zoom world (fun w m => {| m_state := m_state m; world := w; log := log m |}) (f s).

Definition kprintln (e : event) : M unit :=
  modify (fun m => {| m_state := m_state m; world := world m; log := log m ++ [e] |}).

Definition get_node (i : Z) : M driver_node := on_state (zoom nodes set_nodes (array_get i)).
Definition update_node (i : Z) (f : driver_node -> driver_node) : M unit :=
  n ← get_node i; on_state (zoom nodes set_nodes (array_set i (f n))).
Definition count : M Z := on_state (gets node_count).

(** The first driver that satisfies a test, of those registered so far. *)
Definition search (test : driver_node -> M bool) : M (option Z) :=
  n ← count;
  scan_range 0 n (fun i =>
    node ← get_node i;
    b ← test node;
    mret (if b : bool then Some i else None)).

Definition find_node (id : pointer) : M (option Z) :=
  if id =? nullptr then mret None
  else search (fun node =>
    if node_id node =? id then mret true
    else
      node_name ← name_of (node_id node);
      name ← name_of id;
      mret (string_equal node_name name)).

Definition find_node_named (name : option string) : M (option Z) :=
  match name with
  | None => mret None
  | Some _ => search (fun node =>
      node_name ← name_of (node_id node); mret (string_equal node_name name))
  end.

Definition add_driver (id : pointer) : M init_result :=
  name ← name_of id;
  match name with
  | None => mret (Err INVALID_RECORD)
  | Some _ =>
      existing ← find_node_named name;
      match existing with
      | Some _ => mret (Err DUPLICATE_DRIVER)
      | None =>
          n ← count;
          if n =? MAX_DRIVERS then mret (Err CAPACITY_EXCEEDED)
          else
            on_state (zoom nodes set_nodes (array_set n (driver_node_init id)));;
            on_state (modify (set_node_count (n + 1)));;
            mret (Ok tt)
      end
  end.

Definition provides key (record : provide_record) : bool :=
  negb (provide_capability record =? nullptr) &&
  same_capability (key_at (provide_capability record)) key.

Definition provider_record_count key : Z :=
  fold_left (fun n record => if provides key record then n + 1 else n) provide_records 0.

Definition validate_provider_count key : init_result :=
  if is_singleton key && (1 <? provider_record_count key) then Err MULTIPLE_CAPABILITY_PROVIDERS
  else Ok tt.

Definition attach_init_records : M init_result :=
  try_each init_records (fun record =>
    if (init_driver record =? nullptr) || (init_entry record =? nullptr) then
      mret (Err INVALID_RECORD)
    else
      found ← find_node (init_driver record);
      match found with
      | None => mret (Err UNKNOWN_DRIVER)
      | Some i =>
          node ← get_node i;
          if negb (node_init node =? nullptr) then mret (Err DUPLICATE_DRIVER_ENTRY)
          else update_node i (with_init (init_entry record));; mret (Ok tt)
      end).

Definition attach_exit_records : M init_result :=
  try_each exit_records (fun record =>
    if (exit_driver record =? nullptr) || (exit_entry record =? nullptr) then
      mret (Err INVALID_RECORD)
    else
      found ← find_node (exit_driver record);
      match found with
      | None => mret (Err UNKNOWN_DRIVER)
      | Some i =>
          node ← get_node i;
          if negb (node_exit node =? nullptr) then mret (Err DUPLICATE_DRIVER_EXIT)
          else update_node i (with_exit (exit_entry record));; mret (Ok tt)
      end).

Definition null_key (capability : pointer) : bool :=
  (capability =? nullptr) || bool_decide (key_name (key_at capability) = None).

Definition validate_dependency_records : M init_result :=
  _ ←? try_each require_driver_records (fun record =>
    if (require_driver record =? nullptr) || bool_decide (dependency_name record = None) then
      mret (Err INVALID_RECORD)
    else
      found ← find_node (require_driver record);
      match found with
      | None => mret (Err UNKNOWN_DRIVER)
      | Some _ =>
          dependency ← find_node_named (dependency_name record);
          match dependency with
          | None => mret (Err UNKNOWN_DRIVER_DEPENDENCY)
          | Some _ => mret (Ok tt)
          end
      end);
  try_each require_capability_records (fun record =>
    if (requiring_driver record =? nullptr) || null_key (required_capability record) then
      mret (Err INVALID_RECORD)
    else
      found ← find_node (requiring_driver record);
      match found with
      | None => mret (Err UNKNOWN_DRIVER)
      | Some _ =>
          let key := key_at (required_capability record) in
          _ ←? mret (validate_provider_count key);
          if provider_record_count key =? 0 then mret (Err MISSING_CAPABILITY_PROVIDER)
          else mret (Ok tt)
      end).

Definition validate_provider_records : M init_result :=
  try_each provide_records (fun record =>
    if (provide_driver record =? nullptr) || null_key (provide_capability record) ||
       (provide_resolve record =? nullptr) then mret (Err INVALID_RECORD)
    else
      found ← find_node (provide_driver record);
      match found with
      | None => mret (Err UNKNOWN_DRIVER)
      | Some _ => mret (validate_provider_count (key_at (provide_capability record)))
      end).

Definition build_registry : M init_result :=
  b ← on_state (gets built);
  if b : bool then mret (Ok tt)
  else
    on_state (modify (fun _ => lifecycle_state_init));;
    _ ←? try_each drivers add_driver;
    _ ←? attach_init_records;
    _ ←? attach_exit_records;
    _ ←? validate_provider_records;
    _ ←? validate_dependency_records;
    on_state (modify (set_built true));;
    mret (Ok tt).

Definition register_capabilities (i : Z) : M init_result :=
  try_each provide_records (fun record =>
    provider ← name_of (provide_driver record);
    node ← get_node i;
    name ← name_of (node_id node);
    if negb (string_equal provider name) then mret (Ok tt)
    else
      api ← call (call_resolve (provide_resolve record));
      if api =? nullptr then mret (Err CAPABILITY_RESOLVE_FAILED)
      else
        n ← on_state (gets capability_count);
        if n =? MAX_REGISTERED_CAPABILITIES then mret (Err CAPACITY_EXCEEDED)
        else
          on_state (zoom capabilities set_capabilities (array_set n
            {| cap_key := provide_capability record; cap_driver := node_id node; cap_api := api |}));;
          on_state (modify (set_capability_count (n + 1)));;
          mret (Ok tt)).

Definition visit_capability_providers (visit : Z -> M init_result) key : M init_result :=
  _ ←? mret (validate_provider_count key);
  found ←? try_fold provide_records (fun record found =>
    if negb (provides key record) then mret (Ok found)
    else
      provider ← find_node (provide_driver record);
      match provider with
      | None => mret (Err UNKNOWN_DRIVER)
      | Some i => _ ←? visit i; mret (Ok true)
      end) false;
  if found : bool then mret (Ok tt) else mret (Err MISSING_CAPABILITY_PROVIDER).

Definition visit_driver_dependencies (visit : Z -> M init_result) (i : Z) : M init_result :=
  try_each require_driver_records (fun record =>
    requirer ← name_of (require_driver record);
    node ← get_node i;
    name ← name_of (node_id node);
    if negb (string_equal requirer name) then mret (Ok tt)
    else
      dependency ← find_node_named (dependency_name record);
      match dependency with
      | None => mret (Err UNKNOWN_DRIVER_DEPENDENCY)
      | Some j => visit j
      end).

Definition visit_capability_dependencies (visit : Z -> M init_result) (i : Z) : M init_result :=
  try_each require_capability_records (fun record =>
    requirer ← name_of (requiring_driver record);
    node ← get_node i;
    name ← name_of (node_id node);
    if negb (string_equal requirer name) then mret (Ok tt)
    else
      key ← key_of (required_capability record);
      visit_capability_providers visit key).

Definition run_driver (i : Z) : M init_result :=
  node ← get_node i;
  name ← name_of (node_id node);
  kprintln (Starting name);;
  r ← (if node_init node =? nullptr then mret (Ok tt) else call (call_init (node_init node)));
  match r with
  | Err e => kprintln (Failed name e);; mret (Err e)
  | Ok _ =>
      r ← register_capabilities i;
      match r with
      | Err e => kprintln (Failed name e);; mret (Err e)
      | Ok _ =>
          update_node i (with_initialized true);;
          n ← on_state (gets initialized_count);
          on_state (zoom initialized set_initialized (array_set n (Some i)));;
          on_state (modify (set_initialized_count (n + 1)));;
          kprintln (Started name);;
          mret (Ok tt)
      end
  end.

(** The failure of a step of [visit] puts the node back. *)
Definition or_unvisit (i : Z) (m : M init_result) (k : M init_result) : M init_result :=
  r ← m;
  match r with
  | Ok _ => k
  | Err e => update_node i (with_visit NOT_VISITED);; mret (Err e)
  end.

Fixpoint visit (fuel : nat) (i : Z) : M init_result :=
  match fuel with
  | O => diverge
  | Datatypes.S n =>
      node ← get_node i;
      match node_visit node with
      | VISITED => mret (Ok tt)
      | VISITING => mret (Err DEPENDENCY_CYCLE)
      | NOT_VISITED =>
          update_node i (with_visit VISITING);;
          or_unvisit i (visit_driver_dependencies (visit n) i)
            (or_unvisit i (visit_capability_dependencies (visit n) i)
              (or_unvisit i (run_driver i)
                (update_node i (with_visit VISITED);; mret (Ok tt))))
      end
  end.

(** A chain of visits that have not returned passes through each driver once at most. *)
Definition VISIT_FUEL : nat := Z.to_nat (MAX_DRIVERS + 1).

Definition init_all : M init_result :=
  all ← on_state (gets initialized_all);
  if all : bool then mret (Ok tt)
  else
    r ← build_registry;
    match r with
    | Err e => kprintln (RegistryFailed e);; mret (Err e)
    | Ok _ =>
        n ← count;
        failed ← scan_range 0 n (fun i =>
          r ← visit VISIT_FUEL i;
          match r with
          | Ok _ => mret None
          | Err e => mret (Some e)
          end);
        match failed with
        | Some e => mret (Err e)
        | None => on_state (modify (set_initialized_all true));; mret (Ok tt)
        end
    end.

Definition exit_driver_at (k : Z) : M unit :=
  slot ← on_state (zoom initialized set_initialized (array_get k));
  match slot with
  | None => mret tt
  | Some i =>
      node ← get_node i;
      if negb (node_initialized node) then mret tt
      else
        when (negb (node_exit node =? nullptr))
          (name ← name_of (node_id node);
           kprintln (Exiting name);;
           call (call_exit (node_exit node)));;
        update_node i (with_initialized false)
  end.

Definition exit_all : M unit :=
  n ← on_state (gets initialized_count);
  for_down n exit_driver_at;;
  on_state (modify (set_initialized_count 0));;
  on_state (modify (set_capability_count 0));;
  on_state (modify (set_initialized_all false)).

(** [halt] never returns. *)
Definition halt : M unit := diverge.

Definition init_all_or_halt : M unit :=
  outcome ← init_all;
  match outcome with
  | Ok _ => mret tt
  | Err _ => halt
  end.

(** [component::init], for a boot plan that starts the drivers. *)
Definition init_drivers_component : M Boot.init_result :=
  outcome ← init_all;
  match outcome with
  | Ok _ => mret (Ok tt)
  | Err _ => mret (Err Boot.UNSPECIFIED)
  end.

Definition find_capability key : M pointer :=
  n ← on_state (gets capability_count);
  found ← scan_range 0 n (fun i =>
    entry ← on_state (zoom capabilities set_capabilities (array_get i));
    if negb (cap_key entry =? nullptr) && same_capability (key_at (cap_key entry)) key
    then mret (Some (cap_api entry)) else mret None);
  mret (match found with Some api => api | None => nullptr end).
End Lifecycle.

(** A capability type: its name and, when it declares one, its multiplicity. *)
Record capability_definition : Type := {
  capability_name : string;
  capability_multiplicity_member : option capability_multiplicity;
}.

Definition capability_multiplicity_of (c : capability_definition) : capability_multiplicity :=
  match capability_multiplicity_member c with
  | Some m => m
  | None => SINGLE
  end.

Definition capability_key_for (c : capability_definition) : capability_key :=
  {| key_name := Some (capability_name c); multiplicity := capability_multiplicity_of c |}.

Section Capabilities.
Context {W : Type} `{registry} `{driver_code W}.

Definition try_get (c : capability_definition) : kernel (lifecycle W) pointer :=
  find_capability (capability_key_for c).

Definition panic_missing_capability (key : capability_key) : kernel (lifecycle W) pointer :=
  kpanic ("requested driver capability is not registered: " ++ default "(null)" (key_name key))%string.

Definition get (c : capability_definition) : kernel (lifecycle W) pointer :=
  api ← try_get c;
  if api =? nullptr then panic_missing_capability (capability_key_for c) else mret api.
End Capabilities.
