(* ===== verification/LifecycleFacts.v ===== *)
(** * LifecycleFacts: what the lifecycle of [Lifecycle.v] guarantees

    The registry that [build_registry] accepts, the dependency graph it gives, the order in which
    the drivers are started and stopped, and the capabilities that are there once they are. *)

From stdpp Require Import relations.
From S2P Require Import Prelude Registry Lifecycle.

#[local] Open Scope Z_scope.

(** ** Access to the state *)
Section Access.
Context {W : Type} `{registry} `{driver_code W}.
Implicit Types m : lifecycle W.

Definition node m (i : Z) : driver_node := znth (nodes (m_state m)) i.
Definition total m : Z := node_count (m_state m).

Definition on_node (i : Z) (f : driver_node -> driver_node) m : lifecycle W :=
  set_state (set_nodes (zset (nodes (m_state m)) i (f (node m i))) (m_state m)) m.

(** The arrays have their lengths. *)
Record shaped m : Prop := {
  shaped_nodes : zlen (nodes (m_state m)) = MAX_DRIVERS;
  shaped_initialized : zlen (initialized (m_state m)) = MAX_DRIVERS;
  shaped_capabilities : zlen (capabilities (m_state m)) = MAX_REGISTERED_CAPABILITIES;
  shaped_total : 0 <= total m <= MAX_DRIVERS;
  shaped_ids : forall i, 0 <= i < total m -> node_id (node m i) <> nullptr;
}.

Lemma set_state_same m : set_state (m_state m) m = m.
Proof. by destruct m. Qed.

Lemma set_nodes_same s : set_nodes (nodes s) s = s.
Proof. by destruct s. Qed.

Lemma wp_on_state {A} (c : kernel lifecycle_state A) Q m :
  wp c (fun a s => Q a (set_state s m)) (m_state m) -> wp (on_state c) Q m.
Proof. intros Hc. apply wp_zoom, Hc. Qed.

Lemma wp_read_state {A} (f : lifecycle_state -> A) (Q : A -> lifecycle W -> Prop) m :
  Q (f (m_state m)) m -> wp (on_state (gets f)) Q m.
Proof. intros HQ. apply wp_on_state, wp_gets. by rewrite set_state_same. Qed.

Lemma wp_get_node i (Q : driver_node -> lifecycle W -> Prop) m :
  shaped m -> 0 <= i < MAX_DRIVERS -> Q (node m i) m -> wp (get_node i) Q m.
Proof.
  intros Hm Hi HQ. apply wp_on_state, wp_zoom, wp_array_get; [by rewrite shaped_nodes|].
  by rewrite set_nodes_same, set_state_same.
Qed.

Lemma wp_update_node i f (Q : unit -> lifecycle W -> Prop) m :
  shaped m -> 0 <= i < MAX_DRIVERS -> Q tt (on_node i f m) -> wp (update_node i f) Q m.
Proof.
  intros Hm Hi HQ. apply wp_bind, wp_get_node; [done..|].
  apply wp_on_state, wp_zoom, wp_array_set; [by rewrite shaped_nodes | done].
Qed.

Lemma node_on_node i j f m :
  shaped m -> 0 <= i < MAX_DRIVERS -> 0 <= j ->
  node (on_node i f m) j = if i =? j then f (node m i) else node m j.
Proof. intros Hm Hi Hj. unfold node at 1. cbn. rewrite znth_zset; [done | by rewrite shaped_nodes | done]. Qed.

(** An update of a node that keeps its identity keeps the shape. *)
Lemma shaped_on_node i f m :
  shaped m -> 0 <= i < MAX_DRIVERS -> (forall n, node_id (f n) = node_id n) -> shaped (on_node i f m).
Proof.
  intros Hm Hi Hf. split; cbn; try apply Hm.
  - rewrite zlen_zset. apply Hm.
  - intros j Hj. rewrite node_on_node by (done || lia).
    destruct (Z.eqb_spec i j) as [->|]; [rewrite Hf|]; by apply Hm.
Qed.

Lemma wp_kprintln e (Q : unit -> lifecycle W -> Prop) m :
  Q tt {| m_state := m_state m; world := world m; log := log m ++ [e] |} -> wp (kprintln e) Q m.
Proof. intros HQ. apply wp_modify, HQ. Qed.

(** ** C strings *)
Lemma equal_from_spec l r : equal_from l r = bool_decide (l = r).
Proof.
  revert r. induction l as [|a l IH]; intros [|b r]; cbn [equal_from]; try done.
  destruct (Ascii.eqb_spec a b) as [->|Hne].
  - rewrite IH. apply bool_decide_ext. split; congruence.
  - symmetry. apply bool_decide_eq_false. congruence.
Qed.

Lemma string_equal_spec l r : string_equal l r = bool_decide (l = r).
Proof.
  destruct l as [l|], r as [r|]; cbn [string_equal]; try done.
  rewrite equal_from_spec. apply bool_decide_ext. split; congruence.
Qed.

(** ** Searching for a driver *)

Definition dname (d : pointer) : option string := driver_name (driver_at d).
Definition name_at m (i : Z) : option string := dname (node_id (node m i)).

Lemma wp_name_of (id : pointer) (Q : option string -> lifecycle W -> Prop) m :
  id <> nullptr -> Q (dname id) m -> wp (name_of id) Q m.
Proof. intros Hid HQ. unfold name_of. by rewrite (proj2 (Z.eqb_neq _ _) Hid). Qed.

(** What a search by name answers. *)
Definition finds m (name : option string) (r : option Z) : Prop :=
  match r with
  | Some i => 0 <= i < total m /\ name_at m i = name
  | None => forall i, 0 <= i < total m -> name_at m i <> name
  end.

Lemma wp_search (test : driver_node -> kernel (lifecycle W) bool) name (Q : option Z -> lifecycle W -> Prop) m :
  shaped m ->
  (forall i, 0 <= i < total m ->
    wp (test (node m i)) (fun b m' => m' = m /\ b = bool_decide (name_at m i = name)) m) ->
  (forall r, finds m name r -> Q r m) ->
  wp (search test) Q m.
Proof.
  intros Hm Htest HQ. apply wp_bind, wp_read_state. change (node_count (m_state m)) with (total m).
  pose proof (shaped_total m Hm) as Htot.
  apply (wp_scan_range (fun k m' => m' = m /\ forall i, 0 <= i < k -> name_at m i <> name)
    (fun i m' => m' = m /\ 0 <= i < total m /\ name_at m i = name)).
  - split; [done | lia].
  - intros i m' Hi [-> Hno]. apply wp_bind, wp_get_node; [done | lia|].
    apply wp_bind. eapply wp_mono; [by apply Htest|]. intros b m' [-> ->]. apply wp_ret.
    case_bool_decide as Hname; [done|]. split; [done|]. intros j Hj.
    destruct (Z.eq_dec j i) as [->|]; [done | apply Hno; lia].
  - intros i m' [-> Hi]. by apply HQ.
  - intros m' [-> Hno]. apply HQ. intros i Hi. apply Hno. lia.
Qed.

Lemma wp_find_node id (Q : option Z -> lifecycle W -> Prop) m :
  shaped m -> id <> nullptr -> (forall r, finds m (dname id) r -> Q r m) -> wp (find_node id) Q m.
Proof.
  intros Hm Hid HQ. unfold find_node. rewrite (proj2 (Z.eqb_neq _ _) Hid).
  apply (wp_search _ (dname id)); [done | | done]. intros i Hi.
  pose proof (shaped_ids m Hm i Hi) as Hnode.
  destruct (Z.eqb_spec (node_id (node m i)) id) as [Heq|].
  - apply wp_ret. split; [done|]. symmetry. apply bool_decide_eq_true. unfold name_at. by rewrite Heq.
  - apply wp_bind, wp_name_of; [done|]. apply wp_bind, wp_name_of; [done|]. apply wp_ret.
    split; [done | apply string_equal_spec].
Qed.

Lemma wp_find_node_named name (Q : option Z -> lifecycle W -> Prop) m :
  shaped m -> name <> None -> (forall r, finds m name r -> Q r m) -> wp (find_node_named name) Q m.
Proof.
  intros Hm Hname HQ. unfold find_node_named. destruct name as [name|]; [|done].
  apply (wp_search _ (Some name)); [done | | done]. intros i Hi.
  apply wp_bind, wp_name_of; [by apply shaped_ids|]. apply wp_ret.
  split; [done | apply string_equal_spec].
Qed.
End Access.

(** ** The registry that is accepted *)
Section Validity.
Context `{registry}.

(** The elements of a section have addresses. *)
Class registry_ok : Prop := { driver_addresses : Forall (fun d => d <> nullptr) drivers }.

Definition names : list (option string) := dname <$> drivers.

Definition dn (i : Z) : option string := dname (znth drivers i).

(** Records that attach an entry to a driver: known drivers, one entry each. *)
Definition entries_ok {R} (drv entry : R -> pointer) (l : list R) : Prop :=
  Forall (fun r => drv r <> nullptr /\ entry r <> nullptr /\ dname (drv r) ∈ names) l /\
  NoDup ((fun r => dname (drv r)) <$> l).

Definition named_key (key : pointer) : Prop := key <> nullptr /\ key_name (key_at key) <> None.

Definition provider_count_ok (key : capability_key) : Prop :=
  multiplicity key = SINGLE -> provider_record_count key <= 1.

Definition provide_ok (r : provide_record) : Prop :=
  provide_driver r <> nullptr /\ named_key (provide_capability r) /\ provide_resolve r <> nullptr /\
  dname (provide_driver r) ∈ names /\ provider_count_ok (key_at (provide_capability r)).

Definition require_driver_ok (r : require_driver_record) : Prop :=
  require_driver r <> nullptr /\ dependency_name r <> None /\
  dname (require_driver r) ∈ names /\ dependency_name r ∈ names.

Definition require_capability_ok (r : require_capability_record) : Prop :=
  requiring_driver r <> nullptr /\ named_key (required_capability r) /\
  dname (requiring_driver r) ∈ names /\ provider_count_ok (key_at (required_capability r)) /\
  0 < provider_record_count (key_at (required_capability r)).

Record valid_registry : Prop := {
  valid_capacity : zlen drivers <= MAX_DRIVERS;
  valid_named : Forall (fun d => dname d <> None) drivers;
  valid_distinct : NoDup names;
  valid_init : entries_ok init_driver init_entry init_records;
  valid_exit : entries_ok exit_driver exit_entry exit_records;
  valid_provides : Forall provide_ok provide_records;
  valid_requires_driver : Forall require_driver_ok require_driver_records;
  valid_requires_capability : Forall require_capability_ok require_capability_records;
}.

(** The entry attached to a name, null when there is none. *)
Definition entry_of {R} (drv entry : R -> pointer) (l : list R) (name : option string) : pointer :=
  foldr (fun r p => if bool_decide (dname (drv r) = name) then entry r else p) nullptr l.

Definition init_of (i : Z) : pointer := entry_of init_driver init_entry init_records (dn i).
Definition exit_of (i : Z) : pointer := entry_of exit_driver exit_entry exit_records (dn i).

Lemma entry_of_none {R} (drv entry : R -> pointer) l name :
  Forall (fun r => entry r <> nullptr) l ->
  entry_of drv entry l name = nullptr -> name ∉ (fun r => dname (drv r)) <$> l.
Proof.
  intros Hl. induction Hl as [|r l Hr Hl IH]; cbn; intros He; [by intros ?%elem_of_nil|].
  case_bool_decide as Hn; [done|]. intros [->|Hin]%elem_of_cons; [done|]. by apply IH.
Qed.

Lemma entry_of_snoc {R} (drv entry : R -> pointer) l r name :
  dname (drv r) ∉ (fun r => dname (drv r)) <$> l ->
  entry_of drv entry (l ++ [r]) name =
    if bool_decide (dname (drv r) = name) then entry r else entry_of drv entry l name.
Proof.
  induction l as [|x l IH]; cbn; [done|]. intros Hno. rewrite not_elem_of_cons in Hno.
  destruct Hno as [Hx Hno]. unfold entry_of in IH. rewrite IH by done.
  repeat case_bool_decide; congruence.
Qed.

(** A name is a driver's exactly at one index. *)
Lemma names_index name : name ∈ names <-> exists i, 0 <= i < zlen drivers /\ dn i = name.
Proof.
  unfold names, dn. rewrite list_elem_of_fmap. split.
  - intros (d & -> & Hd). apply list_elem_of_lookup in Hd as [k Hk].
    exists (Z.of_nat k). pose proof (lookup_lt_Some _ _ _ Hk). unfold zlen, znth.
    rewrite Nat2Z.id, (list_lookup_total_correct _ _ _ Hk). split; [lia | done].
  - intros (i & Hi & <-). unfold zlen, znth in *.
    exists (drivers !!! Z.to_nat i). split; [done|]. apply list_elem_of_lookup_total_2. lia.
Qed.

Lemma names_injective i j :
  NoDup names -> 0 <= i < zlen drivers -> 0 <= j < zlen drivers -> dn i = dn j -> i = j.
Proof.
  unfold dn, znth, zlen. intros Hnd Hi Hj Heq.
  destruct (lookup_lt_is_Some_2 drivers (Z.to_nat i)) as [di Hdi]; [lia|].
  destruct (lookup_lt_is_Some_2 drivers (Z.to_nat j)) as [dj Hdj]; [lia|].
  rewrite (list_lookup_total_correct _ _ _ Hdi), (list_lookup_total_correct _ _ _ Hdj) in Heq.
  assert (Z.to_nat i = Z.to_nat j); [|lia]. eapply NoDup_lookup; [exact Hnd | |].
  - unfold names. by rewrite list_lookup_fmap, Hdi.
  - unfold names. by rewrite list_lookup_fmap, Hdj, Heq.
Qed.
(** The number of providers of a capability counts the records that provide it. *)
Lemma provider_count_eq key :
  provider_record_count key = Z.of_nat (length (base.filter (fun r => provides key r = true) provide_records)).
Proof.
  unfold provider_record_count.
  assert (Hgen : forall l n, fold_left (fun n record => if provides key record then n + 1 else n) l n
    = n + Z.of_nat (length (base.filter (fun r => provides key r = true) l))).
  { induction l as [|r l IH]; intros n; cbn [fold_left]; [cbn; lia|]. rewrite IH, filter_cons.
    destruct (provides key r); [rewrite decide_True by done | rewrite decide_False by done]; cbn [length]; lia. }
  by rewrite Hgen.
Qed.

Lemma provider_count_nonneg key : 0 <= provider_record_count key.
Proof. rewrite provider_count_eq. lia. Qed.
End Validity.

(** ** Building the registry *)
Section Build.
Context {W : Type} `{registry_ok} `{driver_code W}.
Implicit Types m : lifecycle W.

(** The state while it is built: fresh but for the nodes. *)
Definition framed (ns : list driver_node) (k : Z) m : lifecycle W :=
  set_state (set_node_count k (set_nodes ns lifecycle_state_init)) m.

(** [k] nodes that are [f 0], [f 1], ... *)
Definition holds (k : Z) (f : Z -> driver_node) (m0 m : lifecycle W) : Prop :=
  exists ns, m = framed ns k m0 /\ zlen ns = MAX_DRIVERS /\ 0 <= k <= MAX_DRIVERS /\
    forall i, 0 <= i < k -> znth ns i = f i /\ node_id (f i) = znth drivers i.

Lemma driver_address i : 0 <= i < zlen drivers -> znth drivers i <> nullptr.
Proof.
  intros Hi. pose proof driver_addresses as Hall. rewrite Forall_lookup in Hall.
  unfold zlen in Hi. destruct (lookup_lt_is_Some_2 drivers (Z.to_nat i)) as [d Hd]; [lia|].
  unfold znth. rewrite (list_lookup_total_correct _ _ _ Hd). by eapply Hall.
Qed.

Lemma holds_shaped k f m0 m : k <= zlen drivers -> holds k f m0 m -> shaped m.
Proof.
  intros Hk (ns & -> & Hlen & Hrange & Hns). split; try done.
  intros i Hi. cbn in Hi |- *. unfold node. cbn. destruct (Hns i Hi) as [-> ->].
  apply driver_address. lia.
Qed.

Lemma holds_total k f m0 m : holds k f m0 m -> total m = k.
Proof. by intros (ns & -> & _). Qed.

Lemma holds_node k f m0 m i : holds k f m0 m -> 0 <= i < k -> node m i = f i.
Proof. intros (ns & -> & _ & _ & Hns) Hi. by apply Hns. Qed.

Lemma holds_name k f m0 m i : holds k f m0 m -> 0 <= i < k -> name_at m i = dn i.
Proof.
  intros Hm Hi. unfold name_at, dn. rewrite (holds_node _ _ _ _ _ Hm Hi).
  destruct Hm as (ns & _ & _ & _ & Hns). by destruct (Hns i Hi) as [_ ->].
Qed.

(** A search over the first [k] drivers. *)
Lemma holds_finds k f m0 m name r :
  holds k f m0 m -> k <= zlen drivers -> finds m name r ->
  match r with
  | Some i => 0 <= i < k /\ dn i = name
  | None => name ∉ take (Z.to_nat k) names
  end.
Proof.
  intros Hm Hk Hr. destruct r as [i|]; cbn in Hr; rewrite (holds_total _ _ _ _ Hm) in Hr.
  - destruct Hr as [Hi Hn]. by rewrite (holds_name _ _ _ _ _ Hm Hi) in Hn.
  - intros Hin. apply list_elem_of_lookup in Hin as [j Hj].
    apply lookup_take_Some in Hj as [Hj Hlt]. unfold names in Hj.
    rewrite list_lookup_fmap in Hj. destruct (drivers !! j) as [d|] eqn:Hd; [|done].
    injection Hj as Hj. apply (Hr (Z.of_nat j)); [lia|].
    rewrite (holds_name _ _ _ _ (Z.of_nat j) Hm) by lia. unfold dn, znth.
    by rewrite Nat2Z.id, (list_lookup_total_correct _ _ _ Hd).
Qed.

Lemma holds_extend k f m0 m d :
  holds k f m0 m -> k < MAX_DRIVERS -> znth drivers k = d ->
  holds (k + 1) (fun i => if i =? k then driver_node_init d else f i) m0
    (set_state (set_node_count (k + 1)
      (set_nodes (zset (nodes (m_state m)) k (driver_node_init d)) (m_state m))) m).
Proof.
  intros (ns & -> & Hlen & Hk & Hns) Hlt Hd. exists (zset ns k (driver_node_init d)).
  split; [done|]. split; [by rewrite zlen_zset|]. split; [lia|]. intros i Hi.
  rewrite znth_zset by lia. rewrite (Z.eqb_sym k i). destruct (Z.eqb_spec i k) as [->|].
  - by rewrite Hd.
  - apply Hns. lia.
Qed.

Lemma take_names (done_ : list pointer) d rest :
  drivers = done_ ++ d :: rest ->
  take (Z.to_nat (zlen done_)) names = dname <$> done_ /\ znth drivers (zlen done_) = d /\
  zlen done_ < zlen drivers.
Proof.
  intros Hsplit. unfold names, zlen, znth. rewrite Nat2Z.id, Hsplit, fmap_app. split; [|split].
  - rewrite take_app_length'; [done|]. by rewrite length_fmap.
  - by rewrite list_lookup_total_middle.
  - rewrite length_app. cbn. lia.
Qed.

Lemma prefix_not_nodup {A} (pre rest : list A) x : x ∈ pre -> ~ NoDup (pre ++ x :: rest).
Proof. intros Hin (_ & Hdis & _)%NoDup_app. apply (Hdis x Hin). by left. Qed.

Lemma wp_add_drivers (Q : init_result -> lifecycle W -> Prop) m0 :
  (forall m, holds (zlen drivers) (fun i => driver_node_init (znth drivers i)) m0 m ->
    zlen drivers <= MAX_DRIVERS -> Forall (fun d => dname d <> None) drivers -> NoDup names ->
    Q (Ok tt) m) ->
  (forall e f k m, holds k f m0 m ->
    ~ (zlen drivers <= MAX_DRIVERS /\ Forall (fun d => dname d <> None) drivers /\ NoDup names) ->
    Q (Err e) m) ->
  wp (try_each drivers add_driver) Q (framed (nodes lifecycle_state_init) 0 m0).
Proof.
  intros Hok Herr.
  apply (wp_try_each (fun done_ m =>
    holds (zlen done_) (fun i => driver_node_init (znth drivers i)) m0 m /\
    Forall (fun d => dname d <> None) done_ /\ NoDup (dname <$> done_))).
  - split; [|split; [done | constructor]]. eexists. split; [done|]. split; [done|].
    split; [done|]. intros i Hi. unfold zlen in Hi. cbn in Hi. lia.
  - intros done_ d rest m Hsplit (Hm & Hnamed & Hnd).
    destruct (take_names done_ d rest Hsplit) as (Htake & Hd & Hlt).
    unfold add_driver. apply wp_bind, wp_name_of.
    { rewrite <- Hd. apply driver_address. unfold zlen in *. lia. }
    destruct (dname d) as [nm|] eqn:Hdn.
    2:{ apply wp_ret, (Herr _ _ _ _ Hm). intros (_ & Hall & _).
        rewrite Hsplit, Forall_app, Forall_cons in Hall. by destruct Hall as (_ & Hall & _). }
    apply wp_bind, wp_find_node_named; [eapply holds_shaped; [|done]; lia | done |].
    intros r Hr%(holds_finds _ _ _ _ _ _ Hm); [|lia]. rewrite Htake in Hr.
    destruct r as [i|].
    { apply wp_ret, (Herr _ _ _ _ Hm). intros (_ & _ & Hall). destruct Hr as [Hi Hn].
      revert Hall. unfold names. rewrite Hsplit, fmap_app. cbn [fmap list_fmap].
      rewrite Hdn. apply prefix_not_nodup. rewrite <- Hn, <- Htake. unfold dn, znth.
      apply list_elem_of_lookup. exists (Z.to_nat i). rewrite lookup_take_lt by lia.
      unfold names. rewrite list_lookup_fmap, list_lookup_lookup_total_lt; [done|].
      unfold zlen in *. lia. }
    apply wp_bind, wp_read_state. change (node_count (m_state m)) with (total m).
    rewrite (holds_total _ _ _ _ Hm). destruct (Z.eqb_spec (zlen done_) MAX_DRIVERS) as [Hfull|Hroom].
    { apply wp_ret, (Herr _ _ _ _ Hm). intros (Hcap & _). lia. }
    assert (Hsh : shaped m) by (eapply holds_shaped; [|done]; lia).
    assert (Hin : 0 <= zlen done_ < MAX_DRIVERS) by (destruct Hm as (? & _ & _ & ? & _); lia).
    apply wp_bind, wp_on_state, wp_zoom, wp_array_set; [by rewrite shaped_nodes|].
    apply wp_bind, wp_on_state, wp_modify, wp_ret.
    pose proof (holds_extend _ _ _ _ d Hm ltac:(lia) Hd) as Hnext.
    split; [|split].
    + replace (zlen (done_ ++ [d])) with (zlen done_ + 1) by (unfold zlen; rewrite length_app; cbn; lia).
      destruct Hnext as (ns & Heq & Hl & Hk & Hns). exists ns. split; [exact Heq|].
      split; [done|]. split; [done|]. intros i Hi. destruct (Hns i Hi) as [-> _].
      destruct (Z.eqb_spec i (zlen done_)) as [->|]; [by rewrite Hd | done].
    + rewrite Forall_app, Forall_singleton. split; [done | by rewrite Hdn].
    + rewrite fmap_app. apply NoDup_app. split; [done|]. cbn. rewrite Hdn. split.
      * intros x Hx ->%list_elem_of_singleton. done.
      * apply NoDup_singleton.
  - intros m (Hm & Hnamed & Hnd). apply Hok; [done | | done | done].
    destruct Hm as (_ & _ & _ & Hk & _). lia.
Qed.

(** [attach_init_records] and [attach_exit_records] are one loop over different fields. *)
Definition attach {R} (drv entry : R -> pointer) (get : driver_node -> pointer)
    (put : pointer -> driver_node -> driver_node) (dup : error) (l : list R) :
    kernel (lifecycle W) init_result :=
  try_each l (fun record =>
    if (drv record =? nullptr) || (entry record =? nullptr) then mret (Err INVALID_RECORD)
    else
      found ← find_node (drv record);
      match found with
      | None => mret (Err UNKNOWN_DRIVER)
      | Some i =>
          node ← get_node i;
          if negb (get node =? nullptr) then mret (Err dup)
          else update_node i (put (entry record));; mret (Ok tt)
      end).

Lemma holds_update n f m0 m i g :
  n = zlen drivers -> holds n f m0 m -> 0 <= i < n -> (forall x, node_id (g x) = node_id x) ->
  holds n (fun j => if j =? i then g (f i) else f j) m0 (on_node i g m).
Proof.
  intros -> Hm Hi Hg. pose proof Hm as (ns & -> & Hlen & Hk & Hns).
  exists (zset ns i (g (f i))). split; [|split; [by rewrite zlen_zset | split; [done|]]].
  - unfold on_node. rewrite (holds_node _ _ _ _ _ Hm Hi). done.
  - intros j Hj. rewrite znth_zset, (Z.eqb_sym i j) by lia. destruct (Z.eqb_spec j i) as [->|].
    + split; [done|]. rewrite Hg. by apply Hns.
    + by apply Hns.
Qed.

Lemma not_entries_ok {R} (drv entry : R -> pointer) l pre r rest :
  l = pre ++ r :: rest ->
  drv r = nullptr \/ entry r = nullptr \/ dname (drv r) ∉ names \/
    dname (drv r) ∈ ((fun r => dname (drv r)) <$> pre) ->
  ~ entries_ok drv entry l.
Proof.
  intros -> Hwhy (Hall & Hnd). rewrite Forall_app, Forall_cons in Hall.
  destruct Hall as (_ & (Hdrv & Hentry & Hknown) & _). destruct Hwhy as [?|[?|[?|Hin]]]; try done.
  revert Hnd. rewrite fmap_app. cbn. by apply prefix_not_nodup.
Qed.

Lemma wp_attach {R} (drv entry : R -> pointer) get put dup l (mk : Z -> pointer -> driver_node)
    (Q : init_result -> lifecycle W -> Prop) m0 m :
  (forall i p, get (mk i p) = p) -> (forall i p q, put q (mk i p) = mk i q) ->
  (forall q x, node_id (put q x) = node_id x) -> NoDup names ->
  holds (zlen drivers) (fun i => mk i nullptr) m0 m ->
  (forall m', holds (zlen drivers) (fun i => mk i (entry_of drv entry l (dn i))) m0 m' ->
    entries_ok drv entry l -> Q (Ok tt) m') ->
  (forall e f m', holds (zlen drivers) f m0 m' -> ~ entries_ok drv entry l -> Q (Err e) m') ->
  wp (attach drv entry get put dup l) Q m.
Proof.
  intros Hget Hput Hid Hnd Hm Hok Herr.
  apply (wp_try_each (fun done_ m' =>
    holds (zlen drivers) (fun i => mk i (entry_of drv entry done_ (dn i))) m0 m' /\
    entries_ok drv entry done_)).
  - split; [done|]. split; [done | constructor].
  - intros done_ r rest m1 Hsplit (Hm1 & Hall & Hdist).
    assert (Hbad : forall e f m', holds (zlen drivers) f m0 m' ->
      (drv r = nullptr \/ entry r = nullptr \/ dname (drv r) ∉ names \/
        dname (drv r) ∈ ((fun r => dname (drv r)) <$> done_)) -> Q (Err e) m').
    { intros e f m' Hm' Hwhy. eapply Herr; [done|]. by eapply not_entries_ok. }
    destruct (Z.eqb_spec (drv r) nullptr); [apply wp_ret; eapply Hbad; [done | tauto]|].
    destruct (Z.eqb_spec (entry r) nullptr); [apply wp_ret; eapply Hbad; [done | tauto]|].
    cbn [orb]. assert (Hsh : shaped m1) by (eapply holds_shaped; [|done]; lia).
    apply wp_bind, wp_find_node; [done | done|].
    intros x Hx%(holds_finds _ _ _ _ _ _ Hm1); [|lia]. destruct x as [i|].
    2:{ apply wp_ret. eapply Hbad; [done|]. right; right; left. revert Hx. unfold zlen.
        rewrite Nat2Z.id, take_ge; [done|]. unfold names. by rewrite length_fmap. }
    destruct Hx as [Hi Hname].
    assert (Hrange : 0 <= i < MAX_DRIVERS) by (destruct Hm1 as (? & _ & _ & ? & _); lia).
    apply wp_bind, wp_get_node; [done..|]. rewrite (holds_node _ _ _ _ _ Hm1 Hi), Hget.
    destruct (Z.eqb_spec (entry_of drv entry done_ (dn i)) nullptr) as [Hnone|Hsome].
    2:{ apply wp_ret. eapply Hbad; [done|]. right; right; right. rewrite <- Hname.
        clear -Hsome. induction done_ as [|y done_ IH]; cbn in *; [done|].
        case_bool_decide as Hy; [rewrite Hy; by left | right; by apply IH]. }
    cbn [negb]. apply wp_bind, wp_update_node; [done | done|]. apply wp_ret.
    apply entry_of_none in Hnone; [|eapply Forall_impl; [exact Hall | by intros x (_ & ? & _)]].
    rewrite Hname in Hnone. split.
    + pose proof (holds_update _ _ _ _ i (put (entry r)) eq_refl Hm1 Hi ltac:(done)) as Hnew.
      destruct Hnew as (ns & Heq & Hl & Hk & Hns). exists ns.
      split; [done|]. split; [done|]. split; [done|]. intros j Hj. destruct (Hns j Hj) as [-> Hnode].
      assert (Heqj : (if j =? i then put (entry r) (mk i (entry_of drv entry done_ (dn i)))
        else mk j (entry_of drv entry done_ (dn j))) = mk j (entry_of drv entry (done_ ++ [r]) (dn j))).
      { rewrite entry_of_snoc by done. destruct (Z.eqb_spec j i) as [->|Hne].
        - by rewrite Hput, bool_decide_true by done.
        - rewrite bool_decide_false; [done|]. rewrite <- Hname. intros Heqn. apply Hne.
          by apply names_injective. }
      by rewrite Heqj in *.
    + split.
      * rewrite Forall_app, Forall_singleton. split; [done|]. repeat split; try done.
        apply names_index. by exists i.
      * rewrite fmap_app. apply NoDup_app. split; [done|]. cbn. split; [|apply NoDup_singleton].
        intros y Hy ->%list_elem_of_singleton. done.
  - intros m' (Hm' & Hentries). by apply Hok.
Qed.

(** A loop that checks each record and changes nothing decides whether all satisfy the check. *)
Lemma wp_check_each {A} (P : A -> Prop) (l : list A) (body : A -> kernel (lifecycle W) init_result)
    (Q : init_result -> lifecycle W -> Prop) m :
  (forall x, wp (body x) (fun r m' => m' = m /\ match r with Ok _ => P x | Err _ => ~ P x end) m) ->
  (Forall P l -> Q (Ok tt) m) ->
  (forall e, ~ Forall P l -> Q (Err e) m) ->
  wp (try_each l body) Q m.
Proof.
  intros Hbody Hok Herr. apply (wp_try_each (fun done_ m' => m' = m /\ Forall P done_)); [done | |].
  - intros done_ x rest m' Hl [-> Hdone]. eapply wp_mono; [apply Hbody|].
    intros [[]|e] m' [-> Hx].
    + split; [done|]. by rewrite Forall_app, Forall_singleton.
    + apply Herr. rewrite Hl, Forall_app, Forall_cons. tauto.
  - intros m' [-> Hl]. by apply Hok.
Qed.

Lemma validate_count_spec key :
  match validate_provider_count key with
  | Ok _ => provider_count_ok key
  | Err _ => ~ provider_count_ok key
  end.
Proof.
  unfold validate_provider_count, provider_count_ok, is_singleton.
  case_bool_decide as Hs; cbn; [|done].
  destruct (Z.ltb_spec 1 (provider_record_count key)); [|lia]. intros Hc. specialize (Hc Hs). lia.
Qed.

Lemma null_key_spec k : null_key k = false <-> named_key k.
Proof.
  unfold null_key, named_key. rewrite orb_false_iff, bool_decide_eq_false, Z.eqb_neq. done.
Qed.

Lemma known_driver f m0 m id r :
  holds (zlen drivers) f m0 m -> finds m id r -> is_Some r <-> id ∈ names.
Proof.
  intros Hm Hr. pose proof (holds_finds _ _ _ _ _ _ Hm ltac:(lia) Hr) as Hf. destruct r as [i|].
  - split; [|done]. intros _. apply names_index. by exists i.
  - split; [by intros []|]. unfold zlen in Hf. rewrite Nat2Z.id, take_ge in Hf; [done|].
    unfold names. by rewrite length_fmap.
Qed.

Ltac known_by Hm Hr := pose proof (known_driver _ _ _ _ _ Hm Hr) as Hknown; clear Hr.

Lemma wp_validate_provider_records f (Q : init_result -> lifecycle W -> Prop) m0 m :
  holds (zlen drivers) f m0 m ->
  (Forall provide_ok provide_records -> Q (Ok tt) m) ->
  (forall e, ~ Forall provide_ok provide_records -> Q (Err e) m) ->
  wp validate_provider_records Q m.
Proof.
  intros Hm. assert (Hsh : shaped m) by (eapply holds_shaped; [|done]; lia).
  apply wp_check_each. intros r. unfold provide_ok.
  destruct (Z.eqb_spec (provide_driver r) nullptr); [apply wp_ret; tauto|]. cbn [orb].
  destruct (null_key (provide_capability r)) eqn:Hk.
  { apply wp_ret. split; [done|]. intros (_ & Hn & _). apply null_key_spec in Hn. congruence. }
  apply null_key_spec in Hk. cbn [orb].
  destruct (Z.eqb_spec (provide_resolve r) nullptr); [apply wp_ret; tauto|].
  apply wp_bind, wp_find_node; [done..|]. intros x Hx. known_by Hm Hx.
  destruct x as [i|]; apply wp_ret; (split; [done|]).
  - pose proof (validate_count_spec (key_at (provide_capability r))) as Hcount.
    assert (dname (provide_driver r) ∈ names) by (by apply Hknown).
    destruct (validate_provider_count _); tauto.
  - intros (_ & _ & _ & Hin & _). apply Hknown in Hin as [? ?]. done.
Qed.

Lemma wp_validate_dependency_records f (Q : init_result -> lifecycle W -> Prop) m0 m :
  holds (zlen drivers) f m0 m ->
  (Forall require_driver_ok require_driver_records ->
    Forall require_capability_ok require_capability_records -> Q (Ok tt) m) ->
  (forall e, ~ (Forall require_driver_ok require_driver_records /\
    Forall require_capability_ok require_capability_records) -> Q (Err e) m) ->
  wp validate_dependency_records Q m.
Proof.
  intros Hm Hok Herr. assert (Hsh : shaped m) by (eapply holds_shaped; [|done]; lia).
  apply wp_ktry, (wp_check_each require_driver_ok).
  - intros r. unfold require_driver_ok.
    destruct (Z.eqb_spec (require_driver r) nullptr); [apply wp_ret; tauto|]. cbn [orb].
    case_bool_decide; [apply wp_ret; tauto|].
    apply wp_bind, wp_find_node; [done..|]. intros x Hx. known_by Hm Hx.
    destruct x as [i|]; [|apply wp_ret; split; [done|];
      intros (_ & _ & Hin & _); by apply Hknown in Hin as [? ?]].
    assert (dname (require_driver r) ∈ names) by (by apply Hknown). clear Hknown.
    apply wp_bind, wp_find_node_named; [done..|]. intros x Hx. known_by Hm Hx.
    destruct x as [j|]; apply wp_ret; (split; [done|]).
    + repeat split; [done..|]. by apply Hknown.
    + intros (_ & _ & _ & Hin). by apply Hknown in Hin as [? ?].
  - intros Hdrivers. apply (wp_check_each require_capability_ok).
    + intros r. unfold require_capability_ok.
      destruct (Z.eqb_spec (requiring_driver r) nullptr); [apply wp_ret; tauto|]. cbn [orb].
      destruct (null_key (required_capability r)) eqn:Hk.
      { apply wp_ret. split; [done|]. intros (_ & Hn & _). apply null_key_spec in Hn. congruence. }
      apply null_key_spec in Hk.
      apply wp_bind, wp_find_node; [done..|]. intros x Hx. known_by Hm Hx.
      destruct x as [i|]; [|apply wp_ret; split; [done|];
        intros (_ & _ & Hin & _); by apply Hknown in Hin as [? ?]].
      assert (dname (requiring_driver r) ∈ names) by (by apply Hknown).
      pose proof (validate_count_spec (key_at (required_capability r))) as Hcount.
      apply wp_ktry, wp_ret. destruct (validate_provider_count _); [|apply wp_ret; tauto].
      destruct (Z.eqb_spec (provider_record_count (key_at (required_capability r))) 0) as [Hz|Hz];
        apply wp_ret; (split; [done|]).
      * rewrite Hz. lia.
      * do 4 (split; [done|]). pose proof (provider_count_nonneg (key_at (required_capability r))). lia.
    + by apply Hok.
    + intros e Hno. apply Herr. tauto.
  - intros e Hno. apply Herr. tauto.
Qed.

Definition fresh_node (i : Z) : driver_node :=
  {| node_id := znth drivers i; node_init := init_of i; node_exit := exit_of i;
     node_visit := NOT_VISITED; node_initialized := false |}.

(** Building a registry that was not built decides whether the records are valid; when they are,
    every driver has its entries and none was visited. *)
Lemma wp_build_registry (Q : init_result -> lifecycle W -> Prop) m :
  built (m_state m) = false ->
  (forall m', valid_registry -> holds (zlen drivers) fresh_node m m' ->
    Q (Ok tt) (set_state (set_built true (m_state m')) m')) ->
  (forall e f k m', ~ valid_registry -> holds k f m m' -> Q (Err e) m') ->
  wp build_registry Q m.
Proof.
  intros Hb Hok Herr. apply wp_bind, wp_read_state. rewrite Hb.
  apply wp_bind, wp_on_state, wp_modify, wp_ktry.
  apply (wp_add_drivers _ m).
  2:{ intros e f k m' Hm' Hbad. eapply Herr; [|done]. intros Hv. apply Hbad. repeat split; apply Hv. }
  intros m1 Hm1 Hcap Hnamed Hnd. apply wp_ktry.
  change (attach_init_records) with (attach init_driver init_entry node_init with_init
    DUPLICATE_DRIVER_ENTRY init_records).
  apply (wp_attach init_driver init_entry node_init with_init _ _
    (fun i p => with_init p (driver_node_init (znth drivers i))) _ m); [done.. | |].
  2:{ intros e f m' Hm' Hbad. eapply Herr; [|done]. intros Hv. apply Hbad, Hv. }
  intros m2 Hm2 Hinit. apply wp_ktry.
  change (attach_exit_records) with (attach exit_driver exit_entry node_exit with_exit
    DUPLICATE_DRIVER_EXIT exit_records).
  apply (wp_attach exit_driver exit_entry node_exit with_exit _ _
    (fun i p => with_exit p (with_init (init_of i) (driver_node_init (znth drivers i)))) _ m);
    [done.. | |].
  2:{ intros e f m' Hm' Hbad. eapply Herr; [|done]. intros Hv. apply Hbad, Hv. }
  intros m3 Hm3 Hexit. apply wp_ktry. eapply wp_validate_provider_records; [done | |].
  2:{ intros e Hbad. eapply Herr; [|done]. intros Hv. apply Hbad, Hv. }
  intros Hprov. apply wp_ktry. eapply wp_validate_dependency_records; [done | |].
  2:{ intros e Hbad. eapply Herr; [|done]. intros Hv. apply Hbad. split; apply Hv. }
  intros Hreq1 Hreq2. apply wp_bind, wp_on_state, wp_modify, wp_ret. apply Hok; [by split | done].
Qed.
End Build.

(** ** The dependency graph *)
Section Graph.
Context `{registry}.

(** Driver [i] needs driver [j] started first: it names it, or it requires a capability that [j]
    provides. *)
Definition depends (i j : Z) : Prop :=
  0 <= i < zlen drivers /\ 0 <= j < zlen drivers /\
  ((exists r, r ∈ require_driver_records /\ dname (require_driver r) = dn i /\
      dependency_name r = dn j) \/
   (exists r p, r ∈ require_capability_records /\ p ∈ provide_records /\
      dname (requiring_driver r) = dn i /\ provides (key_at (required_capability r)) p = true /\
      dname (provide_driver p) = dn j)).

(** The drivers whose visits have not returned, the innermost first. *)
Fixpoint chain (stack : list Z) : Prop :=
  match stack with
  | j :: (i :: _) as rest => depends i j /\ chain rest
  | _ => True
  end.

Lemma chain_tail j stack : chain (j :: stack) -> chain stack.
Proof. destruct stack; [done|]. by intros [_ ?]. Qed.

(** Reaching a driver that is being visited closes a cycle. *)
Lemma chain_reaches stack i j : chain (j :: stack) -> i ∈ stack -> tc depends i j.
Proof.
  revert j. induction stack as [|k stack IH]; intros j Hc Hin; [by apply elem_of_nil in Hin|].
  destruct Hc as [Hkj Hc]. apply elem_of_cons in Hin as [->|Hin]; [by apply tc_once|].
  eapply tc_r; [by apply IH | done].
Qed.
End Graph.

(** Driver code that returns: a driver may refuse to start, but does not hang or panic. *)
Class code_returns {W : Type} `{driver_code W} : Prop := {
  init_returns : forall p s w, exists r w', call_init p s w = Ret (r, w');
  exit_returns : forall p s w, exists w', call_exit p s w = Ret (tt, w');
  resolve_returns : forall p s w, exists r w', call_resolve p s w = Ret (r, w');
}.

(** The drivers reported as started. *)
Definition started_name (e : event) : option (option string) :=
  match e with
  | Started d => Some d
  | _ => None
  end.

Definition started (l : list event) : list (option string) := omap started_name l.

(** ** What the code of the drivers did *)
Section Worlds.
Context {W : Type} `{registry} `{code : driver_code W}.
Implicit Types (L : list Z) (s : lifecycle_state) (w : W).

(** The lifecycle's state, as a function of a driver sees it, lists the drivers of [L] as started. *)
Definition sees L s : Prop :=
  initialized_count s = zlen L /\
  forall k, 0 <= k < zlen L -> znth (initialized s) k = Some (znth L k).

(** The capabilities that driver [i] provides, in the order of the section. *)
Definition provided_by (i : Z) : list provide_record :=
  base.filter (fun r => dname (provide_driver r) = dn i) provide_records.

(** The entry point of [i], if it has one, was called and did not refuse. *)
Definition enters L (i : Z) w w' : Prop :=
  init_of i = nullptr /\ w' = w \/
  init_of i <> nullptr /\ exists s, sees L s /\ call_init (init_of i) s w = Ret (Ok tt, w').

(** The resolvers of the records were called in order, and none answered null. *)
Inductive resolves L : list provide_record -> W -> W -> Prop :=
| resolves_nil w : resolves L [] w w
| resolves_snoc rs r w w1 w2 s api : resolves L rs w w1 -> sees L s ->
    call_resolve (provide_resolve r) s w1 = Ret (api, w2) -> api <> nullptr ->
    resolves L (rs ++ [r]) w w2.

(** The start of driver [i], with the drivers of [L] already started. *)
Definition driver_starts L (i : Z) w w' : Prop :=
  exists w1, enters L i w w1 /\ resolves L (provided_by i) w1 w'.

(** The starts of [new], in order and nothing else, after those of [L]. *)
Inductive starts L : list Z -> W -> W -> Prop :=
| starts_nil w : starts L [] w w
| starts_snoc new i w w1 w2 : starts L new w w1 -> driver_starts (L ++ new) i w1 w2 ->
    starts L (new ++ [i]) w w2.

(** Why [visit] fails on a registry that was accepted, with [L] started, and what it did to the
    world; [used] entries of the table of capabilities are in use. *)
Inductive visit_error L (used : Z) : error -> W -> W -> Prop :=
| visit_cycle i w : tc depends i i -> visit_error L used DEPENDENCY_CYCLE w w
| visit_refused e i s w w' : 0 <= i < zlen drivers -> i ∉ L -> (forall j, depends i j -> j ∈ L) ->
    init_of i <> nullptr -> sees L s -> call_init (init_of i) s w = Ret (Err e, w') ->
    visit_error L used e w w'
| visit_resolve i rs r rest s w w1 w2 w' : 0 <= i < zlen drivers -> i ∉ L ->
    provided_by i = rs ++ r :: rest -> enters L i w w1 -> resolves L rs w1 w2 -> sees L s ->
    call_resolve (provide_resolve r) s w2 = Ret (nullptr, w') ->
    visit_error L used CAPABILITY_RESOLVE_FAILED w w'
| visit_capacity i rs r rest w w1 w' : 0 <= i < zlen drivers -> i ∉ L ->
    provided_by i = rs ++ r :: rest -> enters L i w w1 -> resolves L (rs ++ [r]) w1 w' ->
    used = MAX_REGISTERED_CAPABILITIES ->
    visit_error L used CAPACITY_EXCEEDED w w'.

Lemma starts_app L new more w w1 w2 :
  starts L new w w1 -> starts (L ++ new) more w1 w2 -> starts L (new ++ more) w w2.
Proof.
  intros Hnew. revert w2. induction 1 as [|more i w1 w3 w4 Hmore IH Hi]; [by rewrite app_nil_r|].
  rewrite app_assoc. eapply starts_snoc; [by apply IH|]. by rewrite app_assoc.
Qed.

(** [L'] is [L] with drivers started between the two worlds. *)
Definition progress L w L' w' : Prop := exists new, L' = L ++ new /\ starts L new w w'.

Lemma progress_same L w : progress L w L w.
Proof. exists []. rewrite app_nil_r. split; [done | constructor]. Qed.

Lemma progress_trans L w L1 w1 L2 w2 :
  progress L w L1 w1 -> progress L1 w1 L2 w2 -> progress L w L2 w2.
Proof.
  intros (new & -> & Hnew) (more & -> & Hmore). exists (new ++ more). rewrite app_assoc.
  split; [done | by eapply starts_app].
Qed.

Lemma progress_step L w L1 w1 i w2 :
  progress L w L1 w1 -> driver_starts L1 i w1 w2 -> progress L w (L1 ++ [i]) w2.
Proof.
  intros (new & -> & Hnew) Hi. exists (new ++ [i]). rewrite app_assoc.
  split; [done | by eapply starts_snoc].
Qed.

Lemma progress_in L w L' w' i : progress L w L' w' -> i ∈ L -> i ∈ L'.
Proof. intros (new & -> & _) Hi. apply elem_of_app. by left. Qed.
End Worlds.

(** ** Starting the drivers *)
Section Order.
Context {W : Type} `{registry_ok} `{code : driver_code W} `{!code_returns}.
Context (valid : valid_registry) (before : list (option string)) (all : bool).
Implicit Types m : lifecycle W.

(** Some entry of the table of capabilities is for the capability that a record provides. *)
Definition offered m (r : provide_record) : Prop :=
  exists k, 0 <= k < capability_count (m_state m) /\
    cap_key (znth (capabilities (m_state m)) k) = provide_capability r.

(** [L]: the drivers that are started, in the order in which they were. *)
Record ordered (L : list Z) m : Prop := {
  ordered_shape : shaped m;
  ordered_built : built (m_state m) = true;
  ordered_total : total m = zlen drivers;
  ordered_nodes : forall i, 0 <= i < zlen drivers -> node_id (node m i) = znth drivers i /\
    node_init (node m i) = init_of i /\ node_exit (node m i) = exit_of i /\
    node_initialized (node m i) = bool_decide (i ∈ L);
  ordered_range : Forall (fun i => 0 <= i < zlen drivers) L;
  ordered_distinct : NoDup L;
  ordered_count : initialized_count (m_state m) = zlen L;
  ordered_slots : forall k, 0 <= k < zlen L -> znth (initialized (m_state m)) k = Some (znth L k);
  ordered_capabilities : 0 <= capability_count (m_state m) <= MAX_REGISTERED_CAPABILITIES;
  ordered_apis : forall k, 0 <= k < capability_count (m_state m) ->
    cap_key (znth (capabilities (m_state m)) k) <> nullptr /\
    cap_api (znth (capabilities (m_state m)) k) <> nullptr;
  ordered_offers : forall i r, i ∈ L -> r ∈ provide_records -> dname (provide_driver r) = dn i ->
    offered m r;
  ordered_depends : forall pre x post, L = pre ++ x :: post -> forall j, depends x j -> j ∈ pre;
  ordered_all : initialized_all (m_state m) = all;
  ordered_log : started (log m) = before ++ (dn <$> L);
}.

Lemma small_registry : zlen drivers <= MAX_DRIVERS.
Proof. apply valid. Qed.

(** Nothing of the lifecycle's changes but what [ordered] does not speak of. *)
Lemma ordered_kept L m m' :
  ordered L m -> m_state m' = m_state m -> started (log m') = started (log m) -> ordered L m'.
Proof.
  destruct m as [s w l], m' as [s' w' l']. cbn. intros [] -> Hlog. split; try done.
  - destruct ordered_shape0. by split.
  - cbn. by rewrite Hlog.
Qed.

Lemma wp_call {A} (f : lifecycle_state -> kernel W A) (Q : A -> lifecycle W -> Prop) m :
  (exists r w', f (m_state m) (world m) = Ret (r, w') /\
    Q r {| m_state := m_state m; world := w'; log := log m |}) ->
  wp (call f) Q m.
Proof.
  intros (r & w' & Hf & HQ). apply wp_bind, wp_gets, wp_zoom. by eapply wp_intro.
Qed.

Lemma ordered_sees L m : ordered L m -> sees L (m_state m).
Proof. intros Ho. split; apply Ho. Qed.

Lemma started_app l e : started (l ++ [e]) = started l ++ omap started_name [e].
Proof. apply omap_app. Qed.

Lemma ordered_shape_node L m i : ordered L m -> 0 <= i < zlen drivers -> 0 <= i < MAX_DRIVERS.
Proof. pose proof small_registry. lia. Qed.

(** Registering one more capability. *)
Lemma ordered_register L m c :
  ordered L m -> capability_count (m_state m) < MAX_REGISTERED_CAPABILITIES ->
  cap_key c <> nullptr -> cap_api c <> nullptr ->
  let n := capability_count (m_state m) in
  let m' := set_state (set_capability_count (n + 1)
    (set_capabilities (zset (capabilities (m_state m)) n c) (m_state m))) m in
  ordered L m' /\ (forall r, offered m r -> offered m' r) /\
  (forall r, cap_key c = provide_capability r -> offered m' r).
Proof.
  intros Ho Hroom Hkey Hapi n m'. pose proof (ordered_capabilities L m Ho) as Hn.
  pose proof (shaped_capabilities m (ordered_shape L m Ho)) as Hlen. fold n in Hn, Hroom.
  assert (Hold : forall k, 0 <= k < n -> znth (capabilities (m_state m')) k = znth (capabilities (m_state m)) k).
  { intros k Hk. cbn. rewrite znth_zset by lia. destruct (Z.eqb_spec n k); [lia | done]. }
  assert (Hnew : znth (capabilities (m_state m')) n = c) by (cbn; apply znth_zset_eq; lia).
  assert (Hoff : forall r, offered m r -> offered m' r).
  { intros r (k & Hk & Hr). exists k. rewrite Hold by done. cbn. fold n in Hk |- *. split; [lia | done]. }
  split; [|split; [done|]].
  - destruct Ho. destruct ordered_shape0. split; try done.
    + split; try done. cbn. by rewrite zlen_zset.
    + cbn. fold n. lia.
    + intros k Hk. cbn [capability_count m_state m' set_state] in Hk.
      change (0 <= k < n + 1) in Hk. destruct (Z.eq_dec k n) as [->|]; [by rewrite Hnew|].
      rewrite Hold by lia. apply ordered_apis0. fold n. lia.
    + intros i r Hi Hr Hname. by eapply Hoff, ordered_offers0.
  - intros r Hr. exists n. rewrite Hnew. split; [cbn; fold n; lia | done].
Qed.

Lemma provide_valid r : r ∈ provide_records -> provide_ok r.
Proof. intros Hr. pose proof (valid_provides valid) as Hall. rewrite Forall_forall in Hall. by apply Hall. Qed.

(** What registering the capabilities of [i] did, from the world [w]. *)
Definition registers L i (w : W) (r : init_result) m' : Prop :=
  match r with
  | Ok _ => resolves L (provided_by i) w (world m') /\
      forall p, p ∈ provide_records -> dname (provide_driver p) = dn i -> offered m' p
  | Err e => exists rs r rest, provided_by i = rs ++ r :: rest /\
      (e = CAPABILITY_RESOLVE_FAILED /\ (exists s w2, resolves L rs w w2 /\ sees L s /\
         call_resolve (provide_resolve r) s w2 = Ret (nullptr, world m')) \/
       e = CAPACITY_EXCEEDED /\ resolves L (rs ++ [r]) w (world m') /\
         capability_count (m_state m') = MAX_REGISTERED_CAPABILITIES)
  end.

Lemma wp_register_capabilities L i (Q : init_result -> lifecycle W -> Prop) m :
  ordered L m -> 0 <= i < zlen drivers ->
  (forall r m', ordered L m' -> nodes (m_state m') = nodes (m_state m) ->
    registers L i (world m) r m' -> Q r m') ->
  wp (register_capabilities i) Q m.
Proof.
  intros Hm Hi HQ. pose (own := fun r => dname (provide_driver r) = dn i).
  apply (wp_try_each (fun done_ m' => ordered L m' /\
    nodes (m_state m') = nodes (m_state m) /\
    resolves L (base.filter own done_) (world m) (world m') /\
    forall p, p ∈ done_ -> dname (provide_driver p) = dn i -> offered m' p)).
  - split; [done|]. split; [done|]. split; [constructor|]. by intros p ?%elem_of_nil.
  - intros done_ r rest m1 Hsplit (Hm1 & Hnodes & Hworld & Hdone).
    assert (Hr : r ∈ provide_records) by (rewrite Hsplit; apply elem_of_app; right; by left).
    destruct (provide_valid r Hr) as (Hdrv & (Hkey & _) & _).
    pose proof (ordered_shape_node _ _ _ Hm1 Hi) as Hrange.
    destruct (ordered_nodes _ _ Hm1 i Hi) as (Hid & _).
    assert (Hnext : forall m2, (forall p, offered m1 p -> offered m2 p) ->
      (dname (provide_driver r) = dn i -> offered m2 r) ->
      forall p, p ∈ done_ ++ [r] -> dname (provide_driver p) = dn i -> offered m2 p).
    { intros m2 Hmono Hlast p [Hp|Hp%list_elem_of_singleton]%elem_of_app Hname; subst; auto. }
    apply wp_bind, wp_name_of; [done|]. apply wp_bind, wp_get_node; [apply Hm1 | done|].
    apply wp_bind, wp_name_of; [rewrite Hid; by apply driver_address|].
    rewrite string_equal_spec, Hid. change (dname (znth drivers i)) with (dn i).
    rewrite filter_app, filter_cons, filter_nil.
    case_bool_decide as Hname; cbn [negb].
    2:{ apply wp_ret. rewrite decide_False, app_nil_r by done. do 3 (split; [done|]). apply Hnext; tauto. }
    rewrite decide_True by done.
    assert (Hown : provided_by i = base.filter own done_ ++ r :: base.filter own rest).
    { unfold provided_by. rewrite Hsplit, filter_app, filter_cons. by rewrite decide_True. }
    apply wp_bind, wp_call.
    destruct (resolve_returns (provide_resolve r) (m_state m1) (world m1)) as (api & w' & Hcall).
    exists api, w'. split; [done|].
    set (m2 := {| m_state := m_state m1; world := w'; log := log m1 |}).
    assert (Hm2 : ordered L m2) by (by eapply ordered_kept).
    pose proof (ordered_sees _ _ Hm1) as Hsees.
    destruct (Z.eqb_spec api nullptr) as [->|Hapi].
    { apply wp_ret, HQ; [done | done |]. do 3 eexists. split; [exact Hown|]. left.
      split; [done|]. by exists (m_state m1), (world m1). }
    assert (Hworld2 : resolves L (base.filter own done_ ++ [r]) (world m) w') by (by eapply resolves_snoc).
    apply wp_bind, wp_read_state.
    destruct (Z.eqb_spec (capability_count (m_state m2)) MAX_REGISTERED_CAPABILITIES) as [Hfull|Hroom].
    { apply wp_ret, HQ; [done | done |]. do 3 eexists. split; [exact Hown|]. by right. }
    pose proof (ordered_capabilities _ _ Hm2) as Hn.
    apply wp_bind, wp_on_state, wp_zoom, wp_array_set.
    { rewrite (shaped_capabilities _ (ordered_shape _ _ Hm2)). lia. }
    apply wp_bind, wp_on_state, wp_modify, wp_ret.
    pose proof (ordered_register L m2 {| cap_key := provide_capability r;
      cap_driver := znth drivers i; cap_api := api |} Hm2 ltac:(lia) Hkey Hapi) as (Hm3 & Hmono & Hlast).
    split; [exact Hm3|]. split; [done|]. split; [done|]. apply Hnext; [exact Hmono|]. intros _. by apply Hlast.
  - intros m' (Hm' & Hnodes & Hworld & Hall). by apply HQ.
Qed.

(** A failure to register is one of the walk. *)
Lemma registers_error L i w w1 e m' :
  0 <= i < zlen drivers -> i ∉ L -> enters L i w w1 -> registers L i w1 (Err e) m' ->
  visit_error L (capability_count (m_state m')) e w (world m').
Proof.
  intros Hi Hnew Henter (rs & r & rest & Hown & [(-> & s & w2 & Hrs & Hs & Hcall)|(-> & Hrs & Hfull)]).
  - by eapply visit_resolve.
  - by eapply visit_capacity.
Qed.

(** Distinct drivers are no more than there are. *)
Lemma driver_list_length L :
  NoDup L -> Forall (fun i => 0 <= i < zlen drivers) L -> zlen L <= zlen drivers.
Proof.
  intros Hnd Hall. assert (Hsub : L ⊆+ seqZ 0 (zlen drivers)).
  { apply NoDup_submseteq; [done|]. intros j Hj. apply elem_of_seqZ.
    rewrite Forall_forall in Hall. specialize (Hall j Hj). lia. }
  apply submseteq_length in Hsub. rewrite length_seqZ in Hsub. unfold zlen in *. lia.
Qed.

Lemma driver_room L i :
  NoDup L -> Forall (fun i => 0 <= i < zlen drivers) L -> i ∉ L -> 0 <= i < zlen drivers ->
  zlen L < zlen drivers.
Proof.
  intros Hnd Hall Hi Hrange. pose proof (driver_list_length (i :: L)) as Hlen.
  do 2 (premise Hlen; [by constructor|]). unfold zlen in *. cbn [length] in Hlen. lia.
Qed.

(** The state in which a driver was added to those that are started. *)
Definition start_state (i : Z) m : lifecycle W :=
  let s := set_nodes (zset (nodes (m_state m)) i (with_initialized true (node m i))) (m_state m) in
  {| m_state := set_initialized_count (initialized_count s + 1)
       (set_initialized (zset (initialized s) (initialized_count s) (Some i)) s);
     world := world m; log := log m ++ [Started (dn i)] |}.

Lemma ordered_start L i m :
  ordered L m -> 0 <= i < zlen drivers -> i ∉ L -> (forall j, depends i j -> j ∈ L) ->
  (forall p, p ∈ provide_records -> dname (provide_driver p) = dn i -> offered m p) ->
  ordered (L ++ [i]) (start_state i m).
Proof.
  intros Ho Hi Hnew Hdeps Hoffers. pose proof (ordered_shape_node _ _ _ Ho Hi) as Hrange.
  pose proof (driver_room L i (ordered_distinct _ _ Ho) (ordered_range _ _ Ho) Hnew Hi) as Hroom.
  pose proof small_registry as Hsmall. pose proof (ordered_shape _ _ Ho) as Hsh.
  assert (Hnode : forall j, 0 <= j -> node (start_state i m) j =
    if i =? j then with_initialized true (node m i) else node m j).
  { intros j Hj. exact (node_on_node i j (with_initialized true) m Hsh Hrange Hj). }
  assert (Hlen : zlen (L ++ [i]) = zlen L + 1) by (unfold zlen; rewrite length_app; cbn; lia).
  destruct Ho. split; try done.
  - destruct ordered_shape0. split; try done.
    + cbn. by rewrite zlen_zset.
    + cbn. by rewrite zlen_zset.
    + intros j Hj. rewrite Hnode by lia. destruct (Z.eqb_spec i j) as [->|]; by apply shaped_ids0.
  - intros j Hj. rewrite Hnode by lia. destruct (ordered_nodes0 j Hj) as (H1' & H2' & H3' & H4').
    destruct (Z.eqb_spec i j) as [->|Hne]; cbn; repeat split; try done.
    + symmetry. apply bool_decide_eq_true, elem_of_app. right. by left.
    + rewrite H4'. apply bool_decide_ext. rewrite elem_of_app, list_elem_of_singleton.
      split; [tauto|]. intros [?| ->]; [done | congruence].
  - rewrite Forall_app, Forall_singleton. done.
  - apply NoDup_app. split; [done|]. split; [|apply NoDup_singleton].
    intros x Hx ->%list_elem_of_singleton. done.
  - cbn. rewrite ordered_count0, Hlen. done.
  - intros k Hk. cbn. rewrite ordered_count0. rewrite Hlen in Hk.
    rewrite znth_zset by (destruct Hsh; unfold zlen in *; lia).
    destruct (Z.eqb_spec (zlen L) k) as [<-|Hne].
    + unfold znth, zlen. rewrite Nat2Z.id. by rewrite list_lookup_total_middle.
    + rewrite ordered_slots0 by lia. unfold znth, zlen in *.
      by rewrite lookup_total_app_l by lia.
  - intros j r Hj Hr Hname. assert (Hold : offered m r).
    { apply elem_of_app in Hj as [Hj|Hj%list_elem_of_singleton]; [by eapply ordered_offers0|subst; by apply Hoffers]. }
    exact Hold.
  - intros pre x post Hsplit j Hj. destruct (decide (post = [])) as [->|Hpost].
    + apply app_inj_tail in Hsplit as [<- <-]. by apply Hdeps.
    + destruct (exists_last Hpost) as (post' & y & ->).
      rewrite app_comm_cons, app_assoc in Hsplit. apply app_inj_tail in Hsplit as [Hsplit _].
      by eapply ordered_depends0.
  - cbn. rewrite started_app, ordered_log0, fmap_app, app_assoc. done.
Qed.

Definition same_visits m m' : Prop :=
  forall j, 0 <= j < zlen drivers -> node_visit (node m' j) = node_visit (node m j).

Lemma wp_run_driver L i (Q : init_result -> lifecycle W -> Prop) m :
  ordered L m -> 0 <= i < zlen drivers -> i ∉ L -> (forall j, depends i j -> j ∈ L) ->
  (forall r m', same_visits m m' ->
    match r with
    | Ok _ => ordered (L ++ [i]) m' /\ driver_starts L i (world m) (world m')
    | Err e => ordered L m' /\ visit_error L (capability_count (m_state m')) e (world m) (world m')
    end -> Q r m') ->
  wp (run_driver i) Q m.
Proof.
  intros Hm Hi Hnew Hdeps HQ. pose proof (ordered_shape_node _ _ _ Hm Hi) as Hrange.
  destruct (ordered_nodes _ _ Hm i Hi) as (Hid & Hinit & _).
  apply wp_bind, wp_get_node; [apply Hm | done|].
  apply wp_bind, wp_name_of; [rewrite Hid; by apply driver_address|].
  rewrite Hid, Hinit. change (dname (znth drivers i)) with (dn i).
  apply wp_bind, wp_kprintln.
  set (m1 := {| m_state := m_state m; world := world m; log := log m ++ [Starting (dn i)] |}).
  assert (Hm1 : ordered L m1).
  { eapply ordered_kept; [done | done |]. cbn. by rewrite started_app, app_nil_r. }
  apply wp_bind.
  assert (Hfail : forall e m2, ordered L m2 -> nodes (m_state m2) = nodes (m_state m) ->
    visit_error L (capability_count (m_state m2)) e (world m) (world m2) ->
    wp (kprintln (Failed (dn i) e);; mret (Err e)) Q m2).
  { intros e m2 Hm2 Hn He. apply wp_bind, wp_kprintln, wp_ret, HQ.
    - intros j _. unfold node. cbn. by rewrite Hn.
    - split; [|done]. eapply ordered_kept; [exact Hm2 | done |]. cbn. by rewrite started_app, app_nil_r. }
  assert (Hgo : forall m2, ordered L m2 -> nodes (m_state m2) = nodes (m_state m) ->
    enters L i (world m) (world m2) ->
    wp (r ← register_capabilities i;
      match r with
      | Err e => kprintln (Failed (dn i) e);; mret (Err e)
      | Ok _ =>
          update_node i (with_initialized true);;
          n ← on_state (gets initialized_count);
          on_state (zoom initialized set_initialized (array_set n (Some i)));;
          on_state (modify (set_initialized_count (n + 1)));;
          kprintln (Started (dn i));; mret (Ok tt)
      end) Q m2).
  { intros m2 Hm2 Hn2 Henter. apply wp_bind. eapply wp_register_capabilities; [done | done |].
    intros r m3 Hm3 Hn3 Hr. rewrite Hn2 in Hn3. destruct r as [[]|e]; [|by eapply Hfail, registers_error].
    destruct Hr as [Hres Hr]. apply wp_bind, wp_update_node; [apply Hm3 | done|].
    apply wp_bind, wp_read_state. apply wp_bind, wp_on_state, wp_zoom, wp_array_set.
    { cbn. rewrite (shaped_initialized _ (ordered_shape _ _ Hm3)), (ordered_count _ _ Hm3).
      pose proof (driver_room L i (ordered_distinct _ _ Hm) (ordered_range _ _ Hm) Hnew Hi).
      pose proof small_registry. unfold zlen in *. lia. }
    apply wp_bind, wp_on_state, wp_modify, wp_bind, wp_kprintln, wp_ret, HQ.
    - intros j Hj. unfold same_visits.
      change (node_visit (node (on_node i (with_initialized true) m3) j) = node_visit (node m j)).
      rewrite node_on_node by (apply Hm3 || lia). unfold node. rewrite Hn3.
      by destruct (Z.eqb_spec i j) as [->|].
    - split; [exact (ordered_start L i m3 Hm3 Hi Hnew Hdeps Hr) | by exists (world m2)]. }
  destruct (Z.eqb_spec (init_of i) nullptr) as [Hnull|Hentry].
  - apply wp_ret. apply Hgo; [done | done | by left].
  - apply wp_call.
    destruct (init_returns (init_of i) (m_state m1) (world m1)) as (r & w' & Hcall).
    exists r, w'. split; [done|].
    set (m2 := {| m_state := m_state m1; world := w'; log := log m1 |}).
    assert (Hm2 : ordered L m2) by (by eapply ordered_kept).
    pose proof (ordered_sees _ _ Hm1) as Hsees.
    destruct r as [[]|e]; [apply Hgo; [done | done | right; by eauto]|]. apply Hfail; [done | done |].
    by eapply visit_refused.
Qed.

(** ** The walk *)

(** [L] is started, [stack] is being visited, and nothing else was. *)
Record going (stack L : list Z) m : Prop := {
  going_ordered : ordered L m;
  going_marks : forall i, 0 <= i < zlen drivers -> node_visit (node m i) =
    if decide (i ∈ L) then VISITED else if decide (i ∈ stack) then VISITING else NOT_VISITED;
  going_range : Forall (fun i => 0 <= i < zlen drivers) stack;
  going_distinct : NoDup stack;
  going_apart : forall i, i ∈ stack -> i ∉ L;
}.

Lemma ordered_visit L m i v :
  ordered L m -> 0 <= i < zlen drivers -> ordered L (on_node i (with_visit v) m).
Proof.
  intros Hm Hi. pose proof (ordered_shape_node _ _ _ Hm Hi) as Hrange.
  pose proof (ordered_shape _ _ Hm) as Hsh.
  pose proof (shaped_on_node i (with_visit v) m Hsh Hrange ltac:(done)) as Hsh'.
  destruct Hm. split; try done.
  intros j Hj. rewrite node_on_node by (done || lia).
  destruct (Z.eqb_spec i j) as [<-|]; by apply ordered_nodes0.
Qed.

Lemma marks_on_node L m i j v :
  ordered L m -> 0 <= i < zlen drivers -> 0 <= j < zlen drivers ->
  node_visit (node (on_node i (with_visit v) m) j) = if i =? j then v else node_visit (node m j).
Proof.
  intros Hm Hi Hj. pose proof (ordered_shape_node _ _ _ Hm Hi).
  rewrite node_on_node by (apply Hm || lia). by destruct (Z.eqb_spec i j).
Qed.

Lemma going_enter stack L m i :
  going stack L m -> 0 <= i < zlen drivers -> i ∉ L -> i ∉ stack ->
  going (i :: stack) L (on_node i (with_visit VISITING) m).
Proof.
  intros Hg Hi HL Hst. destruct Hg. split.
  - by apply ordered_visit.
  - intros j Hj. erewrite marks_on_node by done. destruct (Z.eqb_spec i j) as [<-|Hne].
    + rewrite decide_False by done. rewrite decide_True; [done | by left].
    + rewrite going_marks0 by done. destruct (decide (j ∈ L)); [done|].
      destruct (decide (j ∈ stack)) as [Hin|Hin].
      * rewrite decide_True; [done | by right].
      * rewrite decide_False; [done|]. by intros [->|?]%elem_of_cons.
  - by constructor.
  - by constructor.
  - intros j [->|Hj]%elem_of_cons; [done | by apply going_apart0].
Qed.

Lemma going_leave stack L m i :
  going (i :: stack) L m -> going stack L (on_node i (with_visit NOT_VISITED) m).
Proof.
  intros []. inversion going_range0 as [|? ? Hi Hrange]; subst.
  inversion going_distinct0 as [|? ? Hin Hnd]; subst.
  assert (HiL : i ∉ L) by (apply going_apart0; by left).
  split; [by apply ordered_visit | | done | done |].
  - intros j Hj. erewrite marks_on_node by done. destruct (Z.eqb_spec i j) as [<-|Hne].
    + by rewrite !decide_False by done.
    + rewrite going_marks0 by done. destruct (decide (j ∈ L)); [done|].
      apply decide_ext. rewrite elem_of_cons. split; [|tauto]. by intros [->|?].
  - intros j Hj. apply going_apart0. by right.
Qed.

Lemma going_start stack L m m' i :
  going (i :: stack) L m -> same_visits m m' -> ordered (L ++ [i]) m' ->
  going stack (L ++ [i]) (on_node i (with_visit VISITED) m').
Proof.
  intros [] Hsame Hm'. inversion going_range0 as [|? ? Hi Hrange]; subst.
  inversion going_distinct0 as [|? ? Hin Hnd]; subst.
  split; [by apply ordered_visit | | done | done |].
  - intros j Hj. erewrite marks_on_node by done. destruct (Z.eqb_spec i j) as [<-|Hne].
    + rewrite decide_True; [done|]. apply elem_of_app. right. by left.
    + rewrite Hsame, going_marks0 by done.
      destruct (decide (j ∈ L)) as [HL|HL].
      * rewrite decide_True; [done|]. apply elem_of_app. by left.
      * rewrite (decide_False (P := j ∈ L ++ [i])).
        2:{ rewrite elem_of_app, list_elem_of_singleton. by intros [?| ->]. }
        apply decide_ext. rewrite elem_of_cons. split; [|tauto]. by intros [->|?].
  - intros j Hj. rewrite elem_of_app, list_elem_of_singleton. intros [HL|Hji].
    + by apply (going_apart0 j); [right|].
    + subst. done.
Qed.

Lemma going_visits stack L m m' :
  going stack L m -> same_visits m m' -> ordered L m' -> going stack L m'.
Proof. intros [] Hsame Hm'. split; try done. intros j Hj. by rewrite Hsame, going_marks0. Qed.

Lemma ordered_finds L m name r :
  ordered L m -> finds m name r -> name ∈ names ->
  exists j, r = Some j /\ 0 <= j < zlen drivers /\ dn j = name.
Proof.
  intros Hm Hr Hin. assert (Hname : forall j, 0 <= j < zlen drivers -> name_at m j = dn j).
  { intros j Hj. unfold name_at, dn. by destruct (ordered_nodes _ _ Hm j Hj) as [-> _]. }
  pose proof (ordered_total _ _ Hm) as Htot. destruct r as [j|]; cbn in Hr; rewrite Htot in Hr.
  - destruct Hr as [Hj Hn]. exists j. by rewrite <- Hname.
  - apply names_index in Hin as (j & Hj & Hn). destruct (Hr j Hj). by rewrite Hname.
Qed.

Lemma distinct_index i j :
  0 <= i < zlen drivers -> 0 <= j < zlen drivers -> dn i = dn j -> i = j.
Proof. apply names_injective, valid. Qed.

(** What visiting promises: [r] with more drivers started. *)
Definition visited (stack L : list Z) (w : W) (goal : list Z -> Prop)
    (Q : init_result -> lifecycle W -> Prop) : Prop :=
  forall r L' w' m', progress L w L' w' -> going stack L' m' ->
    match r with
    | Ok _ => world m' = w' /\ goal L'
    | Err e => visit_error L' (capability_count (m_state m')) e w' (world m')
    end -> Q r m'.

(** A recursive call of [visit] from the visit of [i]. *)
Definition visits (vis : Z -> kernel (lifecycle W) init_result) (i : Z) (stack : list Z) : Prop :=
  forall j L m Q, going stack L m -> depends i j ->
    visited stack L (world m) (fun L' => j ∈ L') Q -> wp (vis j) Q m.

Section Visiting.
Context (vis : Z -> kernel (lifecycle W) init_result) (i : Z) (stack : list Z).
Context (Hvis : visits vis i stack) (Hi : 0 <= i < zlen drivers).

(** The test of a loop over the records of a driver. *)
Lemma wp_own_record L (d : pointer) (rest : kernel (lifecycle W) init_result)
    (Q : init_result -> lifecycle W -> Prop) m :
  ordered L m -> d <> nullptr ->
  (dname d <> dn i -> Q (Ok tt) m) -> (dname d = dn i -> wp rest Q m) ->
  wp (requirer ← name_of d; node ← get_node i; name ← name_of (node_id node);
      if negb (string_equal requirer name) then mret (Ok tt) else rest) Q m.
Proof.
  intros Hm Hd Hskip Hrest. pose proof (ordered_shape_node _ _ _ Hm Hi) as Hrange.
  destruct (ordered_nodes _ _ Hm i Hi) as (Hid & _).
  apply wp_bind, wp_name_of; [done|]. apply wp_bind, wp_get_node; [apply Hm | done|].
  apply wp_bind, wp_name_of; [rewrite Hid; by apply driver_address|].
  rewrite string_equal_spec, Hid. change (dname (znth drivers i)) with (dn i).
  case_bool_decide; cbn [negb]; [by apply Hrest | apply wp_ret; by apply Hskip].
Qed.

Lemma wp_visit_driver_dependencies L (Q : init_result -> lifecycle W -> Prop) m :
  going stack L m ->
  visited stack L (world m) (fun L' => forall r, r ∈ require_driver_records -> dname (require_driver r) = dn i ->
    forall j, 0 <= j < zlen drivers -> dependency_name r = dn j -> j ∈ L') Q ->
  wp (visit_driver_dependencies vis i) Q m.
Proof.
  intros Hm HQ. apply (wp_try_each (fun done_ m' => exists L', progress L (world m) L' (world m') /\ going stack L' m' /\
    forall r, r ∈ done_ -> dname (require_driver r) = dn i ->
    forall j, 0 <= j < zlen drivers -> dependency_name r = dn j -> j ∈ L')).
  - exists L. split; [apply progress_same|]. split; [done|]. by intros r ?%elem_of_nil.
  - intros done_ r rest m1 Hsplit (L1 & Hpre & Hm1 & Hdone).
    assert (Hr : r ∈ require_driver_records) by (rewrite Hsplit; apply elem_of_app; right; by left).
    pose proof (valid_requires_driver valid) as Hall. rewrite Forall_forall in Hall.
    destruct (Hall r Hr) as (Hd & Hdep & _ & Hknown). clear Hall.
    eapply wp_own_record; [apply Hm1 | done | |].
    + intros Hother. exists L1. split; [done|]. split; [done|].
      intros p [Hp|Hp%list_elem_of_singleton]%elem_of_app Hname; [by apply Hdone | by subst].
    + intros Hname. apply wp_bind, wp_find_node_named; [apply Hm1 | done|]. intros x Hx.
      destruct (ordered_finds _ _ _ _ (going_ordered _ _ _ Hm1) Hx Hknown) as (j & -> & Hj & Hjn).
      eapply Hvis; [exact Hm1 | split; [done|]; split; [done|]; left; by exists r |].
      intros res L2 w2 m2 Hpre2 Hm2 Hres. assert (progress L (world m) L2 w2) by (by eapply progress_trans).
      destruct res as [[]|e]; [destruct Hres as [<- Hres]|by eapply HQ].
      exists L2. split; [done|]. split; [done|].
      intros p [Hp|Hp%list_elem_of_singleton]%elem_of_app Hpn k Hk Hkn.
      * by eapply progress_in, Hdone.
      * subst p. rewrite <- Hjn in Hkn. by rewrite <- (distinct_index j k).
  - intros m' (L' & Hpre & Hm' & Hall). by eapply HQ.
Qed.

Lemma wp_visit_capability_providers L r (Q : init_result -> lifecycle W -> Prop) m :
  going stack L m -> r ∈ require_capability_records -> dname (requiring_driver r) = dn i ->
  visited stack L (world m) (fun L' => forall p, p ∈ provide_records ->
    provides (key_at (required_capability r)) p = true ->
    forall j, 0 <= j < zlen drivers -> dname (provide_driver p) = dn j -> j ∈ L') Q ->
  wp (visit_capability_providers vis (key_at (required_capability r))) Q m.
Proof.
  intros Hm Hr Hrn HQ. pose proof (valid_requires_capability valid) as Hall.
  rewrite Forall_forall in Hall. destruct (Hall r Hr) as (_ & _ & _ & Hcount & Hsome). clear Hall.
  set (key := key_at (required_capability r)) in *.
  apply wp_ktry, wp_ret. pose proof (validate_count_spec key) as Hspec.
  destruct (validate_provider_count key) as [[]|e]; [clear Hspec|done].
  apply wp_ktry, (wp_try_fold (fun done_ found m' => exists L', progress L (world m) L' (world m') /\ going stack L' m' /\
    (found = false -> Forall (fun p => provides key p = false) done_) /\
    forall p, p ∈ done_ -> provides key p = true ->
    forall j, 0 <= j < zlen drivers -> dname (provide_driver p) = dn j -> j ∈ L')).
  - exists L. split; [apply progress_same|]. split; [done|]. split; [done|]. by intros p ?%elem_of_nil.
  - intros done_ p rest found m1 Hsplit (L1 & Hpre & Hm1 & Hfound & Hdone).
    assert (Hp : p ∈ provide_records) by (rewrite Hsplit; apply elem_of_app; right; by left).
    destruct (provide_valid p Hp) as (Hd & _ & _ & Hknown & _).
    destruct (provides key p) eqn:Hkey; cbn [negb].
    2:{ apply wp_ret. exists L1. split; [done|]. split; [done|]. split.
        - intros Hf. rewrite Forall_app, Forall_singleton. auto.
        - intros q [Hq|Hq%list_elem_of_singleton]%elem_of_app Hqk; [by apply Hdone | congruence]. }
    apply wp_bind, wp_find_node; [apply Hm1 | done|]. intros x Hx.
    destruct (ordered_finds _ _ _ _ (going_ordered _ _ _ Hm1) Hx Hknown) as (j & -> & Hj & Hjn).
    apply wp_ktry. eapply Hvis; [exact Hm1 | split; [done|]; split; [done|]; right; by exists r, p |].
    intros res L2 w2 m2 Hpre2 Hm2 Hres. assert (progress L (world m) L2 w2) by (by eapply progress_trans).
    destruct res as [[]|e]; [destruct Hres as [<- Hres]|by eapply HQ].
    apply wp_ret. exists L2. split; [done|]. split; [done|]. split; [done|].
    intros q [Hq|Hq%list_elem_of_singleton]%elem_of_app Hqk k Hk Hkn.
    + by eapply progress_in, Hdone.
    + subst q. rewrite <- Hjn in Hkn. by rewrite <- (distinct_index j k).
  - intros found m1 (L1 & Hpre & Hm1 & Hfound & Hall). destruct found; apply wp_ret; [by eapply HQ|].
    exfalso. specialize (Hfound eq_refl). rewrite provider_count_eq in Hsome.
    rewrite Forall_forall in Hfound. destruct (base.filter _ provide_records) as [|p l] eqn:Hf; [cbn in Hsome; lia|].
    assert (Hp : p ∈ base.filter (fun r => provides key r = true) provide_records) by (rewrite Hf; by left).
    apply list_elem_of_filter in Hp as [Hk Hp]. rewrite Hfound in Hk by done. done.
Qed.

Lemma wp_visit_capability_dependencies L (Q : init_result -> lifecycle W -> Prop) m :
  going stack L m ->
  visited stack L (world m) (fun L' => forall r p, r ∈ require_capability_records -> p ∈ provide_records ->
    dname (requiring_driver r) = dn i -> provides (key_at (required_capability r)) p = true ->
    forall j, 0 <= j < zlen drivers -> dname (provide_driver p) = dn j -> j ∈ L') Q ->
  wp (visit_capability_dependencies vis i) Q m.
Proof.
  intros Hm HQ. apply (wp_try_each (fun done_ m' => exists L', progress L (world m) L' (world m') /\ going stack L' m' /\
    forall r p, r ∈ done_ -> p ∈ provide_records ->
    dname (requiring_driver r) = dn i -> provides (key_at (required_capability r)) p = true ->
    forall j, 0 <= j < zlen drivers -> dname (provide_driver p) = dn j -> j ∈ L')).
  - exists L. split; [apply progress_same|]. split; [done|]. by intros r p ?%elem_of_nil.
  - intros done_ r rest m1 Hsplit (L1 & Hpre & Hm1 & Hdone).
    assert (Hr : r ∈ require_capability_records) by (rewrite Hsplit; apply elem_of_app; right; by left).
    pose proof (valid_requires_capability valid) as Hall. rewrite Forall_forall in Hall.
    destruct (Hall r Hr) as (Hd & (Hkey & _) & _). clear Hall.
    eapply wp_own_record; [apply Hm1 | done | |].
    + intros Hother. exists L1. split; [done|]. split; [done|].
      intros q p [Hq|Hq%list_elem_of_singleton]%elem_of_app Hp Hname; [by apply Hdone | by subst].
    + intros Hname. apply wp_bind. unfold key_of. rewrite (proj2 (Z.eqb_neq _ _) Hkey). apply wp_ret.
      eapply wp_visit_capability_providers; [exact Hm1 | done | done |].
      intros res L2 w2 m2 Hpre2 Hm2 Hres. assert (progress L (world m) L2 w2) by (by eapply progress_trans).
      destruct res as [[]|e]; [destruct Hres as [<- Hres]|by eapply HQ].
      exists L2. split; [done|]. split; [done|].
      intros q p [Hq|Hq%list_elem_of_singleton]%elem_of_app Hp Hqn Hqk j Hj Hjn.
      * by eapply progress_in, Hdone.
      * subst q. by eapply Hres.
  - intros m' (L' & Hpre & Hm' & Hall). by eapply HQ.
Qed.
End Visiting.

Lemma wp_or_unvisit i stack L m (step k : kernel (lifecycle W) init_result) goal Q :
  (forall Q', visited (i :: stack) L (world m) goal Q' -> wp step Q' m) ->
  visited stack L (world m) (fun _ => False) Q ->
  (forall L' m', progress L (world m) L' (world m') -> going (i :: stack) L' m' -> goal L' -> wp k Q m') ->
  wp (or_unvisit i step k) Q m.
Proof.
  intros Hstep Herr Hk. apply wp_bind, Hstep. intros r L' w' m' Hpre Hm' Hr.
  destruct r as [[]|e]; [destruct Hr as [<- Hr]; by eapply Hk|].
  assert (Hi : 0 <= i < zlen drivers).
  { pose proof (going_range _ _ _ Hm') as Hall. by inversion Hall. }
  apply wp_bind, wp_update_node; [apply Hm' | |].
  { eapply ordered_shape_node; [apply Hm' | done]. }
  apply wp_ret. by eapply (Herr _ L'); [exact Hpre | apply going_leave |].
Qed.

Lemma visited_weaken stack L w L' w' goal goal' Q :
  progress L w L' w' -> (forall L'', goal L'' -> goal' L'') -> visited stack L w goal' Q ->
  visited stack L' w' goal Q.
Proof.
  intros Hpre Hgoal HQ r L'' w'' m'' Hpre' Hm'' Hr. eapply HQ; [by eapply progress_trans | done |].
  destruct r; [|done]. split; [apply Hr | apply Hgoal, Hr].
Qed.

(** The walk from a driver: enough fuel for the drivers that are not being visited makes it
    return, with the driver started after those it depends on, or with the reason it is not. *)
Lemma wp_visit fuel i stack L m (Q : init_result -> lifecycle W -> Prop) :
  going stack L m -> 0 <= i < zlen drivers -> chain (i :: stack) ->
  zlen drivers - zlen stack < Z.of_nat fuel ->
  visited stack L (world m) (fun L' => i ∈ L') Q ->
  wp (visit fuel i) Q m.
Proof.
  revert i stack L m Q. induction fuel as [|fuel IH]; intros i stack L m Q Hm Hi Hchain Hfuel HQ.
  { exfalso. destruct (decide (zlen stack < zlen drivers)); [lia|].
    pose proof (driver_list_length stack (going_distinct _ _ _ Hm) (going_range _ _ _ Hm)). lia. }
  pose proof (ordered_shape_node _ _ _ (going_ordered _ _ _ Hm) Hi) as Hrange.
  pose proof (progress_same L (world m)) as Hsame0.
  cbn [visit]. apply wp_bind, wp_get_node; [apply Hm | done|].
  rewrite (going_marks _ _ _ Hm i Hi).
  destruct (decide (i ∈ L)) as [HL|HL]; [apply wp_ret; by eapply HQ|].
  destruct (decide (i ∈ stack)) as [Hst|Hst].
  { apply wp_ret. eapply HQ; [done | done |]. by eapply visit_cycle, chain_reaches. }
  apply wp_bind, wp_update_node; [apply Hm | done|].
  pose proof (going_enter _ _ _ _ Hm Hi HL Hst) as Hm1.
  assert (Hvis : visits (visit fuel) i (i :: stack)).
  { intros j L1 m1 Q1 Hg Hdep HQ1. destruct Hdep as (? & Hj & ?).
    eapply IH; [exact Hg | done | by split | | done]. unfold zlen in *. cbn [length]. lia. }
  assert (Hfail : forall L' w', progress L (world m) L' w' -> visited stack L' w' (fun _ => False) Q).
  { intros L' w' Hpre. by eapply visited_weaken. }
  eapply wp_or_unvisit; [by intros Q'; apply wp_visit_driver_dependencies | by apply Hfail |].
  intros L1 m2 Hpre1 Hm2 Hdrivers.
  eapply wp_or_unvisit; [by intros Q'; apply wp_visit_capability_dependencies | by apply Hfail |].
  intros L2 m3 Hpre2 Hm3 Hcaps. apply wp_bind.
  assert (HiL : i ∉ L2) by (apply (going_apart _ _ _ Hm3); by left).
  assert (HL12 : progress L (world m) L2 (world m3)) by (by eapply progress_trans).
  eapply wp_run_driver; [apply Hm3 | done | done | |].
  { intros j (_ & Hj & [(r & Hr & Hn & Hd)|(r & p & Hr & Hp & Hn & Hk & Hd)]).
    - by eapply progress_in, Hdrivers.
    - by eapply Hcaps. }
  intros [[]|e] m4 Hsame Hr.
  - destruct Hr as [Hr Hrun]. apply wp_bind, wp_update_node; [apply Hr | done|]. apply wp_ret. eapply HQ.
    + by eapply progress_step.
    + by eapply going_start.
    + split; [done|]. apply elem_of_app. right. by left.
  - destruct Hr as [Hr He]. apply wp_bind, wp_update_node; [apply Hr | done|].
    apply wp_ret. eapply HQ; [done | | done]. apply going_leave. by eapply going_visits.
Qed.
End Order.

(** ** Starting all, stopping all *)
Section Runs.
Context {W : Type} `{registry_ok} `{code : driver_code W} `{!code_returns}.
Implicit Types m : lifecycle W.

(** The drivers of [L] are started, in that order, and no visit is under way. *)
Definition ready (L : list Z) m : Prop := exists before all, going before all [] L m.

(** [init_all] has work to do: nothing was built, or an earlier call failed after [L]. *)
Definition pending (L : list Z) m : Prop :=
  initialized_all (m_state m) = false /\
  (built (m_state m) = false /\ L = [] \/ valid_registry /\ ready L m).

(** [L] lists a driver after those it depends on. *)
Definition dependencies_first (L : list Z) : Prop :=
  forall pre i post, L = pre ++ i :: post -> forall j, depends i j -> j ∈ pre.

Lemma all_started L before all m :
  going before all [] L m -> (forall i, 0 <= i < zlen drivers -> i ∈ L) -> L ≡ₚ seqZ 0 (zlen drivers).
Proof.
  intros Hm Hall. apply NoDup_Permutation; [apply Hm | apply NoDup_seqZ|].
  intros i. rewrite elem_of_seqZ. split; [|intros; apply Hall; lia].
  pose proof (ordered_range _ _ _ _ (going_ordered _ _ _ _ _ Hm)) as Hr. rewrite Forall_forall in Hr.
  intros Hi. specialize (Hr i Hi). lia.
Qed.

(** In an order that starts dependencies first no driver depends on itself. *)
Lemma dependencies_first_later L : NoDup L -> dependencies_first L ->
  forall i j, tc depends i j -> forall pre post, L = pre ++ i :: post -> j ∈ pre.
Proof.
  intros Hnd Hdep. induction 1 as [i j Hij|i k j Hik Hkj IH]; intros pre post HL; [by eapply Hdep|].
  assert (Hk : k ∈ pre) by (by eapply Hdep).
  apply list_elem_of_split in Hk as (pre1 & pre2 & ->).
  apply elem_of_app. left. eapply IH. by rewrite HL, <- app_assoc.
Qed.

Lemma dependencies_acyclic L : NoDup L -> dependencies_first L -> forall i, i ∈ L -> ~ tc depends i i.
Proof.
  intros Hnd Hdep i (pre & post & HL)%list_elem_of_split Htc.
  pose proof (dependencies_first_later L Hnd Hdep i i Htc pre post HL) as Hin.
  revert Hnd. rewrite HL. by apply prefix_not_nodup.
Qed.

Lemma holds_going m m' :
  holds (zlen drivers) fresh_node m m' -> valid_registry ->
  going (started (log m)) false [] [] (set_state (set_built true (m_state m')) m').
Proof.
  intros Hm' Hv. pose proof (holds_shaped _ _ _ _ ltac:(reflexivity) Hm') as Hsh.
  assert (Hnode : forall i, 0 <= i < zlen drivers -> node m' i = fresh_node i).
  { intros i Hi. by apply (holds_node _ _ _ _ _ Hm'). }
  destruct Hm' as (ns & -> & Hlen & Hk & Hns).
  assert (Hord : ordered (started (log m)) false []
    (set_state (set_built true (m_state (framed ns (zlen drivers) m))) (framed ns (zlen drivers) m))).
  { split; try done.
    - by destruct Hsh; split.
    - intros i Hi. pose proof (Hnode i Hi) as Hn. unfold node in *. cbn in Hn |- *. by rewrite Hn.
    - constructor.
    - cbn. intros k Hk'. unfold zlen in Hk'. cbn in Hk'. lia.
    - cbn. intros k Hk'. lia.
    - by intros i r ?%elem_of_nil.
    - intros pre x post Habs. by apply app_cons_not_nil in Habs.
    - cbn. by rewrite app_nil_r. }
  split; [exact Hord | | constructor | constructor |].
  - intros i Hi. rewrite !decide_False by apply not_elem_of_nil. exact (f_equal node_visit (Hnode i Hi)).
  - by intros i ?%elem_of_nil.
Qed.

(** [init_all_after_build]: the walk over all drivers. *)
Lemma wp_visit_all before all L (Q : option error -> lifecycle W -> Prop) m :
  valid_registry -> going before all [] L m ->
  (forall r new w m', starts L new (world m) w -> going before all [] (L ++ new) m' ->
    match r with
    | None => world m' = w /\ forall i, 0 <= i < zlen drivers -> i ∈ L ++ new
    | Some e => visit_error (L ++ new) (capability_count (m_state m')) e w (world m')
    end -> Q r m') ->
  wp (scan_range 0 (zlen drivers) (fun i =>
    r ← visit VISIT_FUEL i;
    match r with Ok _ => mret None | Err e => mret (Some e) end)) Q m.
Proof.
  intros Hv Hm HQ.
  apply (wp_scan_range (fun i m' => exists L', progress L (world m) L' (world m') /\
      going before all [] L' m' /\ forall j, 0 <= j < i -> j ∈ L')
    (fun e m' => exists L' w, progress L (world m) L' w /\ going before all [] L' m' /\
      visit_error L' (capability_count (m_state m')) e w (world m'))).
  - exists L. split; [apply progress_same|]. split; [done | lia].
  - intros i m1 Hi (L1 & Hpre1 & Hm1 & Hdone). apply wp_bind.
    eapply (wp_visit Hv before all); [exact Hm1 | done | done | |].
    { unfold VISIT_FUEL. pose proof (small_registry Hv). unfold zlen at 2. cbn [length].
      unfold MAX_DRIVERS in *. lia. }
    intros r L2 w2 m2 Hpre2 Hm2 Hr. pose proof (progress_trans _ _ _ _ _ _ Hpre1 Hpre2) as Hpre.
    destruct r as [[]|e]; apply wp_ret; [destruct Hr as [<- Hr]|by exists L2, w2].
    exists L2. split; [done|]. split; [done|]. intros j Hj.
    destruct (Z.eq_dec j i) as [->|Hne]; [done|].
    apply (progress_in _ _ _ _ _ Hpre2), Hdone. lia.
  - intros e m1 (L1 & w & (new & -> & Hnew) & Hm1 & He). by eapply (HQ _ new w).
  - intros m1 (L1 & (new & -> & Hnew) & Hm1 & Hall). eapply (HQ _ new); [done | done |].
    split; [done|]. intros i Hi. apply Hall. lia.
Qed.

Lemma going_flag before all L m b : going before all [] L m ->
  going before b [] L (set_state (set_initialized_all b (m_state m)) m).
Proof. intros []. split; try done. destruct going_ordered0. split; try done. by destruct ordered_shape0. Qed.

Lemma wp_init_all L m (Q : init_result -> lifecycle W -> Prop) :
  pending L m ->
  (forall e m', ~ valid_registry -> built (m_state m') = false -> initialized_all (m_state m') = false ->
    started (log m') = started (log m) -> world m' = world m -> L = [] -> Q (Err e) m') ->
  (forall r before new w m', valid_registry -> started (log m) = before ++ (dn <$> L) ->
    starts L new (world m) w ->
    match r with
    | Ok _ => going before true [] (L ++ new) m' /\ world m' = w /\
        (forall i, 0 <= i < zlen drivers -> i ∈ L ++ new)
    | Err e => going before false [] (L ++ new) m' /\
        visit_error (L ++ new) (capability_count (m_state m')) e w (world m')
    end -> Q r m') ->
  wp init_all Q m.
Proof.
  intros (Hall & Hbuilt) Hbad HQ. apply wp_bind, wp_read_state. rewrite Hall. apply wp_bind.
  assert (Hwalk : forall before m1, valid_registry -> going before false [] L m1 ->
    started (log m) = before ++ (dn <$> L) -> world m1 = world m ->
    wp (n ← count;
        failed ← scan_range 0 n (fun i =>
          r ← visit VISIT_FUEL i;
          match r with Ok _ => mret None | Err e => mret (Some e) end);
        match failed with
        | Some e => mret (Err e)
        | None => on_state (modify (set_initialized_all true));; mret (Ok tt)
        end) Q m1).
  { intros before m1 Hv Hm1 Hlog Hworld. apply wp_bind, wp_read_state.
    change (node_count (m_state m1)) with (total m1).
    rewrite (ordered_total _ _ _ _ (going_ordered _ _ _ _ _ Hm1)).
    apply wp_bind, (wp_visit_all before false L); [done | done|].
    rewrite Hworld. intros [e|] new w m2 Hstarts Hm2 Hr.
    - apply wp_ret. by eapply (HQ _ before new w).
    - apply wp_bind, wp_on_state, wp_modify, wp_ret. eapply (HQ _ before new w); [done | done | done |].
      split; [by eapply going_flag | done]. }
  destruct Hbuilt as [[Hb ->]|[Hv (before & all & Hgo)]].
  - apply wp_build_registry; [done | |].
    + intros m1 Hv Hm1. eapply Hwalk; [done | by apply holds_going | by rewrite app_nil_r|].
      by destruct Hm1 as (ns & -> & _).
    + intros e f k m1 Hnv Hm1. apply wp_bind, wp_kprintln, wp_ret.
      destruct Hm1 as (ns & -> & _). apply Hbad; try done. cbn. by rewrite started_app, app_nil_r.
  - pose proof (going_ordered _ _ _ _ _ Hgo) as Ho. apply wp_bind, wp_read_state.
    rewrite (ordered_built _ _ _ _ Ho). apply wp_ret.
    pose proof (ordered_all _ _ _ _ Ho) as Hf. rewrite Hall in Hf. subst all.
    by eapply Hwalk; [| | apply (ordered_log _ _ _ _ Ho) |].
Qed.

(** Every driver of [L] that has an exit point, the last started first. *)
Definition exits (L : list Z) : list event :=
  (fun i => Exiting (dn i)) <$> base.filter (fun i => exit_of i <> nullptr) (reverse L).

(** The exit points of the drivers of [L], those that have one, were called in the order of [L]. *)
Inductive stops : list Z -> W -> W -> Prop :=
| stops_nil w : stops [] w w
| stops_none L i w w' : stops L w w' -> exit_of i = nullptr -> stops (L ++ [i]) w w'
| stops_exit L i s w w1 w' : stops L w w1 -> exit_of i <> nullptr ->
    call_exit (exit_of i) s w1 = Ret (tt, w') -> stops (L ++ [i]) w w'.

(** The state of [exit_all] with the drivers of [rest] still to stop. *)
Record stopping (L : list Z) m (rest : list Z) m' : Prop := {
  stopping_state : exists ns, m_state m' = set_nodes ns (m_state m) /\ zlen ns = MAX_DRIVERS;
  stopping_nodes : forall i, 0 <= i < zlen drivers -> node_id (node m' i) = node_id (node m i) /\
    node_exit (node m' i) = exit_of i /\ node_visit (node m' i) = node_visit (node m i) /\
    node_initialized (node m' i) = bool_decide (i ∈ rest);
  stopping_log : exists todo, L = rest ++ todo /\ log m' = log m ++ exits todo /\
    stops (reverse todo) (world m) (world m');
}.

Lemma exits_cons i L : exits (i :: L) =
  exits L ++ (if decide (exit_of i <> nullptr) then [Exiting (dn i)] else []).
Proof.
  unfold exits. rewrite reverse_cons, filter_app, fmap_app, filter_cons, filter_nil. f_equal.
  by destruct (decide _).
Qed.

Lemma stopping_shaped L m rest m' : shaped m -> total m = zlen drivers ->
  (forall i, 0 <= i < zlen drivers -> node_id (node m i) = znth drivers i) ->
  stopping L m rest m' -> shaped m' /\ total m' = zlen drivers.
Proof.
  intros Hsh Htot Hids [(ns & Hs & Hlen) Hnodes _].
  assert (Ht : total m' = zlen drivers) by (unfold total in *; by rewrite Hs).
  split; [|done]. destruct Hsh. split; try (by rewrite Hs).
  - rewrite Ht, <- Htot. done.
  - rewrite Ht. intros i Hi. destruct (Hnodes i Hi) as [-> _]. rewrite Hids by done.
    by apply driver_address.
Qed.

(** One more node is marked as stopped. *)
Lemma stopping_step L m rest i m1 m2 :
  stopping L m (rest ++ [i]) m1 -> shaped m1 -> 0 <= i < MAX_DRIVERS -> zlen drivers <= MAX_DRIVERS ->
  NoDup (rest ++ [i]) ->
  m_state m2 = m_state m1 ->
  log m2 = log m1 ++ (if decide (exit_of i <> nullptr) then [Exiting (dn i)] else []) ->
  (forall todo, stops todo (world m) (world m1) -> stops (todo ++ [i]) (world m) (world m2)) ->
  stopping L m rest (on_node i (with_initialized false) m2).
Proof.
  intros [(ns & Hs & Hlen) Hnodes Hlog] Hsh Hi Hsmall Hnd Hm2 Hl2 Hw2.
  assert (Hsh2 : shaped m2) by (destruct Hsh; by split; unfold total, node in *; rewrite ?Hm2).
  assert (Hnode : forall j, node m2 j = node m1 j) by (intros j; unfold node; by rewrite Hm2).
  split.
  - eexists. split; [cbn; rewrite Hm2, Hs; reflexivity|]. rewrite zlen_zset. exact Hlen.
  - intros j Hj. rewrite node_on_node, !Hnode by (done || lia).
    destruct (Hnodes j Hj) as (Hid & Hex & Hv & Hini).
    destruct (Z.eqb_spec i j) as [->|Hne]; cbn; rewrite ?Hid, ?Hex, ?Hv; do 3 (split; [done|]).
    + symmetry. apply bool_decide_eq_false. apply NoDup_app in Hnd as (_ & Hdis & _).
      intros Hin. apply (Hdis j Hin). by left.
    + rewrite Hini. apply bool_decide_ext. rewrite elem_of_app, list_elem_of_singleton.
      split; [intros [?| ->]; done | tauto].
  - destruct Hlog as (todo & HL & Hlog & Hstops). exists (i :: todo). rewrite <- app_assoc in HL.
    split; [done|]. cbn [log world on_node set_state]. rewrite reverse_cons.
    split; [by rewrite Hl2, Hlog, exits_cons, app_assoc | by apply Hw2].
Qed.

Lemma wp_exit_all before all L (Q : unit -> lifecycle W -> Prop) m :
  valid_registry -> going before all [] L m ->
  (forall m', shaped m' -> built (m_state m') = true -> total m' = zlen drivers ->
    (forall i, 0 <= i < zlen drivers -> node_id (node m' i) = znth drivers i /\
      node_visit (node m' i) = node_visit (node m i) /\ node_initialized (node m' i) = false) ->
    initialized_count (m_state m') = 0 -> capability_count (m_state m') = 0 ->
    initialized_all (m_state m') = false -> log m' = log m ++ exits L ->
    stops (reverse L) (world m) (world m') -> Q tt m') ->
  wp exit_all Q m.
Proof.
  intros Hv Hm HQ. pose proof (going_ordered _ _ _ _ _ Hm) as Ho.
  pose proof (ordered_shape _ _ _ _ Ho) as Hsh. pose proof (ordered_total _ _ _ _ Ho) as Htot.
  assert (Hids : forall i, 0 <= i < zlen drivers -> node_id (node m i) = znth drivers i).
  { intros i Hi. by destruct (ordered_nodes _ _ _ _ Ho i Hi). }
  pose proof (small_registry Hv) as Hsmall.
  pose proof (ordered_range _ _ _ _ Ho) as Hrange. rewrite Forall_forall in Hrange.
  apply wp_bind, wp_read_state. rewrite (ordered_count _ _ _ _ Ho).
  apply wp_bind, (wp_for_down (fun k m' => stopping L m (take (Z.to_nat k) L) m')).
  - unfold zlen. lia.
  - unfold zlen. rewrite Nat2Z.id, take_ge by lia. split.
    + exists (nodes (m_state m)). by rewrite set_nodes_same, (shaped_nodes m Hsh).
    + intros i Hi. by destruct (ordered_nodes _ _ _ _ Ho i Hi) as (-> & _ & -> & ->).
    + exists []. rewrite !app_nil_r. split; [done|]. split; [done | constructor].
  - intros k m1 Hk Hm1. destruct (lookup_lt_is_Some_2 L (Z.to_nat k)) as [i HLk]; [unfold zlen in *; lia|].
    assert (Htake : take (Z.to_nat (k + 1)) L = take (Z.to_nat k) L ++ [i]).
    { replace (Z.to_nat (k + 1)) with (S (Z.to_nat k)) by lia. by apply take_S_r. }
    rewrite Htake in Hm1.
    assert (Hi : 0 <= i < zlen drivers) by (by eapply Hrange, list_elem_of_lookup_2).
    destruct (stopping_shaped _ _ _ _ Hsh Htot Hids Hm1) as [Hsh1 _].
    destruct (stopping_nodes _ _ _ _ Hm1 i Hi) as (Hid & Hex & _ & Hini).
    assert (Hnd : NoDup (take (Z.to_nat k) L ++ [i])).
    { rewrite <- Htake. pose proof (ordered_distinct _ _ _ _ Ho) as Hd.
      rewrite <- (take_drop (Z.to_nat (k + 1)) L) in Hd. by apply NoDup_app in Hd as (? & _). }
    apply wp_bind, wp_on_state, wp_zoom, wp_array_get.
    { destruct (stopping_state _ _ _ _ Hm1) as (ns & -> & _). cbn.
      rewrite (shaped_initialized m Hsh).
      pose proof (driver_list_length L (ordered_distinct _ _ _ _ Ho) (ordered_range _ _ _ _ Ho)). lia. }
    assert (Hslot : znth (initialized (m_state m1)) k = Some i).
    { destruct (stopping_state _ _ _ _ Hm1) as (ns & -> & _). cbn.
      rewrite (ordered_slots _ _ _ _ Ho k Hk). unfold znth. by rewrite (list_lookup_total_correct _ _ _ HLk). }
    rewrite Hslot. replace (set_state _ m1) with m1 by (by destruct m1 as [[] ? ?]).
    apply wp_bind, wp_get_node; [done | lia|]. rewrite Hini.
    rewrite bool_decide_true by (apply elem_of_app; right; by left). cbn [negb].
    rewrite Hex. apply wp_bind. destruct (Z.eqb_spec (exit_of i) nullptr) as [Hnone|Hsome]; cbn [negb when].
    + apply wp_ret, wp_update_node; [done | lia|].
      eapply stopping_step; [done | done | lia | done | done | done | |].
      * rewrite decide_False by tauto. by rewrite app_nil_r.
      * intros todo Htodo. by apply stops_none.
    + apply wp_bind, wp_name_of; [rewrite Hid, Hids by done; by apply driver_address|].
      rewrite Hid, Hids by done. apply wp_bind, wp_kprintln, wp_call. cbn.
      destruct (exit_returns (exit_of i) (m_state m1) (world m1)) as (w' & Hcall).
      exists tt, w'. split; [done|]. apply wp_update_node; [by destruct Hsh1 | lia|].
      eapply stopping_step; [done | done | lia | done | done | done | |].
      * by rewrite decide_True by done.
      * intros todo Htodo. by eapply stops_exit.
  - intros m1 Hm1. destruct (stopping_shaped _ _ _ _ Hsh Htot Hids Hm1) as [Hsh1 Ht1].
    destruct Hm1 as [(ns & Hs & _) Hnodes (todo & HL & Hlog & Hstops)].
    change (L = todo) in HL. subst todo.
    do 2 apply wp_bind, wp_on_state, wp_modify. apply wp_on_state, wp_modify, HQ; try done.
    + by destruct Hsh1; split.
    + cbn. rewrite Hs. cbn. apply Ho.
    + intros i Hi. destruct (Hnodes i Hi) as (Hid & _ & Hvi & Hini). cbn.
      split; [|split; [exact Hvi | exact Hini]]. rewrite <- (Hids i Hi). exact Hid.
Qed.

(** Entry [k] of the table is for a capability. *)
Definition entry_for key m (k : Z) : Prop :=
  key_name (key_at (cap_key (znth (capabilities (m_state m)) k))) = key_name key.

Lemma wp_find_capability key before all L (Q : pointer -> lifecycle W -> Prop) m :
  going before all [] L m ->
  (forall api, match api with
     | None => forall k, 0 <= k < capability_count (m_state m) -> ~ entry_for key m k
     | Some a => exists k, 0 <= k < capability_count (m_state m) /\ entry_for key m k /\
         (forall j, 0 <= j < k -> ~ entry_for key m j) /\
         a = cap_api (znth (capabilities (m_state m)) k) /\ a <> nullptr
     end -> Q (default nullptr api) m) ->
  wp (find_capability key) Q m.
Proof.
  intros Hm HQ. pose proof (going_ordered _ _ _ _ _ Hm) as Ho.
  pose proof (ordered_capabilities _ _ _ _ Ho) as Hn.
  pose proof (shaped_capabilities _ (ordered_shape _ _ _ _ Ho)) as Hlen.
  apply wp_bind, wp_read_state, wp_bind.
  apply (wp_scan_range (fun k m' => m' = m /\ forall j, 0 <= j < k -> ~ entry_for key m j)
    (fun a m' => m' = m /\ exists k, 0 <= k < capability_count (m_state m) /\ entry_for key m k /\
      (forall j, 0 <= j < k -> ~ entry_for key m j) /\
      a = cap_api (znth (capabilities (m_state m)) k))).
  - split; [done | lia].
  - intros k m' Hk [-> Hno]. apply wp_bind, wp_on_state, wp_zoom, wp_array_get; [lia|].
    replace (set_state _ m) with m by (by destruct m as [[] ? ?]).
    destruct (ordered_apis _ _ _ _ Ho k Hk) as [Hkey _]. rewrite (proj2 (Z.eqb_neq _ _) Hkey).
    cbn [negb andb]. unfold same_capability. rewrite string_equal_spec.
    fold (entry_for key m k). case_bool_decide as Hsame; apply wp_ret; (split; [done|]).
    + by exists k.
    + intros j Hj. destruct (Z.eq_dec j k) as [->|]; [done | apply Hno; lia].
  - intros a m' [-> (k & Hk & He & Hfirst & ->)]. apply wp_ret, (HQ (Some _)).
    exists k. do 4 (split; [done|]). by apply (ordered_apis _ _ _ _ Ho k Hk).
  - intros m' [-> Hno]. apply wp_ret, (HQ None). intros k Hk. apply Hno. lia.
Qed.

Lemma wp_visit_done fuel i (Q : init_result -> lifecycle W -> Prop) m :
  shaped m -> 0 <= i < MAX_DRIVERS -> node_visit (node m i) = VISITED -> Q (Ok tt) m ->
  wp (visit (S fuel) i) Q m.
Proof.
  intros Hm Hi Hv HQ. cbn [visit]. apply wp_bind, wp_get_node; [done | done|]. by rewrite Hv.
Qed.

(** Once every driver was visited, a later [init_all] finds nothing to do. *)
Lemma wp_visit_visited (Q : option error -> lifecycle W -> Prop) m :
  shaped m -> zlen drivers <= MAX_DRIVERS ->
  (forall i, 0 <= i < zlen drivers -> node_visit (node m i) = VISITED) -> Q None m ->
  wp (scan_range 0 (zlen drivers) (fun i =>
    r ← visit VISIT_FUEL i;
    match r with Ok _ => mret None | Err e => mret (Some e) end)) Q m.
Proof.
  intros Hm Hsmall Hv HQ.
  apply (wp_scan_range (fun _ m' => m' = m) (fun _ _ => False)); [done | | intros ? ? [] | intros m' ->; exact HQ].
  intros i m' Hi ->. apply wp_bind. unfold VISIT_FUEL.
  apply (wp_visit_done 128); [done | lia | by apply Hv |]. by apply wp_ret.
Qed.
End Runs.

(** ** The properties *)
Section LifecycleProperties.
Context {W : Type} `{registry_ok} `{code : driver_code W} `{!code_returns}.
Implicit Types m : lifecycle W.

(** C12: Starting the drivers, from any state in which it has work to do: the call returns.  It
    succeeds only on valid records.  Then every driver was started once, after those it depends on:
    the rest of the kernel is as the entry points of the drivers and the resolvers of their
    capabilities leave it, called in that order and no other code with them, each entry point with
    a state that lists the drivers before it as started.  It fails on invalid records, when no code
    of a driver was called; or because dependencies form a cycle, an entry point refused, a resolver
    answered null or the table of capabilities is full, and then the drivers started so far stay so,
    in order, only the calls of the attempt that failed follow theirs, and a later call continues
    from them. *)
Theorem init_all_correct L m :
  pending L m ->
  wp init_all (fun r m' => exists new w,
    started (log m') = started (log m) ++ (dn <$> new) /\ dependencies_first (L ++ new) /\
    starts L new (world m) w /\
    match r with
    | Ok _ => valid_registry /\ L ++ new ≡ₚ seqZ 0 (zlen drivers) /\ world m' = w /\
        ready (L ++ new) m' /\ initialized_all (m_state m') = true
    | Err e => ~ valid_registry /\ new = [] /\ world m' = world m /\ pending [] m' \/
        valid_registry /\ visit_error (L ++ new) (capability_count (m_state m')) e w (world m') /\
        pending (L ++ new) m'
    end) m.
Proof.
  intros Hm. apply (wp_init_all L); [done | |].
  - intros e m' Hv Hb Hf Hlog Hworld ->. exists [], (world m). rewrite app_nil_r. split; [done|].
    split; [by intros pre i post Habs; apply app_cons_not_nil in Habs|]. split; [constructor|].
    left. do 3 (split; [done|]). split; [done | by left].
  - intros r before new w m' Hv Hlog Hw Hr. exists new, w.
    assert (Hgo : exists all, going before all [] (L ++ new) m') by (destruct r; destruct Hr; eauto).
    destruct Hgo as (all & Hgo). pose proof (going_ordered _ _ _ _ _ Hgo) as Ho.
    split; [by rewrite (ordered_log _ _ _ _ Ho), Hlog, fmap_app, app_assoc|].
    split; [by intros pre i post; apply (ordered_depends _ _ _ _ Ho)|]. split; [done|].
    destruct r as [[]|e].
    + destruct Hr as (Hg & Hworld & Hall). split; [done|]. split; [by eapply all_started|].
      split; [done|]. split; [by exists before, true | apply Hg].
    + destruct Hr as [Hg He]. right. split; [done|]. split; [done|].
      split; [apply Hg|]. right. split; [done|]. by exists before, false.
Qed.

(** A dependency cycle is never started: whatever the records, if a driver depends on itself,
    directly or not, [init_all] fails. *)
Theorem dependency_cycle_refused L m i :
  pending L m -> tc depends i i -> wp init_all (fun r _ => exists e, r = Err e) m.
Proof.
  intros Hm Hcycle. apply (wp_init_all L); [done | by eauto |].
  intros [[]|e] before new w m' Hv Hlog Hw Hr; [|by eauto]. exfalso.
  destruct Hr as (Hgo & _ & Hall). pose proof (going_ordered _ _ _ _ _ Hgo) as Ho.
  assert (Hi : 0 <= i < zlen drivers) by (by inversion Hcycle as [? ? [? _]|? ? ? [? _]]).
  refine (dependencies_acyclic (L ++ new) _ _ i (Hall i Hi) Hcycle).
  - apply Ho.
  - exact (ordered_depends _ _ _ _ Ho).
Qed.

(** Validation: [build_registry] accepts exactly the valid records, and leaves the lifecycle
    unbuilt otherwise; it starts no driver and prints nothing. *)
Theorem build_registry_correct m :
  built (m_state m) = false ->
  wp build_registry (fun r m' =>
    world m' = world m /\ log m' = log m /\
    match r with
    | Ok _ => valid_registry /\ built (m_state m') = true
    | Err _ => ~ valid_registry /\ built (m_state m') = false
    end) m.
Proof.
  intros Hb. apply wp_build_registry; [done | |].
  - intros m' Hv (ns & -> & _). done.
  - intros e f k m' Hv (ns & -> & _). done.
Qed.


(** A capability that a started driver provides is found; an answer that is not null is the API of
    the first entry registered under the name. *)
Theorem find_capability_correct key L m :
  ready L m ->
  wp (find_capability key) (fun api m' => m' = m /\
    (forall i p, i ∈ L -> p ∈ provide_records -> dname (provide_driver p) = dn i ->
      key_name (key_at (provide_capability p)) = key_name key -> api <> nullptr) /\
    (api <> nullptr -> exists k, 0 <= k < capability_count (m_state m) /\ entry_for key m k /\
      (forall j, 0 <= j < k -> ~ entry_for key m j) /\
      api = cap_api (znth (capabilities (m_state m)) k))) m.
Proof.
  intros (before & all & Hm). eapply wp_find_capability; [done|]. intros [a|] Ha; (split; [done|]).
  - destruct Ha as (k & Hk & He & Hfirst & -> & Hnull). split; [done|]. intros _. by exists k.
  - split; [|done]. intros i p Hi Hp Hn Hkey.
    destruct (ordered_offers _ _ _ _ (going_ordered _ _ _ _ _ Hm) i p Hi Hp Hn) as (k & Hk & Hc).
    destruct (Ha k Hk). unfold entry_for. by rewrite Hc.
Qed.

(** Restarting: after the drivers were all started and then stopped, [init_all] reports success
    although it starts none of them: they are left marked as visited. *)
Theorem restart_starts_nothing L m :
  valid_registry -> ready L m -> L ≡ₚ seqZ 0 (zlen drivers) ->
  wp (exit_all;; init_all) (fun r m' =>
    r = Ok tt /\ log m' = log m ++ exits L /\ initialized_all (m_state m') = true /\
    initialized_count (m_state m') = 0 /\ capability_count (m_state m') = 0 /\
    forall i, 0 <= i < zlen drivers -> node_initialized (node m' i) = false) m.
Proof.
  intros Hv (before & all & Hm) Hperm. apply wp_bind. eapply wp_exit_all; [done | done |].
  intros m1 Hsh Hb Htot Hnodes Hcount Hcaps Hall Hlog _.
  apply wp_bind, wp_read_state. rewrite Hall. apply wp_bind, wp_bind, wp_read_state. rewrite Hb.
  apply wp_ret, wp_bind, wp_read_state. change (node_count (m_state m1)) with (total m1). rewrite Htot.
  apply wp_bind, wp_visit_visited; [done | apply Hv | |].
  - intros i Hi. destruct (Hnodes i Hi) as (_ & -> & _). rewrite (going_marks _ _ _ _ _ Hm i Hi).
    rewrite decide_True; [done|]. rewrite Hperm. apply elem_of_seqZ. lia.
  - apply wp_bind, wp_on_state, wp_modify, wp_ret. do 5 (split; [done|]). intros i Hi. by apply Hnodes.
Qed.
End LifecycleProperties.

(** ** The properties at work *)
Section LifecycleWitnesses.
(** A file system that needs the disk driver, which needs the console that a serial port provides;
    the linker lists them in that order. *)
Local Instance example_registry : registry := {|
  driver_at p := {| driver_name := match p with
    | 1 => Some "fs" | 2 => Some "disk" | 3 => Some "serial" | _ => None end%string |};
  key_at p := {| key_name := if p =? 10 then Some "console"%string else None; multiplicity := SINGLE |};
  driver_ids := Some [1; 2; 3];
  driver_init := Some [{| init_driver := 3; init_entry := 103 |}; {| init_driver := 1; init_entry := 101 |}];
  driver_exit := Some [{| exit_driver := 1; exit_entry := 201 |}; {| exit_driver := 3; exit_entry := 203 |}];
  driver_provides := Some [{| provide_driver := 3; provide_capability := 10; provide_resolve := 303 |}];
  driver_requires_driver := Some [{| require_driver := 1; dependency_name := Some "disk"%string |}];
  driver_requires_capability := Some [{| requiring_driver := 2; required_capability := 10 |}];
|}.

(** Two drivers that need each other. *)
Definition cyclic_registry : registry := {|
  driver_at p := {| driver_name := match p with
    | 1 => Some "left" | 2 => Some "right" | _ => None end%string |};
  key_at p := {| key_name := None; multiplicity := SINGLE |};
  driver_ids := Some [1; 2];
  driver_init := None;
  driver_exit := None;
  driver_provides := None;
  driver_requires_driver := Some [{| require_driver := 1; dependency_name := Some "right"%string |};
    {| require_driver := 2; dependency_name := Some "left"%string |}];
  driver_requires_capability := None;
|}.

(** The drivers' code records its calls. *)
Local Instance example_code : driver_code (list Z) := {|
  call_init p s w := Ret (Ok tt, w ++ [p]);
  call_exit p s w := Ret (tt, w ++ [p]);
  call_resolve p s w := Ret (p + 1000, w ++ [p]);
|}.

Local Instance example_returns : code_returns.
Proof. split; intros; cbn; eauto. Qed.

Local Instance example_registry_ok : registry_ok.
Proof. split. cbn. by repeat constructor. Qed.

Lemma cyclic_registry_ok : @registry_ok cyclic_registry.
Proof. split. cbn. by repeat constructor. Qed.

Definition boot_state : lifecycle (list Z) :=
  {| m_state := lifecycle_state_init; world := []; log := [] |}.

Lemma example_runs :
  match init_all boot_state with
  | Ret (Ok _, m) => world m = [103; 303; 101] /\
      started (log m) = [Some "serial"; Some "disk"; Some "fs"]%string
  | _ => False
  end.
Proof. vm_compute. done. Qed.

Lemma example_pending `{registry} : pending [] boot_state.
Proof. split; [done | by left]. Qed.

Lemma example_ready : exists L (m : lifecycle (list Z)), valid_registry /\ ready L m /\ L ≡ₚ seqZ 0 3.
Proof.
  pose proof example_runs as Hrun.
  assert (Hwp : wp init_all (fun r m => r = Ok tt -> exists L, valid_registry /\ ready L m /\
    L ≡ₚ seqZ 0 3) boot_state).
  { apply (wp_init_all []); [apply example_pending | intros e m' _ _ _ _ _ _ [=] |].
    intros [[]|e] before new w m Hv Hlog _ Hr; [|intros [=]]. destruct Hr as (Hg & _ & Hall). intros _.
    exists ([] ++ new). split; [done|]. split; [by exists before, true|]. exact (all_started _ _ _ m Hg Hall). }
  revert Hrun Hwp. unfold wp. generalize (init_all boot_state).
  intros [[[[]|e] m]| | |] Hrun HQ; try (by destruct Hrun).
  destruct (HQ eq_refl) as (L & ? & ? & ?). by exists L, m.
Qed.

Lemma init_all_correct_witness :
  pending [] boot_state /\
  wp init_all (fun r m' => exists new w,
    started (log m') = started (log boot_state) ++ (dn <$> new) /\ dependencies_first ([] ++ new) /\
    starts [] new [] w /\
    match r with
    | Ok _ => valid_registry /\ [] ++ new ≡ₚ seqZ 0 (zlen drivers) /\ world m' = w /\
        ready ([] ++ new) m' /\ initialized_all (m_state m') = true
    | Err e => ~ valid_registry /\ new = [] /\ world m' = [] /\ pending [] m' \/
        valid_registry /\ visit_error ([] ++ new) (capability_count (m_state m')) e w (world m') /\
        pending ([] ++ new) m'
    end) boot_state.
Proof. split; [apply example_pending | apply (init_all_correct []), example_pending]. Defined.

Lemma dependency_cycle_refused_witness :
  @tc Z (@depends cyclic_registry) 0 0 /\
  wp (@init_all _ cyclic_registry _) (fun r _ => exists e, r = Err e) boot_state.
Proof.
  assert (Hcycle : @tc Z (@depends cyclic_registry) 0 0).
  { eapply tc_l; [|apply tc_once].
    - split; [by cbn|]. split; [|left; exists {| require_driver := 1; dependency_name := Some "right"%string |}].
      + by instantiate (1 := 1).
      + split; [by left | done].
    - split; [by cbn|]. split; [by cbn|].
      left; exists {| require_driver := 2; dependency_name := Some "left"%string |}.
      split; [by right; left | done]. }
  split; [exact Hcycle|].
  apply (@dependency_cycle_refused _ cyclic_registry cyclic_registry_ok _ _ [] boot_state 0);
    [apply example_pending | exact Hcycle].
Defined.

Lemma build_registry_correct_witness :
  built (m_state boot_state) = false /\
  wp build_registry (fun r m' =>
    world m' = world boot_state /\ log m' = log boot_state /\
    match r with
    | Ok _ => valid_registry /\ built (m_state m') = true
    | Err _ => ~ valid_registry /\ built (m_state m') = false
    end) boot_state.
Proof. split; [done | by apply build_registry_correct]. Defined.


Lemma find_capability_correct_witness :
  exists L (m : lifecycle (list Z)), ready L m /\
  let key := {| key_name := Some "console"%string; multiplicity := SINGLE |} in
  wp (find_capability key) (fun api m' => m' = m /\
    (forall i p, i ∈ L -> p ∈ provide_records -> dname (provide_driver p) = dn i ->
      key_name (key_at (provide_capability p)) = key_name key -> api <> nullptr) /\
    (api <> nullptr -> exists k, 0 <= k < capability_count (m_state m) /\ entry_for key m k /\
      (forall j, 0 <= j < k -> ~ entry_for key m j) /\
      api = cap_api (znth (capabilities (m_state m)) k))) m.
Proof.
  destruct example_ready as (L & m & _ & Hready & _). exists L, m.
  split; [done | by apply (find_capability_correct _ L)].
Defined.

Lemma restart_starts_nothing_witness :
  exists L (m : lifecycle (list Z)), (valid_registry /\ ready L m /\ L ≡ₚ seqZ 0 (zlen drivers)) /\
  wp (exit_all;; init_all) (fun r m' =>
    r = Ok tt /\ log m' = log m ++ exits L /\ initialized_all (m_state m') = true /\
    initialized_count (m_state m') = 0 /\ capability_count (m_state m') = 0 /\
    forall i, 0 <= i < zlen drivers -> node_initialized (node m' i) = false) m.
Proof.
  destruct example_ready as (L & m & Hv & Hready & Hperm). exists L, m.
  split; [done | by apply restart_starts_nothing].
Defined.
End LifecycleWitnesses.
