(* ===== verification/DriverModule.v ===== *)
(** * DriverModule: how drivers declare themselves, [include/uk/module.hpp]

    A translation unit is the list of the declaration macros that it invokes.  Each expands to
    static objects, the driver's identity, a record in a section, a resolver function, and the
    linker gathers the sections of all units into the registry that [Registry.v] reads.  The
    addresses it chooses, the order it gives a section's elements and the types and objects that
    drivers name are the class [toolchain]; drivers live outside the repository. *)

From S2P Require Import Prelude Registry Lifecycle.

(** A capability is named by its type, an API object by the expression that denotes it. *)
Inductive declaration : Type :=
| DOOM_OS_DRIVER (name : string)
| DOOM_OS_DRIVER_INIT (name : string) (init_fn : pointer)
| DOOM_OS_DRIVER_EXIT (name : string) (exit_fn : pointer)
| DOOM_OS_DRIVER_REQUIRES_DRIVER (name dependency : string)
| DOOM_OS_DRIVER_REQUIRES_CAPABILITY (name capability : string)
| DOOM_OS_DRIVER_PROVIDES (name capability api_object : string).

Definition DOOM_OS_DRIVER_ENTRY : string -> pointer -> declaration := DOOM_OS_DRIVER_INIT.

Definition DOOM_OS_DRIVER_DEPENDS_ON : string -> string -> declaration :=
  DOOM_OS_DRIVER_REQUIRES_DRIVER.

(** The driver a declaration is about. *)
Definition subject (d : declaration) : string :=
  match d with
  | DOOM_OS_DRIVER name => name
  | DOOM_OS_DRIVER_INIT name _ => name
  | DOOM_OS_DRIVER_EXIT name _ => name
  | DOOM_OS_DRIVER_REQUIRES_DRIVER name _ => name
  | DOOM_OS_DRIVER_REQUIRES_CAPABILITY name _ => name
  | DOOM_OS_DRIVER_PROVIDES name _ _ => name
  end.

(** The variable [doom_os_driver_id_<name>] is defined once in a unit, and before its uses. *)
Fixpoint compiles_from (scope : list string) (ds : list declaration) : bool :=
  match ds with
  | [] => true
  | DOOM_OS_DRIVER name :: ds =>
      bool_decide (name ∉ scope) && compiles_from (name :: scope) ds
  | d :: ds => bool_decide (subject d ∈ scope) && compiles_from scope ds
  end.

Definition compiles (ds : list declaration) : bool := compiles_from [] ds.

(** Every record takes a value of [__COUNTER__] for its name; a driver's identity does not. *)
Fixpoint numbered (counter : Z) (ds : list declaration) : list (Z * declaration) :=
  match ds with
  | [] => []
  | DOOM_OS_DRIVER name :: ds => (counter, DOOM_OS_DRIVER name) :: numbered counter ds
  | d :: ds => (counter, d) :: numbered (counter + 1) ds
  end.

(** An invocation of a macro: its unit, the value of the counter and the declaration. *)
Definition site : Type := nat * (Z * declaration).

Definition declares (s : site) : declaration := s.2.2.

Definition sites (units : list (list declaration)) : list site :=
  concat (imap (fun u ds => pair u <$> numbered 0 ds) units).

(** What the compiler and the linker choose, and what the drivers name. *)
Class toolchain : Type := {
  id_address : nat -> string -> pointer;
  resolver_address : nat -> Z -> pointer;
  object_address : nat -> string -> pointer;
  key_address : string -> pointer;
  capability_type : string -> capability_definition;
  arrange : forall {T : Type}, list T -> list T;
}.

Section Image.
Context `{toolchain}.

(** The static objects of an invocation. *)
Definition driver_id_of (s : site) : option (pointer * driver_id) :=
  match s with
  | (u, (_, DOOM_OS_DRIVER name)) => Some (id_address u name, {| driver_name := Some name |})
  | _ => None
  end.

Definition init_record_of (s : site) : option init_record :=
  match s with
  | (u, (_, DOOM_OS_DRIVER_INIT name init_fn)) =>
      Some {| init_driver := id_address u name; init_entry := init_fn |}
  | _ => None
  end.

Definition exit_record_of (s : site) : option exit_record :=
  match s with
  | (u, (_, DOOM_OS_DRIVER_EXIT name exit_fn)) =>
      Some {| exit_driver := id_address u name; exit_entry := exit_fn |}
  | _ => None
  end.

Definition require_driver_record_of (s : site) : option require_driver_record :=
  match s with
  | (u, (_, DOOM_OS_DRIVER_REQUIRES_DRIVER name dependency)) =>
      Some {| require_driver := id_address u name; dependency_name := Some dependency |}
  | _ => None
  end.

Definition require_capability_record_of (s : site) : option require_capability_record :=
  match s with
  | (u, (_, DOOM_OS_DRIVER_REQUIRES_CAPABILITY name capability)) =>
      Some {| requiring_driver := id_address u name; required_capability := key_address capability |}
  | _ => None
  end.

Definition provide_record_of (s : site) : option provide_record :=
  match s with
  | (u, (counter, DOOM_OS_DRIVER_PROVIDES name capability _)) =>
      Some {| provide_driver := id_address u name; provide_capability := key_address capability;
              provide_resolve := resolver_address u counter |}
  | _ => None
  end.

(** The resolver of an invocation and what it returns. *)
Definition resolver_of (s : site) : option (pointer * pointer) :=
  match s with
  | (u, (counter, DOOM_OS_DRIVER_PROVIDES _ _ api_object)) =>
      Some (resolver_address u counter, object_address u api_object)
  | _ => None
  end.

(** The keys that an invocation refers to. *)
Definition key_entry_of (s : site) : option (pointer * capability_key) :=
  match declares s with
  | DOOM_OS_DRIVER_REQUIRES_CAPABILITY _ c | DOOM_OS_DRIVER_PROVIDES _ c _ =>
      Some (key_address c, capability_key_for (capability_type c))
  | _ => None
  end.

(** The object at an address. *)
Definition at_address {A} (objects : list (pointer * A)) (default : A) (p : pointer) : A :=
  match find (fun o => o.1 =? p) objects with
  | Some o => o.2
  | None => default
  end.

(** A section without elements leaves the weak symbols that bound it null. *)
Definition place {T} (items : list T) : section_range T :=
  match arrange items with
  | [] => None
  | placed => Some placed
  end.

Definition image (units : list (list declaration)) : registry :=
  let all := sites units in {|
  driver_at := at_address (omap driver_id_of all) {| driver_name := None |};
  key_at := at_address (omap key_entry_of all) {| key_name := None; multiplicity := SINGLE |};
  driver_ids := place (omap (fun s => fst <$> driver_id_of s) all);
  driver_init := place (omap init_record_of all);
  driver_exit := place (omap exit_record_of all);
  driver_provides := place (omap provide_record_of all);
  driver_requires_driver := place (omap require_driver_record_of all);
  driver_requires_capability := place (omap require_capability_record_of all);
|}.
End Image.

(** The entry and exit functions of the drivers. *)
Class driver_bodies (W : Type) : Type := {
  run_init : pointer -> lifecycle_state -> kernel W init_result;
  run_exit : pointer -> lifecycle_state -> kernel W unit;
}.

Definition image_code {W} `{toolchain} `{driver_bodies W} (units : list (list declaration)) :
    driver_code W := {|
  call_init := run_init;
  call_exit := run_exit;
  call_resolve p _ := mret (at_address (omap resolver_of (sites units)) nullptr p);
|}.
