(* ===== verification/DriverModuleFacts.v ===== *)
(** * DriverModuleFacts: what the declarations of [DriverModule.v] mean

    The registry of a linked image is valid exactly when its drivers are well declared, whatever
    the order in which the linker placed the records; [init_all] then starts the declared drivers
    in the order their declarations ask for. *)

From stdpp Require Import relations.
From S2P Require Import Prelude Registry Lifecycle LifecycleFacts DriverModule.

(** ** What the toolchain guarantees *)
Class toolchain_ok `{toolchain} : Prop := {
  id_present u name : id_address u name <> nullptr;
  id_distinct u name u' name' : id_address u name = id_address u' name' -> u = u' /\ name = name';
  resolver_present u c : resolver_address u c <> nullptr;
  resolver_distinct u c u' c' : resolver_address u c = resolver_address u' c' -> u = u' /\ c = c';
  object_present u o : object_address u o <> nullptr;
  key_present c : key_address c <> nullptr;
  key_distinct c c' : key_address c = key_address c' -> c = c';
  arranged {T} (l : list T) : arrange l ≡ₚ l;
}.

(** ** Objects and their addresses *)
Lemma at_address_in {A} (objects : list (pointer * A)) default p a :
  (p, a) ∈ objects -> (forall a', (p, a') ∈ objects -> a' = a) -> at_address objects default p = a.
Proof.
  unfold at_address. intros Hin Hone. destruct (find (fun o => o.1 =? p) objects) as [[q b]|] eqn:Hf.
  - apply find_some in Hf as [Hq Heq]. apply Z.eqb_eq in Heq as <-. apply Hone. by apply list_elem_of_In.
  - eapply find_none in Hf; [|by apply list_elem_of_In]. cbn in Hf. by rewrite Z.eqb_refl in Hf.
Qed.

(** ** Lists *)
Lemma omap_fmap_out {A B C} (g : A -> option B) (f : B -> C) (l : list A) :
  omap (fun a => f <$> g a) l = f <$> omap g l.
Proof. induction l as [|a l IH]; [done|]. cbn in *. rewrite IH. by destruct (g a). Qed.

Lemma length_filter_fmap {A B} (P : A -> Prop) (Q : B -> Prop) `{!forall a, Decision (P a)}
    `{!forall b, Decision (Q b)} (f : A -> B) (l : list A) :
  (forall a, a ∈ l -> P a <-> Q (f a)) ->
  length (base.filter P l) = length (base.filter Q (f <$> l)).
Proof.
  induction l as [|a l IH]; intros HPQ; [done|]. rewrite fmap_cons, !filter_cons.
  rewrite (decide_ext (P a) (Q (f a))) by (apply HPQ; by left).
  destruct (decide (Q (f a))); cbn [length]; rewrite IH; try done; intros b Hb; apply HPQ; by right.
Qed.

(** ** Invocations and declarations *)
Lemma numbered_declarations counter ds : (numbered counter ds).*2 = ds.
Proof. revert counter. induction ds as [|[] ds IH]; intros counter; cbn; by rewrite ?IH. Qed.

Definition counts (d : declaration) : Prop :=
  match d with DOOM_OS_DRIVER _ => False | _ => True end.

Lemma numbered_from counter ds c d : (c, d) ∈ numbered counter ds -> counter <= c.
Proof.
  revert counter. induction ds as [|e ds IH]; intros counter; [by intros ?%elem_of_nil|].
  destruct e; intros [[= -> ->]|Hin%IH]%elem_of_cons; lia.
Qed.

(** Two records of a unit do not have the same number. *)
Lemma numbered_distinct counter ds c d d' :
  (c, d) ∈ numbered counter ds -> (c, d') ∈ numbered counter ds -> counts d -> counts d' -> d = d'.
Proof.
  intros Hin Hin' Hd Hd'. revert counter Hin Hin'.
  induction ds as [|e ds IH]; intros counter; [by intros ?%elem_of_nil|]. destruct e;
    intros [Heq|Hin]%elem_of_cons [Heq'|Hin']%elem_of_cons; simplify_eq; try done;
    try (by apply (IH _ Hin Hin')); try apply numbered_from in Hin; try apply numbered_from in Hin'; lia.
Qed.

Section Sites.
Context (units : list (list declaration)).

Lemma sites_declarations : declares <$> sites units = concat units.
Proof.
  unfold sites. enough (Hgen : forall g : nat -> nat,
    declares <$> concat (imap (fun u ds => pair (g u) <$> numbered 0 ds) units) = concat units).
  { apply (Hgen id). }
  induction units as [|ds us IH]; intros g; [done|]. rewrite imap_cons. cbn [concat].
  rewrite fmap_app. f_equal.
  - rewrite <- list_fmap_compose. exact (numbered_declarations 0 ds).
  - exact (IH (g ∘ S)).
Qed.

Lemma site_unit u c d :
  (u, (c, d)) ∈ sites units <-> exists ds, units !! u = Some ds /\ (c, d) ∈ numbered 0 ds.
Proof.
  unfold sites. rewrite list_elem_of_In, in_concat. setoid_rewrite <- list_elem_of_In. split.
  - intros (l & Hl & Hin). apply elem_of_lookup_imap in Hl as (u' & ds & -> & Hds).
    apply list_elem_of_fmap in Hin as (x & [= -> ->] & Hx). by exists ds.
  - intros (ds & Hds & Hin). exists (pair u <$> numbered 0 ds). split.
    + apply elem_of_lookup_imap. by exists u, ds.
    + apply list_elem_of_fmap. by exists (c, d).
Qed.

Lemma every_site (P : declaration -> Prop) :
  (forall s, s ∈ sites units -> P (declares s)) <-> (forall d, d ∈ concat units -> P d).
Proof. rewrite <- sites_declarations, <- !Forall_forall. by rewrite Forall_fmap. Qed.

(** The uses of a driver's identity follow its definition. *)
Lemma compiles_scope scope ds d :
  compiles_from scope ds = true -> d ∈ ds ->
  subject d ∈ scope \/ DOOM_OS_DRIVER (subject d) ∈ ds.
Proof.
  revert scope. induction ds as [|e ds IH]; intros scope Hc Hd; [by apply elem_of_nil in Hd|].
  cbn [compiles_from] in Hc. apply elem_of_cons in Hd as [->|Hd].
  - destruct e; cbn [subject]; try (right; by left);
      left; by apply andb_prop in Hc as [Hs%bool_decide_eq_true _].
  - destruct e as [name| | | | |]; apply andb_prop in Hc as [_ Hc];
      (destruct (IH _ Hc Hd) as [Hin|Hin]; [|right; by right]); try by left.
    apply elem_of_cons in Hin as [->|Hin]; [right; by left | by left].
Qed.

Lemma numbered_in counter ds d : d ∈ ds -> exists c, (c, d) ∈ numbered counter ds.
Proof.
  rewrite <- (numbered_declarations counter ds) at 1. intros ([c d'] & -> & Hin)%list_elem_of_fmap.
  by exists c.
Qed.

(** Two records with the same number in the same unit are one. *)
Lemma site_distinct u c d d' :
  (u, (c, d)) ∈ sites units -> (u, (c, d')) ∈ sites units -> counts d -> counts d' -> d = d'.
Proof.
  intros (ds & Hds & Hd)%site_unit (ds' & Hds' & Hd')%site_unit. simplify_eq.
  by eapply numbered_distinct.
Qed.
End Sites.

(** ** Well-declared drivers *)
Definition driver_declared (d : declaration) : option string :=
  match d with DOOM_OS_DRIVER name => Some name | _ => None end.

Definition init_declared (d : declaration) : option (string * pointer) :=
  match d with DOOM_OS_DRIVER_INIT name f => Some (name, f) | _ => None end.

Definition exit_declared (d : declaration) : option (string * pointer) :=
  match d with DOOM_OS_DRIVER_EXIT name f => Some (name, f) | _ => None end.

(** A driver and the name under which it offers a capability. *)
Definition offer_declared `{toolchain} (d : declaration) : option string :=
  match d with
  | DOOM_OS_DRIVER_PROVIDES _ c _ => Some (capability_name (capability_type c))
  | _ => None
  end.

Section Declarations.
Context `{toolchain} (units : list (list declaration)).

Definition declared : list string := omap driver_declared (concat units).

(** How often the capability of a type is offered; types that share a name are one capability. *)
Definition offers (c : string) : Z :=
  zlen (base.filter (fun k => k = capability_name (capability_type c)) (omap offer_declared (concat units))).

Definition offers_ok (c : string) : Prop :=
  capability_multiplicity_of (capability_type c) = SINGLE -> offers c <= 1.

Definition entries_declared (entries : list (string * pointer)) : Prop :=
  NoDup entries.*1 /\ Forall (fun e => e.2 <> nullptr) entries.

(** At most 128 drivers of distinct names, each with at most one entry and one exit function, that
    name drivers and capabilities that some unit declares, no single capability offered twice. *)
Record well_declared : Prop := {
  declared_few : zlen declared <= MAX_DRIVERS;
  declared_distinct : NoDup declared;
  declared_init : entries_declared (omap init_declared (concat units));
  declared_exit : entries_declared (omap exit_declared (concat units));
  declared_dependency x y : DOOM_OS_DRIVER_REQUIRES_DRIVER x y ∈ concat units -> y ∈ declared;
  declared_requirement x c :
    DOOM_OS_DRIVER_REQUIRES_CAPABILITY x c ∈ concat units -> 0 < offers c /\ offers_ok c;
  declared_offer x c o : DOOM_OS_DRIVER_PROVIDES x c o ∈ concat units -> offers_ok c;
}.

(** [x] asks for [y]: by name, or for a capability that [y] offers. *)
Definition needs (x y : string) : Prop :=
  DOOM_OS_DRIVER_REQUIRES_DRIVER x y ∈ concat units \/
  exists c c' o, DOOM_OS_DRIVER_REQUIRES_CAPABILITY x c ∈ concat units /\
    DOOM_OS_DRIVER_PROVIDES y c' o ∈ concat units /\
    capability_name (capability_type c') = capability_name (capability_type c).
End Declarations.

(** ** The linked image *)
Section Linked.
Context `{toolchain_ok} (units : list (list declaration)).
Context (compiled : Forall (fun ds => compiles ds = true) units).

Local Instance linked : registry := image units.
Arguments linked : simpl never.

Lemma placed {T} (l : list T) : section_items (place l) ≡ₚ l.
Proof. unfold place. rewrite <- (arranged l) at 2. by destruct (arrange l). Qed.

Lemma forall_placed {R} (rec : site -> option R) (P : R -> Prop) :
  Forall P (section_items (place (omap rec (sites units)))) <->
  (forall s r, s ∈ sites units -> rec s = Some r -> P r).
Proof.
  rewrite placed, Forall_forall. setoid_rewrite list_elem_of_omap. split.
  - intros HP s r Hs Hr. apply HP. by exists s.
  - intros HP r (s & Hs & Hr). by eapply HP.
Qed.

(** The records of a section, seen as what was declared. *)
Lemma omap_sites {R X} (rec : site -> option R) (f : R -> X) (g : declaration -> option X) :
  (forall s, s ∈ sites units -> f <$> rec s = g (declares s)) ->
  f <$> section_items (place (omap rec (sites units))) ≡ₚ omap g (concat units).
Proof.
  rewrite placed, <- sites_declarations. generalize (sites units). intros l Hl.
  enough (f <$> omap rec l = omap g (declares <$> l)) as -> by done.
  induction l as [|s l IH]; [done|]. cbn. rewrite <- (Hl s) by by left.
  assert (Htail : f <$> omap rec l = omap g (declares <$> l)) by (apply IH; intros; apply Hl; by right).
  cbn in Htail. destruct (rec s); cbn; by rewrite Htail.
Qed.

(** ** What the addresses hold *)
Lemma driver_named u c name : (u, (c, DOOM_OS_DRIVER name)) ∈ sites units ->
  dname (id_address u name) = Some name.
Proof.
  intros Hin. unfold dname, driver_at, linked, image. rewrite (at_address_in _ _ _ {| driver_name := Some name |}).
  - done.
  - apply list_elem_of_omap. by exists (u, (c, DOOM_OS_DRIVER name)).
  - intros a ([u' [c' []]] & _ & [= Ha <-])%list_elem_of_omap. by apply id_distinct in Ha as [_ ->].
Qed.

Lemma subject_declared s : s ∈ sites units ->
  exists c, (s.1, (c, DOOM_OS_DRIVER (subject (declares s)))) ∈ sites units.
Proof.
  destruct s as [u [c d]]. intros (ds & Hds & Hd)%site_unit. cbn.
  rewrite Forall_lookup in compiled. pose proof (compiled u ds Hds) as Hc.
  assert (Hin : d ∈ ds).
  { rewrite <- (numbered_declarations 0 ds). apply list_elem_of_fmap. by exists (c, d). }
  destruct (compiles_scope [] ds d Hc Hin) as [Hno|Hdrv]; [by apply elem_of_nil in Hno|].
  destruct (numbered_in 0 ds _ Hdrv) as [c' Hc']. exists c'. apply site_unit. by exists ds.
Qed.

Lemma subject_named s : s ∈ sites units ->
  dname (id_address s.1 (subject (declares s))) = Some (subject (declares s)).
Proof. intros [c Hc]%subject_declared. by eapply driver_named. Qed.

Lemma key_named s c k : s ∈ sites units -> key_entry_of s = Some (key_address c, k) ->
  key_at (key_address c) = capability_key_for (capability_type c).
Proof.
  intros Hs Hk. unfold key_at, linked, image.
  assert (Hkey : forall s k, key_entry_of s = Some (key_address c, k) -> k = capability_key_for (capability_type c)).
  { intros s' k'. unfold key_entry_of. destruct (declares s'); intros [= Hc <-]; by apply key_distinct in Hc as ->. }
  apply at_address_in.
  - apply list_elem_of_omap. exists s. split; [done|]. by rewrite <- (Hkey s k).
  - intros k' (s' & _ & Hk')%list_elem_of_omap. by eapply Hkey.
Qed.

Lemma resolver_answers u c x k o default : (u, (c, DOOM_OS_DRIVER_PROVIDES x k o)) ∈ sites units ->
  at_address (omap resolver_of (sites units)) default (resolver_address u c) = object_address u o.
Proof.
  intros Hs. apply at_address_in.
  - apply list_elem_of_omap. by exists (u, (c, DOOM_OS_DRIVER_PROVIDES x k o)).
  - intros a ([u' [c' d]] & Hs' & Ha)%list_elem_of_omap. destruct d as [| | | | |x' k' o']; try discriminate Ha.
    injection Ha as Ha <-. apply resolver_distinct in Ha as [-> ->].
    by pose proof (site_distinct _ _ _ _ _ Hs Hs' I I) as [= _ _ ->].
Qed.

(** ** Names and records *)
Lemma names_declared : names ≡ₚ Some <$> declared units.
Proof.
  unfold declared. rewrite <- omap_fmap_out.
  apply (omap_sites (fun s => fst <$> driver_id_of s) dname). intros [u [c []]] Hs; try done.
  cbn. by rewrite (driver_named u c).
Qed.

Lemma declared_in x : x ∈ declared units <-> DOOM_OS_DRIVER x ∈ concat units.
Proof.
  unfold declared. rewrite list_elem_of_omap. split.
  - intros ([] & Hd & Hx); try discriminate Hx. by injection Hx as ->.
  - intros Hx. by exists (DOOM_OS_DRIVER x).
Qed.

Lemma name_in_names x : Some x ∈ names <-> x ∈ declared units.
Proof. rewrite names_declared. apply list_elem_of_fmap_inj. apply _. Qed.

Lemma subject_known s : s ∈ sites units ->
  subject (declares s) ∈ declared units /\ dname (id_address s.1 (subject (declares s))) ∈ names.
Proof.
  intros Hs. assert (Hd : subject (declares s) ∈ declared units).
  { destruct (subject_declared s Hs) as [c Hc]. apply declared_in.
    rewrite <- sites_declarations. apply list_elem_of_fmap. by exists (s.1, (c, DOOM_OS_DRIVER (subject (declares s)))).  }
  split; [done|]. by rewrite subject_named, name_in_names.
Qed.

Lemma entries_linked {R} (rec : site -> option R) (drv entry : R -> pointer)
    (decl : declaration -> option (string * pointer)) :
  (forall s, match rec s with
    | Some r => drv r = id_address s.1 (subject (declares s)) /\
        decl (declares s) = Some (subject (declares s), entry r)
    | None => decl (declares s) = None
    end) ->
  entries_ok drv entry (section_items (place (omap rec (sites units)))) <->
  entries_declared (omap decl (concat units)).
Proof.
  intros Hrec. assert (Hperm : (fun r => (dname (drv r), entry r)) <$> section_items (place (omap rec (sites units)))
    ≡ₚ prod_map Some id <$> omap decl (concat units)).
  { rewrite <- omap_fmap_out. apply omap_sites. intros s Hs. specialize (Hrec s).
    destruct (rec s) as [r|]; [destruct Hrec as [Hdrv ->] | by rewrite Hrec].
    cbn. by rewrite Hdrv, subject_named. }
  assert (Hnames : NoDup ((fun r => dname (drv r)) <$> section_items (place (omap rec (sites units)))) <->
    NoDup (omap decl (concat units)).*1).
  { rewrite <- (NoDup_fmap Some (omap decl (concat units)).*1), <- list_fmap_compose. apply (fmap_Permutation fst) in Hperm.
    rewrite <- !list_fmap_compose in Hperm. exact (NoDup_Permutation_proper _ _ Hperm). }
  assert (Hentries : Forall (fun r => entry r <> nullptr) (section_items (place (omap rec (sites units)))) <->
    Forall (fun e => e.2 <> nullptr) (omap decl (concat units))).
  { apply (fmap_Permutation snd) in Hperm. rewrite <- !list_fmap_compose in Hperm.
    rewrite <- (Forall_fmap entry (fun p => p <> nullptr)), <- (Forall_fmap snd (fun p => p <> nullptr)).
    exact (Forall_Permutation _ _ (fun _ => iff_refl _) _ _ Hperm). }
  unfold entries_ok, entries_declared. rewrite <- Hnames, <- Hentries, !forall_placed.
  split.
  - intros [Hall Hnd]. split; [done|]. intros s r Hs Hr. by apply (Hall s r).
  - intros [Hnd Hall]. split; [|done]. intros s r Hs Hr. specialize (Hrec s). rewrite Hr in Hrec.
    destruct Hrec as [-> _]. split; [apply id_present|].
    split; [by eapply Hall | by apply subject_known].
Qed.

(** ** Capabilities *)
Lemma provided_key s r : s ∈ sites units -> provide_record_of s = Some r ->
  exists c, offer_declared (declares s) = Some (capability_name (capability_type c)) /\
    provide_capability r = key_address c /\
    key_at (provide_capability r) = capability_key_for (capability_type c).
Proof.
  intros Hs Hr. destruct s as [u [n []]]; try discriminate Hr. injection Hr as <-.
  eexists. split; [done|]. split; [done|]. by eapply key_named.
Qed.

Lemma provider_count_offers c :
  provider_record_count (capability_key_for (capability_type c)) = offers units c.
Proof.
  assert (Hperm : (fun r => key_name (key_at (provide_capability r))) <$> provide_records ≡ₚ
    Some <$> omap offer_declared (concat units)).
  { rewrite <- omap_fmap_out. apply omap_sites. intros s Hs.
    destruct (provide_record_of s) as [r|] eqn:Hr.
    - destruct (provided_key s r Hs Hr) as (c' & -> & _ & Hkey). cbn. by rewrite Hkey.
    - by destruct s as [u [n []]]. }
  rewrite provider_count_eq. unfold offers, zlen. f_equal.
  rewrite (length_filter_fmap _ (fun k => k = Some (capability_name (capability_type c)))
    (fun r => key_name (key_at (provide_capability r)))).
  - rewrite Hperm. symmetry. apply length_filter_fmap. naive_solver.
  - apply Forall_forall, (forall_placed provide_record_of).
    intros s r Hs Hr. destruct (provided_key s r Hs Hr) as (c' & _ & Haddr & Hkey).
    unfold provides, same_capability. rewrite string_equal_spec, Hkey, Haddr.
    rewrite (proj2 (Z.eqb_neq _ _) (key_present c')). cbn. by rewrite bool_decide_eq_true.
Qed.

Lemma provider_count_linked c :
  provider_count_ok (capability_key_for (capability_type c)) <-> offers_ok units c.
Proof. unfold provider_count_ok. by rewrite provider_count_offers. Qed.

Lemma forall_sites {R} (rec : site -> option R) (P : R -> Prop) (Q : declaration -> Prop) :
  (forall s, s ∈ sites units -> match rec s with Some r => P r | None => True end <-> Q (declares s)) ->
  Forall P (section_items (place (omap rec (sites units)))) <-> (forall d, d ∈ concat units -> Q d).
Proof.
  intros Hrec. rewrite forall_placed, <- every_site. split.
  - intros HP s Hs. apply Hrec; [done|]. destruct (rec s) as [r|] eqn:Hr; [by eapply HP | done].
  - intros HQ s r Hs Hr. specialize (HQ s Hs). rewrite <- Hrec, Hr in HQ by done. done.
Qed.

(** ** The registry of a linked image *)
Lemma linked_provides : Forall provide_ok provide_records <->
  forall d, d ∈ concat units ->
    match d with DOOM_OS_DRIVER_PROVIDES _ c _ => offers_ok units c | _ => True end.
Proof.
  apply (forall_sites provide_record_of). intros [u [n []]] Hs; try done. cbn.
  rewrite <- provider_count_linked. unfold provide_ok, named_key. cbn.
  rewrite (key_named _ capability _ Hs eq_refl).
  pose proof (subject_known _ Hs) as [_ Hname]. cbn in Hname. split; [tauto|].
  pose proof (id_present u name). pose proof (key_present capability). pose proof (resolver_present u n).
  repeat split; done.
Qed.

Lemma linked_requires_driver : Forall require_driver_ok require_driver_records <->
  forall d, d ∈ concat units ->
    match d with DOOM_OS_DRIVER_REQUIRES_DRIVER _ y => y ∈ declared units | _ => True end.
Proof.
  apply (forall_sites require_driver_record_of). intros [u [n []]] Hs; try done. cbn.
  rewrite <- name_in_names. unfold require_driver_ok. cbn.
  pose proof (subject_known _ Hs) as [_ Hname]. cbn in Hname. pose proof (id_present u name).
  split; [tauto|]. intros ?. repeat split; done.
Qed.

Lemma linked_requires_capability : Forall require_capability_ok require_capability_records <->
  forall d, d ∈ concat units ->
    match d with
    | DOOM_OS_DRIVER_REQUIRES_CAPABILITY _ c => 0 < offers units c /\ offers_ok units c
    | _ => True
    end.
Proof.
  apply (forall_sites require_capability_record_of). intros [u [n []]] Hs; try done. cbn.
  rewrite <- provider_count_linked. unfold require_capability_ok, named_key. cbn.
  rewrite (key_named _ capability _ Hs eq_refl), provider_count_offers.
  pose proof (subject_known _ Hs) as [_ Hname]. cbn in Hname.
  pose proof (id_present u name). pose proof (key_present capability). cbn.
  split; [tauto|]. intros []. repeat split; done.
Qed.

Lemma linked_valid : valid_registry <-> well_declared units.
Proof.
  pose proof (entries_linked init_record_of init_driver init_entry init_declared) as Hinit.
  premise Hinit; [by intros [u [n []]]|].
  pose proof (entries_linked exit_record_of exit_driver exit_entry exit_declared) as Hexit.
  premise Hexit; [by intros [u [n []]]|].
  pose proof linked_provides as Hprovides. pose proof linked_requires_driver as Hdrivers.
  pose proof linked_requires_capability as Hcapabilities.
  assert (Hlen : zlen drivers = zlen (declared units)).
  { pose proof (Permutation_length names_declared) as Hp. unfold names in Hp.
    rewrite !length_fmap in Hp. unfold zlen. by rewrite Hp. }
  assert (Hdistinct : NoDup names <-> NoDup (declared units)).
  { rewrite <- (NoDup_fmap Some (declared units)). exact (NoDup_Permutation_proper _ _ names_declared). }
  assert (Hnamed : Forall (fun d => dname d <> None) drivers).
  { apply (Forall_fmap dname (fun o => o <> None)). change (dname <$> drivers) with names.
    rewrite names_declared. by apply Forall_fmap, Forall_true. }
  split.
  - intros [Hcap _ Hnd Hi He Hp Hd Hc]. split.
    + by rewrite <- Hlen.
    + by apply Hdistinct.
    + by apply Hinit.
    + by apply Hexit.
    + intros x y Hin. by apply (proj1 Hdrivers Hd _ Hin).
    + intros x c Hin. by apply (proj1 Hcapabilities Hc _ Hin).
    + intros x c o Hin. by apply (proj1 Hprovides Hp _ Hin).
  - intros [Hcap Hnd Hi He Hd Hc Hp]. split; try done.
    + by rewrite Hlen.
    + by apply Hdistinct.
    + by apply Hinit.
    + by apply Hexit.
    + apply Hprovides. intros [] Hin; try done. by eapply Hp.
    + apply Hdrivers. intros [] Hin; try done. by eapply Hd.
    + apply Hcapabilities. intros [] Hin; try done. by eapply Hc.
Qed.

#[local] Instance linked_ok : registry_ok.
Proof.
  split. apply (forall_placed (fun s => fst <$> driver_id_of s)).
  intros [u [n []]] d _ Hd; try discriminate Hd. injection Hd as <-. apply id_present.
Qed.

(** ** Dependencies *)
Lemma in_section {R} (rec : site -> option R) r :
  r ∈ section_items (place (omap rec (sites units))) <-> exists s, s ∈ sites units /\ rec s = Some r.
Proof. by rewrite placed, list_elem_of_omap. Qed.

Lemma site_declared s : s ∈ sites units -> declares s ∈ concat units.
Proof. intros Hs. rewrite <- sites_declarations. apply list_elem_of_fmap. by exists s. Qed.

Lemma declared_site d : d ∈ concat units -> exists s, s ∈ sites units /\ declares s = d.
Proof. rewrite <- sites_declarations. intros (s & -> & Hs)%list_elem_of_fmap. by exists s. Qed.

Lemma depends_needs i j : depends i j -> exists x y, dn i = Some x /\ dn j = Some y /\ needs units x y.
Proof.
  intros (Hi & Hj & [(r & Hr & Hx & Hy)|(r & p & Hr & Hp & Hx & Hk & Hy)]).
  - apply (in_section require_driver_record_of) in Hr as ([u [n []]] & Hs & Hr); try discriminate Hr.
    injection Hr as <-. cbn in Hx, Hy. exists name, dependency. rewrite <- Hx, <- Hy.
    split; [exact (subject_named _ Hs)|]. split; [done|]. left. exact (site_declared _ Hs).
  - apply (in_section require_capability_record_of) in Hr as ([u [n []]] & Hs & Hr); try discriminate Hr.
    apply (in_section provide_record_of) in Hp as ([u' [n' []]] & Hs' & Hp); try discriminate Hp.
    injection Hr as <-. injection Hp as <-. cbn in Hx, Hy, Hk. exists name, name0. rewrite <- Hx, <- Hy.
    split; [exact (subject_named _ Hs)|]. split; [exact (subject_named _ Hs')|]. right.
    exists capability, capability0, api_object.
    split; [exact (site_declared _ Hs)|]. split; [exact (site_declared _ Hs')|].
    apply andb_prop in Hk as [_ Hk]. cbn in Hk. unfold same_capability in Hk.
    rewrite string_equal_spec, (key_named _ capability _ Hs eq_refl), (key_named _ capability0 _ Hs' eq_refl) in Hk.
    apply bool_decide_eq_true in Hk. by injection Hk.
Qed.

Lemma needs_depends i j x y :
  0 <= i < zlen drivers -> 0 <= j < zlen drivers -> dn i = Some x -> dn j = Some y ->
  needs units x y -> depends i j.
Proof.
  intros Hi Hj Hx Hy Hneeds. split; [done|]. split; [done|].
  destruct Hneeds as [Hd|(c & c' & o & Hc & Ho & Hname)].
  - left. destruct (declared_site _ Hd) as ([u [n d]] & Hs & Hdecl). cbn in Hdecl. subst d.
    exists {| require_driver := id_address u x; dependency_name := Some y |}. split.
    + apply (in_section require_driver_record_of). by eexists.
    + cbn. split; [rewrite Hx; exact (subject_named _ Hs) | done].
  - right. destruct (declared_site _ Hc) as ([u [n d]] & Hs & Hdecl). cbn in Hdecl. subst d.
    destruct (declared_site _ Ho) as ([u' [n' d]] & Hs' & Hdecl). cbn in Hdecl. subst d.
    eexists _, _. split; [|split; [|split; [|split]]].
    + apply (in_section require_capability_record_of). eexists. split; [exact Hs | done].
    + apply (in_section provide_record_of). eexists. split; [exact Hs' | done].
    + rewrite Hx. exact (subject_named _ Hs).
    + unfold provides, same_capability. cbn [provide_capability required_capability].
      rewrite (key_named _ c _ Hs eq_refl), (key_named _ c' _ Hs' eq_refl), string_equal_spec.
      rewrite (proj2 (Z.eqb_neq _ _) (key_present c')). cbn. apply bool_decide_eq_true. by rewrite Hname.
    + rewrite Hy. exact (subject_named _ Hs').
Qed.

Lemma cycle_declared i : tc depends i i -> exists x, tc (needs units) x x.
Proof.
  intros Hcycle. enough (Hgen : forall j k, tc depends j k ->
    exists x y, dn j = Some x /\ dn k = Some y /\ tc (needs units) x y).
  { destruct (Hgen i i Hcycle) as (x & y & Hx & Hy & Htc). exists x. congruence. }
  intros j k. induction 1 as [j k Hjk|j l k Hjl _ (x' & y & Hx' & Hy & Htc)].
  - destruct (depends_needs j k Hjk) as (x & y & ? & ? & ?). exists x, y. by repeat split; [..|apply tc_once].
  - destruct (depends_needs j l Hjl) as (x & z & Hx & Hz & ?). exists x, y. split; [done|]. split; [done|].
    assert (z = x') as -> by congruence. by eapply tc_l.
Qed.

Lemma init_of_declared i x : dn i = Some x -> init_of i <> nullptr ->
  DOOM_OS_DRIVER_INIT x (init_of i) ∈ concat units.
Proof.
  intros Hx Hi. assert (Hrec : forall (l : list init_record) p, entry_of init_driver init_entry l (Some x) = p ->
    p <> nullptr -> exists r, r ∈ l /\ dname (init_driver r) = Some x /\ init_entry r = p).
  { induction l as [|r l IH]; cbn; [congruence|]. intros p. case_bool_decide as Hr; intros Hp Hnull.
    - exists r. split; [by left | done].
    - destruct (IH p Hp Hnull) as (r' & ? & ?). exists r'. split; [by right | done]. }
  unfold init_of in *. rewrite Hx in *.
  destruct (Hrec init_records _ eq_refl Hi) as (r & Hr & Hname & Hentry).
  apply (in_section init_record_of) in Hr as ([u [n []]] & Hs & Hr); try discriminate Hr.
  injection Hr as <-. pose proof (subject_named _ Hs) as Hn. cbn in Hname, Hentry, Hn.
  assert (name = x) as -> by congruence. rewrite <- Hentry. exact (site_declared _ Hs).
Qed.

Lemma init_of_undeclared i x f : valid_registry -> dn i = Some x -> init_of i = nullptr ->
  DOOM_OS_DRIVER_INIT x f ∉ concat units.
Proof.
  intros Hv Hx Hi Hf. destruct (valid_init Hv) as [Hall _].
  unfold init_of in Hi. apply entry_of_none in Hi.
  2:{ eapply Forall_impl; [exact Hall|]. by intros r (_ & ? & _). }
  apply Hi. destruct (declared_site _ Hf) as ([u [n d]] & Hs & Hdecl). cbn in Hdecl. subst d.
  apply list_elem_of_fmap. eexists. split; [|apply (in_section init_record_of); eexists; split; [exact Hs | done]].
  cbn. rewrite Hx. symmetry. exact (subject_named _ Hs).
Qed.

(** ** Orders of drivers *)

(** A list of names lists a driver after those it needs. *)
Definition needed_first (order : list string) : Prop :=
  forall pre x post, order = pre ++ x :: post -> forall y, needs units x y -> y ∈ pre.

Lemma named_driver i : 0 <= i < zlen drivers -> exists x, dn i = Some x /\ x ∈ declared units.
Proof.
  intros Hi. assert (Hin : dn i ∈ names) by (apply names_index; by exists i).
  pose proof Hin as Hx. rewrite names_declared in Hx. apply list_elem_of_fmap in Hx as (x & Hx & Hd).
  by exists x.
Qed.

Lemma declared_index x : x ∈ declared units <-> exists i, 0 <= i < zlen drivers /\ dn i = Some x.
Proof. rewrite <- name_in_names. apply names_index. Qed.

Lemma needs_declared x y : well_declared units -> needs units x y -> y ∈ declared units.
Proof.
  intros Hwell [Hd|(c & c' & o & _ & Ho & _)]; [by eapply declared_dependency|].
  destruct (declared_site _ Ho) as (s & Hs & Hdecl).
  destruct (subject_known s Hs) as [Hin _]. by rewrite Hdecl in Hin.
Qed.

Lemma order_names L : Forall (fun i => 0 <= i < zlen drivers) L ->
  exists order, Some <$> order = dn <$> L /\ Forall (fun x => x ∈ declared units) order.
Proof.
  induction 1 as [|i L Hi HL (order & Hord & Hall)]; [by exists []|].
  destruct (named_driver i Hi) as (x & Hx & Hd). exists (x :: order). cbn. rewrite Hx, Hord.
  split; [done | by constructor].
Qed.

Lemma order_needed L order :
  well_declared units -> Forall (fun i => 0 <= i < zlen drivers) L -> Some <$> order = dn <$> L ->
  dependencies_first L -> needed_first order.
Proof.
  intros Hwell HL Hord Hfirst pre x post -> y Hneeds. rewrite fmap_app, fmap_cons in Hord.
  symmetry in Hord. apply fmap_app_inv in Hord as (preL & restL & Hpre & Hrest & ->).
  symmetry in Hrest. apply fmap_cons_inv in Hrest as (i & postL & Hx & Hpost & ->).
  assert (Hi : 0 <= i < zlen drivers).
  { rewrite Forall_forall in HL. apply HL, elem_of_app. right. by left. }
  destruct (proj1 (declared_index y) (needs_declared x y Hwell Hneeds)) as (j & Hj & Hy).
  assert (Hin : j ∈ preL) by (by eapply Hfirst; [|eapply needs_depends]).
  apply (list_elem_of_fmap_2 dn) in Hin. rewrite Hy, <- Hpre in Hin.
  by apply list_elem_of_fmap_inj in Hin; [|apply _].
Qed.

Lemma order_distinct L order :
  well_declared units -> Forall (fun i => 0 <= i < zlen drivers) L -> NoDup L ->
  Some <$> order = dn <$> L -> NoDup order.
Proof.
  intros Hwell HL Hnd Hord. apply (NoDup_fmap Some). rewrite Hord. apply NoDup_fmap_2_strong; [|done].
  intros i j Hi Hj. rewrite Forall_forall in HL. apply names_injective; [|by apply HL..].
  by apply valid_distinct, linked_valid.
Qed.

Lemma order_complete L order :
  well_declared units -> NoDup order -> Forall (fun x => x ∈ declared units) order ->
  Some <$> order = dn <$> L -> (forall i, 0 <= i < zlen drivers -> i ∈ L) -> order ≡ₚ declared units.
Proof.
  intros Hwell Hnd Hall Hord HL. apply NoDup_Permutation; [done | by apply declared_distinct|].
  intros x. split; [by rewrite Forall_forall in Hall; apply Hall|].
  intros (i & Hi & Hx)%declared_index. pose proof (list_elem_of_fmap_2 dn L i (HL i Hi)) as Hin.
  rewrite Hx, <- Hord in Hin. by apply list_elem_of_fmap_inj in Hin; [|apply _].
Qed.
End Linked.

(** ** Running the image *)

(** Functions of drivers that return. *)
Class bodies_return {W} `{driver_bodies W} : Prop := {
  run_init_returns p s w : exists r w', run_init p s w = Ret (r, w');
  run_exit_returns p s w : exists w', run_exit p s w = Ret (tt, w');
}.

Section Running.
Context {W : Type} `{toolchain_ok} `{bodies : driver_bodies W} `{!bodies_return}.
Context (units : list (list declaration)).
Implicit Types m : lifecycle W.

Local Instance running : registry := linked units.
Local Instance running_ok : registry_ok := linked_ok units.
Local Instance running_code : driver_code W := image_code units.

#[local] Instance running_returns : code_returns.
Proof. split; [apply run_init_returns | apply run_exit_returns | by repeat eexists]. Qed.

(** The start of the driver [x]: its declared entry function, if it has one, accepted. *)
Definition entered (x : string) (w w' : W) : Prop :=
  (exists f s, DOOM_OS_DRIVER_INIT x f ∈ concat units /\ run_init f s w = Ret (Ok tt, w')) \/
  (forall f, DOOM_OS_DRIVER_INIT x f ∉ concat units) /\ w' = w.

(** The drivers of a list were started in that order. *)
Inductive all_entered : list string -> W -> W -> Prop :=
| entered_none w : all_entered [] w w
| entered_snoc order x w w1 w2 : all_entered order w w1 -> entered x w1 w2 ->
    all_entered (order ++ [x]) w w2.

(** Why the start of well-declared drivers fails after those of [order], and what the attempt did: a
    resolver never answers null. *)
Inductive start_failure (order : list string) (used : Z) : error -> W -> W -> Prop :=
| failure_cycle x w : tc (needs units) x x -> start_failure order used DEPENDENCY_CYCLE w w
| failure_refused e x f s w w' : x ∉ order -> (forall y, needs units x y -> y ∈ order) ->
    DOOM_OS_DRIVER_INIT x f ∈ concat units -> run_init f s w = Ret (Err e, w') ->
    start_failure order used e w w'
| failure_full x c o w w' : x ∉ order -> DOOM_OS_DRIVER_PROVIDES x c o ∈ concat units ->
    entered x w w' -> used = MAX_REGISTERED_CAPABILITIES ->
    start_failure order used CAPACITY_EXCEEDED w w'.

Context (compiled : Forall (fun ds => compiles ds = true) units).

(** Resolvers only answer. *)
Lemma resolves_nothing L rs w w' : resolves L rs w w' -> w' = w.
Proof. induction 1 as [|rs r w w1 w2 s api _ -> _ Hcall _]; [done|]. cbn in Hcall. by injection Hcall. Qed.

Lemma enters_entered L i x w w' :
  valid_registry -> dn i = Some x -> enters L i w w' -> entered x w w'.
Proof.
  intros Hv Hx [[Hnull ->]|(Hentry & s & _ & Hcall)].
  - right. split; [|done]. intros f. by eapply init_of_undeclared.
  - left. exists (init_of i), s. split; [by apply init_of_declared | exact Hcall].
Qed.

Lemma starts_entered L new w w' order :
  valid_registry -> starts L new w w' -> Some <$> order = dn <$> new -> all_entered order w w'.
Proof.
  intros Hv Hnew. revert order. induction Hnew as [w|new i w w1 w2 Hnew IH (w3 & Henter & Hres)]; intros order Hord.
  - apply fmap_nil_inv in Hord as ->. constructor.
  - rewrite fmap_app in Hord.
    apply fmap_app_inv in Hord as (order' & last & Hpre & Hlast & ->).
    destruct last as [|x [|]]; try discriminate Hlast. injection Hlast as Hx.
    apply resolves_nothing in Hres as ->. eapply entered_snoc; [by apply IH|].
    by eapply enters_entered.
Qed.

Lemma name_started L order i x : valid_registry -> Forall (fun i => 0 <= i < zlen drivers) L ->
  Some <$> order = dn <$> L -> 0 <= i < zlen drivers -> dn i = Some x -> x ∈ order <-> i ∈ L.
Proof.
  intros Hv HL Hord Hi Hx. rewrite <- (list_elem_of_fmap_inj Some), Hord, <- Hx, list_elem_of_fmap.
  split; [|by intros Hin; exists i]. intros (j & Heq & Hj). rewrite Forall_forall in HL.
  by rewrite (names_injective i j (valid_distinct Hv) Hi (HL j Hj) Heq).
Qed.

Lemma visit_error_failure L order used e w w' :
  well_declared units -> Forall (fun i => 0 <= i < zlen drivers) L -> Some <$> order = dn <$> L ->
  visit_error L used e w w' -> start_failure order used e w w'.
Proof.
  intros Hwell HL Hord. pose proof (proj2 (linked_valid units compiled) Hwell) as Hv.
  assert (Hprov : forall i x rs r rest, dn i = Some x -> provided_by i = rs ++ r :: rest ->
    exists u n c o, (u, (n, DOOM_OS_DRIVER_PROVIDES x c o)) ∈ sites units /\
      provide_resolve r = resolver_address u n).
  { intros i x rs r rest Hx Hown. assert (Hr : r ∈ provided_by i) by (rewrite Hown, elem_of_app; right; by left).
    apply list_elem_of_filter in Hr as [Hn Hr].
    apply (in_section units provide_record_of) in Hr as ([u [n []]] & Hs & Hr); try discriminate Hr.
    injection Hr as <-. cbn in Hn. pose proof (subject_named units compiled _ Hs) as Hname. cbn in Hname.
    assert (Heq : Some name = Some x) by (rewrite <- Hx; rewrite <- Hname; exact Hn).
    injection Heq as ->. by eauto 6. }
  intros [i w0 Hcycle|e' i s w0 w1 Hi Hnew Hdeps Hentry _ Hcall
    |i rs r rest s w0 w1 w2 w3 Hi Hnew Hown _ _ _ Hcall|i rs r rest w0 w1 w2 Hi Hnew Hown Henter Hres Hused].
  - destruct (cycle_declared units compiled i Hcycle) as [x Hx]. by eapply failure_cycle.
  - destruct (named_driver units i Hi) as (x & Hx & _).
    eapply (failure_refused _ _ e' x); [| | by eapply init_of_declared | exact Hcall].
    + by rewrite (name_started L order i x).
    + intros y Hneeds.
      destruct (proj1 (declared_index units y) (needs_declared units compiled x y Hwell Hneeds)) as (j & Hj & Hy).
      rewrite (name_started L order j y) by done. by eapply Hdeps, needs_depends.
  - exfalso. destruct (named_driver units i Hi) as (x & Hx & _).
    destruct (Hprov _ _ _ _ _ Hx Hown) as (u & n & c & o & Hs & Hr). cbn in Hcall.
    rewrite Hr, (resolver_answers units u n _ _ _ _ Hs) in Hcall.
    injection Hcall as Hnull _. by eapply object_present.
  - destruct (named_driver units i Hi) as (x & Hx & _).
    destruct (Hprov _ _ _ _ _ Hx Hown) as (u & n & c & o & Hs & _).
    apply resolves_nothing in Hres as ->. eapply (failure_full _ _ x c o); [| | by eapply enters_entered | done].
    + by rewrite (name_started L order i x).
    + exact (site_declared units _ Hs).
Qed.

(** C13: Starting the drivers of a linked image.  Whatever the addresses and the order of the records
    that the linker chose, [init_all] succeeds only on well-declared drivers, and then started every
    declared driver once, each after the drivers it needs: the declared entry functions, and no other
    code, ran in that order and accepted.  On ill-declared drivers it starts nothing.  On
    well-declared ones it can only fail because they need each other in a cycle, because the declared
    entry function of a driver whose needs were started refused, or because the table of capabilities
    is full: then the drivers started are still in the order they need, and only the entry function
    of the one that failed ran after theirs. *)
Theorem declared_drivers_start m :
  built (m_state m) = false -> initialized_all (m_state m) = false ->
  wp init_all (fun r m' => exists order w,
    started (log m') = started (log m) ++ (Some <$> order) /\ NoDup order /\ needed_first units order /\
    all_entered order (world m) w /\
    match r with
    | Ok _ => well_declared units /\ order ≡ₚ declared units /\ world m' = w
    | Err e => ~ well_declared units /\ order = [] /\ world m' = world m \/
        well_declared units /\
        start_failure order (capability_count (m_state m')) e w (world m')
    end) m.
Proof.
  intros Hb Hf. apply (wp_init_all []); [by split; [|left]| |].
  - intros e m' Hv _ _ Hlog Hworld _. exists [], (world m). rewrite app_nil_r. split; [done|].
    split; [constructor|]. split; [by intros pre x post Habs; apply app_cons_not_nil in Habs|].
    split; [constructor|]. left. split; [|done]. intros Hwell. by apply Hv, linked_valid.
  - intros r before new w m' Hv Hlog Hw Hr. cbn [app] in Hr.
    assert (Hwell : well_declared units) by by apply linked_valid.
    assert (Hgo : exists all, going before all [] new m') by (destruct r; destruct Hr; eauto).
    destruct Hgo as (all & Ho%going_ordered).
    pose proof (ordered_range _ _ _ _ Ho) as Hrange. pose proof (ordered_distinct _ _ _ _ Ho) as Hnd.
    destruct (order_names units new Hrange) as (order & Hord & Hall).
    pose proof (order_distinct units compiled new order Hwell Hrange Hnd Hord) as Hdistinct.
    exists order, w. split; [rewrite (ordered_log _ _ _ _ Ho), Hord, Hlog; cbn; by rewrite app_nil_r|].
    split; [done|]. split.
    { eapply order_needed; [done..|]. intros pre i post. apply (ordered_depends _ _ _ _ Ho). }
    split; [by eapply starts_entered|]. destruct r as [[]|e].
    + split; [done|]. split; [by eapply order_complete; [..|apply Hr] | apply Hr].
    + right. split; [done|]. by eapply visit_error_failure, Hr.
Qed.
End Running.

(** ** The property at work *)
Section DriverModuleWitnesses.
(** Every object has its own address; the linker reverses the records. *)
Definition object_code (kind : Z) (p : positive) : pointer := 4 * Z.pos p + kind.

Lemma object_code_inj k k' p p' : 0 <= k < 4 -> 0 <= k' < 4 -> object_code k p = object_code k' p' -> p = p'.
Proof. unfold object_code. lia. Qed.

Lemma object_code_present k p : 0 <= k < 4 -> object_code k p <> nullptr.
Proof. unfold object_code, nullptr. lia. Qed.

Local Instance example_toolchain : toolchain := {|
  id_address u name := object_code 0 (encode (u, name));
  resolver_address u c := object_code 1 (encode (u, c));
  object_address u o := object_code 2 (encode (u, o));
  key_address c := object_code 3 (encode c);
  capability_type c := {| capability_name := c; capability_multiplicity_member := None |};
  arrange T l := reverse l;
|}.

Local Instance example_toolchain_ok : toolchain_ok.
Proof.
  split; intros; cbn in *; try (apply object_code_present; lia).
  - apply object_code_inj, (inj encode) in H; [by injection H as -> -> | lia..].
  - apply object_code_inj, (inj encode) in H; [by injection H as -> -> | lia..].
  - apply object_code_inj, (inj encode) in H; [done | lia..].
  - apply reverse_Permutation.
Qed.

(** A file system on a disk that logs to the console of a serial port, a unit for each. *)
Definition example_units : list (list declaration) := [
  [DOOM_OS_DRIVER "fs"; DOOM_OS_DRIVER_ENTRY "fs" 101; DOOM_OS_DRIVER_DEPENDS_ON "fs" "disk"];
  [DOOM_OS_DRIVER "disk"; DOOM_OS_DRIVER_REQUIRES_CAPABILITY "disk" "console"];
  [DOOM_OS_DRIVER "serial"; DOOM_OS_DRIVER_INIT "serial" 103; DOOM_OS_DRIVER_EXIT "serial" 203;
   DOOM_OS_DRIVER_PROVIDES "serial" "console" "port"]]%string.

(** The drivers' functions record their calls. *)
Local Instance example_bodies : driver_bodies (list Z) := {|
  run_init p s w := Ret (Ok tt, w ++ [p]);
  run_exit p s w := Ret (tt, w ++ [p]);
|}.

Local Instance example_bodies_return : bodies_return.
Proof. split; intros; cbn; eauto. Qed.

Definition cold_lifecycle : lifecycle (list Z) :=
  {| m_state := lifecycle_state_init; world := []; log := [] |}.

Lemma example_units_compile : Forall (fun ds => compiles ds = true) example_units.
Proof. by repeat constructor. Qed.

Example example_units_start :
  match @init_all _ (image example_units) (image_code example_units) cold_lifecycle with
  | Ret (Ok _, m) => world m = [103; 101] /\
      started (log m) = [Some "serial"; Some "disk"; Some "fs"]%string
  | _ => False
  end.
Proof. vm_compute. done. Qed.

Lemma declared_drivers_start_witness :
  (Forall (fun ds => compiles ds = true) example_units /\ built (m_state cold_lifecycle) = false /\
   initialized_all (m_state cold_lifecycle) = false) /\
  wp (@init_all _ (image example_units) (image_code example_units)) (fun r m' => exists order,
    started (log m') = Some <$> order /\ needed_first example_units order /\
    (r = Ok tt -> order ≡ₚ ["fs"; "disk"; "serial"]%string /\ all_entered example_units order [] (world m')))
    cold_lifecycle.
Proof.
  split; [by split; [apply example_units_compile|]|].
  eapply wp_mono; [exact (declared_drivers_start example_units example_units_compile cold_lifecycle eq_refl eq_refl)|].
  intros r m' (order & w & Hlog & _ & Hfirst & Hw & Hr). exists order. split; [exact Hlog|]. split; [done|].
  intros ->. destruct Hr as (_ & Hr & ->). by split.
Defined.
End DriverModuleWitnesses.
