(* ===== verification/LongDouble.v ===== *)
(** * LongDouble: the compiler's [long double]

    The 80-bit format of the processor's floating-point unit, which [KPRINT] computes with: 64 bits of precision,
    rounding to nearest with ties to even, as IEEE 754 defines it.  A finite number is a sign, a mantissa and an
    exponent of two; the operations round the exact result.  These are the language's own types: the file models no
    line of the source, and the formatters use it. *)

From S2P Require Import Prelude.

Inductive long_double : Type :=
| NaN
| Infinite (negative : bool)
| Finite (negative : bool) (mantissa exponent : Z).

(** The exponent of the smallest number, and the first power of two that is too large. *)
Definition EXPONENT_MIN : Z := -16445.
Definition EXPONENT_END : Z := 16384.
Definition MANTISSA_END : Z := 2 ^ 64.

Definition ld_ok (x : long_double) : bool :=
  match x with
  | Finite _ m e => (0 <=? m) && (m <? MANTISSA_END) && (EXPONENT_MIN <=? e) && ((m =? 0) || (Z.log2 m + e <? EXPONENT_END))
  | _ => true
  end.

(** [n / d] to the nearest integer, the even one of two. *)
Definition nearest_even (n d : Z) : Z :=
  let q := n / d in
  let r := n mod d in
  if 2 * r <? d then q else if d <? 2 * r then q + 1 else if Z.even q then q else q + 1.

(** The quotient [n / d] times a power of two, rounded to 64 bits; [n / d] has them, or is exact. *)
Definition ld_round (negative : bool) (n d e : Z) : long_double :=
  let k := Z.max (Z.max 0 (EXPONENT_MIN - e)) (Z.log2 (n / d) - 63) in
  let m := nearest_even n (d * 2 ^ k) in
  let '(m, e) := if m =? MANTISSA_END then (2 ^ 63, e + k + 1) else (m, e + k) in
  if (0 <? m) && (EXPONENT_END <=? Z.log2 m + e) then Infinite negative else Finite negative m e.

Definition signed_mantissa (negative : bool) (m : Z) : Z := if negative then - m else m.

Definition ld_of (n : Z) : long_double := Finite false n 0.

Definition ld_opp (x : long_double) : long_double :=
  match x with
  | NaN => NaN
  | Infinite s => Infinite (negb s)
  | Finite s m e => Finite (negb s) m e
  end.

Definition ld_add (x y : long_double) : long_double :=
  match x, y with
  | NaN, _ | _, NaN => NaN
  | Infinite s, Infinite t => if Bool.eqb s t then x else NaN
  | Infinite _, _ => x
  | _, Infinite _ => y
  | Finite s m e, Finite t n f =>
      let g := Z.min e f in
      let v := signed_mantissa s (m * 2 ^ (e - g)) + signed_mantissa t (n * 2 ^ (f - g)) in
      ld_round (if v =? 0 then s && t else v <? 0) (Z.abs v) 1 g
  end.

Definition ld_sub (x y : long_double) : long_double := ld_add x (ld_opp y).

Definition ld_mul (x y : long_double) : long_double :=
  match x, y with
  | NaN, _ | _, NaN => NaN
  | Infinite s, Infinite t => Infinite (xorb s t)
  | Infinite s, Finite t m _ | Finite t m _, Infinite s => if m =? 0 then NaN else Infinite (xorb s t)
  | Finite s m e, Finite t n f => ld_round (xorb s t) (m * n) 1 (e + f)
  end.

(** The dividend is scaled so that the quotient has more than 64 bits. *)
Definition ld_div (x y : long_double) : long_double :=
  match x, y with
  | NaN, _ | _, NaN | Infinite _, Infinite _ => NaN
  | Infinite s, Finite t _ _ => Infinite (xorb s t)
  | Finite s _ _, Infinite t => Finite (xorb s t) 0 EXPONENT_MIN
  | Finite s m e, Finite t n f =>
      if n =? 0 then (if m =? 0 then NaN else Infinite (xorb s t))
      else ld_round (xorb s t) (m * 2 ^ 130) n (e - f - 130)
  end.

(** [x < y], and [x != y], which holds of no number and itself. *)
Definition ld_lt (x y : long_double) : bool :=
  match x, y with
  | NaN, _ | _, NaN => false
  | Infinite s, Infinite t => s && negb t
  | Infinite s, _ => s
  | _, Infinite t => negb t
  | Finite s m e, Finite t n f =>
      let g := Z.min e f in
      signed_mantissa s (m * 2 ^ (e - g)) <? signed_mantissa t (n * 2 ^ (f - g))
  end.

Definition ld_ne (x y : long_double) : bool :=
  match x, y with
  | NaN, _ | _, NaN => true
  | _, _ => ld_lt x y || ld_lt y x
  end.

(** The conversion to an unsigned type of [w] bits cuts the fraction off; a value outside the type is undefined. *)
Definition ld_truncate (x : long_double) : option Z :=
  match x with
  | Finite s m e => Some (signed_mantissa s (if 0 <=? e then m * 2 ^ e else m / 2 ^ (- e)))
  | _ => None
  end.

Definition ld_to_unsigned (w : Z) (x : long_double) : option Z :=
  match ld_truncate x with
  | Some n => if (0 <=? n) && (n <? 2 ^ w) then Some n else None
  | None => None
  end.

(** The nearest number to one tenth; a tie between two neighbours; the difference of infinities is not a number. *)
Example ld_tenth : ld_div (ld_of 1) (ld_of 10) = Finite false 14757395258967641293 (-67).
Proof. by vm_compute. Qed.

Example ld_round_even : ld_add (ld_of (2 ^ 64 - 1)) (ld_div (ld_of 1) (ld_of 2)) = Finite false (2 ^ 63) 1.
Proof. by vm_compute. Qed.

Example ld_infinite : ld_ne (ld_sub (Infinite false) (Infinite false)) (ld_of 0) = true /\
  ld_sub (ld_of 5) (ld_of 5) = Finite false 0 0.
Proof. by vm_compute. Qed.
