(* ===== verification/Format.v ===== *)
(** * Format: replacement fields, [kernel/debug/format_spec.hpp]

    The parser of format strings, which the compiler runs on the constant format of each
    [KPRINT].  A format is the list of its characters. *)

From S2P Require Import Prelude Containers.

(** The characters of a literal. *)
Definition chars (s : string) : list char :=
  (fun a => Z.of_N (Ascii.N_of_ascii a)) <$> String.list_ascii_of_string s.

Definition chr (s : string) : char := znth (chars s) 0.

Definition MAX_FORMAT_WIDTH : Z := 128.
Definition MAX_FLOAT_PRECISION : Z := 18.

Inductive presentation : Type :=
| PRESENTATION_DEFAULT | DECIMAL | HEX_LOWER | HEX_UPPER | POINTER | FIXED | STRING | CHARACTER.

Inductive format_align : Type := ALIGN_DEFAULT | LEFT | RIGHT | CENTER.

Inductive format_sign : Type := SIGN_DEFAULT | PLUS | SPACE.

#[export] Instance presentation_eq_dec : EqDecision presentation.
Proof. solve_decision. Defined.
#[export] Instance format_align_eq_dec : EqDecision format_align.
Proof. solve_decision. Defined.
#[export] Instance format_sign_eq_dec : EqDecision format_sign.
Proof. solve_decision. Defined.

Record format_spec : Type := {
  presentation_value : presentation;
  align : format_align;
  sign : format_sign;
  fill : char;
  alternate : bool;
  zero_pad : bool;
  has_width : bool;
  width : Z;
  has_precision : bool;
  precision : Z;
}.

Record format_field : Type := { field_valid : bool; field_length : Z; field_spec : format_spec }.

Record format_parse_result : Type := { parse_valid : bool; field_count : Z }.

Definition default_format_spec : format_spec := {|
  presentation_value := PRESENTATION_DEFAULT; align := ALIGN_DEFAULT; sign := SIGN_DEFAULT;
  fill := chr " "; alternate := false; zero_pad := false; has_width := false; width := 0;
  has_precision := false; precision := 0;
|}.

Definition invalid_format_field : format_field :=
  {| field_valid := false; field_length := 0; field_spec := default_format_spec |}.

Definition is_format_digit (value : char) : bool := (chr "0" <=? value) && (value <=? chr "9").
Definition format_digit_value (value : char) : Z := value - chr "0".

Definition is_format_align (value : char) : bool :=
  (value =? chr "<") || (value =? chr ">") || (value =? chr "^").

Definition parse_format_align (value : char) : format_align :=
  if value =? chr "<" then LEFT
  else if value =? chr ">" then RIGHT
  else if value =? chr "^" then CENTER
  else ALIGN_DEFAULT.

Definition with_presentation p s := {| presentation_value := p; align := align s; sign := sign s;
  fill := fill s; alternate := alternate s; zero_pad := zero_pad s; has_width := has_width s;
  width := width s; has_precision := has_precision s; precision := precision s |}.
Definition with_align a s := {| presentation_value := presentation_value s; align := a;
  sign := sign s; fill := fill s; alternate := alternate s; zero_pad := zero_pad s;
  has_width := has_width s; width := width s; has_precision := has_precision s;
  precision := precision s |}.
Definition with_sign x s := {| presentation_value := presentation_value s; align := align s;
  sign := x; fill := fill s; alternate := alternate s; zero_pad := zero_pad s;
  has_width := has_width s; width := width s; has_precision := has_precision s;
  precision := precision s |}.
Definition with_fill c s := {| presentation_value := presentation_value s; align := align s;
  sign := sign s; fill := c; alternate := alternate s; zero_pad := zero_pad s;
  has_width := has_width s; width := width s; has_precision := has_precision s;
  precision := precision s |}.
Definition with_alternate s := {| presentation_value := presentation_value s; align := align s;
  sign := sign s; fill := fill s; alternate := true; zero_pad := zero_pad s;
  has_width := has_width s; width := width s; has_precision := has_precision s;
  precision := precision s |}.
Definition with_zero_pad s := {| presentation_value := presentation_value s; align := align s;
  sign := sign s; fill := fill s; alternate := alternate s; zero_pad := true;
  has_width := has_width s; width := width s; has_precision := has_precision s;
  precision := precision s |}.
Definition with_width w s := {| presentation_value := presentation_value s; align := align s;
  sign := sign s; fill := fill s; alternate := alternate s; zero_pad := zero_pad s;
  has_width := true; width := w; has_precision := has_precision s; precision := precision s |}.
Definition with_precision p s := {| presentation_value := presentation_value s; align := align s;
  sign := sign s; fill := fill s; alternate := alternate s; zero_pad := zero_pad s;
  has_width := has_width s; width := width s; has_precision := true; precision := p |}.

Section Parse.
Context (FMT : list char).

Local Abbreviation length_ := (zlen FMT).
Local Abbreviation at_ i := (znth FMT i).

Definition format_char_at (index : Z) : char := if length_ <=? index then NUL else at_ index.

(** The parts of [parse_field_at], each from the specification and the index reached so far. *)
Definition parse_align (p : format_spec * Z) : format_spec * Z :=
  let '(spec, index) := p in
  if (index + 1 <? length_) && is_format_align (at_ (index + 1)) then
    (with_align (parse_format_align (at_ (index + 1))) (with_fill (at_ index) spec), index + 2)
  else if is_format_align (at_ index) then
    (with_align (parse_format_align (at_ index)) spec, index + 1)
  else (spec, index).

Definition parse_sign (p : format_spec * Z) : format_spec * Z :=
  let '(spec, index) := p in
  if (index <? length_) && (at_ index =? chr "+") then (with_sign PLUS spec, index + 1)
  else if (index <? length_) && (at_ index =? chr " ") then (with_sign SPACE spec, index + 1)
  else (spec, index).

Definition parse_alternate (p : format_spec * Z) : format_spec * Z :=
  let '(spec, index) := p in
  if (index <? length_) && (at_ index =? chr "#") then (with_alternate spec, index + 1)
  else (spec, index).

Definition parse_zero (p : format_spec * Z) : format_spec * Z :=
  let '(spec, index) := p in
  if (index <? length_) && (at_ index =? chr "0") then
    let spec := with_zero_pad spec in
    (if bool_decide (align spec = ALIGN_DEFAULT) then with_align RIGHT spec else spec, index + 1)
  else (spec, index).

(** [while (index < length && is_digit) { number = number * 10 + digit; ++index; }]: the fuel is
    the length of the format. *)
Fixpoint parse_digits (fuel : nat) (number index : Z) : Z * Z :=
  match fuel with
  | O => (number, index)
  | S n =>
      if (index <? length_) && is_format_digit (at_ index) then
        parse_digits n (u64 (number * 10 + format_digit_value (at_ index))) (index + 1)
      else (number, index)
  end.

Definition parse_number (number index : Z) : Z * Z := parse_digits (length FMT) number index.

Definition parse_width (p : format_spec * Z) : format_spec * Z :=
  let '(spec, index) := p in
  let '(number, index') := parse_number (width spec) index in
  (if index <? index' then with_width number spec else spec, index').

Definition parse_precision (p : format_spec * Z) : option (format_spec * Z) :=
  let '(spec, index) := p in
  if (index <? length_) && (at_ index =? chr ".") then
    let index := index + 1 in
    if (length_ <=? index) || negb (is_format_digit (at_ index)) then None
    else
      let '(number, index') := parse_number (precision spec) index in
      if MAX_FLOAT_PRECISION <? number then None else Some (with_precision number spec, index')
  else Some (spec, index).

Definition presentation_of (type : char) : option presentation :=
  if type =? chr "d" then Some DECIMAL
  else if type =? chr "x" then Some HEX_LOWER
  else if type =? chr "X" then Some HEX_UPPER
  else if type =? chr "p" then Some POINTER
  else if type =? chr "f" then Some FIXED
  else if type =? chr "s" then Some STRING
  else if type =? chr "c" then Some CHARACTER
  else None.

Definition parse_type (p : format_spec * Z) : option (format_spec * Z) :=
  let '(spec, index) := p in
  if (index <? length_) && negb (at_ index =? chr "}") then
    match presentation_of (at_ index) with
    | Some x => Some (with_presentation x spec, index + 1)
    | None => None
    end
  else Some (spec, index).

Definition parse_field_at (offset : Z) : format_field :=
  if (length_ <=? offset + 1) || negb (at_ offset =? chr "{") then invalid_format_field
  else if at_ (offset + 1) =? chr "}" then
    {| field_valid := true; field_length := 2; field_spec := default_format_spec |}
  else if negb (at_ (offset + 1) =? chr ":") then invalid_format_field
  else if length_ <=? offset + 2 then invalid_format_field
  else
    let '(spec, index) :=
      parse_width (parse_zero (parse_alternate (parse_sign (parse_align
        (default_format_spec, offset + 2))))) in
    if has_width spec && (MAX_FORMAT_WIDTH <? width spec) then invalid_format_field
    else
      match parse_precision (spec, index) with
      | None => invalid_format_field
      | Some p =>
          match parse_type p with
          | None => invalid_format_field
          | Some (spec, index) =>
              if (length_ <=? index) || negb (at_ index =? chr "}") then invalid_format_field
              else {| field_valid := true; field_length := index - offset + 1; field_spec := spec |}
          end
      end.

(** [parse_format]: every turn of the loop advances, so the length of the format is fuel
    enough. *)
Fixpoint parse_format_from (fuel : nat) (count index : Z) : format_parse_result :=
  match fuel with
  | O => {| parse_valid := true; field_count := count |}
  | S n =>
      if negb (index <? length_) then {| parse_valid := true; field_count := count |}
      else if at_ index =? chr "{" then
        if (index + 1 <? length_) && (at_ (index + 1) =? chr "{") then
          parse_format_from n count (index + 2)
        else
          let field := parse_field_at index in
          if field_valid field then parse_format_from n (count + 1) (index + field_length field)
          else {| parse_valid := false; field_count := count |}
      else if at_ index =? chr "}" then
        if (index + 1 <? length_) && (at_ (index + 1) =? chr "}") then
          parse_format_from n count (index + 2)
        else {| parse_valid := false; field_count := count |}
      else parse_format_from n count (index + 1)
  end.

Definition parse_format : format_parse_result := parse_format_from (length FMT) 0 0.

Fixpoint literal_run_from (fuel : nat) (index : Z) : Z :=
  match fuel with
  | O => index
  | S n =>
      if negb (index <? length_) then index
      else if (at_ index =? chr "{") || (at_ index =? chr "}") then index
      else literal_run_from n (index + 1)
  end.

Definition literal_run_length (I : Z) : Z := literal_run_from (length FMT) I - I.
End Parse.

Example parse_hex_field :
  field_length (parse_field_at (chars "at {:#018x}") 3) = 8 /\
  field_spec (parse_field_at (chars "at {:#018x}") 3) =
    with_presentation HEX_LOWER (with_width 18 (with_align RIGHT (with_zero_pad
      (with_alternate default_format_spec)))).
Proof. split; reflexivity. Qed.

Example parse_invalid_fields :
  field_valid (parse_field_at (chars "{:q}") 0) = false /\
  field_valid (parse_field_at (chars "{:129d}") 0) = false /\
  field_valid (parse_field_at (chars "{:.f}") 0) = false /\
  parse_format (chars "{} and }") = {| parse_valid := false; field_count := 1 |}.
Proof. repeat split. Qed.
