(* ===== verification/Emit.v ===== *)
(** * Emit: printing, [kernel/debug/console.cpp], [kprint.cpp], [emit.hpp], [formatter.hpp],
    [kprint.hpp] and [kpanic.cpp]

    The console passes bytes to the installed sink; the emitters write padded numbers, strings and
    values to it; [KPRINT] walks its format.  The template parameters [Spec] and [FMT] are
    arguments here, and an instantiation that a [static_assert] rejects is [Undefined].  What the
    reflection library answers (the name of an enumerator, the fields of an aggregate) is part of
    the value; a floating-point value is one of the compiler's type ([LongDouble]). *)

From S2P Require Import Prelude Containers Format LongDouble.

(** ** The console *)

(** [calls]: the calls of sinks so far, each with the sink and the bytes it got. *)
Record console : Type := { m_sink : Z; calls : list (Z * list char) }.

Definition set_console_sink (sink : Z) : kernel console unit :=
  modify (fun c => {| m_sink := sink; calls := calls c |}).

Definition current_console_sink : kernel console Z := gets m_sink.

Definition console_ready : kernel console bool := gets (fun c => negb (m_sink c =? 0)).

Definition console_write (bytes : text) (length : Z) : kernel console unit :=
  sink ← gets m_sink;
  match bytes with
  | None => mret tt
  | Some l =>
      if (sink =? 0) || (length =? 0) then mret tt
      else if zlen l <? length then undefined
      else modify (fun c => {| m_sink := sink; calls := calls c ++ [(sink, take (Z.to_nat length) l)] |})
  end.

(** A local buffer; what it holds before it is written is never read. *)
Definition blank (size : Z) : list char := replicate (Z.to_nat size) NUL.

Definition c_string_length {S} (value : text) : kernel S Z :=
  while (match value with Some l => length l | None => 1%nat end)
    (fun length => c ← char_at value length; mret (negb (c =? NUL)))
    (fun length => mret (u64 (length + 1)))
    0.

Definition NULL_TEXT : text := Some (chars "<null>" ++ [NUL]).

Definition emit_char (value : char) : kernel console unit := console_write (Some [value]) 1.

Definition emit_c_string (value : text) : kernel console unit :=
  match value with
  | None => n ← c_string_length NULL_TEXT; console_write NULL_TEXT n
  | Some _ => n ← c_string_length value; console_write value n
  end.

Definition emit_bytes (value : text) (length : Z) : kernel console unit :=
  match value with
  | None => emit_c_string NULL_TEXT
  | Some _ => console_write value length
  end.

(** ** Digits *)

Definition HEX_DIGITS_LOWER : list char := chars "0123456789abcdef".
Definition HEX_DIGITS_UPPER : list char := chars "0123456789ABCDEF".

Definition decimal_digit (value : Z) : char := chr "0" + value mod 10.
Definition hex_digit (uppercase : bool) (value : Z) : char :=
  znth (if uppercase then HEX_DIGITS_UPPER else HEX_DIGITS_LOWER) (Z.land value 15).

(** [do { reverse[length] = digit; value = shrink(value); ++length; } while (value != 0)] *)
Fixpoint digits_loop (fuel : nat) (digit : Z -> char) (shrink : Z -> Z) (value length : Z) :
    kernel (list char) Z :=
  match fuel with
  | O => diverge
  | Datatypes.S n =>
      array_set length (digit value);;
      if shrink value =? 0 then mret (length + 1)
      else digits_loop n digit shrink (shrink value) (length + 1)
  end.

(** The digits, least significant first in an array of [size], copied backwards to the buffer. *)
Definition format_digits (size : Z) (digit : Z -> char) (shrink : Z -> Z) (value : Z) :
    kernel (list char) Z :=
  r ← local (blank size) (digits_loop (Z.to_nat size) digit shrink value 0);
  let '(length, reverse) := r in
  for_range 0 length (fun index =>
    c ← observe reverse (array_get (length - index - 1)); array_set index c);;
  mret length.

Definition format_u64_decimal (value : Z) : kernel (list char) Z :=
  format_digits 20 decimal_digit (fun v => v / 10) value.

Definition format_u64_hex (value : Z) (uppercase : bool) : kernel (list char) Z :=
  format_digits 16 (hex_digit uppercase) (fun v => Z.shiftr v 4) value.

Definition signed_magnitude_i64 (value : Z) : Z :=
  if 0 <=? value then u64 value else u64 (u64 (- (value + 1)) + 1).

(** [kprint.cpp]: the emitters without a specification. *)
Definition emit_decimal_u64 (value : Z) : kernel console unit :=
  if value =? 0 then emit_char (chr "0")
  else
    r ← local (blank 20) (while 21
          (fun '(v, index) => mret (negb (v =? 0)))
          (fun '(v, index) => array_set index (decimal_digit v);; mret (v / 10, index + 1))
          (value, 0));
    let '((_, index), buffer) := r in
    for_down index (fun i => c ← observe buffer (array_get i); emit_char c).

Definition emit_decimal_i64 (value : Z) : kernel console unit :=
  if value <? 0 then emit_char (chr "-");; emit_decimal_u64 (u64 (u64 (- (value + 1)) + 1))
  else emit_decimal_u64 (u64 value).

Definition emit_hex_u64 (value : Z) : kernel console unit :=
  r ← local (chars "0x" ++ blank 16) (for_range 0 16 (fun k =>
        array_set (2 + k) (hex_digit true (Z.shiftr value (60 - 4 * k)))));
  let '(_, buffer) := r in
  console_write (Some buffer) 18.

Definition emit_pointer (value : Z) : kernel console unit := emit_hex_u64 value.

(** ** Padding *)

Definition emit_repeated (value : char) (count : Z) : kernel console unit :=
  for_range 0 count (fun _ => emit_char value).

Definition emit_padded (Spec : format_spec) (prefix : text) (prefix_length : Z) (body : text)
    (body_length : Z) (numeric : bool) : kernel console unit :=
  let content_length := u64 (prefix_length + body_length) in
  let width := if has_width Spec then width Spec else 0 in
  let padding := if content_length <? width then width - content_length else 0 in
  let align := match align Spec with
    | ALIGN_DEFAULT => if numeric then RIGHT else LEFT
    | a => a
    end in
  if numeric && zero_pad Spec && bool_decide (align = RIGHT) then
    emit_bytes prefix prefix_length;;
    emit_repeated (chr "0") padding;;
    emit_bytes body body_length
  else
    match align with
    | LEFT =>
        emit_bytes prefix prefix_length;;
        emit_bytes body body_length;;
        emit_repeated (fill Spec) padding
    | CENTER =>
        let left_padding := padding / 2 in
        let right_padding := padding - left_padding in
        emit_repeated (fill Spec) left_padding;;
        emit_bytes prefix prefix_length;;
        emit_bytes body body_length;;
        emit_repeated (fill Spec) right_padding
    | _ =>
        emit_repeated (fill Spec) padding;;
        emit_bytes prefix prefix_length;;
        emit_bytes body body_length
    end.

(** An instantiation that does not compile has no behaviour. *)
Definition static_assert {S} (b : bool) : kernel S unit := if b then mret tt else undefined.

Definition is_presentation (Spec : format_spec) (p : presentation) : bool :=
  bool_decide (presentation_value Spec = p).

(** ** Values *)

Definition emit_unsigned_decimal (Spec : format_spec) (value : Z) : kernel console unit :=
  static_assert (negb (has_precision Spec));;
  static_assert (negb (alternate Spec));;
  b ← local (blank 20) (format_u64_decimal value);
  let '(body_length, body) := b in
  let has_sign := bool_decide (sign Spec = PLUS) || bool_decide (sign Spec = SPACE) in
  let prefix_buffer := [if bool_decide (sign Spec = PLUS) then chr "+" else chr " "] in
  emit_padded Spec (Some prefix_buffer) (if has_sign then 1 else 0) (Some body) body_length true.

(** The sign written before a number: the buffer and its length. *)
Definition sign_prefix (Spec : format_spec) (negative : bool) : list char * Z :=
  if negative then ([chr "-"], 1)
  else
    match sign Spec with
    | PLUS => ([chr "+"], 1)
    | SPACE => ([chr " "], 1)
    | SIGN_DEFAULT => ([NUL], 0)
    end.

Definition emit_signed_decimal (Spec : format_spec) (value : Z) : kernel console unit :=
  static_assert (negb (has_precision Spec));;
  static_assert (negb (alternate Spec));;
  b ← local (blank 20) (format_u64_decimal (signed_magnitude_i64 value));
  let '(body_length, body) := b in
  let '(prefix_buffer, prefix_length) := sign_prefix Spec (value <? 0) in
  emit_padded Spec (Some prefix_buffer) prefix_length (Some body) body_length true.

Definition emit_hex_integer (Spec : format_spec) (value : Z) : kernel console unit :=
  static_assert (negb (has_precision Spec));;
  b ← local (blank 16) (format_u64_hex value (is_presentation Spec HEX_UPPER));
  let '(body_length, body) := b in
  let '(prefix_buffer, prefix_length) :=
    if alternate Spec then (chars "0x", 2) else ([NUL; NUL], 0) in
  emit_padded Spec (Some prefix_buffer) prefix_length (Some body) body_length true.

Definition pointer_spec (Spec : format_spec) : format_spec := {|
  presentation_value := HEX_LOWER; align := align Spec; sign := SIGN_DEFAULT; fill := fill Spec;
  alternate := true; zero_pad := zero_pad Spec; has_width := has_width Spec; width := width Spec;
  has_precision := false; precision := 0;
|}.

Definition emit_pointer_value (Spec : format_spec) (address : Z) : kernel console unit :=
  static_assert (negb (has_precision Spec));;
  match presentation_value Spec with
  | HEX_LOWER | HEX_UPPER => emit_hex_integer Spec address
  | PRESENTATION_DEFAULT | POINTER => emit_hex_integer (pointer_spec Spec) address
  | _ => static_assert false
  end.

Definition emit_string_value (Spec : format_spec) (value : text) : kernel console unit :=
  static_assert (is_presentation Spec PRESENTATION_DEFAULT || is_presentation Spec STRING);;
  let actual_value := match value with None => Some (chars "(null)" ++ [NUL]) | _ => value end in
  full_length ← c_string_length actual_value;
  let length := if has_precision Spec then Z.min full_length (precision Spec) else full_length in
  emit_padded Spec (Some [NUL]) 0 actual_value length false.

Definition emit_char_value (Spec : format_spec) (value : char) : kernel console unit :=
  static_assert (negb (has_precision Spec));;
  match presentation_value Spec with
  | PRESENTATION_DEFAULT | CHARACTER => emit_padded Spec (Some [NUL]) 0 (Some [value]) 1 false
  | DECIMAL => emit_unsigned_decimal Spec (u8 value)
  | HEX_LOWER | HEX_UPPER => emit_hex_integer Spec (u8 value)
  | _ => static_assert false
  end.

(** *** Floating-point values *)

(** The prefix of a special value is the sign. *)
Definition emit_float_special (Spec : format_spec) (body : list char) (body_length : Z) (negative : bool) :
    kernel console unit :=
  let '(prefix_buffer, prefix_length) := sign_prefix Spec negative in
  emit_padded Spec (Some prefix_buffer) prefix_length (Some body) body_length true.

Definition copy_bytes (dst : Z) (src : list char) (length : Z) : kernel (list char) unit :=
  for_range 0 length (fun index => c ← observe src (array_get index); array_set (dst + index) c).

(** A conversion to an unsigned type. *)
Definition to_unsigned {S} (w : Z) (x : long_double) : kernel S Z :=
  match ld_to_unsigned w x with Some n => mret n | None => undefined end.

Definition float_precision (Spec : format_spec) : Z := if has_precision Spec then precision Spec else 6.

(** [rounding]: one half, divided by ten [n] times. *)
Definition half_unit (n : nat) : long_double := Nat.iter n (fun r => ld_div r (ld_of 10)) (Finite false 1 (-1)).

(** The digits after the point: the loop's variables are its index, the rest of the fraction and the length. *)
Definition fraction_loop (precision : Z) (fractional_part : long_double) (body_length : Z) :
    kernel (list char) (Z * long_double * Z) :=
  while (Datatypes.S (Z.to_nat precision))
    (fun '(index, _, _) => mret (index <? precision))
    (fun '(index, fractional_part, body_length) =>
       let fractional_part := ld_mul fractional_part (ld_of 10) in
       digit ← to_unsigned 8 fractional_part;
       array_set body_length (chr "0" + digit);;
       mret (index + 1, ld_sub fractional_part (ld_of digit), u64 (body_length + 1)))
    (0, fractional_part, body_length).

(** The text of the magnitude, in a buffer of 64 characters, and its length. *)
Definition float_body (Spec : format_spec) (integer_part : Z) (fractional_part : long_double) :
    kernel (list char) Z :=
  b ← local (blank 20) (format_u64_decimal integer_part);
  let '(integer_length, integer_buffer) := b in
  copy_bytes 0 integer_buffer integer_length;;
  let point := (0 <? float_precision Spec) || alternate Spec in
  when point (array_set integer_length (chr "."));;
  r ← fraction_loop (float_precision Spec) fractional_part
        (if point then u64 (integer_length + 1) else integer_length);
  mret (snd r).

Definition emit_fixed_float (Spec : format_spec) (value : long_double) : kernel console unit :=
  static_assert (is_presentation Spec PRESENTATION_DEFAULT || is_presentation Spec FIXED);;
  let negative := ld_lt value (ld_of 0) in
  if ld_ne value value then emit_float_special Spec (chars "nan") 3 false
  else
    let value := if negative then ld_opp value else value in
    let infinity_test := ld_sub value value in
    if ld_ne infinity_test infinity_test then emit_float_special Spec (chars "inf") 3 negative
    else if ld_lt (ld_of 18446744073709551615) value then emit_float_special Spec (chars "ovf") 3 negative
    else
      let value := ld_add value (half_unit (Z.to_nat (float_precision Spec))) in
      integer_part ← to_unsigned 64 value;
      b ← local (blank 64) (float_body Spec integer_part (ld_sub value (ld_of integer_part)));
      let '(body_length, body) := b in
      let '(prefix_buffer, prefix_length) := sign_prefix Spec negative in
      emit_padded Spec (Some prefix_buffer) prefix_length (Some body) body_length true.

(** The argument of a field: its type and its value. *)
Inductive value : Type :=
| VChar (c : char)
| VBool (b : bool)
| VUnsigned (v : Z)
| VSigned (v : Z)
| VFloat (x : long_double)
| VCString (address : Z) (t : text)
| VNull
| VPointer (address : Z)
| VFixedString (s : FixedString.fixed_string)
| VView (data : list char)
| VEnum (underlying : value) (name : list char)
| VAggregate (fields : list (list char * value)).

Definition emit_bool (Spec : format_spec) (b : bool) : kernel console unit :=
  static_assert (negb (has_precision Spec));;
  match presentation_value Spec with
  | PRESENTATION_DEFAULT =>
      emit_string_value Spec (Some ((if b then chars "true" else chars "false") ++ [NUL]))
  | DECIMAL => emit_unsigned_decimal Spec (if b then 1 else 0)
  | HEX_LOWER | HEX_UPPER => emit_hex_integer Spec (if b then 1 else 0)
  | _ => static_assert false
  end.

Definition emit_unsigned (Spec : format_spec) (v : Z) : kernel console unit :=
  match presentation_value Spec with
  | PRESENTATION_DEFAULT | DECIMAL => emit_unsigned_decimal Spec v
  | HEX_LOWER | HEX_UPPER => emit_hex_integer Spec v
  | _ => static_assert false
  end.

Definition emit_signed (Spec : format_spec) (v : Z) : kernel console unit :=
  match presentation_value Spec with
  | PRESENTATION_DEFAULT | DECIMAL => emit_signed_decimal Spec v
  | HEX_LOWER | HEX_UPPER => emit_hex_integer Spec (u64 v)
  | _ => static_assert false
  end.

Definition emit_view (Spec : format_spec) (data : list char) : kernel console unit :=
  static_assert (is_presentation Spec PRESENTATION_DEFAULT || is_presentation Spec STRING);;
  let size := zlen data in
  let length := if has_precision Spec then Z.min size (precision Spec) else size in
  emit_padded Spec (Some [NUL]) 0 (Some data) length false.

Definition numeric_presentation (Spec : format_spec) : bool :=
  is_presentation Spec DECIMAL || is_presentation Spec HEX_LOWER || is_presentation Spec HEX_UPPER.

(** [formatter<T>::emit<Spec>(value)], by the type. *)
Fixpoint emit_value (Spec : format_spec) (v : value) : kernel console unit :=
  match v with
  | VChar c => emit_char_value Spec c
  | VBool b => emit_bool Spec b
  | VUnsigned n => emit_unsigned Spec n
  | VSigned n => emit_signed Spec n
  | VFloat x => emit_fixed_float Spec x
  | VCString address t =>
      match presentation_value Spec with
      | POINTER | HEX_LOWER | HEX_UPPER => emit_pointer_value Spec address
      | _ => emit_string_value Spec t
      end
  | VNull => emit_pointer_value Spec 0
  | VPointer address => emit_pointer_value Spec address
  | VFixedString s => emit_string_value Spec (Some (FixedString.m_data s))
  | VView data => emit_view Spec data
  | VEnum underlying name =>
      if numeric_presentation Spec then emit_value Spec underlying
      else if bool_decide (name = []) then emit_value Spec underlying
      else emit_view Spec name
  | VAggregate fields =>
      static_assert (negb (has_precision Spec));;
      emit_char (chr "{");;
      (fix emit_fields (first : bool) (l : list (list char * value)) : kernel console unit :=
         match l with
         | [] => mret tt
         | (name, field) :: rest =>
             when (negb first) (emit_bytes (Some (chars ", ")) 2);;
             emit_bytes (Some name) (zlen name);;
             emit_char (chr "=");;
             emit_value Spec field;;
             emit_fields false rest
         end) true fields;;
      emit_char (chr "}")
  end.

(** ** [KPRINT] *)

Definition emit_nth_arg (target_index : Z) (Spec : format_spec) (args : list value) :
    kernel console unit :=
  match args !! Z.to_nat target_index with
  | Some v => emit_value Spec v
  | None => static_assert false
  end.

(** Every step advances: the length of the format, plus the last step, is fuel enough. *)
Fixpoint emit_format (fuel : nat) (fmt : list char) (offset arg_index : Z) (args : list value) :
    kernel console unit :=
  match fuel with
  | O => diverge
  | Datatypes.S n =>
      let c := format_char_at fmt offset in
      let next := format_char_at fmt (offset + 1) in
      if zlen fmt <=? offset then mret tt
      else if (c =? chr "{") && (next =? chr "{") then
        emit_char (chr "{");; emit_format n fmt (offset + 2) arg_index args
      else if (c =? chr "}") && (next =? chr "}") then
        emit_char (chr "}");; emit_format n fmt (offset + 2) arg_index args
      else if c =? chr "{" then
        let field := parse_field_at fmt offset in
        static_assert (field_valid field);;
        emit_nth_arg arg_index (field_spec field) args;;
        emit_format n fmt (offset + field_length field) (arg_index + 1) args
      else
        let run_length := literal_run_length fmt offset in
        if 0 <? run_length then
          emit_bytes (Some (drop (Z.to_nat offset) fmt)) run_length;;
          emit_format n fmt (offset + run_length) arg_index args
        else
          emit_char c;; emit_format n fmt (offset + 1) arg_index args
  end.

Definition kprint_ct (FMT : list char) (args : list value) : kernel console unit :=
  let parse_result := parse_format FMT in
  static_assert (parse_valid parse_result);;
  static_assert (field_count parse_result =? zlen args);;
  emit_format (Datatypes.S (length FMT)) FMT 0 0 args.

Definition kprintln_ct (FMT : list char) (args : list value) : kernel console unit :=
  kprint_ct FMT args;; emit_char 10.

(** ** The report of a panic *)

Definition PANIC_PREFIX : list char := 27 :: chars "[1;31m[panic]" ++ 27 :: chars "[0m".

Definition REGISTERS_PER_LINE : Z := 3.

(** The fields of the register frame, by name. *)
Definition register_frame : Type := list (list char * Z).

Fixpoint dump_fields (column : Z) (r : register_frame) : kernel console Z :=
  match r with
  | [] => mret column
  | (name, value) :: rest =>
      kprint_ct (chars "  {:<6} {:#018X}") [VView name; VUnsigned value];;
      let column := column + 1 in
      when (column mod REGISTERS_PER_LINE =? 0) (emit_char 10);;
      dump_fields column rest
  end.

Definition dump_panic_registers (r : register_frame) : kernel console unit :=
  column ← dump_fields 0 r;
  when (negb (column mod REGISTERS_PER_LINE =? 0)) (emit_char 10).

(** What [kpanic] prints before it halts. *)
Definition kpanic (message : text) (frame : option register_frame) (file : text) (line : Z)
    (function : text) : kernel console unit :=
  let prefix := VCString 1 (Some (PANIC_PREFIX ++ [NUL])) in
  match message with
  | None => mret tt
  | Some _ => kprintln_ct (chars "{} {}") [prefix; VCString 1 message]
  end;;
  kprintln_ct (chars "{} at {}:{} in {}") [prefix; VCString 1 file; VSigned line; VCString 1 function];;
  match frame with
  | None => mret tt
  | Some r => dump_panic_registers r
  end;;
  kprintln_ct (chars "{} halt") [prefix].

(** [kpanic_fmt]: the message is formatted, and the rest is reported without one. *)
Definition kpanic_fmt (FMT : list char) (args : list value) (frame : option register_frame)
    (file : text) (line : Z) (function : text) : kernel console unit :=
  emit_c_string (Some (PANIC_PREFIX ++ [NUL]));;
  emit_char (chr " ");;
  kprintln_ct FMT args;;
  kpanic None frame file line function.

Definition printed (c : console) : list char := concat (snd <$> calls c).

Definition print (m : kernel console unit) : option string :=
  match m {| m_sink := 1; calls := [] |} with
  | Ret (_, c) => Some (String.string_of_list_ascii ((fun x => Ascii.ascii_of_N (Z.to_N x)) <$> printed c))
  | _ => None
  end.
