(* ===== verification/FloatFacts.v ===== *)
(** * FloatFacts: the arithmetic of printed floating-point values

    Rounding, the digits of a fraction, and how far the decimal number that is printed can be from the value.  A finite
    number is compared with others as an integer, in units of the smallest one ([units]). *)

From S2P Require Import Prelude LongDouble Containers Format Emit.

(** ** Rounding *)

Lemma nearest_even_spec n d : 0 <= n -> 0 < d -> 0 <= nearest_even n d /\ 2 * Z.abs (nearest_even n d * d - n) <= d.
Proof.
  intros Hn Hd. unfold nearest_even. pose proof (Z.div_mod n d ltac:(lia)) as E. pose proof (Z.mod_pos_bound n d Hd) as Hr.
  pose proof (Z.div_pos n d Hn Hd). set (q := n / d) in *. set (r := n mod d) in *.
  destruct (Z.ltb_spec (2 * r) d); [|destruct (Z.ltb_spec d (2 * r)); [|destruct (Z.even q)]]; split; nia.
Qed.

Lemma nearest_even_1 n : 0 <= n -> nearest_even n 1 = n.
Proof. intros Hn. destruct (nearest_even_spec n 1) as [_ H]; lia. Qed.

(** The bits that rounding drops. *)
Definition dropped (n : Z) : Z := Z.max 0 (Z.log2 n - 63).

Lemma log2_bounds n : 0 < n -> 2 ^ Z.log2 n <= n < 2 * 2 ^ Z.log2 n.
Proof. intros Hn. pose proof (Z.log2_spec n Hn) as H. rewrite Z.pow_succ_r in H by apply Z.log2_nonneg. exact H. Qed.

Lemma dropped_small n k : 0 <= n -> 0 <= k -> n < 2 ^ (64 + k) -> dropped n <= k.
Proof.
  intros Hn Hk Hlt. unfold dropped. destruct (Z.eq_dec n 0) as [->|Hne]; [cbn; lia|].
  assert (Z.log2 n < 64 + k) by (apply Z.log2_lt_pow2; lia). lia.
Qed.

(** Rounding an integer: the error is at most half of the last bit kept, and at most [n / 2 ^ 64]. *)
Lemma ld_round_spec negative n e :
  0 <= n -> EXPONENT_MIN <= e -> (n = 0 \/ Z.log2 n + e + 1 < EXPONENT_END) ->
  exists m j, ld_round negative n 1 e = Finite negative m (e + j) /\ 0 <= m < MANTISSA_END /\ 0 <= j /\
    2 * Z.abs (m * 2 ^ j - n) <= 2 ^ dropped n /\ 2 ^ 64 * Z.abs (m * 2 ^ j - n) <= n /\ (j = 0 \/ 2 ^ 62 <= m).
Proof.
  intros Hn He Hmax. unfold ld_round. rewrite Z.div_1_r, Z.mul_1_l.
  assert (Ek : Z.max (Z.max 0 (EXPONENT_MIN - e)) (Z.log2 n - 63) = dropped n) by (unfold dropped; lia). rewrite Ek.
  set (k := dropped n). assert (Hk : 0 <= k) by (unfold k, dropped; lia).
  destruct (nearest_even_spec n (2 ^ k)) as [Hm Herr]; [done | lia|]. set (m := nearest_even n (2 ^ k)) in *.
  assert (Hlow : k = 0 /\ n < 2 ^ 64 \/ 0 < k /\ Z.log2 n = 63 + k /\ 2 ^ 63 * 2 ^ k <= n < 2 ^ 64 * 2 ^ k).
  { destruct (Z.eq_dec n 0) as [->|Hne]; [left; by vm_compute|].
    destruct (Z_le_gt_dec (Z.log2 n) 63) as [Hle|Hgt].
    - left. split; [unfold k, dropped; lia|]. apply Z.log2_lt_pow2; lia.
    - right. assert (Ek' : Z.log2 n = 63 + k) by (unfold k, dropped; lia). split; [lia|].
      pose proof (log2_bounds n ltac:(lia)) as Hb. split; [exact Ek'|]. rewrite Ek', Z.pow_add_r in Hb by lia. lia. }
  clearbody k m. assert (Hp : 0 < 2 ^ k) by lia. set (P := 2 ^ k) in *.
  assert (Hme : m <= MANTISSA_END).
  { unfold MANTISSA_END. destruct Hlow as [[-> Hlt]|(Hpos & Hlog & Hlow & Hlt)]; [subst P; lia | nia]. }
  assert (Hrel : 2 ^ 64 * Z.abs (m * P - n) <= n).
  { destruct Hlow as [[-> Hlt]|(Hpos & Hlog & Hlow & Hlt)]; subst P; lia. }
  assert (Hbig : k = 0 \/ 2 ^ 62 <= m).
  { destruct Hlow as [[-> Hlt]|(Hpos & Hlog & Hlow & Hlt)]; [by left | right]. nia. }
  destruct (Z.eqb_spec m MANTISSA_END) as [->|Hne].
  - assert (Hlog : 0 < k /\ Z.log2 n = 63 + k).
    { destruct Hlow as [[-> Hlt]|(Hpos & Hlog & _)]; [|done]. unfold MANTISSA_END in *. subst P. lia. }
    replace ((0 <? 2 ^ 63) && (EXPONENT_END <=? Z.log2 (2 ^ 63) + (e + k + 1))) with false.
    2:{ symmetry. apply andb_false_iff. right. rewrite Z.log2_pow2 by lia. lia. }
    exists (2 ^ 63), (k + 1). assert (EP : 2 ^ 63 * 2 ^ (k + 1) = MANTISSA_END * P).
    { unfold MANTISSA_END, P. rewrite Z.pow_add_r by lia. lia. }
    rewrite EP. split; [f_equal; lia|]. unfold MANTISSA_END in *. repeat split; try done; lia.
  - assert (Hlt : (0 <? m) && (EXPONENT_END <=? Z.log2 m + (e + k)) = false).
    { apply andb_false_iff. destruct (Z.ltb_spec 0 m) as [Hm0|]; [right|by left]. apply Z.leb_gt.
      destruct Hlow as [[-> Hlt]|(Hpos & Hlog & _)].
      - subst P. replace m with n by lia. lia.
      - assert (Z.log2 m < 64) by (apply Z.log2_lt_pow2; unfold MANTISSA_END in *; lia). lia. }
    rewrite Hlt. exists m, k. fold P. repeat split; try done; lia.
Qed.

(** ** Fractions *)

(** The magnitude of a number, in units of the smallest one. *)
Definition UNIT : Z := 2 ^ (- EXPONENT_MIN).
Definition units (x : long_double) : Z :=
  match x with Finite _ m e => m * 2 ^ (e - EXPONENT_MIN) | _ => 0 end.

(** A finite number at or above 0 and below [c], whose last bit is worth at most one. *)
Record below (c : Z) (x : long_double) (m e : Z) : Prop := {
  below_form : x = Finite false m e;
  below_mantissa : 0 <= m < MANTISSA_END;
  below_exponent : EXPONENT_MIN <= e <= 0;
  below_value : m < c * 2 ^ (- e);
}.

Definition fraction (x : long_double) : Prop := exists m e, below 1 x m e.

Lemma UNIT_pos : 0 < UNIT.
Proof. unfold UNIT, EXPONENT_MIN. apply Z.pow_pos_nonneg; lia. Qed.

Lemma UNIT_split e : EXPONENT_MIN <= e <= 0 -> UNIT = 2 ^ (- e) * 2 ^ (e - EXPONENT_MIN).
Proof. intros He. unfold UNIT. rewrite <- Z.pow_add_r by lia. f_equal. lia. Qed.

Lemma below_units c x m e : below c x m e -> 0 < 2 ^ (e - EXPONENT_MIN) /\ units x = m * 2 ^ (e - EXPONENT_MIN) /\ 0 <= units x < c * UNIT.
Proof.
  intros [-> Hm He Hv]. assert (Hp : 0 < 2 ^ (e - EXPONENT_MIN)) by lia. cbn [units]. rewrite (UNIT_split e) by done. nia.
Qed.

(** The conversion to an integer, and what is left. *)
Lemma below_truncate c x m e : below c x m e -> ld_truncate x = Some (m / 2 ^ (- e)).
Proof.
  intros [-> Hm He Hv]. cbn [ld_truncate signed_mantissa]. destruct (Z.leb_spec 0 e); [|done].
  replace e with 0 by lia. by rewrite Z.mul_1_r, Z.div_1_r.
Qed.

Lemma round_exact negative n e : 0 <= n < MANTISSA_END -> EXPONENT_MIN <= e <= 0 -> ld_round negative n 1 e = Finite negative n e.
Proof.
  intros Hn He. unfold MANTISSA_END in Hn.
  assert (Hd : dropped n = 0). { unfold dropped. destruct (Z.eq_dec n 0) as [->|]; [done|]. assert (Z.log2 n < 64) by (apply Z.log2_lt_pow2; lia). lia. }
  unfold ld_round. rewrite Z.div_1_r. replace (Z.max _ _) with (dropped n) by (unfold dropped; lia). rewrite Hd.
  change (1 * 2 ^ 0) with 1. rewrite nearest_even_1 by lia.
  destruct (Z.eqb_spec n MANTISSA_END); [unfold MANTISSA_END in *; lia|]. rewrite Z.add_0_r.
  replace ((0 <? n) && (EXPONENT_END <=? Z.log2 n + e)) with false; [done|]. symmetry. apply andb_false_iff.
  destruct (Z.ltb_spec 0 n); [right|by left]. assert (Z.log2 n < 64) by (apply Z.log2_lt_pow2; lia). unfold EXPONENT_END. lia.
Qed.

Lemma below_rest c x m e : below c x m e ->
  below 1 (ld_sub x (ld_of (m / 2 ^ (- e)))) (m mod 2 ^ (- e)) e /\
  units x = m / 2 ^ (- e) * UNIT + units (ld_sub x (ld_of (m / 2 ^ (- e)))).
Proof.
  intros Hx. pose proof Hx as [-> Hm He Hv]. assert (Hp : 0 < 2 ^ (- e)) by lia.
  pose proof (Z.div_mod m (2 ^ (- e)) ltac:(lia)) as Ed. pose proof (Z.mod_pos_bound m (2 ^ (- e)) Hp) as Hr.
  set (d := m / 2 ^ (- e)) in *. set (r := m mod 2 ^ (- e)) in *. assert (0 <= d) by (by apply Z.div_pos; lia).
  assert (E : ld_sub (Finite false m e) (ld_of d) = Finite false r e).
  { unfold ld_sub, ld_of, ld_opp, ld_add, signed_mantissa. cbn [negb]. rewrite Z.min_l by lia.
    rewrite Z.sub_diag, Z.mul_1_r. replace (m + - (d * 2 ^ (0 - e))) with r by (replace (0 - e) with (- e) by lia; nia).
    rewrite Z.abs_eq by lia. rewrite round_exact by (unfold MANTISSA_END in *; nia).
    destruct (Z.eqb_spec r 0); cbn [andb]; [done|]. by replace (r <? 0) with false by lia. }
  rewrite E. split.
  - split; [done | unfold MANTISSA_END in *; nia | done | lia].
  - cbn [units]. rewrite (UNIT_split e) by done. nia.
Qed.

(** One digit: ten times a fraction is below ten, and its error is small. *)
Lemma fraction_times_ten f : fraction f -> exists m e, below 10 (ld_mul f (ld_of 10)) m e /\
  2 ^ 64 * Z.abs (units (ld_mul f (ld_of 10)) - 10 * units f) <= 10 * units f.
Proof.
  intros (m & e & Hf). pose proof (below_units _ _ _ _ Hf) as (Hu & Eu & _). destruct Hf as [-> Hm He Hv].
  set (U := 2 ^ (e - EXPONENT_MIN)) in *. cbn [ld_mul ld_of xorb]. rewrite Z.add_0_r.
  assert (Hp : 0 < 2 ^ (- e)) by lia. unfold MANTISSA_END in Hm.
  destruct (ld_round_spec false (m * 10) e) as (m' & j & E & Hm' & Hj & _ & Herr & Hbig); [lia | lia | |].
  { destruct (Z.eq_dec m 0) as [->|]; [by left | right]. assert (Z.log2 (m * 10) < 68) by (apply Z.log2_lt_pow2; lia).
    unfold EXPONENT_END. lia. }
  assert (Hlt : m' * 2 ^ j < 10 * 2 ^ (- e)).
  { destruct (Z_le_gt_dec (2 ^ (- e)) (2 ^ 64)); [lia|]. assert (2 * 2 ^ 64 <= 2 ^ (- e)); [|lia].
    assert (65 <= - e). { destruct (Z_le_gt_dec 65 (- e)); [done|]. pose proof (Z.pow_le_mono_r 2 (- e) 64). lia. }
    pose proof (Z.pow_le_mono_r 2 65 (- e)). lia. }
  assert (Hej : e + j <= 0).
  { destruct Hbig as [->|Hbig]; [lia|]. destruct (Z_le_gt_dec (e + j) 0) as [|Hgt]; [done|]. exfalso.
    pose proof (Z.pow_le_mono_r 2 (- e) j ltac:(lia) ltac:(lia)). nia. }
  rewrite E. exists m', (e + j). split.
  - split; [done | done | lia |]. assert (E2 : 2 ^ (- e) = 2 ^ (- (e + j)) * 2 ^ j).
    { rewrite <- Z.pow_add_r by lia. f_equal. lia. }
    assert (0 < 2 ^ j) by lia. rewrite E2 in Hlt. nia.
  - cbn [units]. fold U. replace (e + j - EXPONENT_MIN) with (j + (e - EXPONENT_MIN)) by lia.
    rewrite Z.pow_add_r by lia. fold U. replace (m' * (2 ^ j * U) - 10 * (m * U)) with ((m' * 2 ^ j - m * 10) * U) by lia.
    rewrite Z.abs_mul, (Z.abs_eq U) by lia. nia.
Qed.

(** ** The decimal number that is printed *)

(** [k] digits of a fraction, after the number [acc]. *)
Fixpoint fraction_digits (k : nat) (f : long_double) (acc : Z) : Z :=
  match k with
  | O => acc
  | S k =>
      let f := ld_mul f (ld_of 10) in
      let d := default 0 (ld_truncate f) in
      fraction_digits k (ld_sub f (ld_of d)) (acc * 10 + d)
  end.

(** A number above 0 in units of its last digit, with [k] digits after the point; [None] when its integer part does not fit. *)
Definition fixed_point (k : nat) (x : long_double) : option Z :=
  let y := ld_add x (half_unit k) in
  integer_part ← ld_to_unsigned 64 y;
  Some (fraction_digits k (ld_sub y (ld_of integer_part)) integer_part).

(** The last [k] digits of a number. *)
Fixpoint digits_text (k : nat) (n : Z) : list char :=
  match k with
  | O => []
  | S k => (chr "0" + n / 10 ^ Z.of_nat k mod 10) :: digits_text k n
  end.

Lemma fraction_step f : fraction f -> exists d,
  let g := ld_mul f (ld_of 10) in
  ld_truncate g = Some d /\ 0 <= d <= 9 /\ fraction (ld_sub g (ld_of d)) /\
  2 ^ 64 * Z.abs (10 * units f - (d * UNIT + units (ld_sub g (ld_of d)))) <= 10 * UNIT.
Proof.
  intros Hf. destruct (fraction_times_ten f Hf) as (m & e & Hg & Herr). cbn zeta. set (g := ld_mul f (ld_of 10)) in *.
  destruct Hf as (m0 & e0 & Hf). destruct (below_units _ _ _ _ Hf) as (_ & _ & Hu).
  destruct (below_rest _ _ _ _ Hg) as [Hr E]. exists (m / 2 ^ (- e)). split; [by eapply below_truncate|].
  destruct Hg as [_ Hm He Hv]. split; [|split; [by eexists _, _ | lia]].
  assert (0 < 2 ^ (- e)) by lia. split; [apply Z.div_pos; lia|].
  assert (m / 2 ^ (- e) < 10); [|lia]. apply Z.div_lt_upper_bound; lia.
Qed.

Lemma digits_text_step k n acc d :
  n / 10 ^ Z.of_nat k = acc * 10 + d -> 0 <= d <= 9 -> 0 <= acc ->
  n / 10 ^ Z.of_nat (S k) = acc /\ n / 10 ^ Z.of_nat k mod 10 = d.
Proof.
  intros E Hd Ha. replace (Z.of_nat (S k)) with (Z.of_nat k + 1) by lia. rewrite Z.pow_add_r, <- Z.div_div by lia.
  rewrite E. change (10 ^ 1) with 10. split; [symmetry; apply (Z.div_unique_pos _ _ _ d); lia | symmetry; apply (Z.mod_unique_pos _ _ acc); lia].
Qed.

(** The digits are appended to the number, and they are those of the fraction. *)
Lemma fraction_digits_prefix k f acc : fraction f -> 0 <= acc -> 0 <= fraction_digits k f acc /\ fraction_digits k f acc / 10 ^ Z.of_nat k = acc.
Proof.
  revert f acc. induction k as [|k IH]; intros f acc Hf Ha; [cbn; by rewrite Z.div_1_r|].
  destruct (fraction_step f Hf) as (d & Et & Hd & Hr & _). cbn [fraction_digits]. rewrite Et. cbn [default id].
  destruct (IH _ (acc * 10 + d) Hr ltac:(lia)) as [Hpos E]. split; [done|]. by destruct (digits_text_step k _ acc d E).
Qed.

Lemma fraction_digits_error k f acc : fraction f -> 0 <= acc -> exists r, 0 <= r < UNIT /\
  2 ^ 64 * Z.abs (units f * 10 ^ Z.of_nat k - (fraction_digits k f acc - acc * 10 ^ Z.of_nat k) * UNIT - r) <=
  2 * UNIT * (10 ^ Z.of_nat k - 1).
Proof.
  revert f acc. induction k as [|k IH]; intros f acc Hf Ha.
  { destruct Hf as (m & e & Hf). destruct (below_units _ _ _ _ Hf) as (_ & _ & Hu). exists (units f). split; [lia|].
    cbn [fraction_digits]. change (10 ^ Z.of_nat 0) with 1. replace (_ - _ - _) with 0 by lia. lia. }
  destruct (fraction_step f Hf) as (d & Et & Hd & Hr & Herr). cbn [fraction_digits]. rewrite Et. cbn [default id].
  destruct (IH _ (acc * 10 + d) Hr ltac:(lia)) as (r & Hrange & Hrest). exists r. split; [done|].
  set (g := ld_sub _ _) in *. set (N := fraction_digits k g (acc * 10 + d)) in *.
  replace (Z.of_nat (S k)) with (Z.of_nat k + 1) by lia. rewrite Z.pow_add_r by lia. change (10 ^ 1) with 10.
  assert (HK : 1 <= 10 ^ Z.of_nat k) by lia. set (K := 10 ^ Z.of_nat k) in *.
  assert (E : units f * (K * 10) - (N - acc * (K * 10)) * UNIT - r =
    (10 * units f - (d * UNIT + units g)) * K + (units g * K - (N - (acc * 10 + d) * K) * UNIT - r)) by ring.
  rewrite E. pose proof UNIT_pos as HU.
  set (a := 10 * units f - (d * UNIT + units g)) in *. set (b := units g * K - (N - (acc * 10 + d) * K) * UNIT - r) in *.
  pose proof (Z.abs_triangle (a * K) b) as Ht. rewrite Z.abs_mul, (Z.abs_eq K) in Ht by lia.
  assert (HaK : 2 ^ 64 * Z.abs a * K <= 10 * UNIT * K) by (apply Z.mul_le_mono_nonneg_r; lia).
  assert (0 < UNIT * K) by (apply Z.mul_pos_pos; lia). clearbody a b K. lia.
Qed.

(** ** Accuracy *)

Definition half_unit_ok (p : nat) : bool :=
  match half_unit p with
  | Finite false m e =>
      (0 <? m) && (m <? MANTISSA_END) && (-200 <=? e) && (e <? 0) &&
      (2 ^ 64 * Z.abs (2 * m * 10 ^ Z.of_nat p - 2 ^ (- e)) <=? 40 * 2 ^ (- e))
  | _ => false
  end.

(** Half a unit of the last digit, for each number of digits there is. *)
Lemma half_unit_spec p : 0 <= p <= MAX_FLOAT_PRECISION -> exists m e,
  half_unit (Z.to_nat p) = Finite false m e /\ 0 < m < MANTISSA_END /\ -200 <= e < 0 /\
  2 ^ 64 * Z.abs (2 * units (half_unit (Z.to_nat p)) * 10 ^ p - UNIT) <= 40 * UNIT.
Proof.
  intros Hp. assert (Hall : forallb half_unit_ok (seq 0 19) = true) by by vm_compute.
  rewrite forallb_forall in Hall. specialize (Hall (Z.to_nat p)).
  unfold MAX_FLOAT_PRECISION in Hp. rewrite in_seq in Hall. specialize (Hall ltac:(lia)). unfold half_unit_ok in Hall.
  destruct (half_unit (Z.to_nat p)) as [| |[] m e]; try done. rewrite Z2Nat.id in Hall by lia.
  exists m, e. split; [done|]. split; [lia|]. split; [lia|]. cbn [units].
  rewrite (UNIT_split e) by (unfold EXPONENT_MIN; lia). assert (HU : 0 < 2 ^ (e - EXPONENT_MIN)) by (unfold EXPONENT_MIN; lia).
  set (U := 2 ^ (e - EXPONENT_MIN)) in *. replace (2 * (m * U) * 10 ^ p - 2 ^ (- e) * U) with ((2 * m * 10 ^ p - 2 ^ (- e)) * U) by ring.
  rewrite Z.abs_mul, (Z.abs_eq U) by lia. set (a := Z.abs _) in *. assert (2 ^ 64 * a <= 40 * 2 ^ (- e)) by lia. nia.
Qed.

(** A number at or above 0, and not above the largest that is printed. *)
Record printable (x : long_double) : Prop := {
  printable_form : exists s m e, x = Finite s m e /\ 0 <= m < MANTISSA_END /\ EXPONENT_MIN <= e /\ (s = true -> m = 0);
  printable_bound : ld_lt (ld_of 18446744073709551615) x = false;
}.

Lemma printable_units x : printable x -> 0 <= units x <= (2 ^ 64 - 1) * UNIT.
Proof.
  intros [(s & m & e & -> & Hm & He & Hs) Hlt]. cbn [units]. split; [apply Z.mul_nonneg_nonneg; lia|].
  cbn [ld_lt ld_of signed_mantissa] in Hlt. set (g := Z.min 0 e) in *.
  assert (Hle : m * 2 ^ (e - g) <= (2 ^ 64 - 1) * 2 ^ (0 - g)).
  { destruct s; [rewrite Hs by done; rewrite Z.mul_0_l; lia|]. cbn [signed_mantissa] in Hlt. lia. }
  assert (Hg : EXPONENT_MIN <= g <= 0) by (unfold g, EXPONENT_MIN in *; lia).
  rewrite (UNIT_split g) by done. replace (- g) with (0 - g) by lia.
  replace (e - EXPONENT_MIN) with ((e - g) + (g - EXPONENT_MIN)) by lia. rewrite Z.pow_add_r by lia.
  assert (0 < 2 ^ (g - EXPONENT_MIN)) by lia. set (V := 2 ^ (g - EXPONENT_MIN)) in *. nia.
Qed.

(** The number with half a unit of its last digit added: its error, and that it stays below [2 ^ 64]. *)
Lemma sum_spec x p : printable x -> 0 <= p <= MAX_FLOAT_PRECISION ->
  let r := half_unit (Z.to_nat p) in
  exists m e, ld_add x r = Finite false m e /\ 0 <= m < MANTISSA_END /\ EXPONENT_MIN <= e /\
    2 ^ 64 * Z.abs (units (ld_add x r) - (units x + units r)) <= units x + units r /\
    (2 * (units x + units r) < (2 ^ 65 - 1) * UNIT -> units (ld_add x r) < 2 ^ 64 * UNIT).
Proof.
  intros Hx Hp. cbn zeta. pose proof (printable_units x Hx) as Hxu. pose proof UNIT_pos as HU.
  destruct (half_unit_spec p Hp) as (mr & er & Er & Hmr & Her & Hr). rewrite Er in *.
  assert (Hru : 0 < units (Finite false mr er) < UNIT).
  { split; [cbn [units]; apply Z.mul_pos_pos; unfold EXPONENT_MIN; lia|].
    assert (1 <= 10 ^ p) by lia. set (u := units (Finite false mr er)) in *. set (K := 10 ^ p) in *. clearbody u K.
    assert (u <= u * K \/ u <= 0) by nia. lia. }
  destruct Hx as [(s & m & e & -> & Hm & He & Hs) _].
  set (g := Z.min e er). assert (Hg : EXPONENT_MIN <= g < 0) by (unfold g, EXPONENT_MIN in *; lia).
  set (n := m * 2 ^ (e - g) + mr * 2 ^ (er - g)). set (V := 2 ^ (g - EXPONENT_MIN)). assert (HV : 0 < V) by (unfold V; lia).
  assert (Hnpos : 0 < n).
  { assert (0 <= m * 2 ^ (e - g)) by (apply Z.mul_nonneg_nonneg; lia). assert (0 < mr * 2 ^ (er - g)) by (apply Z.mul_pos_pos; lia). lia. }
  assert (En : units (Finite s m e) + units (Finite false mr er) = n * V).
  { cbn [units]. unfold n, V. replace (e - EXPONENT_MIN) with ((e - g) + (g - EXPONENT_MIN)) by lia.
    replace (er - EXPONENT_MIN) with ((er - g) + (g - EXPONENT_MIN)) by lia. rewrite !Z.pow_add_r by lia. ring. }
  assert (EU : UNIT = 2 ^ (- g) * V) by (apply UNIT_split; lia).
  assert (Hn64 : n < 2 ^ (64 + - g)) by (rewrite Z.pow_add_r by lia; nia).
  assert (Eadd : ld_add (Finite s m e) (Finite false mr er) = ld_round false n 1 g).
  { unfold ld_add. fold g. cbn [signed_mantissa].
    replace (signed_mantissa s (m * 2 ^ (e - g)) + mr * 2 ^ (er - g)) with n.
    2:{ destruct s; [rewrite Hs by done | done]. unfold n. rewrite (Hs eq_refl). cbn [signed_mantissa]. lia. }
    replace (n =? 0) with false by lia. replace (n <? 0) with false by lia. by rewrite Z.abs_eq by lia. }
  destruct (ld_round_spec false n g) as (my & j & E & Hmy & Hj & Hhalf & Herr & _); [lia | lia | |].
  { right. assert (Z.log2 n < 64 + - g) by (apply Z.log2_lt_pow2; lia). unfold EXPONENT_END. lia. }
  rewrite Eadd, E. exists my, (g + j). split; [done|]. split; [done|]. split; [lia|].
  assert (Ey : units (Finite false my (g + j)) = my * 2 ^ j * V).
  { cbn [units]. replace (g + j - EXPONENT_MIN) with (j + (g - EXPONENT_MIN)) by lia. rewrite Z.pow_add_r by lia. unfold V. ring. }
  rewrite Ey, En. replace (my * 2 ^ j * V - n * V) with ((my * 2 ^ j - n) * V) by ring.
  rewrite Z.abs_mul, (Z.abs_eq V) by lia. split; [rewrite Z.mul_assoc; apply Z.mul_le_mono_nonneg_r; lia|]. rewrite EU.
  assert (Hd : 2 ^ dropped n <= 2 ^ (- g)) by (apply Z.pow_le_mono_r; [lia | apply dropped_small; lia]). intros Hlt.
  set (P := my * 2 ^ j) in *. set (G := 2 ^ (- g)) in *. assert (2 * P <= 2 * n + G) by lia.
  rewrite !Z.mul_assoc in *.
  apply Z.mul_lt_mono_pos_r in Hlt; [|done]. apply Z.mul_lt_mono_pos_r; [done | lia].
Qed.

Lemma whole_rest m e : 0 <= m < MANTISSA_END -> EXPONENT_MIN <= e -> exists i,
  let y := Finite false m e in
  ld_truncate y = Some i /\ 0 <= i /\ fraction (ld_sub y (ld_of i)) /\ units y = i * UNIT + units (ld_sub y (ld_of i)).
Proof.
  intros Hm He. cbn zeta. destruct (Z_le_gt_dec e 0) as [Hle|Hgt].
  - assert (Hb : below (2 ^ 64) (Finite false m e) m e).
    { split; try done. unfold MANTISSA_END in *. assert (1 <= 2 ^ (- e)) by lia. nia. }
    destruct (below_rest _ _ _ _ Hb) as [Hr E]. exists (m / 2 ^ (- e)). split; [by eapply below_truncate|].
    split; [apply Z.div_pos; lia|]. split; [by eexists _, _ | done].
  - exists (m * 2 ^ e). cbn [ld_truncate signed_mantissa]. rewrite (proj2 (Z.leb_le 0 e)) by lia. split; [done|].
    split; [apply Z.mul_nonneg_nonneg; lia|].
    assert (E : ld_sub (Finite false m e) (ld_of (m * 2 ^ e)) = Finite false 0 0).
    { unfold ld_sub, ld_of, ld_opp, ld_add, signed_mantissa. cbn [negb]. rewrite Z.min_r by lia. rewrite !Z.sub_0_r, Z.mul_1_r.
      rewrite Z.add_opp_diag_r. by vm_compute. }
    rewrite E. split.
    + exists 0, 0. split; [done | unfold MANTISSA_END; lia | unfold EXPONENT_MIN; lia | done].
    + cbn [units]. rewrite Z.mul_0_l, Z.add_0_r. unfold UNIT. rewrite <- Z.mul_assoc, <- Z.pow_add_r by (unfold EXPONENT_MIN; lia).
      do 2 f_equal.
Qed.

(** The decimal number is at most half a unit of its last digit, and [(x + 24) / 2 ^ 64], from the value [x]. *)
Definition close_to (x : long_double) (n p : Z) : Prop :=
  2 ^ 64 * Z.abs (units x * 10 ^ p - n * UNIT) <= 2 ^ 63 * UNIT + (units x + 24 * UNIT) * 10 ^ p.

(** The parts of the printed number: what fits the integer type, and a fraction. *)
Lemma fixed_point_parts x p : printable x -> 0 <= p <= MAX_FLOAT_PRECISION -> exists i f,
  ld_truncate (ld_add x (half_unit (Z.to_nat p))) = Some i /\ 0 <= i /\
  ld_sub (ld_add x (half_unit (Z.to_nat p))) (ld_of i) = f /\ fraction f /\
  units (ld_add x (half_unit (Z.to_nat p))) = i * UNIT + units f.
Proof.
  intros Hx Hp. destruct (sum_spec x p Hx Hp) as (m & e & E & Hm & He & _). rewrite E.
  destruct (whole_rest m e Hm He) as (i & Et & Hi & Hf & Eu). by exists i, (ld_sub (Finite false m e) (ld_of i)).
Qed.

Lemma fixed_point_close x p n : printable x -> 0 <= p <= MAX_FLOAT_PRECISION ->
  fixed_point (Z.to_nat p) x = Some n -> 0 <= n /\ n / 10 ^ p < 2 ^ 64 /\ close_to x n p.
Proof.
  intros Hx Hp Hn. destruct (fixed_point_parts x p Hx Hp) as (i & f & Et & Hi & Ef & Hf & Eu).
  destruct (sum_spec x p Hx Hp) as (m & e & _ & _ & _ & Hsum & _).
  destruct (half_unit_spec p Hp) as (mr & er & Er & _ & _ & Hr). pose proof (printable_units x Hx) as Hxu.
  unfold fixed_point, ld_to_unsigned in Hn. rewrite Et in Hn. destruct ((0 <=? i) && (i <? 2 ^ 64)) eqn:Ei; [|done].
  cbn [mbind option_bind] in Hn. rewrite Ef in Hn. injection Hn as <-.
  destruct (fraction_digits_prefix (Z.to_nat p) f i Hf Hi) as [Hpos Hdiv].
  destruct (fraction_digits_error (Z.to_nat p) f i Hf Hi) as (r & Hrange & Hdig). rewrite Z2Nat.id in * by lia.
  split; [done|]. split; [lia|]. unfold close_to. pose proof UNIT_pos as HU.
  set (y := units (ld_add x (half_unit (Z.to_nat p)))) in *. set (h := units (half_unit (Z.to_nat p))) in *.
  set (N := fraction_digits (Z.to_nat p) f i) in *. assert (HK : 1 <= 10 ^ p) by lia. set (K := 10 ^ p) in *.
  set (U := UNIT) in *. set (ux := units x) in *. set (uf := units f) in *. clearbody y h N K U ux uf.
  assert (E : ux * K - N * U = (r - h * K) + (uf * K - (N - i * K) * U - r) - (y - (ux + h)) * K) by (subst y; ring).
  rewrite E. set (a := uf * K - (N - i * K) * U - r) in *. set (b := y - (ux + h)) in *.
  assert (Hb : 2 ^ 64 * Z.abs (b * K) <= ux * K + h * K).
  { rewrite Z.abs_mul, (Z.abs_eq K), Z.mul_assoc by lia. rewrite <- Z.mul_add_distr_r. apply Z.mul_le_mono_nonneg_r; lia. }
  assert (HUK : U <= U * K) by (rewrite <- (Z.mul_1_r U) at 1; apply Z.mul_le_mono_nonneg_l; lia).
  rewrite Z.mul_sub_distr_l, Z.mul_1_r in Hdig. rewrite <- Z.mul_assoc in Hr, Hdig. rewrite Z.mul_add_distr_r, <- (Z.mul_assoc 24).
  set (hk := h * K) in *. set (xk := ux * K) in *. set (uk := U * K) in *. set (bk := b * K) in *.
  clearbody a bk hk xk uk. clear - Hr Hb Hdig Hrange HUK HU. lia.
Qed.

(** Every printable number has a text, but for the largest without digits after the point. *)
Lemma fixed_point_defined x p : printable x -> 0 <= p <= MAX_FLOAT_PRECISION ->
  p = 0 /\ units x = (2 ^ 64 - 1) * UNIT \/ fixed_point (Z.to_nat p) x <> None.
Proof.
  intros Hx Hp. destruct (fixed_point_parts x p Hx Hp) as (i & f & Et & Hi & Ef & Hf & Eu).
  destruct (sum_spec x p Hx Hp) as (m & e & _ & _ & _ & _ & Hsum). pose proof UNIT_pos as HU.
  pose proof (printable_units x Hx) as Hxu. destruct Hf as (mf & ef & Hf). pose proof (below_units _ _ _ _ Hf) as (_ & _ & Hfu).
  unfold fixed_point, ld_to_unsigned. rewrite Et. rewrite (proj2 (Z.leb_le 0 i)) by done. cbn [andb].
  destruct (Z.ltb_spec i (2 ^ 64)) as [Hlt|Hge]; [by right | left].
  assert (Hno : ~ 2 * (units x + units (half_unit (Z.to_nat p))) < (2 ^ 65 - 1) * UNIT).
  { intros H%Hsum. rewrite Eu in H. assert (2 ^ 64 * UNIT <= i * UNIT) by (apply Z.mul_le_mono_nonneg_r; lia). lia. }
  destruct (Z.eq_dec p 0) as [->|Hne].
  - split; [done|]. assert (E : 2 * units (half_unit (Z.to_nat 0)) = UNIT) by by vm_compute. lia.
  - exfalso. destruct (half_unit_spec p Hp) as (mr & er & Er & Hmr & Her & Hr).
    assert (H10 : 10 <= 10 ^ p) by (pose proof (Z.pow_le_mono_r 10 1 p); lia).
    assert (Hh : 0 <= units (half_unit (Z.to_nat p))).
    { rewrite Er. cbn [units]. apply Z.mul_nonneg_nonneg; lia. }
    set (h := units (half_unit (Z.to_nat p))) in *. set (K := 10 ^ p) in *. set (ux := units x) in *. set (U := UNIT) in *.
    clearbody h K ux U. assert (10 * h <= h * K) by nia. rewrite <- Z.mul_assoc in Hr. set (hk := h * K) in *. clearbody hk. lia.
Qed.

(** A printed number reads back: before the point its integer part, after it the digits of the rest. *)
Lemma fixed_point_text x p n i : printable x -> 0 <= p <= MAX_FLOAT_PRECISION ->
  ld_to_unsigned 64 (ld_add x (half_unit (Z.to_nat p))) = Some i ->
  fixed_point (Z.to_nat p) x = Some n -> n / 10 ^ p = i /\ 0 <= i < 2 ^ 64.
Proof.
  intros Hx Hp Ei Hn. destruct (fixed_point_parts x p Hx Hp) as (i' & f & Et & Hi & Ef & Hf & Eu).
  unfold fixed_point in Hn. rewrite Ei in Hn. cbn [mbind option_bind] in Hn. injection Hn as <-.
  unfold ld_to_unsigned in Ei. rewrite Et in Ei. destruct ((0 <=? i') && (i' <? 2 ^ 64)) eqn:E; [|done]. injection Ei as <-.
  rewrite Ef. destruct (fraction_digits_prefix (Z.to_nat p) f i' Hf Hi) as [_ Hdiv]. rewrite Z2Nat.id in Hdiv by lia. lia.
Qed.
