(* ===== verification/FormatGrammar.v ===== *)
(** * FormatGrammar: the language of replacement fields

    The fields that a format may hold, as concrete syntax with a meaning, independent of the parser
    of [Format.v]; and that the parser reads exactly this language.  A field is
    [{}] or [{:] followed by, each optional and in this order, a fill character with an alignment
    [<], [>] or [^], a sign [+] or a blank, [#], [0], the digits of a width, a period with the
    digits of a precision, one of the letters [d x X p f s c], and the closing brace. *)

From S2P Require Import Prelude Containers Format.

#[local] Open Scope Z_scope.

(** ** The syntax *)

(** The parts of a field between the colon and the closing brace. *)
Record field_body : Type := {
  body_fill : option char;
  body_align : format_align;
  body_sign : format_sign;
  body_alternate : bool;
  body_zero : bool;
  body_width : list char;
  body_precision : option (list char);
  body_type : presentation;
}.

Inductive field_syntax : Type :=
| Braces
| Colon (body : field_body).

Definition align_letter (a : format_align) : list char :=
  chars match a with ALIGN_DEFAULT => "" | LEFT => "<" | RIGHT => ">" | CENTER => "^" end.

Definition sign_letter (x : format_sign) : list char :=
  chars match x with SIGN_DEFAULT => "" | PLUS => "+" | SPACE => " " end.

Definition type_letter (p : presentation) : list char :=
  chars match p with
  | PRESENTATION_DEFAULT => ""
  | DECIMAL => "d"
  | HEX_LOWER => "x"
  | HEX_UPPER => "X"
  | POINTER => "p"
  | FIXED => "f"
  | STRING => "s"
  | CHARACTER => "c"
  end.

Definition type_part (b : field_body) : list char := type_letter (body_type b) ++ chars "}".

Definition precision_text (p : option (list char)) : list char :=
  match p with
  | Some digits => chars "." ++ digits
  | None => []
  end.

Definition precision_part (b : field_body) : list char :=
  precision_text (body_precision b) ++ type_part b.

Definition width_part (b : field_body) : list char := body_width b ++ precision_part b.

Definition zero_part (b : field_body) : list char :=
  chars (if body_zero b then "0" else "") ++ width_part b.

Definition alternate_part (b : field_body) : list char :=
  chars (if body_alternate b then "#" else "") ++ zero_part b.

Definition sign_part (b : field_body) : list char := sign_letter (body_sign b) ++ alternate_part b.

(** The body with the brace that closes it. *)
Definition body_text (b : field_body) : list char :=
  option_list (body_fill b) ++ align_letter (body_align b) ++ sign_part b.

Definition field_text (f : field_syntax) : list char :=
  match f with
  | Braces => chars "{}"
  | Colon b => chars "{:" ++ body_text b
  end.

(** ** The meaning *)

Definition is_digit (c : char) : Prop := chr "0" <= c <= chr "9".

Definition decimal (digits : list char) : Z := foldl (fun n c => n * 10 + (c - chr "0")) 0 digits.

(** Numbers are read into 64 bits. *)
Definition number (digits : list char) : Z := decimal digits mod 2 ^ 64.

Definition body_spec (b : field_body) : format_spec := {|
  presentation_value := body_type b;
  align := match body_align b with
    | ALIGN_DEFAULT => if body_zero b then RIGHT else ALIGN_DEFAULT
    | a => a
    end;
  sign := body_sign b;
  fill := default (chr " ") (body_fill b);
  alternate := body_alternate b;
  zero_pad := body_zero b;
  has_width := negb (bool_decide (body_width b = []));
  width := number (body_width b);
  has_precision := bool_decide (is_Some (body_precision b));
  precision := number (default [] (body_precision b));
|}.

Definition meaning (f : field_syntax) : format_spec :=
  match f with
  | Braces => default_format_spec
  | Colon b => body_spec b
  end.

(** ** The fields that are accepted *)

Definition starts_with (p : list char) (l : list char) : Prop :=
  match l with [] => False | c :: _ => c ∈ p end.

Definition precision_ok (p : option (list char)) : Prop :=
  match p with
  | Some digits => digits <> [] /\ Forall is_digit digits /\ number digits <= 18
  | None => True
  end.

(** A fill comes with an alignment; the first [0] is the flag, not a digit of the width; the numbers
    keep to their limits. *)
Record body_ok (b : field_body) : Prop := {
  ok_fill : body_align b = ALIGN_DEFAULT -> body_fill b = None;
  ok_zero : body_zero b = false -> ~ starts_with (chars "0") (body_width b);
  ok_width : Forall is_digit (body_width b) /\ number (body_width b) <= 128;
  ok_precision : precision_ok (body_precision b);
}.

(** A field with the text that follows it: as a brace can be a fill, [{:}] must not be followed by
    the letter of an alignment. *)
Definition field_ok (f : field_syntax) (rest : list char) : Prop :=
  match f with
  | Braces => True
  | Colon b => body_ok b /\ (body_text b = chars "}" -> ~ starts_with (chars "<>^") rest)
  end.

(** The format has the field at the offset. *)
Definition field_at (fmt : list char) (offset : Z) (f : field_syntax) : Prop :=
  exists rest, drop (Z.to_nat offset) fmt = field_text f ++ rest /\ field_ok f rest.

(** ** Alternatives by the first character *)

Lemma starts_with_dec p l : {starts_with p l} + {~ starts_with p l}.
Proof. destruct l as [|c l]; [right; cbn; tauto | exact (decide (c ∈ p))]. Defined.

(** A class of first characters, and one it does not meet. *)
Lemma starts_apart p q l : bool_decide (Forall (fun c => c ∉ q) p) = true ->
  starts_with p l -> ~ starts_with q l.
Proof.
  intros Hall%bool_decide_eq_true Hp Hq. destruct l as [|c l]; [done|].
  rewrite Forall_forall in Hall. by apply (Hall c).
Qed.

Ltac apart H := eapply starts_apart; [|exact H]; reflexivity.

Lemma starts_mono p q l : bool_decide (Forall (fun c => c ∈ q) p) = true ->
  starts_with p l -> starts_with q l.
Proof.
  intros Hall%bool_decide_eq_true Hp. destruct l as [|c l]; [done|].
  rewrite Forall_forall in Hall. by apply Hall.
Qed.

Lemma align_of_char c : c ∈ chars "<>^" -> exists a, a <> ALIGN_DEFAULT /\ align_letter a = [c].
Proof.
  intros Hc. repeat (apply elem_of_cons in Hc as [->|Hc]); [by exists LEFT | by exists RIGHT | by exists CENTER|].
  by apply elem_of_nil in Hc.
Qed.

Lemma type_of_char c : c ∈ chars "dxXpfsc" -> exists p, p <> PRESENTATION_DEFAULT /\ type_letter p = [c].
Proof.
  intros Hc. repeat (apply elem_of_cons in Hc as [->|Hc]);
    [by exists DECIMAL | by exists HEX_LOWER | by exists HEX_UPPER | by exists POINTER | by exists FIXED
    | by exists STRING | by exists CHARACTER|]. by apply elem_of_nil in Hc.
Qed.

(** ** Reading a suffix of the format *)
Section Reading.
Context (fmt : list char).

(** The rest of the format from an index. *)
Definition reads (i : Z) (t : list char) : Prop :=
  0 <= i <= zlen fmt /\ drop (Z.to_nat i) fmt = t.

Lemma reads_length i t : reads i t -> zlen t = zlen fmt - i.
Proof. intros [Hi <-]. unfold zlen in *. rewrite length_drop. lia. Qed.

Lemma reads_cons i c t : reads i (c :: t) ->
  (i <? zlen fmt) = true /\ (zlen fmt <=? i) = false /\ znth fmt i = c /\ reads (i + 1) t.
Proof.
  intros Hr. pose proof (reads_length _ _ Hr) as Hl. rewrite zlen_cons in Hl.
  pose proof (zlen_nonneg t). destruct Hr as [Hi Hd].
  split; [lia|]. split; [lia|]. split.
  - pose proof (lookup_drop fmt (Z.to_nat i) 0) as Hn. rewrite Hd, Nat.add_0_r in Hn.
    unfold znth. by apply list_lookup_total_correct.
  - split; [lia|]. replace (Z.to_nat (i + 1)) with (Z.to_nat i + 1)%nat by lia.
    by rewrite <- drop_drop, Hd.
Qed.

Lemma reads_nil i : reads i [] -> (i <? zlen fmt) = false /\ (zlen fmt <=? i) = true.
Proof. intros Hr%reads_length. rewrite zlen_nil in Hr. lia. Qed.

Lemma reads_app i p t : reads i (p ++ t) -> reads (i + zlen p) t.
Proof.
  revert i. induction p as [|c p IH]; intros i Hr.
  - by rewrite zlen_nil, Z.add_0_r.
  - apply reads_cons in Hr as (_ & _ & _ & Hr). apply IH in Hr.
    rewrite zlen_cons. by replace (i + (1 + zlen p)) with (i + 1 + zlen p) by lia.
Qed.

(** *** Numbers *)

Lemma is_format_digit_spec c : is_format_digit c = true <-> is_digit c.
Proof. unfold is_format_digit, is_digit. rewrite andb_true_iff. lia. Qed.

Definition from (n : Z) (digits : list char) : Z := foldl (fun n c => n * 10 + (c - chr "0")) n digits.

Lemma from_wrap n digits : from (u64 n) digits mod 2 ^ 64 = from n digits mod 2 ^ 64.
Proof.
  revert n. induction digits as [|c digits IH]; intros n; cbn.
  - unfold u64, wrap. by rewrite Z.mod_mod.
  - fold (from (u64 n * 10 + (c - chr "0")) digits). fold (from (n * 10 + (c - chr "0")) digits).
    rewrite <- (IH (u64 n * 10 + _)), <- (IH (n * 10 + _)). f_equal. f_equal.
    unfold u64, wrap. by rewrite Zplus_mod, Zmult_mod, Z.mod_mod, <- Zmult_mod, <- Zplus_mod by lia.
Qed.

(** The digits that are read: all of them. *)
Lemma parse_digits_reads fuel n i t :
  reads i t -> (length t <= fuel)%nat -> 0 <= n < 2 ^ 64 ->
  exists digits rest, t = digits ++ rest /\ Forall is_digit digits /\
    ~ starts_with (chars "0123456789") rest /\
    parse_digits fmt fuel n i = (from n digits mod 2 ^ 64, i + zlen digits).
Proof.
  revert n i t. induction fuel as [|fuel IH]; intros n i t Hr Hfuel Hn.
  { destruct t; [|cbn in Hfuel; lia]. exists [], []. cbn. rewrite zlen_nil, Z.mod_small, Z.add_0_r by lia.
    by split_and!; [|constructor|tauto|]. }
  cbn [parse_digits]. destruct t as [|c t].
  { destruct (reads_nil _ Hr) as [-> _]. cbn. exists [], []. cbn.
    rewrite zlen_nil, Z.mod_small, Z.add_0_r by lia. by split_and!; [|constructor|tauto|]. }
  destruct (reads_cons _ _ _ Hr) as (-> & _ & -> & Hr'). cbn [andb].
  destruct (is_format_digit c) eqn:Hc.
  - destruct (IH (u64 (n * 10 + format_digit_value c)) (i + 1) t Hr' ltac:(cbn in Hfuel; lia))
      as (digits & rest & -> & Hd & Hrest & ->); [apply wrap_range; lia|].
    exists (c :: digits), rest. split; [done|]. split; [constructor; [by apply is_format_digit_spec | done]|].
    split; [done|]. rewrite from_wrap, zlen_cons. f_equal. lia.
  - exists [], (c :: t). cbn. rewrite zlen_nil, Z.mod_small, Z.add_0_r by lia.
    split; [done|]. split; [constructor|]. split; [|done]. intros Hin.
    assert (Hall : Forall is_digit (chars "0123456789")) by (by repeat constructor; unfold is_digit; vm_compute).
    rewrite Forall_forall in Hall. apply Hall, is_format_digit_spec in Hin. congruence.
Qed.

Lemma parse_number_reads i t :
  reads i t -> exists digits rest, t = digits ++ rest /\ Forall is_digit digits /\
    ~ starts_with (chars "0123456789") rest /\ parse_number fmt 0 i = (number digits, i + zlen digits).
Proof.
  intros Hr. apply parse_digits_reads; [done | | lia].
  apply reads_length in Hr as Hl. destruct Hr as [? _]. unfold zlen in *. lia.
Qed.

Lemma is_format_align_spec c : is_format_align c = true <-> c ∈ chars "<>^".
Proof.
  unfold is_format_align. rewrite !orb_true_iff, !Z.eqb_eq. change (chars "<>^") with [chr "<"; chr ">"; chr "^"].
  rewrite !elem_of_cons, elem_of_nil. tauto.
Qed.

Lemma no_align c t : ~ starts_with (chars "<>^") (c :: t) -> is_format_align c = false.
Proof. intros Hc. apply not_true_iff_false. intros Ha. by apply Hc, is_format_align_spec. Qed.

(** *** The stages of the parser *)

Lemma split_align t : t <> [] -> exists fill a t',
  t = option_list fill ++ align_letter a ++ t' /\ (a = ALIGN_DEFAULT -> fill = None) /\
  (fill = None -> ~ starts_with (chars "<>^") (drop 1 t)) /\
  (a = ALIGN_DEFAULT -> ~ starts_with (chars "<>^") t').
Proof.
  destruct t as [|c t]; [done|]. intros _. destruct (starts_with_dec (chars "<>^") t) as [Hs|Hs].
  - destruct t as [|d t]; [done|]. destruct (align_of_char d Hs) as (a & Ha & Hl).
    exists (Some c), a, t. by rewrite Hl.
  - destruct (starts_with_dec (chars "<>^") (c :: t)) as [Hc|Hc].
    + destruct (align_of_char c Hc) as (a & Ha & Hl). exists None, a, t. by rewrite Hl.
    + by exists None, ALIGN_DEFAULT, (c :: t).
Qed.

Lemma parse_align_reads i fill a t :
  reads i (option_list fill ++ align_letter a ++ t) -> option_list fill ++ align_letter a ++ t <> [] ->
  (a = ALIGN_DEFAULT -> fill = None) ->
  (fill = None -> ~ starts_with (chars "<>^") (drop 1 (align_letter a ++ t))) ->
  (a = ALIGN_DEFAULT -> ~ starts_with (chars "<>^") t) ->
  parse_align fmt (default_format_spec, i) =
    (with_align a (with_fill (default (chr " ") fill) default_format_spec),
     i + zlen (option_list fill ++ align_letter a)).
Proof.
  intros Hr Hne Hfill Hnext Hfirst. unfold parse_align. destruct fill as [c|].
  - assert (exists d, align_letter a = [d] /\ is_format_align d = true /\ parse_format_align d = a)
      as (d & Hd & Hal & Hpa) by (destruct a; [by specialize (Hfill eq_refl)|by eexists..]).
    rewrite Hd in *. cbn in Hr. destruct (reads_cons _ _ _ Hr) as (_ & _ & -> & Hr').
    destruct (reads_cons _ _ _ Hr') as (-> & _ & -> & _). cbn [andb]. by rewrite Hal, Hpa.
  - cbn [option_list app] in *. specialize (Hnext eq_refl).
    destruct (align_letter a ++ t) as [|c t1] eqn:Ht; [done|].
    destruct (reads_cons _ _ _ Hr) as (_ & _ & -> & Hr'). cbn in Hnext.
    assert (Hno : (i + 1 <? zlen fmt) && is_format_align (znth fmt (i + 1)) = false).
    { destruct t1 as [|d t1]; [by destruct (reads_nil _ Hr') as [-> _]|].
      destruct (reads_cons _ _ _ Hr') as (-> & _ & -> & _). by eapply no_align. }
    rewrite Hno. destruct a; cbn in Ht; try (by injection Ht as <- _).
    subst t. rewrite (no_align _ _ (Hfirst eq_refl)). f_equal. cbn. rewrite zlen_nil. lia.
Qed.

Lemma split_sign t : exists x t', t = sign_letter x ++ t' /\
  (x = SIGN_DEFAULT -> ~ starts_with (chars "+ ") t').
Proof.
  destruct (starts_with_dec (chars "+ ") t) as [Hs|Hs]; [|by exists SIGN_DEFAULT, t].
  destruct t as [|c t]; [done|]. cbn in Hs. apply elem_of_cons in Hs as [->|Hs].
  - by exists PLUS, t.
  - apply list_elem_of_singleton in Hs as ->. by exists SPACE, t.
Qed.

Lemma parse_sign_reads i x t spec :
  reads i (sign_letter x ++ t) -> (x = SIGN_DEFAULT -> ~ starts_with (chars "+ ") t) ->
  sign spec = SIGN_DEFAULT ->
  parse_sign fmt (spec, i) = (with_sign x spec, i + zlen (sign_letter x)).
Proof.
  intros Hr Hno Hs. unfold parse_sign. destruct x; cbn in Hr.
  - specialize (Hno eq_refl). replace (with_sign SIGN_DEFAULT spec) with spec by (destruct spec; cbn in *; by subst).
    change (zlen (sign_letter SIGN_DEFAULT)) with 0. rewrite Z.add_0_r.
    destruct t as [|c t]; [by destruct (reads_nil _ Hr) as [-> _]|].
    destruct (reads_cons _ _ _ Hr) as (-> & _ & -> & _). cbn [andb].
    destruct (Z.eqb_spec c (chr "+")) as [->|]; [by destruct Hno; left|].
    destruct (Z.eqb_spec c (chr " ")) as [->|]; [by destruct Hno; right; left | done].
  - by destruct (reads_cons _ _ _ Hr) as (-> & _ & -> & _).
  - by destruct (reads_cons _ _ _ Hr) as (-> & _ & -> & _).
Qed.

(** A flag of one character. *)
Lemma split_flag (c : string) t : zlen (chars c) = 1 -> exists (b : bool) t',
  t = chars (if b then c else "") ++ t' /\ (b = false -> ~ starts_with (chars c) t').
Proof.
  intros Hc. destruct (starts_with_dec (chars c) t) as [Hs|Hs]; [|by exists false, t].
  destruct t as [|d t]; [done|]. destruct (chars c) as [|e [|]] eqn:Hcs; cbn in Hc; try (unfold zlen in Hc; cbn in Hc; lia).
  cbn in Hs. apply list_elem_of_singleton in Hs as ->. exists true, t. by rewrite Hcs.
Qed.

Lemma flag_read i c (b : bool) t : zlen (chars c) = 1 ->
  reads i (chars (if b then c else "") ++ t) -> (b = false -> ~ starts_with (chars c) t) ->
  (i <? zlen fmt) && (znth fmt i =? chr c) = b /\
  zlen (chars (if b then c else "")) = if b then 1 else 0.
Proof.
  intros Hc Hr Hno. destruct (chars c) as [|e [|]] eqn:Hcs; try (unfold zlen in Hc; cbn in Hc; lia).
  assert (Hchr : chr c = e) by (unfold chr; by rewrite Hcs).
  destruct b; cbn in Hr |- *.
  - rewrite Hcs in Hr |- *. destruct (reads_cons _ _ _ Hr) as (-> & _ & -> & _). by rewrite Hchr, Z.eqb_refl.
  - specialize (Hno eq_refl). split; [|done].
    destruct t as [|d t]; [by destruct (reads_nil _ Hr) as [-> _]|].
    destruct (reads_cons _ _ _ Hr) as (-> & _ & -> & _). cbn. rewrite Hchr. apply Z.eqb_neq. intros ->.
    destruct Hno. by left.
Qed.

Lemma parse_alternate_reads i (b : bool) t spec :
  reads i (chars (if b then "#" else "") ++ t) -> (b = false -> ~ starts_with (chars "#") t) ->
  parse_alternate fmt (spec, i) =
    (if b then with_alternate spec else spec, i + zlen (chars (if b then "#" else ""))).
Proof.
  intros Hr Hno. unfold parse_alternate.
  destruct (flag_read i "#" b t ltac:(done) Hr Hno) as [-> ->]. by destruct b; rewrite ?Z.add_0_r.
Qed.

Definition zero_flag (spec : format_spec) : format_spec :=
  let spec := with_zero_pad spec in
  if bool_decide (align spec = ALIGN_DEFAULT) then with_align RIGHT spec else spec.

Lemma parse_zero_reads i (b : bool) t spec :
  reads i (chars (if b then "0" else "") ++ t) -> (b = false -> ~ starts_with (chars "0") t) ->
  parse_zero fmt (spec, i) =
    (if b then zero_flag spec else spec, i + zlen (chars (if b then "0" else ""))).
Proof.
  intros Hr Hno. unfold parse_zero.
  destruct (flag_read i "0" b t ltac:(done) Hr Hno) as [-> ->]. by destruct b; rewrite ?Z.add_0_r.
Qed.

Lemma digits_unique d1 t1 d2 t2 :
  d1 ++ t1 = d2 ++ t2 -> Forall is_digit d1 -> Forall is_digit d2 ->
  ~ starts_with (chars "0123456789") t1 -> ~ starts_with (chars "0123456789") t2 -> d1 = d2 /\ t1 = t2.
Proof.
  assert (Hin : forall c, is_digit c -> c ∈ chars "0123456789").
  { intros c Hc. assert (Hs : c ∈ seqZ 48 10) by (apply elem_of_seqZ; unfold is_digit in Hc; change (chr "0") with 48 in Hc;
      change (chr "9") with 57 in Hc; lia). exact Hs. }
  revert d2. induction d1 as [|c d1 IH]; intros [|c2 d2] Heq H1 H2 Ht1 Ht2; cbn in Heq.
  - done.
  - exfalso. subst t1. apply Ht1, Hin. by inversion H2.
  - exfalso. subst t2. apply Ht2, Hin. by inversion H1.
  - injection Heq as -> Heq. inversion H1; subst. inversion H2; subst.
    destruct (IH d2) as [-> ->]; done.
Qed.

Lemma number_read i digits t :
  reads i (digits ++ t) -> Forall is_digit digits -> ~ starts_with (chars "0123456789") t ->
  parse_number fmt 0 i = (number digits, i + zlen digits).
Proof.
  intros Hr Hd Ht. destruct (parse_number_reads i _ Hr) as (digits' & t' & Heq & Hd' & Ht' & ->).
  by destruct (digits_unique _ _ _ _ Heq Hd Hd' Ht Ht') as [-> _].
Qed.

Lemma parse_width_reads i digits t spec :
  reads i (digits ++ t) -> Forall is_digit digits -> ~ starts_with (chars "0123456789") t -> width spec = 0 ->
  parse_width fmt (spec, i) =
    (if bool_decide (digits = []) then spec else with_width (number digits) spec, i + zlen digits).
Proof.
  intros Hr Hd Ht Hw. unfold parse_width. rewrite Hw, (number_read i digits t Hr Hd Ht).
  destruct digits as [|c digits]; rewrite ?zlen_nil, ?zlen_cons.
  - by rewrite Z.add_0_r, Z.ltb_irrefl.
  - pose proof (zlen_nonneg digits). by rewrite (proj2 (Z.ltb_lt _ _)) by lia.
Qed.

Definition precision_set (p : option (list char)) (spec : format_spec) : format_spec :=
  match p with
  | Some digits => with_precision (number digits) spec
  | None => spec
  end.

Lemma parse_precision_reads i p t spec :
  reads i (precision_text p ++ t) -> precision_ok p -> precision spec = 0 ->
  ~ starts_with (chars ".0123456789") t ->
  parse_precision fmt (spec, i) = Some (precision_set p spec, i + zlen (precision_text p)).
Proof.
  intros Hr Hp Hs Ht. unfold parse_precision. destruct p as [digits|]; cbn in Hr |- *.
  - destruct Hp as (Hne & Hd & Hn). destruct (reads_cons _ _ _ Hr) as (-> & _ & -> & Hr'). cbn [andb].
    assert (Ht' : ~ starts_with (chars "0123456789") t).
    { intros Hin. apply Ht. revert Hin. apply starts_mono. done. }
    rewrite Hs, (number_read (i + 1) digits t Hr' Hd Ht').
    destruct digits as [|c digits]; [done|]. destruct (reads_cons _ _ _ Hr') as (_ & -> & -> & _).
    rewrite (proj2 (is_format_digit_spec c)) by (by inversion Hd). cbn [negb orb].
    unfold MAX_FLOAT_PRECISION. rewrite (proj2 (Z.ltb_ge _ _)) by done.
    rewrite !zlen_cons. f_equal. f_equal. lia.
  - rewrite zlen_nil, Z.add_0_r. destruct t as [|c t]; [by destruct (reads_nil _ Hr) as [-> _]|].
    destruct (reads_cons _ _ _ Hr) as (-> & _ & -> & _). cbn [andb].
    destruct (Z.eqb_spec c (chr ".")) as [->|]; [by destruct Ht; left | done].
Qed.

Lemma split_precision i t spec q :
  reads i t -> precision spec = 0 -> parse_precision fmt (spec, i) = Some q -> exists p t',
    t = precision_text p ++ t' /\ precision_ok p /\ q = (precision_set p spec, i + zlen (precision_text p)).
Proof.
  intros Hr Hs. unfold parse_precision. destruct t as [|c t].
  { destruct (reads_nil _ Hr) as [-> _]. intros [= <-]. exists None, [].
    cbn. rewrite zlen_nil, Z.add_0_r. done. }
  destruct (reads_cons _ _ _ Hr) as (-> & _ & -> & Hr'). cbn [andb].
  destruct (Z.eqb_spec c (chr ".")) as [->|].
  2:{ intros [= <-]. exists None, (c :: t). cbn. rewrite zlen_nil, Z.add_0_r. done. }
  rewrite Hs. destruct (parse_number_reads _ _ Hr') as (digits & t' & -> & Hd & Ht' & ->).
  destruct (zlen fmt <=? i + 1) eqn:Hend; cbn [orb]; [done|].
  destruct (is_format_digit (znth fmt (i + 1))) eqn:Hfirst; cbn [negb]; [|done].
  unfold MAX_FLOAT_PRECISION. destruct (Z.ltb_spec 18 (number digits)); [done|]. intros [= <-].
  exists (Some digits), t'. split; [done|]. split.
  - split; [|done]. intros ->. cbn [app] in Hr'. destruct t' as [|d t'].
    + destruct (reads_nil _ Hr') as [_ Hn]. congruence.
    + destruct (reads_cons _ _ _ Hr') as (_ & _ & Hd' & _). rewrite Hd' in Hfirst.
      apply is_format_digit_spec in Hfirst. apply Ht'.
      assert (Hs' : d ∈ seqZ 48 10) by (apply elem_of_seqZ; unfold is_digit in Hfirst;
        change (chr "0") with 48 in Hfirst; change (chr "9") with 57 in Hfirst; lia). exact Hs'.
  - cbn [precision_set precision_text]. f_equal. change (chars ".") with [chr "."]. cbn [app].
    rewrite zlen_cons. lia.
Qed.

Definition type_set (p : presentation) (spec : format_spec) : format_spec :=
  match p with PRESENTATION_DEFAULT => spec | p => with_presentation p spec end.

Lemma parse_type_reads i p t spec :
  reads i (type_letter p ++ chars "}" ++ t) ->
  parse_type fmt (spec, i) = Some (type_set p spec, i + zlen (type_letter p)).
Proof.
  intros Hr. unfold parse_type. destruct p; cbn in Hr; destruct (reads_cons _ _ _ Hr) as (-> & _ & -> & _); try done.
  cbn. by rewrite Z.add_0_r.
Qed.

Lemma split_type i t spec s j : reads i t -> parse_type fmt (spec, i) = Some (s, j) ->
  (zlen fmt <=? j) || negb (znth fmt j =? chr "}") = false ->
  exists p t', t = type_letter p ++ chars "}" ++ t' /\ s = type_set p spec /\ j = i + zlen (type_letter p).
Proof.
  intros Hr. unfold parse_type. destruct t as [|c t].
  { destruct (reads_nil _ Hr) as [-> Hend]. intros [= -> ->]. by rewrite Hend. }
  destruct (reads_cons _ _ _ Hr) as (-> & Hlt & -> & Hr'). cbn [andb].
  assert (Hclose : forall p l, c :: t = type_letter p ++ l -> j = i + zlen (type_letter p) ->
    (zlen fmt <=? j) || negb (znth fmt j =? chr "}") = false -> exists t', l = chars "}" ++ t').
  { intros p l Hl -> Hb. rewrite Hl in Hr. apply reads_app in Hr. destruct l as [|d l].
    - by destruct (reads_nil _ Hr) as [_ Hend]; rewrite Hend in Hb.
    - destruct (reads_cons _ _ _ Hr) as (_ & _ & Hd & _). rewrite Hd in Hb.
      apply orb_false_iff in Hb as [_ Hb]. apply negb_false_iff, Z.eqb_eq in Hb as ->. by exists l. }
  destruct (Z.eqb_spec c (chr "}")) as [->|_]; cbn [negb].
  { intros [= -> ->] _. exists PRESENTATION_DEFAULT, t. cbn. by rewrite Z.add_0_r. }
  destruct (presentation_of c) as [p|] eqn:Hp; [|done]. intros [= <- <-] Hb.
  assert (Hletter : type_letter p = [c] /\ type_set p spec = with_presentation p spec).
  { revert Hp. unfold presentation_of.
    repeat match goal with
    | |- context [c =? ?x] => destruct (Z.eqb_spec c x) as [->|_]; [by intros [= <-]|]
    end. done. }
  destruct Hletter as [Hl Hset]. destruct (Hclose p t) as (t' & ->); [by rewrite Hl | by rewrite Hl | done|].
  exists p, t'. by rewrite Hl, Hset.
Qed.
End Reading.

(** ** The parser reads the language *)
Section Fields.
Context (fmt : list char).
Implicit Types b : field_body.

Lemma starts_with_weaken p q l : starts_with p l -> bool_decide (Forall (fun c => c ∈ q) p) = true -> starts_with q l.
Proof. intros Hl Hall. by eapply starts_mono. Qed.

Lemma type_part_starts b rest : starts_with (chars "dxXpfsc}") (type_part b ++ rest).
Proof. unfold type_part. destruct (body_type b); cbn; rewrite !elem_of_cons; tauto. Qed.

Lemma precision_part_starts b rest : starts_with (chars ".dxXpfsc}") (precision_part b ++ rest).
Proof.
  unfold precision_part. destruct (body_precision b); [by left|].
  eapply starts_with_weaken; [apply type_part_starts | done].
Qed.

Lemma digit_in c : is_digit c -> c ∈ chars "0123456789".
Proof.
  intros Hc. assert (Hs : c ∈ seqZ 48 10); [|exact Hs]. apply elem_of_seqZ. unfold is_digit in Hc.
  change (chr "0") with 48 in Hc. change (chr "9") with 57 in Hc. lia.
Qed.

Lemma width_part_starts b rest :
  Forall is_digit (body_width b) -> starts_with (chars "0123456789.dxXpfsc}") (width_part b ++ rest).
Proof.
  unfold width_part. intros Hd. destruct Hd as [|c l Hc _].
  - eapply starts_with_weaken; [apply precision_part_starts | done].
  - apply (starts_with_weaken (chars "0123456789")); [by apply digit_in | done].
Qed.

Lemma zero_part_starts b rest :
  Forall is_digit (body_width b) -> starts_with (chars "0123456789.dxXpfsc}") (zero_part b ++ rest).
Proof. intros Hd. unfold zero_part. destruct (body_zero b); [by left | by apply width_part_starts]. Qed.

Lemma alternate_part_starts b rest :
  Forall is_digit (body_width b) -> starts_with (chars "#0123456789.dxXpfsc}") (alternate_part b ++ rest).
Proof.
  intros Hd. unfold alternate_part. destruct (body_alternate b); [by left|].
  eapply starts_with_weaken; [by apply zero_part_starts | done].
Qed.

Lemma sign_part_starts b rest :
  Forall is_digit (body_width b) -> starts_with (chars "+ #0123456789.dxXpfsc}") (sign_part b ++ rest).
Proof.
  intros Hd. unfold sign_part. destruct (body_sign b); [|by left | by right; left].
  eapply starts_with_weaken; [by apply alternate_part_starts | done].
Qed.

(** The specification before the precision and the type. *)
Definition flags_spec b : format_spec :=
  let s := with_sign (body_sign b) (with_align (body_align b)
    (with_fill (default (chr " ") (body_fill b)) default_format_spec)) in
  let s := if body_alternate b then with_alternate s else s in
  let s := if body_zero b then zero_flag s else s in
  if bool_decide (body_width b = []) then s else with_width (number (body_width b)) s.

Lemma flags_body b :
  type_set (body_type b) (precision_set (body_precision b) (flags_spec b)) = body_spec b.
Proof.
  destruct b as [fl al sg alt ze [|c w] [pr|] ty]; unfold flags_spec, body_spec, zero_flag; cbn;
    destruct alt, ze, al, ty; reflexivity.
Qed.

Lemma flags_width b : width (flags_spec b) = number (body_width b) /\
  has_width (flags_spec b) = negb (bool_decide (body_width b = [])) /\ precision (flags_spec b) = 0.
Proof.
  destruct b as [fl al sg alt ze [|c w] pr ty]; unfold flags_spec, zero_flag; cbn;
    by destruct alt, ze, al.
Qed.

(** The parts of a body that are read before its precision, in one piece of text, and where a
    longest match ends them. *)
Definition flags_text b : list char :=
  option_list (body_fill b) ++ align_letter (body_align b) ++ sign_letter (body_sign b) ++
  chars (if body_alternate b then "#" else "") ++ chars (if body_zero b then "0" else "") ++ body_width b.

Record flags_end b (t : list char) : Prop := {
  end_fill : body_align b = ALIGN_DEFAULT -> body_fill b = None;
  end_align : body_fill b = None -> ~ starts_with (chars "<>^") (drop 1 (flags_text b ++ t));
  end_first : body_align b = ALIGN_DEFAULT -> ~ starts_with (chars "<>^") (flags_text b ++ t);
  end_sign : body_sign b = SIGN_DEFAULT -> ~ starts_with (chars "+ ")
    (chars (if body_alternate b then "#" else "") ++ chars (if body_zero b then "0" else "") ++ body_width b ++ t);
  end_alternate : body_alternate b = false -> ~ starts_with (chars "#")
    (chars (if body_zero b then "0" else "") ++ body_width b ++ t);
  end_zero : body_zero b = false -> ~ starts_with (chars "0") (body_width b ++ t);
  end_width : Forall is_digit (body_width b);
  end_digits : ~ starts_with (chars "0123456789") t;
}.

Lemma parse_flags i b t :
  reads fmt i (flags_text b ++ t) -> flags_text b ++ t <> [] -> flags_end b t ->
  parse_width fmt (parse_zero fmt (parse_alternate fmt (parse_sign fmt (parse_align fmt (default_format_spec, i))))) =
    (flags_spec b, i + zlen (flags_text b)).
Proof.
  unfold flags_text. rewrite <- !app_assoc. intros Hr Hne He.
  rewrite (parse_align_reads fmt i _ _ _ Hr Hne (end_fill _ _ He)).
  2:{ intros Hf. pose proof (end_align _ _ He Hf) as Hd. unfold flags_text in Hd.
      by rewrite <- !app_assoc, Hf in Hd. }
  2:{ intros Ha. pose proof (end_first _ _ He Ha) as Hd. unfold flags_text in Hd.
      by rewrite <- !app_assoc, Ha, (end_fill _ _ He Ha) in Hd. }
  rewrite app_assoc in Hr. apply reads_app in Hr.
  rewrite (parse_sign_reads fmt _ _ _ _ Hr (end_sign _ _ He)) by done. apply reads_app in Hr.
  rewrite (parse_alternate_reads fmt _ _ _ _ Hr (end_alternate _ _ He)). apply reads_app in Hr.
  rewrite (parse_zero_reads fmt _ _ _ _ Hr (end_zero _ _ He)). apply reads_app in Hr.
  rewrite (parse_width_reads fmt _ _ _ _ Hr (end_width _ _ He) (end_digits _ _ He)).
  - f_equal. rewrite !zlen_app. lia.
  - unfold zero_flag. by destruct (body_alternate b), (body_zero b), (body_align b).
Qed.

(** Any text has a longest match. *)
Lemma split_flags t : t <> [] -> exists b t', t = flags_text b ++ t' /\ flags_end b t' /\
  body_precision b = None /\ body_type b = PRESENTATION_DEFAULT.
Proof.
  intros Hne. destruct (split_align t Hne) as (fl & al & t1 & -> & Hfill & Hnext & Hfirst).
  destruct (split_sign t1) as (x & t2 & -> & Hsign).
  destruct (split_flag "#" t2 ltac:(done)) as (alt & t3 & -> & Halt).
  destruct (split_flag "0" t3 ltac:(done)) as (ze & t4 & -> & Hze).
  assert (Hdigits : exists digits t', t4 = digits ++ t' /\ Forall is_digit digits /\
    ~ starts_with (chars "0123456789") t').
  { clear. induction t4 as [|c t4 (digits & t' & Heq & Hd & Ht)]; [exists [], []; cbn; split_and!; [done | constructor | tauto]|].
    destruct (decide (c ∈ chars "0123456789")) as [Hc|Hc].
    - exists (c :: digits), t'. rewrite Heq. split; [done|]. split; [|done]. constructor; [|done].
      change (c ∈ seqZ 48 10) in Hc. apply elem_of_seqZ in Hc. unfold is_digit. change (chr "0") with 48. change (chr "9") with 57. lia.
    - exists [], (c :: t4). by split_and!; [|constructor|]. }
  destruct Hdigits as (digits & t' & -> & Hd & Ht).
  exists {| body_fill := fl; body_align := al; body_sign := x; body_alternate := alt; body_zero := ze;
    body_width := digits; body_precision := None; body_type := PRESENTATION_DEFAULT |}, t'.
  unfold flags_text. cbn. rewrite <- !app_assoc. split; [done|]. split; [|done].
  split; cbn; try done; unfold flags_text; cbn; rewrite <- !app_assoc; try done.
  intros Ha. rewrite Ha, (Hfill Ha). by apply Hfirst.
Qed.

(** What the parser makes of the text of a body. *)
Definition set_end (b : field_body) p ty : field_body := {| body_fill := body_fill b;
  body_align := body_align b; body_sign := body_sign b; body_alternate := body_alternate b;
  body_zero := body_zero b; body_width := body_width b; body_precision := p; body_type := ty |}.

Lemma body_text_flags b :
  body_text b = flags_text b ++ precision_text (body_precision b) ++ type_letter (body_type b) ++ chars "}".
Proof.
  unfold body_text, sign_part, alternate_part, zero_part, width_part, precision_part, type_part, flags_text.
  by rewrite <- !app_assoc.
Qed.

(** No letter of an alignment after the alignment. *)
Lemma sign_part_letters b : body_ok b -> Forall (fun c => c ∉ chars "<>^") (sign_part b).
Proof.
  intros Hok. assert (Hdigits : forall l, Forall is_digit l -> Forall (fun c => c ∉ chars "<>^") l).
  { intros l Hl. eapply Forall_impl; [exact Hl|]. intros c Hc%digit_in Hin.
    by apply (starts_apart (chars "0123456789") (chars "<>^") [c] eq_refl). }
  assert (Hset : forall s, bool_decide (Forall (fun c => c ∉ chars "<>^") (chars s)) = true ->
    Forall (fun c => c ∉ chars "<>^") (chars s)) by (by intros s ?%bool_decide_eq_true).
  unfold sign_part, alternate_part, zero_part, width_part, precision_part, type_part.
  rewrite !Forall_app. split_and!.
  - by destruct (body_sign b); apply Hset.
  - by destruct (body_alternate b); apply Hset.
  - by destruct (body_zero b); apply Hset.
  - apply Hdigits, Hok.
  - pose proof (ok_precision b Hok) as Hp. destruct (body_precision b) as [l|]; [|constructor].
    destruct Hp as (_ & Hl & _). cbn [precision_text]. rewrite Forall_app. split; [by apply Hset | by apply Hdigits].
  - by destruct (body_type b); apply Hset.
  - by apply Hset.
Qed.

(** The end of the flags of a body that is accepted. *)
Lemma body_flags_end b rest :
  body_ok b -> (body_text b = chars "}" -> ~ starts_with (chars "<>^") rest) ->
  flags_end b (precision_part b ++ rest).
Proof.
  intros Hok Hrest. pose proof (proj1 (ok_width b Hok)) as Hd.
  assert (Hsign : option_list (body_fill b) ++ align_letter (body_align b) ++ sign_part b ++ rest =
    flags_text b ++ precision_part b ++ rest).
  { unfold sign_part, alternate_part, zero_part, width_part, flags_text. by rewrite <- !app_assoc. }
  assert (Hno : forall q, bool_decide (Forall (fun c => c ∉ q) (chars "+ #0123456789.dxXpfsc}")) = true ->
    ~ starts_with q (sign_part b ++ rest)).
  { intros q Hq. eapply starts_apart; [exact Hq | by apply sign_part_starts]. }
  split; try done.
  - apply Hok.
  - intros Hfill. rewrite <- Hsign, Hfill. cbn [option_list app].
    destruct (body_align b) eqn:Ha; cbn [app align_letter]; try (apply Hno; done).
    change (chars "" ++ sign_part b ++ rest) with (sign_part b ++ rest).
    destruct (sign_part b) as [|c l] eqn:Hs.
    { exfalso. pose proof (sign_part_starts b [] Hd) as Hst. by rewrite Hs in Hst. }
    cbn [app drop]. destruct l as [|d l].
    + (* a lone character is the closing brace *)
      assert (Hc : c = chr "}").
      { assert (Hl : last (sign_part b) = Some (chr "}")).
        { unfold sign_part, alternate_part, zero_part, width_part, precision_part, type_part.
          rewrite !app_assoc. apply last_snoc. }
        rewrite Hs in Hl. by injection Hl. }
      subst c. apply Hrest. unfold body_text. by rewrite Hfill, Ha, Hs.
    + pose proof (sign_part_letters b Hok) as Hall. rewrite Hs in Hall.
      inversion Hall as [|? ? _ Hall']. by inversion Hall'.
  - intros Ha. rewrite <- Hsign, Ha, (ok_fill b Hok Ha). by apply Hno.
  - intros _. pose proof (alternate_part_starts b rest Hd) as Hst.
    unfold alternate_part, zero_part, width_part in Hst. rewrite <- !app_assoc in Hst.
    apart Hst.
  - intros _. pose proof (zero_part_starts b rest Hd) as Hst.
    unfold zero_part, width_part in Hst. rewrite <- !app_assoc in Hst.
    apart Hst.
  - intros Hz. pose proof (ok_zero b Hok Hz) as Hw. destruct (body_width b) as [|c l]; [|exact Hw].
    apart (precision_part_starts b rest).
  - apart (precision_part_starts b rest).
Qed.

(** A field of the language is read as what it means. *)
Lemma parse_field_complete offset f :
  0 <= offset -> field_at fmt offset f ->
  parse_field_at fmt offset =
    {| field_valid := true; field_length := zlen (field_text f); field_spec := meaning f |}.
Proof.
  intros Ho (rest & Htext & Hok). unfold parse_field_at.
  assert (Hr : reads fmt offset (field_text f ++ rest)).
  { split; [|done]. split; [done|]. destruct (Z.leb_spec offset (zlen fmt)); [done|]. exfalso.
    rewrite drop_ge in Htext by (unfold zlen in *; lia). by destruct f. }
  destruct f as [|b].
  - destruct (reads_cons _ _ _ _ Hr) as (_ & _ & -> & Hr1).
    by destruct (reads_cons _ _ _ _ Hr1) as (_ & -> & -> & _).
  - destruct Hok as [Hok Hrest]. cbn [field_text] in Hr. change (chars "{:") with [chr "{"; chr ":"] in Hr.
    cbn [app] in Hr. destruct (reads_cons _ _ _ _ Hr) as (_ & _ & -> & Hr1).
    destruct (reads_cons _ _ _ _ Hr1) as (_ & -> & -> & Hr2).
    change (chr "{" =? chr "{") with true. change (chr ":" =? chr "}") with false.
    change (chr ":" =? chr ":") with true. cbn [negb orb].
    replace (offset + 1 + 1) with (offset + 2) in Hr2 by lia.
    pose proof (body_flags_end b rest Hok Hrest) as Hend.
    rewrite body_text_flags, <- !app_assoc in Hr2.
    assert (Htail : precision_part b ++ rest =
      precision_text (body_precision b) ++ type_letter (body_type b) ++ chars "}" ++ rest).
    { unfold precision_part, type_part. by rewrite <- !app_assoc. }
    rewrite <- Htail in Hr2.
    assert (Hne : flags_text b ++ precision_part b ++ rest <> []).
    { intros [_ Hnil]%app_nil. pose proof (precision_part_starts b rest) as Hst. by rewrite Hnil in Hst. }
    assert (Hin : (zlen fmt <=? offset + 2) = false).
    { destruct (flags_text b ++ precision_part b ++ rest); [done|]. by destruct (reads_cons _ _ _ _ Hr2) as (_ & -> & _). }
    rewrite Hin, (parse_flags _ b _ Hr2 Hne Hend). destruct (flags_width b) as (-> & -> & Hp0).
    unfold MAX_FORMAT_WIDTH. rewrite (proj2 (Z.ltb_ge _ _)), andb_false_r by apply Hok.
    apply reads_app in Hr2. rewrite Htail in Hr2.
    rewrite (parse_precision_reads fmt _ _ _ _ Hr2 (ok_precision b Hok) Hp0).
    2:{ pose proof (type_part_starts b rest) as Hst. unfold type_part in Hst. rewrite <- app_assoc in Hst.
        apart Hst. }
    apply reads_app in Hr2. rewrite (parse_type_reads fmt _ _ _ _ Hr2). apply reads_app in Hr2.
    destruct (reads_cons _ _ _ _ Hr2) as (_ & -> & -> & _). cbn [orb negb Z.eqb].
    rewrite Z.eqb_refl. cbn [negb]. rewrite flags_body. f_equal.
    cbn [field_text]. rewrite body_text_flags, !zlen_app.
    change (zlen (chars "{:")) with 2. change (zlen (chars "}")) with 1. lia.
Qed.

(** Only the fields of the language are accepted. *)
Lemma parse_field_sound offset :
  0 <= offset -> field_valid (parse_field_at fmt offset) = true -> exists f, field_at fmt offset f.
Proof.
  intros Ho. unfold parse_field_at.
  destruct (Z.leb_spec (zlen fmt) (offset + 1)) as [|Hlt]; [done|]. cbn [orb].
  assert (Hr : reads fmt offset (drop (Z.to_nat offset) fmt)) by (split; [lia | done]).
  destruct (drop (Z.to_nat offset) fmt) as [|c t] eqn:Hdrop; [apply reads_nil in Hr as []; lia|].
  destruct (reads_cons _ _ _ _ Hr) as (_ & _ & -> & Hr1).
  destruct (Z.eqb_spec c (chr "{")) as [->|]; [|done]. cbn [negb].
  destruct t as [|d t]; [apply reads_nil in Hr1 as []; lia|].
  destruct (reads_cons _ _ _ _ Hr1) as (_ & _ & -> & Hr2).
  destruct (Z.eqb_spec d (chr "}")) as [->|_].
  { intros _. exists Braces, t. by rewrite Hdrop. }
  destruct (Z.eqb_spec d (chr ":")) as [->|]; [|done]. cbn [negb].
  replace (offset + 1 + 1) with (offset + 2) in Hr2 by lia.
  destruct (zlen fmt <=? offset + 2) eqn:Hin; [done|].
  assert (Hne : t <> []).
  { intros ->. destruct (reads_nil _ _ Hr2) as [_ Hn]. congruence. }
  destruct (split_flags t Hne) as (b & t1 & -> & Hend & Hp0 & Hty0).
  rewrite (parse_flags _ b _ Hr2 Hne Hend). destruct (flags_width b) as (-> & -> & Hprec).
  destruct (negb (bool_decide (body_width b = [])) && (MAX_FORMAT_WIDTH <? number (body_width b))) eqn:Hw; [done|].
  pose proof (reads_app _ _ _ _ Hr2) as Hr3.
  destruct (parse_precision fmt _) as [q|] eqn:Hpp; [|done].
  destruct (split_precision fmt _ _ _ _ Hr3 Hprec Hpp) as (p & t2 & -> & Hpok & ->).
  pose proof (reads_app _ _ _ _ Hr3) as Hr4.
  destruct (parse_type fmt _) as [[s j]|] eqn:Hpt; [|done].
  destruct ((zlen fmt <=? j) || negb (znth fmt j =? chr "}")) eqn:Hclose; [done|]. intros _.
  destruct (split_type fmt _ _ _ _ _ Hr4 Hpt Hclose) as (ty & rest & -> & _ & _).
  exists (Colon (set_end b p ty)), rest. rewrite Hdrop. split.
  - cbn [field_text]. rewrite body_text_flags. change (flags_text (set_end b p ty)) with (flags_text b).
    change (body_precision (set_end b p ty)) with p. change (body_type (set_end b p ty)) with ty.
    change (chars "{:") with [chr "{"; chr ":"]. cbn [app]. by rewrite <- !app_assoc.
  - split; [split|].
    + exact (end_fill _ _ Hend).
    + intros Hz Hs. apply (end_zero _ _ Hend Hz). cbn in Hs. by destruct (body_width b).
    + split; [exact (end_width _ _ Hend)|]. cbn [set_end body_width].
      destruct (bool_decide (body_width b = [])) eqn:Hnil.
      * apply bool_decide_eq_true in Hnil. rewrite Hnil. vm_compute. done.
      * cbn [negb andb] in Hw. by apply Z.ltb_ge in Hw.
    + exact Hpok.
    + rewrite body_text_flags. change (flags_text (set_end b p ty)) with (flags_text b).
      change (body_precision (set_end b p ty)) with p. change (body_type (set_end b p ty)) with ty. intros Hempty.
      assert (Hparts : flags_text b = [] /\ precision_text p = [] /\ type_letter ty = []).
      { apply (f_equal length) in Hempty. rewrite !length_app in Hempty.
        change (length (chars "}")) with 1%nat in Hempty.
        split_and!; apply nil_length_inv; lia. }
      destruct Hparts as (Hf & Hpt0 & Hty). pose proof (end_align _ _ Hend) as Hal.
      rewrite Hf, Hpt0, Hty in Hal. apply Hal. unfold flags_text in Hf. by destruct (body_fill b).
Qed.

(** The parser recognises the language and its meaning. *)
Lemma parse_field_spec offset :
  0 <= offset ->
  (field_valid (parse_field_at fmt offset) = true <-> exists f, field_at fmt offset f) /\
  forall f, field_at fmt offset f ->
    field_length (parse_field_at fmt offset) = zlen (field_text f) /\
    field_spec (parse_field_at fmt offset) = meaning f.
Proof.
  intros Ho. split; [split|].
  - by apply parse_field_sound.
  - intros (f & Hf). by rewrite (parse_field_complete offset f).
  - intros f Hf. by rewrite (parse_field_complete offset f).
Qed.
End Fields.
