(* ===== verification/FormatFacts.v ===== *)
(** * FormatFacts: what the formatter of [Format.v] and [Emit.v] prints *)

From S2P Require Import Prelude Containers LongDouble Format FormatGrammar Emit FloatFacts.

(** ** Numbers as text *)
Section Numbers.
Context (B : Z) (HB : 2 <= B) (digit : Z -> char).

(** The digits of [v] in base [B], the most significant first: at most [k] of them. *)
Fixpoint number_text (k : nat) (v : Z) : list char :=
  match k with
  | O => []
  | S k' => if v / B =? 0 then [digit v] else number_text k' (v / B) ++ [digit v]
  end.

Lemma number_text_length k v : (0 < k)%nat -> 1 <= zlen (number_text k v) <= Z.of_nat k.
Proof.
  revert v. induction k as [|k IH]; intros v Hk; [lia|]. cbn [number_text].
  destruct (v / B =? 0); [unfold zlen; cbn; lia|].
  unfold zlen in *. rewrite length_app. cbn [length]. destruct k as [|k]; [cbn; lia|].
  specialize (IH (v / B) ltac:(lia)). lia.
Qed.

Lemma shrink_bound k v : 0 <= v < B ^ Z.of_nat (S k) -> 0 <= v / B < B ^ Z.of_nat k.
Proof.
  intros Hv. split; [apply Z.div_pos; lia|]. apply Z.div_lt_upper_bound; [lia|].
  rewrite <- Z.pow_succ_r by lia. replace (Z.succ (Z.of_nat k)) with (Z.of_nat (S k)) by lia. lia.
Qed.

(** The value that a sequence of digits denotes. *)
Definition digits_value (value_of : char -> Z) (l : list char) : Z :=
  foldl (fun acc c => acc * B + value_of c) 0 l.

Lemma digits_value_app value_of l c :
  digits_value value_of (l ++ [c]) = digits_value value_of l * B + value_of c.
Proof. unfold digits_value. by rewrite foldl_snoc. Qed.

Lemma number_text_value value_of k v :
  (forall x, 0 <= x -> value_of (digit x) = x mod B) -> 0 <= v < B ^ Z.of_nat k ->
  digits_value value_of (number_text k v) = v.
Proof.
  intros Hdigit. revert v. induction k as [|k IH]; intros v Hv.
  - cbn in *. lia.
  - cbn [number_text]. pose proof (Z.div_mod v B ltac:(lia)) as Hdm.
    destruct (Z.eqb_spec (v / B) 0) as [Hz|Hz].
    + unfold digits_value. cbn. rewrite Hdigit by lia. lia.
    + pose proof (shrink_bound k v Hv). rewrite digits_value_app, Hdigit, IH by lia. lia.
Qed.

(** No leading zero: the first of several digits counts. *)
Lemma number_text_leading k v :
  0 < v < B ^ Z.of_nat k -> B ^ (zlen (number_text k v) - 1) <= v.
Proof.
  revert v. induction k as [|k IH]; intros v Hv; [cbn in Hv; lia|]. cbn [number_text].
  pose proof (Z.div_mod v B ltac:(lia)) as Hdm. pose proof (Z.mod_pos_bound v B ltac:(lia)).
  destruct (Z.eqb_spec (v / B) 0) as [Hz|Hz].
  - unfold zlen. cbn. lia.
  - pose proof (shrink_bound k v ltac:(lia)). specialize (IH (v / B) ltac:(lia)).
    assert (Hk : (0 < k)%nat) by (destruct k; [cbn in *; lia | lia]).
    pose proof (number_text_length k (v / B) Hk) as Hlen.
    unfold zlen in *. rewrite length_app. cbn [length].
    replace (Z.of_nat (length (number_text k (v / B)) + 1) - 1)
      with (Z.succ (Z.of_nat (length (number_text k (v / B))) - 1)) by lia.
    rewrite Z.pow_succ_r by lia. nia.
Qed.

(** The loop writes the digits backwards. *)
Lemma wp_digits_loop k v n (Q : Z -> list char -> Prop) l :
  0 <= v < B ^ Z.of_nat k -> 0 <= n -> n + Z.of_nat k <= zlen l -> (0 < k)%nat ->
  (forall l', zlen l' = zlen l -> (forall j, 0 <= j < n -> znth l' j = znth l j) ->
    (forall j, 0 <= j < zlen (number_text k v) ->
      znth l' (n + j) = znth (number_text k v) (zlen (number_text k v) - 1 - j)) ->
    Q (n + zlen (number_text k v)) l') ->
  wp (digits_loop k digit (fun v => v / B) v n) Q l.
Proof.
  revert v n l Q. induction k as [|k IH]; intros v n l Q Hv Hn Hroom Hk HQ; [lia|].
  cbn [digits_loop]. apply wp_bind, wp_array_set; [lia|].
  cbn [number_text] in HQ. destruct (Z.eqb_spec (v / B) 0) as [Hz|Hz].
  - apply wp_ret. apply HQ; [apply zlen_zset | |].
    + intros j Hj. apply znth_zset_ne; lia.
    + intros j Hj. unfold zlen in Hj. cbn in Hj. replace j with 0 by lia.
      rewrite Z.add_0_r. rewrite znth_zset_eq by lia. done.
  - pose proof (shrink_bound k v Hv) as Hlt.
    assert (Hk' : (0 < k)%nat) by (destruct k; [cbn in Hlt; lia | lia]).
    set (T := number_text k (v / B)) in *.
    assert (HT : zlen (T ++ [digit v]) = zlen T + 1) by (unfold zlen; rewrite length_app; cbn; lia).
    apply IH; [lia | lia | rewrite zlen_zset; lia | done |].
    intros l' Hlen Hlow Hhigh. fold T in Hhigh |- *.
    replace (n + 1 + zlen T) with (n + zlen (T ++ [digit v])) by lia.
    apply HQ; [by rewrite Hlen, zlen_zset | |].
    + intros j Hj. rewrite Hlow by lia. apply znth_zset_ne; lia.
    + intros j Hj. rewrite HT in *. destruct (Z.eq_dec j 0) as [->|Hne].
      * rewrite Z.add_0_r, Hlow, znth_zset_eq by lia.
        replace (zlen T + 1 - 1 - 0) with (zlen T) by lia.
        unfold znth, zlen. rewrite Nat2Z.id. by rewrite list_lookup_total_middle.
      * replace (n + j) with (n + 1 + (j - 1)) by lia. rewrite Hhigh by lia.
        unfold znth, zlen in *. rewrite lookup_total_app_l by lia. f_equal. lia.
Qed.

Lemma wp_format_digits size v (Q : Z -> list char -> Prop) b :
  0 < size -> 0 <= v < B ^ size -> size <= zlen b ->
  (forall b', zlen b' = zlen b ->
    take (length (number_text (Z.to_nat size) v)) b' = number_text (Z.to_nat size) v ->
    Q (zlen (number_text (Z.to_nat size) v)) b') ->
  wp (format_digits size digit (fun v => v / B) v) Q b.
Proof.
  intros Hs Hv Hb HQ. set (T := number_text (Z.to_nat size) v) in *.
  pose proof (number_text_length (Z.to_nat size) v ltac:(lia)) as HT. fold T in HT.
  apply wp_bind, wp_local. apply wp_digits_loop; [by rewrite Z2Nat.id by lia | lia | | lia |].
  { unfold blank. rewrite zlen_replicate; lia. }
  intros r Hr _ Hdigits. fold T in Hdigits |- *. unfold blank in Hr. rewrite zlen_replicate in Hr by lia.
  rewrite Z.add_0_l.
  apply wp_bind, (wp_for_range (fun i b' => zlen b' = zlen b /\ forall j, 0 <= j < i -> znth b' j = znth T j)).
  - split; [done | lia].
  - intros i b' Hi [Hlen Hdone]. apply wp_bind, wp_observe, wp_array_get; [lia|].
    apply wp_array_set; [lia|]. split; [by rewrite zlen_zset|]. intros j Hj.
    rewrite znth_zset by lia. destruct (Z.eqb_spec i j) as [<-|]; [|apply Hdone; lia].
    pose proof (Hdigits (zlen T - i - 1) ltac:(lia)) as Hd. rewrite Z.add_0_l in Hd. rewrite Hd. f_equal. lia.
  - intros b' [Hlen Hdone]. rewrite Z.max_r in Hdone by lia. apply wp_ret, HQ; [done|].
    apply array_ext.
    + unfold zlen in *. rewrite length_take. lia.
    + intros j Hj. assert (Hj' : 0 <= j < zlen T) by (unfold zlen in *; rewrite length_take in Hj; lia).
      rewrite <- Hdone by done. unfold znth, zlen in *. apply lookup_total_take_lt. lia.
Qed.
End Numbers.

Definition decimal_text (v : Z) : list char := number_text 10 decimal_digit 20 v.
Definition hex_text (uppercase : bool) (v : Z) : list char := number_text 16 (hex_digit uppercase) 16 v.

Lemma wp_format_u64_decimal v (Q : Z -> list char -> Prop) b :
  0 <= v < 2 ^ 64 -> 20 <= zlen b ->
  (forall b', zlen b' = zlen b -> take (length (decimal_text v)) b' = decimal_text v ->
    Q (zlen (decimal_text v)) b') ->
  wp (format_u64_decimal v) Q b.
Proof. intros Hv Hb HQ. apply (wp_format_digits 10); [lia | lia | lia | done | done]. Qed.

Lemma wp_format_u64_hex v u (Q : Z -> list char -> Prop) b :
  0 <= v < 2 ^ 64 -> 16 <= zlen b ->
  (forall b', zlen b' = zlen b -> take (length (hex_text u v)) b' = hex_text u v ->
    Q (zlen (hex_text u v)) b') ->
  wp (format_u64_hex v u) Q b.
Proof.
  intros Hv Hb HQ. unfold format_u64_hex.
  assert (Heq : forall s, format_digits 16 (hex_digit u) (fun v => Z.shiftr v 4) v s =
    format_digits 16 (hex_digit u) (fun v => v / 16) v s).
  { intros s. unfold format_digits. cbv [mbind kernel_bind local].
    assert (Hloop : forall k x n l, digits_loop k (hex_digit u) (fun v => Z.shiftr v 4) x n l =
      digits_loop k (hex_digit u) (fun v => v / 16) x n l).
    { induction k as [|k IH]; intros x n l; [done|]. cbn [digits_loop].
      rewrite (Z.shiftr_div_pow2 x 4) by lia. change (2 ^ 4) with 16.
      cbv [mbind kernel_bind]. destruct (array_set _ _ l) as [[[] l']| | |]; try done.
      destruct (x / 16 =? 0); [done | apply IH]. }
    by rewrite Hloop. }
  assert (Hwp : wp (format_digits 16 (hex_digit u) (fun v => v / 16) v) Q b).
  { apply (wp_format_digits 16); [lia | lia | lia | done | done]. }
  unfold wp in *. by rewrite Heq.
Qed.

(** ** Output *)

(** Between two states of the console the sink got [out], in some number of calls, if there is one. *)
Definition passes (c c' : console) (out : list char) : Prop :=
  m_sink c' = m_sink c /\
  exists parts, calls c' = calls c ++ (pair (m_sink c) <$> parts) /\
    concat parts = if m_sink c =? 0 then [] else out.

Lemma passes_nil c : passes c c [].
Proof. split; [done|]. exists []. split; [by rewrite app_nil_r | by destruct (m_sink c =? 0)]. Qed.

Lemma passes_app c c1 c2 a b : passes c c1 a -> passes c1 c2 b -> passes c c2 (a ++ b).
Proof.
  intros [Hs1 (l1 & Hc1 & H1)] [Hs2 (l2 & Hc2 & H2)]. rewrite Hs1 in *. split; [done|].
  exists (l1 ++ l2). split; [by rewrite Hc2, Hc1, fmap_app, app_assoc|].
  rewrite concat_app, H1, H2. by destruct (m_sink c =? 0).
Qed.

Lemma passes_printed c c' out :
  passes c c' out -> printed c' = printed c ++ (if m_sink c =? 0 then [] else out).
Proof.
  intros [_ (l & Hc & Hl)]. unfold printed. rewrite Hc, fmap_app, concat_app, <- Hl. do 2 f_equal.
  rewrite <- list_fmap_compose. clear. induction l as [|x l IH]; [done|]. cbn. by f_equal.
Qed.

(** [m] passes [out] to the sink, when there is one. *)
Definition outputs (m : kernel console unit) (out : list char) : Prop :=
  forall c, wp m (fun _ c' => passes c c' out) c.

Lemma outputs_ret : outputs (mret tt) [].
Proof. intros c. apply wp_ret, passes_nil. Qed.

Lemma outputs_seq m k a b : outputs m a -> outputs k b -> outputs (m;; k) (a ++ b).
Proof.
  intros Hm Hk c. apply wp_bind. eapply wp_mono; [apply Hm|]. intros [] c1 H1.
  eapply wp_mono; [apply Hk|]. intros [] c2 H2. by eapply passes_app.
Qed.

Lemma outputs_local {A} (k : kernel console A) (f : A -> kernel console unit) out (P : A -> Prop) :
  (forall c, wp k (fun a c' => c' = c /\ P a) c) -> (forall a, P a -> outputs (f a) out) ->
  outputs (k ≫= f) out.
Proof.
  intros Hk Hf c. apply wp_bind. eapply wp_mono; [apply Hk|]. intros a c' [-> Ha]. by apply Hf.
Qed.

Lemma outputs_assert b k out : b = true -> outputs k out -> outputs (static_assert b;; k) out.
Proof. intros -> Hk c. apply wp_bind, wp_ret, Hk. Qed.

Lemma outputs_write l n : 0 <= n <= zlen l -> outputs (console_write (Some l) n) (take (Z.to_nat n) l).
Proof.
  intros Hn c. apply wp_bind, wp_gets. destruct (Z.eqb_spec (m_sink c) 0) as [Hs|Hs]; cbn [orb].
  - apply wp_ret. split; [done|]. exists []. by rewrite app_nil_r, Hs.
  - destruct (Z.eqb_spec n 0) as [->|Hz]; [apply wp_ret, passes_nil|].
    destruct (Z.ltb_spec (zlen l) n); [lia|]. apply wp_modify. split; [done|].
    exists [take (Z.to_nat n) l]. split; [done|]. rewrite (proj2 (Z.eqb_neq _ _) Hs). apply app_nil_r.
Qed.

Lemma outputs_char c : outputs (emit_char c) [c].
Proof. exact (outputs_write [c] 1 ltac:(unfold zlen; cbn; lia)). Qed.

Lemma outputs_bytes l n : 0 <= n <= zlen l -> outputs (emit_bytes (Some l) n) (take (Z.to_nat n) l).
Proof. apply outputs_write. Qed.

Lemma outputs_repeated c n : 0 <= n -> outputs (emit_repeated c n) (replicate (Z.to_nat n) c).
Proof.
  intros Hn s. apply (wp_for_range (fun i s' => passes s s' (replicate (Z.to_nat i) c))).
  - apply passes_nil.
  - intros i s' Hi Hp. eapply wp_mono; [apply outputs_char|]. intros [] s2 Hp2.
    replace (Z.to_nat (i + 1)) with (Z.to_nat i + 1)%nat by lia. rewrite replicate_add. by eapply passes_app.
  - intros s' Hp. by rewrite Z.max_r in Hp by lia.
Qed.

(** A C string: terminated, and shorter than the address space. *)
Definition terminated (l : list char) : Prop := zlen (cstring l) < zlen l < 2 ^ 63.

Lemma wp_c_string_length {S} l (Q : Z -> S -> Prop) s :
  terminated l -> Q (zlen (cstring l)) s -> wp (c_string_length (Some l)) Q s.
Proof. intros [Hlt Hl] HQ. apply FixedStringFacts.wp_length; [done | lia | done | done]. Qed.

Lemma take_cstring l : take (length (cstring l)) l = cstring l.
Proof. destruct (cstring_spec l) as (rest & Hl & _). rewrite Hl at 2. by rewrite take_app_length. Qed.

(** ** Padding *)

Definition alignment (Spec : format_spec) (numeric : bool) : format_align :=
  match align Spec with
  | ALIGN_DEFAULT => if numeric then RIGHT else LEFT
  | a => a
  end.

(** How much is missing to the width of the field. *)
Definition gap (Spec : format_spec) (content : list char) : Z :=
  Z.max 0 ((if has_width Spec then width Spec else 0) - zlen content).

Definition filling (c : char) (n : Z) : list char := replicate (Z.to_nat n) c.

(** The text of a field. *)
Definition pad (Spec : format_spec) (prefix body : list char) (numeric : bool) : list char :=
  let n := gap Spec (prefix ++ body) in
  match alignment Spec numeric with
  | LEFT => prefix ++ body ++ filling (fill Spec) n
  | CENTER => filling (fill Spec) (n / 2) ++ prefix ++ body ++ filling (fill Spec) (n - n / 2)
  | _ =>
      if numeric && zero_pad Spec then prefix ++ filling (chr "0") n ++ body
      else filling (fill Spec) n ++ prefix ++ body
  end.

Lemma zlen_filling c n : 0 <= n -> zlen (filling c n) = n.
Proof. apply zlen_replicate. Qed.

Lemma gap_nonneg Spec content : 0 <= gap Spec content.
Proof. unfold gap. lia. Qed.

(** A field is as wide as asked, or as its content. *)
Lemma zlen_pad Spec prefix body numeric :
  zlen (pad Spec prefix body numeric) =
    Z.max (if has_width Spec then width Spec else 0) (zlen (prefix ++ body)).
Proof.
  unfold pad. pose proof (gap_nonneg Spec (prefix ++ body)) as Hg.
  assert (Hn : gap Spec (prefix ++ body) + zlen (prefix ++ body) =
    Z.max (if has_width Spec then width Spec else 0) (zlen (prefix ++ body))) by (unfold gap; lia).
  rewrite zlen_app in Hn |- *. rewrite <- Hn. set (n := gap Spec (prefix ++ body)) in *.
  assert (0 <= n / 2 <= n) by (split; [apply Z.div_pos; lia | apply Z.div_le_upper_bound; lia]).
  destruct (alignment Spec numeric); try destruct (numeric && zero_pad Spec);
    rewrite ?zlen_app, ?zlen_filling by lia; lia.
Qed.

Lemma outputs_padded Spec p np b nb numeric :
  0 <= np <= zlen p -> 0 <= nb <= zlen b -> zlen p < 2 ^ 63 -> zlen b < 2 ^ 63 ->
  outputs (emit_padded Spec (Some p) np (Some b) nb numeric)
    (pad Spec (take (Z.to_nat np) p) (take (Z.to_nat nb) b) numeric).
Proof.
  intros Hnp Hnb Hp Hb. unfold emit_padded, pad. fold (alignment Spec numeric).
  set (P := take (Z.to_nat np) p). set (T := take (Z.to_nat nb) b).
  assert (HP : zlen P = np) by (unfold P, zlen in *; rewrite length_take; lia).
  assert (HT : zlen T = nb) by (unfold T, zlen in *; rewrite length_take; lia).
  assert (Hgap : (if u64 (np + nb) <? (if has_width Spec then width Spec else 0)
    then (if has_width Spec then width Spec else 0) - u64 (np + nb) else 0) = gap Spec (P ++ T)).
  { unfold gap, u64. rewrite wrap_small by (unfold in_width; lia). rewrite zlen_app, HP, HT.
    set (w := if has_width Spec then width Spec else 0). destruct (Z.ltb_spec (np + nb) w); lia. }
  rewrite Hgap. pose proof (gap_nonneg Spec (P ++ T)) as Hg. set (n := gap Spec (P ++ T)) in *.
  assert (0 <= n / 2 <= n) by (split; [apply Z.div_pos; lia | apply Z.div_le_upper_bound; lia]).
  assert (HoP : outputs (emit_bytes (Some p) np) P) by (by apply outputs_bytes).
  assert (HoT : outputs (emit_bytes (Some b) nb) T) by (by apply outputs_bytes).
  assert (Hfill : forall c x, 0 <= x -> outputs (emit_repeated c x) (filling c x)) by apply outputs_repeated.
  assert (Ha : alignment Spec numeric <> ALIGN_DEFAULT).
  { unfold alignment. by destruct (align Spec), numeric. }
  destruct (alignment Spec numeric); [done | | |];
    [rewrite bool_decide_false, andb_false_r by done | rewrite bool_decide_true, andb_true_r by done
    | rewrite bool_decide_false, andb_false_r by done].
  - apply outputs_seq; [done|]. apply outputs_seq; [done | by apply Hfill].
  - destruct (numeric && zero_pad Spec); (apply outputs_seq; [|apply outputs_seq]); auto.
  - apply outputs_seq; [apply Hfill; lia|]. apply outputs_seq; [done|].
    apply outputs_seq; [done | apply Hfill; lia].
Qed.

Lemma take_zlen {A} (l : list A) : take (Z.to_nat (zlen l)) l = l.
Proof. unfold zlen. by rewrite Nat2Z.id, firstn_all. Qed.

Lemma outputs_whole l : outputs (emit_bytes (Some l) (zlen l)) l.
Proof.
  pose proof (outputs_bytes l (zlen l) ltac:(unfold zlen; lia)) as Ho. by rewrite take_zlen in Ho.
Qed.

(** ** The text of a value *)

Definition sign_text (Spec : format_spec) (negative : bool) : list char :=
  if negative then chars "-"
  else match sign Spec with PLUS => chars "+" | SPACE => chars " " | SIGN_DEFAULT => [] end.

Definition decimal_field (Spec : format_spec) (negative : bool) (magnitude : Z) : option (list char) :=
  if has_precision Spec || alternate Spec then None
  else Some (pad Spec (sign_text Spec negative) (decimal_text magnitude) true).

Definition hex_field (Spec : format_spec) (v : Z) : option (list char) :=
  if has_precision Spec then None
  else Some (pad Spec (if alternate Spec then chars "0x" else [])
    (hex_text (is_presentation Spec HEX_UPPER) v) true).

Definition pointer_field (Spec : format_spec) (address : Z) : option (list char) :=
  if has_precision Spec then None
  else
    match presentation_value Spec with
    | HEX_LOWER | HEX_UPPER => hex_field Spec address
    | PRESENTATION_DEFAULT | POINTER => hex_field (pointer_spec Spec) address
    | _ => None
    end.

Definition text_field (Spec : format_spec) (l : list char) : option (list char) :=
  if is_presentation Spec PRESENTATION_DEFAULT || is_presentation Spec STRING then
    Some (pad Spec [] (if has_precision Spec then take (Z.to_nat (precision Spec)) l else l) false)
  else None.

Definition integer_field (Spec : format_spec) (v : Z) : option (list char) :=
  match presentation_value Spec with
  | PRESENTATION_DEFAULT | DECIMAL => decimal_field Spec (v <? 0) (Z.abs v)
  | HEX_LOWER | HEX_UPPER => hex_field Spec (u64 v)
  | _ => None
  end.

(** A number [n] in units of the last of [p] digits after the point. *)
Definition fixed_text (p : Z) (point : bool) (n : Z) : list char :=
  decimal_text (n / 10 ^ p) ++ (if point then chars "." else []) ++ digits_text (Z.to_nat p) n.

(** A floating-point value prints as the decimal number [fixed_point] with its precision, which [fixed_point_close]
    ties to the value; [None] as well where the conversion to an integer is undefined. *)
Definition float_field (Spec : format_spec) (x : long_double) : option (list char) :=
  let p := float_precision Spec in
  let negative := ld_lt x (ld_of 0) in
  let field l := Some (pad Spec (sign_text Spec negative) l true) in
  if negb (is_presentation Spec PRESENTATION_DEFAULT || is_presentation Spec FIXED) || (MAX_FLOAT_PRECISION <? p) then None
  else
    match x with
    | NaN => field (chars "nan")
    | Infinite _ => field (chars "inf")
    | Finite _ _ _ =>
        let x := if negative then ld_opp x else x in
        if ld_lt (ld_of 18446744073709551615) x then field (chars "ovf")
        else n ← fixed_point (Z.to_nat p) x; field (fixed_text p ((0 <? p) || alternate Spec) n)
    end.

(** What a field prints for a value: [None] when the value does not support the specification. *)
Fixpoint value_text (Spec : format_spec) (v : value) : option (list char) :=
  match v with
  | VChar c =>
      if has_precision Spec then None
      else
        match presentation_value Spec with
        | PRESENTATION_DEFAULT | CHARACTER => Some (pad Spec [] [c] false)
        | _ => integer_field Spec (u8 c)
        end
  | VBool b =>
      if has_precision Spec then None
      else
        match presentation_value Spec with
        | PRESENTATION_DEFAULT => text_field Spec (if b then chars "true" else chars "false")
        | _ => integer_field Spec (if b then 1 else 0)
        end
  | VUnsigned n | VSigned n => integer_field Spec n
  | VFloat x => float_field Spec x
  | VCString address t =>
      match presentation_value Spec with
      | POINTER | HEX_LOWER | HEX_UPPER => pointer_field Spec address
      | _ => text_field Spec (match t with None => chars "(null)" | Some l => cstring l end)
      end
  | VNull => pointer_field Spec 0
  | VPointer address => pointer_field Spec address
  | VFixedString s => text_field Spec (cstring (FixedString.m_data s))
  | VView data => text_field Spec data
  | VEnum underlying name =>
      if numeric_presentation Spec || bool_decide (name = []) then value_text Spec underlying
      else text_field Spec name
  | VAggregate fields =>
      if has_precision Spec then None
      else
        l ← (fix fields_text (first : bool) (l : list (list char * value)) : option (list char) :=
          match l with
          | [] => Some []
          | (name, field) :: rest =>
              t ← value_text Spec field;
              ts ← fields_text false rest;
              Some ((if first then [] else chars ", ") ++ name ++ chars "=" ++ t ++ ts)
          end) true fields;
        Some (chars "{" ++ l ++ chars "}")
  end.

(** The values of the types of the arguments. *)
Fixpoint typed (v : value) : Prop :=
  match v with
  | VChar c => -128 <= c < 128
  | VBool _ | VNull => True
  | VUnsigned n | VPointer n => 0 <= n < 2 ^ 64
  | VSigned n => - 2 ^ 63 <= n < 2 ^ 63
  | VFloat x => ld_ok x = true
  | VCString address t => 0 <= address < 2 ^ 64 /\ match t with None => True | Some l => terminated l end
  | VFixedString s => terminated (FixedString.m_data s)
  | VView data => zlen data < 2 ^ 63
  | VEnum underlying name => typed underlying /\ zlen name < 2 ^ 63
  | VAggregate fields =>
      (fix all (l : list (list char * value)) : Prop :=
        match l with
        | [] => True
        | (name, field) :: rest => zlen name < 2 ^ 63 /\ typed field /\ all rest
        end) fields
  end.

Definition spec_ok (Spec : format_spec) : Prop := 0 <= width Spec /\ 0 <= precision Spec.

Section Fields.
Context (Spec : format_spec) (Hspec : spec_ok Spec).

Lemma outputs_sign negative (k : list char -> Z -> kernel console unit) out :
  (forall l n, 0 <= n <= zlen l -> zlen l < 2 ^ 63 -> take (Z.to_nat n) l = sign_text Spec negative ->
    outputs (k l n) out) ->
  outputs (let '(l, n) := sign_prefix Spec negative in k l n) out.
Proof.
  intros Hk. unfold sign_prefix, sign_text in *.
  destruct negative; [by apply Hk|]. destruct (sign Spec); by apply Hk.
Qed.

(** The digits of a number, in their buffer. *)
Lemma outputs_decimal v (k : Z * list char -> kernel console unit) out :
  0 <= v < 2 ^ 64 ->
  (forall b, zlen b = 20 -> zlen (decimal_text v) <= 20 ->
    take (length (decimal_text v)) b = decimal_text v -> outputs (k (zlen (decimal_text v), b)) out) ->
  outputs (local (blank 20) (format_u64_decimal v) ≫= k) out.
Proof.
  intros Hv Hk. eapply (outputs_local _ _ _ (fun p => exists b, p = (zlen (decimal_text v), b) /\
    zlen b = 20 /\ take (length (decimal_text v)) b = decimal_text v)).
  - intros c. apply wp_local, wp_format_u64_decimal; [done | done|]. intros b Hb Ht.
    split; [done|]. by exists b.
  - intros p (b & -> & Hb & Ht). apply Hk; [done | | done].
    by pose proof (number_text_length 10 decimal_digit 20 v ltac:(lia)) as [_ ?].
Qed.

Lemma outputs_hex v u (k : Z * list char -> kernel console unit) out :
  0 <= v < 2 ^ 64 ->
  (forall b, zlen b = 16 -> zlen (hex_text u v) <= 16 ->
    take (length (hex_text u v)) b = hex_text u v -> outputs (k (zlen (hex_text u v), b)) out) ->
  outputs (local (blank 16) (format_u64_hex v u) ≫= k) out.
Proof.
  intros Hv Hk. eapply (outputs_local _ _ _ (fun p => exists b, p = (zlen (hex_text u v), b) /\
    zlen b = 16 /\ take (length (hex_text u v)) b = hex_text u v)).
  - intros c. apply wp_local, wp_format_u64_hex; [done | done|]. intros b Hb Ht.
    split; [done|]. by exists b.
  - intros p (b & -> & Hb & Ht). apply Hk; [done | | done].
    by pose proof (number_text_length 16 (hex_digit u) 16 v ltac:(lia)) as [_ ?].
Qed.

Lemma outputs_padded_text (Spec' : format_spec) p np b (l : list char) numeric out :
  0 <= np <= zlen p -> zlen l <= zlen b -> zlen p < 2 ^ 63 -> zlen b < 2 ^ 63 ->
  take (length l) b = l -> pad Spec' (take (Z.to_nat np) p) l numeric = out ->
  outputs (emit_padded Spec' (Some p) np (Some b) (zlen l) numeric) out.
Proof.
  intros Hnp Hl Hp Hb Ht <-. pose proof (outputs_padded Spec' p np b (zlen l) numeric) as Ho.
  replace (Z.to_nat (zlen l)) with (length l) in Ho by (unfold zlen; lia). rewrite Ht in Ho.
  apply Ho; try done. unfold zlen in *. lia.
Qed.

Lemma pad_prefix_nil body numeric : pad Spec [] body numeric = pad Spec (take 0 [NUL]) body numeric.
Proof. done. Qed.

Lemma outputs_unsigned_decimal v out :
  0 <= v < 2 ^ 64 -> decimal_field Spec false v = Some out -> outputs (emit_unsigned_decimal Spec v) out.
Proof.
  intros Hv Hout. unfold decimal_field in Hout.
  destruct (has_precision Spec) eqn:Hp; [done|]. destruct (alternate Spec) eqn:Ha; [done|].
  injection Hout as <-. unfold emit_unsigned_decimal. rewrite Hp, Ha.
  do 2 (apply outputs_assert; [done|]). apply outputs_decimal; [done|]. intros b Hb Hl Ht.
  apply outputs_padded_text; [| lia | done | lia | done |].
  - destruct (bool_decide _ || _); done.
  - unfold sign_text. by destruct (sign Spec).
Qed.

Lemma signed_magnitude v : - 2 ^ 63 <= v < 2 ^ 63 -> signed_magnitude_i64 v = Z.abs v.
Proof.
  intros Hv. unfold signed_magnitude_i64, u64. destruct (Z.leb_spec 0 v).
  - rewrite wrap_small by (unfold in_width; lia). lia.
  - rewrite (wrap_small 64 (- (v + 1))) by (unfold in_width; lia).
    rewrite wrap_small by (unfold in_width; lia). lia.
Qed.

Lemma outputs_signed_decimal v out :
  - 2 ^ 63 <= v < 2 ^ 63 -> decimal_field Spec (v <? 0) (Z.abs v) = Some out ->
  outputs (emit_signed_decimal Spec v) out.
Proof.
  intros Hv Hout. unfold decimal_field in Hout.
  destruct (has_precision Spec) eqn:Hp; [done|]. destruct (alternate Spec) eqn:Ha; [done|].
  injection Hout as <-. unfold emit_signed_decimal. rewrite Hp, Ha, signed_magnitude by done.
  do 2 (apply outputs_assert; [done|]). apply outputs_decimal; [lia|]. intros b Hb Hl Ht.
  apply outputs_sign. intros l n Hn Hlen Hsign.
  apply outputs_padded_text; [done | lia | done | lia | done | by rewrite Hsign].
Qed.

(** *** Floating-point values *)

(** The buffer starts with a text. *)
Definition starts (T b : list char) : Prop := zlen b = 64 /\ forall j, 0 <= j < zlen T -> znth b j = znth T j.

Lemma wp_put_char T c (Q : unit -> list char -> Prop) b :
  starts T b -> zlen T < 64 -> (forall b', starts (T ++ [c]) b' -> Q tt b') -> wp (array_set (zlen T) c) Q b.
Proof.
  intros [Hb Hd] HT HQ. pose proof (zlen_nonneg T). apply wp_array_set; [lia|]. apply HQ. split; [by rewrite zlen_zset|].
  intros j Hj. rewrite zlen_app in Hj. change (zlen [c]) with 1 in Hj. rewrite znth_zset by lia.
  unfold znth, zlen in *. destruct (Z.eqb_spec (Z.of_nat (length T)) j) as [<-|].
  - rewrite Nat2Z.id. by rewrite list_lookup_total_middle.
  - rewrite lookup_total_app_l by lia. apply Hd. lia.
Qed.

Lemma starts_take T b : starts T b -> zlen T <= 64 -> take (length T) b = T.
Proof.
  intros [Hb Hd] HT. apply array_ext; [unfold zlen in *; rewrite length_take; lia|].
  intros j Hj. assert (Hj' : 0 <= j < zlen T) by (unfold zlen in *; rewrite length_take in Hj; lia).
  rewrite <- Hd by done. unfold znth, zlen in *. apply lookup_total_take_lt. lia.
Qed.

Lemma wp_copy_bytes D l (Q : unit -> list char -> Prop) b :
  starts [] b -> zlen D <= zlen l -> zlen D <= 64 -> take (length D) l = D ->
  (forall b', starts D b' -> Q tt b') -> wp (copy_bytes 0 l (zlen D)) Q b.
Proof.
  intros [Hb _] Hl H64 Ht HQ. apply (wp_for_range (fun i b' => zlen b' = 64 /\ forall j, 0 <= j < i -> znth b' j = znth D j)).
  - split; [done | lia].
  - intros i b' Hi [Hlen Hdone]. apply wp_bind, wp_observe, wp_array_get; [lia|]. rewrite Z.add_0_l.
    apply wp_array_set; [lia|]. split; [by rewrite zlen_zset|]. intros j Hj. rewrite znth_zset by lia.
    destruct (Z.eqb_spec i j) as [<-|]; [|apply Hdone; lia]. rewrite <- Ht. unfold znth, zlen in *.
    symmetry. apply lookup_total_take_lt. lia.
  - intros b' Hb'. pose proof (zlen_nonneg D). rewrite Z.max_r in Hb' by lia. by apply HQ.
Qed.

Lemma zlen_digits_text k n : zlen (digits_text k n) = Z.of_nat k.
Proof. unfold zlen. induction k as [|k IH]; [done|]. cbn [digits_text length]. lia. Qed.

(** The loop appends the digits of the number. *)
Lemma wp_fraction_loop p f acc T (Q : Z * long_double * Z -> list char -> Prop) b :
  0 <= p <= MAX_FLOAT_PRECISION -> fraction f -> 0 <= acc -> starts T b -> zlen T + p < 64 ->
  (forall r b', let T' := T ++ digits_text (Z.to_nat p) (fraction_digits (Z.to_nat p) f acc) in
     starts T' b' -> snd r = zlen T' -> Q r b') ->
  wp (fraction_loop p f (zlen T)) Q b.
Proof.
  intros Hp Hf Ha HT Hroom HQ. set (N := fraction_digits (Z.to_nat p) f acc) in *. unfold fraction_loop.
  set (Tp := T ++ digits_text (Z.to_nat p) N) in *.
  apply (wp_while (fun '(index, g, len) b' => 0 <= index <= p /\ fraction g /\ exists a U, 0 <= a /\ starts U b' /\
    len = zlen U /\ N = fraction_digits (Z.to_nat (p - index)) g a /\ U ++ digits_text (Z.to_nat (p - index)) N = Tp)
    (fun '(index, _, _) _ => p - index)).
  - split; [lia|]. split; [done|]. exists acc, T. by rewrite Z.sub_0_r.
  - lia.
  - intros [[index g] len] b' (Hi & Hg & a & U & Hpos & HU & -> & HN & Htext) _. apply wp_ret.
    assert (HlenU : zlen U + (p - index) = zlen T + p).
    { pose proof (f_equal zlen Htext) as E. unfold Tp in E. rewrite !zlen_app, !zlen_digits_text in E. lia. }
    destruct (Z.ltb_spec index p) as [Hlt|Hge].
    + destruct (fraction_step g Hg) as (d & Et & Hd & Hr & _). set (g' := ld_mul g (ld_of 10)) in *.
      assert (Eu : ld_to_unsigned 8 g' = Some d).
      { unfold ld_to_unsigned. rewrite Et. by replace ((0 <=? d) && (d <? 2 ^ 8)) with true by lia. }
      apply wp_bind. unfold to_unsigned. rewrite Eu. apply wp_ret.
      replace (Z.to_nat (p - index)) with (S (Z.to_nat (p - (index + 1)))) in * by lia.
      cbn [fraction_digits digits_text] in HN, Htext. fold g' in HN. rewrite Et in HN. cbn [default id] in HN.
      destruct (fraction_digits_prefix (Z.to_nat (p - (index + 1))) (ld_sub g' (ld_of d)) (a * 10 + d) Hr ltac:(lia)) as [_ Hdiv]. rewrite <- HN in Hdiv.
      destruct (digits_text_step (Z.to_nat (p - (index + 1))) N a d Hdiv Hd Hpos) as [_ Hmod]. rewrite Hmod in Htext.
      apply wp_bind, wp_put_char; [done | lia|]. intros b2 Hb2. apply wp_ret. split; [|lia]. split; [lia|]. split; [done|].
      exists (a * 10 + d), (U ++ [chr "0" + d]). split; [lia|]. split; [done|]. split; [|split; [done | by rewrite <- app_assoc]].
      rewrite zlen_app. change (zlen [_]) with 1. pose proof (zlen_nonneg U). unfold u64, MAX_FLOAT_PRECISION in *.
      apply wrap_small. unfold in_width. lia.
    + replace (Z.to_nat (p - index)) with 0%nat in Htext by lia. cbn [digits_text] in Htext. rewrite app_nil_r in Htext.
      subst U. by apply HQ.
Qed.

(** The magnitude in its buffer. *)
Lemma wp_float_body i f (Q : Z -> list char -> Prop) b :
  0 <= float_precision Spec <= MAX_FLOAT_PRECISION -> 0 <= i < 2 ^ 64 -> fraction f -> zlen b = 64 ->
  (forall b', let T := fixed_text (float_precision Spec) ((0 <? float_precision Spec) || alternate Spec)
      (fraction_digits (Z.to_nat (float_precision Spec)) f i) in
     zlen b' = 64 -> zlen T <= 64 -> take (length T) b' = T -> Q (zlen T) b') ->
  wp (float_body Spec i f) Q b.
Proof.
  intros Hp Hi Hf Hb HQ. set (p := float_precision Spec) in *. set (N := fraction_digits (Z.to_nat p) f i) in *.
  set (point := (0 <? p) || alternate Spec) in *. unfold float_body. fold p point.
  destruct (fraction_digits_prefix (Z.to_nat p) f i Hf ltac:(lia)) as [_ Hdiv]. rewrite Z2Nat.id in Hdiv by lia. fold N in Hdiv.
  apply wp_bind, wp_local, wp_format_u64_decimal; [done | done|]. intros l Hl Ht.
  pose proof (number_text_length 10 decimal_digit 20 i ltac:(lia)) as HD. fold (decimal_text i) in HD.
  set (D := decimal_text i) in *. change (zlen (blank 20)) with 20 in Hl. unfold MAX_FLOAT_PRECISION in Hp.
  apply wp_bind, wp_copy_bytes; [split; [done | intros j Hj; change (zlen []) with 0 in Hj; lia] | lia | lia | done|].
  intros b1 Hb1. set (T := D ++ if point then chars "." else []).
  assert (HT : (if point then u64 (zlen D + 1) else zlen D) = zlen T).
  { unfold T. rewrite zlen_app. destruct point; [|change (zlen []) with 0; lia]. change (zlen (chars ".")) with 1.
    unfold u64. apply wrap_small. unfold in_width. lia. }
  rewrite HT. assert (HzT : zlen T <= 21).
  { unfold T. rewrite zlen_app. destruct point; [change (zlen (chars ".")) with 1 | change (zlen []) with 0]; lia. }
  apply wp_bind. assert (Hpoint : wp (when point (array_set (zlen D) (chr "."))) (fun _ b2 => starts T b2) b1).
  { unfold T. destruct point; [apply wp_put_char; [done | lia | done] | apply wp_ret; by rewrite app_nil_r]. }
  eapply wp_mono; [exact Hpoint|]. intros [] b2 Hb2.
  apply wp_bind, (wp_fraction_loop p f i T); [unfold MAX_FLOAT_PRECISION; lia | done | lia | done | lia|].
  fold N. intros r b3 T' Hb3 Hr. apply wp_ret. rewrite Hr.
  assert (E : fixed_text p point N = T').
  { unfold fixed_text, T', T. rewrite Hdiv. fold D. by rewrite app_assoc. }
  rewrite <- E in *. assert (Hlen : zlen (fixed_text p point N) <= 64).
  { rewrite E. unfold T'. rewrite zlen_app, zlen_digits_text. lia. }
  apply HQ; [by destruct Hb3 | done | by apply starts_take].
Qed.

Lemma outputs_float_special l negative out : 
  zlen l < 2 ^ 63 -> Some (pad Spec (sign_text Spec negative) l true) = Some out ->
  outputs (emit_float_special Spec l (zlen l) negative) out.
Proof.
  intros Hl [= <-]. unfold emit_float_special. apply outputs_sign. intros s n Hn Hlen Hsign.
  apply outputs_padded_text; [done | done | done | done | by apply firstn_all | by rewrite Hsign].
Qed.

(** The test for the infinities: a finite number less itself is a number. *)
Lemma ld_sub_self s m e : ld_ne (Finite s m e) (Finite s m e) = false /\
  ld_ne (ld_sub (Finite s m e) (Finite s m e)) (ld_sub (Finite s m e) (Finite s m e)) = false.
Proof.
  assert (Hrefl : forall s m e, ld_ne (Finite s m e) (Finite s m e) = false).
  { intros *. cbn [ld_ne ld_lt]. by rewrite Z.ltb_irrefl. }
  split; [apply Hrefl|]. cbn [ld_sub ld_opp ld_add]. unfold ld_sub. cbn [ld_opp ld_add].
  replace (signed_mantissa s _ + signed_mantissa (negb s) _) with 0 by (destruct s; cbn; lia). cbn [Z.eqb].
  change (Z.abs 0) with 0. unfold ld_round. change (0 / 1) with 0. set (k := Z.max _ _). assert (Hk : 0 <= k) by (unfold k; lia).
  replace (nearest_even 0 (1 * 2 ^ k)) with 0.
  2:{ symmetry. unfold nearest_even. rewrite Z.div_0_l, Z.mod_0_l by lia.
      destruct (Z.ltb_spec (2 * 0) (1 * 2 ^ k)); [done | lia]. }
  change (0 =? MANTISSA_END) with false. cbn [Z.ltb Z.compare andb]. apply Hrefl.
Qed.

(** The magnitude of a finite value that is not too large can be printed. *)
Lemma magnitude_printable s m e : ld_ok (Finite s m e) = true ->
  let x := Finite s m e in let a := if ld_lt x (ld_of 0) then ld_opp x else x in
  ld_lt (ld_of 18446744073709551615) a = false -> printable a.
Proof.
  intros Hok x a Ha. split; [|done]. unfold ld_ok in Hok. subst a x.
  assert (Hm : 0 <= m < MANTISSA_END /\ EXPONENT_MIN <= e) by lia. destruct Hm as [Hm He].
  cbn [ld_lt ld_of signed_mantissa ld_opp] in *. rewrite Z.mul_0_l in *. assert (0 < 2 ^ (e - Z.min e 0)) by lia.
  destruct s; cbn [signed_mantissa negb] in *.
  - destruct (Z.ltb_spec (- (m * 2 ^ (e - Z.min e 0))) 0).
    + by exists false, m, e.
    + exists true, m, e. do 3 (split; [done|]). intros _. nia.
  - rewrite (proj2 (Z.ltb_ge _ 0)) by nia. by exists false, m, e.
Qed.

Lemma outputs_fixed_float x out : ld_ok x = true -> float_field Spec x = Some out -> outputs (emit_fixed_float Spec x) out.
Proof.
  intros Hok Hout. unfold float_field in Hout. unfold emit_fixed_float.
  destruct (is_presentation Spec PRESENTATION_DEFAULT || is_presentation Spec FIXED); [|done]. cbn [negb orb] in Hout.
  destruct (Z.ltb_spec MAX_FLOAT_PRECISION (float_precision Spec)) as [|Hp]; [done|]. apply outputs_assert; [done|].
  assert (Hpp : 0 <= float_precision Spec <= MAX_FLOAT_PRECISION).
  { split; [|done]. unfold float_precision. destruct (has_precision Spec); [apply Hspec | lia]. }
  destruct x as [|s|s m e].
  - by apply (outputs_float_special (chars "nan") false).
  - destruct s; by apply (outputs_float_special (chars "inf")).
  - destruct (ld_sub_self s m e) as [-> _]. set (negative := ld_lt (Finite s m e) (ld_of 0)) in *.
    set (a := if negative then ld_opp (Finite s m e) else Finite s m e) in *. pose proof (magnitude_printable s m e Hok) as Hprint.
    cbn zeta in Hprint. fold negative a in Hprint.
    assert (Eself : ld_ne (ld_sub a a) (ld_sub a a) = false).
    { unfold a. destruct negative; [apply (ld_sub_self (negb s) m e) | apply (ld_sub_self s m e)]. }
    rewrite Eself. destruct (ld_lt (ld_of 18446744073709551615) a); [by apply (outputs_float_special (chars "ovf"))|].
    specialize (Hprint eq_refl). destruct (fixed_point (Z.to_nat (float_precision Spec)) a) as [n|] eqn:En; [|done].
    cbn [mbind option_bind] in Hout. injection Hout as <-.
    destruct (fixed_point_parts a _ Hprint Hpp) as (i & f & Et & Hi & Ef & Hf & _).
    unfold fixed_point in En. destruct (ld_to_unsigned 64 _) as [i'|] eqn:Eu; [|done]. cbn [mbind option_bind] in En.
    unfold to_unsigned. rewrite Eu. unfold ld_to_unsigned in Eu. rewrite Et in Eu.
    destruct ((0 <=? i) && (i <? 2 ^ 64)) eqn:Ei; [|done]. injection Eu as <-. injection En as <-.
    assert (Hrange : 0 <= i < 2 ^ 64) by lia.
    set (T := fixed_text (float_precision Spec) ((0 <? float_precision Spec) || alternate Spec)
      (fraction_digits (Z.to_nat (float_precision Spec)) f i)).
    change (outputs (b ← local (blank 64) (float_body Spec i
        (ld_sub (ld_add a (half_unit (Z.to_nat (float_precision Spec)))) (ld_of i)));
      let '(body_length, body) := b in
      let '(prefix_buffer, prefix_length) := sign_prefix Spec negative in
      emit_padded Spec (Some prefix_buffer) prefix_length (Some body) body_length true)
      (pad Spec (sign_text Spec negative) (fixed_text (float_precision Spec) ((0 <? float_precision Spec) || alternate Spec)
        (fraction_digits (Z.to_nat (float_precision Spec))
          (ld_sub (ld_add a (half_unit (Z.to_nat (float_precision Spec)))) (ld_of i)) i)) true)).
    rewrite Ef. fold T.
    eapply (outputs_local _ _ _ (fun r => exists b, r = (zlen T, b) /\ zlen b = 64 /\ zlen T <= 64 /\ take (length T) b = T)).
    + intros c. apply wp_local, wp_float_body; [done | done | done | done|]. intros b T' Hb HT Htake.
      split; [done|]. by exists b.
    + intros r (b & -> & Hb & HT & Htake). apply outputs_sign. intros l k Hk Hlen Hsign.
      apply outputs_padded_text; [done | lia | done | lia | done | by rewrite Hsign].
Qed.

Lemma outputs_hex_integer Spec' v out :
  0 <= v < 2 ^ 64 -> hex_field Spec' v = Some out -> outputs (emit_hex_integer Spec' v) out.
Proof.
  intros Hv Hout. unfold hex_field in Hout. destruct (has_precision Spec') eqn:Hp; [done|].
  injection Hout as <-. unfold emit_hex_integer. rewrite Hp. apply outputs_assert; [done|].
  apply outputs_hex; [done|]. intros b Hb Hl Ht.
  destruct (alternate Spec'); (apply outputs_padded_text; [done | lia | done | lia | done | done]).
Qed.

Lemma outputs_pointer_value v out :
  0 <= v < 2 ^ 64 -> pointer_field Spec v = Some out -> outputs (emit_pointer_value Spec v) out.
Proof.
  intros Hv Hout. unfold pointer_field in Hout. unfold emit_pointer_value.
  destruct (has_precision Spec) eqn:Hp; [done|]. apply outputs_assert; [done|].
  destruct (presentation_value Spec) eqn:Hpr; try done; by apply outputs_hex_integer.
Qed.

Lemma take_cut {A} (l : list A) n : 0 <= n ->
  take (Z.to_nat (if has_precision Spec then Z.min (zlen l) (precision Spec) else zlen l)) l =
  (if has_precision Spec then take (Z.to_nat (precision Spec)) l else l).
Proof.
  intros _. destruct Hspec as [_ Hp]. destruct (has_precision Spec); [|apply take_zlen].
  destruct (Z.le_ge_cases (precision Spec) (zlen l)).
  - by rewrite Z.min_r by lia.
  - rewrite Z.min_l, take_zlen, take_ge by (unfold zlen in *; lia). done.
Qed.

(** A text cut to the precision, wherever it lies in its buffer. *)
Lemma outputs_cut l b out :
  zlen l <= zlen b < 2 ^ 63 -> take (length l) b = l -> text_field Spec l = Some out ->
  outputs (static_assert (is_presentation Spec PRESENTATION_DEFAULT || is_presentation Spec STRING);;
    emit_padded Spec (Some [NUL]) 0 (Some b)
      (if has_precision Spec then Z.min (zlen l) (precision Spec) else zlen l) false) out.
Proof.
  intros Hlen Hb Hout. unfold text_field in Hout.
  destruct (is_presentation Spec PRESENTATION_DEFAULT || is_presentation Spec STRING); [|done].
  injection Hout as <-. apply outputs_assert; [done|]. rewrite <- (take_cut l 0) by lia.
  set (n := if has_precision Spec then Z.min (zlen l) (precision Spec) else zlen l).
  assert (Hn : 0 <= n <= zlen l).
  { unfold n. destruct Hspec as [_ Hp]. destruct (has_precision Spec); unfold zlen; lia. }
  pose proof (outputs_padded Spec [NUL] 0 b n false) as Ho.
  assert (Htake : take (Z.to_nat n) b = take (Z.to_nat n) l).
  { rewrite <- Hb, take_take. f_equal. unfold zlen in Hn. lia. }
  rewrite Htake in Ho. apply Ho; try done; lia.
Qed.

Lemma outputs_string_value t l out :
  match t with None => l = chars "(null)" | Some b => terminated b /\ l = cstring b end ->
  text_field Spec l = Some out -> outputs (emit_string_value Spec t) out.
Proof.
  intros Ht Hout. unfold emit_string_value. cbv zeta.
  assert (Hb : exists b, match t return text with None => Some (chars "(null)" ++ [NUL]) | _ => t end = Some b /\
    terminated b /\ l = cstring b).
  { destruct t as [b|]; [destruct Ht; by exists b|]. eexists. split; [done|]. by rewrite Ht. }
  destruct Hb as (b & -> & Hterm & ->).
  intros c. pose proof (outputs_cut (cstring b) b out) as Ho.
  premise Ho; [destruct Hterm; lia|]. premise Ho; [apply take_cstring|]. specialize (Ho Hout c).
  unfold static_assert in *. destruct (_ || _); [|by destruct Ho].
  apply wp_bind, wp_ret, wp_bind, wp_c_string_length; [done|]. exact Ho.
Qed.

Lemma outputs_view l out :
  zlen l < 2 ^ 63 -> text_field Spec l = Some out -> outputs (emit_view Spec l) out.
Proof. intros Hl Hout. apply outputs_cut; [lia | by rewrite firstn_all | done]. Qed.

Lemma outputs_char_value c out :
  -128 <= c < 128 -> value_text Spec (VChar c) = Some out -> outputs (emit_char_value Spec c) out.
Proof.
  intros Hc Hout. cbn [value_text] in Hout. unfold emit_char_value.
  destruct (has_precision Spec) eqn:Hp; [done|]. apply outputs_assert; [done|].
  assert (Hu : 0 <= u8 c < 2 ^ 64) by (pose proof (wrap_range 8 c ltac:(lia)); unfold in_width, u8 in *; lia).
  assert (Hsmall : (u8 c <? 0) = false) by lia.
  unfold integer_field in Hout. rewrite Hsmall, Z.abs_eq in Hout by lia.
  assert (Hwrap : u64 (u8 c) = u8 c) by (apply wrap_small; unfold in_width; lia).
  rewrite Hwrap in Hout.
  destruct (presentation_value Spec) eqn:Hpr; try done;
    try (by apply outputs_unsigned_decimal); try (by apply outputs_hex_integer).
  all: injection Hout as <-; exact (outputs_padded Spec [NUL] 0 [c] 1 false
    ltac:(unfold zlen; cbn; lia) ltac:(unfold zlen; cbn; lia) ltac:(done) ltac:(done)).
Qed.

Lemma outputs_unsigned v out :
  0 <= v < 2 ^ 64 -> integer_field Spec v = Some out -> outputs (emit_unsigned Spec v) out.
Proof.
  intros Hv Hout. unfold integer_field in Hout. unfold emit_unsigned.
  assert ((v <? 0) = false) as Hs by lia. rewrite Hs, Z.abs_eq in Hout by lia.
  unfold u64 in Hout. rewrite wrap_small in Hout by done.
  destruct (presentation_value Spec); try done;
    (by apply outputs_unsigned_decimal) || (by apply outputs_hex_integer).
Qed.

Lemma outputs_signed v out :
  - 2 ^ 63 <= v < 2 ^ 63 -> integer_field Spec v = Some out -> outputs (emit_signed Spec v) out.
Proof.
  intros Hv Hout. unfold integer_field in Hout. unfold emit_signed.
  assert (0 <= u64 v < 2 ^ 64) by (apply wrap_range; lia).
  destruct (presentation_value Spec); try done;
    (by apply outputs_signed_decimal) || (by apply outputs_hex_integer).
Qed.

Lemma outputs_bool b out :
  value_text Spec (VBool b) = Some out -> outputs (emit_bool Spec b) out.
Proof.
  intros Hout. cbn [value_text] in Hout. unfold emit_bool.
  destruct (has_precision Spec) eqn:Hp; [done|]. apply outputs_assert; [done|].
  assert (Hb : 0 <= (if b then 1 else 0) < 2 ^ 64) by (destruct b; lia).
  pose proof (outputs_unsigned (if b then 1 else 0) out Hb) as Hint.
  unfold integer_field, emit_unsigned in Hint, Hout.
  destruct (presentation_value Spec) eqn:Hpr; try done; try (by apply Hint).
  eapply outputs_string_value; [|exact Hout]. split; [by destruct b | by destruct b].
Qed.
End Fields.

(** Induction over values, through the fields of aggregates. *)
Fixpoint value_nested_ind (P : value -> Prop)
    (Hleaf : forall v, match v with VEnum _ _ | VAggregate _ => False | _ => True end -> P v)
    (Henum : forall u name, P u -> P (VEnum u name))
    (Haggregate : forall fields, Forall (fun f => P (snd f)) fields -> P (VAggregate fields))
    (v : value) : P v :=
  match v with
  | VEnum u name => Henum u name (value_nested_ind P Hleaf Henum Haggregate u)
  | VAggregate fields =>
      Haggregate fields ((fix go (l : list (list char * value)) : Forall (fun f => P (snd f)) l :=
        match l with
        | [] => Forall_nil_2 _
        | f :: rest => Forall_cons_2 _ _ _ (value_nested_ind P Hleaf Henum Haggregate (snd f)) (go rest)
        end) fields)
  | v => Hleaf v I
  end.

Section Values.
Context (Spec : format_spec) (Hspec : spec_ok Spec).

Lemma outputs_separator (first : bool) :
  outputs (when (negb first) (emit_bytes (Some (chars ", ")) 2)) (if first then [] else chars ", ").
Proof. destruct first; [apply outputs_ret | by apply (outputs_bytes (chars ", ") 2)]. Qed.

(** Each value prints its text. *)
Lemma outputs_value v out :
  typed v -> value_text Spec v = Some out -> outputs (emit_value Spec v) out.
Proof.
  revert out. induction v as [v Hleaf|u name IH|fields IH] using value_nested_ind; intros out Hty Hout.
  - destruct v as [c|b|n|n|x|address t| |address|s|data|u name|fields]; try done; cbn [emit_value].
    + by apply outputs_char_value.
    + by apply outputs_bool.
    + by apply outputs_unsigned.
    + by apply outputs_signed.
    + by apply outputs_fixed_float.
    + destruct Hty as [Ha Ht]. cbn [value_text] in Hout.
      destruct (presentation_value Spec); try (by apply outputs_pointer_value);
        (eapply outputs_string_value; [done | | exact Hout]; by destruct t).
    + by apply outputs_pointer_value.
    + by apply outputs_pointer_value.
    + by eapply outputs_string_value.
    + by apply outputs_view.
  - cbn [emit_value value_text typed] in *. destruct Hty as [Hu Hname].
    destruct (numeric_presentation Spec); cbn [orb] in Hout; [by apply IH|].
    destruct (bool_decide (name = [])); [by apply IH | by apply outputs_view].
  - cbn [emit_value value_text typed] in *.
    destruct (has_precision Spec) eqn:Hp; [done|]. apply outputs_assert; [done|].
    assert (Hgen : forall first l,
      (fix fields_text (first : bool) (l : list (list char * value)) : option (list char) :=
          match l with
          | [] => Some []
          | (name, field) :: rest =>
              t ← value_text Spec field;
              ts ← fields_text false rest;
              Some ((if first then [] else chars ", ") ++ name ++ chars "=" ++ t ++ ts)
          end) first fields = Some l ->
      outputs ((fix emit_fields (first : bool) (l : list (list char * value)) : kernel console unit :=
         match l with
         | [] => mret tt
         | (name, field) :: rest =>
             when (negb first) (emit_bytes (Some (chars ", ")) 2);;
             emit_bytes (Some name) (zlen name);;
             emit_char (chr "=");;
             emit_value Spec field;;
             emit_fields false rest
         end) first fields) l).
    { clear Hout out. induction IH as [|[name field] rest Hfield _ IHrest]; intros first l Hl.
      - injection Hl as <-. apply outputs_ret.
      - cbn [snd] in Hfield. destruct Hty as (Hname & Hf & Hrest).
        apply bind_Some in Hl as (t & Ht & Hl). apply bind_Some in Hl as (ts & Hts & Hl).
        apply (inj Some) in Hl. subst l. apply outputs_seq; [apply outputs_separator|].
        apply outputs_seq; [apply outputs_whole|].
        apply outputs_seq; [apply outputs_char|]. apply outputs_seq; [by apply Hfield | by apply IHrest]. }
    apply bind_Some in Hout as (l & Hl & Hout). apply (inj Some) in Hout. subst out.
    apply outputs_seq; [apply outputs_char|]. apply outputs_seq; [by apply Hgen | apply outputs_char].
Qed.
End Values.

(** ** Formats *)

(** What a format means from an offset: literal characters, and the fields of [FormatGrammar.v]. *)
Inductive segment : Type :=
| Literal (c : char)
| Field (spec : format_spec).

Section Formats.
Context (fmt : list char).

Inductive denotes : Z -> list segment -> Prop :=
| denotes_end offset : offset = zlen fmt -> denotes offset []
| denotes_open offset l : 0 <= offset -> offset + 1 < zlen fmt ->
    znth fmt offset = chr "{" -> znth fmt (offset + 1) = chr "{" ->
    denotes (offset + 2) l -> denotes offset (Literal (chr "{") :: l)
| denotes_close offset l : 0 <= offset -> offset + 1 < zlen fmt ->
    znth fmt offset = chr "}" -> znth fmt (offset + 1) = chr "}" ->
    denotes (offset + 2) l -> denotes offset (Literal (chr "}") :: l)
| denotes_field offset f l : 0 <= offset -> field_at fmt offset f ->
    denotes (offset + zlen (field_text f)) l -> denotes offset (Field (meaning f) :: l)
| denotes_plain offset l : 0 <= offset < zlen fmt ->
    znth fmt offset <> chr "{" -> znth fmt offset <> chr "}" ->
    denotes (offset + 1) l -> denotes offset (Literal (znth fmt offset) :: l).

Fixpoint fields (l : list segment) : list format_spec :=
  match l with
  | [] => []
  | Literal _ :: l => fields l
  | Field spec :: l => spec :: fields l
  end.

(** *** The fields that are accepted *)

(** An index within the format that parsing has reached; the number parsed fits 64 bits. *)
Lemma parse_digits_bounds fuel number index :
  0 <= number < 2 ^ 64 -> index <= zlen fmt ->
  let r := parse_digits fmt fuel number index in
  0 <= fst r < 2 ^ 64 /\ index <= snd r <= zlen fmt.
Proof.
  revert number index. induction fuel as [|fuel IH]; intros number index Hn Hi; cbn [parse_digits]; [cbn; lia|].
  destruct (Z.ltb_spec index (zlen fmt)); cbn [andb]; [|cbn; lia].
  destruct (is_format_digit (znth fmt index)); [|cbn; lia].
  specialize (IH (u64 (number * 10 + format_digit_value (znth fmt index))) (index + 1)).
  destruct IH as [H1 H2]; [apply wrap_range; lia | lia|]. cbn in *. split; [done | lia].
Qed.

(** A part of [parse_field_at] that reads flags: it advances within the format and leaves the
    numbers alone. *)
Definition flags_part (p q : format_spec * Z) : Prop :=
  snd p <= snd q <= zlen fmt /\ width (fst q) = width (fst p) /\ precision (fst q) = precision (fst p).

Lemma parse_align_part p : snd p < zlen fmt -> flags_part p (parse_align fmt p).
Proof.
  destruct p as [spec i]. cbn. intros Hi. unfold flags_part, parse_align.
  destruct (Z.ltb_spec (i + 1) (zlen fmt)); cbn [andb]; repeat case_match; cbn; repeat split; lia.
Qed.

Lemma parse_sign_part p : snd p <= zlen fmt -> flags_part p (parse_sign fmt p).
Proof.
  destruct p as [spec i]. cbn. intros Hi. unfold flags_part, parse_sign.
  destruct (Z.ltb_spec i (zlen fmt)); cbn [andb]; repeat case_match; cbn; repeat split; lia.
Qed.

Lemma parse_alternate_part p : snd p <= zlen fmt -> flags_part p (parse_alternate fmt p).
Proof.
  destruct p as [spec i]. cbn. intros Hi. unfold flags_part, parse_alternate.
  destruct (Z.ltb_spec i (zlen fmt)); cbn [andb]; repeat case_match; cbn; repeat split; lia.
Qed.

Lemma parse_zero_part p : snd p <= zlen fmt -> flags_part p (parse_zero fmt p).
Proof.
  destruct p as [spec i]. cbn. intros Hi. unfold flags_part, parse_zero.
  destruct (Z.ltb_spec i (zlen fmt)); cbn [andb]; repeat case_match; cbn; repeat split; lia.
Qed.

Lemma flags_part_trans p q r : flags_part p q -> flags_part q r -> flags_part p r.
Proof. unfold flags_part. intuition (congruence || lia). Qed.

Lemma parse_flags_part p : snd p < zlen fmt ->
  flags_part p (parse_zero fmt (parse_alternate fmt (parse_sign fmt (parse_align fmt p)))).
Proof.
  intros Hp. pose proof (parse_align_part p Hp) as H1.
  pose proof (parse_sign_part (parse_align fmt p) ltac:(apply H1)) as H2.
  pose proof (parse_alternate_part (parse_sign fmt (parse_align fmt p)) ltac:(apply H2)) as H3.
  pose proof (parse_zero_part (parse_alternate fmt (parse_sign fmt (parse_align fmt p)))
    ltac:(apply H3)) as H4.
  eauto using flags_part_trans.
Qed.

Lemma parse_width_part p : 0 <= width (fst p) < 2 ^ 64 -> snd p <= zlen fmt ->
  let q := parse_width fmt p in
  snd p <= snd q <= zlen fmt /\ 0 <= width (fst q) < 2 ^ 64 /\ precision (fst q) = precision (fst p).
Proof.
  destruct p as [spec i]. cbn [fst snd]. intros Hw Hi. unfold parse_width, parse_number.
  pose proof (parse_digits_bounds (length fmt) (width spec) i Hw Hi) as Hd.
  destruct (parse_digits fmt (length fmt) (width spec) i) as [n j]. cbn in Hd |- *.
  destruct (i <? j); cbn; repeat split; lia.
Qed.

Lemma parse_precision_part p q :
  0 <= precision (fst p) <= MAX_FLOAT_PRECISION -> snd p <= zlen fmt -> parse_precision fmt p = Some q ->
  snd p <= snd q <= zlen fmt /\ 0 <= precision (fst q) <= MAX_FLOAT_PRECISION /\
  width (fst q) = width (fst p) /\ has_width (fst q) = has_width (fst p).
Proof.
  destruct p as [spec i]. cbn [fst snd]. intros Hp Hi. unfold parse_precision, parse_number, MAX_FLOAT_PRECISION in *.
  destruct ((i <? zlen fmt) && (znth fmt i =? chr ".")); [|by intros [= <-]].
  destruct (Z.leb_spec (zlen fmt) (i + 1)); cbn [orb]; [done|].
  destruct (negb _); [done|].
  pose proof (parse_digits_bounds (length fmt) (precision spec) (i + 1) ltac:(lia) ltac:(lia)) as Hd.
  destruct (parse_digits fmt (length fmt) (precision spec) (i + 1)) as [n j]. cbn in Hd.
  destruct (Z.ltb_spec 18 n); [done|]. intros [= <-]. cbn. repeat split; lia.
Qed.

Lemma parse_type_part p q : snd p <= zlen fmt -> parse_type fmt p = Some q ->
  snd p <= snd q <= zlen fmt /\ precision (fst q) = precision (fst p) /\
  width (fst q) = width (fst p) /\ has_width (fst q) = has_width (fst p).
Proof.
  destruct p as [spec i]. cbn [fst snd]. intros Hi. unfold parse_type.
  destruct (Z.ltb_spec i (zlen fmt)); cbn [andb]; [|by intros [= <-]].
  destruct (negb _); [|by intros [= <-]]. destruct (presentation_of (znth fmt i)); [|done].
  intros [= <-]. cbn. repeat split; lia.
Qed.

(** A field that is accepted lies within the format, ends with its brace, and asks for no more
    than the limits. *)
Lemma parse_field_bounds offset :
  0 <= offset -> field_valid (parse_field_at fmt offset) = true ->
  let f := parse_field_at fmt offset in
  2 <= field_length f /\ offset + field_length f <= zlen fmt /\
  znth fmt (offset + field_length f - 1) = chr "}" /\
  (has_width (field_spec f) = true -> width (field_spec f) <= MAX_FORMAT_WIDTH) /\
  0 <= width (field_spec f) /\ 0 <= precision (field_spec f) <= MAX_FLOAT_PRECISION.
Proof.
  intros Ho. unfold parse_field_at.
  destruct (Z.leb_spec (zlen fmt) (offset + 1)); [done|]. cbn [orb].
  destruct (Z.eqb_spec (znth fmt offset) (chr "{")); [|done]. cbn [negb].
  destruct (Z.eqb_spec (znth fmt (offset + 1)) (chr "}")) as [Hclose|_].
  { intros _. cbn. replace (offset + 2 - 1) with (offset + 1) by lia.
    repeat split; try done; unfold MAX_FLOAT_PRECISION; lia. }
  destruct (Z.eqb_spec (znth fmt (offset + 1)) (chr ":")); [|done]. cbn [negb].
  destruct (Z.leb_spec (zlen fmt) (offset + 2)); [done|].
  pose proof (parse_flags_part (default_format_spec, offset + 2) ltac:(cbn; lia)) as Hflags.
  destruct (parse_zero _ _) as [s1 i1]. destruct Hflags as ((Hi1 & Hi1') & Hw1 & Hp1). cbn in Hi1, Hi1', Hw1, Hp1.
  pose proof (parse_width_part (s1, i1) ltac:(cbn; lia) ltac:(cbn; lia)) as Hwidth.
  destruct (parse_width fmt (s1, i1)) as [s2 i2]. cbn in Hwidth.
  destruct (has_width s2 && (MAX_FORMAT_WIDTH <? width s2)) eqn:Hmax; [done|].
  destruct (parse_precision fmt (s2, i2)) as [[s3 i3]|] eqn:Hprec; [|done].
  apply parse_precision_part in Hprec; [|unfold MAX_FLOAT_PRECISION; cbn; lia | cbn; lia]. cbn in Hprec.
  destruct (parse_type fmt (s3, i3)) as [[s4 i4]|] eqn:Htype; [|done].
  apply parse_type_part in Htype; [|cbn; lia]. cbn in Htype.
  destruct (Z.leb_spec (zlen fmt) i4); [done|]. cbn [orb].
  destruct (Z.eqb_spec (znth fmt i4) (chr "}")) as [Hend|]; [|done]. cbn. intros _.
  replace (offset + (i4 - offset + 1) - 1) with i4 by lia.
  destruct Hwidth as (? & ? & ?), Hprec as (? & ? & Hw3 & Hh3), Htype as (? & ? & Hw4 & Hh4).
  repeat split; try lia. rewrite Hh4, Hh3, Hw4, Hw3. intros Hh. rewrite Hh in Hmax. cbn in Hmax. lia.
Qed.

(** *** The format as a whole *)

(** A field where the parser stands. *)
Lemma field_at_parsed offset f : 0 <= offset -> field_at fmt offset f ->
  offset < zlen fmt /\ znth fmt offset = chr "{" /\
  ~ (offset + 1 < zlen fmt /\ znth fmt (offset + 1) = chr "{") /\
  field_valid (parse_field_at fmt offset) = true /\
  zlen (field_text f) = field_length (parse_field_at fmt offset) /\
  meaning f = field_spec (parse_field_at fmt offset).
Proof.
  intros Ho Hf. pose proof (parse_field_complete fmt offset f Ho Hf) as Hparse.
  destruct Hf as (rest & Htext & _).
  assert (Hr : reads fmt offset (field_text f ++ rest)).
  { split; [|done]. split; [done|]. destruct (Z.leb_spec offset (zlen fmt)); [done|]. exfalso.
    rewrite drop_ge in Htext by (unfold zlen in *; lia). by destruct f. }
  rewrite Hparse. assert (Hbrace : exists d t, field_text f ++ rest = chr "{" :: d :: t /\ d <> chr "{").
  { destruct f; eexists _, _; by split. }
  destruct Hbrace as (d & t & Heq & Hd). rewrite Heq in Hr.
  destruct (reads_cons _ _ _ _ Hr) as (Hlt & _ & Hc & Hr1).
  destruct (reads_cons _ _ _ _ Hr1) as (_ & _ & Hn & _).
  split; [by apply Z.ltb_lt|]. split; [done|]. split; [|done]. intros [_ Hbad]. congruence.
Qed.

(** A field that the parser accepts is one of the format. *)
Lemma denotes_parsed offset l : 0 <= offset ->
  field_valid (parse_field_at fmt offset) = true ->
  denotes (offset + field_length (parse_field_at fmt offset)) l ->
  denotes offset (Field (field_spec (parse_field_at fmt offset)) :: l).
Proof.
  intros Ho Hv Hl. destruct (parse_field_sound fmt offset Ho Hv) as (f & Hf).
  destruct (field_at_parsed offset f Ho Hf) as (_ & _ & _ & _ & Hlen & Hspec).
  rewrite <- Hspec. apply denotes_field; [done | done | by rewrite Hlen].
Qed.

Lemma denotes_range offset l : denotes offset l -> 0 <= offset <= zlen fmt.
Proof.
  intros Hd. inversion Hd as [| | |o f l' H0 Hf Hr|]; subst; try (unfold zlen in *; lia).
  destruct (field_at_parsed _ _ H0 Hf) as [? _]. lia.
Qed.

(** Fuel enough for the rest of the format: parsing accepts it exactly when it has a meaning, and
    counts its fields. *)
Lemma parse_format_accepts fuel count index l :
  denotes index l -> zlen fmt - index <= Z.of_nat fuel ->
  parse_format_from fmt fuel count index =
    {| parse_valid := true; field_count := count + zlen (fields l) |}.
Proof.
  intros Hd. revert count index l Hd. induction fuel as [|fuel IH]; intros count index l Hd Hfuel.
  - pose proof (denotes_range _ _ Hd). cbn [parse_format_from].
    inversion Hd as [| | |o f l' H0 Hf Hr|]; subst; try lia; [cbn; f_equal; unfold zlen; cbn; lia|].
    destruct (field_at_parsed _ _ H0 Hf) as [? _]. lia.
  - cbn [parse_format_from]. inversion Hd as [o Ho|o l' H0 H1 Ha Hb Hr|o l' H0 H1 Ha Hb Hr|o f l' H0 Hf Hr|o l' H0 Ha Hb Hr]; subst.
    + rewrite (proj2 (Z.ltb_ge _ _)) by lia. cbn. f_equal. unfold zlen. cbn. lia.
    + rewrite (proj2 (Z.ltb_lt index _)), Ha, Z.eqb_refl by lia. cbn [negb].
      rewrite (proj2 (Z.ltb_lt (index + 1) _)), Hb, Z.eqb_refl by lia. cbn [andb]. apply (IH _ _ l'); [done | lia].
    + rewrite (proj2 (Z.ltb_lt index _)), Ha by lia. cbn [negb]. change (chr "}" =? chr "{") with false.
      rewrite Z.eqb_refl, (proj2 (Z.ltb_lt (index + 1) _)), Hb, Z.eqb_refl by lia. cbn [andb].
      apply (IH _ _ l'); [done | lia].
    + destruct (field_at_parsed _ _ H0 Hf) as (Hlt & Ha & Hb & Hv & Heq & _). rewrite Heq in Hr.
      pose proof (parse_field_bounds index ltac:(lia) Hv) as (Hlen & _).
      rewrite (proj2 (Z.ltb_lt index _)), Ha, Z.eqb_refl by lia. cbn [negb].
      destruct ((index + 1 <? zlen fmt) && (znth fmt (index + 1) =? chr "{")) eqn:Hesc.
      { destruct Hb. apply andb_true_iff in Hesc as [?%Z.ltb_lt ?%Z.eqb_eq]. done. }
      rewrite Hv, (IH _ _ l') by (done || lia). f_equal. cbn [fields]. unfold zlen. cbn [length]. lia.
    + rewrite (proj2 (Z.ltb_lt index _)), (proj2 (Z.eqb_neq _ _) Ha), (proj2 (Z.eqb_neq _ _) Hb) by lia.
      cbn [negb]. apply (IH _ _ l'); [done | lia].
Qed.

Lemma parse_format_means fuel count index :
  0 <= index <= zlen fmt -> zlen fmt - index <= Z.of_nat fuel ->
  parse_valid (parse_format_from fmt fuel count index) = true -> exists l, denotes index l.
Proof.
  revert count index. induction fuel as [|fuel IH]; intros count index Hi Hfuel; cbn [parse_format_from].
  { intros _. exists []. apply denotes_end. lia. }
  destruct (Z.ltb_spec index (zlen fmt)) as [Hlt|]; cbn [negb].
  2:{ intros _. exists []. apply denotes_end. lia. }
  destruct (Z.eqb_spec (znth fmt index) (chr "{")) as [Hopen|Hopen].
  - destruct ((index + 1 <? zlen fmt) && (znth fmt (index + 1) =? chr "{")) eqn:Hesc.
    + apply andb_true_iff in Hesc as [Hn%Z.ltb_lt Hc%Z.eqb_eq]. intros Hv.
      apply IH in Hv as [l Hl]; [|lia|lia]. eexists. apply denotes_open; done || lia.
    + destruct (field_valid (parse_field_at fmt index)) eqn:Hf; [|done].
      pose proof (parse_field_bounds index ltac:(lia) Hf) as (Hlen & Hend & _). intros Hv.
      apply IH in Hv as [l Hl]; [|lia|lia]. eexists. by apply (denotes_parsed index l); [lia|..].
  - destruct (Z.eqb_spec (znth fmt index) (chr "}")) as [Hclose|Hclose].
    + destruct ((index + 1 <? zlen fmt) && (znth fmt (index + 1) =? chr "}")) eqn:Hesc; [|done].
      apply andb_true_iff in Hesc as [Hn%Z.ltb_lt Hc%Z.eqb_eq]. intros Hv.
      apply IH in Hv as [l Hl]; [|lia|lia]. eexists. apply denotes_close; done || lia.
    + intros Hv. apply IH in Hv as [l Hl]; [|lia|lia]. eexists. apply (denotes_plain index l); [lia | done..].
Qed.

(** A run of plain characters is a run of literals. *)
Lemma literal_run_spec fuel index l :
  denotes index l ->
  exists l', let stop := literal_run_from fmt fuel index in
    index <= stop <= zlen fmt /\ denotes stop l' /\
    l = (Literal <$> take (Z.to_nat (stop - index)) (drop (Z.to_nat index) fmt)) ++ l' /\
    (index < zlen fmt -> znth fmt index <> chr "{" -> znth fmt index <> chr "}" -> fuel <> 0%nat -> index < stop).
Proof.
  revert index l. induction fuel as [|fuel IH]; intros index l Hd; cbn [literal_run_from].
  { exists l. pose proof (denotes_range _ _ Hd). rewrite Z.sub_diag. repeat split; done || lia. }
  pose proof (denotes_range _ _ Hd) as Hi.
  destruct (Z.ltb_spec index (zlen fmt)) as [Hlt|]; cbn [negb].
  2:{ exists l. rewrite Z.sub_diag. repeat split; done || lia. }
  destruct ((znth fmt index =? chr "{") || (znth fmt index =? chr "}")) eqn:Hbrace.
  { exists l. rewrite Z.sub_diag. split; [lia|]. split; [done|]. split; [done|]. intros _ H1 H2.
    apply orb_true_iff in Hbrace as [Hb%Z.eqb_eq|Hb%Z.eqb_eq]; done. }
  apply orb_false_iff in Hbrace as [Hno%Z.eqb_neq Hnc%Z.eqb_neq].
  inversion Hd as [|? ? ? ? Ha|? ? ? ? Ha|? ? ? H0 Hf|? l0 ? ? ? Hr]; subst; try lia; try done.
  { by destruct (field_at_parsed _ _ H0 Hf) as (_ & ? & _). }
  destruct (IH _ _ Hr) as (l' & Hstop & Hden & -> & _). exists l'.
  set (stop := literal_run_from fmt fuel (index + 1)) in *. split; [lia|]. split; [done|].
  split; [|intros; lia].
  replace (Z.to_nat (stop - index)) with (S (Z.to_nat (stop - (index + 1)))) by lia.
  replace (Z.to_nat (index + 1)) with (S (Z.to_nat index)) by lia.
  destruct (lookup_lt_is_Some_2 fmt (Z.to_nat index)) as [x Hx]; [unfold zlen in *; lia|].
  rewrite (drop_S _ _ _ Hx). cbn. f_equal. f_equal. unfold znth. by apply list_lookup_total_correct.
Qed.

(** What a format prints for its arguments, in order. *)
Fixpoint render (l : list segment) (args : list value) : option (list char) :=
  match l with
  | [] => match args with [] => Some [] | _ :: _ => None end
  | Literal c :: l => out ← render l args; Some (c :: out)
  | Field spec :: l =>
      match args with
      | [] => None
      | v :: args => t ← value_text spec v; out ← render l args; Some (t ++ out)
      end
  end.

Lemma render_count l args out : render l args = Some out -> zlen (fields l) = zlen args.
Proof.
  revert args out. induction l as [|[c|spec] l IH]; intros args out Hr; cbn [render fields] in *.
  - by destruct args.
  - apply bind_Some in Hr as (out' & Hr & _). by eapply IH.
  - destruct args as [|v args]; [done|]. apply bind_Some in Hr as (t & _ & Hr).
    apply bind_Some in Hr as (out' & Hr & _). apply IH in Hr. unfold zlen in *. cbn [length]. lia.
Qed.

Lemma render_literals run l args out :
  render ((Literal <$> run) ++ l) args = Some out ->
  exists out', out = run ++ out' /\ render l args = Some out'.
Proof.
  revert out. induction run as [|c run IH]; intros out Hr; [by exists out|].
  cbn [fmap list_fmap app render] in Hr. apply bind_Some in Hr as (out1 & Hr & Heq).
  apply (inj Some) in Heq. subst out. apply IH in Hr as (out' & -> & Hr). by exists out'.
Qed.

Lemma char_in i : 0 <= i < zlen fmt -> format_char_at fmt i = znth fmt i.
Proof. intros Hi. unfold format_char_at. by rewrite (proj2 (Z.leb_gt _ _)) by lia. Qed.

(** The walk over the format prints its rendering. *)
Lemma outputs_format fuel offset l arg_index args out :
  denotes offset l -> zlen fmt - offset < Z.of_nat fuel -> 0 <= arg_index ->
  Forall typed args -> render l (drop (Z.to_nat arg_index) args) = Some out ->
  outputs (emit_format fuel fmt offset arg_index args) out.
Proof.
  intros Hd. revert offset l arg_index out Hd. induction fuel as [|fuel IH];
    intros offset l arg_index out Hd Hfuel Harg Hty Hr.
  { pose proof (denotes_range _ _ Hd). lia. }
  pose proof (denotes_range _ _ Hd) as Hrange. cbn [emit_format].
  destruct (Z.leb_spec (zlen fmt) offset) as [Hend|Hlt].
  { inversion Hd as [| | |? ? ? H0 Hf|]; subst; try lia.
    2:{ destruct (field_at_parsed _ _ H0 Hf) as [? _]. lia. }
    cbn [render] in Hr. destruct (drop _ args); [|done]. injection Hr as <-. apply outputs_ret. }
  rewrite (char_in offset) by lia.
  inversion Hd as [o Ho|o l' H0 H1 Ha Hb Hn|o l' H0 H1 Ha Hb Hn|o f l' H0 Hf Hn|o l' H0 Ha Hb Hn]; subst; [lia| | | |].
  - cbn [render] in Hr. apply bind_Some in Hr as (out' & Hr & Heq). apply (inj Some) in Heq. subst out.
    rewrite char_in, Ha, Hb, !Z.eqb_refl by lia. cbn [andb].
    apply (outputs_seq _ _ [_]); [apply outputs_char|]. eapply IH; done || lia.
  - cbn [render] in Hr. apply bind_Some in Hr as (out' & Hr & Heq). apply (inj Some) in Heq. subst out.
    rewrite char_in, Ha, Hb by lia. change (chr "}" =? chr "{") with false. rewrite !Z.eqb_refl. cbn [andb].
    apply (outputs_seq _ _ [_]); [apply outputs_char|]. eapply IH; done || lia.
  - destruct (field_at_parsed _ _ H0 Hf) as (_ & Ha & Hb & Hv & Hsize & Hspec). rewrite Hsize in Hn.
    rewrite Hspec in Hr.
    pose proof (parse_field_bounds offset ltac:(lia) Hv) as (Hlen & Hend & _ & _ & Hw & Hp & _).
    rewrite Ha. change (chr "{" =? chr "}") with false. rewrite Z.eqb_refl. cbn [andb].
    destruct (Z.eqb_spec (format_char_at fmt (offset + 1)) (chr "{")) as [Hc|Hc].
    { destruct Hb. unfold format_char_at in Hc. destruct (Z.leb_spec (zlen fmt) (offset + 1)); [done|].
      split; [lia | done]. }
    apply outputs_assert; [done|]. cbn [render] in Hr.
    destruct (drop (Z.to_nat arg_index) args) as [|v rest] eqn:Hdrop; [done|].
    apply bind_Some in Hr as (t & Ht & Hr). apply bind_Some in Hr as (out' & Hr & Heq).
    apply (inj Some) in Heq. subst out.
    assert (Hv' : args !! Z.to_nat arg_index = Some v).
    { pose proof (lookup_drop args (Z.to_nat arg_index) 0) as Hl. by rewrite Hdrop, Nat.add_0_r in Hl. }
    apply outputs_seq.
    + unfold emit_nth_arg. rewrite Hv'. apply outputs_value; [by split | | done].
      rewrite Forall_lookup in Hty. by eapply Hty.
    + eapply IH; [exact Hn | lia | lia | done |].
      replace (Z.to_nat (arg_index + 1)) with (Z.to_nat arg_index + 1)%nat by lia.
      by rewrite <- drop_drop, Hdrop.
  - rewrite (proj2 (Z.eqb_neq _ _) Ha), (proj2 (Z.eqb_neq _ _) Hb). cbn [andb].
    destruct (literal_run_spec (length fmt) offset _ Hd) as (l2 & Hstop & Hd2 & Hl2 & Hprogress).
    unfold literal_run_length. set (stop := literal_run_from fmt (length fmt) offset) in *.
    assert (offset < stop).
    { apply Hprogress; try done. unfold zlen in Hlt. lia. }
    rewrite (proj2 (Z.ltb_lt _ _)) by lia. rewrite Hl2 in Hr.
    apply render_literals in Hr as (out' & -> & Hr). apply outputs_seq.
    + apply outputs_bytes. unfold zlen in *. rewrite length_drop. lia.
    + replace (offset + (stop - offset)) with stop by lia. eapply IH; [exact Hd2 | lia | done | done | done].
Qed.

End Formats.

(** ** The properties *)

Definition decimal_value (c : char) : Z := c - chr "0".

Definition hex_value (c : char) : Z :=
  if c <=? chr "9" then c - chr "0" else if c <=? chr "F" then c - chr "A" + 10 else c - chr "a" + 10.

Lemma decimal_digit_value x : decimal_value (decimal_digit x) = x mod 10.
Proof. unfold decimal_value, decimal_digit. lia. Qed.

Lemma hex_digit_value u x : 0 <= x -> hex_value (hex_digit u x) = x mod 16.
Proof.
  intros Hx. unfold hex_digit. change 15 with (Z.ones 4). rewrite Z.land_ones by lia.
  change (2 ^ 4) with 16. pose proof (Z.mod_pos_bound x 16 ltac:(lia)) as Hd.
  set (d := x mod 16) in *. clearbody d.
  assert (Hcases : d ∈ seqZ 0 16) by (apply elem_of_seqZ; lia). clear Hd.
  revert d Hcases. apply Forall_forall. destruct u; by repeat constructor.
Qed.

(** Numbers read back: the digits that [format_u64_decimal] and [format_u64_hex] write, in either
    case, denote the value, fit the buffers of the callers (20 and 16 characters), and have no
    leading zero. *)
Theorem format_u64_roundtrip v uppercase b1 b2 :
  0 <= v < 2 ^ 64 -> zlen b1 = 20 -> zlen b2 = 16 ->
  wp (format_u64_decimal v) (fun n b => 1 <= n <= 20 /\
    digits_value 10 decimal_value (take (Z.to_nat n) b) = v /\ (0 < v -> 10 ^ (n - 1) <= v)) b1 /\
  wp (format_u64_hex v uppercase) (fun n b => 1 <= n <= 16 /\
    digits_value 16 hex_value (take (Z.to_nat n) b) = v /\ (0 < v -> 16 ^ (n - 1) <= v)) b2.
Proof.
  intros Hv H1 H2. split.
  - apply wp_format_u64_decimal; [done | lia|]. intros b Hb Ht.
    split; [apply (number_text_length 10 decimal_digit 20); lia|]. split.
    + replace (Z.to_nat (zlen (decimal_text v))) with (length (decimal_text v)) by (unfold zlen; lia).
      rewrite Ht. apply number_text_value; [lia | intros; apply decimal_digit_value | lia].
    + intros Hpos. apply number_text_leading; lia.
  - apply wp_format_u64_hex; [done | lia|]. intros b Hb Ht.
    split; [apply (number_text_length 16 (hex_digit uppercase) 16); lia|]. split.
    + replace (Z.to_nat (zlen (hex_text uppercase v))) with (length (hex_text uppercase v)) by (unfold zlen; lia).
      rewrite Ht. apply number_text_value; [lia | by intros; apply hex_digit_value | lia].
    + intros Hpos. apply number_text_leading; lia.
Qed.

(** Fields: whatever the prefix and the body, [emit_padded] prints exactly the wider of the asked
    width and the content, with the content in one piece unless zeros separate its prefix. *)
Theorem emit_padded_correct Spec p np b nb numeric :
  0 <= np <= zlen p -> 0 <= nb <= zlen b -> zlen p < 2 ^ 63 -> zlen b < 2 ^ 63 ->
  exists out, outputs (emit_padded Spec (Some p) np (Some b) nb numeric) out /\
    zlen out = Z.max (if has_width Spec then width Spec else 0) (np + nb) /\
    exists left middle right, out = left ++ take (Z.to_nat np) p ++ middle ++ take (Z.to_nat nb) b ++ right /\
      Forall (fun c => c = chr "0" /\ numeric = true /\ zero_pad Spec = true) middle /\
      Forall (fun c => c = fill Spec) (left ++ right).
Proof.
  intros Hnp Hnb Hp Hb. eexists. split; [by apply outputs_padded|].
  set (P := take (Z.to_nat np) p). set (T := take (Z.to_nat nb) b). split.
  - rewrite zlen_pad, zlen_app. f_equal. unfold P, T, zlen in *. rewrite !length_take. lia.
  - assert (Hfill : forall c n, Forall (fun x => x = c) (filling c n)).
    { intros c n. apply Forall_replicate. done. }
    assert (Hplain : forall left right, Forall (fun x => x = fill Spec) left ->
      Forall (fun x => x = fill Spec) right -> exists l m r,
      left ++ P ++ T ++ right = l ++ P ++ m ++ T ++ r /\
      Forall (fun c => c = chr "0" /\ numeric = true /\ zero_pad Spec = true) m /\
      Forall (fun c => c = fill Spec) (l ++ r)).
    { intros left right Hl Hr. exists left, [], right. split; [done|]. split; [done | by apply Forall_app]. }
    unfold pad. set (n := gap Spec (P ++ T)).
    assert (Hright : exists l m r,
      (if numeric && zero_pad Spec then P ++ filling (chr "0") n ++ T else filling (fill Spec) n ++ P ++ T) =
      l ++ P ++ m ++ T ++ r /\
      Forall (fun c => c = chr "0" /\ numeric = true /\ zero_pad Spec = true) m /\
      Forall (fun c => c = fill Spec) (l ++ r)).
    { destruct (numeric && zero_pad Spec) eqn:Hz.
      - apply andb_true_iff in Hz as [-> ->]. exists [], (filling (chr "0") n), [].
        rewrite app_nil_r. split; [done|]. split; [by apply Forall_replicate | done].
      - destruct (Hplain (filling (fill Spec) n) []) as (l & m & r & Heq & ?); [done | done|].
        rewrite app_nil_r in Heq. by exists l, m, r. }
    destruct (alignment Spec numeric); [exact Hright | | exact Hright | by apply Hplain].
    by apply (Hplain []).
Qed.

Lemma fields_bounded fmt offset l : denotes fmt offset l ->
  Forall (fun spec => (has_width spec = true -> width spec <= MAX_FORMAT_WIDTH) /\
    0 <= precision spec <= MAX_FLOAT_PRECISION) (fields l).
Proof.
  induction 1 as [| | |o f l Ho Hf _ IH|]; cbn [fields]; [constructor | done | done | | done].
  constructor; [|done]. destruct (field_at_parsed _ _ _ Ho Hf) as (_ & _ & _ & Hv & _ & ->).
  pose proof (parse_field_bounds fmt o ltac:(lia) Hv) as (_ & _ & _ & Hw & _ & Hp). by split.
Qed.

(** C11: Formats: [parse_format] accepts exactly the formats that have a meaning by the grammar of
    [FormatGrammar.v], and counts their fields; every field keeps to the limits on width and
    precision, which hold for the numbers as they are read, modulo 2^64. *)
Theorem parse_format_correct fmt :
  (parse_valid (parse_format fmt) = true <-> exists l, denotes fmt 0 l) /\
  forall l, denotes fmt 0 l -> field_count (parse_format fmt) = zlen (fields l) /\
    Forall (fun spec => (has_width spec = true -> width spec <= MAX_FORMAT_WIDTH) /\
      0 <= precision spec <= MAX_FLOAT_PRECISION) (fields l).
Proof.
  split; [split|].
  - apply parse_format_means; unfold zlen; lia.
  - intros [l Hl]. unfold parse_format. by rewrite (parse_format_accepts _ _ _ _ l) by (done || unfold zlen; lia).
  - intros l Hl. split.
    + unfold parse_format. by rewrite (parse_format_accepts _ _ _ _ l) by (done || unfold zlen; lia).
    + by eapply fields_bounded.
Qed.

Lemma outputs_kprint fmt l args out :
  denotes fmt 0 l -> Forall typed args -> render l args = Some out ->
  outputs (kprint_ct fmt args) out.
Proof.
  intros Hl Hty Hr. unfold kprint_ct, parse_format.
  rewrite (parse_format_accepts _ _ _ _ l) by (done || unfold zlen; lia). cbn [parse_valid field_count].
  apply outputs_assert; [done|]. apply outputs_assert.
  { rewrite (render_count _ _ _ Hr). apply Z.eqb_refl. }
  eapply outputs_format; [done | unfold zlen; lia | done | done | by rewrite drop_0].
Qed.


(** ** The properties at work *)

Lemma format_u64_roundtrip_witness :
  0 <= 1234 < 2 ^ 64 /\
  wp (format_u64_decimal 1234) (fun n b => 1 <= n <= 20 /\
    digits_value 10 decimal_value (take (Z.to_nat n) b) = 1234 /\ (0 < 1234 -> 10 ^ (n - 1) <= 1234)) (blank 20) /\
  wp (format_u64_hex 1234 true) (fun n b => 1 <= n <= 16 /\
    digits_value 16 hex_value (take (Z.to_nat n) b) = 1234 /\ (0 < 1234 -> 16 ^ (n - 1) <= 1234)) (blank 16).
Proof. split; [lia|]. apply format_u64_roundtrip; [lia | done | done]. Defined.

Lemma emit_padded_correct_witness :
  exists out, outputs (emit_padded (with_width 6 default_format_spec) (Some (chars "-")) 1
      (Some (chars "42")) 2 true) out /\
    zlen out = Z.max 6 (1 + 2) /\
    exists left middle right, out = left ++ take 1 (chars "-") ++ middle ++ take 2 (chars "42") ++ right /\
      Forall (fun c => c = chr "0" /\ true = true /\ zero_pad default_format_spec = true) middle /\
      Forall (fun c => c = fill default_format_spec) (left ++ right).
Proof.
  exact (emit_padded_correct (with_width 6 default_format_spec) (chars "-") 1 (chars "42") 2 true
    ltac:(done) ltac:(done) ltac:(done) ltac:(done)).
Defined.

(** The field [{:d}]. *)
Definition plain_decimal : field_syntax := Colon {| body_fill := None; body_align := ALIGN_DEFAULT;
  body_sign := SIGN_DEFAULT; body_alternate := false; body_zero := false; body_width := [];
  body_precision := None; body_type := DECIMAL |}.

Lemma example_denotes : denotes (chars "n={:d}") 0
  [Literal 110; Literal 61; Field (with_presentation DECIMAL default_format_spec)].
Proof.
  set (fmt := chars "n={:d}"). change 110 with (znth fmt 0). apply denotes_plain; [done..|].
  change 61 with (znth fmt 1). apply denotes_plain; [done..|].
  change (with_presentation DECIMAL default_format_spec) with (meaning plain_decimal).
  apply denotes_field; [done | | by apply denotes_end]. exists []. split; [done|].
  split; [|done]. split; cbn; (done || tauto).
Qed.


Lemma parse_format_correct_witness :
  denotes (chars "n={:d}") 0
    [Literal 110; Literal 61; Field (with_presentation DECIMAL default_format_spec)] /\
  parse_valid (parse_format (chars "n={:d}")) = true /\ field_count (parse_format (chars "n={:d}")) = 1 /\
  ~ exists l, denotes (chars "{:q}") 0 l.
Proof.
  split; [apply example_denotes|]. split; [|split].
  - apply (parse_format_correct (chars "n={:d}")). eexists. apply example_denotes.
  - by destruct (proj2 (parse_format_correct (chars "n={:d}")) _ example_denotes) as [-> _].
  - intros H%(proj2 (proj1 (parse_format_correct (chars "{:q}")))). discriminate H.
Defined.

(** A fill may be any character, the closing brace too: [{:}] before the letter of an alignment is
    not the field [{:}], and the format is refused. *)
Example parse_brace_fill :
  parse_valid (parse_format (chars "{:} ok")) = true /\ parse_valid (parse_format (chars "{:}> ok")) = false /\
  fill (field_spec (parse_field_at (chars "{:}>4d}") 0)) = chr "}".
Proof. repeat split. Qed.

(** The width is accumulated in 64 bits before it is compared with the limit: a longer number
    wraps around and is accepted. *)
Example parse_width_wraps :
  field_valid (parse_field_at (chars "{:18446744073709551621d}") 0) = true /\
  width (field_spec (parse_field_at (chars "{:18446744073709551621d}") 0)) = 5.
Proof. split; vm_compute; reflexivity. Qed.

(** Whole formats. *)
Example print_fields :
  print (kprint_ct (chars "{{{}}} {:#06x}|{:>5}|{:^7s}|{:+d} {}") [VUnsigned 42; VUnsigned 255; VSigned (-7);
    VCString 1 (Some (chars "abc" ++ [NUL])); VSigned 3;
    VAggregate [(chars "x", VBool true); (chars "y", VEnum (VUnsigned 2) (chars "TWO"))]])
  = Some "{42} 0x00ff|   -7|  abc  |+3 {x=true, y=TWO}"%string.
Proof. vm_compute. reflexivity. Qed.

Example print_extremes :
  print (kprint_ct (chars "{} {:X} {}") [VUnsigned (2 ^ 64 - 1); VUnsigned (2 ^ 64 - 1); VSigned (- 2 ^ 63)])
  = Some "18446744073709551615 FFFFFFFFFFFFFFFF -9223372036854775808"%string.
Proof. vm_compute. reflexivity. Qed.
