(* ===== verification/FloatProperties.v ===== *)
(** * FloatProperties: a floating-point field prints its value *)

From S2P Require Import Prelude Containers LongDouble Format Emit FloatFacts FormatFacts.

(** ** Comparisons, as arithmetic *)

Lemma finite_negative s m e : 0 <= m -> ld_lt (Finite s m e) (ld_of 0) = s && negb (m =? 0).
Proof.
  intros Hm. cbn [ld_lt ld_of signed_mantissa]. assert (0 < 2 ^ (e - Z.min e 0)) by lia.
  rewrite Z.mul_0_l. destruct s; cbn [signed_mantissa andb]; destruct (Z.eqb_spec m 0) as [->|]; cbn [negb]; nia.
Qed.

(** The test for overflow compares the magnitude, a number in units of the smallest. *)
Lemma overflow_test s m e : 0 <= m -> EXPONENT_MIN <= e -> (s = true -> m = 0) ->
  ld_lt (ld_of 18446744073709551615) (Finite s m e) = ((2 ^ 64 - 1) * UNIT <? units (Finite s m e)).
Proof.
  intros Hm He Hs. cbn [ld_lt ld_of signed_mantissa units]. set (g := Z.min 0 e).
  assert (Hg : EXPONENT_MIN <= g <= 0) by (unfold g, EXPONENT_MIN in *; lia).
  rewrite (UNIT_split g) by done. replace (- g) with (0 - g) by lia.
  replace (e - EXPONENT_MIN) with ((e - g) + (g - EXPONENT_MIN)) by lia. rewrite Z.pow_add_r by lia.
  assert (HV : 0 < 2 ^ (g - EXPONENT_MIN)) by lia. set (V := 2 ^ (g - EXPONENT_MIN)) in *.
  assert (Es : signed_mantissa s (m * 2 ^ (e - g)) = m * 2 ^ (e - g)).
  { destruct s; [rewrite Hs by done|]; unfold signed_mantissa; lia. }
  rewrite Es. set (x := m * 2 ^ (e - g)). set (y := 18446744073709551615 * 2 ^ (0 - g)).
  replace ((2 ^ 64 - 1) * (2 ^ (0 - g) * V)) with (y * V) by (unfold y; ring).
  replace (m * (2 ^ (e - g) * V)) with (x * V) by (unfold x; ring). clearbody x y V.
  destruct (Z.ltb_spec y x), (Z.ltb_spec (y * V) (x * V)); try done; nia.
Qed.

(** One number only is as large as the largest integer. *)
Lemma largest_form s m e : 0 <= m < MANTISSA_END -> EXPONENT_MIN <= e ->
  units (Finite s m e) = (2 ^ 64 - 1) * UNIT -> m = 2 ^ 64 - 1 /\ e = 0.
Proof.
  unfold MANTISSA_END. cbn [units]. intros Hm He Hu. set (g := Z.min 0 e).
  assert (Hg : EXPONENT_MIN <= g <= 0) by (unfold g, EXPONENT_MIN in *; lia).
  rewrite (UNIT_split g) in Hu by done.
  replace (e - EXPONENT_MIN) with ((e - g) + (g - EXPONENT_MIN)) in Hu by lia. rewrite Z.pow_add_r in Hu by lia.
  assert (HV : 0 < 2 ^ (g - EXPONENT_MIN)) by lia. set (V := 2 ^ (g - EXPONENT_MIN)) in *.
  assert (Heq : m * 2 ^ (e - g) = (2 ^ 64 - 1) * 2 ^ (- g)).
  { apply (Z.mul_reg_r _ _ V); [lia|]. rewrite <- !Z.mul_assoc. exact Hu. }
  clear Hu. destruct (Z.lt_trichotomy e 0) as [Hlt|[->|Hgt]].
  - exfalso. replace g with e in Heq by (unfold g; lia). rewrite Z.sub_diag, Z.mul_1_r in Heq.
    assert (2 <= 2 ^ (- e)) by (pose proof (Z.pow_le_mono_r 2 1 (- e)); lia). lia.
  - replace g with 0 in Heq by (unfold g; lia). cbn in Heq. lia.
  - exfalso. replace g with 0 in Heq by (unfold g; lia). rewrite Z.sub_0_r, Z.mul_1_r in Heq.
    replace e with (1 + (e - 1)) in Heq by lia. rewrite Z.pow_add_r in Heq by lia. lia.
Qed.

(** C39: Every finite value of an accepted field.  A magnitude above [2 ^ 64 - 1] prints as its sign and [ovf].  The
    magnitude [2 ^ 64 - 1] without digits after the point is undefined, from every state of the console, and no
    other.  Any other value prints as its sign and a decimal number with the digits the field asks for, whose
    distance from the magnitude is at most half a unit of its last digit and [(x + 24) / 2 ^ 64]; the buffers are
    large enough. *)
Theorem fixed_float_correct Spec s m e :
  let x := Finite s m e in
  let negative := s && negb (m =? 0) in
  let p := float_precision Spec in
  spec_ok Spec -> ld_ok x = true -> p <= MAX_FLOAT_PRECISION ->
  is_presentation Spec PRESENTATION_DEFAULT || is_presentation Spec FIXED = true ->
  if (2 ^ 64 - 1) * UNIT <? units x then
    outputs (emit_fixed_float Spec x) (pad Spec (sign_text Spec negative) (chars "ovf") true)
  else if (p =? 0) && (units x =? (2 ^ 64 - 1) * UNIT) then
    forall c, emit_fixed_float Spec x c = Undefined
  else
    exists n, 0 <= n /\ n / 10 ^ p < 2 ^ 64 /\ close_to x n p /\
      outputs (emit_fixed_float Spec x)
        (pad Spec (sign_text Spec negative) (fixed_text p ((0 <? p) || alternate Spec) n) true).
Proof.
  intros x negative p Hspec Hok Hp Hpres.
  assert (Hm : 0 <= m < MANTISSA_END /\ EXPONENT_MIN <= e).
  { unfold x in Hok. cbn [ld_ok] in Hok. apply andb_true_iff in Hok as [Hok _]. lia. }
  destruct Hm as [Hm He]. assert (Hneg : ld_lt x (ld_of 0) = negative) by (apply finite_negative; lia).
  assert (Hpp : 0 <= p <= MAX_FLOAT_PRECISION).
  { split; [|done]. unfold p, float_precision. destruct (has_precision Spec); [apply Hspec | lia]. }
  set (magnitude := if negative then ld_opp x else x).
  assert (Hform : exists s', magnitude = Finite s' m e /\ (s' = true -> m = 0)).
  { unfold magnitude, negative, x. destruct s; cbn [andb].
    - destruct (Z.eqb_spec m 0) as [->|]; cbn [negb]; [by exists true | by exists false].
    - by exists false. }
  destruct Hform as (s' & Hform & Hs').
  assert (Hunits : units magnitude = units x) by (by rewrite Hform).
  assert (Hover : ld_lt (ld_of 18446744073709551615) magnitude = ((2 ^ 64 - 1) * UNIT <? units x)).
  { rewrite <- Hunits, Hform. apply overflow_test; [lia | done | done]. }
  assert (Hfield : forall out, (if ld_lt (ld_of 18446744073709551615) magnitude
      then Some (pad Spec (sign_text Spec negative) (chars "ovf") true)
      else n ← fixed_point (Z.to_nat p) magnitude;
        Some (pad Spec (sign_text Spec negative) (fixed_text p ((0 <? p) || alternate Spec) n) true)) = Some out ->
    outputs (emit_fixed_float Spec x) out).
  { intros out Hout. apply outputs_fixed_float; [done | done|]. unfold float_field. fold p.
    rewrite Hpres, Hneg. cbn [negb orb]. rewrite (proj2 (Z.ltb_ge _ p)) by done. exact Hout. }
  rewrite Hover in Hfield. destruct ((2 ^ 64 - 1) * UNIT <? units x) eqn:Hbig; [by apply Hfield|].
  pose proof (magnitude_printable s m e Hok) as Hprint. cbn zeta in Hprint. fold x in Hprint. rewrite Hneg in Hprint.
  fold magnitude in Hprint. specialize (Hprint Hover).
  destruct ((p =? 0) && (units x =? (2 ^ 64 - 1) * UNIT)) eqn:Hcorner.
  - apply andb_true_iff in Hcorner as [Hp0%Z.eqb_eq Hu%Z.eqb_eq]. intros c.
    destruct (largest_form s m e Hm He Hu) as [-> ->].
    unfold emit_fixed_float. fold p. rewrite Hp0, Hpres.
    unfold x in *. destruct s; reflexivity.
  - destruct (fixed_point_defined magnitude p Hprint Hpp) as [[Hp0 Hu]|Hdef].
    { rewrite Hunits in Hu. rewrite Hu, Hp0, !Z.eqb_refl in Hcorner. done. }
    destruct (fixed_point (Z.to_nat p) magnitude) as [n|] eqn:En; [|done].
    destruct (fixed_point_close magnitude p n Hprint Hpp En) as (Hn & Hlt & Hclose). exists n.
    do 2 (split; [done|]). split; [|by apply Hfield]. unfold close_to in *. by rewrite <- Hunits.
Qed.

(** Two and a half with two digits; a number that is too large; the largest without digits. *)
Lemma fixed_float_correct_witness :
  (exists n, close_to (Finite false 5 (-1)) n 2 /\
    outputs (emit_fixed_float (with_precision 2 default_format_spec) (Finite false 5 (-1)))
      (pad (with_precision 2 default_format_spec) [] (fixed_text 2 true n) true) /\ 0 <= n) /\
  outputs (emit_fixed_float default_format_spec (Finite true 1 64)) (chars "-ovf") /\
  forall c, emit_fixed_float (with_precision 0 default_format_spec) (Finite false (2 ^ 64 - 1) 0) c = Undefined.
Proof.
  split; [|split].
  - pose proof (fixed_float_correct (with_precision 2 default_format_spec) false 5 (-1) ltac:(by split) eq_refl
      ltac:(by vm_compute) eq_refl) as H. cbv zeta in H.
    replace ((2 ^ 64 - 1) * UNIT <? units (Finite false 5 (-1))) with false in H by by vm_compute.
    destruct H as (n & Hn & _ & Hclose & Hout). exists n. split; [exact Hclose|]. split; [|exact Hn]. exact Hout.
  - pose proof (fixed_float_correct default_format_spec true 1 64 ltac:(by split) eq_refl ltac:(by vm_compute) eq_refl) as H.
    cbv zeta in H. by replace ((2 ^ 64 - 1) * UNIT <? units (Finite true 1 64)) with true in H by by vm_compute.
  - pose proof (fixed_float_correct (with_precision 0 default_format_spec) false (2 ^ 64 - 1) 0 ltac:(by split) eq_refl
      ltac:(by vm_compute) eq_refl) as H. cbv zeta in H.
    replace ((2 ^ 64 - 1) * UNIT <? units (Finite false (2 ^ 64 - 1) 0)) with false in H by by vm_compute.
    by replace (units (Finite false (2 ^ 64 - 1) 0) =? (2 ^ 64 - 1) * UNIT) with true in H by by vm_compute.
Defined.

(** What the example prints. *)
Example two_and_a_half : fixed_point 2 (Finite false 5 (-1)) = Some 250 /\ fixed_text 2 true 250 = chars "2.50".
Proof. split; by vm_compute. Qed.

Example print_floats :
  print (kprint_ct (chars "{} {:.2f} {:+.0f} {:010.3f} {:.18f} {} {:f}") [VFloat (Finite false 3 (-1)); VFloat (Finite true 1 (-3));
    VFloat (ld_of 1234); VFloat (Finite true 5 (-1)); VFloat (ld_div (ld_of 1) (ld_of 10)); VFloat NaN; VFloat (Infinite true)])
  = Some "1.500000 -0.12 +1234 -00002.500 0.100000000000000000 nan -inf"%string.
Proof. vm_compute. reflexivity. Qed.

(** The largest value the check lets pass, rounded to an integer, does not fit the integer type. *)
Example print_float_undefined :
  emit_fixed_float (with_precision 0 default_format_spec) (ld_of (2 ^ 64 - 1)) {| m_sink := 1; calls := [] |} = Undefined.
Proof. vm_compute. reflexivity. Qed.
