(* ===== verification/Multiboot2.v ===== *)
(** * Multiboot2: [kernel/boot/multiboot2/spec.hpp], [iterator.hpp] and [adapter.cpp]

    The structure a Multiboot2 boot loader leaves in memory, and its translation into the form
    every boot protocol produces ([Boot]).  The loader's memory is a function from addresses to
    bytes, [None] where nothing may be read; a reference to a structure is its address, and a field
    is read at its offset, the one the [static_assert]s of the source fix.  Reading a byte that is
    not there is [Undefined]; alignment is not modelled. *)

From S2P Require Import Prelude Bits Containers Memory Boot.

Definition BOOTLOADER_MAGIC : Z := 0x36D76289.
Definition TAG_ALIGNMENT : Z := 8.
Definition NO_PARTITION : Z := 0xFFFFFFFF.

(** Enumerations with a fixed underlying type: every integer of the type is a value. *)
Module tag_type.
Definition END : Z := 0.
Definition COMMAND_LINE : Z := 1.
Definition BOOTLOADER_NAME : Z := 2.
Definition MODULE : Z := 3.
Definition BASIC_MEMORY : Z := 4.
Definition BIOS_BOOT_DEVICE : Z := 5.
Definition MEMORY_MAP : Z := 6.
Definition VBE : Z := 7.
Definition FRAMEBUFFER : Z := 8.
Definition ELF_SECTIONS : Z := 9.
Definition APM : Z := 10.
Definition EFI32_SYSTEM_TABLE : Z := 11.
Definition EFI64_SYSTEM_TABLE : Z := 12.
Definition SMBIOS : Z := 13.
Definition ACPI_OLD : Z := 14.
Definition ACPI_NEW : Z := 15.
Definition NETWORK : Z := 16.
Definition EFI_MEMORY_MAP : Z := 17.
Definition EFI_BOOT_SERVICES : Z := 18.
Definition EFI32_IMAGE_HANDLE : Z := 19.
Definition EFI64_IMAGE_HANDLE : Z := 20.
Definition LOAD_BASE_ADDRESS : Z := 21.
End tag_type.

Module memory_type.
Definition AVAILABLE : Z := 1.
Definition RESERVED : Z := 2.
Definition ACPI_RECLAIMABLE : Z := 3.
Definition ACPI_NVS : Z := 4.
Definition BAD_MEMORY : Z := 5.
End memory_type.

Module framebuffer_type.
Definition INDEXED : Z := 0.
Definition RGB : Z := 1.
Definition EGA_TEXT : Z := 2.
End framebuffer_type.

(** [std::string_view]: its data, [None] for the null pointer, and its length. *)
Record string_view : Type := { view_data : option Z; view_length : Z }.

(** [std::span<const u8>]. *)
Record span : Type := { span_data : option Z; span_size : Z }.

Section Structures.
Context (m : memory) {S : Type}.

Definition sizeof_fixed_header : Z := 8.
Definition total_size (header : Z) : kernel S Z := read_u32 m header.

Definition sizeof_tag_header : Z := 8.
Definition tag_kind (tag : Z) : kernel S Z := read_u32 m tag.
Definition tag_size (tag : Z) : kernel S Z := read_u32 m (tag + 4).

(** [detail::payload<Tag>]; [sizeof_tag] is [sizeof(Tag)]. *)
Definition payload (sizeof_tag tag : Z) : kernel S span :=
  n ← tag_size tag;
  if n <=? sizeof_tag then mret {| span_data := None; span_size := 0 |}
  else mret {| span_data := Some (tag + sizeof_tag); span_size := u64 (n - sizeof_tag) |}.

Definition span_at (bytes : span) (offset : Z) : kernel S Z :=
  match span_data bytes with
  | None => undefined
  | Some a => mret (a + offset)
  end.

Definition text_at (bytes : span) (i : Z) : kernel S char :=
  a ← span_at bytes i;
  b ← read_u8 m a;
  mret (char_of b).

(** [detail::bounded_string]: the loop ends by the length of the span at the latest. *)
Definition bounded_string (bytes : span) : kernel S string_view :=
  n ← while (Z.to_nat (span_size bytes + 1))
    (fun length =>
       if length <? span_size bytes then
         c ← text_at bytes length; mret (negb (c =? NUL))
       else mret false)
    (fun length => mret (u64 (length + 1)))
    0;
  mret {| view_data := span_data bytes; view_length := n |}.

(** The characters of a view, as the text that [fixed_string::assign] reads. *)
Fixpoint chars_at (n : nat) (a : Z) : option (list char) :=
  match n with
  | O => Some []
  | Datatypes.S n' => b ← word m 1 a; rest ← chars_at n' (a + 1); Some (char_of b :: rest)
  end.

Definition view_text (view : string_view) : kernel S text :=
  match view_data view with
  | None => mret None
  | Some a =>
      match chars_at (Z.to_nat (view_length view)) a with
      | Some l => mret (Some l)
      | None => undefined
      end
  end.

Definition sizeof_string_tag : Z := 8.
Definition tag_value (tag : Z) : kernel S string_view :=
  bytes ← payload sizeof_string_tag tag; bounded_string bytes.

Definition sizeof_module_tag : Z := 16.
Definition mod_start (tag : Z) : kernel S Z := read_u32 m (tag + 8).
Definition mod_end (tag : Z) : kernel S Z := read_u32 m (tag + 12).
Definition module_tag_command_line (tag : Z) : kernel S string_view :=
  bytes ← payload sizeof_module_tag tag; bounded_string bytes.

Definition sizeof_memory_map_tag : Z := 16.
Definition entry_size (tag : Z) : kernel S Z := read_u32 m (tag + 8).

Definition sizeof_memory_map_entry : Z := 24.
Definition base_addr (entry : Z) : kernel S Z := read_u64 m entry.
Definition entry_length (entry : Z) : kernel S Z := read_u64 m (entry + 8).
Definition entry_type (entry : Z) : kernel S Z := read_u32 m (entry + 16).

Definition sizeof_framebuffer_color : Z := 3.
Definition color_red (color : Z) : kernel S Z := read_u8 m color.
Definition color_green (color : Z) : kernel S Z := read_u8 m (color + 1).
Definition color_blue (color : Z) : kernel S Z := read_u8 m (color + 2).

Definition sizeof_framebuffer_rgb : Z := 6.
Definition red_position (rgb : Z) : kernel S Z := read_u8 m rgb.
Definition red_mask_size (rgb : Z) : kernel S Z := read_u8 m (rgb + 1).
Definition green_position (rgb : Z) : kernel S Z := read_u8 m (rgb + 2).
Definition green_mask_size (rgb : Z) : kernel S Z := read_u8 m (rgb + 3).
Definition blue_position (rgb : Z) : kernel S Z := read_u8 m (rgb + 4).
Definition blue_mask_size (rgb : Z) : kernel S Z := read_u8 m (rgb + 5).

Definition sizeof_framebuffer_tag : Z := 32.
Definition framebuffer_address (tag : Z) : kernel S Z := read_u64 m (tag + 8).
Definition framebuffer_pitch (tag : Z) : kernel S Z := read_u32 m (tag + 16).
Definition framebuffer_width (tag : Z) : kernel S Z := read_u32 m (tag + 20).
Definition framebuffer_height (tag : Z) : kernel S Z := read_u32 m (tag + 24).
Definition framebuffer_bits_per_pixel (tag : Z) : kernel S Z := read_u8 m (tag + 28).
Definition framebuffer_tag_type (tag : Z) : kernel S Z := read_u8 m (tag + 29).

(** [framebuffer_tag::palette]: the address of the colours and their number. *)
Definition tag_palette (tag : Z) : kernel S (Z * Z) :=
  bytes ← payload sizeof_framebuffer_tag tag;
  kind ← framebuffer_tag_type tag;
  if negb (kind =? framebuffer_type.INDEXED) || (span_size bytes <? 2) then mret (0, 0)
  else
    at_ ← span_at bytes 0;
    count ← read_u16 m at_;
    let fits := (span_size bytes - 2) / sizeof_framebuffer_color in
    colors ← span_at bytes 2;
    mret (colors, if count <? fits then count else fits).

Definition tag_rgb (tag : Z) : kernel S (option Z) :=
  bytes ← payload sizeof_framebuffer_tag tag;
  kind ← framebuffer_tag_type tag;
  if negb (kind =? framebuffer_type.RGB) || (span_size bytes <? sizeof_framebuffer_rgb)
  then mret None
  else at_ ← span_at bytes 0; mret (Some at_).

Definition sizeof_acpi_tag : Z := 28.
Definition rsdp_of (tag : Z) : Z := tag + 8.

(** ** The tags *)

(** The loop of [well_formed]: one round per tag, and a tag is at least eight bytes long. *)
Fixpoint well_formed_from (fuel : nat) (end_ at_ : Z) : kernel S bool :=
  match fuel with
  | O => diverge
  | Datatypes.S fuel' =>
      if sizeof_tag_header <=? u64 (end_ - at_) then
        let remaining := u64 (end_ - at_) in
        n ← tag_size at_;
        if (n <? sizeof_tag_header) || (remaining <? n) then mret false
        else
          t ← tag_kind at_;
          if t =? tag_type.END then mret (n =? sizeof_tag_header)
          else
            let step := align_up 64 n TAG_ALIGNMENT in
            if remaining <? step then mret false
            else well_formed_from fuel' end_ (u64 (at_ + step))
      else mret false
  end.

(** Enough rounds for a structure of [n] bytes. *)
Definition tag_fuel (n : Z) : nat := Z.to_nat (n / 8 + 1).

Definition well_formed (header : Z) : kernel S bool :=
  n ← total_size header;
  if n <? sizeof_fixed_header then mret false
  else if bnot 64 0 - header <? n then mret false
  else well_formed_from (tag_fuel n) (header + n) (header + sizeof_fixed_header).

(** [tag_iterator]: the address of the tag. *)
Definition next_tag (tag : Z) : kernel S Z :=
  n ← tag_size tag; mret (u64 (tag + align_up 64 n TAG_ALIGNMENT)).

Definition at_end (tag : Z) : kernel S bool := t ← tag_kind tag; mret (t =? tag_type.END).

(** [for (tag : tags(header))] whose body may return from the function. *)
Fixpoint each_tag {R} (fuel : nat) (body : Z -> kernel S (option R)) (tag : Z) :
    kernel S (option R) :=
  match fuel with
  | O => diverge
  | Datatypes.S fuel' =>
      stop ← at_end tag;
      if stop : bool then mret None
      else
        r ← body tag;
        match r with
        | Some v => mret (Some v)
        | None => next ← next_tag tag; each_tag fuel' body next
        end
  end.

Definition first_tag (header : Z) : Z := header + sizeof_fixed_header.

(** [entries(tag)]: the number of the entries, the address of the first, and the stride. *)
Definition entries (tag : Z) : kernel S (Z * Z * Z) :=
  n ← tag_size tag;
  stride ← entry_size tag;
  if stride =? 0 then undefined
  else mret (u64 (n - sizeof_memory_map_tag) / stride, tag + sizeof_memory_map_tag, stride).

(** [as_tag<T>]. *)
Definition as_tag (sizeof_tag tag : Z) : kernel S (option Z) :=
  n ← tag_size tag;
  mret (if n <? sizeof_tag then None else Some tag).
End Structures.

(** ** Translation into [boot::info] *)
Section Translate.
Context (m : memory).

Definition translate_as (sizeof_tag tag : Z) (translate : Z -> kernel info bool) :
    kernel info bool :=
  value ← as_tag m sizeof_tag tag;
  match value with
  | None => mret false
  | Some t => translate t
  end.

Definition translate_command_line (tag : Z) : kernel info bool :=
  view ← tag_value m tag;
  t ← view_text m view;
  zoom command_line set_command_line (FixedString.assign MAX_BOOT_STRING t (view_length view));;
  mret true.

Definition translate_bootloader_name (tag : Z) : kernel info bool :=
  view ← tag_value m tag;
  t ← view_text m view;
  zoom bootloader_name set_bootloader_name
    (FixedString.assign MAX_BOOT_STRING t (view_length view));;
  mret true.

Definition translate_memory_type (type : Z) : memory_kind :=
  if type =? memory_type.AVAILABLE then USABLE
  else if type =? memory_type.ACPI_RECLAIMABLE then ACPI_RECLAIMABLE
  else if type =? memory_type.ACPI_NVS then ACPI_NVS
  else if type =? memory_type.BAD_MEMORY then DEFECTIVE
  else RESERVED.

Definition translate_memory_map (tag : Z) : kernel info bool :=
  stride ← entry_size m tag;
  if stride <? sizeof_memory_map_entry then mret false
  else
    '(count, first, stride) ← entries m tag;
    for_range 0 count (fun i =>
      let entry := first + i * stride in
      base ← base_addr m entry;
      len ← entry_length m entry;
      kind ← entry_type m entry;
      zoom memory_map set_memory_map
        (InplaceVector.emplace_back MAX_BOOT_MEMORY_REGIONS
           {| region_base := base; region_length := len;
              region_kind := translate_memory_type kind |});;
      mret tt);;
    mret true.

(** [emplace_back(address_range(...))] initialises the other members from their defaults. *)
Definition module_at (base length : Z) : module_info :=
  {| module_range := {| range_base := base; range_length := length |};
     module_command_line := module_command_line module_info_init |}.

Definition set_module_command_line (s : FixedString.fixed_string) (x : module_info) : module_info :=
  {| module_range := module_range x; module_command_line := s |}.

Definition translate_module (tag : Z) : kernel info bool :=
  last ← mod_end m tag;
  start ← mod_start m tag;
  if last <=? start then mret true
  else
    slot ← zoom modules set_modules
      (InplaceVector.emplace_back MAX_BOOT_MODULES (module_at start (u32 (last - start))));
    view ← module_tag_command_line m tag;
    t ← view_text m view;
    entry ← zoom modules set_modules (InplaceVector.get slot);
    '(_, s) ← local (module_command_line entry)
      (FixedString.assign MAX_BOOT_MODULE_COMMAND_LINE t (view_length view));
    zoom modules set_modules (InplaceVector.put slot (set_module_command_line s entry));;
    mret true.

(** Setters of the fields of [framebuffer_info]. *)
Definition set_kind k (f : framebuffer_info) : framebuffer_info :=
  {| framebuffer_present := framebuffer_present f; kind := k; range := range f; pitch := pitch f;
     width := width f; height := height f; bits_per_pixel := bits_per_pixel f; red := red f;
     green := green f; blue := blue f; palette := palette f |}.
Definition set_channels r g b (f : framebuffer_info) : framebuffer_info :=
  {| framebuffer_present := framebuffer_present f; kind := kind f; range := range f;
     pitch := pitch f; width := width f; height := height f; bits_per_pixel := bits_per_pixel f;
     red := r; green := g; blue := b; palette := palette f |}.
Definition set_palette p (f : framebuffer_info) : framebuffer_info :=
  {| framebuffer_present := framebuffer_present f; kind := kind f; range := range f;
     pitch := pitch f; width := width f; height := height f; bits_per_pixel := bits_per_pixel f;
     red := red f; green := green f; blue := blue f; palette := p |}.
Definition set_geometry r p w h b (f : framebuffer_info) : framebuffer_info :=
  {| framebuffer_present := true; kind := kind f; range := r; pitch := p; width := w; height := h;
     bits_per_pixel := b; red := red f; green := green f; blue := blue f; palette := palette f |}.

Definition on_framebuffer (f : framebuffer_info -> framebuffer_info) : kernel info unit :=
  modify (fun i => set_framebuffer (f (framebuffer i)) i).

(** The part of [translate_framebuffer] after the [switch]. *)
Definition translate_geometry (tag : Z) : kernel info bool :=
  address ← framebuffer_address m tag;
  p ← framebuffer_pitch m tag;
  h ← framebuffer_height m tag;
  w ← framebuffer_width m tag;
  b ← framebuffer_bits_per_pixel m tag;
  on_framebuffer (set_geometry {| range_base := address; range_length := u64 (p * h) |} p w h b);;
  mret true.

Definition translate_framebuffer (tag : Z) : kernel info bool :=
  on_framebuffer (fun _ => framebuffer_info_init);;
  kind ← framebuffer_tag_type m tag;
  if kind =? framebuffer_type.RGB then
    rgb ← tag_rgb m tag;
    match rgb with
    | None => mret false
    | Some a =>
        rp ← red_position m a; rs ← red_mask_size m a;
        gp ← green_position m a; gs ← green_mask_size m a;
        bp ← blue_position m a; bs ← blue_mask_size m a;
        on_framebuffer (set_kind RGB);;
        on_framebuffer (set_channels {| position := rp; channel_size := rs |}
          {| position := gp; channel_size := gs |} {| position := bp; channel_size := bs |});;
        translate_geometry tag
    end
  else if kind =? framebuffer_type.INDEXED then
    '(colors, count) ← tag_palette m tag;
    if MAX_BOOT_PALETTE_COLORS <? count then mret false
    else
      on_framebuffer (set_kind INDEXED);;
      for_range 0 count (fun i =>
        let color := colors + i * sizeof_framebuffer_color in
        r ← color_red m color; g ← color_green m color; b ← color_blue m color;
        zoom framebuffer set_framebuffer (zoom palette set_palette
          (InplaceVector.emplace_back MAX_BOOT_PALETTE_COLORS
             {| red_value := r; green_value := g; blue_value := b |}));;
        mret tt);;
      translate_geometry tag
  else if kind =? framebuffer_type.EGA_TEXT then
    on_framebuffer (set_kind TEXT);;
    translate_geometry tag
  else mret true.

(** [translate_acpi<Revision>]. *)
Definition translate_acpi (rev tag : Z) : kernel info bool :=
  old ← gets acpi;
  if acpi_present old && (rev <=? revision old) then mret true
  else
    n ← tag_size m tag;
    modify (set_acpi {| acpi_present := true;
      rsdp := {| range_base := rsdp_of tag; range_length := u64 (n - sizeof_tag_header) |};
      revision := rev |});;
    mret true.

Definition translate_tag (tag : Z) : kernel info bool :=
  t ← tag_kind m tag;
  if t =? tag_type.COMMAND_LINE then translate_as sizeof_string_tag tag translate_command_line
  else if t =? tag_type.BOOTLOADER_NAME then
    translate_as sizeof_string_tag tag translate_bootloader_name
  else if t =? tag_type.MODULE then translate_as sizeof_module_tag tag translate_module
  else if t =? tag_type.MEMORY_MAP then
    translate_as sizeof_memory_map_tag tag translate_memory_map
  else if t =? tag_type.FRAMEBUFFER then
    translate_as sizeof_framebuffer_tag tag translate_framebuffer
  else if t =? tag_type.ACPI_OLD then translate_as sizeof_acpi_tag tag (translate_acpi 1)
  else if t =? tag_type.ACPI_NEW then translate_as sizeof_acpi_tag tag (translate_acpi 2)
  else mret true.
End Translate.

(** ** The adapter *)

(** What [set_handoff] records, and the memory it points into. *)
Record handoff : Type := { m_magic : Z; m_info_address : Z; loader_memory : memory }.

Definition set_handoff (magic address : Z) (h : handoff) : handoff :=
  {| m_magic := magic; m_info_address := address; loader_memory := loader_memory h |}.

Definition adapter_well_formed (h : handoff) : kernel unit bool :=
  if negb (m_magic h =? BOOTLOADER_MAGIC) then mret false
  else if m_info_address h =? 0 then mret false
  else well_formed (loader_memory h) (m_info_address h).

Definition adapter_parse (h : handoff) : kernel info init_result :=
  let m := loader_memory h in
  let header := m_info_address h in
  n ← total_size m header;
  zoom reserved set_reserved (InplaceVector.emplace_back MAX_BOOT_RESERVED_RANGES
    {| range_base := header; range_length := n |});;
  r ← each_tag m (tag_fuel n)
    (fun tag => ok ← translate_tag m tag; mret (if ok : bool then None else Some INVALID_BOOT_DATA))
    (first_tag header);
  mret (match r with Some e => Err e | None => Ok tt end).

(** [kernel::boot::active]. *)
#[export] Instance multiboot2 : boot_protocol handoff := {|
  Boot.well_formed := fun h =>
    match adapter_well_formed h tt with
    | Ret (b, _) => Ret b
    | Panic message => Panic message
    | Undefined => Undefined
    | Diverge => Diverge
    end;
  protocol_parse := adapter_parse;
|}.
