(* ===== verification/Multiboot2Facts.v ===== *)
(** * Multiboot2Facts: what [Multiboot2] computes

    The description of the machine that a Multiboot2 structure gives, as a function of its tags,
    and the proofs that the adapter accepts exactly the well-formed structures, reads nothing
    outside them, always ends, and fills [boot::info] in with that description. *)

From S2P Require Import Prelude Bits Containers Memory Boot Multiboot2.
Import FixedString InplaceVector FixedStringFacts InplaceVectorFacts.

(** ** Characters *)

Section Characters.
Context (m : memory) (lo hi : Z) (Hmapped : mapped m lo hi).

Lemma chars_at_mapped n a :
  lo <= a -> a + Z.of_nat n <= hi -> chars_at m n a = Some (characters m n a).
Proof.
  revert a. induction n as [|n IH]; intros a Ha Hn; [done|]. cbn [chars_at characters].
  destruct (word_mapped m lo hi Hmapped 1 a ltac:(lia) ltac:(lia)) as (v & Hv & _). rewrite IH by lia.
  unfold peek. by rewrite Hv.
Qed.
End Characters.

(** ** The sequence of tags *)

(** [for (x : l)] whose body may return from the function. *)
Fixpoint scan_list {S A R} (l : list A) (body : A -> kernel S (option R)) : kernel S (option R) :=
  match l with
  | [] => mret None
  | x :: l' =>
      r ← body x;
      match r with
      | Some v => mret (Some v)
      | None => scan_list l' body
      end
  end.

Definition kind_of (m : memory) (tag : Z) : Z := peek m 4 tag.
Definition size_of (m : memory) (tag : Z) : Z := peek m 4 (tag + 4).
Definition next_of (m : memory) (tag : Z) : Z := tag + align_up 64 (size_of m tag) TAG_ALIGNMENT.

(** The tags from [at_] to the end tag, each of them with its padding inside [.., hi). *)
Inductive tag_list (m : memory) (hi : Z) : Z -> list Z -> Prop :=
| tag_list_end at_ :
    at_ + 8 <= hi -> kind_of m at_ = tag_type.END -> size_of m at_ = 8 -> tag_list m hi at_ []
| tag_list_tag at_ rest :
    at_ + 8 <= hi -> kind_of m at_ <> tag_type.END -> 8 <= size_of m at_ -> next_of m at_ <= hi ->
    tag_list m hi (next_of m at_) rest -> tag_list m hi at_ (at_ :: rest).

Lemma round_up n : 0 <= n < 2 ^ 32 -> n <= align_up 64 n TAG_ALIGNMENT < n + 8.
Proof.
  intros Hn. pose proof (align_up_correct 64 ltac:(lia) 3 ltac:(lia) n) as H.
  change (2 ^ 3) with TAG_ALIGNMENT in H. cbv zeta in H. unfold TAG_ALIGNMENT in *.
  premise H; [unfold in_width; lia|]. destruct (Z.ltb_spec (n + 8 - 1) (2 ^ 64)); lia.
Qed.

Section Tags.
Context (m : memory) (lo hi : Z) (Hmapped : mapped m lo hi) (Hlo : 0 <= lo) (Hhi : hi < 2 ^ 64).

Lemma size_range tag : lo <= tag -> tag + 8 <= hi -> 0 <= size_of m tag < 2 ^ 32.
Proof. intros. apply (peek_range m lo hi Hmapped 4); lia. Qed.

Lemma next_range tag :
  lo <= tag -> tag + 8 <= hi -> tag + size_of m tag <= next_of m tag < tag + size_of m tag + 8.
Proof. intros. unfold next_of. pose proof (round_up _ (size_range tag ltac:(lia) ltac:(lia))). lia. Qed.

Lemma wp_tag_size {S} tag (Q : Z -> S -> Prop) s :
  lo <= tag -> tag + 8 <= hi -> Q (size_of m tag) s -> wp (tag_size m tag) Q s.
Proof. intros. apply (wp_fetch m lo hi Hmapped); [lia..|done]. Qed.

Lemma wp_tag_kind {S} tag (Q : Z -> S -> Prop) s :
  lo <= tag -> tag + 8 <= hi -> Q (kind_of m tag) s -> wp (tag_kind m tag) Q s.
Proof. intros. apply (wp_fetch m lo hi Hmapped); [lia..|done]. Qed.

(** The loop of [well_formed] decides whether there is a sequence of tags. *)
Lemma wp_well_formed_from {S} fuel at_ (Q : bool -> S -> Prop) s :
  lo <= at_ <= hi -> (hi - at_) / 8 < Z.of_nat fuel ->
  (forall b, (b = true <-> exists l, tag_list m hi at_ l) -> Q b s) ->
  wp (well_formed_from m fuel hi at_) Q s.
Proof.
  revert at_. induction fuel as [|fuel IH]; intros at_ Hat Hfuel HQ.
  { pose proof (Z.div_pos (hi - at_) 8). lia. }
  cbn [well_formed_from]. unfold sizeof_tag_header, u64.
  rewrite !(wrap_small 64 (hi - at_)) by (unfold in_width; lia).
  destruct (Z.leb_spec 8 (hi - at_)) as [Hroom|Hroom].
  2:{ apply wp_ret, HQ. split; [done|]. intros [l Hl]. inversion Hl; lia. }
  pose proof (size_range at_ ltac:(lia) ltac:(lia)).
  pose proof (next_range at_ ltac:(lia) ltac:(lia)) as Hnext.
  wp_step. apply wp_tag_size; [lia..|].
  destruct (Z.ltb_spec (size_of m at_) 8); cbn [orb].
  { apply wp_ret, HQ. split; [done|]. intros [l Hl]. inversion Hl; lia. }
  destruct (Z.ltb_spec (hi - at_) (size_of m at_)).
  { apply wp_ret, HQ. split; [done|]. intros [l Hl]. inversion Hl; lia. }
  wp_step. apply wp_tag_kind; [lia..|].
  destruct (Z.eqb_spec (kind_of m at_) tag_type.END) as [Hend|Hend].
  { apply wp_ret, HQ. rewrite Z.eqb_eq. split.
    - intros Hs. exists []. apply tag_list_end; [lia | done | lia].
    - intros [l Hl]. by inversion Hl. }
  cbv zeta. change (at_ + align_up 64 (size_of m at_) TAG_ALIGNMENT) with (next_of m at_).
  destruct (Z.ltb_spec (hi - at_) (align_up 64 (size_of m at_) TAG_ALIGNMENT)).
  { apply wp_ret, HQ. split; [done|]. intros [l Hl]. inversion Hl; [done | unfold next_of in *; lia]. }
  rewrite (wrap_small 64 (next_of m at_)) by (unfold in_width, next_of in *; lia).
  apply IH.
  - unfold next_of in *. lia.
  - unfold next_of in *. div_lia.
  - intros b Hb. apply HQ. rewrite Hb. split; intros [l Hl].
    + exists (at_ :: l). constructor; unfold next_of in *; [lia | done | lia | lia | done].
    + inversion Hl as [|? rest]; [done|]. by exists rest.
Qed.

(** The iteration visits the tags of the sequence, in order. *)
Lemma each_tag_scan {S R} (body : Z -> kernel S (option R)) fuel at_ l s :
  tag_list m hi at_ l -> lo <= at_ -> (hi - at_) / 8 < Z.of_nat fuel ->
  each_tag m fuel body at_ s = scan_list l body s.
Proof.
  intros Hl. revert fuel s. induction Hl as [at_ Hroom Hk Hs|at_ rest Hroom Hk Hs Hn Hrest IH];
    intros fuel s Hat Hfuel;
    (destruct fuel as [|fuel]; [pose proof (Z.div_pos (hi - at_) 8); lia|]); cbn [each_tag scan_list].
  - unfold at_end, tag_kind, read_u32. unfold mbind, kernel_bind.
    rewrite (fetch_mapped m lo hi Hmapped) by lia. unfold kind_of in Hk. by rewrite Hk.
  - pose proof (next_range at_ ltac:(lia) ltac:(lia)).
    unfold at_end, tag_kind, next_tag, tag_size, read_u32, mbind, kernel_bind.
    rewrite (fetch_mapped m lo hi Hmapped) by lia. unfold kind_of in Hk. cbn.
    destruct (Z.eqb_spec (peek m 4 at_) tag_type.END); [done|]. cbv beta iota.
    destruct (body at_ s) as [[[v|] s']| | |]; [done| |done..].
    rewrite (fetch_mapped m lo hi Hmapped) by lia. cbn.
    change (peek m 4 (at_ + 4)) with (size_of m at_).
    change (at_ + align_up 64 (size_of m at_) TAG_ALIGNMENT) with (next_of m at_).
    unfold u64. rewrite wrap_small by (unfold in_width; lia). apply IH; [lia | div_lia].
Qed.

(** Every tag of the sequence lies inside the structure. *)
Lemma tag_list_inside at_ l :
  tag_list m hi at_ l -> lo <= at_ ->
  Forall (fun tag => lo <= tag /\ 8 <= size_of m tag /\ tag + size_of m tag <= hi) l.
Proof.
  induction 1 as [|at_ rest Hroom Hk Hs Hn Hrest IH]; intros Hat; [constructor|].
  pose proof (next_range at_ ltac:(lia) ltac:(lia)). constructor; [lia | apply IH; lia].
Qed.
End Tags.

(** ** Texts *)

(** A text and a count through which the characters [l] are read. *)
Definition views (l : list char) (t : text) (count : Z) : Prop :=
  count = zlen l /\ Forall (.≠ NUL) l /\ (t = Some l \/ t = None /\ l = []).

Lemma cstring_clean l : Forall (.≠ NUL) l -> cstring l = l.
Proof.
  induction 1 as [|c l Hc _ IH]; [done|]. cbn. destruct (Z.eqb_spec c NUL); [done|]. by rewrite IH.
Qed.

Lemma wp_assign_view N s l t count (Q : unit -> fixed_string -> Prop) :
  0 < N < 2 ^ 64 - 1 -> zlen l < 2 ^ 64 -> FixedStringFacts.wf N s -> views l t count ->
  (forall s', FixedStringFacts.wf N s' -> contents s' = take (Z.to_nat N) l -> Q tt s') ->
  wp (FixedString.assign N t count) Q s.
Proof.
  intros HN Hlen Hs (-> & Hclean & Ht) HQ. unfold FixedString.assign. wp_steps.
  pose proof (zlen_nonneg l).
  destruct Ht as [-> |[-> ->]].
  - apply wp_append; [done | by eapply buffer_empty | lia | left; cbn; lia |].
    intros s' Hs' Hc. apply HQ; [done|]. rewrite Hc. cbn [FixedString.m_size FixedString.set_size].
    change (contents (FixedString.set_size 0 s)) with (@nil char). cbn [app].
    rewrite cstring_clean by done. destruct (Z.le_gt_cases (zlen l) N).
    + rewrite Z.min_l by lia. unfold zlen in *. rewrite !take_ge by lia. done.
    + rewrite Z.min_r by lia. f_equal. lia.
  - apply wp_append_null; [done | by eapply buffer_empty |]. intros s' Hs' Hc. apply HQ; [done|].
    by rewrite Hc, take_nil.
Qed.

Section Texts.
Context (m : memory) (lo hi : Z) (Hmapped : mapped m lo hi) (Hlo : 0 <= lo) (Hhi : hi < 2 ^ 64).

(** The text that follows the [sz] bytes of a tag's fixed part. *)
Definition text_of (sz tag : Z) : list char :=
  cstring (characters m (Z.to_nat (size_of m tag - sz)) (tag + sz)).

Lemma char_of_nul b : 0 <= b < 256 -> (char_of b = NUL <-> b = 0).
Proof. intros Hb. unfold char_of, NUL. destruct (Z.ltb_spec b 128); lia. Qed.

Lemma characters_snoc k a :
  0 <= k -> characters m (Z.to_nat (k + 1)) a =
    characters m (Z.to_nat k) a ++ [char_of (peek m 1 (a + k))].
Proof.
  intros. replace (Z.to_nat (k + 1)) with (Z.to_nat k + 1)%nat by lia.
  rewrite characters_app. cbn [characters]. by rewrite Z2Nat.id by lia.
Qed.

Lemma cstring_characters n k a :
  0 <= k <= n -> Forall (.≠ NUL) (characters m (Z.to_nat k) a) ->
  k = n \/ char_of (peek m 1 (a + k)) = NUL ->
  cstring (characters m (Z.to_nat n) a) = characters m (Z.to_nat k) a.
Proof.
  intros Hk Hclean [->|Hnul]; [by apply cstring_clean|].
  destruct (Z.eq_dec k n) as [->|]; [by apply cstring_clean|].
  replace (Z.to_nat n) with (Z.to_nat k + S (Z.to_nat (n - k - 1)))%nat by lia.
  rewrite characters_app. cbn [characters]. rewrite Z2Nat.id, Hnul by lia. by apply cstring_app.
Qed.

(** [bounded_string] stops at the terminator or at the end of the span. *)
Lemma wp_bounded_string {S} a n (Q : string_view -> S -> Prop) s :
  lo <= a -> a + n <= hi -> 0 <= n < 2 ^ 32 ->
  (forall k, 0 <= k <= n -> Forall (.≠ NUL) (characters m (Z.to_nat k) a) ->
     cstring (characters m (Z.to_nat n) a) = characters m (Z.to_nat k) a ->
     Q {| view_data := Some a; view_length := k |} s) ->
  wp (bounded_string m {| span_data := Some a; span_size := n |}) Q s.
Proof.
  intros Ha Han Hn HQ. unfold bounded_string. wp_steps. cbn [span_size span_data].
  apply wp_while with
    (Inv := fun i s1 => s1 = s /\ 0 <= i <= n /\ Forall (.≠ NUL) (characters m (Z.to_nat i) a))
    (variant := fun i _ => n - i).
  - split; [done|]. split; [lia | constructor].
  - lia.
  - intros i s1 (-> & Hi & Hclean) _. destruct (Z.ltb_spec i n) as [Hlt|Hge]; wp_steps.
    2:{ apply HQ; [lia | done |]. apply cstring_characters; [lia | done | left; lia]. }
    unfold text_at, span_at, read_u8. wp_steps. cbn [span_data]. wp_steps.
    apply (wp_fetch m lo hi Hmapped); [lia..|]. wp_steps.
    destruct (Z.eqb_spec (char_of (peek m 1 (a + i))) NUL) as [Hnul|Hnul]; cbn [negb]; wp_steps.
    + apply HQ; [lia | done |]. apply cstring_characters; [lia | done | by right].
    + unfold u64. rewrite wrap_small by (unfold in_width; lia).
      split; [split; [done|]; split; [lia|] | lia].
      rewrite characters_snoc by lia. apply Forall_app. by split; [|constructor].
Qed.

(** Reading the text of a tag: its view, and the characters the view gives access to. *)
Lemma wp_tag_text {S A} sz tag (f : string_view -> text -> kernel S A) (Q : A -> S -> Prop) s :
  0 <= sz -> lo <= tag -> 8 <= size_of m tag -> tag + size_of m tag <= hi ->
  (forall view t, views (text_of sz tag) t (view_length view) -> wp (f view t) Q s) ->
  wp (view ← (bytes ← payload m sz tag; bounded_string m bytes);
      t ← view_text m view; f view t) Q s.
Proof.
  intros Hsz Htag Hsize Hend HQ. pose proof (size_range m lo hi Hmapped tag ltac:(lia) ltac:(lia)).
  unfold payload. wp_steps. apply (wp_tag_size m lo hi Hmapped); [lia..|].
  destruct (Z.leb_spec (size_of m tag) sz).
  - wp_steps. apply wp_intro with {| view_data := None; view_length := 0 |} s; [done|].
    unfold view_text. cbn [view_data]. wp_steps. apply HQ. unfold views, text_of.
    replace (Z.to_nat (size_of m tag - sz)) with O by lia. split; [done|].
    split; [constructor | by right].
  - wp_steps. unfold u64. rewrite wrap_small by (unfold in_width; lia).
    apply wp_bounded_string; [lia..|]. intros k Hk Hclean Hc. wp_steps.
    unfold view_text. cbn [view_data view_length].
    rewrite (chars_at_mapped m lo hi Hmapped) by lia. wp_steps. apply HQ.
    unfold views, text_of. rewrite Hc, zlen_characters. cbn [view_length].
    split; [lia|]. split; [done | by left].
Qed.

Lemma zlen_text_of sz tag :
  0 <= sz -> lo <= tag -> tag + 8 <= hi -> zlen (text_of sz tag) < 2 ^ 64.
Proof.
  intros Hsz Htag Hend. pose proof (size_range m lo hi Hmapped tag ltac:(lia) ltac:(lia)).
  unfold text_of. set (l := characters _ _ _).
  destruct (cstring_spec l) as (rest & Hl & _).
  assert (zlen l = Z.of_nat (Z.to_nat (size_of m tag - sz))) as Hlen by apply zlen_characters.
  rewrite Hl, zlen_app in Hlen. pose proof (zlen_nonneg rest). lia.
Qed.
End Texts.

(** ** What a run must do: return with a postcondition, or panic with a message *)
Definition meets {S A} (k : kernel S A) (message : option string) (Q : A -> S -> Prop) (s : S) :
    Prop :=
  match message with
  | None => wp k Q s
  | Some msg => panics k msg s
  end.

Lemma meets_bind {S A B} (k : kernel S A) (f : A -> kernel S B) message Q s :
  wp k (fun a s' => meets (f a) message Q s') s -> meets (k ≫= f) message Q s.
Proof. destruct message; [apply panics_bind | apply wp_bind]. Qed.

Lemma meets_bind_first {S A B} (k : kernel S A) (f : A -> kernel S B) message Q s :
  meets k message (fun a s' => wp (f a) Q s') s -> meets (k ≫= f) message Q s.
Proof. destruct message; [apply panics_bind_first | apply wp_bind]. Qed.

Lemma meets_mono {S A} (k : kernel S A) message (P Q : A -> S -> Prop) s :
  meets k message P s -> (forall a s', P a s' -> Q a s') -> meets k message Q s.
Proof. destruct message; [done | apply wp_mono]. Qed.

Lemma meets_zoom {S T A} (get : S -> T) (set : T -> S -> S) (k : kernel T A) message Q s :
  meets k message (fun a t => Q a (set t s)) (get s) -> meets (zoom get set k) message Q s.
Proof. destruct message; [apply panics_zoom | apply wp_zoom]. Qed.

Definition FULL : string := "inplace_vector: emplace_back past capacity".

(** [None] when [l] fits a vector of capacity [N]. *)
Definition fits {T} (N : Z) (l : list T) : option string := if zlen l <=? N then None else Some FULL.

Lemma meets_emplace_back {T} `{Inhabited T} N v (x : T) (Q : Z -> inplace_vector T -> Prop) :
  0 < N < 2 ^ 64 -> InplaceVectorFacts.wf N v ->
  (forall v', InplaceVectorFacts.wf N v' -> elements v' = elements v ++ [x] ->
     m_size v < N -> Q (m_size v) v') ->
  meets (emplace_back N x) (fits N (elements v ++ [x])) Q v.
Proof.
  intros HN Hv HQ. pose proof (zlen_elements N v Hv) as Hl. pose proof (wf_size N v Hv).
  unfold fits. autorewrite with arrays. destruct (Z.leb_spec (zlen (elements v) + (1 + 0)) N).
  - apply wp_emplace_back; [done | done | lia |]. intros v' Hv' He. apply HQ; [done | done | lia].
  - cbn [meets]. unfold panics, emplace_back, mbind, kernel_bind, gets.
    by destruct (Z.eqb_spec (m_size v) N); [|lia].
Qed.

(** [f i], [f (i + 1)], ...: [n] of them. *)
Fixpoint collect {A} (f : Z -> A) (n : nat) (i : Z) : list A :=
  match n with
  | O => []
  | Datatypes.S n' => f i :: collect f n' (i + 1)
  end.

(** A loop that appends one element per round, to a sequence that [Inv] says the state holds. *)
Lemma meets_append_loop {S T} N (item : Z -> T) (body : Z -> kernel S unit)
    (Inv : list T -> S -> Prop) count l s :
  Inv l s -> zlen l <= N ->
  (forall i l' s', 0 <= i < count -> Inv l' s' ->
     meets (body i) (fits N (l' ++ [item i])) (fun _ => Inv (l' ++ [item i])) s') ->
  meets (for_range 0 count body) (fits N (l ++ collect item (Z.to_nat count) 0))
    (fun _ => Inv (l ++ collect item (Z.to_nat count) 0)) s.
Proof.
  intros Hs Hl Hbody. unfold for_range. rewrite Z.sub_0_r.
  assert (Hgen : forall n i l' s', 0 <= i -> i + Z.of_nat n <= Z.max 0 count -> zlen l' <= N ->
    Inv l' s' ->
    meets (for_count n i body) (fits N (l' ++ collect item n i)) (fun _ => Inv (l' ++ collect item n i)) s').
  { induction n as [|n IH]; intros i l' s' Hi Hn Hl' Hs'; cbn [for_count collect].
    - rewrite app_nil_r. unfold fits. destruct (Z.leb_spec (zlen l') N); [by apply wp_ret | lia].
    - specialize (Hbody i l' s' ltac:(lia) Hs'). change (item i :: collect item n (i + 1)) with
        ([item i] ++ collect item n (i + 1)). rewrite app_assoc.
      revert Hbody. unfold fits at 1. destruct (Z.leb_spec (zlen (l' ++ [item i])) N); intros Hbody.
      + apply meets_bind. eapply wp_mono; [exact Hbody|]. intros [] s'' Hs''.
        apply IH; [lia | lia | done | done].
      + apply meets_bind_first. cbn [meets] in Hbody. unfold fits.
        rewrite zlen_app. pose proof (zlen_nonneg (collect item n (i + 1))).
        destruct (Z.leb_spec (zlen (l' ++ [item i]) + zlen (collect item n (i + 1))) N); [lia|].
        done. }
  apply Hgen; [lia | lia | done | done].
Qed.

(** ** The description of the machine *)

Record machine : Type := {
  d_command_line : list char;
  d_bootloader_name : list char;
  d_memory_map : list memory_region;
  d_modules : list (address_range * list char);
  d_reserved : list address_range;
  d_framebuffer : framebuffer_info;
  d_palette : list palette_color;
  d_acpi : acpi_info;
}.

Definition module_of (x : module_info) : address_range * list char :=
  (module_range x, contents (module_command_line x)).

(** The framebuffer without the buffer of its palette. *)
Definition without_palette (f : framebuffer_info) : framebuffer_info :=
  set_palette (InplaceVector.init MAX_BOOT_PALETTE_COLORS) f.

Definition machine_of (i : info) : machine := {|
  d_command_line := contents (command_line i);
  d_bootloader_name := contents (bootloader_name i);
  d_memory_map := elements (memory_map i);
  d_modules := map module_of (elements (modules i));
  d_reserved := elements (reserved i);
  d_framebuffer := without_palette (framebuffer i);
  d_palette := elements (palette (framebuffer i));
  d_acpi := acpi i;
|}.

Definition nothing_known : machine := {|
  d_command_line := []; d_bootloader_name := []; d_memory_map := []; d_modules := [];
  d_reserved := []; d_framebuffer := framebuffer_info_init; d_palette := []; d_acpi := acpi_info_init;
|}.

Definition with_command_line x d := {| d_command_line := x; d_bootloader_name := d_bootloader_name d;
  d_memory_map := d_memory_map d; d_modules := d_modules d; d_reserved := d_reserved d;
  d_framebuffer := d_framebuffer d; d_palette := d_palette d; d_acpi := d_acpi d |}.
Definition with_bootloader_name x d := {| d_command_line := d_command_line d; d_bootloader_name := x;
  d_memory_map := d_memory_map d; d_modules := d_modules d; d_reserved := d_reserved d;
  d_framebuffer := d_framebuffer d; d_palette := d_palette d; d_acpi := d_acpi d |}.
Definition with_memory_map x d := {| d_command_line := d_command_line d;
  d_bootloader_name := d_bootloader_name d;
  d_memory_map := x; d_modules := d_modules d; d_reserved := d_reserved d;
  d_framebuffer := d_framebuffer d; d_palette := d_palette d; d_acpi := d_acpi d |}.
Definition with_modules x d := {| d_command_line := d_command_line d;
  d_bootloader_name := d_bootloader_name d;
  d_memory_map := d_memory_map d; d_modules := x; d_reserved := d_reserved d;
  d_framebuffer := d_framebuffer d; d_palette := d_palette d; d_acpi := d_acpi d |}.
Definition with_reserved x d := {| d_command_line := d_command_line d;
  d_bootloader_name := d_bootloader_name d;
  d_memory_map := d_memory_map d; d_modules := d_modules d; d_reserved := x;
  d_framebuffer := d_framebuffer d; d_palette := d_palette d; d_acpi := d_acpi d |}.
Definition with_framebuffer f p d := {| d_command_line := d_command_line d;
  d_bootloader_name := d_bootloader_name d;
  d_memory_map := d_memory_map d; d_modules := d_modules d; d_reserved := d_reserved d;
  d_framebuffer := f; d_palette := p; d_acpi := d_acpi d |}.
Definition with_acpi x d := {| d_command_line := d_command_line d;
  d_bootloader_name := d_bootloader_name d;
  d_memory_map := d_memory_map d; d_modules := d_modules d; d_reserved := d_reserved d;
  d_framebuffer := d_framebuffer d; d_palette := d_palette d; d_acpi := x |}.

(** What becomes of a tag, or of the whole structure. *)
Inductive verdict : Type :=
| Accepts (d : machine)
| Rejects
| Overflows (message : string).

(** The run returns what the verdict says, or panics. *)
Definition refines (k : kernel info bool) (v : verdict) (i : info) : Prop :=
  meets k (match v with Overflows msg => Some msg | _ => None end)
    (fun b i' => wf_info i' /\ match v with
      | Accepts d => b = true /\ machine_of i' = d
      | _ => b = false
      end) i.

(** A verdict that depends on room being left. *)
Definition if_fits (message : option string) (d : machine) : verdict :=
  match message with
  | None => Accepts d
  | Some msg => Overflows msg
  end.

Lemma refines_if_fits k message d i :
  meets k message (fun b i' => wf_info i' /\ b = true /\ machine_of i' = d) i ->
  refines k (if_fits message d) i.
Proof. by destruct message. Qed.

Lemma refines_bind {A} (k : kernel info A) (f : A -> kernel info bool) v i :
  wp k (fun a i' => refines (f a) v i') i -> refines (k ≫= f) v i.
Proof. apply meets_bind. Qed.

Section Describe.
Context (m : memory).

Definition region_at (first stride i : Z) : memory_region :=
  let entry := first + i * stride in
  {| region_base := peek m 8 entry; region_length := peek m 8 (entry + 8);
     region_kind := translate_memory_type (peek m 4 (entry + 16)) |}.

Definition describe_memory_map (tag : Z) (d : machine) : verdict :=
  let stride := peek m 4 (tag + 8) in
  if stride <? 24 then Rejects
  else
    let count := (size_of m tag - 16) / stride in
    let l := d_memory_map d ++ collect (region_at (tag + 16) stride) (Z.to_nat count) 0 in
    if_fits (fits MAX_BOOT_MEMORY_REGIONS l) (with_memory_map l d).

Definition describe_module (tag : Z) (d : machine) : verdict :=
  let first := peek m 4 (tag + 8) in
  let last := peek m 4 (tag + 12) in
  if last <=? first then Accepts d
  else
    let x := ({| range_base := first; range_length := last - first |},
              take (Z.to_nat MAX_BOOT_MODULE_COMMAND_LINE) (text_of m 16 tag)) in
    let l := d_modules d ++ [x] in
    if_fits (fits MAX_BOOT_MODULES l) (with_modules l d).

Definition geometry_of (tag : Z) (f : framebuffer_info) : framebuffer_info :=
  set_geometry
    {| range_base := peek m 8 (tag + 8);
       range_length := peek m 4 (tag + 16) * peek m 4 (tag + 24) |}
    (peek m 4 (tag + 16)) (peek m 4 (tag + 20)) (peek m 4 (tag + 24)) (peek m 1 (tag + 28)) f.

Definition channel_at (a : Z) : pixel_channel :=
  {| position := peek m 1 a; channel_size := peek m 1 (a + 1) |}.

Definition color_at (first i : Z) : palette_color :=
  let a := first + i * 3 in
  {| red_value := peek m 1 a; green_value := peek m 1 (a + 1); blue_value := peek m 1 (a + 2) |}.

(** The colours of an indexed framebuffer: as many as announced, among those that fit the tag. *)
Definition color_count (tag : Z) : Z :=
  if size_of m tag <? 34 then 0 else Z.min (peek m 2 (tag + 32)) ((size_of m tag - 34) / 3).

Definition describe_framebuffer (tag : Z) (d : machine) : verdict :=
  let kind := peek m 1 (tag + 29) in
  let f := framebuffer_info_init in
  if kind =? framebuffer_type.RGB then
    if size_of m tag <? 38 then Rejects
    else Accepts (with_framebuffer (geometry_of tag (set_channels (channel_at (tag + 32))
           (channel_at (tag + 34)) (channel_at (tag + 36)) (set_kind RGB f))) [] d)
  else if kind =? framebuffer_type.INDEXED then
    if MAX_BOOT_PALETTE_COLORS <? color_count tag then Rejects
    else Accepts (with_framebuffer (geometry_of tag (set_kind INDEXED f))
           (collect (color_at (tag + 34)) (Z.to_nat (color_count tag)) 0) d)
  else if kind =? framebuffer_type.EGA_TEXT then
    Accepts (with_framebuffer (geometry_of tag (set_kind TEXT f)) [] d)
  else Accepts (with_framebuffer f [] d).

Definition describe_acpi (rev tag : Z) (d : machine) : verdict :=
  if acpi_present (d_acpi d) && (rev <=? revision (d_acpi d)) then Accepts d
  else Accepts (with_acpi {| acpi_present := true;
         rsdp := {| range_base := tag + 8; range_length := size_of m tag - 8 |};
         revision := rev |} d).

(** A tag shorter than its structure is rejected. *)
Definition long_enough (n tag : Z) (v : verdict) : verdict :=
  if size_of m tag <? n then Rejects else v.

Definition describe_tag (tag : Z) (d : machine) : verdict :=
  let k := kind_of m tag in
  let string_of := take (Z.to_nat MAX_BOOT_STRING) (text_of m 8 tag) in
  if k =? tag_type.COMMAND_LINE then Accepts (with_command_line string_of d)
  else if k =? tag_type.BOOTLOADER_NAME then Accepts (with_bootloader_name string_of d)
  else if k =? tag_type.MODULE then long_enough 16 tag (describe_module tag d)
  else if k =? tag_type.MEMORY_MAP then long_enough 16 tag (describe_memory_map tag d)
  else if k =? tag_type.FRAMEBUFFER then long_enough 32 tag (describe_framebuffer tag d)
  else if k =? tag_type.ACPI_OLD then long_enough 28 tag (describe_acpi 1 tag d)
  else if k =? tag_type.ACPI_NEW then long_enough 28 tag (describe_acpi 2 tag d)
  else Accepts d.

(** The tags in order, until one is rejected or does not fit. *)
Fixpoint describe_tags (l : list Z) (d : machine) : verdict :=
  match l with
  | [] => Accepts d
  | tag :: l' =>
      match describe_tag tag d with
      | Accepts d' => describe_tags l' d'
      | v => v
      end
  end.
End Describe.

(** ** The slot that [emplace_back] returned *)
Section LastSlot.
Context {T : Type} `{Inhabited T} (N : Z) (v : inplace_vector T) (p : list T) (x : T)
  (Hv : InplaceVectorFacts.wf N v) (He : elements v = p ++ [x]).

Lemma last_slot : m_size v = zlen p + 1.
Proof. rewrite <- (zlen_elements N v Hv), He. autorewrite with arrays. lia. Qed.

Lemma wp_get_last (Q : T -> inplace_vector T -> Prop) :
  Q x v -> wp (InplaceVector.get (zlen p)) Q v.
Proof.
  intros HQ. pose proof (InplaceVectorFacts.wf_length N v Hv). pose proof (wf_size N v Hv).
  pose proof last_slot. pose proof (zlen_nonneg p).
  apply wp_zoom, wp_array_get; [lia|].
  replace (znth (m_items v) (zlen p)) with x; [by destruct v|].
  rewrite <- (znth_take (m_items v) (m_size v)) by lia. change (x = znth (elements v) (zlen p)).
  rewrite He. by rewrite znth_app_middle.
Qed.

Lemma wp_put_last y (Q : unit -> inplace_vector T -> Prop) :
  (forall v', InplaceVectorFacts.wf N v' -> elements v' = p ++ [y] -> Q tt v') ->
  wp (InplaceVector.put (zlen p) y) Q v.
Proof.
  intros HQ. pose proof (InplaceVectorFacts.wf_length N v Hv). pose proof (wf_size N v Hv).
  pose proof last_slot as Hlast. pose proof (zlen_nonneg p).
  apply wp_zoom, wp_array_set; [lia|]. apply HQ.
  - split; cbn; autorewrite with arrays; lia.
  - unfold elements in *. cbn. unfold zset. rewrite take_insert_lt by lia. rewrite He.
    unfold zlen. rewrite Nat2Z.id. by rewrite insert_app_r_alt, Nat.sub_diag by lia.
Qed.
End LastSlot.


(** ** The translation of a tag gives its description *)
Section TranslateFacts.
Context (m : memory) (lo hi : Z) (Hmapped : mapped m lo hi) (Hlo : 0 <= lo) (Hhi : hi < 2 ^ 64).

Ltac read := unfold read_u8, read_u16, read_u32, read_u64; apply (wp_fetch m lo hi Hmapped); [lia | lia |].

Lemma refines_command_line tag i :
  wf_info i -> lo <= tag -> 8 <= size_of m tag -> tag + size_of m tag <= hi ->
  refines (translate_command_line m tag)
    (Accepts (with_command_line (take (Z.to_nat MAX_BOOT_STRING) (text_of m 8 tag)) (machine_of i))) i.
Proof.
  intros Hi Htag Hsize Hend. unfold translate_command_line, tag_value, refines, meets.
  apply (wp_tag_text m lo hi Hmapped); [done.. |]. intros view t Ht. wp_steps.
  apply (wp_assign_view _ _ (text_of m 8 tag)); [done | apply (zlen_text_of m lo hi Hmapped); lia | apply Hi | exact Ht |].
  intros s' Hs' Hc. wp_steps. destruct Hi. split; [by split|]. split; [done|].
  unfold machine_of, with_command_line. cbn. by rewrite Hc.
Qed.

Lemma refines_bootloader_name tag i :
  wf_info i -> lo <= tag -> 8 <= size_of m tag -> tag + size_of m tag <= hi ->
  refines (translate_bootloader_name m tag)
    (Accepts (with_bootloader_name (take (Z.to_nat MAX_BOOT_STRING) (text_of m 8 tag)) (machine_of i))) i.
Proof.
  intros Hi Htag Hsize Hend. unfold translate_bootloader_name, tag_value, refines, meets.
  apply (wp_tag_text m lo hi Hmapped); [done.. |]. intros view t Ht. wp_steps.
  apply (wp_assign_view _ _ (text_of m 8 tag)); [done | apply (zlen_text_of m lo hi Hmapped); lia | apply Hi | exact Ht |].
  intros s' Hs' Hc. wp_steps. destruct Hi. split; [by split|]. split; [done|].
  unfold machine_of, with_bootloader_name. cbn. by rewrite Hc.
Qed.

Lemma refines_acpi rev tag i :
  wf_info i -> lo <= tag -> 8 <= size_of m tag -> tag + size_of m tag <= hi ->
  refines (translate_acpi m rev tag) (describe_acpi m rev tag (machine_of i)) i.
Proof.
  intros Hi Htag Hsize Hend. pose proof (size_range m lo hi Hmapped tag ltac:(lia) ltac:(lia)).
  unfold translate_acpi, describe_acpi. apply refines_bind. wp_steps. cbn [d_acpi machine_of].
  destruct (acpi_present (acpi i) && (rev <=? revision (acpi i))); [by split|].
  unfold refines, meets. wp_steps. apply (wp_tag_size m lo hi Hmapped); [lia..|]. wp_steps.
  unfold sizeof_tag_header, rsdp_of, u64. rewrite wrap_small by (unfold in_width; lia).
  destruct Hi. split; [by split|]. by split.
Qed.

Lemma refines_memory_map tag i :
  wf_info i -> lo <= tag -> 16 <= size_of m tag -> tag + size_of m tag <= hi ->
  refines (translate_memory_map m tag) (describe_memory_map m tag (machine_of i)) i.
Proof.
  intros Hi Htag Hsize Hend. pose proof (size_range m lo hi Hmapped tag ltac:(lia) ltac:(lia)).
  unfold translate_memory_map, describe_memory_map, entry_size, sizeof_memory_map_entry.
  apply refines_bind. read. destruct (Z.ltb_spec (peek m 4 (tag + 8)) 24) as [|Hstride].
  { by split. }
  set (stride := peek m 4 (tag + 8)) in *. apply refines_bind. unfold entries. wp_steps.
  apply (wp_tag_size m lo hi Hmapped); [lia..|]. wp_steps. unfold entry_size. read. fold stride.
  destruct (Z.eqb_spec stride 0); [lia|]. wp_steps.
  unfold sizeof_memory_map_tag, u64. rewrite wrap_small by (unfold in_width; lia).
  set (count := (size_of m tag - 16) / stride). apply refines_if_fits.
  assert (count * stride <= size_of m tag - 16) by (unfold count; div_lia).
  apply meets_bind_first. eapply meets_mono.
  - apply (meets_append_loop MAX_BOOT_MEMORY_REGIONS (region_at m (tag + 16) stride) _
      (fun l i' => wf_info i' /\ elements (memory_map i') = l /\
        machine_of i' = with_memory_map l (machine_of i))).
    + split; [done|]. split; [done|]. by destruct i.
    + pose proof (wf_memory_map i Hi) as Hv. pose proof (wf_size _ _ Hv).
      change (zlen (elements (memory_map i)) <= MAX_BOOT_MEMORY_REGIONS).
      rewrite (zlen_elements _ _ Hv). lia.
    + intros k l i' Hk (Hi' & Hl & Hm). assert (k * stride + stride <= size_of m tag - 16) by nia.
      assert (0 <= k * stride) by nia.
      apply meets_bind. unfold base_addr. read. apply meets_bind. unfold entry_length. read.
      apply meets_bind. unfold entry_type. read. apply meets_bind_first, meets_zoom. rewrite <- Hl.
      destruct Hi'. apply meets_emplace_back; [done | done |]. intros v Hv He _. wp_steps.
      split; [by split|]. split; [done|].
      transitivity (with_memory_map (elements v) (machine_of i')); [done|].
      by rewrite Hm, He.
  - intros [] i' (Hi' & Hl & Hm). wp_steps. by split.
Qed.
Lemma refines_module tag i :
  wf_info i -> lo <= tag -> 16 <= size_of m tag -> tag + size_of m tag <= hi ->
  refines (translate_module m tag) (describe_module m tag (machine_of i)) i.
Proof.
  intros Hi Htag Hsize Hend. pose proof (size_range m lo hi Hmapped tag ltac:(lia) ltac:(lia)).
  pose proof (peek_range m lo hi Hmapped 4 (tag + 8) ltac:(lia) ltac:(lia)).
  pose proof (peek_range m lo hi Hmapped 4 (tag + 12) ltac:(lia) ltac:(lia)).
  unfold translate_module, describe_module, mod_start, mod_end.
  apply refines_bind. read. apply refines_bind. read.
  set (start := peek m 4 (tag + 8)) in *. set (last := peek m 4 (tag + 12)) in *.
  destruct (Z.leb_spec last start); [by split|]. apply refines_if_fits.
  unfold u32. rewrite wrap_small by (unfold in_width; lia).
  set (x := module_at start (last - start)).
  assert (Hroom : fits MAX_BOOT_MODULES (d_modules (machine_of i) ++
      [({| range_base := start; range_length := last - start |},
        take (Z.to_nat MAX_BOOT_MODULE_COMMAND_LINE) (text_of m 16 tag))]) =
    fits MAX_BOOT_MODULES (elements (modules i) ++ [x])).
  { unfold fits, zlen. rewrite !length_app. cbn. by rewrite length_map. }
  rewrite Hroom. apply meets_bind_first, meets_zoom.
  pose proof (wf_modules i Hi) as Hv. apply meets_emplace_back; [done | done |].
  intros v Hv1 He Hsmall. cbv beta. rewrite <- (zlen_elements _ _ Hv).
  unfold module_tag_command_line. apply (wp_tag_text m lo hi Hmapped); [done | lia.. |].
  intros view t Ht. apply wp_bind, wp_zoom, (wp_get_last _ _ _ x Hv1 He). cbv beta.
  apply wp_bind, wp_local. apply (wp_assign_view _ _ (text_of m 16 tag)).
  { done. }
  { apply (zlen_text_of m lo hi Hmapped); lia. }
  { by apply string_wf_init. }
  { exact Ht. }
  intros s' Hs' Hc. wp_steps. apply (wp_put_last _ _ _ x Hv1 He). intros v' Hv' He'. wp_steps.
  destruct Hi. split; [by split|]. split; [done|].
  unfold machine_of, with_modules. cbn. rewrite He', map_app. cbn. unfold module_of at 2. cbn.
  by rewrite Hc.
Qed.
Lemma refines_geometry tag i :
  wf_info i -> lo <= tag -> tag + 32 <= hi ->
  refines (translate_geometry m tag)
    (Accepts (with_framebuffer (geometry_of m tag (without_palette (framebuffer i)))
       (elements (palette (framebuffer i))) (machine_of i))) i.
Proof.
  intros Hi Htag Hend.
  pose proof (peek_range m lo hi Hmapped 4 (tag + 16) ltac:(lia) ltac:(lia)).
  pose proof (peek_range m lo hi Hmapped 4 (tag + 24) ltac:(lia) ltac:(lia)).
  unfold translate_geometry, framebuffer_address, framebuffer_pitch, framebuffer_height,
    framebuffer_width, framebuffer_bits_per_pixel.
  repeat (apply refines_bind; read). apply refines_bind, wp_modify.
  unfold u64. rewrite wrap_small by (unfold in_width; nia).
  destruct Hi. split; [by split|]. by split.
Qed.

Lemma wp_tag_rgb {S} tag (Q : option Z -> S -> Prop) s :
  lo <= tag -> 32 <= size_of m tag -> tag + size_of m tag <= hi ->
  peek m 1 (tag + 29) = framebuffer_type.RGB ->
  Q (if size_of m tag <? 38 then None else Some (tag + 32)) s -> wp (tag_rgb m tag) Q s.
Proof.
  intros Htag Hsize Hend Hkind HQ. pose proof (size_range m lo hi Hmapped tag ltac:(lia) ltac:(lia)).
  unfold tag_rgb, payload, framebuffer_tag_type, sizeof_framebuffer_tag, sizeof_framebuffer_rgb.
  wp_steps. apply (wp_tag_size m lo hi Hmapped); [lia..|].
  destruct (Z.leb_spec (size_of m tag) 32); wp_steps; read; rewrite Hkind; cbn [negb orb span_size span_data];
    rewrite Z.eqb_refl; cbn [negb orb].
  - cbn. wp_steps. destruct (Z.ltb_spec (size_of m tag) 38); [done|lia].
  - unfold u64. rewrite wrap_small by (unfold in_width; lia).
    destruct (Z.ltb_spec (size_of m tag - 32) 6), (Z.ltb_spec (size_of m tag) 38); try lia; wp_steps.
    + done.
    + unfold span_at. cbn [span_data]. wp_steps. by rewrite Z.add_0_r.
Qed.

Lemma wp_tag_palette {S} tag (Q : Z * Z -> S -> Prop) s :
  lo <= tag -> 32 <= size_of m tag -> tag + size_of m tag <= hi ->
  peek m 1 (tag + 29) = framebuffer_type.INDEXED ->
  (forall colors, (0 < color_count m tag -> colors = tag + 34 /\
       colors + 3 * color_count m tag <= hi) -> Q (colors, color_count m tag) s) ->
  wp (tag_palette m tag) Q s.
Proof.
  intros Htag Hsize Hend Hkind HQ. pose proof (size_range m lo hi Hmapped tag ltac:(lia) ltac:(lia)).
  unfold tag_palette, payload, framebuffer_tag_type, sizeof_framebuffer_tag, color_count in *.
  wp_steps. apply (wp_tag_size m lo hi Hmapped); [lia..|].
  destruct (Z.leb_spec (size_of m tag) 32); wp_steps; read; rewrite Hkind; cbn [negb orb span_size span_data];
    rewrite Z.eqb_refl; cbn [negb orb].
  - cbn. wp_steps. destruct (Z.ltb_spec (size_of m tag) 34); [apply HQ|]; lia.
  - unfold u64. rewrite wrap_small by (unfold in_width; lia).
    destruct (Z.ltb_spec (size_of m tag - 32) 2), (Z.ltb_spec (size_of m tag) 34); try lia; wp_steps.
    + apply HQ. lia.
    + unfold span_at. cbn [span_data]. wp_steps. read. wp_steps. rewrite Z.add_0_r.
      unfold sizeof_framebuffer_color.
      replace (size_of m tag - 32 - 2) with (size_of m tag - 34) by lia.
      pose proof (peek_range m lo hi Hmapped 2 (tag + 32) ltac:(lia) ltac:(lia)).
      set (n := peek m 2 (tag + 32)) in *. set (room := (size_of m tag - 34) / 3) in *.
      assert (3 * room <= size_of m tag - 34) by (unfold room; div_lia).
      replace (if n <? room then n else room) with (n `min` room)
        by (destruct (Z.ltb_spec n room); lia).
      replace (tag + 32 + 2) with (tag + 34) by lia. apply HQ. lia.
Qed.

(** The palette loop, and the geometry after it. *)
Lemma wp_palette tag colors i :
  wf_info i -> lo <= tag -> 32 <= size_of m tag -> tag + size_of m tag <= hi ->
  color_count m tag <= MAX_BOOT_PALETTE_COLORS ->
  (0 < color_count m tag -> colors = tag + 34 /\ colors + 3 * color_count m tag <= hi) ->
  let i1 := set_framebuffer (set_kind INDEXED framebuffer_info_init) i in
  wp (for_range 0 (color_count m tag) (fun i =>
        let color := colors + i * sizeof_framebuffer_color in
        r ← color_red m color; g ← color_green m color; b ← color_blue m color;
        zoom framebuffer set_framebuffer (zoom palette set_palette
          (InplaceVector.emplace_back MAX_BOOT_PALETTE_COLORS
             {| red_value := r; green_value := g; blue_value := b |}));;
        mret tt))
    (fun _ i' => refines (translate_geometry m tag)
      (Accepts (with_framebuffer (geometry_of m tag (set_kind INDEXED framebuffer_info_init))
         (collect (color_at m (tag + 34)) (Z.to_nat (color_count m tag)) 0) (machine_of i))) i') i1.
Proof.
  intros Hi Htag Hsize Hend Hfit Hcolors i1. set (n := color_count m tag) in *.
  assert (Hi1 : wf_info i1) by (destruct Hi; by split).
  set (item := color_at m (tag + 34)).
  assert (Hlen : forall k j, zlen (collect item k j) = Z.of_nat k).
  { induction k as [|k IH]; intros j; [done|]. cbn. rewrite zlen_cons, IH. lia. }
  assert (Hroom : fits MAX_BOOT_PALETTE_COLORS ([] ++ collect item (Z.to_nat n) 0) = None).
  { unfold fits. cbn [app]. rewrite Hlen.
    by destruct (Z.leb_spec (Z.of_nat (Z.to_nat n)) MAX_BOOT_PALETTE_COLORS); [|unfold MAX_BOOT_PALETTE_COLORS in *; lia]. }
  eapply (wp_mono (S := info)).
  - match goal with |- wp ?k ?Q ?s => change (meets k None Q s) end. rewrite <- Hroom.
    apply (meets_append_loop MAX_BOOT_PALETTE_COLORS item _ (fun l i' => wf_info i' /\
      elements (palette (framebuffer i')) = l /\
      machine_of i' = with_framebuffer (set_kind INDEXED framebuffer_info_init) l (machine_of i)));
      [done | done |].
    intros k l i' Hk (Hi' & Hl & Hm). destruct (Hcolors ltac:(lia)) as [-> Hin].
    apply meets_bind. unfold color_red, sizeof_framebuffer_color. read.
    apply meets_bind. unfold color_green. read. apply meets_bind. unfold color_blue. read.
    apply meets_bind_first, meets_zoom, meets_zoom. rewrite <- Hl. destruct Hi'.
    apply meets_emplace_back; [done | done |]. intros v Hv He _. wp_steps.
    split; [by split|]. split; [done|].
    transitivity (with_framebuffer (d_framebuffer (machine_of i')) (elements v) (machine_of i'));
      [done|]. by rewrite Hm, He.
  - intros [] i' (Hi' & Hl & Hm). pose proof (refines_geometry tag i' Hi' ltac:(lia) ltac:(lia)) as Hg.
    rewrite Hl in Hg. change (without_palette (framebuffer i')) with (d_framebuffer (machine_of i')) in Hg.
    rewrite Hm in Hg. exact Hg.
Qed.

Lemma refines_framebuffer tag i :
  wf_info i -> lo <= tag -> 32 <= size_of m tag -> tag + size_of m tag <= hi ->
  refines (translate_framebuffer m tag) (describe_framebuffer m tag (machine_of i)) i.
Proof.
  intros Hi Htag Hsize Hend. unfold translate_framebuffer, describe_framebuffer.
  apply refines_bind, wp_modify.
  set (i1 := set_framebuffer framebuffer_info_init i).
  assert (Hi1 : wf_info i1).
  { destruct Hi. by split. }
  apply refines_bind. unfold framebuffer_tag_type. read.
  destruct (Z.eqb_spec (peek m 1 (tag + 29)) framebuffer_type.RGB) as [Hk|Hk].
  { apply refines_bind, wp_tag_rgb; [done..|]. destruct (Z.ltb_spec (size_of m tag) 38); [by split|].
    unfold red_position, red_mask_size, green_position, green_mask_size, blue_position, blue_mask_size.
    repeat (apply refines_bind; read). do 2 (apply refines_bind, wp_modify).
    match goal with |- refines _ _ ?j => set (i2 := j) end.
    assert (Hi2 : wf_info i2) by (destruct Hi1; by split).
    pose proof (refines_geometry tag i2 Hi2 ltac:(lia) ltac:(lia)) as Hg.
    unfold channel_at. replace (tag + 34 + 1) with (tag + 32 + 3) by lia.
    replace (tag + 36 + 1) with (tag + 32 + 5) by lia. replace (tag + 34) with (tag + 32 + 2) by lia.
    replace (tag + 36) with (tag + 32 + 4) by lia. exact Hg. }
  destruct (Z.eqb_spec (peek m 1 (tag + 29)) framebuffer_type.INDEXED) as [Hk'|Hk'].
  { apply refines_bind, wp_tag_palette; [done..|]. intros colors Hcolors.
    destruct (Z.ltb_spec MAX_BOOT_PALETTE_COLORS (color_count m tag)) as [|Hfit]; [by split|].
    apply refines_bind, wp_modify. apply refines_bind.
    exact (wp_palette tag colors i Hi Htag Hsize Hend Hfit Hcolors). }
  destruct (Z.eqb_spec (peek m 1 (tag + 29)) framebuffer_type.EGA_TEXT); [|by split].
  apply refines_bind, wp_modify.
  match goal with |- refines _ _ ?j => assert (Hi2 : wf_info j) by (destruct Hi1; by split) end.
  exact (refines_geometry tag _ Hi2 ltac:(lia) ltac:(lia)).
Qed.
End TranslateFacts.

(** ** The whole structure *)
Section Structure.
Context (m : memory) (lo hi : Z) (Hmapped : mapped m lo hi) (Hlo : 0 <= lo) (Hhi : hi < 2 ^ 64).

Lemma refines_as n tag translate v i :
  wf_info i -> lo <= tag -> 8 <= size_of m tag -> tag + size_of m tag <= hi ->
  (n <= size_of m tag -> refines (translate tag) v i) ->
  refines (translate_as m n tag translate) (long_enough m n tag v) i.
Proof.
  intros Hi Htag Hsize Hend Hv. unfold translate_as, as_tag, long_enough.
  apply refines_bind. wp_steps. apply (wp_tag_size m lo hi Hmapped); [lia..|]. wp_steps.
  destruct (Z.ltb_spec (size_of m tag) n); [by split | by apply Hv].
Qed.

Lemma refines_tag tag i :
  wf_info i -> lo <= tag -> 8 <= size_of m tag -> tag + size_of m tag <= hi ->
  refines (translate_tag m tag) (describe_tag m tag (machine_of i)) i.
Proof.
  intros Hi Htag Hsize Hend. unfold translate_tag, describe_tag.
  apply refines_bind, (wp_tag_kind m lo hi Hmapped); [lia..|].
  assert (Hstring : forall v, v = long_enough m 8 tag v).
  { intros v. unfold long_enough. by destruct (Z.ltb_spec (size_of m tag) 8); [lia|]. }
  case_match; [rewrite (Hstring (Accepts _)); apply refines_as; [done..|]; intros _;
    by apply (refines_command_line m lo hi)|].
  case_match; [rewrite (Hstring (Accepts _)); apply refines_as; [done..|]; intros _;
    by apply (refines_bootloader_name m lo hi)|].
  case_match; [apply refines_as; [done..|]; intros; by apply (refines_module m lo hi)|].
  case_match; [apply refines_as; [done..|]; intros; by apply (refines_memory_map m lo hi)|].
  case_match; [apply refines_as; [done..|]; intros; by apply (refines_framebuffer m lo hi)|].
  case_match; [apply refines_as; [done..|]; intros; by apply (refines_acpi m lo hi)|].
  case_match; [apply refines_as; [done..|]; intros; by apply (refines_acpi m lo hi)|].
  by split.
Qed.

(** The body of the loop of [adapter_parse]. *)
Definition translate_or_stop (tag : Z) : kernel info (option init_error) :=
  ok ← translate_tag m tag; mret (if ok : bool then None else Some INVALID_BOOT_DATA).

Lemma meets_tags l i :
  wf_info i -> Forall (fun tag => lo <= tag /\ 8 <= size_of m tag /\ tag + size_of m tag <= hi) l ->
  let v := describe_tags m l (machine_of i) in
  meets (scan_list l translate_or_stop)
    (match v with Overflows msg => Some msg | _ => None end)
    (fun r i' => wf_info i' /\ match v with
      | Accepts d => r = None /\ machine_of i' = d
      | _ => r = Some INVALID_BOOT_DATA
      end) i.
Proof.
  intros Hi Hl. revert i Hi. induction Hl as [|tag l (Htag & Hsize & Hend) Hl IH]; intros i Hi v;
    subst v; cbn [describe_tags scan_list]; [by split|].
  pose proof (refines_tag tag i Hi Htag Hsize Hend) as Ht. unfold refines in Ht. unfold translate_or_stop at 1.
  destruct (describe_tag m tag (machine_of i)) as [d| |msg]; cbn [meets] in Ht.
  - apply meets_bind, wp_bind. eapply wp_mono; [exact Ht|].
    intros b i' (Hi' & -> & <-). apply wp_ret. by apply IH.
  - apply wp_bind, wp_bind. eapply wp_mono; [exact Ht|].
    intros b i' (Hi' & ->). apply wp_ret. by split.
  - by apply panics_bind_first, panics_bind_first.
Qed.
End Structure.

(** ** Properties *)

Definition structure_size (h : handoff) : Z := peek (loader_memory h) 4 (m_info_address h).

(** What a Multiboot2 loader promises: the magic number, and a structure that ends below the top of
    memory and is a sequence of tags. *)
Record announces (h : handoff) (l : list Z) : Prop := {
  announced_magic : m_magic h = BOOTLOADER_MAGIC;
  announced_address : m_info_address h <> 0;
  announced_header : 8 <= structure_size h;
  announced_end : m_info_address h + structure_size h < 2 ^ 64;
  announced_tags : tag_list (loader_memory h) (m_info_address h + structure_size h)
    (m_info_address h + 8) l;
}.

(** The memory the structure claims to occupy can be read, when there is a structure. *)
Record accessible (h : handoff) : Prop := {
  accessible_address : 0 <= m_info_address h < 2 ^ 64 - 8;
  accessible_header : m_magic h = BOOTLOADER_MAGIC -> m_info_address h <> 0 ->
    mapped (loader_memory h) (m_info_address h) (m_info_address h + 8);
  accessible_structure : m_magic h = BOOTLOADER_MAGIC -> m_info_address h <> 0 ->
    m_info_address h + structure_size h < 2 ^ 64 ->
    mapped (loader_memory h) (m_info_address h) (m_info_address h + structure_size h);
}.

Lemma wp_adapter_well_formed h (Q : bool -> unit -> Prop) :
  accessible h -> (forall b, (b = true <-> exists l, announces h l) -> Q b tt) ->
  wp (adapter_well_formed h) Q tt.
Proof.
  intros [Ha Hheader Hstructure] HQ. unfold adapter_well_formed.
  destruct (Z.eqb_spec (m_magic h) BOOTLOADER_MAGIC) as [Hm|Hm]; cbn [negb].
  2:{ apply wp_ret, HQ. split; [done|]. by intros [l []]. }
  destruct (Z.eqb_spec (m_info_address h) 0) as [H0|H0].
  { apply wp_ret, HQ. split; [done|]. by intros [l []]. }
  specialize (Hheader Hm H0). specialize (Hstructure Hm H0).
  unfold well_formed, total_size, read_u32, sizeof_fixed_header. wp_step.
  apply (wp_fetch _ _ _ Hheader); [lia..|]. fold (structure_size h).
  pose proof (peek_range _ _ _ Hheader 4 (m_info_address h) ltac:(lia) ltac:(lia)) as Hn.
  fold (structure_size h) in Hn.
  destruct (Z.ltb_spec (structure_size h) 8) as [Hs|Hs].
  { apply wp_ret, HQ. split; [done|]. intros [l []]. lia. }
  change (bnot 64 0) with (2 ^ 64 - 1).
  destruct (Z.ltb_spec (2 ^ 64 - 1 - m_info_address h) (structure_size h)) as [He|He].
  { apply wp_ret, HQ. split; [done|]. intros [l []]. lia. }
  specialize (Hstructure ltac:(lia)).
  apply (wp_well_formed_from _ (m_info_address h) _ Hstructure); [lia | lia | lia | |].
  { unfold tag_fuel. div_lia. }
  intros b Hb. apply HQ. rewrite Hb. split; intros [l Hl].
  - exists l. split; [done..| lia | done].
  - exists l. by destruct Hl.
Qed.

(** What [boot_info::component::parse] sees of the adapter's [well_formed]. *)
Lemma well_formed_decides h :
  accessible h -> exists b, Boot.well_formed h = Ret b /\ (b = true <-> exists l, announces h l).
Proof.
  intros Hh. assert (H : wp (adapter_well_formed h) (fun b _ => b = true <-> exists l, announces h l) tt)
    by (by apply wp_adapter_well_formed).
  apply wp_elim in H as (b & [] & Hrun & Hb). exists b. split; [|done].
  cbn [Boot.well_formed multiboot2]. by rewrite Hrun.
Qed.

(** C3: [well_formed] accepts exactly the structures a loader may announce, whatever the memory around
    them holds. *)
Theorem handoff_well_formed_correct h :
  accessible h ->
  wp (adapter_well_formed h) (fun b _ => b = true <-> exists l, announces h l) tt.
Proof. intros Hh. by apply wp_adapter_well_formed. Qed.

Definition message_of (v : verdict) : option string :=
  match v with Overflows message => Some message | _ => None end.

Definition start_range (h : handoff) : address_range :=
  {| range_base := m_info_address h; range_length := structure_size h |}.

(** The description of the machine that the tags [l] of a structure give. *)
Definition described (h : handoff) (l : list Z) : verdict :=
  describe_tags (loader_memory h) l (with_reserved [start_range h] nothing_known).

Lemma blank_machine i : wf_info i -> blank i -> machine_of i = nothing_known.
Proof.
  intros Hi [Hc Hn Hm Hmo Hr Hf Ha]. unfold machine_of, nothing_known.
  by rewrite Hc, Hn, Hm, Hmo, Hr, Hf, Ha.
Qed.

Lemma meets_adapter_parse h l i :
  wf_info i -> blank i -> accessible h -> announces h l ->
  meets (adapter_parse h) (message_of (described h l))
    (fun r i' => wf_info i' /\ match described h l with
      | Accepts d => r = Ok tt /\ machine_of i' = d
      | _ => r = Err INVALID_BOOT_DATA
      end) i.
Proof.
  intros Hi Hblank Hh Hl. pose proof Hh as [Ha _ Hs]. pose proof Hl as [Hm H0 Hn Hend Htags].
  specialize (Hs Hm H0 Hend). unfold adapter_parse, total_size, read_u32. apply meets_bind.
  apply (wp_fetch _ _ _ Hs); [lia..|]. fold (structure_size h).
  apply meets_bind, wp_zoom.
  pose proof (wf_reserved i Hi) as Hv. apply wp_emplace_back; [done | done | |].
  { pose proof (zlen_elements _ _ Hv) as Hz. rewrite (blank_reserved i Hblank) in Hz. cbn in Hz.
    unfold zlen, MAX_BOOT_RESERVED_RANGES in *. cbn in Hz. lia. }
  intros v Hv1 He. rewrite (blank_reserved i Hblank) in He. cbv beta.
  set (i1 := set_reserved v i).
  assert (Hi1 : wf_info i1) by (destruct Hi; by split).
  assert (Hm1 : machine_of i1 = with_reserved [start_range h] nothing_known).
  { rewrite <- (blank_machine i Hi Hblank). unfold machine_of, with_reserved. cbn. by rewrite He. }
  pose proof (tag_list_inside _ _ _ Hs _ _ Htags ltac:(lia)) as Hin.
  pose proof (meets_tags _ _ _ Hs l i1 Hi1 Hin) as Hscan. cbv zeta in Hscan.
  rewrite Hm1 in Hscan. fold (described h l) in Hscan.
  change (fun tag => ok ← translate_tag (loader_memory h) tag;
    mret (if ok : bool then None else Some INVALID_BOOT_DATA)) with (translate_or_stop (loader_memory h)).
  assert (Heach : meets (each_tag (loader_memory h) (tag_fuel (structure_size h))
      (translate_or_stop (loader_memory h)) (first_tag (m_info_address h)))
    (message_of (described h l)) (fun r i' => wf_info i' /\ match described h l with
      | Accepts d => r = None /\ machine_of i' = d
      | _ => r = Some INVALID_BOOT_DATA
      end) i1).
  { unfold meets, wp, panics in *. unfold first_tag, sizeof_fixed_header.
    erewrite each_tag_scan; [exact Hscan | exact Hs | lia | lia | exact Htags | lia |].
    unfold tag_fuel. div_lia. }
  apply meets_bind_first. eapply meets_mono; [exact Heach|].
  intros r i' [Hi' Hr]. apply wp_ret. split; [done|].
  by destruct (described h l); [destruct Hr as [-> Hd] | rewrite Hr..].
Qed.

(** Parsing an announced structure, in one outcome. *)
Lemma meets_boot_parse h l i :
  wf_info i -> accessible h -> announces h l ->
  meets (Boot.parse h) (message_of (described h l))
    (fun r i' => wf_info i' /\ match described h l with
      | Accepts d => r = Ok tt /\ machine_of i' = d
      | _ => r = Err INVALID_BOOT_DATA /\ blank i'
      end) i.
Proof.
  intros Hi Hh Hl. destruct (well_formed_decides h Hh) as (b & Hb & Hiff).
  assert (b = true) as -> by (apply Hiff; by eexists).
  unfold Boot.parse. apply meets_bind, wp_reset_info; [done|]. intros i1 Hi1 Hblank.
  apply meets_bind. apply wp_intro with true i1; [by rewrite Hb|]. cbn [negb protocol_parse multiboot2].
  apply meets_bind_first. eapply meets_mono; [by apply meets_adapter_parse|].
  intros r i' [Hi' Hr]. destruct (described h l).
  - destruct Hr as [-> Hd]. cbn [is_err when]. wp_steps. by split.
  - rewrite Hr. cbn [is_err when]. apply wp_bind, wp_reset_info; [done|]. intros. wp_steps. by split.
  - rewrite Hr. cbn [is_err when]. apply wp_bind, wp_reset_info; [done|]. intros. wp_steps. by split.
Qed.

(** C2: Parsing an announced structure ends, reads nothing outside it, and either fills the boot
    information in with the description of its tags, or leaves it blank with the error of an invalid
    structure when a tag is malformed, or panics when a fixed-size table overflows; whatever the
    boot information held before. *)
Theorem boot_parse_correct h l i :
  wf_info i -> accessible h -> announces h l ->
  match described h l with
  | Accepts d => wp (Boot.parse h) (fun r i' => r = Ok tt /\ wf_info i' /\ machine_of i' = d) i
  | Rejects => wp (Boot.parse h) (fun r i' => r = Err INVALID_BOOT_DATA /\ wf_info i' /\ blank i') i
  | Overflows message => panics (Boot.parse h) message i
  end.
Proof.
  intros Hi Hh Hl. pose proof (meets_boot_parse h l i Hi Hh Hl) as Hparse.
  destruct (described h l); cbn [meets message_of] in Hparse; [| |done];
    (eapply wp_mono; [exact Hparse|]); intros r i' (Hi' & Hr & Hd); by subst r.
Qed.

(** Without an announced structure - another loader's magic number, no address, a size past the top
    of memory, a sequence of tags that overruns the structure or has no end tag - parsing reports
    invalid boot data and leaves nothing behind of what was known before. *)
Theorem boot_parse_rejects h i :
  wf_info i -> accessible h -> (forall l, ~ announces h l) ->
  wp (Boot.parse h) (fun r i' => r = Err INVALID_BOOT_DATA /\ wf_info i' /\ blank i') i.
Proof.
  intros Hi Hh Hl. destruct (well_formed_decides h Hh) as ([|] & Hb & Hiff).
  { destruct (proj1 Hiff eq_refl) as [l Hannounced]. by destruct (Hl l). }
  unfold Boot.parse. apply wp_bind, wp_reset_info; [done|]. intros i1 Hi1 Hblank.
  apply wp_bind, wp_intro with false i1; [by rewrite Hb|]. cbn [negb]. wp_steps. done.
Qed.

(** ** A structure of five tags, at address 4096 *)

Definition tag_bytes (kind : Z) (body : list Z) : list Z :=
  let n := 8 + zlen body in
  little_endian 4 kind ++ little_endian 4 n ++ body ++
    replicate (Z.to_nat (align_up 64 n TAG_ALIGNMENT - n)) 0.

Definition structure_bytes (tags : list Z) : list Z :=
  little_endian 4 (8 + zlen tags) ++ little_endian 4 0 ++ tags.

Definition loaded (bytes : list Z) : handoff :=
  {| m_magic := BOOTLOADER_MAGIC; m_info_address := 4096; loader_memory := image_at 4096 bytes |}.

Definition example_structure : list Z := structure_bytes (
  tag_bytes tag_type.COMMAND_LINE [104; 105; 0] ++
  tag_bytes tag_type.MEMORY_MAP (little_endian 4 24 ++ little_endian 4 0 ++
    little_endian 8 0x100000 ++ little_endian 8 0x200000 ++ little_endian 4 1 ++ little_endian 4 0) ++
  tag_bytes tag_type.MODULE (little_endian 4 0x400000 ++ little_endian 4 0x401000 ++ [109; 0]) ++
  tag_bytes tag_type.FRAMEBUFFER (little_endian 8 0xB8000 ++ little_endian 4 4096 ++
    little_endian 4 1024 ++ little_endian 4 768 ++ [32; 1; 0; 0] ++ [16; 8; 8; 8; 0; 8]) ++
  tag_bytes tag_type.ACPI_OLD (replicate 20 65) ++
  tag_bytes tag_type.END []).

Definition example_tags : list Z := [4104; 4120; 4160; 4184; 4224].

(** A tag that is longer than the structure. *)
Definition truncated_structure : list Z := structure_bytes (little_endian 4 1 ++ little_endian 4 16).

Lemma accessible_loaded bytes :
  structure_size (loaded bytes) = zlen bytes -> 8 <= zlen bytes -> accessible (loaded bytes).
Proof.
  intros Hsize Hlong. split; cbn [m_info_address loader_memory loaded].
  - lia.
  - intros _ _ x Hx. apply (mapped_image 4096 bytes (4096 + zlen bytes)); [done | lia].
  - intros _ _ _. rewrite Hsize. by apply mapped_image.
Qed.

Lemma accessible_example : accessible (loaded example_structure).
Proof. apply accessible_loaded; vm_compute; [done | intros [=]]. Qed.

Lemma announces_example : announces (loaded example_structure) example_tags.
Proof.
  split; [done | done | vm_compute; intros [=] | done |].
  change (m_info_address (loaded example_structure) + structure_size (loaded example_structure))
    with (4096 + structure_size (loaded example_structure)).
  replace (structure_size (loaded example_structure)) with 168 by (by vm_compute).
  do 5 (apply tag_list_tag; [done | by vm_compute | by vm_compute | by vm_compute |];
    match goal with |- tag_list _ _ ?a _ => let a' := eval vm_compute in a in change a with a' end).
  by apply tag_list_end; vm_compute.
Qed.

Lemma accessible_truncated : accessible (loaded truncated_structure).
Proof. apply accessible_loaded; vm_compute; [done | intros [=]]. Qed.

Lemma truncated_unannounced l : ~ announces (loaded truncated_structure) l.
Proof.
  intros [_ _ _ _ Ht].
  replace (m_info_address (loaded truncated_structure) + structure_size (loaded truncated_structure))
    with 4112 in Ht by (by vm_compute).
  change (m_info_address (loaded truncated_structure) + 8) with 4104 in Ht.
  inversion Ht.
  - match goal with Hk : kind_of _ _ = _ |- _ => by vm_compute in Hk end.
  - match goal with Hn : next_of _ _ <= _ |- _ => by vm_compute in Hn end.
Qed.

Definition example_machine : machine := {|
  d_command_line := [104; 105];
  d_bootloader_name := [];
  d_memory_map := [{| region_base := 0x100000; region_length := 0x200000; region_kind := USABLE |}];
  d_modules := [({| range_base := 0x400000; range_length := 0x1000 |}, [109])];
  d_reserved := [{| range_base := 4096; range_length := 168 |}];
  d_framebuffer := {|
    framebuffer_present := true; kind := RGB;
    range := {| range_base := 0xB8000; range_length := 4096 * 768 |};
    pitch := 4096; width := 1024; height := 768; bits_per_pixel := 32;
    red := {| position := 16; channel_size := 8 |};
    green := {| position := 8; channel_size := 8 |};
    blue := {| position := 0; channel_size := 8 |};
    palette := InplaceVector.init MAX_BOOT_PALETTE_COLORS |};
  d_palette := [];
  d_acpi := {| acpi_present := true; rsdp := {| range_base := 4232; range_length := 20 |};
               revision := 1 |};
|}.

Lemma example_described :
  described (loaded example_structure) example_tags = Accepts example_machine.
Proof. vm_compute. reflexivity. Qed.

Lemma handoff_well_formed_correct_witness :
  wp (adapter_well_formed (loaded example_structure)) (fun b _ => b = true) tt.
Proof.
  eapply wp_mono; [exact (handoff_well_formed_correct _ accessible_example)|].
  intros b s Hb. apply Hb. exists example_tags. exact announces_example.
Defined.

Lemma boot_parse_correct_witness :
  wp (Boot.parse (loaded example_structure)) (fun r i => r = Ok tt /\
    d_command_line (machine_of i) = [104; 105] /\
    d_memory_map (machine_of i) =
      [{| region_base := 0x100000; region_length := 0x200000; region_kind := USABLE |}] /\
    d_modules (machine_of i) = [({| range_base := 0x400000; range_length := 0x1000 |}, [109])] /\
    red (framebuffer i) = {| position := 16; channel_size := 8 |} /\
    acpi i = {| acpi_present := true; rsdp := {| range_base := 4232; range_length := 20 |};
                revision := 1 |}) info_init.
Proof.
  pose proof (boot_parse_correct _ _ _ wf_info_init accessible_example announces_example) as H.
  rewrite example_described in H. cbv iota in H.
  eapply wp_mono; [exact H|]. intros r i (-> & _ & Hd).
  change (red (framebuffer i)) with (red (d_framebuffer (machine_of i))).
  change (acpi i) with (d_acpi (machine_of i)). rewrite Hd. by repeat split.
Defined.

Lemma boot_parse_rejects_witness :
  wp (Boot.parse (loaded truncated_structure))
    (fun r i => r = Err INVALID_BOOT_DATA /\ wf_info i /\ blank i) info_init.
Proof.
  exact (boot_parse_rejects _ _ wf_info_init accessible_truncated truncated_unannounced).
Defined.
