(* ===== verification/InitGraph.v ===== *)
(** * InitGraph: [kernel/init/init_graph.hpp], [init.hpp] and [component.hpp]

    The components of the kernel declare what they depend on; the order in which they start is
    computed by the compiler, from lists of types.  A type is an element of [C], a [type_list] a
    list of them.  A failed [static_assert] is [Panic] with its message: the program does not
    compile. *)

From stdpp Require Import relations.
From S2P Require Import Prelude Boot.

#[local] Open Scope Z_scope.

#[export] Instance outcome_ret : MRet outcome := fun A a => Ret a.

#[export] Instance outcome_bind : MBind outcome := fun A B f m =>
  match m with
  | Ret a => f a
  | Panic message => Panic message
  | Undefined => Undefined
  | Diverge => Diverge
  end.

(** The components of a graph over the backing state [S]. *)
Class components (C S : Type) : Type := {
  deps : C -> list C;
  component_init : C -> kernel S init_result;
}.

(** The logger concept: what is told about a component's start. *)
Class init_logger (C S : Type) : Type := {
  begin : C -> kernel S unit;
  ok : C -> kernel S unit;
  fail : C -> init_error -> kernel S unit;
}.

(** ** Type lists *)
Section Lists.
Context {C : Type} `{EqDecision C}.

Fixpoint list_contains (t : C) (l : list C) : bool :=
  match l with
  | [] => false
  | head :: tail => bool_decide (t = head) || list_contains t tail
  end.

Definition list_append (l : list C) (t : C) : list C := l ++ [t].

Definition list_append_unique (l : list C) (t : C) : list C :=
  if list_contains t l then l else list_append l t.

Fixpoint list_concat_unique (a b : list C) : list C :=
  match b with
  | [] => a
  | head :: tail => list_concat_unique (list_append_unique a head) tail
  end.

Fixpoint list_filter_out_accum (l excluded accum : list C) : list C :=
  match l with
  | [] => accum
  | head :: tail =>
      list_filter_out_accum tail excluded
        (if list_contains head excluded then accum else list_append accum head)
  end.

Definition list_filter_out (l excluded : list C) : list C := list_filter_out_accum l excluded [].
End Lists.

(** ** The order *)
Section Order.
Context {C S : Type} `{EqDecision C} `{components C S}.

(** [topo_list], over the [topo_component] of its elements. *)
Fixpoint topo_list_with (topo : C -> outcome (list C)) (l : list C) : outcome (list C) :=
  match l with
  | [] => Ret []
  | head :: tail =>
      head_sorted ← topo head;
      tail_sorted ← topo_list_with topo tail;
      Ret (list_concat_unique head_sorted tail_sorted)
  end.

(** [topo_component]: the instantiation depth of the compiler is the fuel. *)
Fixpoint topo_component (fuel : nat) (visiting : list C) (c : C) : outcome (list C) :=
  match fuel with
  | O => Diverge
  | Datatypes.S fuel' =>
      if list_contains c visiting then Panic "cycle detected in init graph"
      else
        let visiting_with_self := list_append visiting c in
        deps_sorted ← topo_list_with (topo_component fuel' visiting_with_self) (deps c);
        Ret (list_append_unique deps_sorted c)
  end.

Definition topo_list (fuel : nat) (l visiting : list C) : outcome (list C) :=
  topo_list_with (topo_component fuel visiting) l.

(** ** Running *)

Definition is_ok {T E} (r : Result T E) : bool := negb (is_err r).

Definition run_component_silent (c : C) : kernel S bool :=
  outcome ← component_init c; mret (is_ok outcome).

Definition run_component_logged `{init_logger C S} (c : C) : kernel S bool :=
  begin c;;
  outcome ← component_init c;
  match outcome with
  | Err error => fail c error;; mret false
  | Ok _ => ok c;; mret true
  end.

(** [init_list_runner]: the fold over [&&], which stops at the first [false]. *)
Fixpoint all_true (run : C -> kernel S bool) (l : list C) : kernel S bool :=
  match l with
  | [] => mret true
  | c :: rest => b ← run c; if b : bool then all_true run rest else mret false
  end.

Definition run_silent (l : list C) : kernel S bool := all_true run_component_silent l.
Definition run_logged `{init_logger C S} (l : list C) : kernel S bool :=
  all_true run_component_logged l.

(** A list computed by the compiler, used at run time. *)
Definition compiled {A} (l : outcome (list C)) (run : list C -> kernel S A) : kernel S A :=
  match l with
  | Ret l => run l
  | Panic message => kpanic message
  | Undefined => undefined
  | Diverge => diverge
  end.

Section Graph.
Context (fuel : nat) (roots : list C).

(** [init_graph]. *)
Definition sorted_components : outcome (list C) := topo_list fuel roots [].

Definition run_init_graph `{init_logger C S} : kernel S bool := compiled sorted_components run_logged.
Definition run_init_graph_silent : kernel S bool := compiled sorted_components run_silent.

(** [init_graph_after]. *)
Definition runnable_components (satisfied_roots : list C) : outcome (list C) :=
  sorted ← sorted_components;
  satisfied ← topo_list fuel satisfied_roots [];
  Ret (list_filter_out sorted satisfied).

Definition run_init_graph_after `{init_logger C S} (satisfied_roots : list C) : kernel S bool :=
  compiled (runnable_components satisfied_roots) run_logged.
Definition run_init_graph_after_silent (satisfied_roots : list C) : kernel S bool :=
  compiled (runnable_components satisfied_roots) run_silent.

(** [halt] never returns. *)
Definition run_init_graph_or_halt `{init_logger C S} : kernel S unit :=
  b ← run_init_graph; if b : bool then mret tt else diverge.
End Graph.
End Order.
