(* ===== verification/InitGraphFacts.v ===== *)
(** * InitGraphFacts: the order in which components start

    The lists of the compiler as sets, the order of a graph, and the theorems: the order lists what the
    roots need once and after its dependencies, running it stops at the first failure, and a graph after
    another one starts what that one has not. *)

From stdpp Require Import relations.
From S2P Require Import Prelude Boot InitGraph.

#[local] Open Scope Z_scope.

(** ** Facts: type lists *)
Section ListFacts.
Context {C : Type} `{EqDecision C}.
Implicit Types (x t : C) (l a b : list C).

Lemma list_contains_spec t l : list_contains t l = true <-> t ∈ l.
Proof.
  induction l as [|x l IH]; cbn [list_contains]; [split; [done | by intros ?%not_elem_of_nil]|].
  rewrite orb_true_iff, bool_decide_eq_true, IH, elem_of_cons. done.
Qed.

Lemma list_contains_false t l : list_contains t l = false <-> t ∉ l.
Proof. rewrite <- not_true_iff_false, list_contains_spec. done. Qed.

Lemma elem_of_append_unique x l t : x ∈ list_append_unique l t <-> x ∈ l \/ x = t.
Proof.
  unfold list_append_unique, list_append. destruct (list_contains t l) eqn:E.
  2:{ by rewrite elem_of_app, list_elem_of_singleton. }
  apply list_contains_spec in E. split; [by left|]. by intros [?| ->].
Qed.

Lemma elem_of_concat_unique x a b : x ∈ list_concat_unique a b <-> x ∈ a \/ x ∈ b.
Proof.
  revert a. induction b as [|y b IH]; intros a; cbn [list_concat_unique].
  - rewrite elem_of_nil. tauto.
  - rewrite IH, elem_of_append_unique, elem_of_cons. tauto.
Qed.

Lemma filter_out_accum l excluded accum :
  list_filter_out_accum l excluded accum = accum ++ base.filter (.∉ excluded) l.
Proof.
  revert accum. induction l as [|x l IH]; intros accum; cbn [list_filter_out_accum].
  { by rewrite app_nil_r. }
  rewrite IH. destruct (list_contains x excluded) eqn:E.
  - apply list_contains_spec in E. by rewrite filter_cons_False by auto.
  - apply list_contains_false in E. rewrite filter_cons_True by done.
    unfold list_append. by rewrite <- app_assoc.
Qed.

Lemma filter_out_spec l excluded : list_filter_out l excluded = base.filter (.∉ excluded) l.
Proof. apply filter_out_accum. Qed.
End ListFacts.

(** ** Facts: the order *)
Section OrderFacts.
Context {C S : Type} `{EqDecision C} `{components C S}.
Implicit Types l p q : list C.

Definition depends (c d : C) : Prop := d ∈ deps c.

(** Every component comes after everything it depends on. *)
Definition ordered l : Prop := forall p c q, l = p ++ c :: q -> forall d, depends c d -> d ∈ p.

Lemma ordered_nil : ordered [].
Proof. by intros [] ? ? [=]. Qed.

Lemma ordered_prefix l p : ordered (l ++ p) -> ordered l.
Proof. intros Hl p1 c q ->. apply (Hl p1 c (q ++ p)). by rewrite <- app_assoc. Qed.

Lemma ordered_snoc l c : ordered l -> (forall d, depends c d -> d ∈ l) -> ordered (l ++ [c]).
Proof.
  intros Hl Hc p c' q Heq d Hd. destruct q as [|x q] using rev_ind.
  - apply app_inj_tail in Heq as [-> ->]. by apply Hc.
  - rewrite app_comm_cons, app_assoc in Heq. apply app_inj_tail in Heq as [-> _]. by eapply Hl.
Qed.

Lemma NoDup_snoc l c : NoDup l -> c ∉ l -> NoDup (l ++ [c]).
Proof.
  intros Hl Hc. apply NoDup_app. split; [done|]. split; [|apply NoDup_singleton].
  by intros x Hx ->%list_elem_of_singleton.
Qed.

Definition sorted l : Prop := NoDup l /\ ordered l.

Lemma sorted_append_unique l c :
  sorted l -> (forall d, depends c d -> d ∈ l) -> sorted (list_append_unique l c).
Proof.
  intros [Hn Ho] Hc. unfold list_append_unique. destruct (list_contains c l) eqn:E; [done|].
  apply list_contains_false in E. split.
  - by apply NoDup_snoc.
  - by apply ordered_snoc.
Qed.

Lemma sorted_concat_unique a b : sorted a -> ordered b -> sorted (list_concat_unique a b).
Proof.
  intros Ha Hb.
  assert (Hgen : forall rest done_ a0, done_ ++ rest = b -> sorted a0 -> (forall x, x ∈ done_ -> x ∈ a0) ->
    sorted (list_concat_unique a0 rest)).
  { induction rest as [|x rest IH]; intros done_ a0 Heq Ha0 Hdone; cbn [list_concat_unique]; [done|].
    apply (IH (done_ ++ [x])).
    - by rewrite <- app_assoc.
    - apply sorted_append_unique; [done|]. intros d Hd. by eapply Hdone, Hb.
    - intros y. rewrite elem_of_app, elem_of_append_unique, list_elem_of_singleton.
      intros [?| ->]; [left; by apply Hdone | by right]. }
  apply (Hgen b []); [done | done | by intros x ?%not_elem_of_nil].
Qed.

(** A sorted list that has a component has everything it depends on before it, so nothing in it
    depends on itself. *)
Lemma ordered_before l p c q d : ordered l -> l = p ++ c :: q -> tc depends c d -> d ∈ p.
Proof.
  intros Ho Hl Hd. revert p q Hl. induction Hd as [c d Hd|c d e Hd _ IH]; intros p q Hl.
  - by eapply Ho.
  - assert (d ∈ p) as (p1 & p2 & ->)%list_elem_of_split by by eapply Ho.
    rewrite <- app_assoc, <- app_comm_cons in Hl.
    apply elem_of_app. left. by eapply IH.
Qed.

Lemma sorted_acyclic l c : sorted l -> c ∈ l -> ~ tc depends c c.
Proof.
  intros [Hn Ho] Hc Hcycle. apply list_elem_of_split in Hc as (p & q & Hl).
  pose proof (ordered_before _ _ _ _ _ Ho Hl Hcycle) as Hp. subst l.
  apply NoDup_app in Hn as (_ & Hn & _). by destruct (Hn c Hp); left.
Qed.

(** What [topo_component] and [topo_list] compute for the components that satisfy [Start]. *)
Definition sorts (Start : C -> Prop) (r : outcome (list C)) : Prop :=
  match r with
  | Ret l => sorted l /\ forall x, x ∈ l <-> exists c, Start c /\ rtc depends c x
  | Panic message => message = "cycle detected in init graph" /\
      exists c x, Start c /\ rtc depends c x /\ tc depends x x
  | _ => False
  end.

Lemma sorts_list topo l :
  (forall c, c ∈ l -> sorts (eq c) (topo c)) -> sorts (.∈ l) (topo_list_with topo l).
Proof.
  induction l as [|c l IH]; intros Htopo; cbn [topo_list_with sorts].
  { split; [split; [constructor | apply ordered_nil]|]. intros x. rewrite elem_of_nil.
    split; [done|]. by intros (c & ?%elem_of_nil & _). }
  pose proof (Htopo c ltac:(left)) as Hc. specialize (IH ltac:(intros; apply Htopo; by right)).
  unfold mbind, outcome_bind. destruct (topo c) as [l1|message| |]; [| |done..].
  2:{ destruct Hc as (-> & c' & x & <- & Hx). split; [done|]. exists c, x. split; [left | done]. }
  destruct (topo_list_with topo l) as [l2|message| |]; [| |done..].
  2:{ destruct IH as (-> & c' & x & Hc' & Hx). split; [done|]. exists c', x. split; [by right | done]. }
  destruct Hc as [H1 Hin1], IH as [H2 Hin2]. split; [by apply sorted_concat_unique; [|apply H2]|].
  intros x. rewrite elem_of_concat_unique, Hin1, Hin2. split.
  - intros [(c' & <- & Hx)|(c' & Hc' & Hx)]; [exists c | exists c']; split; [left | done | by right | done].
  - intros (c' & [-> |Hc']%elem_of_cons & Hx); [left | right]; by eexists.
Qed.

Context (all : list C) (Hclosed : forall c d, c ∈ all -> depends c d -> d ∈ all).

Lemma sorts_component fuel visiting c :
  c ∈ all -> NoDup visiting -> visiting ⊆ all -> (forall v, v ∈ visiting -> tc depends v c) ->
  (length all < fuel + length visiting)%nat ->
  sorts (eq c) (topo_component fuel visiting c).
Proof.
  revert visiting c. induction fuel as [|fuel IH]; intros visiting c Hc Hn Hsub Hpath Hfuel.
  { pose proof (submseteq_length _ _ (NoDup_submseteq _ _ Hn Hsub)). lia. }
  cbn [topo_component]. destruct (list_contains c visiting) eqn:E.
  { apply list_contains_spec in E. split; [done|]. exists c, c. split; [done|].
    split; [apply rtc_refl | by apply Hpath]. }
  apply list_contains_false in E.
  assert (Hdeps : sorts (.∈ deps c)
    (topo_list_with (topo_component fuel (list_append visiting c)) (deps c))).
  { apply sorts_list. intros d Hd. unfold list_append. apply IH.
    - by eapply Hclosed.
    - by apply NoDup_snoc.
    - intros v [Hv|Hv]%elem_of_app; [by apply Hsub | by apply list_elem_of_singleton in Hv as ->].
    - intros v [Hv|Hv]%elem_of_app.
      + eapply tc_r; [by apply Hpath | done].
      + apply list_elem_of_singleton in Hv as ->. by apply tc_once.
    - rewrite length_app. cbn. lia. }
  unfold mbind, outcome_bind.
  destruct (topo_list_with _ (deps c)) as [l|message| |]; [| |done..]; cbn [sorts] in *.
  - destruct Hdeps as [Hl Hin]. split.
    + apply sorted_append_unique; [done|]. intros d Hd. apply Hin. exists d. split; [done | apply rtc_refl].
    + intros x. rewrite elem_of_append_unique, Hin. split.
      * intros [(d & Hd & Hx)| ->]; exists c; (split; [done|]); [by eapply rtc_l | apply rtc_refl].
      * intros (c' & <- & Hx). inversion Hx as [|? d ? Hd Hx']; subst; [by right|]. left. by exists d.
  - destruct Hdeps as (-> & d & x & Hd & Hx & Hcycle). split; [done|]. exists c, x.
    split; [done|]. split; [by eapply rtc_l | done].
Qed.

Lemma sorts_graph fuel roots :
  roots ⊆ all -> (length all < fuel)%nat -> sorts (.∈ roots) (sorted_components fuel roots).
Proof.
  intros Hroots Hfuel. apply sorts_list. intros c Hc.
  apply sorts_component; [by apply Hroots | constructor | | | cbn; lia].
  - by intros x ?%not_elem_of_nil.
  - by intros x ?%not_elem_of_nil.
Qed.
End OrderFacts.

(** ** Facts: running *)
Section RunFacts.
Context {C S : Type}.
Implicit Types run : C -> kernel S bool.

(** The components of a list ran one after the other, each successfully. *)
Inductive all_ran run : list C -> S -> S -> Prop :=
| all_ran_nil s : all_ran run [] s s
| all_ran_cons c l s s' s'' :
    run c s = Ret (true, s') -> all_ran run l s' s'' -> all_ran run (c :: l) s s''.

(** The first components ran; the run ends because there are no more, or because one failed. *)
Definition stopped run l (s : S) (b : bool) (s' : S) : Prop :=
  exists started rest s1, l = started ++ rest /\ all_ran run started s s1 /\
    if b then rest = [] /\ s' = s1
    else exists c rest', rest = c :: rest' /\ run c s1 = Ret (false, s').

Lemma wp_all_true run l s (Q : bool -> S -> Prop) :
  (forall c s', wp (run c) (fun _ _ => True) s') ->
  (forall b s', stopped run l s b s' -> Q b s') -> wp (all_true run l) Q s.
Proof.
  intros Htotal. revert s Q. induction l as [|c l IH]; intros s Q HQ; cbn [all_true].
  - apply wp_ret, HQ. exists [], [], s. split; [done|]. split; [constructor | done].
  - apply wp_bind. destruct (wp_elim _ _ _ (Htotal c s)) as (b & s' & Hrun & _).
    apply (wp_intro _ _ _ _ _ Hrun). destruct b.
    + apply IH. intros b s'' (started & rest & s1 & -> & Hran & Hend). apply HQ.
      exists (c :: started), rest, s1. split; [done|]. split; [by econstructor | done].
    + apply wp_ret, HQ. exists [], (c :: l), s. split; [done|]. split; [constructor | by eexists _, _].
Qed.
End RunFacts.

Lemma NoDup_prefix_unique {A} (c : A) p1 q1 p2 q2 :
  NoDup (p1 ++ c :: q1) -> p1 ++ c :: q1 = p2 ++ c :: q2 -> p1 = p2.
Proof.
  revert p2. induction p1 as [|x p1 IH]; intros [|y p2] Hn Heq; cbn [app] in *; [done| | |].
  - injection Heq as <- Hq. rewrite Hq in Hn. inversion_clear Hn as [|? ? Hc _].
    destruct Hc. apply elem_of_app. right. left.
  - injection Heq as -> Hq. inversion_clear Hn as [|? ? Hc _].
    destruct Hc. apply elem_of_app. right. left.
  - injection Heq as <- Hq. inversion_clear Hn as [|? ? _ Hn']. f_equal. by eapply IH.
Qed.

(** ** Properties *)
Section Properties.
Context {C S : Type} `{EqDecision C} `{components C S}.
Context (all : list C) (fuel : nat).

(** The declarations of the components, and the compiler's limit on instantiation depth. *)
Record declared : Prop := {
  declared_closed : forall c d, c ∈ all -> depends c d -> d ∈ all;
  declared_depth : (length all < fuel)%nat;
}.

(** C4: The order the compiler finds has every component the roots need, directly or not, exactly once and
    after everything it depends on; there is no order exactly when the roots need a component that
    depends on itself. *)
Theorem init_order_correct roots :
  declared -> roots ⊆ all ->
  match sorted_components fuel roots with
  | Ret l => NoDup l /\ ordered l /\ (forall c, c ∈ l <-> exists r, r ∈ roots /\ rtc depends r c) /\
      (forall c, c ∈ l -> ~ tc depends c c)
  | Panic message => message = "cycle detected in init graph" /\
      exists r c, r ∈ roots /\ rtc depends r c /\ tc depends c c
  | _ => False
  end.
Proof.
  intros [Hclosed Hdepth] Hroots.
  pose proof (sorts_graph all Hclosed fuel roots Hroots Hdepth) as Hs. unfold sorts in Hs.
  destruct (sorted_components fuel roots) as [l| | |]; [|done..].
  destruct Hs as [Hl Hin]. repeat split; [apply Hl | apply Hl | apply Hin | apply Hin |].
  intros c Hc. by apply (sorted_acyclic l).
Qed.

(** Running a graph starts its components in order and stops at the first that fails; when a
    component starts, everything it depends on has started successfully. *)
Theorem init_graph_runs_in_order roots l s :
  (forall c s', wp (component_init c) (fun _ _ => True) s') ->
  declared -> roots ⊆ all -> sorted_components fuel roots = Ret l ->
  wp (run_init_graph_silent fuel roots) (fun b s' =>
    stopped run_component_silent l s b s' /\
    forall started c rest, l = started ++ c :: rest -> forall d, depends c d -> d ∈ started) s.
Proof.
  intros Htotal [Hclosed Hdepth] Hroots Hl.
  pose proof (sorts_graph all Hclosed fuel roots Hroots Hdepth) as Hs. rewrite Hl in Hs.
  unfold run_init_graph_silent. rewrite Hl. apply wp_all_true.
  - intros c s'. apply wp_bind. eapply wp_mono; [apply Htotal|]. intros. by apply wp_ret.
  - intros b s' Hstop. split; [done|]. intros started c rest Heq. by eapply Hs.
Qed.

(** After a graph that has run, another one runs exactly the components it needs beyond those, and
    each still finds everything it depends on started: by the first graph or before it. *)
Theorem init_graph_after_correct roots satisfied_roots :
  declared -> roots ⊆ all -> satisfied_roots ⊆ all ->
  match runnable_components fuel roots satisfied_roots with
  | Ret l => NoDup l /\
      (forall c, c ∈ l <-> (exists r, r ∈ roots /\ rtc depends r c) /\
                           ~ exists r, r ∈ satisfied_roots /\ rtc depends r c) /\
      forall started c rest, l = started ++ c :: rest -> forall d, depends c d ->
        d ∈ started \/ exists r, r ∈ satisfied_roots /\ rtc depends r d
  | Panic message => message = "cycle detected in init graph" /\
      exists r c, (r ∈ roots \/ r ∈ satisfied_roots) /\ rtc depends r c /\ tc depends c c
  | _ => False
  end.
Proof.
  intros [Hclosed Hdepth] Hroots Hsat.
  pose proof (sorts_graph all Hclosed fuel roots Hroots Hdepth) as H1.
  pose proof (sorts_graph all Hclosed fuel satisfied_roots Hsat Hdepth) as H2.
  unfold runnable_components, mbind, outcome_bind. change (topo_list fuel satisfied_roots [])
    with (sorted_components fuel satisfied_roots).
  destruct (sorted_components fuel roots) as [l1|msg| |]; [| |done..].
  2:{ destruct H1 as (-> & r & c & Hr & Hc). split; [done|]. exists r, c. split; [by left | done]. }
  destruct (sorted_components fuel satisfied_roots) as [l2|msg| |]; [| |done..].
  2:{ destruct H2 as (-> & r & c & Hr & Hc). split; [done|]. exists r, c. split; [by right | done]. }
  destruct H1 as [[Hn Ho] Hin1], H2 as [_ Hin2]. rewrite filter_out_spec.
  split; [by apply NoDup_filter|]. split.
  - intros c. rewrite list_elem_of_filter, Hin1, Hin2. tauto.
  - intros started c rest Heq d Hd. rewrite <- Hin2.
    destruct (decide (d ∈ l2)) as [|Hd2]; [by right | left].
    assert (Hc : c ∈ base.filter (.∉ l2) l1) by (rewrite Heq; apply elem_of_app; right; left).
    apply list_elem_of_filter in Hc as [Hc2 Hc1].
    apply list_elem_of_split in Hc1 as (p & q & Hl1).
    assert (Hdp : d ∈ p) by by eapply Ho.
    rewrite Hl1, filter_app, filter_cons_True in Heq by done.
    assert (Hnf : NoDup (started ++ c :: rest)).
    { rewrite <- Heq. rewrite <- (filter_cons_True (.∉ l2)), <- filter_app, <- Hl1 by done.
      by apply NoDup_filter. }
    rewrite (NoDup_prefix_unique _ _ _ _ _ Hnf (eq_sym Heq)). by apply list_elem_of_filter.
Qed.
End Properties.
