(* ===== verification/BootPlan.v ===== *)
(** * BootPlan: [platform/pc/boot_plan.hpp], [arch/x86_64/core_wiring.hpp], [arch/x86_64/core_init.cpp]
    and [kernel/kernel.cpp]

    The components of the kernel and of a core, what they declare to depend on, the graphs that are
    run at boot, and the order in which everything starts.  What the components do when they start
    is a parameter here (a class); the files of the components model it. *)

From stdpp Require Import relations.
From S2P Require Import Prelude Boot InitGraph InitGraphFacts.

#[local] Open Scope Z_scope.

(** The components of the kernel: every [struct component] of the source. *)
Inductive platform_component : Type :=
| SERIAL | CPU | CORE_INIT | BOOT_INFO | PMM | MMU | VMM | ACPI | LAPIC | KHEAP | RUNTIME.

#[export] Instance platform_component_eq_dec : EqDecision platform_component.
Proof. solve_decision. Defined.

Definition platform_deps (c : platform_component) : list platform_component :=
  match c with
  | SERIAL | CPU | BOOT_INFO => []
  | CORE_INIT => [CPU]
  | PMM => [BOOT_INFO]
  | MMU => [BOOT_INFO; PMM]
  | VMM => [MMU]
  | ACPI => [BOOT_INFO; VMM]
  | LAPIC => [ACPI]
  | KHEAP => [VMM]
  | RUNTIME => [KHEAP]
  end.

Definition platform_name (c : platform_component) : string :=
  match c with
  | SERIAL => "SERIAL" | CPU => "CPU" | CORE_INIT => "CORE_INIT" | BOOT_INFO => "BOOT_INFO"
  | PMM => "PMM" | MMU => "MMU" | VMM => "VMM" | ACPI => "ACPI" | LAPIC => "LAPIC"
  | KHEAP => "KHEAP" | RUNTIME => "RUNTIME"
  end.

Definition early_boot_roots : list platform_component := [SERIAL].
Definition platform_roots : list platform_component := [CORE_INIT].
Definition boot_roots : list platform_component := [LAPIC; RUNTIME].

(** The components of one core. *)
Inductive core_component : Type := STACKS | TSS | GDT | EXCEPTIONS | IDT | FPU | LAPIC_CORE.

#[export] Instance core_component_eq_dec : EqDecision core_component.
Proof. solve_decision. Defined.

Definition core_deps (c : core_component) : list core_component :=
  match c with
  | STACKS | EXCEPTIONS | FPU => []
  | TSS => [STACKS]
  | GDT => [TSS]
  | IDT => [GDT; EXCEPTIONS]
  | LAPIC_CORE => [IDT]
  end.

Definition core_name (c : core_component) : string :=
  match c with
  | STACKS => "STACKS" | TSS => "TSS" | GDT => "GDT" | EXCEPTIONS => "EXCEPTIONS"
  | IDT => "IDT" | FPU => "FPU" | LAPIC_CORE => "LAPIC_CORE"
  end.

Definition early_core_roots : list core_component := [IDT; FPU].
Definition late_core_roots : list core_component := [LAPIC_CORE].

(** The nesting of the templates is far below the compiler's limit. *)
Definition INSTANTIATION_DEPTH : nat := 100.

(** A line of the log: its format and arguments. *)
Inductive line : Type :=
| Kernel_boot
| Begin (core : option Z) (name : string)
| Succeeded (core : option Z) (name : string)
| Failed (core : option Z) (name : string) (error : init_error).

(** ** A core *)

(** What the components of a core do, and what [core_init] asks of the core and of the APIC. *)
Class core_code (S : Type) : Type := {
  core_component_init : core_component -> kernel S init_result;
  logical_id : S -> Z;
  lapic_is_ready : kernel S bool;
  core_print : line -> kernel S unit;
}.

Section Core.
Context {S : Type} `{core_code S}.

#[export] Instance core_components : components core_component S := {|
  deps := core_deps;
  component_init := core_component_init;
|}.

#[export] Instance core_logger : init_logger core_component S := {|
  begin := fun c => id ← gets logical_id; core_print (Begin (Some id) (core_name c));
  ok := fun c => id ← gets logical_id; core_print (Succeeded (Some id) (core_name c));
  fail := fun c error => id ← gets logical_id; core_print (Failed (Some id) (core_name c) error);
|}.

Definition init_core : kernel S bool :=
  b ← run_init_graph INSTANTIATION_DEPTH early_core_roots;
  if negb b then mret false
  else
    ready ← lapic_is_ready;
    if ready : bool then run_init_graph_after INSTANTIATION_DEPTH late_core_roots early_core_roots
    else mret true.

Definition init_late_core : kernel S bool :=
  run_init_graph_after INSTANTIATION_DEPTH late_core_roots early_core_roots.
End Core.

(** ** The kernel *)

Class platform_code (S : Type) : Type := {
  platform_component_init : platform_component -> kernel S init_result;
  print : line -> kernel S unit;
  doom_os_start_application : kernel S unit;
}.

Section Kernel.
Context {S : Type} `{platform_code S}.

#[export] Instance platform_components : components platform_component S := {|
  deps := platform_deps;
  component_init := platform_component_init;
|}.

#[export] Instance default_init_logger : init_logger platform_component S := {|
  begin := fun c => print (Begin None (platform_name c));
  ok := fun c => print (Succeeded None (platform_name c));
  fail := fun c error => print (Failed None (platform_name c) error);
|}.

Definition kernel_main : kernel S unit :=
  run_init_graph_silent INSTANTIATION_DEPTH early_boot_roots;;
  print Kernel_boot;;
  run_init_graph_or_halt INSTANTIATION_DEPTH platform_roots;;
  run_init_graph_or_halt INSTANTIATION_DEPTH boot_roots;;
  doom_os_start_application.
End Kernel.

(** ** Facts *)

Definition all_platform : list platform_component :=
  [SERIAL; CPU; CORE_INIT; BOOT_INFO; PMM; MMU; VMM; ACPI; LAPIC; KHEAP; RUNTIME].

Definition all_core : list core_component :=
  [STACKS; TSS; GDT; EXCEPTIONS; IDT; FPU; LAPIC_CORE].

Definition boot_order : list platform_component :=
  [BOOT_INFO; PMM; MMU; VMM; ACPI; LAPIC; KHEAP; RUNTIME].

Definition early_core_order : list core_component := [STACKS; TSS; GDT; EXCEPTIONS; IDT; FPU].

Section Orders.
Context {S : Type}.

Lemma boot_sorted `{platform_code S} :
  sorted_components (S := S) INSTANTIATION_DEPTH boot_roots = Ret boot_order.
Proof. reflexivity. Qed.

Lemma platform_sorted `{platform_code S} :
  sorted_components (S := S) INSTANTIATION_DEPTH platform_roots = Ret [CPU; CORE_INIT].
Proof. reflexivity. Qed.

Lemma early_core_sorted `{core_code S} :
  sorted_components (S := S) INSTANTIATION_DEPTH early_core_roots = Ret early_core_order.
Proof. reflexivity. Qed.

Lemma late_core_runnable `{core_code S} :
  runnable_components (S := S) INSTANTIATION_DEPTH late_core_roots early_core_roots
  = Ret [LAPIC_CORE].
Proof. reflexivity. Qed.
End Orders.

(** ** Properties *)

(** The same end without a result. *)
Definition same_end {A B} (o : outcome A) (o' : outcome B) : Prop :=
  match o, o' with
  | Panic m, Panic m' => m = m'
  | Undefined, Undefined | Diverge, Diverge => True
  | _, _ => False
  end.

(** What running a list of components comes to: it stops with a result, at the first that fails, or
    one of the components, the ones before it having started, does not return. *)
Definition runs_to {C S} (run : C -> kernel S bool) (l : list C) (s : S) (o : outcome (bool * S)) : Prop :=
  match o with
  | Ret (b, s') => stopped run l s b s'
  | _ => exists started c rest s1, l = started ++ c :: rest /\ all_ran run started s s1 /\ run c s1 = o
  end.

Lemma all_true_runs {C S} (run : C -> kernel S bool) l s : runs_to run l s (all_true run l s).
Proof.
  revert s. induction l as [|c l IH]; intros s; cbn [all_true].
  { exists [], [], s. split; [done|]. split; [constructor | done]. }
  unfold mbind, kernel_bind. destruct (run c s) as [[[] s1]|m| |] eqn:Hrun.
  2:{ exists [], (c :: l), s. split; [done|]. split; [constructor | by eexists _, _]. }
  2-4: exists [], c, l, s; split; [done|]; split; [constructor | done].
  specialize (IH s1). destruct (all_true run l s1) as [[b s2]|m| |].
  - destruct IH as (started & rest & s3 & -> & Hran & Hend).
    exists (c :: started), rest, s3. split; [done|]. split; [by econstructor | done].
  - destruct IH as (started & c' & rest & s3 & -> & Hran & Hend).
    exists (c :: started), c', rest, s3. split; [done|]. split; [by econstructor | done].
  - destruct IH as (started & c' & rest & s3 & -> & Hran & Hend).
    exists (c :: started), c', rest, s3. split; [done|]. split; [by econstructor | done].
  - destruct IH as (started & c' & rest & s3 & -> & Hran & Hend).
    exists (c :: started), c', rest, s3. split; [done|]. split; [by econstructor | done].
Qed.

Lemma total_logged {C S} `{components C S, init_logger C S} c s :
  (forall s, wp (begin c) (fun _ _ => True) s) -> (forall s, wp (ok c) (fun _ _ => True) s) ->
  (forall e s, wp (fail c e) (fun _ _ => True) s) ->
  (forall s, wp (component_init c) (fun _ _ => True) s) ->
  wp (run_component_logged c) (fun _ _ => True) s.
Proof.
  intros Hbegin Hok Hfail Hc. unfold run_component_logged.
  apply wp_bind. eapply wp_mono; [apply Hbegin|]. intros _ s1 _.
  apply wp_bind. eapply wp_mono; [apply Hc|]. intros [[]|e] s2 _; apply wp_bind.
  - eapply wp_mono; [apply Hok|]. intros. by apply wp_ret.
  - eapply wp_mono; [apply Hfail|]. intros. by apply wp_ret.
Qed.

(** A list whose components' starts return runs to a stop. *)
Lemma all_true_stops {C S} (run : C -> kernel S bool) l s :
  (forall c s', wp (run c) (fun _ _ => True) s') ->
  exists b s', all_true run l s = Ret (b, s') /\ stopped run l s b s'.
Proof.
  intros Htotal. apply (wp_elim _ (stopped run l s)). by apply wp_all_true.
Qed.

(** [kernel_main] up to the application: whether everything started. *)
Definition start_all {S} `{platform_code S} : kernel S bool :=
  run_init_graph_silent INSTANTIATION_DEPTH early_boot_roots;;
  print Kernel_boot;;
  b ← run_init_graph INSTANTIATION_DEPTH platform_roots;
  if b : bool then run_init_graph INSTANTIATION_DEPTH boot_roots else mret false.

Lemma kernel_main_start_all {S} `{platform_code S} (s : S) (Q : bool -> S -> Prop) :
  wp start_all Q s -> exists (b : bool) s', kernel_main s = (if b then doom_os_start_application s' else Diverge) /\ Q b s'.
Proof.
  intros Hwp. destruct (wp_elim _ _ _ Hwp) as (b & s' & Hrun & HQ). exists b, s'. split; [|exact HQ].
  revert Hrun. unfold start_all, kernel_main, run_init_graph_or_halt, mbind, kernel_bind.
  destruct (run_init_graph_silent INSTANTIATION_DEPTH early_boot_roots s) as [[b0 s1]| | |]; try discriminate.
  destruct (print Kernel_boot s1) as [[[] s2]| | |]; try discriminate.
  destruct (run_init_graph INSTANTIATION_DEPTH platform_roots s2) as [[[] s3]| | |]; try discriminate; cycle 1.
  { by intros [= <- <-]. }
  intros Hrun. cbn [mret kernel_ret]. rewrite Hrun. by destruct b.
Qed.

(** A panic before the application is the kernel's. *)
Lemma kernel_main_panics {S} `{platform_code S} (s : S) message :
  panics start_all message s -> panics kernel_main message s.
Proof.
  unfold panics, start_all, kernel_main, run_init_graph_or_halt, mbind, kernel_bind.
  destruct (run_init_graph_silent INSTANTIATION_DEPTH early_boot_roots s) as [[b0 s1]| | |];
    try (by intros [= ->]); try discriminate.
  destruct (print Kernel_boot s1) as [[[] s2]| | |]; try (by intros [= ->]); try discriminate.
  destruct (run_init_graph INSTANTIATION_DEPTH platform_roots s2) as [[[] s3]| | |];
    try (by intros [= ->]); try discriminate.
  cbn [mret kernel_ret].
  destruct (run_init_graph INSTANTIATION_DEPTH boot_roots s3) as [[[] s4]| | |]; (by intros [= ->]) || discriminate.
Qed.

Section Properties.
Context {S : Type}.

(** C5: From any state and whatever its components do, the kernel starts the serial line, then the
    processor, then everything else in the order of the dependencies; it starts the application exactly
    when every component of the two logged graphs has started, and halts at the first that fails.  A
    component, or a line of the log, that panics, hangs or is undefined ends the kernel with it, and
    nothing is started after it. *)
Theorem kernel_main_starts_in_order `{platform_code S} s :
  exists o0, runs_to run_component_silent [SERIAL] s o0 /\
  match o0 with
  | Ret (_, s0) =>
      match print Kernel_boot s0 with
      | Ret (_, s1) =>
          exists o1, runs_to run_component_logged [CPU; CORE_INIT] s1 o1 /\
          match o1 with
          | Ret (true, s2) =>
              exists o2, runs_to run_component_logged
                [BOOT_INFO; PMM; MMU; VMM; ACPI; LAPIC; KHEAP; RUNTIME] s2 o2 /\
              match o2 with
              | Ret (true, s3) => kernel_main s = doom_os_start_application s3
              | Ret (false, _) => kernel_main s = Diverge
              | _ => same_end o2 (kernel_main s)
              end
          | Ret (false, _) => kernel_main s = Diverge
          | _ => same_end o1 (kernel_main s)
          end
      | o => same_end o (kernel_main s)
      end
  | _ => same_end o0 (kernel_main s)
  end.
Proof.
  unfold kernel_main, run_init_graph_silent, run_init_graph_or_halt, run_init_graph.
  change (sorted_components INSTANTIATION_DEPTH early_boot_roots) with (Ret [SERIAL]).
  rewrite platform_sorted, boot_sorted. unfold compiled, run_silent, run_logged, mbind, kernel_bind.
  eexists. split; [apply all_true_runs|].
  destruct (all_true run_component_silent [SERIAL] s) as [[b0 s0]|m| |]; try done.
  destruct (print Kernel_boot s0) as [[[] s1]|m| |]; try done.
  eexists. split; [apply all_true_runs|].
  destruct (all_true run_component_logged [CPU; CORE_INIT] s1) as [[[] s2]|m| |]; try done.
  eexists. split; [apply all_true_runs|]. fold boot_order. cbn [mret kernel_ret].
  by destruct (all_true run_component_logged boot_order s2) as [[[] s3]|m| |].
Qed.

(** A core starts its stacks, descriptor tables, exception gates and floating point unit, in the order of
    their dependencies; its interrupt controller follows when the controller has been found, and only
    after all of those. *)
Theorem init_core_starts_in_order `{core_code S} s :
  (forall c s, wp (core_component_init c) (fun _ _ => True) s) ->
  (forall l s, wp (core_print l) (fun _ _ => True) s) ->
  (forall s, wp lapic_is_ready (fun _ _ => True) s) ->
  exists b s1, stopped run_component_logged [STACKS; TSS; GDT; EXCEPTIONS; IDT; FPU] s b s1 /\
    if b then exists ready s2, lapic_is_ready s1 = Ret (ready, s2) /\
      if (ready : bool) then
        exists b2 s3, stopped run_component_logged [LAPIC_CORE] s2 b2 s3 /\ init_core s = Ret (b2, s3)
      else init_core s = Ret (true, s2)
    else init_core s = Ret (false, s1).
Proof.
  intros Hinit Hprint Hready.
  assert (Hlogged : forall c s', wp (S := S) (run_component_logged c) (fun _ _ => True) s').
  { intros c s'. apply total_logged; intros; [apply wp_bind, wp_gets; apply Hprint.. | apply Hinit]. }
  destruct (all_true_stops run_component_logged early_core_order s Hlogged) as (b & s1 & Hrun & Hstop).
  exists b, s1. split; [done|].
  unfold init_core, run_init_graph, run_init_graph_after.
  rewrite early_core_sorted, late_core_runnable. unfold compiled, run_logged, mbind, kernel_bind.
  rewrite Hrun. destruct b; [|done]. cbn [negb].
  destruct (wp_elim _ _ _ (Hready s1)) as (ready & s2 & Hr & _). exists ready, s2. split; [done|].
  rewrite Hr. destruct ready; [|done].
  destruct (all_true_stops run_component_logged [LAPIC_CORE] s2 Hlogged) as (b2 & s3 & Hrun2 & Hstop2).
  by exists b2, s3.
Qed.
End Properties.

(** ** A machine whose memory management unit does not start *)

Inductive event : Type :=
| Started (c : platform_component)
| Printed (l : line)
| Application.

#[local] Instance example_platform : platform_code (list event) := {|
  platform_component_init := fun c =>
    modify (cons (Started c));; mret (if decide (c = MMU) then Err HARDWARE_UNSUPPORTED else Ok tt);
  print := fun l => modify (cons (Printed l));
  doom_os_start_application := modify (cons Application);
|}.

#[local] Instance example_core : core_code (list core_component) := {|
  core_component_init := fun c => modify (cons c);; mret (Ok tt);
  logical_id := fun _ => 0;
  lapic_is_ready := mret true;
  core_print := fun _ => mret tt;
|}.

Lemma all_platform_complete (l : list platform_component) : l ⊆ all_platform.
Proof. intros [] _; unfold all_platform; repeat constructor. Qed.

Lemma all_core_complete (l : list core_component) : l ⊆ all_core.
Proof. intros [] _; unfold all_core; repeat constructor. Qed.

Lemma platform_declared : declared (S := list event) all_platform INSTANTIATION_DEPTH.
Proof. split; [by intros; eapply all_platform_complete | by vm_compute; lia]. Qed.

Lemma core_declared : declared (S := list core_component) all_core INSTANTIATION_DEPTH.
Proof. split; [by intros; eapply all_core_complete | by vm_compute; lia]. Qed.

Lemma init_order_correct_witness :
  NoDup boot_order /\ forall c, c ∈ boot_order <-> exists r, r ∈ boot_roots /\ rtc (depends (S := list event)) r c.
Proof.
  pose proof (init_order_correct all_platform INSTANTIATION_DEPTH boot_roots platform_declared
    (all_platform_complete _)) as H.
  rewrite boot_sorted in H. destruct H as (Hn & _ & Hin & _). split; [exact Hn | exact Hin].
Defined.

Lemma init_graph_runs_in_order_witness :
  wp (run_init_graph_silent INSTANTIATION_DEPTH boot_roots) (fun b (s : list event) => b = false) [].
Proof.
  assert (Htotal : forall c (s : list event), wp (component_init c) (fun _ _ => True) s) by done.
  pose proof (init_graph_runs_in_order all_platform INSTANTIATION_DEPTH boot_roots boot_order []
    Htotal platform_declared (all_platform_complete _) boot_sorted) as H.
  eapply wp_mono; [exact H|]. intros [] s' [Hstop _]; [|reflexivity].
  destruct Hstop as (started & rest & s1 & Hl & Hran & -> & ->). rewrite app_nil_r in Hl.
  subst started. exfalso. inversion_clear Hran. inversion_clear H1. inversion_clear H3. discriminate.
Defined.

Lemma init_graph_after_correct_witness :
  NoDup [LAPIC_CORE] /\
  (IDT ∈ [] \/ exists r, r ∈ early_core_roots /\ rtc (depends (S := list core_component)) r IDT).
Proof.
  pose proof (init_graph_after_correct all_core INSTANTIATION_DEPTH late_core_roots early_core_roots
    core_declared (all_core_complete _) (all_core_complete _)) as H.
  rewrite late_core_runnable in H. destruct H as (Hn & _ & Hdeps). split; [exact Hn|].
  apply (Hdeps [] LAPIC_CORE [] eq_refl IDT). by left.
Defined.

Lemma init_core_starts_in_order_witness :
  exists s1, stopped run_component_logged [STACKS; TSS; GDT; EXCEPTIONS; IDT; FPU] [] true s1.
Proof.
  destruct (init_core_starts_in_order (S := list core_component) []) as (b & s1 & Hstop & Hend);
    [reflexivity.. |].
  destruct b; [by exists s1|]. exfalso. revert Hend. by vm_compute.
Defined.

(** The kernel halts, and the application does not run. *)
Example example_platform_halts : kernel_main (S := list event) [] = Diverge.
Proof. vm_compute. reflexivity. Qed.
