(* ===== verification/Acpi.v ===== *)
(** * Acpi: [kernel/acpi/acpi.{hpp,cpp}] and [kernel/acpi/madt.{hpp,cpp}]

    The tables of the firmware, read through the direct map: the root pointer, the lookup of a table
    by its signature, and the table of interrupt controllers.  The memory behind the pointers is a
    parameter ([Memory]); a null pointer is [None]. *)

From S2P Require Import Prelude Containers Memory Boot Pmm Mmu.

(** The variables of [acpi.cpp]. *)
Record acpi_state : Type := {
  m_rsdp_phys : Z;
  m_sdt_root_phys : Z;
  m_is_xsdt : bool;
  m_initialized : bool;
}.

Definition acpi_state_init : acpi_state :=
  {| m_rsdp_phys := 0; m_sdt_root_phys := 0; m_is_xsdt := false; m_initialized := false |}.

Definition set_root root xsdt (s : acpi_state) : acpi_state :=
  {| m_rsdp_phys := m_rsdp_phys s; m_sdt_root_phys := root; m_is_xsdt := xsdt;
     m_initialized := m_initialized s |}.
Definition set_initialized b (s : acpi_state) : acpi_state :=
  {| m_rsdp_phys := m_rsdp_phys s; m_sdt_root_phys := m_sdt_root_phys s; m_is_xsdt := m_is_xsdt s;
     m_initialized := b |}.

(** [sdt_view]: its header, or null. *)
Definition sdt_view : Type := option Z.

Definition valid (view : sdt_view) : bool := match view with Some _ => true | None => false end.

(** The string literals. *)
Definition RSDP_SIGNATURE : list char := [82; 83; 68; 32; 80; 84; 82; 32; NUL].
Definition APIC : list char := [65; 80; 73; 67; NUL].

Section Acpi.
Context `{layout} (m : memory).

Section Reads.
Context {S : Type}.

Definition read_char (a : Z) : kernel S char := b ← read_u8 m a; mret (char_of b).

Definition sizeof_sdt_header : Z := 36.
Definition sdt_length (header : Z) : kernel S Z := read_u32 m (header + 4).

(** [signature_match(a, b)]; [a] is in memory, [b] a literal. *)
Definition signature_match (a : Z) (b : list char) : kernel S bool :=
  r ← scan_range 0 4 (fun i =>
        c ← read_char (a + i);
        d ← char_at (Some b) i;
        mret (if c =? d then None else Some false));
  mret (match r with Some b => b | None => true end).

(** [validate_checksum]. *)
Definition validate_checksum (pointer : option Z) (length : Z) : kernel S bool :=
  match pointer with
  | None => mret false
  | Some a =>
      if length =? 0 then mret false
      else
        sum ← for_fold 0 length (fun i sum => b ← read_u8 m (a + i); mret (u8 (sum + b))) 0;
        mret (sum =? 0)
  end.

Definition view_length (view : sdt_view) : kernel S Z :=
  match view with
  | Some header => sdt_length header
  | None => mret 0
  end.

Definition view_body (view : sdt_view) : option Z :=
  match view with
  | Some header => Some (header + sizeof_sdt_header)
  | None => None
  end.

Definition view_body_size (view : sdt_view) : kernel S Z :=
  match view with
  | Some header =>
      n ← sdt_length header;
      mret (if n <? sizeof_sdt_header then 0 else u64 (n - sizeof_sdt_header))
  | None => mret 0
  end.
End Reads.

(** ** Finding the tables *)

Definition rsdp_revision (rsdp : Z) : kernel acpi_state Z := read_u8 m (rsdp + 15).
Definition rsdt_address (rsdp : Z) : kernel acpi_state Z := read_u32 m (rsdp + 16).
Definition rsdp_length (rsdp : Z) : kernel acpi_state Z := read_u32 m (rsdp + 20).
Definition xsdt_address (rsdp : Z) : kernel acpi_state Z := read_u64 m (rsdp + 24).

(** The end of [init]: [m_initialized = (m_sdt_root_phys != 0)]. *)
Definition init_root (root : Z) (xsdt : bool) : kernel acpi_state unit :=
  modify (set_root root xsdt);;
  r ← gets m_sdt_root_phys;
  modify (set_initialized (negb (r =? 0))).

Definition init (rsdp_address : Z) : kernel acpi_state unit :=
  modify (fun _ => {| m_rsdp_phys := rsdp_address; m_sdt_root_phys := 0; m_is_xsdt := false;
                      m_initialized := false |});;
  if rsdp_address =? 0 then mret tt
  else
    match phy_to_vrt rsdp_address with
    | None => mret tt
    | Some rsdp =>
        mismatch ← scan_range 0 8 (fun i =>
          c ← read_char (rsdp + i);
          d ← char_at (Some RSDP_SIGNATURE) i;
          mret (if c =? d then None else Some tt));
        match mismatch with
        | Some _ => mret tt
        | None =>
            ok ← validate_checksum (Some rsdp) 20;
            if negb ok then mret tt
            else
              rev ← rsdp_revision rsdp;
              extended ← (if 2 <=? rev then x ← xsdt_address rsdp; mret (negb (x =? 0))
                          else mret false);
              if extended : bool then
                n ← rsdp_length rsdp;
                ok ← validate_checksum (Some rsdp) n;
                if negb ok then mret tt
                else root ← xsdt_address rsdp; init_root root true
              else root ← rsdt_address rsdp; init_root root false
        end
    end.

Definition is_ready : kernel acpi_state bool := gets m_initialized.

(** A round of the loops of [find_table] over the pointers, of [width] bytes each. *)
Definition find_table_step (width : nat) (ptrs : Z) (signature : list char) (i : Z) :
    kernel acpi_state (option Z) :=
  table_phys ← fetch m width (ptrs + i * Z.of_nat width);
  if table_phys =? 0 then mret None
  else
    match phy_to_vrt table_phys with
    | None => mret None
    | Some header =>
        same ← signature_match header signature;
        if negb same then mret None
        else
          n ← sdt_length header;
          ok ← validate_checksum (Some header) n;
          mret (if ok : bool then Some header else None)
    end.

Definition find_table (signature : list char) : kernel acpi_state sdt_view :=
  ready ← gets m_initialized;
  if negb ready then mret None
  else
    root ← gets m_sdt_root_phys;
    match phy_to_vrt root with
    | None => mret None
    | Some root_header =>
        n ← sdt_length root_header;
        ok ← validate_checksum (Some root_header) n;
        if negb ok then mret None
        else if n <? sizeof_sdt_header then mret None
        else
          let entries_bytes := n - sizeof_sdt_header in
          let entries_base := root_header + sizeof_sdt_header in
          xsdt ← gets m_is_xsdt;
          if xsdt : bool
          then scan_range 0 (entries_bytes / 8) (find_table_step 8 entries_base signature)
          else scan_range 0 (entries_bytes / 4) (find_table_step 4 entries_base signature)
    end.

(** [component::init_acpi], on the boot information. *)
Definition init_acpi (boot_info : info) : kernel acpi_state init_result :=
  if negb (acpi_present (acpi boot_info)) || (range_base (rsdp (acpi boot_info)) =? 0)
  then mret (Err INVALID_BOOT_DATA)
  else
    init (range_base (rsdp (acpi boot_info)));;
    ready ← is_ready;
    mret (if ready : bool then Ok tt else Err INVALID_BOOT_DATA).
End Acpi.

(** ** The table of interrupt controllers *)

Definition TYPE_LAPIC : Z := 0.
Definition TYPE_IOAPIC : Z := 1.
Definition TYPE_INTERRUPT_OVERRIDE : Z := 2.
Definition TYPE_LAPIC_ADDRESS_OVERRIDE : Z := 5.
Definition TYPE_X2APIC : Z := 9.

Record processor_info : Type :=
  { apic_id : Z; acpi_id : Z; enabled : bool; online_capable : bool }.
Record ioapic_record : Type := { ioapic_id : Z; ioapic_address : Z; gsi_base : Z }.
Record iso_record : Type := { iso_bus : Z; iso_source : Z; iso_gsi : Z; iso_flags : Z }.

Definition processor_info_init : processor_info :=
  {| apic_id := 0; acpi_id := 0; enabled := false; online_capable := false |}.
Definition ioapic_record_init : ioapic_record :=
  {| ioapic_id := 0; ioapic_address := 0; gsi_base := 0 |}.
Definition iso_record_init : iso_record :=
  {| iso_bus := 0; iso_source := 0; iso_gsi := 0; iso_flags := 0 |}.

#[export] Instance processor_info_inhabited : Inhabited processor_info := {| inhabitant := processor_info_init |}.
#[export] Instance ioapic_record_inhabited : Inhabited ioapic_record := {| inhabitant := ioapic_record_init |}.
#[export] Instance iso_record_inhabited : Inhabited iso_record := {| inhabitant := iso_record_init |}.

Definition MAX_CPUS : Z := 64.
Definition MAX_IOAPICS : Z := 8.
Definition MAX_ISOS : Z := 32.

(** An array with the number of its elements in use. *)
Record counted (T : Type) : Type := { slots : list T; count : Z }.
Arguments slots {T}.
Arguments count {T}.

Record madt_info : Type := {
  lapic_address : Z;
  madt_flags : Z;
  cpus : counted processor_info;
  ioapics : counted ioapic_record;
  isos : counted iso_record;
}.

Definition counted_init {T} `{Inhabited T} (n : Z) : counted T :=
  {| slots := replicate (Z.to_nat n) inhabitant; count := 0 |}.

Definition madt_info_init : madt_info := {|
  lapic_address := 0xFEE00000;
  madt_flags := 0;
  cpus := counted_init MAX_CPUS;
  ioapics := counted_init MAX_IOAPICS;
  isos := counted_init MAX_ISOS;
|}.

Definition set_lapic_address x i := {| lapic_address := x; madt_flags := madt_flags i; cpus := cpus i;
  ioapics := ioapics i; isos := isos i |}.
Definition set_madt_flags x i := {| lapic_address := lapic_address i; madt_flags := x; cpus := cpus i;
  ioapics := ioapics i; isos := isos i |}.
Definition set_cpus x i := {| lapic_address := lapic_address i; madt_flags := madt_flags i; cpus := x;
  ioapics := ioapics i; isos := isos i |}.
Definition set_ioapics x i := {| lapic_address := lapic_address i; madt_flags := madt_flags i;
  cpus := cpus i; ioapics := x; isos := isos i |}.
Definition set_isos x i := {| lapic_address := lapic_address i; madt_flags := madt_flags i;
  cpus := cpus i; ioapics := ioapics i; isos := x |}.

Section Counted.
Context {T : Type}.

Definition set_slots (l : list T) (c : counted T) : counted T := {| slots := l; count := count c |}.
Definition set_count (n : Z) (c : counted T) : counted T := {| slots := slots c; count := n |}.

(** [array[count++] = x]. *)
Definition add_counted (x : T) : kernel (counted T) unit :=
  n ← gets count;
  modify (set_count (u64 (n + 1)));;
  zoom slots set_slots (array_set n x).
End Counted.

Section Madt.
Context (m : memory).

Definition sizeof_madt_header : Z := 44.
Definition sizeof_madt_entry_header : Z := 2.
Definition entry_kind (entry : Z) : kernel madt_info Z := read_u8 m entry.
Definition entry_length (entry : Z) : kernel madt_info Z := read_u8 m (entry + 1).

Definition sizeof_madt_lapic : Z := 8.
Definition sizeof_madt_ioapic : Z := 12.
Definition sizeof_madt_iso : Z := 10.
Definition sizeof_madt_lapic_address_override : Z := 12.
Definition sizeof_madt_x2apic : Z := 16.

Definition flag (flags bit : Z) : bool := negb (Z.land flags bit =? 0).

Definition parse_lapic (entry : Z) : kernel madt_info unit :=
  id ← read_u8 m (entry + 3);
  uid ← read_u8 m (entry + 2);
  flags ← read_u32 m (entry + 4);
  zoom cpus set_cpus (add_counted
    {| apic_id := id; acpi_id := uid; enabled := flag flags 1; online_capable := flag flags 2 |}).

Definition parse_ioapic (entry : Z) : kernel madt_info unit :=
  id ← read_u8 m (entry + 2);
  address ← read_u32 m (entry + 4);
  base ← read_u32 m (entry + 8);
  zoom ioapics set_ioapics (add_counted
    {| ioapic_id := id; ioapic_address := address; gsi_base := base |}).

Definition parse_iso (entry : Z) : kernel madt_info unit :=
  b ← read_u8 m (entry + 2);
  source ← read_u8 m (entry + 3);
  gsi ← read_u32 m (entry + 4);
  flags ← read_u16 m (entry + 8);
  zoom isos set_isos (add_counted
    {| iso_bus := b; iso_source := source; iso_gsi := gsi; iso_flags := flags |}).

Definition parse_x2apic (entry : Z) : kernel madt_info unit :=
  id ← read_u32 m (entry + 4);
  uid ← read_u32 m (entry + 12);
  flags ← read_u32 m (entry + 8);
  zoom cpus set_cpus (add_counted
    {| apic_id := id; acpi_id := uid; enabled := flag flags 1; online_capable := flag flags 2 |}).

(** The [switch] of [parse_madt]. *)
Definition parse_entry (entry : Z) : kernel madt_info unit :=
  kind ← entry_kind entry;
  n ← entry_length entry;
  cpu_count ← gets (fun i => count (cpus i));
  ioapic_count ← gets (fun i => count (ioapics i));
  iso_count ← gets (fun i => count (isos i));
  if kind =? TYPE_LAPIC then
    when ((sizeof_madt_lapic <=? n) && (cpu_count <? MAX_CPUS)) (parse_lapic entry)
  else if kind =? TYPE_IOAPIC then
    when ((sizeof_madt_ioapic <=? n) && (ioapic_count <? MAX_IOAPICS)) (parse_ioapic entry)
  else if kind =? TYPE_INTERRUPT_OVERRIDE then
    when ((sizeof_madt_iso <=? n) && (iso_count <? MAX_ISOS)) (parse_iso entry)
  else if kind =? TYPE_LAPIC_ADDRESS_OVERRIDE then
    when (sizeof_madt_lapic_address_override <=? n)
      (address ← read_u64 m (entry + 4); modify (set_lapic_address address))
  else if kind =? TYPE_X2APIC then
    when ((sizeof_madt_x2apic <=? n) && (cpu_count <? MAX_CPUS)) (parse_x2apic entry)
  else mret tt.

(** The loop of [parse_madt]; an entry is at least two bytes long. *)
Fixpoint parse_entries (fuel : nat) (cursor end_ : Z) : kernel madt_info unit :=
  match fuel with
  | O => diverge
  | Datatypes.S fuel' =>
      if cursor + sizeof_madt_entry_header <=? end_ then
        n ← entry_length cursor;
        if n <? sizeof_madt_entry_header then mret tt
        else if end_ <? cursor + n then mret tt
        else parse_entry cursor;; parse_entries fuel' (cursor + n) end_
      else mret tt
  end.

Definition madt_fuel (n : Z) : nat := Z.to_nat (n + 1).
End Madt.

(** The variables of [madt.cpp], next to those of [acpi.cpp]. *)
Record acpi_tables : Type := {
  tables : acpi_state;
  m_cached_madt_info : madt_info;
  m_madt_parsed : bool;
}.

Definition set_tables x s := {| tables := x; m_cached_madt_info := m_cached_madt_info s;
  m_madt_parsed := m_madt_parsed s |}.
Definition set_cached x s := {| tables := tables s; m_cached_madt_info := x; m_madt_parsed := true |}.

Definition acpi_tables_init : acpi_tables :=
  {| tables := acpi_state_init; m_cached_madt_info := madt_info_init; m_madt_parsed := false |}.

Section MadtInfo.
Context `{layout} (m : memory).

Definition parse_madt (view : sdt_view) : kernel acpi_tables madt_info :=
  match view with
  | None => mret madt_info_init
  | Some madt =>
      n ← sdt_length m madt;
      if n <? sizeof_madt_header then mret madt_info_init
      else
        address ← read_u32 m (madt + 36);
        flags ← read_u32 m (madt + 40);
        '(_, parsed) ← local (set_madt_flags flags (set_lapic_address address madt_info_init))
          (parse_entries m (madt_fuel n) (madt + sizeof_madt_header) (madt + n));
        modify (set_cached parsed);;
        mret parsed
  end.

Definition get_madt_info : kernel acpi_tables madt_info :=
  parsed ← gets m_madt_parsed;
  when (negb parsed)
    (view ← zoom tables set_tables (find_table m APIC);
     when (valid view) (_ ← parse_madt view; mret tt));;
  gets m_cached_madt_info.
End MadtInfo.
