(* ===== verification/AcpiFacts.v ===== *)
(** * AcpiFacts: what [Acpi] computes

    A table of the firmware is what its pointer, its signature and its checksum say it is; the list of
    interrupt controllers is the list of its entries, cut to the capacity of each array. *)

From S2P Require Import Prelude Containers Memory Boot Pmm Mmu Acpi.

#[local] Abbreviation take := firstn.

(** ** Checksums and signatures *)

(** The sum of the [n] bytes at an address. *)
Fixpoint byte_sum (m : memory) (n : nat) (a : Z) : Z :=
  match n with
  | O => 0
  | S n' => peek m 1 a + byte_sum m n' (a + 1)
  end.

Lemma byte_sum_snoc m n a : byte_sum m (n + 1) a = byte_sum m n a + peek m 1 (a + Z.of_nat n).
Proof.
  revert a. induction n as [|n IH]; intros a; cbn [Nat.add byte_sum].
  - rewrite !Z.add_0_r. lia.
  - rewrite IH. replace (a + 1 + Z.of_nat n) with (a + Z.of_nat (S n)) by lia. lia.
Qed.

(** The bytes of a table sum to zero. *)
Definition checked (m : memory) (a n : Z) : bool :=
  negb (n =? 0) && (byte_sum m (Z.to_nat n) a mod 256 =? 0).

(** The first [n] characters at an address are those of a literal. *)
Definition signed (m : memory) (n : nat) (a : Z) (l : list char) : bool :=
  bool_decide (characters m n a = take n l).

Section Tables.
Context (m : memory) (lo hi : Z) (Hmapped : mapped m lo hi).

Lemma wp_validate_checksum {S} a n (Q : bool -> S -> Prop) s :
  lo <= a -> 0 <= n -> a + n <= hi -> Q (checked m a n) s ->
  wp (validate_checksum m (Some a) n) Q s.
Proof.
  intros Ha Hn Hend HQ. unfold validate_checksum, checked in *.
  destruct (Z.eqb_spec n 0) as [->|Hn0]; [by apply wp_ret|]. cbn [negb andb] in HQ.
  apply wp_bind. apply wp_for_fold with
    (Inv := fun i sum s' => s' = s /\ sum = byte_sum m (Z.to_nat i) a mod 256).
  - done.
  - intros i sum s' Hi [-> ->]. unfold read_u8. wp_step.
    apply (wp_fetch m lo hi Hmapped); [lia..|]. apply wp_ret. split; [done|].
    replace (Z.to_nat (i + 1)) with (Z.to_nat i + 1)%nat by lia.
    rewrite byte_sum_snoc, Z2Nat.id by lia. unfold u8, wrap. change (2 ^ 8) with 256.
    by rewrite Zplus_mod_idemp_l.
  - intros sum s' [-> ->]. apply wp_ret. by rewrite Z.max_r by lia.
Qed.

(** Comparing the characters in memory with a literal, up to the first difference. *)
Lemma wp_compare_literal {S V} (v : V) k a l (Q : option V -> S -> Prop) s :
  lo <= a -> a + Z.of_nat k <= hi -> (k <= length l)%nat ->
  Q (if signed m k a l then None else Some v) s ->
  wp (scan_range 0 (Z.of_nat k) (fun i =>
        c ← read_char m (a + i); d ← char_at (Some l) i;
        mret (if c =? d then None else Some v))) Q s.
Proof.
  intros Ha Hend Hlen HQ. unfold signed in HQ.
  apply wp_scan_range with
    (Inv := fun i s' => s' = s /\ characters m (Z.to_nat i) a = take (Z.to_nat i) l)
    (Found := fun v' s' => s' = s /\ v' = v /\ characters m k a <> take k l).
  - done.
  - intros i s' Hi [-> Heq]. unfold read_char, read_u8. wp_steps.
    apply (wp_fetch m lo hi Hmapped); [lia..|]. wp_steps. unfold char_at. wp_step.
    apply wp_array_get; [unfold zlen; lia|]. wp_steps.
    assert (Hsnoc : characters m (Z.to_nat (i + 1)) a =
      characters m (Z.to_nat i) a ++ [char_of (peek m 1 (a + i))]).
    { replace (Z.to_nat (i + 1)) with (Z.to_nat i + 1)%nat by lia. rewrite characters_app.
      cbn [characters]. by rewrite Z2Nat.id by lia. }
    assert (Htake : take (Z.to_nat (i + 1)) l = take (Z.to_nat i) l ++ [znth l i]).
    { replace (Z.to_nat (i + 1)) with (Datatypes.S (Z.to_nat i)) by lia. apply take_S_r.
      apply list_lookup_lookup_total_lt. lia. }
    destruct (Z.eqb_spec (char_of (peek m 1 (a + i))) (znth l i)) as [Hc|Hc].
    + split; [done|]. by rewrite Hsnoc, Htake, Heq, Hc.
    + split; [done|]. split; [done|]. intros Hall. apply Hc.
      assert (Hk : characters m (Z.to_nat (i + 1)) a = take (Z.to_nat (i + 1)) l).
      { replace k with (Z.to_nat (i + 1) + (k - Z.to_nat (i + 1)))%nat in Hall by lia.
        rewrite characters_app in Hall. apply (f_equal (take (Z.to_nat (i + 1)))) in Hall.
        pose proof (zlen_characters m (Z.to_nat (i + 1)) a) as Hz. unfold zlen in Hz.
        rewrite take_app_length' in Hall by lia. rewrite Hall, take_take. f_equal. lia. }
      rewrite Hsnoc, Htake in Hk. by apply app_inj_tail in Hk as [_ Hk].
  - intros v' s' (-> & -> & Hne). by rewrite bool_decide_eq_false_2 in HQ.
  - intros s' [-> Heq]. rewrite Z.max_r, Nat2Z.id in Heq by lia. by rewrite bool_decide_eq_true_2 in HQ.
Qed.

Lemma wp_signature_match {S} a l (Q : bool -> S -> Prop) s :
  lo <= a -> a + 4 <= hi -> (4 <= length l)%nat -> Q (signed m 4 a l) s ->
  wp (signature_match m a l) Q s.
Proof.
  intros Ha Hend Hlen HQ. unfold signature_match. wp_step.
  apply (wp_compare_literal false 4); [lia | lia | done |]. apply wp_ret.
  by destruct (signed m 4 a l).
Qed.
End Tables.

(** ** The tables the root table points to *)
Section FindTable.
Context `{layout} (m : memory).

Definition length_of (header : Z) : Z := peek m 4 (header + 4).

(** The header of a table can be read, and the bytes it announces. *)
Definition table_mapped (v : Z) : Prop := mapped m v (v + 8) /\ mapped m v (v + length_of v).

(** The table with the signature behind a physical address, if it is one. *)
Definition table_at (signature : list char) (phys : Z) : option Z :=
  if phys =? 0 then None
  else
    match phy_to_vrt phys with
    | None => None
    | Some v => if signed m 4 v signature && checked m v (length_of v) then Some v else None
    end.

Definition root_table (s : acpi_state) : option Z :=
  if m_initialized s then
    match phy_to_vrt (m_sdt_root_phys s) with
    | None => None
    | Some v => if checked m v (length_of v) && (36 <=? length_of v) then Some v else None
    end
  else None.

Definition pointer_width (s : acpi_state) : nat := if m_is_xsdt s then 8 else 4.

Definition pointer_count (s : acpi_state) : Z :=
  match root_table s with
  | Some v => (length_of v - 36) / Z.of_nat (pointer_width s)
  | None => 0
  end.

Definition pointer (s : acpi_state) (i : Z) : Z :=
  match root_table s with
  | Some v => peek m (pointer_width s) (v + 36 + i * Z.of_nat (pointer_width s))
  | None => 0
  end.

Record tables_reachable (s : acpi_state) : Prop := {
  root_mapped : m_initialized s = true ->
    forall v, phy_to_vrt (m_sdt_root_phys s) = Some v -> table_mapped v;
  entries_mapped : forall i v, 0 <= i < pointer_count s -> pointer s i <> 0 ->
    phy_to_vrt (pointer s i) = Some v -> table_mapped v;
}.

(** What the lookup of a table answers: the first of the pointers that leads to one. *)
Definition looked_up (s : acpi_state) (signature : list char) (r : sdt_view) : Prop :=
  match r with
  | Some v => exists i, 0 <= i < pointer_count s /\ table_at signature (pointer s i) = Some v /\
      forall j, 0 <= j < i -> table_at signature (pointer s j) = None
  | None => forall i, 0 <= i < pointer_count s -> table_at signature (pointer s i) = None
  end.

Lemma length_of_range v : mapped m v (v + 8) -> 0 <= length_of v < 2 ^ 32.
Proof. intros Hm. apply (peek_range m v (v + 8) Hm 4); lia. Qed.

Lemma wp_sdt_length {S} v (Q : Z -> S -> Prop) s :
  mapped m v (v + 8) -> Q (length_of v) s -> wp (sdt_length m v) Q s.
Proof. intros Hm HQ. apply (wp_fetch m v (v + 8) Hm); [lia | lia | done]. Qed.

Lemma wp_find_table_step lo hi width ptrs signature i (Q : option Z -> acpi_state -> Prop) s :
  mapped m lo hi -> (4 <= length signature)%nat ->
  lo <= ptrs + i * Z.of_nat width -> ptrs + i * Z.of_nat width + Z.of_nat width <= hi ->
  let p := peek m width (ptrs + i * Z.of_nat width) in
  (forall v, p <> 0 -> phy_to_vrt p = Some v -> table_mapped v) ->
  Q (table_at signature p) s -> wp (find_table_step m width ptrs signature i) Q s.
Proof.
  intros Hm Hsig Hlo Hhi p Htable HQ. unfold find_table_step. wp_step.
  apply (wp_fetch m lo hi Hm); [lia | lia |]. fold p. unfold table_at in HQ.
  destruct (Z.eqb_spec p 0) as [Hp|Hp]; [by apply wp_ret|].
  destruct (phy_to_vrt p) as [v|] eqn:Ev; [|by apply wp_ret].
  destruct (Htable v Hp eq_refl) as [Hhead Hbody]. wp_step.
  apply (wp_signature_match m v (v + 8) Hhead); [lia | lia | done |].
  destruct (signed m 4 v signature); cbn [negb andb] in *; [|by apply wp_ret].
  wp_step. apply wp_sdt_length; [done|]. pose proof (length_of_range v Hhead). wp_step.
  apply (wp_validate_checksum m v _ Hbody); [lia..|]. apply wp_ret.
  by destruct (checked m v (length_of v)).
Qed.

(** The loop over the pointers. *)
Lemma wp_find_table_loop lo hi width ptrs signature n (Q : option Z -> acpi_state -> Prop) s :
  mapped m lo hi -> (4 <= length signature)%nat -> 0 <= n ->
  lo <= ptrs -> ptrs + n * Z.of_nat width <= hi ->
  let p i := peek m width (ptrs + i * Z.of_nat width) in
  (forall i v, 0 <= i < n -> p i <> 0 -> phy_to_vrt (p i) = Some v -> table_mapped v) ->
  (forall r, match r with
     | Some v => exists i, 0 <= i < n /\ table_at signature (p i) = Some v /\
         forall j, 0 <= j < i -> table_at signature (p j) = None
     | None => forall i, 0 <= i < n -> table_at signature (p i) = None
     end -> Q r s) ->
  wp (scan_range 0 n (find_table_step m width ptrs signature)) Q s.
Proof.
  intros Hm Hsig Hn Hlo Hhi p Htable HQ.
  apply wp_scan_range with
    (Inv := fun i s' => s' = s /\ forall j, 0 <= j < i -> table_at signature (p j) = None)
    (Found := fun v s' => s' = s /\ exists i, 0 <= i < n /\ table_at signature (p i) = Some v /\
       forall j, 0 <= j < i -> table_at signature (p j) = None).
  - split; [done|]. lia.
  - intros i s' Hi [-> Hnone]. apply (wp_find_table_step lo hi); [done | done | nia | nia | by intros v; apply Htable |].
    fold (p i). destruct (table_at signature (p i)) as [v|] eqn:E.
    + split; [done|]. exists i. split; [lia | done].
    + split; [done|]. intros j Hj. destruct (Z.eq_dec j i) as [->|]; [done | apply Hnone; lia].
  - intros v s' [-> Hv]. by apply HQ.
  - intros s' [-> Hnone]. apply HQ. intros i Hi. apply Hnone. lia.
Qed.

Lemma wp_find_table s signature (Q : sdt_view -> acpi_state -> Prop) :
  tables_reachable s -> (4 <= length signature)%nat ->
  (forall r, looked_up s signature r -> Q r s) -> wp (find_table m signature) Q s.
Proof.
  intros [Hroot Hentries] Hsig HQ. unfold find_table. wp_steps.
  destruct (m_initialized s) eqn:Ei; cbn [negb].
  2:{ apply wp_ret, HQ. unfold looked_up, pointer_count, root_table. rewrite Ei. lia. }
  wp_steps. specialize (Hroot eq_refl).
  destruct (phy_to_vrt (m_sdt_root_phys s)) as [v|] eqn:Ev.
  2:{ apply wp_ret, HQ. unfold looked_up, pointer_count, root_table. rewrite Ei, Ev. lia. }
  destruct (Hroot v eq_refl) as [Hhead Hbody]. pose proof (length_of_range v Hhead).
  wp_step. apply wp_sdt_length; [done|]. wp_step.
  apply (wp_validate_checksum m v _ Hbody); [lia..|].
  destruct (checked m v (length_of v)) eqn:Ec; cbn [negb].
  2:{ apply wp_ret, HQ. unfold looked_up, pointer_count, root_table. rewrite Ei, Ev, Ec. cbn [andb]. lia. }
  unfold sizeof_sdt_header. destruct (Z.ltb_spec (length_of v) 36) as [Hshort|Hlong].
  { apply wp_ret, HQ. unfold looked_up, pointer_count, root_table. rewrite Ei, Ev, Ec. cbn [andb].
    destruct (Z.leb_spec 36 (length_of v)); lia. }
  assert (Er : root_table s = Some v).
  { unfold root_table. rewrite Ei, Ev, Ec. cbn [andb]. by destruct (Z.leb_spec 36 (length_of v)); [|lia]. }
  unfold pointer_count, pointer, looked_up, pointer_count, pointer in *. rewrite Er in *. wp_step. wp_step.
  unfold pointer_width in *.
  destruct (m_is_xsdt s); apply (wp_find_table_loop v (v + length_of v)); (try done); try lia; div_lia.
Qed.
End FindTable.

(** ** The root pointer *)
Section Root.
Context `{layout} (m : memory).

(** The root table that the firmware's pointer names, and whether its pointers are 8 bytes long. *)
Definition rsdp_root (phys : Z) : option (Z * bool) :=
  if phys =? 0 then None
  else
    match phy_to_vrt phys with
    | None => None
    | Some v =>
        if signed m 8 v RSDP_SIGNATURE && checked m v 20 then
          let xsdt := peek m 8 (v + 24) in
          let rsdt := peek m 4 (v + 16) in
          if (2 <=? peek m 1 (v + 15)) && negb (xsdt =? 0) then
            if checked m v (peek m 4 (v + 20)) then Some (xsdt, true) else None
          else if rsdt =? 0 then None else Some (rsdt, false)
        else None
    end.

Definition rsdp_reachable (phys : Z) : Prop := forall v, phys <> 0 -> phy_to_vrt phys = Some v ->
  mapped m v (v + 20) /\
  (2 <= peek m 1 (v + 15) -> mapped m v (v + 32) /\ mapped m v (v + peek m 4 (v + 20))).

Definition state_of (phys : Z) (root : option (Z * bool)) : acpi_state :=
  match root with
  | Some (a, x) =>
      {| m_rsdp_phys := phys; m_sdt_root_phys := a; m_is_xsdt := x; m_initialized := true |}
  | None =>
      {| m_rsdp_phys := phys; m_sdt_root_phys := 0; m_is_xsdt := false; m_initialized := false |}
  end.

Lemma wp_init phys (Q : unit -> acpi_state -> Prop) s :
  rsdp_reachable phys -> Q tt (state_of phys (rsdp_root phys)) -> wp (init m phys) Q s.
Proof.
  intros Hr HQ. unfold init, rsdp_root in *. wp_step. apply wp_modify.
  destruct (Z.eqb_spec phys 0) as [|Hp]; [by apply wp_ret|].
  destruct (phy_to_vrt phys) as [v|] eqn:Ev; [|by apply wp_ret].
  destruct (Hr v Hp Ev) as [H20 H32]. wp_step.
  apply (wp_compare_literal m v (v + 20) H20 tt 8); [lia | lia | cbn; lia |].
  destruct (signed m 8 v RSDP_SIGNATURE); cbn [andb] in HQ; [|by apply wp_ret].
  wp_step. apply (wp_validate_checksum m v (v + 20) H20); [lia..|].
  destruct (checked m v 20); cbn [negb]; [|by apply wp_ret].
  unfold rsdp_revision, read_u8. wp_step. apply (wp_fetch m v (v + 20) H20); [lia | lia |].
  destruct (Z.leb_spec 2 (peek m 1 (v + 15))) as [Hrev|Hrev]; cbn [andb] in HQ; wp_step.
  - destruct (H32 Hrev) as [Hm Hlen]. unfold xsdt_address, read_u64. wp_step.
    apply (wp_fetch m v (v + 32) Hm); [lia | lia |]. wp_steps.
    destruct (Z.eqb_spec (peek m 8 (v + 24)) 0) as [Hx|Hx]; cbn [negb] in *.
    + unfold rsdt_address, read_u32. wp_step. apply (wp_fetch m v (v + 32) Hm); [lia | lia |].
      unfold init_root. wp_steps. cbn [m_sdt_root_phys set_root].
      by destruct (Z.eqb_spec (peek m 4 (v + 16)) 0) as [->|].
    + unfold rsdp_length, read_u32. wp_step. apply (wp_fetch m v (v + 32) Hm); [lia | lia |].
      pose proof (peek_range m v (v + 32) Hm 4 (v + 20) ltac:(lia) ltac:(lia)).
      wp_step. apply (wp_validate_checksum m v _ Hlen); [lia..|].
      destruct (checked m v (peek m 4 (v + 20))); cbn [negb]; [|by apply wp_ret].
      wp_step. apply (wp_fetch m v (v + 32) Hm); [lia | lia |]. unfold init_root. wp_steps.
      cbn [m_sdt_root_phys set_root]. by destruct (Z.eqb_spec (peek m 8 (v + 24)) 0).
  - wp_step. unfold rsdt_address, read_u32. wp_step.
    apply (wp_fetch m v (v + 20) H20); [lia | lia |]. unfold init_root. wp_steps.
    cbn [m_sdt_root_phys set_root]. by destruct (Z.eqb_spec (peek m 4 (v + 16)) 0) as [->|].
Qed.
End Root.

(** ** The entries of the table of interrupt controllers *)
Section Entries.
Context (m : memory).

Definition kind_at (entry : Z) : Z := peek m 1 entry.
Definition size_at_entry (entry : Z) : Z := peek m 1 (entry + 1).

(** The entries from a cursor: up to the end, or to one that is too short or overruns it. *)
Inductive entry_list (end_ : Z) : Z -> list Z -> Prop :=
| entry_list_stop cursor :
    end_ < cursor + 2 \/ size_at_entry cursor < 2 \/ end_ < cursor + size_at_entry cursor ->
    entry_list end_ cursor []
| entry_list_more cursor rest :
    cursor + 2 <= end_ -> 2 <= size_at_entry cursor -> cursor + size_at_entry cursor <= end_ ->
    entry_list end_ (cursor + size_at_entry cursor) rest -> entry_list end_ cursor (cursor :: rest).

(** The processor, the interrupt controller, the rerouted interrupt, the address an entry gives. *)
Definition cpu_of (e : Z) : option processor_info :=
  if kind_at e =? TYPE_LAPIC then
    if 8 <=? size_at_entry e then
      Some {| apic_id := peek m 1 (e + 3); acpi_id := peek m 1 (e + 2);
              enabled := flag (peek m 4 (e + 4)) 1; online_capable := flag (peek m 4 (e + 4)) 2 |}
    else None
  else if kind_at e =? TYPE_X2APIC then
    if 16 <=? size_at_entry e then
      Some {| apic_id := peek m 4 (e + 4); acpi_id := peek m 4 (e + 12);
              enabled := flag (peek m 4 (e + 8)) 1; online_capable := flag (peek m 4 (e + 8)) 2 |}
    else None
  else None.

Definition ioapic_of (e : Z) : option ioapic_record :=
  if (kind_at e =? TYPE_IOAPIC) && (12 <=? size_at_entry e) then
    Some {| ioapic_id := peek m 1 (e + 2); ioapic_address := peek m 4 (e + 4);
            gsi_base := peek m 4 (e + 8) |}
  else None.

Definition iso_of (e : Z) : option iso_record :=
  if (kind_at e =? TYPE_INTERRUPT_OVERRIDE) && (10 <=? size_at_entry e) then
    Some {| iso_bus := peek m 1 (e + 2); iso_source := peek m 1 (e + 3);
            iso_gsi := peek m 4 (e + 4); iso_flags := peek m 2 (e + 8) |}
  else None.

Definition override_of (e : Z) : option Z :=
  if (kind_at e =? TYPE_LAPIC_ADDRESS_OVERRIDE) && (12 <=? size_at_entry e) then
    Some (peek m 8 (e + 4))
  else None.
End Entries.

Section Counted.
Context {T : Type} (cap : Z) (Hcap : 0 <= cap < 2 ^ 64).

Definition used (c : counted T) : list T := take (Z.to_nat (count c)) (slots c).

(** The array holds the first elements of a sequence, as many as there is room for. *)
Record holds (c : counted T) (l : list T) : Prop := {
  holds_slots : zlen (slots c) = cap;
  holds_count : 0 <= count c <= cap;
  holds_used : used c = take (Z.to_nat cap) l;
}.

Lemma holds_length c l : holds c l -> count c = Z.min cap (zlen l).
Proof.
  intros [Hs Hc Hu]. apply (f_equal zlen) in Hu. unfold used, zlen in *.
  rewrite !length_take in Hu. lia.
Qed.

Lemma wp_add_counted c l x (Q : unit -> counted T -> Prop) :
  holds c l -> count c < cap -> (forall c', holds c' (l ++ [x]) -> Q tt c') ->
  wp (add_counted x) Q c.
Proof.
  intros Hl Hroom HQ. pose proof (holds_length c l Hl) as Hlen. pose proof Hl as [Hs Hc Hu].
  unfold add_counted. wp_steps. unfold u64. rewrite wrap_small by (unfold in_width; lia).
  apply wp_array_set; cbn [slots set_count]; [lia|]. apply HQ. split; cbn.
  - by rewrite zlen_zset.
  - lia.
  - unfold used in *. cbn. rewrite take_zset_snoc by lia. rewrite Hu.
    unfold zlen in *. rewrite (take_ge l) by lia. rewrite take_ge; [done|]. rewrite length_app. cbn. lia.
Qed.

Lemma holds_full c l x : holds c l -> cap <= count c -> holds c (l ++ [x]).
Proof.
  intros Hl Hfull. pose proof (holds_length c l Hl) as Hlen. destruct Hl as [Hs Hc Hu].
  split; [done | done |]. unfold zlen in *. rewrite take_app_le by lia. done.
Qed.
End Counted.

(** ** Parsing the entries *)
Section Parsing.
Context (m : memory) (address flags : Z).

(** What has been recorded once the entries [l] have been seen. *)
Record recorded (l : list Z) (i : madt_info) : Prop := {
  recorded_flags : madt_flags i = flags;
  recorded_address : lapic_address i = default address (last (omap (override_of m) l));
  recorded_cpus : holds MAX_CPUS (cpus i) (omap (cpu_of m) l);
  recorded_ioapics : holds MAX_IOAPICS (ioapics i) (omap (ioapic_of m) l);
  recorded_isos : holds MAX_ISOS (isos i) (omap (iso_of m) l);
}.

Lemma omap_snoc {A} (f : Z -> option A) l e :
  omap f (l ++ [e]) = match f e with Some x => omap f l ++ [x] | None => omap f l end.
Proof. rewrite omap_app. cbn. destruct (f e); [done | by rewrite app_nil_r]. Qed.

(** An entry of another kind says nothing of this sort. *)
Lemma recorded_init :
  recorded [] (set_madt_flags flags (set_lapic_address address madt_info_init)).
Proof. split; [done | done | by split; cbn.. ]. Qed.

(** Close [recorded (l ++ [e]) i'], given the kind of [e]. *)
Ltac settle Hk :=
  split; rewrite ?omap_snoc; unfold cpu_of, ioapic_of, iso_of, override_of; rewrite ?Hk;
  cbn [TYPE_LAPIC TYPE_IOAPIC TYPE_INTERRUPT_OVERRIDE TYPE_LAPIC_ADDRESS_OVERRIDE TYPE_X2APIC
       Z.eqb Pos.eqb andb];
  repeat match goal with H : (_ <=? size_at_entry _ _) = _ |- _ => rewrite H end;
  try done.

(** Read the fields of the entry and add what they give to its array. *)
Ltac record_in cap Hm Hold HQ Hk :=
  unfold read_u8, read_u16, read_u32, read_u64;
  repeat (wp_step; apply (wp_fetch _ _ _ Hm); [lia | lia |]); wp_step;
  eapply (wp_add_counted cap); [done | exact Hold | done |];
  intros ? ?; apply HQ; settle Hk.

Lemma wp_parse_entry e l i (Q : unit -> madt_info -> Prop) :
  mapped m e (e + size_at_entry m e) -> 2 <= size_at_entry m e -> recorded l i ->
  (forall i', recorded (l ++ [e]) i' -> Q tt i') ->
  wp (parse_entry m e) Q i.
Proof.
  intros Hm Hsize [Hf Ha Hc Hio His] HQ.
  unfold parse_entry, entry_kind, entry_length, read_u8. wp_step.
  apply (wp_fetch m _ _ Hm); [lia | lia |]. wp_step. apply (wp_fetch m _ _ Hm); [lia | lia |]. wp_steps.
  fold (kind_at m e). fold (size_at_entry m e).
  unfold sizeof_madt_lapic, sizeof_madt_ioapic, sizeof_madt_iso, sizeof_madt_lapic_address_override,
    sizeof_madt_x2apic.
  destruct (Z.eqb_spec (kind_at m e) TYPE_LAPIC) as [Hk|Hk0].
  { destruct (8 <=? size_at_entry m e) eqn:E; cbn [andb]; [|apply wp_ret, HQ; settle Hk].
    destruct (Z.ltb_spec (count (cpus i)) MAX_CPUS); cbn [when];
      [|apply wp_ret, HQ; settle Hk; by apply holds_full].
    apply Z.leb_le in E as Hlong. unfold parse_lapic. record_in MAX_CPUS Hm Hc HQ Hk. }
  destruct (Z.eqb_spec (kind_at m e) TYPE_IOAPIC) as [Hk|Hk1].
  { destruct (12 <=? size_at_entry m e) eqn:E; cbn [andb]; [|apply wp_ret, HQ; settle Hk].
    destruct (Z.ltb_spec (count (ioapics i)) MAX_IOAPICS); cbn [when];
      [|apply wp_ret, HQ; settle Hk; by apply holds_full].
    apply Z.leb_le in E as Hlong. unfold parse_ioapic. record_in MAX_IOAPICS Hm Hio HQ Hk. }
  destruct (Z.eqb_spec (kind_at m e) TYPE_INTERRUPT_OVERRIDE) as [Hk|Hk2].
  { destruct (10 <=? size_at_entry m e) eqn:E; cbn [andb]; [|apply wp_ret, HQ; settle Hk].
    destruct (Z.ltb_spec (count (isos i)) MAX_ISOS); cbn [when];
      [|apply wp_ret, HQ; settle Hk; by apply holds_full].
    apply Z.leb_le in E as Hlong. unfold parse_iso. record_in MAX_ISOS Hm His HQ Hk. }
  destruct (Z.eqb_spec (kind_at m e) TYPE_LAPIC_ADDRESS_OVERRIDE) as [Hk|Hk3].
  { destruct (12 <=? size_at_entry m e) eqn:E; cbn [when]; [|apply wp_ret, HQ; settle Hk].
    apply Z.leb_le in E as Hlong. unfold read_u64. wp_step. apply (wp_fetch m _ _ Hm); [lia | lia |].
    apply wp_modify, HQ. settle Hk. by rewrite last_snoc. }
  destruct (Z.eqb_spec (kind_at m e) TYPE_X2APIC) as [Hk|Hk4].
  { destruct (16 <=? size_at_entry m e) eqn:E; cbn [andb]; [|apply wp_ret, HQ; settle Hk].
    destruct (Z.ltb_spec (count (cpus i)) MAX_CPUS); cbn [when];
      [|apply wp_ret, HQ; settle Hk; by apply holds_full].
    apply Z.leb_le in E as Hlong. unfold parse_x2apic. record_in MAX_CPUS Hm Hc HQ Hk. }
  apply wp_ret, HQ.
  split; rewrite ?omap_snoc; unfold cpu_of, ioapic_of, iso_of, override_of;
    destruct_comparisons; done.
Qed.

Lemma wp_parse_entries fuel cursor end_ seen i (Q : unit -> madt_info -> Prop) :
  mapped m cursor end_ -> cursor <= end_ -> end_ - cursor < Z.of_nat fuel -> recorded seen i ->
  (forall l i', entry_list m end_ cursor l -> recorded (seen ++ l) i' -> Q tt i') ->
  wp (parse_entries m fuel cursor end_) Q i.
Proof.
  revert cursor seen i. induction fuel as [|fuel IH]; intros cursor seen i Hm Hle Hfuel Hi HQ; [lia|].
  cbn [parse_entries]. unfold sizeof_madt_entry_header.
  destruct (Z.leb_spec (cursor + 2) end_) as [Hroom|Hroom].
  2:{ apply wp_ret, (HQ []); [constructor; lia | by rewrite app_nil_r]. }
  unfold entry_length, read_u8. wp_step. apply (wp_fetch m _ _ Hm); [lia | lia |].
  fold (size_at_entry m cursor).
  destruct (Z.ltb_spec (size_at_entry m cursor) 2) as [Hs|Hs].
  { apply wp_ret, (HQ []); [constructor; lia | by rewrite app_nil_r]. }
  destruct (Z.ltb_spec end_ (cursor + size_at_entry m cursor)) as [He|He].
  { apply wp_ret, (HQ []); [constructor; lia | by rewrite app_nil_r]. }
  wp_step. apply (wp_parse_entry cursor seen); [intros a Ha'; apply Hm; lia | done | done |].
  intros i' Hi'. apply (IH _ (seen ++ [cursor])); [intros a Ha'; apply Hm; lia | lia | lia | done |].
  intros l i'' Hl Hi''. apply (HQ (cursor :: l)); [by constructor | by rewrite <- app_assoc in Hi''].
Qed.
End Parsing.

(** ** Properties *)
Section Properties.
Context `{layout} (m : memory).

(** The component starts exactly when the boot loader gave a root pointer and the pointer, its
    signature and its checksums, of the length its revision asks for, lead to a root table; that table
    is the one looked into from then on. *)
Theorem acpi_init_correct boot_info s :
  let rsdp_phys := range_base (rsdp (acpi boot_info)) in
  rsdp_reachable m rsdp_phys ->
  wp (init_acpi m boot_info) (fun r s' =>
    if acpi_present (acpi boot_info) && negb (rsdp_phys =? 0)
    then s' = state_of rsdp_phys (rsdp_root m rsdp_phys) /\
      r = match rsdp_root m rsdp_phys with Some _ => Ok tt | None => Err INVALID_BOOT_DATA end
    else s' = s /\ r = Err INVALID_BOOT_DATA) s.
Proof.
  intros phys Hr. unfold init_acpi. fold phys.
  destruct (acpi_present (acpi boot_info)); cbn [negb orb andb]; [|by apply wp_ret].
  destruct (Z.eqb_spec phys 0); cbn [negb]; [by apply wp_ret|].
  wp_step. apply wp_init; [done|]. unfold is_ready. wp_steps. split; [done|].
  by destruct (rsdp_root m phys) as [[]|].
Qed.

(** A table is looked up by its signature: the answer is the first pointer of the root table that leads
    to a table with the signature and a sum of zero; without a sound root table there is none. *)
Theorem find_table_correct signature s :
  tables_reachable m s -> 4 <= zlen signature ->
  wp (find_table m signature) (fun r s' => s' = s /\ looked_up m s signature r) s.
Proof.
  intros Hr Hsig. apply wp_find_table; [done | unfold zlen in Hsig; lia |]. done.
Qed.

Lemma looked_up_mapped s signature v :
  tables_reachable m s -> looked_up m s signature (Some v) -> table_mapped m v.
Proof.
  intros [_ He] (i & Hi & Ht & _). unfold table_at in Ht.
  destruct (Z.eqb_spec (pointer m s i) 0) as [|Hp]; [done|].
  destruct (phy_to_vrt (pointer m s i)) as [v'|] eqn:Ev; [|done].
  destruct (signed m 4 v' signature && checked m v' (length_of m v')); [|done].
  apply (inj Some) in Ht as <-. by eapply He.
Qed.

Lemma wp_parse_madt v s (Q : madt_info -> acpi_tables -> Prop) :
  table_mapped m v ->
  (if length_of m v <? 44 then Q madt_info_init s
   else forall l i, entry_list m (v + length_of m v) (v + 44) l ->
     recorded m (peek m 4 (v + 36)) (peek m 4 (v + 40)) l i -> Q i (set_cached i s)) ->
  wp (parse_madt m (Some v)) Q s.
Proof.
  intros [Hhead Hbody] HQ. pose proof (length_of_range m v Hhead). unfold parse_madt. wp_step.
  apply (wp_sdt_length m); [done|]. unfold sizeof_madt_header, read_u32.
  destruct (Z.ltb_spec (length_of m v) 44) as [|Hlong]; [by apply wp_ret|].
  wp_step. apply (wp_fetch m _ _ Hbody); [lia | lia |].
  wp_step. apply (wp_fetch m _ _ Hbody); [lia | lia |]. wp_steps.
  apply (wp_parse_entries m (peek m 4 (v + 36)) (peek m 4 (v + 40)) _ _ _ []).
  - intros a Ha. apply Hbody. lia.
  - lia.
  - unfold madt_fuel. lia.
  - apply recorded_init.
  - intros l i Hl Hi. wp_steps. by apply (HQ l).
Qed.

Lemma wp_get_madt_info s :
  tables_reachable m (tables s) ->
  wp (get_madt_info m) (fun info s' => info = m_cached_madt_info s' /\ tables s' = tables s /\
    if m_madt_parsed s then s' = s
    else exists r, looked_up m (tables s) APIC r /\
      match r with
      | Some v =>
          if length_of m v <? 44 then s' = s
          else m_madt_parsed s' = true /\
            exists l, entry_list m (v + length_of m v) (v + 44) l /\
              recorded m (peek m 4 (v + 36)) (peek m 4 (v + 40)) l info
      | None => s' = s
      end) s.
Proof.
  intros Hr. unfold get_madt_info. wp_steps. destruct (m_madt_parsed s) eqn:Ep; cbn [negb when].
  { wp_steps. done. }
  wp_steps. apply wp_find_table; [done | cbn; lia |]. intros r Hlook.
  assert (Hsame : set_tables (tables s) s = s) by by destruct s. rewrite Hsame.
  destruct r as [v|]; cbn [valid when]; wp_steps.
  - pose proof (looked_up_mapped _ _ _ Hr Hlook) as Hv.
    apply wp_parse_madt; [done|]. destruct (length_of m v <? 44) eqn:El.
    + wp_steps. split; [done|]. split; [done|]. exists (Some v). split; [done|]. by rewrite El.
    + intros l i Hl Hi. wp_steps. split; [done|]. split; [done|]. exists (Some v).
      split; [done|]. rewrite El. split; [done|]. by exists l.
  - split; [done|]. split; [done|]. by exists None.
Qed.
(** C9: The table of interrupt controllers is parsed once, and what is remembered of it is, for each array,
    the list of its entries of that kind in their order, cut to the capacity of the array; the
    address of the local controllers is the one the last override gives. Parsing ends whatever the
    entries say of their lengths, and reads nothing outside the table. *)
Theorem get_madt_info_correct s :
  tables_reachable m (tables s) ->
  wp (get_madt_info m) (fun info s' => info = m_cached_madt_info s' /\ tables s' = tables s /\
    if m_madt_parsed s then s' = s
    else exists r, looked_up m (tables s) APIC r /\
      match r with
      | Some v =>
          if length_of m v <? 44 then s' = s
          else m_madt_parsed s' = true /\
            exists l, entry_list m (v + length_of m v) (v + 44) l /\
              recorded m (peek m 4 (v + 36)) (peek m 4 (v + 40)) l info
      | None => s' = s
      end) s.
Proof. apply wp_get_madt_info. Qed.
End Properties.

(** ** A root pointer, a root table of one pointer and a table of two processors *)
Section Witnesses.
#[local] Existing Instance Mmu.example_layout.

(** Put at [i] the byte that makes the sum zero. *)
Definition sealed (i : nat) (l : list Z) : list Z := <[i := (- foldr Z.add 0 l) mod 256]> l.

Definition table_bytes (signature : list Z) (body : list Z) : list Z :=
  sealed 9 (signature ++ little_endian 4 (36 + zlen body) ++ replicate 28 0 ++ body).

Definition example_rsdp : list Z :=
  sealed 8 ([82; 83; 68; 32; 80; 84; 82; 32] ++ replicate 8 0 ++ little_endian 4 0x1018).

Definition example_rsdt : list Z := table_bytes [82; 83; 68; 84] (little_endian 4 0x1040).

Definition example_madt : list Z := table_bytes [65; 80; 73; 67]
  (little_endian 4 0xFEE00000 ++ little_endian 4 1 ++
   [0; 8; 1; 2] ++ little_endian 4 1 ++ [7; 2] ++
   [9; 16; 0; 0] ++ little_endian 4 300 ++ little_endian 4 2 ++ little_endian 4 4).

Definition example_firmware : memory := image_at (DIRECT_MAP_BASE + 0x1000)
  (example_rsdp ++ replicate 4 0 ++ example_rsdt ++ example_madt).

Definition example_boot_info : info := set_acpi
  {| acpi_present := true; rsdp := {| range_base := 0x1000; range_length := 20 |}; revision := 1 |}
  info_init.

Definition example_tables : acpi_tables :=
  {| tables := state_of 0x1000 (Some (0x1018, false)); m_cached_madt_info := madt_info_init;
     m_madt_parsed := false |}.

Lemma example_mapped a n :
  DIRECT_MAP_BASE + 0x1000 <= a -> n <= DIRECT_MAP_BASE + 0x1000 + 134 -> mapped example_firmware a n.
Proof.
  intros Ha Hn x Hx. unfold example_firmware.
  apply (mapped_image _ _ (DIRECT_MAP_BASE + 0x1000 + 134)); [done | lia].
Qed.

Lemma example_rsdp_reachable : rsdp_reachable example_firmware 0x1000.
Proof.
  intros v _ Hv. vm_compute in Hv. apply (inj Some) in Hv as <-. split.
  - apply example_mapped; by vm_compute.
  - intros Hrev. by vm_compute in Hrev.
Qed.

Lemma example_tables_reachable : tables_reachable example_firmware (tables example_tables).
Proof.
  split.
  - intros _ v Hv. vm_compute in Hv. apply (inj Some) in Hv as <-.
    split; apply example_mapped; by vm_compute.
  - intros i v Hi. replace (pointer_count _ _) with 1 in Hi by by vm_compute.
    replace i with 0 by lia. intros _ Hv. vm_compute in Hv. apply (inj Some) in Hv as <-.
    split; apply example_mapped; by vm_compute.
Qed.

Lemma acpi_init_correct_witness :
  wp (init_acpi example_firmware example_boot_info)
    (fun r s => r = Ok tt /\ m_sdt_root_phys s = 0x1018) acpi_state_init.
Proof.
  eapply wp_mono; [exact (acpi_init_correct _ example_boot_info acpi_state_init example_rsdp_reachable)|].
  intros r s H. vm_compute in H. destruct H as [-> ->]. by split.
Defined.

(** The only table there is. *)
Lemma example_looked_up r :
  looked_up example_firmware (tables example_tables) APIC r -> r = Some (DIRECT_MAP_BASE + 0x1040).
Proof.
  destruct r as [v|]; intros Hlook.
  - destruct Hlook as (i & Hi & Ht & _). replace (pointer_count _ _) with 1 in Hi by by vm_compute.
    replace i with 0 in Ht by lia. vm_compute in Ht. by apply (inj Some) in Ht as <-.
  - pose proof (Hlook 0 ltac:(by vm_compute)) as Hnone. by vm_compute in Hnone.
Qed.

Lemma find_table_correct_witness :
  wp (find_table example_firmware APIC) (fun r s => r = Some (DIRECT_MAP_BASE + 0x1040))
    (tables example_tables).
Proof.
  eapply wp_mono; [exact (find_table_correct _ APIC _ example_tables_reachable ltac:(by vm_compute))|].
  intros r s [_ Hlook]. by apply example_looked_up.
Defined.

Lemma get_madt_info_correct_witness :
  wp (get_madt_info example_firmware)
    (fun info s => m_madt_parsed s = true /\ exists l, recorded example_firmware 0xFEE00000 1 l info)
    example_tables.
Proof.
  eapply wp_mono; [exact (get_madt_info_correct _ _ example_tables_reachable)|].
  intros info s (_ & _ & r & Hlook & Hr). apply example_looked_up in Hlook as ->.
  destruct Hr as (Hp & l & _ & Hl). split; [done | by exists l].
Defined.
End Witnesses.
