(* ===== verification/Descriptors.v ===== *)
(** * Descriptors: [arch/x86_64/cpu/stacks.cpp], [tss/tss.cpp], [gdt/gdt.cpp] and [idt/idt.cpp]

    The stacks of a core and the three tables the processor reads them through: the task state segment,
    the segment descriptors and the interrupt gates.  The addresses the linker gives to the objects
    are a parameter (class [core_objects]). *)

From S2P Require Import Prelude Cpu.

(** ** Stacks *)

Definition CORE_STACK_SIZE : Z := 16 * 1024.

Record stack : Type := { bottom : Z; top : Z; stack_size : Z }.

Definition stack_init : stack := {| bottom := 0; top := 0; stack_size := 0 |}.

Definition describe_stack (storage storage_size : Z) : stack :=
  {| bottom := storage; top := u64 (storage + storage_size); stack_size := storage_size |}.

Record stack_set : Type := {
  kernel_stack : stack;
  double_fault : stack;
  nmi : stack;
  machine_check : stack;
}.

Definition stack_set_init : stack_set :=
  {| kernel_stack := stack_init; double_fault := stack_init; nmi := stack_init;
     machine_check := stack_init |}.

(** Where the objects of the core lie in memory. *)
Class core_objects : Type := {
  kernel_storage : Z;
  double_fault_storage : Z;
  nmi_storage : Z;
  machine_check_storage : Z;
  tss_address : Z;
  gdt_address : Z;
  idt_address : Z;
}.

(** [stack_set::init]. *)
Definition stacks_init `{core_objects} : kernel stack_set unit :=
  modify (fun _ => {|
    kernel_stack := describe_stack kernel_storage CORE_STACK_SIZE;
    double_fault := describe_stack double_fault_storage CORE_STACK_SIZE;
    nmi := describe_stack nmi_storage CORE_STACK_SIZE;
    machine_check := describe_stack machine_check_storage CORE_STACK_SIZE;
  |}).

(** ** The task state segment *)

Definition PRIVILEGE_STACK_COUNT : Z := 3.
Definition INTERRUPT_STACK_COUNT : Z := 7.
Definition NO_INTERRUPT_STACK : Z := 0.
Definition SIZEOF_SEGMENT : Z := 104.
Definition IO_MAP_DISABLED_BASE : Z := SIZEOF_SEGMENT.

(** [interrupt_stack]: the values of the enumeration that the code names. *)
Definition NONE : Z := 0.
Definition DOUBLE_FAULT : Z := 1.
Definition NMI : Z := 2.
Definition MACHINE_CHECK : Z := 3.

Record segment : Type := {
  reserved0 : Z;
  rsp : list Z;
  reserved1 : Z;
  ist : list Z;
  reserved2 : Z;
  reserved3 : Z;
  io_map_base : Z;
}.

Definition segment_init : segment := {| reserved0 := 0; rsp := replicate 3 0; reserved1 := 0;
  ist := replicate 7 0; reserved2 := 0; reserved3 := 0; io_map_base := 0 |}.

Definition set_rsp l (s : segment) := {| reserved0 := reserved0 s; rsp := l; reserved1 := reserved1 s;
  ist := ist s; reserved2 := reserved2 s; reserved3 := reserved3 s; io_map_base := io_map_base s |}.
Definition set_ist l (s : segment) := {| reserved0 := reserved0 s; rsp := rsp s; reserved1 := reserved1 s;
  ist := l; reserved2 := reserved2 s; reserved3 := reserved3 s; io_map_base := io_map_base s |}.
Definition set_reserved0 x (s : segment) := {| reserved0 := x; rsp := rsp s; reserved1 := reserved1 s;
  ist := ist s; reserved2 := reserved2 s; reserved3 := reserved3 s; io_map_base := io_map_base s |}.
Definition set_reserved1 x (s : segment) := {| reserved0 := reserved0 s; rsp := rsp s; reserved1 := x;
  ist := ist s; reserved2 := reserved2 s; reserved3 := reserved3 s; io_map_base := io_map_base s |}.
Definition set_last x y z (s : segment) := {| reserved0 := reserved0 s; rsp := rsp s;
  reserved1 := reserved1 s; ist := ist s; reserved2 := x; reserved3 := y; io_map_base := z |}.

Definition write_rsp (i x : Z) : kernel segment unit := zoom rsp set_rsp (array_set i x).
Definition write_ist (i x : Z) : kernel segment unit := zoom ist set_ist (array_set i x).

Definition tss_clear : kernel segment unit :=
  modify (set_reserved0 0);;
  for_range 0 PRIVILEGE_STACK_COUNT (fun i => write_rsp i 0);;
  modify (set_reserved1 0);;
  for_range 0 INTERRUPT_STACK_COUNT (fun i => write_ist i 0);;
  modify (set_last 0 0 IO_MAP_DISABLED_BASE).

Definition set_privilege_stack (privilege_level stack_top : Z) : kernel segment bool :=
  if PRIVILEGE_STACK_COUNT <=? privilege_level then mret false
  else write_rsp privilege_level stack_top;; mret true.

Definition set_interrupt_stack (stack_index stack_top : Z) : kernel segment bool :=
  if (stack_index =? NO_INTERRUPT_STACK) || (INTERRUPT_STACK_COUNT <? stack_index) then mret false
  else write_ist (stack_index - 1) stack_top;; mret true.

(** [stack_config]. *)
Record stack_config : Type := {
  rsp0 : Z; rsp1 : Z; rsp2 : Z;
  ist1 : Z; ist2 : Z; ist3 : Z; ist4 : Z; ist5 : Z; ist6 : Z; ist7 : Z;
}.

Definition tss_init (config : stack_config) : kernel segment unit :=
  tss_clear;;
  write_rsp 0 (rsp0 config);;
  write_rsp 1 (rsp1 config);;
  write_rsp 2 (rsp2 config);;
  write_ist 0 (ist1 config);;
  write_ist 1 (ist2 config);;
  write_ist 2 (ist3 config);;
  write_ist 3 (ist4 config);;
  write_ist 4 (ist5 config);;
  write_ist 5 (ist6 config);;
  write_ist 6 (ist7 config).

Definition tss_limit : Z := SIZEOF_SEGMENT - 1.

(** The configuration the component passes: members without an initialiser are 0. *)
Definition config_of (stacks : stack_set) : stack_config := {|
  rsp0 := top (kernel_stack stacks); rsp1 := 0; rsp2 := 0;
  ist1 := top (double_fault stacks); ist2 := top (nmi stacks); ist3 := top (machine_check stacks);
  ist4 := 0; ist5 := 0; ist6 := 0; ist7 := 0;
|}.

(** ** The segment descriptors *)

Definition KERNEL_CODE_SELECTOR : Z := 0x08.
Definition KERNEL_DATA_SELECTOR : Z := 0x10.
Definition USER_DATA_SELECTOR : Z := 0x18.
Definition USER_CODE_SELECTOR : Z := 0x20.
Definition TSS_SELECTOR : Z := 0x28.
Definition GDT_ENTRY_COUNT : Z := 7.

Definition ACCESS_PRESENT : Z := 0x80.
Definition ACCESS_RING_0 : Z := 0x00.
Definition ACCESS_RING_3 : Z := 0x60.
Definition ACCESS_DESCRIPTOR : Z := 0x10.
Definition ACCESS_EXECUTABLE : Z := 0x08.
Definition ACCESS_READ_WRITE : Z := 0x02.
Definition ACCESS_TSS_AVAILABLE_64 : Z := 0x09.
Definition FLAGS_GRANULARITY_4K : Z := 0x80.
Definition FLAGS_32_BIT : Z := 0x40.
Definition FLAGS_64_BIT : Z := 0x20.
Definition FLAT_BASE : Z := 0.
Definition FLAT_LIMIT : Z := 0xFFFFF.
Definition TSS_ENTRY_INDEX : Z := Z.shiftr TSS_SELECTOR 3.

Record descriptor : Type := {
  limit_low : Z;
  base_low : Z;
  base_mid : Z;
  access : Z;
  limit_high_flags : Z;
  base_high : Z;
}.

Definition make_descriptor (base limit acc flags : Z) : descriptor := {|
  limit_low := u16 (Z.land limit 0xFFFF);
  base_low := u16 (Z.land base 0xFFFF);
  base_mid := u8 (Z.land (Z.shiftr base 16) 0xFF);
  access := acc;
  limit_high_flags := u8 (Z.lor (Z.land (Z.shiftr limit 16) 0x0F) (Z.land flags 0xF0));
  base_high := u8 (Z.land (Z.shiftr base 24) 0xFF);
|}.

Definition make_tss_descriptor_low (base limit : Z) : descriptor := {|
  limit_low := u16 (Z.land limit 0xFFFF);
  base_low := u16 (Z.land base 0xFFFF);
  base_mid := u8 (Z.land (Z.shiftr base 16) 0xFF);
  access := Z.lor (Z.lor ACCESS_PRESENT ACCESS_RING_0) ACCESS_TSS_AVAILABLE_64;
  limit_high_flags := u8 (Z.land (Z.shiftr limit 16) 0x0F);
  base_high := u8 (Z.land (Z.shiftr base 24) 0xFF);
|}.

Definition make_tss_descriptor_high (base : Z) : descriptor :=
  let base_high := u32 (Z.shiftr base 32) in {|
  limit_low := u16 (Z.land base_high 0xFFFF);
  base_low := u16 (Z.land (Z.shiftr base_high 16) 0xFFFF);
  base_mid := 0;
  access := 0;
  limit_high_flags := 0;
  base_high := 0;
|}.

(** The operand of [lgdt] and [lidt]. *)
Record table_pointer : Type := { limit : Z; base : Z }.

Record gdt_table : Type := { gdt_entries : list descriptor; gdt_pointer : table_pointer }.

Definition null_descriptor : descriptor := {| limit_low := 0; base_low := 0; base_mid := 0;
  access := 0; limit_high_flags := 0; base_high := 0 |}.

#[export] Instance descriptor_inhabited : Inhabited descriptor := {| inhabitant := null_descriptor |}.

Definition gdt_table_init : gdt_table :=
  {| gdt_entries := replicate 7 null_descriptor; gdt_pointer := {| limit := 0; base := 0 |} |}.

Definition set_gdt_entries l (t : gdt_table) : gdt_table :=
  {| gdt_entries := l; gdt_pointer := gdt_pointer t |}.
Definition set_gdt_pointer p (t : gdt_table) : gdt_table :=
  {| gdt_entries := gdt_entries t; gdt_pointer := p |}.

Definition write_gdt (i : Z) (d : descriptor) : kernel gdt_table unit :=
  zoom gdt_entries set_gdt_entries (array_set i d).

Definition or_all (l : list Z) : Z := foldl Z.lor 0 l.

Definition gdt_init `{core_objects} : kernel gdt_table unit :=
  for_range 0 GDT_ENTRY_COUNT (fun i => write_gdt i (make_descriptor 0 0 0 0));;
  write_gdt 0 (make_descriptor 0 0 0 0);;
  write_gdt 1 (make_descriptor FLAT_BASE FLAT_LIMIT
    (or_all [ACCESS_PRESENT; ACCESS_RING_0; ACCESS_DESCRIPTOR; ACCESS_EXECUTABLE; ACCESS_READ_WRITE])
    (Z.lor FLAGS_GRANULARITY_4K FLAGS_64_BIT));;
  write_gdt 2 (make_descriptor FLAT_BASE FLAT_LIMIT
    (or_all [ACCESS_PRESENT; ACCESS_RING_0; ACCESS_DESCRIPTOR; ACCESS_READ_WRITE])
    (Z.lor FLAGS_GRANULARITY_4K FLAGS_32_BIT));;
  write_gdt 3 (make_descriptor FLAT_BASE FLAT_LIMIT
    (or_all [ACCESS_PRESENT; ACCESS_RING_3; ACCESS_DESCRIPTOR; ACCESS_READ_WRITE])
    (Z.lor FLAGS_GRANULARITY_4K FLAGS_32_BIT));;
  write_gdt 4 (make_descriptor FLAT_BASE FLAT_LIMIT
    (or_all [ACCESS_PRESENT; ACCESS_RING_3; ACCESS_DESCRIPTOR; ACCESS_EXECUTABLE; ACCESS_READ_WRITE])
    (Z.lor FLAGS_GRANULARITY_4K FLAGS_64_BIT));;
  write_gdt TSS_ENTRY_INDEX (make_tss_descriptor_low tss_address tss_limit);;
  write_gdt (TSS_ENTRY_INDEX + 1) (make_tss_descriptor_high tss_address);;
  modify (set_gdt_pointer {| limit := GDT_ENTRY_COUNT * 8 - 1; base := gdt_address |}).

Definition gdt_load (t : gdt_table) : kernel cpu unit :=
  execute (Lgdt (limit (gdt_pointer t)) (base (gdt_pointer t)) KERNEL_CODE_SELECTOR
    KERNEL_DATA_SELECTOR).

Definition load_task_register (selector : Z) : kernel cpu unit := execute (Ltr selector).

(** ** The interrupt gates *)

Definition IDT_ENTRY_COUNT : Z := 256.
Definition GATE_TYPE_INTERRUPT : Z := 0x8E.
Definition GATE_TYPE_TRAP : Z := 0x8F.
Definition GATE_TYPE_USER_TRAP : Z := 0xEF.

(** A handler is its address; 0 is the null pointer. *)
Record gate_spec : Type := { entry_point : Z; type_attributes : Z; gate_ist : Z }.

Definition gate_spec_init : gate_spec := {| entry_point := 0; type_attributes := 0; gate_ist := 0 |}.

#[export] Instance gate_spec_inhabited : Inhabited gate_spec := {| inhabitant := gate_spec_init |}.

(** [gate_table]: its array of gates. *)
Definition gate_table : Type := list gate_spec.

Definition gate_table_init : gate_table := replicate 256 gate_spec_init.

Definition set_gate (attributes vector entry ist : Z) : kernel gate_table unit :=
  array_set vector {| entry_point := entry; type_attributes := attributes; gate_ist := ist |}.

Definition set_interrupt_gate (vector entry ist : Z) : kernel gate_table unit :=
  set_gate GATE_TYPE_INTERRUPT vector entry ist.
Definition set_trap_gate (vector entry ist : Z) : kernel gate_table unit :=
  set_gate GATE_TYPE_TRAP vector entry ist.
Definition set_user_trap_gate (vector entry ist : Z) : kernel gate_table unit :=
  set_gate GATE_TYPE_USER_TRAP vector entry ist.

Record entry : Type := {
  offset_low : Z;
  selector : Z;
  entry_ist : Z;
  entry_type : Z;
  offset_mid : Z;
  offset_high : Z;
  entry_reserved : Z;
}.

Definition entry_init : entry := {| offset_low := 0; selector := 0; entry_ist := 0; entry_type := 0;
  offset_mid := 0; offset_high := 0; entry_reserved := 0 |}.

#[export] Instance entry_inhabited : Inhabited entry := {| inhabitant := entry_init |}.

Definition make_entry (spec : gate_spec) (code_selector : Z) : entry :=
  if entry_point spec =? 0 then entry_init
  else
    let address := entry_point spec in {|
    offset_low := u16 (Z.land address 0xFFFF);
    selector := code_selector;
    entry_ist := u8 (Z.land (gate_ist spec) 0x07);
    entry_type := type_attributes spec;
    offset_mid := u16 (Z.land (Z.shiftr address 16) 0xFFFF);
    offset_high := u32 (Z.land (Z.shiftr address 32) 0xFFFFFFFF);
    entry_reserved := 0;
  |}.

Record idt_table : Type := { idt_entries : list entry; idt_pointer : table_pointer }.

Definition idt_table_init : idt_table :=
  {| idt_entries := replicate 256 entry_init; idt_pointer := {| limit := 0; base := 0 |} |}.

Definition set_idt_entries l (t : idt_table) : idt_table :=
  {| idt_entries := l; idt_pointer := idt_pointer t |}.
Definition set_idt_pointer p (t : idt_table) : idt_table :=
  {| idt_entries := idt_entries t; idt_pointer := p |}.

Definition idt_init `{core_objects} (gates : gate_table) (code_selector : Z) : kernel idt_table unit :=
  for_range 0 IDT_ENTRY_COUNT (fun i =>
    spec ← observe gates (array_get i);
    zoom idt_entries set_idt_entries (array_set i (make_entry spec code_selector)));;
  modify (set_idt_pointer {| limit := u16 (IDT_ENTRY_COUNT * 16 - 1); base := idt_address |}).

Definition idt_load (t : idt_table) : kernel cpu unit :=
  execute (Lidt (limit (idt_pointer t)) (base (idt_pointer t))).
