(* ===== verification/Exceptions.v ===== *)
(** * Exceptions: [arch/x86_64/exceptions/exceptions.{hpp,cpp}]

    The exception vectors of the processor: the type of each, the gates that follow from it, and the
    dispatch of a trap frame.  Every path of the dispatch ends in a panic; a panic is its report, the
    format, the arguments and the registers that [KPANIC] prints.  The addresses of the assembly stubs
    are a parameter. *)

From S2P Require Import Prelude Containers Cpu Format Emit Descriptors.

Definition CPU_EXCEPTION_COUNT : Z := 32.

Inductive exception_gate : Type := INTERRUPT | TRAP.

Inductive exception_type : Type :=
| fault_exception_type
| debug_exception_type
| reserved_exception_type
| trap_exception_type
| nmi_exception_type
| double_fault_exception_type
| machine_check_exception_type.

#[export] Instance exception_type_inhabited : Inhabited exception_type :=
  {| inhabitant := fault_exception_type |}.

(** The static members of the types; a derived type has those of its base. *)
Definition interrupt_stack (t : exception_type) : Z :=
  match t with
  | nmi_exception_type => NMI
  | double_fault_exception_type => DOUBLE_FAULT
  | machine_check_exception_type => MACHINE_CHECK
  | _ => NONE
  end.

Definition gate (t : exception_type) : exception_gate :=
  match t with
  | trap_exception_type => TRAP
  | _ => INTERRUPT
  end.

(** [DOOM_OS_CPU_EXCEPTION_VECTORS]. *)
Definition CPU_EXCEPTION_VECTORS : list exception_type :=
  [ fault_exception_type; debug_exception_type; nmi_exception_type; trap_exception_type;
    trap_exception_type; fault_exception_type; fault_exception_type; fault_exception_type;
    double_fault_exception_type; fault_exception_type; fault_exception_type; fault_exception_type;
    fault_exception_type; fault_exception_type; fault_exception_type; reserved_exception_type;
    fault_exception_type; fault_exception_type; machine_check_exception_type; fault_exception_type;
    fault_exception_type; fault_exception_type; reserved_exception_type; reserved_exception_type;
    reserved_exception_type; reserved_exception_type; reserved_exception_type;
    reserved_exception_type; fault_exception_type; fault_exception_type; fault_exception_type;
    reserved_exception_type ].

Definition exception_descriptor_for_vector (vector : Z) : exception_type :=
  znth CPU_EXCEPTION_VECTORS vector.

Definition EXCEPTION_NAMES : list (list char) := map chars
  [ "#DE divide error"; "#DB debug"; "NMI interrupt"; "#BP breakpoint"; "#OF overflow";
    "#BR bound range exceeded"; "#UD invalid opcode"; "#NM device not available";
    "#DF double fault"; "coprocessor segment overrun"; "#TS invalid TSS";
    "#NP segment not present"; "#SS stack-segment fault"; "#GP general protection fault";
    "#PF page fault"; "reserved"; "#MF x87 floating-point exception"; "#AC alignment check";
    "#MC machine check"; "#XM SIMD floating-point exception"; "#VE virtualization exception";
    "#CP control protection exception"; "reserved"; "reserved"; "reserved"; "reserved";
    "reserved"; "reserved"; "#HV hypervisor injection exception";
    "#VC VMM communication exception"; "#SX security exception"; "reserved" ]%string.

Definition exception_name (vector : Z) : list char :=
  if vector <? CPU_EXCEPTION_COUNT then znth EXCEPTION_NAMES vector else chars "unknown exception".

Definition exception_has_error_code (vector : Z) : bool :=
  (vector =? 8) || (vector =? 10) || (vector =? 11) || (vector =? 12) || (vector =? 13) ||
  (vector =? 14) || (vector =? 17) || (vector =? 21) || (vector =? 29) || (vector =? 30).

(** ** Gates *)

(** [x86_64_exception_stub_table]. *)
Class exception_stubs : Type := { exception_stub : Z -> Z }.

Definition ist_for_vector (vector : Z) : Z := interrupt_stack (exception_descriptor_for_vector vector).

Definition describe_exception_gate `{exception_stubs} (vector : Z) : kernel gate_table unit :=
  match gate (exception_descriptor_for_vector vector) with
  | TRAP => set_trap_gate vector (exception_stub vector) (ist_for_vector vector)
  | INTERRUPT => set_interrupt_gate vector (exception_stub vector) (ist_for_vector vector)
  end.

Definition describe_gates `{exception_stubs} : kernel gate_table unit :=
  for_range 0 CPU_EXCEPTION_COUNT describe_exception_gate.

(** ** Trap frames *)

Record frame : Type := {
  r15 : Z; r14 : Z; r13 : Z; r12 : Z; r11 : Z; r10 : Z; r9 : Z; r8 : Z;
  rbp : Z; rdi : Z; rsi : Z; rdx : Z; rcx : Z; rbx : Z; rax : Z;
  vector : Z;
  error_code : Z;
  rip : Z; cs : Z; rflags : Z; frame_rsp : Z; ss : Z;
}.

(** What the processor answers when the handler reads its segment and control registers. *)
Record ambient : Type := {
  ambient_ds : Z; ambient_es : Z; ambient_fs : Z; ambient_gs : Z;
  ambient_cr0 : Z; ambient_cr2 : Z; ambient_cr3 : Z; ambient_cr4 : Z;
}.

(** A panic: the format, its arguments, and the registers, which are captured where the source
    uses [KPANIC] and given where it uses [KPANIC_WITH_FRAME]. *)
Record report : Type := {
  format : list char;
  arguments : list value;
  registers : option register_frame;
}.

(** [panic_frame_from]: the fields of [panic_register_frame], in their order. *)
Definition panic_frame_from (regs : ambient) (f : frame) : register_frame := [
  (chars "rax", rax f); (chars "rbx", rbx f); (chars "rcx", rcx f); (chars "rdx", rdx f);
  (chars "rsi", rsi f); (chars "rdi", rdi f); (chars "rbp", rbp f); (chars "rsp", frame_rsp f);
  (chars "r8", r8 f); (chars "r9", r9 f); (chars "r10", r10 f); (chars "r11", r11 f);
  (chars "r12", r12 f); (chars "r13", r13 f); (chars "r14", r14 f); (chars "r15", r15 f);
  (chars "rip", rip f); (chars "rflags", rflags f);
  (chars "cs", cs f); (chars "ds", ambient_ds regs); (chars "es", ambient_es regs);
  (chars "fs", ambient_fs regs); (chars "gs", ambient_gs regs); (chars "ss", ss f);
  (chars "cr0", ambient_cr0 regs); (chars "cr2", ambient_cr2 regs);
  (chars "cr3", ambient_cr3 regs); (chars "cr4", ambient_cr4 regs) ].

Definition PAGE_FAULT_VECTOR : Z := 14.

(** [decode_page_fault]: the fields of [page_fault_cause]. *)
Definition error_bit (error_code index : Z) : bool :=
  negb (Z.land error_code (u64 (Z.shiftl 1 index)) =? 0).

Definition decode_page_fault (error_code : Z) : value := VAggregate [
  (chars "protection_violation", VBool (error_bit error_code 0));
  (chars "write", VBool (error_bit error_code 1));
  (chars "user", VBool (error_bit error_code 2));
  (chars "reserved_bit", VBool (error_bit error_code 3));
  (chars "instruction_fetch", VBool (error_bit error_code 4));
  (chars "protection_key", VBool (error_bit error_code 5));
  (chars "shadow_stack", VBool (error_bit error_code 6)) ].

(** A [const char *] argument; its address is not printed. *)
Definition c_string (l : list char) : value := VCString 1 (Some (l ++ [NUL])).

Section Dispatch.
Context (captured : register_frame) (regs : ambient).

Definition panic_unhandled_exception (f : frame) : report :=
  let name := if vector f <? CPU_EXCEPTION_COUNT then znth EXCEPTION_NAMES (vector f)
              else chars "unknown exception" in
  let dump := panic_frame_from regs f in
  if vector f =? PAGE_FAULT_VECTOR then
    {| format := chars "[exception] {} address={:#018X} error={:#x} cause={}";
       arguments := [c_string name; VUnsigned (ambient_cr2 regs); VUnsigned (error_code f);
                     decode_page_fault (error_code f)];
       registers := Some dump |}
  else
    {| format := chars "[exception] {} vector={} error={:#018X}";
       arguments := [c_string name; VUnsigned (vector f); VUnsigned (error_code f)];
       registers := Some dump |}.

(** [validate_exception_frame]: the panic it ends in, if it does. *)
Definition validate_exception_frame (f : frame) : option report :=
  if CPU_EXCEPTION_COUNT <=? vector f then Some (panic_unhandled_exception f)
  else
    let v := u8 (vector f) in
    if negb (exception_has_error_code v) && negb (error_code f =? 0) then
      Some {| format := chars "[exception] malformed frame vector={} unexpected error={:#018X}";
              arguments := [VUnsigned v; VUnsigned (error_code f)];
              registers := Some captured |}
    else None.

Definition validate_handler_vector (f : frame) (expected : Z) : option report :=
  if negb (vector f =? expected) then
    Some {| format := chars "[exception] handler/vector mismatch expected={} actual={}";
            arguments := [VUnsigned expected; VUnsigned (vector f)];
            registers := Some captured |}
  else None.

Definition fatal_reason (t : exception_type) : list char :=
  match t with
  | nmi_exception_type => chars "non-maskable interrupt"
  | double_fault_exception_type => chars "double fault"
  | _ => chars "machine check"
  end.

(** [stack_for_exception_type]. *)
Definition stack_for_exception_type (interrupt_stack : Z) (stacks : stack_set) : stack :=
  if interrupt_stack =? NMI then nmi stacks
  else if interrupt_stack =? DOUBLE_FAULT then double_fault stacks
  else if interrupt_stack =? MACHINE_CHECK then machine_check stacks
  else kernel_stack stacks.

Definition fatal_report (t : exception_type) (stacks : stack_set) (f : frame) : report :=
  let fatal_stack := stack_for_exception_type (interrupt_stack t) stacks in
  {| format := chars "[exception] fatal {}: {} vector={} error={:#018X} stack=[{:#018X}, {:#018X}) size={}";
     arguments := [c_string (exception_name (u8 (vector f))); c_string (fatal_reason t);
                   VUnsigned (vector f); VUnsigned (error_code f); VUnsigned (bottom fatal_stack);
                   VUnsigned (top fatal_stack); VUnsigned (stack_size fatal_stack)];
     registers := Some (panic_frame_from regs f) |}.

(** [handle<Vector>] of a type. *)
Definition handle (t : exception_type) (expected : Z) (stacks : stack_set) (f : frame) : report :=
  match validate_handler_vector f expected with
  | Some r => r
  | None =>
      match t with
      | nmi_exception_type | double_fault_exception_type | machine_check_exception_type =>
          fatal_report t stacks f
      | _ => panic_unhandled_exception f
      end
  end.

(** [EXCEPTION_HANDLERS[vector]]: the handlers the source defines, which are weak symbols, so that
    the application may replace one; none is null. *)
Definition exception_handler (v : Z) : stack_set -> frame -> report :=
  handle (exception_descriptor_for_vector v) v.

(** [x86_64_exception_dispatch], on the stacks of [cpu::current()]. *)
Definition x86_64_exception_dispatch (stacks : stack_set) (f : option frame) : report :=
  match f with
  | None => {| format := chars "exception dispatch received null frame"; arguments := [];
               registers := Some captured |}
  | Some f =>
      match validate_exception_frame f with
      | Some r => r
      | None => exception_handler (u8 (vector f)) stacks f
      end
  end.
End Dispatch.

(** What is printed before the machine halts: [KPANIC] with a message alone passes it to [kpanic], and with
    arguments formats it. *)
Definition print_report (r : report) (file : text) (line : Z) (function : text) : kernel console unit :=
  match arguments r with
  | [] => kpanic (Some (format r ++ [NUL])) (registers r) file line function
  | args => kpanic_fmt (format r) args (registers r) file line function
  end.
