(* ===== verification/DescriptorsFacts.v ===== *)
(** * DescriptorsFacts: what the processor reads from the tables

    How the processor decodes a segment descriptor, the descriptor of the task state segment and an
    interrupt gate, what it does when an exception arrives, and the theorems that the tables the kernel
    writes decode to what they should.  The decoding is the documented format of the architecture. *)

From S2P Require Import Prelude Cpu Containers Format Emit Descriptors Exceptions.

(** ** Bit fields *)

Lemma land_ones_mod x n : 0 <= n -> Z.land x (Z.ones n) = x mod 2 ^ n.
Proof. intros. by apply Z.land_ones. Qed.

(** The [n] bits of [x] from bit [k]. *)
Definition field_of (x k n : Z) : Z := (x / 2 ^ k) mod 2 ^ n.

Lemma field_of_land x k n w : 0 <= k -> 0 <= n <= w -> wrap w (Z.land (Z.shiftr x k) (Z.ones n)) = field_of x k n.
Proof.
  intros Hk Hn. rewrite land_ones_mod, Z.shiftr_div_pow2 by lia. unfold field_of, wrap.
  apply Z.mod_small. pose proof (Z.mod_pos_bound (x / 2 ^ k) (2 ^ n) ltac:(by apply pow2_pos; lia)).
  pose proof (Z.pow_le_mono_r 2 n w ltac:(lia) ltac:(lia)). lia.
Qed.

(** Consecutive fields put together. *)
Lemma fields_join x a k : 0 <= x -> 0 <= a -> 0 <= k -> field_of x 0 a + field_of x a k * 2 ^ a = field_of x 0 (a + k).
Proof.
  intros Hx Ha Hk. unfold field_of. rewrite !Z.div_1_r. rewrite Z.pow_add_r by lia.
  pose proof (pow2_pos a Ha). pose proof (pow2_pos k Hk).
  rewrite Z.rem_mul_r by lia. lia.
Qed.

Lemma fields_join_at x b a c k n :
  0 <= x -> 0 <= b -> 0 <= a -> 0 <= k -> c = b + a -> n = a + k ->
  field_of x b a + field_of x c k * 2 ^ a = field_of x b n.
Proof.
  intros Hx Hb Ha Hk -> ->.
  pose proof (fields_join (x / 2 ^ b) a k) as Hj. premise Hj; [apply Z.div_pos; [done | by apply pow2_pos]|].
  specialize (Hj Ha Hk). unfold field_of in *. rewrite !Z.div_1_r in Hj.
  rewrite Z.pow_add_r, <- Z.div_div by (try apply pow2_pos; lia). exact Hj.
Qed.

Lemma field_of_whole x n : in_width n x -> field_of x 0 n = x.
Proof. intros [H0 Hlt]. unfold field_of. rewrite Z.div_1_r. by apply Z.mod_small. Qed.

(** ** Segment descriptors *)

(** The base and the limit, as the processor assembles them. *)
Definition segment_base (d : descriptor) : Z :=
  base_low d + (base_mid d + base_high d * 2 ^ 8) * 2 ^ 16.
Definition segment_limit (d : descriptor) : Z :=
  limit_low d + field_of (limit_high_flags d) 0 4 * 2 ^ 16.

Definition segment_present (d : descriptor) : bool := Z.testbit (access d) 7.
Definition segment_level (d : descriptor) : Z := field_of (access d) 5 2.
Definition segment_executable (d : descriptor) : bool := Z.testbit (access d) 3.
Definition segment_writable (d : descriptor) : bool := Z.testbit (access d) 1.
Definition segment_is_memory (d : descriptor) : bool := Z.testbit (access d) 4.
Definition segment_long (d : descriptor) : bool := Z.testbit (limit_high_flags d) 5.
Definition segment_pages (d : descriptor) : bool := Z.testbit (limit_high_flags d) 7.

(** The base of a system descriptor spans two entries. *)
Definition system_base (low high : descriptor) : Z :=
  segment_base low + (limit_low high + base_low high * 2 ^ 16) * 2 ^ 32.

Lemma low_base_field b : 0 <= b ->
  u16 (Z.land b 0xFFFF) + (u8 (Z.land (Z.shiftr b 16) 0xFF) + u8 (Z.land (Z.shiftr b 24) 0xFF) * 2 ^ 8) * 2 ^ 16
  = field_of b 0 32.
Proof.
  intros Hb. change 0xFFFF with (Z.ones 16). change 0xFF with (Z.ones 8).
  rewrite <- (Z.shiftr_0_r b) at 1. unfold u16, u8. rewrite !field_of_land by lia.
  rewrite (fields_join_at b 16 8 24 8 16), (fields_join_at b 0 16 16 16 32) by lia. done.
Qed.

Lemma make_descriptor_base base limit acc flags :
  in_width 32 base -> segment_base (make_descriptor base limit acc flags) = base.
Proof.
  intros Hb. unfold segment_base, make_descriptor. cbn [base_low base_mid base_high].
  rewrite low_base_field by apply Hb. by apply field_of_whole.
Qed.

(** The two halves of the descriptor of the task state segment decode to its 64-bit base. *)
Lemma tss_descriptor_base base limit :
  in_width 64 base -> system_base (make_tss_descriptor_low base limit) (make_tss_descriptor_high base) = base.
Proof.
  intros Hb. assert (H0 : 0 <= base) by apply Hb. unfold system_base, segment_base.
  cbn [base_low base_mid base_high limit_low make_tss_descriptor_low make_tss_descriptor_high].
  rewrite low_base_field by done.
  change 0xFFFF with (Z.ones 16). set (h := u32 (Z.shiftr base 32)).
  assert (Hh : h = field_of base 32 32).
  { unfold h, u32, wrap, field_of. by rewrite Z.shiftr_div_pow2 by lia. }
  assert (0 <= h) by (rewrite Hh; apply Z.mod_pos_bound; lia).
  rewrite <- (Z.shiftr_0_r h) at 1. unfold u16. rewrite !field_of_land, (fields_join_at h 0 16 16 16 32) by lia.
  rewrite (field_of_whole h) by (unfold h; apply wrap_range; lia). rewrite Hh, (fields_join_at base 0 32 32 32 64) by lia.
  by apply field_of_whole.
Qed.

(** ** Interrupt gates *)

(** The handler's address, as the processor assembles it. *)
Definition gate_offset (e : entry) : Z := offset_low e + (offset_mid e + offset_high e * 2 ^ 16) * 2 ^ 16.
Definition gate_present (e : entry) : bool := Z.testbit (entry_type e) 7.
(** A trap gate leaves interrupts on. *)
Definition gate_masks (e : entry) : bool := negb (Z.testbit (entry_type e) 0).
Definition gate_stack (e : entry) : Z := field_of (entry_ist e) 0 3.

Lemma make_entry_offset spec sel :
  in_width 64 (entry_point spec) -> gate_offset (make_entry spec sel) = entry_point spec.
Proof.
  intros He. unfold make_entry. destruct (Z.eqb_spec (entry_point spec) 0) as [->|Hne]; [done|].
  assert (0 <= entry_point spec) by apply He. unfold gate_offset. cbn [offset_low offset_mid offset_high].
  change 0xFFFFFFFF with (Z.ones 32). change 0xFFFF with (Z.ones 16).
  rewrite <- (Z.shiftr_0_r (entry_point spec)) at 1. unfold u16, u32. rewrite !field_of_land by lia.
  rewrite (fields_join_at _ 16 16 32 32 48), (fields_join_at _ 0 16 16 48 64) by lia. by apply field_of_whole.
Qed.

Lemma make_entry_stack spec sel :
  0 <= gate_ist spec < 8 -> entry_point spec <> 0 -> gate_stack (make_entry spec sel) = gate_ist spec.
Proof.
  intros Hi Hne. unfold make_entry. rewrite (proj2 (Z.eqb_neq _ _) Hne). unfold gate_stack. cbn [entry_ist].
  change 0x07 with (Z.ones 3). rewrite <- (Z.shiftr_0_r (gate_ist spec)) at 1. unfold u8.
  rewrite field_of_land by lia. rewrite (field_of_whole (gate_ist spec)) by (split; lia).
  apply field_of_whole. split; lia.
Qed.

(** What the processor does with an exception: the handler it calls, the stack it switches to ([None]:
    it stays on the current one), and whether it masks interrupts; [None] if the gate is not present. *)
Record delivery : Type := { runs : Z; on_stack : option Z; in_segment : Z; masks : bool }.

Definition deliver (idt : list entry) (task : segment) (vector : Z) : option delivery :=
  let e := znth idt vector in
  if gate_present e then
    Some {| runs := gate_offset e;
            on_stack := if gate_stack e =? 0 then None else Some (znth (ist task) (gate_stack e - 1));
            in_segment := selector e;
            masks := gate_masks e |}
  else None.

(** ** The operations *)

Lemma wp_stacks_init `{core_objects} (Q : unit -> stack_set -> Prop) s :
  Q tt {|
    kernel_stack := describe_stack kernel_storage CORE_STACK_SIZE;
    double_fault := describe_stack double_fault_storage CORE_STACK_SIZE;
    nmi := describe_stack nmi_storage CORE_STACK_SIZE;
    machine_check := describe_stack machine_check_storage CORE_STACK_SIZE |} ->
  wp stacks_init Q s.
Proof. by intros. Qed.

(** The segment holds the configuration, whatever it held before; no port is allowed. *)
Definition segment_of (c : stack_config) : segment := {|
  reserved0 := 0; rsp := [rsp0 c; rsp1 c; rsp2 c]; reserved1 := 0;
  ist := [ist1 c; ist2 c; ist3 c; ist4 c; ist5 c; ist6 c; ist7 c];
  reserved2 := 0; reserved3 := 0; io_map_base := IO_MAP_DISABLED_BASE |}.

Definition segment_shape (s : segment) : Prop := zlen (rsp s) = 3 /\ zlen (ist s) = 7.

Lemma wp_tss_init c (Q : unit -> segment -> Prop) s :
  segment_shape s -> Q tt (segment_of c) -> wp (tss_init c) Q s.
Proof.
  destruct s as [z0 r z1 i z2 z3 z4]. intros [Hr Hi] HQ. unfold zlen in *. cbn [rsp ist] in *.
  destruct r as [|? [|? [|? [|]]]]; try (cbn in Hr; lia).
  destruct i as [|? [|? [|? [|? [|? [|? [|? [|]]]]]]]]; try (cbn in Hi; lia).
  exact HQ.
Qed.

Definition gdt_of `{core_objects} : gdt_table := {|
  gdt_entries := [
    null_descriptor;
    make_descriptor FLAT_BASE FLAT_LIMIT 0x9A 0xA0;
    make_descriptor FLAT_BASE FLAT_LIMIT 0x92 0xC0;
    make_descriptor FLAT_BASE FLAT_LIMIT 0xF2 0xC0;
    make_descriptor FLAT_BASE FLAT_LIMIT 0xFA 0xA0;
    make_tss_descriptor_low tss_address tss_limit;
    make_tss_descriptor_high tss_address ];
  gdt_pointer := {| limit := 55; base := gdt_address |} |}.

Lemma wp_gdt_init `{core_objects} (Q : unit -> gdt_table -> Prop) t :
  zlen (gdt_entries t) = GDT_ENTRY_COUNT -> Q tt gdt_of -> wp gdt_init Q t.
Proof.
  destruct t as [l p]. unfold zlen, GDT_ENTRY_COUNT. cbn [gdt_entries]. intros Hl HQ.
  destruct l as [|? [|? [|? [|? [|? [|? [|? [|]]]]]]]]; try (cbn in Hl; lia). exact HQ.
Qed.

Definition gate_attributes (t : exception_type) : Z :=
  match gate t with TRAP => GATE_TYPE_TRAP | INTERRUPT => GATE_TYPE_INTERRUPT end.

(** The gate of a vector. *)
Definition gate_of `{exception_stubs} (v : Z) : gate_spec := {|
  entry_point := exception_stub v;
  type_attributes := gate_attributes (exception_descriptor_for_vector v);
  gate_ist := interrupt_stack (exception_descriptor_for_vector v) |}.

Definition gates_described `{exception_stubs} (before gates : gate_table) : Prop :=
  zlen gates = IDT_ENTRY_COUNT /\
  forall v, 0 <= v < IDT_ENTRY_COUNT ->
    znth gates v = if v <? CPU_EXCEPTION_COUNT then gate_of v else znth before v.

Lemma wp_describe_gates `{exception_stubs} (Q : unit -> gate_table -> Prop) g :
  zlen g = IDT_ENTRY_COUNT -> (forall g', gates_described g g' -> Q tt g') -> wp describe_gates Q g.
Proof.
  intros Hg HQ. unfold IDT_ENTRY_COUNT, CPU_EXCEPTION_COUNT in *.
  apply (wp_for_range (fun i g' => zlen g' = 256 /\
    forall v, 0 <= v < 256 -> znth g' v = if v <? i then gate_of v else znth g v)).
  - split; [done|]. intros v Hv. by rewrite (proj2 (Z.ltb_ge _ _)) by lia.
  - intros i g' Hi [Hlen Hg']. change CPU_EXCEPTION_COUNT with 32 in *.
    assert (Hstep : wp (describe_exception_gate i) (fun _ => eq (zset g' i (gate_of i))) g').
    { unfold describe_exception_gate, set_trap_gate, set_interrupt_gate, set_gate.
      destruct (gate (exception_descriptor_for_vector i)) eqn:E; (apply wp_array_set; [lia|]);
        unfold gate_of, gate_attributes; by rewrite E. }
    eapply wp_mono; [exact Hstep|]. intros _ ? <-. split; [by autorewrite with arrays|].
    intros v Hv. rewrite znth_zset by lia. rewrite Hg' by done. destruct_comparisons; try lia; congruence.
  - intros g' [Hlen Hg']. apply HQ. split; [done|]. exact Hg'.
Qed.

Lemma wp_idt_init `{core_objects} gates sel (Q : unit -> idt_table -> Prop) t :
  zlen gates = IDT_ENTRY_COUNT -> zlen (idt_entries t) = IDT_ENTRY_COUNT ->
  (forall t', zlen (idt_entries t') = IDT_ENTRY_COUNT ->
    (forall v, 0 <= v < IDT_ENTRY_COUNT -> znth (idt_entries t') v = make_entry (znth gates v) sel) ->
    idt_pointer t' = {| limit := 4095; base := idt_address |} -> Q tt t') ->
  wp (idt_init gates sel) Q t.
Proof.
  intros Hg Ht HQ. unfold IDT_ENTRY_COUNT in *. apply wp_bind.
  apply (wp_for_range (fun i t' => zlen (idt_entries t') = 256 /\
    forall v, 0 <= v < i -> znth (idt_entries t') v = make_entry (znth gates v) sel)).
  - split; [done|]. lia.
  - intros i t' Hi [Hlen Hd]. change IDT_ENTRY_COUNT with 256 in *. apply wp_bind, wp_observe, wp_array_get; [lia|].
    apply wp_zoom, wp_array_set; [lia|]. cbn [set_idt_entries idt_entries]. split; [by autorewrite with arrays|].
    intros v Hv. rewrite znth_zset by lia. destruct_comparisons; [congruence | apply Hd; lia].
  - intros t' [Hlen Hd]. apply wp_modify, HQ; [done | exact Hd | done].
Qed.

(** ** Properties *)

(** A present, writable or readable memory segment that covers the address space. *)
Definition flat_segment (d : descriptor) (level : Z) (executable long : bool) : Prop :=
  segment_present d = true /\ segment_is_memory d = true /\ segment_writable d = true /\
  segment_base d = 0 /\ segment_limit d = FLAT_LIMIT /\ segment_pages d = true /\
  segment_level d = level /\ segment_executable d = executable /\ segment_long d = long.

(** The entry a selector names. *)
Definition selected (t : gdt_table) (selector : Z) : descriptor := znth (gdt_entries t) (Z.shiftr selector 3).

(** The descriptor table: each selector names a flat segment of its privilege level, code segments being
    64-bit ones, and the selector of the task names a descriptor that decodes to the address and the size
    of the task state segment; the table that is loaded is this one. *)
Theorem gdt_init_correct `{core_objects} t :
  zlen (gdt_entries t) = GDT_ENTRY_COUNT -> in_width 64 tss_address ->
  wp gdt_init (fun _ t' =>
    flat_segment (selected t' KERNEL_CODE_SELECTOR) 0 true true /\
    flat_segment (selected t' KERNEL_DATA_SELECTOR) 0 false false /\
    flat_segment (selected t' USER_DATA_SELECTOR) 3 false false /\
    flat_segment (selected t' USER_CODE_SELECTOR) 3 true true /\
    segment_present (selected t' 0) = false /\
    (let low := selected t' TSS_SELECTOR in
     segment_present low = true /\ segment_is_memory low = false /\ field_of (access low) 0 4 = 9 /\
     segment_level low = 0 /\
     system_base low (selected t' (TSS_SELECTOR + 8)) = tss_address /\
     segment_limit low + 1 = SIZEOF_SEGMENT) /\
    limit (gdt_pointer t') + 1 = 8 * zlen (gdt_entries t') /\ base (gdt_pointer t') = gdt_address) t.
Proof.
  intros Ht Htss. apply wp_gdt_init; [done|].
  do 4 (split; [by repeat split|]). split; [done|]. split; [|done].
  cbn zeta. do 4 (split; [done|]). split; [|done]. by apply tss_descriptor_base.
Qed.

(** A gate decodes to what was set: the handler, the stack, whether it is a trap; the gate of a vector
    without a handler is not present. *)
Theorem make_entry_correct spec sel :
  in_width 64 (entry_point spec) -> 0 <= gate_ist spec < 8 ->
  let e := make_entry spec sel in
  gate_offset e = entry_point spec /\
  if entry_point spec =? 0 then gate_present e = false
  else gate_stack e = gate_ist spec /\ selector e = sel /\ entry_type e = type_attributes spec.
Proof.
  intros He Hi. cbn zeta. split; [by apply make_entry_offset|].
  destruct (Z.eqb_spec (entry_point spec) 0) as [E|E].
  - unfold make_entry. by rewrite E.
  - split; [by apply make_entry_stack|]. unfold make_entry. by rewrite (proj2 (Z.eqb_neq _ _) E).
Qed.

(** ** The properties at work *)

#[local] Instance example_objects : core_objects := {|
  kernel_storage := 0xffffffff80010000; double_fault_storage := 0xffffffff80014000;
  nmi_storage := 0xffffffff80018000; machine_check_storage := 0xffffffff8001c000;
  tss_address := 0xffffffff80123456; gdt_address := 0xffffffff80124000; idt_address := 0xffffffff80125000 |}.

Lemma gdt_init_correct_witness :
  wp gdt_init (fun _ t' => system_base (selected t' TSS_SELECTOR) (selected t' (TSS_SELECTOR + 8))
    = 0xffffffff80123456) gdt_table_init.
Proof.
  eapply wp_mono; [apply (gdt_init_correct gdt_table_init); by vm_compute|].
  intros _ t' (_ & _ & _ & _ & _ & (_ & _ & _ & _ & Hb & _) & _). exact Hb.
Defined.

Lemma make_entry_correct_witness :
  gate_offset (make_entry {| entry_point := 0xffffffff80001234; type_attributes := GATE_TYPE_TRAP; gate_ist := 3 |} 8)
    = 0xffffffff80001234.
Proof.
  apply (make_entry_correct {| entry_point := 0xffffffff80001234; type_attributes := GATE_TYPE_TRAP; gate_ist := 3 |} 8);
    by vm_compute.
Defined.
