(* ===== verification/PanicFacts.v ===== *)
(** * PanicFacts: what a panic prints

    The report of a panic as text, and the theorems that [kpanic_fmt] prints it and that the dispatch of
    a trap frame ends in the report of its cause. *)

From S2P Require Import Prelude Bits Containers Cpu Format Emit FormatFacts Descriptors Exceptions.

#[local] Abbreviation take := firstn.

(** ** The segments of a concrete format *)

Fixpoint segments (fuel : nat) (fmt : list char) (offset : Z) : option (list FormatFacts.segment) :=
  match fuel with
  | O => None
  | S fuel =>
      if offset =? zlen fmt then Some []
      else if zlen fmt <? offset then None
      else
        let c := znth fmt offset in
        let twice := (offset + 1 <? zlen fmt) && (znth fmt (offset + 1) =? c) in
        if c =? chr "{" then
          if twice then cons (Literal (chr "{")) <$> segments fuel fmt (offset + 2)
          else
            let field := parse_field_at fmt offset in
            if field_valid field then
              cons (Field (field_spec field)) <$> segments fuel fmt (offset + field_length field)
            else None
        else if c =? chr "}" then
          if twice then cons (Literal (chr "}")) <$> segments fuel fmt (offset + 2) else None
        else cons (Literal c) <$> segments fuel fmt (offset + 1)
  end.

Lemma segments_denotes fuel fmt offset l :
  0 <= offset -> segments fuel fmt offset = Some l -> denotes fmt offset l.
Proof.
  revert offset l. induction fuel as [|fuel IH]; intros offset l H0 Hl; cbn [segments] in Hl; [done|].
  destruct (Z.eqb_spec offset (zlen fmt)) as [E|E]; [injection Hl as <-; by apply denotes_end|].
  destruct (Z.ltb_spec (zlen fmt) offset); [done|].
  destruct (_ && _) eqn:Et.
  - apply andb_true_iff in Et as [Hn Ed]. apply Z.ltb_lt in Hn. apply Z.eqb_eq in Ed.
    destruct (Z.eqb_spec (znth fmt offset) (chr "{")) as [Eo|Eo];
      [|destruct (Z.eqb_spec (znth fmt offset) (chr "}")) as [Ec|Ec]];
      apply fmap_Some in Hl as (l' & Hl & ->).
    + apply denotes_open; [lia | lia | done | congruence | apply IH; [lia | done]].
    + apply denotes_close; [lia | lia | done | congruence | apply IH; [lia | done]].
    + apply denotes_plain; [lia | done | done | apply IH; [lia | done]].
  - destruct (Z.eqb_spec (znth fmt offset) (chr "{")) as [Eo|Eo];
      [|destruct (Z.eqb_spec (znth fmt offset) (chr "}")) as [Ec|Ec]; [done|]].
    + destruct (field_valid _) eqn:Ev; [|done]. apply fmap_Some in Hl as (l' & Hl & ->).
      apply denotes_parsed; [lia | done |].
      apply IH; [|done]. pose proof (parse_field_bounds fmt offset H0 Ev) as [Hb _]. lia.
    + apply fmap_Some in Hl as (l' & Hl & ->). apply denotes_plain; [lia | done | done | apply IH; [lia | done]].
Qed.

(** The text a call of [KPRINT] prints: [None] if it does not compile. *)
Definition kprint_text (fmt : list char) (args : list value) : option (list char) :=
  l ← segments (S (length fmt)) fmt 0; render l args.

Lemma outputs_text fmt args out :
  kprint_text fmt args = Some out -> Forall typed args -> outputs (kprint_ct fmt args) out.
Proof.
  intros Ht Hty. apply bind_Some in Ht as (l & Hl & Hr).
  apply (outputs_kprint fmt l); [by eapply segments_denotes | done | done].
Qed.

Lemma outputs_line fmt args out :
  kprint_text fmt args = Some out -> Forall typed args -> outputs (kprintln_ct fmt args) (out ++ [10]).
Proof. intros Ht Hty. apply outputs_seq; [by apply outputs_text | apply outputs_char]. Qed.

(** ** The report of a panic *)

(** A C string without its terminator. *)
Definition string_arg (l : list char) : Prop := Forall (.≠ NUL) l /\ zlen l + 1 < 2 ^ 63.

(** A word as [{:#018X}] prints it: 16 digits after the prefix. *)
Definition word_text (v : Z) : list char :=
  chars "0x" ++ filling (chr "0") (16 - zlen (hex_text true v)) ++ hex_text true v.

(** A name in a column of 6. *)
Definition name_text (name : list char) : list char := name ++ filling (chr " ") (6 - zlen name).

(** The registers, three on a line; [column] counts the registers so far. *)
Fixpoint registers_text (column : Z) (r : register_frame) : list char :=
  match r with
  | [] => if column mod REGISTERS_PER_LINE =? 0 then [] else [10]
  | (name, v) :: rest =>
      chars "  " ++ name_text name ++ chars " " ++ word_text v ++
      (if (column + 1) mod REGISTERS_PER_LINE =? 0 then [10] else []) ++
      registers_text (column + 1) rest
  end.

Definition number (n : Z) : list char := (if n <? 0 then chars "-" else []) ++ decimal_text (Z.abs n).

Definition panic_text (message : list char) (frame : option register_frame) (file : list char)
    (line : Z) (function : list char) : list char :=
  PANIC_PREFIX ++ chars " " ++ message ++ [10] ++
  PANIC_PREFIX ++ chars " at " ++ file ++ chars ":" ++ number line ++ chars " in " ++ function ++ [10] ++
  (match frame with None => [] | Some r => registers_text 0 r end) ++
  PANIC_PREFIX ++ chars " halt" ++ [10].

Lemma pad_unpadded Spec p l numeric : has_width Spec = false -> pad Spec p l numeric = p ++ l.
Proof.
  intros Hw. unfold pad, gap. rewrite Hw. replace (Z.max 0 (0 - zlen (p ++ l))) with 0 by (unfold zlen; lia).
  unfold filling. destruct (alignment Spec numeric); try destruct (numeric && zero_pad Spec);
    cbn; by rewrite ?app_nil_r.
Qed.

(** *** Rendering a concrete format, field by field *)

Lemma render_end : render [] [] = Some [].
Proof. done. Qed.

Lemma render_literal c l args out : render l args = Some out -> render (Literal c :: l) args = Some (c :: out).
Proof. intros H. cbn [render]. by rewrite H. Qed.

Lemma render_field spec l v args t out :
  value_text spec v = Some t -> render l args = Some out -> render (Field spec :: l) (v :: args) = Some (t ++ out).
Proof. intros Ht H. cbn [render]. by rewrite Ht; cbn [mbind option_bind]; rewrite H. Qed.

(** The texts of the arguments that panics have. *)
Lemma string_text l : string_arg l -> value_text default_format_spec (VCString 1 (Some (l ++ [NUL]))) = Some l.
Proof.
  intros [Hl _]. transitivity (text_field default_format_spec (cstring (l ++ [NUL]))); [done|].
  rewrite cstring_app by done. unfold text_field. by rewrite pad_unpadded.
Qed.

Lemma number_text_default n : value_text default_format_spec (VSigned n) = Some (number n).
Proof.
  transitivity (decimal_field default_format_spec (n <? 0) (Z.abs n)); [done|].
  unfold decimal_field. cbn [has_precision alternate default_format_spec orb]. by rewrite pad_unpadded.
Qed.

Lemma unsigned_text n : 0 <= n -> value_text default_format_spec (VUnsigned n) = Some (decimal_text n).
Proof.
  intros Hn. transitivity (Some (number n)); [apply number_text_default|]. unfold number.
  rewrite (proj2 (Z.ltb_ge _ _)) by lia. by rewrite Z.abs_eq.
Qed.

Ltac render_fields :=
  unfold kprint_text;
  match goal with |- context [segments ?n ?f ?o] =>
    let v := eval vm_compute in (segments n f o) in change (segments n f o) with v end;
  cbn [mbind option_bind];
  repeat first [apply render_literal | eapply render_field | exact render_end].

Definition name_spec : format_spec := with_width 6 (with_align LEFT default_format_spec).
Definition word_spec : format_spec :=
  with_presentation HEX_UPPER (with_width 18 (with_zero_pad (with_alternate (with_align RIGHT default_format_spec)))).
Definition hex_spec : format_spec := with_presentation HEX_LOWER (with_alternate default_format_spec).

Lemma filling_max c n : filling c (Z.max 0 n) = filling c n.
Proof. unfold filling. f_equal. lia. Qed.

Lemma view_text l : value_text name_spec (VView l) = Some (name_text l).
Proof.
  transitivity (Some (l ++ filling (chr " ") (Z.max 0 (6 - zlen l)))); [done|]. by rewrite filling_max.
Qed.

Lemma word_text_field v : in_width 64 v -> value_text word_spec (VUnsigned v) = Some (word_text v).
Proof.
  intros Hv. transitivity (Some (chars "0x" ++ filling (chr "0") (gap word_spec (chars "0x" ++ hex_text true (u64 v))) ++
    hex_text true (u64 v))); [done|].
  unfold gap, u64. rewrite filling_max, wrap_small by done. unfold word_text.
  replace (16 - zlen (hex_text true v)) with (18 - zlen (chars "0x" ++ hex_text true v)); [done|].
  rewrite zlen_app. change (zlen (chars "0x")) with 2. lia.
Qed.

Lemma hex_text_field v : in_width 64 v ->
  value_text hex_spec (VUnsigned v) = Some (chars "0x" ++ hex_text false v).
Proof.
  intros Hv. transitivity (Some (pad hex_spec (chars "0x") (hex_text false (u64 v)) true)); [done|].
  rewrite pad_unpadded by done. unfold u64. by rewrite wrap_small.
Qed.

Create HintDb fields discriminated.
#[export] Hint Extern 10 (value_text _ (VSigned _) = _) => apply number_text_default : fields.
#[export] Hint Resolve string_text unsigned_text view_text word_text_field hex_text_field : fields.

(** ** The registers *)

Definition register_ok (r : list char * Z) : Prop := zlen (fst r) < 2 ^ 63 /\ in_width 64 (snd r).

Lemma register_text name v :
  in_width 64 v ->
  kprint_text (chars "  {:<6} {:#018X}") [VView name; VUnsigned v]
    = Some (chars "  " ++ name_text name ++ chars " " ++ word_text v).
Proof.
  intros Hv. etransitivity; [render_fields; [apply view_text | by apply word_text_field]|].
  by rewrite app_nil_r.
Qed.

Lemma typed_string l : string_arg l -> typed (VCString 1 (Some (l ++ [NUL]))).
Proof.
  intros [Hl Hlen]. split; [lia|]. unfold terminated. rewrite cstring_app by done.
  autorewrite with arrays. lia.
Qed.

Lemma outputs_registers r :
  Forall register_ok r -> outputs (dump_panic_registers r) (registers_text 0 r).
Proof.
  intros Hr. unfold dump_panic_registers.
  assert (Hgen : forall column, outputs (column ← dump_fields column r;
    when (negb (column mod REGISTERS_PER_LINE =? 0)) (emit_char 10)) (registers_text column r)); [|apply Hgen].
  induction Hr as [|[name v] r [Hn Hv] _ IH]; intros column.
  - intros c. apply wp_bind, wp_ret. cbn [registers_text]. destruct (_ =? 0); [apply outputs_ret | apply outputs_char].
  - cbn [fst snd] in *. cbn [registers_text].
    assert (Hseq : outputs (kprint_ct (chars "  {:<6} {:#018X}") [VView name; VUnsigned v];;
      when ((column + 1) mod REGISTERS_PER_LINE =? 0) (emit_char 10);;
      (column ← dump_fields (column + 1) r; when (negb (column mod REGISTERS_PER_LINE =? 0)) (emit_char 10)))
      ((chars "  " ++ name_text name ++ chars " " ++ word_text v) ++
       (if (column + 1) mod REGISTERS_PER_LINE =? 0 then [10] else []) ++ registers_text (column + 1) r)).
    { apply outputs_seq; [apply outputs_text; [by apply register_text|]|].
      { by repeat constructor; try apply Hv. }
      apply outputs_seq; [destruct (_ =? 0); [apply outputs_char | apply outputs_ret] | apply IH]. }
    rewrite <- !app_assoc in Hseq. intros c. specialize (Hseq c). unfold wp, mbind, kernel_bind in *.
    cbn [dump_fields]. unfold mbind, kernel_bind.
    destruct (kprint_ct _ _ c) as [[[] c1]| | |]; [|done..]. by destruct (when _ _ c1) as [[[] c2]| | |].
Qed.

(** ** The report *)

Lemma outputs_c_string l : string_arg l -> outputs (emit_c_string (Some (l ++ [NUL]))) l.
Proof.
  intros [Hl Hlen]. assert (Hc : cstring (l ++ [NUL]) = l) by (by apply cstring_app).
  apply (outputs_local _ _ _ (fun n => n = zlen l)).
  - intros c. apply wp_c_string_length; [|by rewrite Hc].
    unfold terminated. rewrite Hc. autorewrite with arrays. lia.
  - intros n ->. pose proof (outputs_write (l ++ [NUL]) (zlen l)) as Ho.
    rewrite take_app_length' in Ho by (unfold zlen; lia). apply Ho. autorewrite with arrays. unfold zlen. lia.
Qed.

Lemma prefix_arg : string_arg PANIC_PREFIX.
Proof. split; [by repeat constructor | by vm_compute]. Qed.

Lemma outputs_kpanic file line function frame :
  string_arg file -> string_arg function -> - 2 ^ 63 <= line < 2 ^ 63 ->
  (forall r, frame = Some r -> Forall register_ok r) ->
  outputs (kpanic None frame (Some (file ++ [NUL])) line (Some (function ++ [NUL])))
    (PANIC_PREFIX ++ chars " at " ++ file ++ chars ":" ++ number line ++ chars " in " ++ function ++ [10] ++
     (match frame with None => [] | Some r => registers_text 0 r end) ++ PANIC_PREFIX ++ chars " halt" ++ [10]).
Proof.
  intros Hfile Hfun Hline Hr.
  match goal with |- outputs _ ?o => replace o with ([] ++ ((PANIC_PREFIX ++ chars " at " ++ file ++ chars ":" ++ number line ++ chars " in " ++
    function) ++ [10]) ++ (match frame with None => [] | Some r => registers_text 0 r end) ++
    ((PANIC_PREFIX ++ chars " halt") ++ [10])) by (by rewrite <- !app_assoc) end.
  apply outputs_seq; [apply outputs_ret|]. apply outputs_seq; [|apply outputs_seq].
  - apply outputs_line.
    + etransitivity; [render_fields; eauto using prefix_arg with nocore fields|]. rewrite app_nil_r. reflexivity.
    + repeat (apply Forall_cons; split); try apply Forall_nil; auto using typed_string, prefix_arg.
  - destruct frame as [r|]; [by apply outputs_registers, Hr | apply outputs_ret].
  - apply outputs_line; [etransitivity; [render_fields; eauto using prefix_arg with nocore fields|reflexivity]|].
    apply Forall_cons; split; [apply typed_string, prefix_arg | done].
Qed.

Lemma outputs_kpanic_fmt fmt args message frame file line function :
  kprint_text fmt args = Some message -> Forall typed args ->
  string_arg file -> string_arg function -> - 2 ^ 63 <= line < 2 ^ 63 ->
  (forall r, frame = Some r -> Forall register_ok r) ->
  outputs (kpanic_fmt fmt args frame (Some (file ++ [NUL])) line (Some (function ++ [NUL])))
    (panic_text message frame file line function).
Proof.
  intros Hm Hty Hfile Hfun Hline Hr. unfold panic_text.
  replace (PANIC_PREFIX ++ chars " " ++ message ++ [10] ++ _) with
    (PANIC_PREFIX ++ [chr " "] ++ (message ++ [10]) ++ PANIC_PREFIX ++ chars " at " ++ file ++ chars ":" ++
     number line ++ chars " in " ++ function ++ [10] ++
     (match frame with None => [] | Some r => registers_text 0 r end) ++ PANIC_PREFIX ++ chars " halt" ++ [10])
    by (by rewrite <- !app_assoc).
  apply outputs_seq; [apply outputs_c_string, prefix_arg|]. apply outputs_seq; [apply outputs_char|].
  apply outputs_seq; [by apply outputs_line | by apply outputs_kpanic].
Qed.

(** ** Exceptions *)

(** The words of a frame and of the registers, as the processor delivers them. *)
Definition frame_words (f : frame) : list Z :=
  [r15 f; r14 f; r13 f; r12 f; r11 f; r10 f; r9 f; r8 f; rbp f; rdi f; rsi f; rdx f; rcx f; rbx f; rax f;
   vector f; error_code f; rip f; cs f; rflags f; frame_rsp f; ss f].
Definition ambient_words (a : ambient) : list Z :=
  [ambient_ds a; ambient_es a; ambient_fs a; ambient_gs a; ambient_cr0 a; ambient_cr2 a; ambient_cr3 a; ambient_cr4 a].

Lemma dump_ok regs f :
  Forall (in_width 64) (frame_words f) -> Forall (in_width 64) (ambient_words regs) ->
  Forall register_ok (panic_frame_from regs f).
Proof.
  unfold frame_words, ambient_words. intros Hf Ha.
  repeat match goal with H : Forall _ (_ :: _) |- _ => inversion_clear H end.
  unfold panic_frame_from. repeat (apply Forall_cons; split; [split; [by vm_compute | done]|]). done.
Qed.

(** A vector with an error code that does not push one. *)
Definition malformed (f : frame) : bool :=
  (vector f <? CPU_EXCEPTION_COUNT) && negb (exception_has_error_code (vector f)) && negb (error_code f =? 0).

Definition truth (b : bool) : list char := if b then chars "true" else chars "false".

(** The cause of a page fault, bit by bit of the error code. *)
Definition page_fault_text (e : Z) : list char :=
  chars "{protection_violation=" ++ truth (Z.testbit e 0) ++ chars ", write=" ++ truth (Z.testbit e 1) ++
  chars ", user=" ++ truth (Z.testbit e 2) ++ chars ", reserved_bit=" ++ truth (Z.testbit e 3) ++
  chars ", instruction_fetch=" ++ truth (Z.testbit e 4) ++ chars ", protection_key=" ++ truth (Z.testbit e 5) ++
  chars ", shadow_stack=" ++ truth (Z.testbit e 6) ++ chars "}".

Definition unhandled_text (regs : ambient) (f : frame) : list char :=
  chars "[exception] " ++ exception_name (vector f) ++
  if vector f =? PAGE_FAULT_VECTOR then
    chars " address=" ++ word_text (ambient_cr2 regs) ++ chars " error=0x" ++ hex_text false (error_code f) ++
    chars " cause=" ++ page_fault_text (error_code f)
  else chars " vector=" ++ decimal_text (vector f) ++ chars " error=" ++ word_text (error_code f).

Definition malformed_text (f : frame) : list char :=
  chars "[exception] malformed frame vector=" ++ decimal_text (vector f) ++ chars " unexpected error=" ++
  word_text (error_code f).

(** The report of a type that has a stack of its own. *)
Definition fatal_text (reason : list char) (s : stack) (f : frame) : list char :=
  chars "[exception] fatal " ++ exception_name (vector f) ++ chars ": " ++ reason ++ chars " vector=" ++
  decimal_text (vector f) ++ chars " error=" ++ word_text (error_code f) ++ chars " stack=[" ++
  word_text (bottom s) ++ chars ", " ++ word_text (top s) ++ chars ") size=" ++ decimal_text (stack_size s).

Definition exception_text (regs : ambient) (stacks : stack_set) (f : frame) : list char :=
  if malformed f then malformed_text f
  else if vector f =? 2 then fatal_text (chars "non-maskable interrupt") (nmi stacks) f
  else if vector f =? 8 then fatal_text (chars "double fault") (double_fault stacks) f
  else if vector f =? 18 then fatal_text (chars "machine check") (machine_check stacks) f
  else unhandled_text regs f.

Definition stack_words (s : stack) : Prop :=
  in_width 64 (bottom s) /\ in_width 64 (top s) /\ in_width 64 (stack_size s).

Lemma names_are_strings v : string_arg (exception_name v).
Proof.
  assert (Hall : Forall string_arg EXCEPTION_NAMES).
  { unfold EXCEPTION_NAMES. cbn [map].
    repeat (apply Forall_cons; split; [split; [by repeat constructor | by vm_compute]|]). done. }
  unfold exception_name. destruct (v <? CPU_EXCEPTION_COUNT); [|split; [by repeat constructor | by vm_compute]].
  unfold znth. destruct (decide (Z.to_nat v < length EXCEPTION_NAMES)%nat) as [Hv|Hv].
  - apply (Forall_lookup_1 _ _ (Z.to_nat v) _ Hall). by apply list_lookup_lookup_total_lt.
  - rewrite list_lookup_total_alt, lookup_ge_None_2 by lia. split; [constructor | by vm_compute].
Qed.

Section Reports.
Context (regs : ambient) (f : frame).
Hypothesis Hf : Forall (in_width 64) (frame_words f).
Hypothesis Hregs : Forall (in_width 64) (ambient_words regs).

Lemma vector_word : in_width 64 (vector f).
Proof. exact (Forall_lookup_1 _ _ 15 _ Hf eq_refl). Qed.

Lemma error_word : in_width 64 (error_code f).
Proof. exact (Forall_lookup_1 _ _ 16 _ Hf eq_refl). Qed.

Lemma cr2_word : in_width 64 (ambient_cr2 regs).
Proof. exact (Forall_lookup_1 _ _ 5 _ Hregs eq_refl). Qed.

Lemma typed_word v : in_width 64 v -> typed (VUnsigned v).
Proof. done. Qed.

Lemma truth_text b : value_text default_format_spec (VBool b) = Some (truth b).
Proof. by destruct b. Qed.

Lemma cause_text e : value_text default_format_spec (decode_page_fault e) = Some (page_fault_text e).
Proof.
  assert (Hbit : forall i, 0 <= i < 64 -> error_bit e i = Z.testbit e i).
  { intros i Hi. rewrite <- (land_bit_nonzero 64) by lia. unfold error_bit.
    assert (2 ^ i < 2 ^ 64) by (apply Z.pow_lt_mono_r; lia).
    rewrite Z.shiftl_1_l, bit_eq by lia. unfold u64. rewrite wrap_small; [done|]. split; [apply Z.pow_nonneg|]; lia. }
  unfold decode_page_fault. rewrite !Hbit by lia.
  unfold page_fault_text, truth.
  by destruct (Z.testbit e 0), (Z.testbit e 1), (Z.testbit e 2), (Z.testbit e 3), (Z.testbit e 4),
    (Z.testbit e 5), (Z.testbit e 6).
Qed.

#[local] Hint Resolve vector_word error_word cr2_word truth_text cause_text names_are_strings typed_string typed_word : fields.
#[local] Hint Extern 1 (0 <= _) => (match goal with H : in_width 64 ?x |- 0 <= ?x => exact (proj1 H) end) : fields.
#[local] Hint Extern 1 (0 <= vector _) => exact (proj1 vector_word) : fields.

Lemma typed_cause e : typed (decode_page_fault e).
Proof. repeat (split; [by vm_compute|split; [done|]]). done. Qed.
#[local] Hint Resolve typed_cause : fields.

Ltac report_fields :=
  split; [done|]; split; [etransitivity; [render_fields; eauto with nocore fields | rewrite ?app_nil_r; reflexivity]
         | repeat (apply Forall_cons; split; [auto with nocore fields|]); done].

(** The report [r] prints as [text]. *)
Definition reports (r : report) (text : list char) : Prop :=
  arguments r <> [] /\ kprint_text (format r) (arguments r) = Some text /\ Forall typed (arguments r).

Lemma unhandled_reports : reports (panic_unhandled_exception regs f) (unhandled_text regs f).
Proof.
  unfold panic_unhandled_exception, unhandled_text, reports.
  change (if vector f <? CPU_EXCEPTION_COUNT then znth EXCEPTION_NAMES (vector f) else chars "unknown exception")
    with (exception_name (vector f)).
  destruct (vector f =? PAGE_FAULT_VECTOR); cbn [format arguments]; unfold c_string; report_fields.
Qed.

Lemma malformed_reports captured :
  reports {| format := chars "[exception] malformed frame vector={} unexpected error={:#018X}";
             arguments := [VUnsigned (vector f); VUnsigned (error_code f)]; registers := Some captured |}
    (malformed_text f).
Proof. unfold reports, malformed_text. cbn [format arguments]. report_fields. Qed.

Lemma fatal_reports t stacks :
  u8 (vector f) = vector f ->
  let s := stack_for_exception_type (interrupt_stack t) stacks in stack_words s ->
  reports (fatal_report regs t stacks f) (fatal_text (fatal_reason t) s f).
Proof.
  cbn zeta. intros Hv (Hb & Ht & Hs). unfold reports, fatal_report, fatal_text. cbn [format arguments]. rewrite Hv.
  set (s := stack_for_exception_type _ _) in *.
  assert (Hreason : string_arg (fatal_reason t)).
  { by destruct t; (split; [by repeat constructor | by vm_compute]). }
  set (reason := fatal_reason t) in *. clearbody s reason. unfold c_string. report_fields.
Qed.
End Reports.

Lemma type_of_vector v :
  0 <= v < 32 ->
  (v = 2 /\ exception_descriptor_for_vector v = nmi_exception_type) \/
  (v = 8 /\ exception_descriptor_for_vector v = double_fault_exception_type) \/
  (v = 18 /\ exception_descriptor_for_vector v = machine_check_exception_type) \/
  (v <> 2 /\ v <> 8 /\ v <> 18 /\
   forall stacks captured regs f, validate_handler_vector captured f v = None ->
     exception_handler captured regs v stacks f = panic_unhandled_exception regs f).
Proof.
  intros Hv.
  assert (Hin : Forall (fun v =>
    match exception_descriptor_for_vector v with
    | nmi_exception_type => v = 2
    | double_fault_exception_type => v = 8
    | machine_check_exception_type => v = 18
    | _ => v <> 2 /\ v <> 8 /\ v <> 18
    end) (Z.of_nat <$> seq 0 32)) by (by repeat constructor).
  pose proof (Forall_lookup_1 _ _ (Z.to_nat v) v Hin) as Ht. premise Ht.
  { rewrite list_lookup_fmap, lookup_seq_lt by lia. cbn. f_equal. lia. }
  unfold exception_handler, handle. cbv beta in Ht.
  destruct (exception_descriptor_for_vector v);
    [do 3 right | do 3 right | do 3 right | do 3 right | by left | by right; left | by do 2 right; left];
    (destruct Ht as (? & ? & ?); split; [done|]; split; [done|]; split; [done|]; intros ? ? ? ? E; by rewrite E).
Qed.

Lemma dispatch_reports captured regs stacks f :
  Forall (in_width 64) (frame_words f) -> Forall (in_width 64) (ambient_words regs) ->
  Forall stack_words [nmi stacks; double_fault stacks; machine_check stacks] ->
  let r := x86_64_exception_dispatch captured regs stacks (Some f) in
  reports r (exception_text regs stacks f) /\
  registers r = Some (if malformed f then captured else panic_frame_from regs f).
Proof.
  intros Hf Ha Hs. cbn zeta. pose proof (vector_word f Hf) as Hv.
  unfold x86_64_exception_dispatch, validate_exception_frame, exception_text.
  destruct (Z.leb_spec CPU_EXCEPTION_COUNT (vector f)) as [Hbig|Hsmall]; unfold CPU_EXCEPTION_COUNT in *.
  { assert (malformed f = false) as ->.
    { unfold malformed, CPU_EXCEPTION_COUNT. by rewrite (proj2 (Z.ltb_ge _ _)). }
    rewrite !(proj2 (Z.eqb_neq _ _)) by lia. split; [by apply unhandled_reports|].
    unfold panic_unhandled_exception. by destruct (_ =? _). }
  assert (Hu : u8 (vector f) = vector f) by (apply wrap_small; unfold in_width in *; lia).
  assert (Hm : malformed f = negb (exception_has_error_code (vector f)) && negb (error_code f =? 0)).
  { unfold malformed, CPU_EXCEPTION_COUNT. by rewrite (proj2 (Z.ltb_lt _ _)). }
  rewrite Hu, Hm. destruct (_ && _); [split; [by apply malformed_reports | done]|].
  assert (Hok : validate_handler_vector captured f (vector f) = None).
  { unfold validate_handler_vector. by rewrite Z.eqb_refl. }
  inversion_clear Hs as [|? ? Hnmi Hs1]. inversion_clear Hs1 as [|? ? Hdf Hs2]. inversion_clear Hs2 as [|? ? Hmc _].
  destruct (type_of_vector (vector f) ltac:(unfold in_width in *; lia)) as [[E Ht]|[[E Ht]|[[E Ht]|(E1 & E2 & E3 & Ht)]]].
  - rewrite (proj2 (Z.eqb_eq _ _) E). unfold exception_handler, handle. rewrite Hok, Ht.
    split; [|done]. by apply (fatal_reports regs f Hf nmi_exception_type stacks).
  - rewrite (proj2 (Z.eqb_neq (vector f) 2)), (proj2 (Z.eqb_eq _ _) E) by lia.
    unfold exception_handler, handle. rewrite Hok, Ht.
    split; [|done]. by apply (fatal_reports regs f Hf double_fault_exception_type stacks).
  - rewrite (proj2 (Z.eqb_neq (vector f) 2)), (proj2 (Z.eqb_neq (vector f) 8)), (proj2 (Z.eqb_eq _ _) E) by lia.
    unfold exception_handler, handle. rewrite Hok, Ht.
    split; [|done]. by apply (fatal_reports regs f Hf machine_check_exception_type stacks).
  - rewrite !(proj2 (Z.eqb_neq _ _)) by done. rewrite Ht by done.
    split; [by apply unhandled_reports|]. unfold panic_unhandled_exception. by destruct (_ =? _).
Qed.

(** C7: The dispatch of any trap frame ends in the report of its cause, and the report prints: it names the
    vector and the error code, for a page fault the address and the cause, for a type with a stack of
    its own that stack, and dumps the registers of the frame; a frame with an error code that its vector
    does not push is reported as such, with the registers of the handler. *)
Theorem exception_dispatch_correct captured regs stacks f file line function :
  Forall (in_width 64) (frame_words f) -> Forall (in_width 64) (ambient_words regs) ->
  Forall stack_words [nmi stacks; double_fault stacks; machine_check stacks] ->
  Forall register_ok captured ->
  string_arg file -> string_arg function -> - 2 ^ 63 <= line < 2 ^ 63 ->
  outputs
    (print_report (x86_64_exception_dispatch captured regs stacks (Some f))
      (Some (file ++ [NUL])) line (Some (function ++ [NUL])))
    (panic_text (exception_text regs stacks f)
      (Some (if malformed f then captured else panic_frame_from regs f)) file line function).
Proof.
  intros Hf Ha Hs Hc Hfile Hfun Hline.
  destruct (dispatch_reports captured regs stacks f Hf Ha Hs) as [(Hne & Ht & Hty) Hr].
  unfold print_report. rewrite Hr.
  destruct (arguments _) as [|v args]; [done|].
  apply outputs_kpanic_fmt; try done.
  intros ? [= <-]. destruct (malformed f); [done | by apply dump_ok].
Qed.

(** A panic prints its message, where it happened and the registers, three on a line. *)
Theorem kpanic_fmt_correct fmt args message frame file line function :
  kprint_text fmt args = Some message -> Forall typed args ->
  string_arg file -> string_arg function -> - 2 ^ 63 <= line < 2 ^ 63 ->
  (forall r, frame = Some r -> Forall register_ok r) ->
  outputs (kpanic_fmt fmt args frame (Some (file ++ [NUL])) line (Some (function ++ [NUL])))
    (panic_text message frame file line function).
Proof. apply outputs_kpanic_fmt. Qed.

(** ** The properties at work: a write to an address that is not mapped *)

Definition example_frame : frame := {|
  r15 := 0; r14 := 0; r13 := 0; r12 := 0; r11 := 0; r10 := 0; r9 := 0; r8 := 0;
  rbp := 0; rdi := 0; rsi := 0; rdx := 0; rcx := 0; rbx := 0; rax := 0;
  vector := 14; error_code := 2; rip := 0x1000; cs := 8; rflags := 2; frame_rsp := 0x2000; ss := 16 |}.

Definition example_ambient : ambient := {|
  ambient_ds := 16; ambient_es := 16; ambient_fs := 0; ambient_gs := 0;
  ambient_cr0 := 0x80000011; ambient_cr2 := 0xdeadbeef; ambient_cr3 := 0x1000; ambient_cr4 := 0x20 |}.


Lemma exception_dispatch_correct_witness :
  outputs
    (print_report (x86_64_exception_dispatch [] example_ambient stack_set_init (Some example_frame))
      (Some (chars "x.cpp" ++ [NUL])) 7 (Some (chars "f" ++ [NUL])))
    (panic_text (chars "[exception] #PF page fault address=0x00000000DEADBEEF error=0x2 cause={protection_violation=false, write=true, user=false, reserved_bit=false, instruction_fetch=false, protection_key=false, shadow_stack=false}")
      (Some (panic_frame_from example_ambient example_frame)) (chars "x.cpp") 7 (chars "f")).
Proof.
  apply (exception_dispatch_correct [] example_ambient stack_set_init example_frame (chars "x.cpp") 7 (chars "f")).
  - by repeat (apply Forall_cons; split; [by vm_compute|]).
  - by repeat (apply Forall_cons; split; [by vm_compute|]).
  - by repeat constructor.
  - constructor.
  - split; [by repeat constructor | by vm_compute].
  - split; [by repeat constructor | by vm_compute].
  - lia.
Defined.

Lemma kpanic_fmt_correct_witness :
  outputs (kpanic_fmt (chars "bad page {}") [VUnsigned 42] None (Some (chars "x.cpp" ++ [NUL])) 7 (Some (chars "f" ++ [NUL])))
    (panic_text (chars "bad page 42") None (chars "x.cpp") 7 (chars "f")).
Proof.
  apply (kpanic_fmt_correct (chars "bad page {}") [VUnsigned 42] (chars "bad page 42") None (chars "x.cpp") 7 (chars "f")).
  - reflexivity.
  - by repeat constructor.
  - split; [by repeat constructor | by vm_compute].
  - split; [by repeat constructor | by vm_compute].
  - lia.
  - discriminate.
Defined.
