(* ===== verification/Lapic.v ===== *)
(** * Lapic: the local interrupt controller, [arch/x86_64/lapic/lapic.{hpp,cpp}]

    The controller is a page of registers in device memory.  The kernel maps it once, programs it for
    the core, and uses it for end-of-interrupt, interprocessor interrupts and the timer.  What a
    register answers is the machine's, a function of the accesses so far (class [apic_device]); how
    device memory is mapped is an interface (class [mmio_window]) that [vmm::map_mmio] implements. *)

From S2P Require Import Prelude Boot Page.

(** ** The interface: mapping device memory *)

Class mmio_window (S : Type) : Type := { map_window : Z -> Z -> kernel S (Result Z mm_error) }.

(** [device_byte s va pa]: in the state [s] the address [va] reaches, uncached, the device's byte
    [pa].  A mapping succeeds with consecutive addresses that do. *)
Class mmio_window_laws (S : Type) `{mmio_window S} : Type := {
  window_ok : S -> Prop;
  device_byte : S -> Z -> Z -> Prop;
  map_window_correct pa bytes s :
    window_ok s -> in_width 64 pa -> in_width 64 bytes ->
    wp (map_window pa bytes) (fun r s' => window_ok s' /\
      match r with
      | Ok va => 0 < va /\ va + bytes <= 2 ^ 64 /\
          forall i, 0 <= i < bytes -> device_byte s' (va + i) (pa + i)
      | Err _ => True
      end) s;
}.

(** ** The registers *)

Definition reg_id : Z := 0x0020.
Definition reg_version : Z := 0x0030.
Definition reg_tpr : Z := 0x0080.
Definition reg_eoi : Z := 0x00B0.
Definition reg_ldr : Z := 0x00D0.
Definition reg_dfr : Z := 0x00E0.
Definition reg_svr : Z := 0x00F0.
Definition reg_isr_base : Z := 0x0100.
Definition reg_tmr_base : Z := 0x0180.
Definition reg_irr_base : Z := 0x0200.
Definition reg_esr : Z := 0x0280.
Definition reg_icr_low : Z := 0x0300.
Definition reg_icr_high : Z := 0x0310.
Definition reg_lvt_timer : Z := 0x0320.
Definition reg_lvt_thermal : Z := 0x0330.
Definition reg_lvt_perf : Z := 0x0340.
Definition reg_lvt_lint0 : Z := 0x0350.
Definition reg_lvt_lint1 : Z := 0x0360.
Definition reg_lvt_error : Z := 0x0370.
Definition reg_timer_init : Z := 0x0380.
Definition reg_timer_current : Z := 0x0390.
Definition reg_timer_div : Z := 0x03E0.

(** A cast of a [usize] to the enumeration, whose underlying type is [u32]. *)
Definition isr_register (index : Z) : Z := u32 (u64 (reg_isr_base + u64 (index * 0x10))).
Definition tmr_register (index : Z) : Z := u32 (u64 (reg_tmr_base + u64 (index * 0x10))).
Definition irr_register (index : Z) : Z := u32 (u64 (reg_irr_base + u64 (index * 0x10))).

Definition SVR_APIC_ENABLE : Z := Z.shiftl 1 8.
Definition LVT_MASKED : Z := Z.shiftl 1 16.
Definition LVT_TIMER_PERIODIC : Z := Z.shiftl 1 17.
Definition ICR_DELIVERY_INIT : Z := Z.shiftl 0x5 8.
Definition ICR_DELIVERY_STARTUP : Z := Z.shiftl 0x6 8.
Definition ICR_LEVEL_ASSERT : Z := Z.shiftl 1 14.
Definition ICR_STATUS_PENDING : Z := Z.shiftl 1 12.
Definition SPURIOUS_INTERRUPT_VECTOR : Z := 0xFF.

(** ** The state *)

(** An access to a 32-bit register, by its address. *)
Inductive access : Type :=
| Read (address : Z)
| Write (address value : Z).

#[export] Instance access_eq_dec : EqDecision access.
Proof. solve_decision. Defined.

(** What a read answers after the accesses of the list, newest first. *)
Class apic_device : Type := { answer : list access -> Z -> Z }.

(** The variables of [lapic.cpp] and the accesses so far, newest first. *)
Record lapic : Type := {
  m_lapic_base_vaddr : Z;
  m_lapic_base_paddr : Z;
  accesses : list access;
}.

Definition lapic_init : lapic :=
  {| m_lapic_base_vaddr := 0; m_lapic_base_paddr := 0; accesses := [] |}.

Definition set_bases (vaddr paddr : Z) (s : lapic) : lapic :=
  {| m_lapic_base_vaddr := vaddr; m_lapic_base_paddr := paddr; accesses := accesses s |}.

Definition perform (a : access) (s : lapic) : lapic :=
  {| m_lapic_base_vaddr := m_lapic_base_vaddr s; m_lapic_base_paddr := m_lapic_base_paddr s;
     accesses := a :: accesses s |}.

Definition register_address (s : lapic) (r : Z) : Z := u64 (m_lapic_base_vaddr s + r).

Section Lapic.
Context `{apic_device}.

Definition is_ready : kernel lapic bool := gets (fun s => negb (m_lapic_base_vaddr s =? 0)).

Definition read (r : Z) : kernel lapic Z :=
  address ← gets (fun s => register_address s r);
  value ← gets (fun s => answer (accesses s) address);
  modify (perform (Read address));;
  mret value.

Definition write (r value : Z) : kernel lapic unit :=
  address ← gets (fun s => register_address s r);
  modify (perform (Write address value)).

Definition eoi : kernel lapic unit := write reg_eoi 0.

Definition id : kernel lapic Z := value ← read reg_id; mret (Z.shiftr value 24).

Definition version : kernel lapic Z := value ← read reg_version; mret (Z.land value 0xFF).

Definition init_core : kernel lapic init_result :=
  base ← gets m_lapic_base_vaddr;
  if base =? 0 then mret (Err DEPENDENCY_UNAVAILABLE)
  else
    write reg_tpr 0;;
    write reg_dfr 0xFFFFFFFF;;
    destination ← read reg_ldr;
    write reg_ldr (Z.lor (Z.land destination 0x00FFFFFF) 1);;
    write reg_lvt_lint0 LVT_MASKED;;
    write reg_lvt_lint1 LVT_MASKED;;
    write reg_lvt_perf LVT_MASKED;;
    write reg_lvt_thermal LVT_MASKED;;
    write reg_lvt_error 0xFE;;
    write reg_esr 0;;
    write reg_esr 0;;
    write reg_svr (Z.lor SVR_APIC_ENABLE SPURIOUS_INTERRUPT_VECTOR);;
    eoi;;
    mret (Ok tt).

(** The loop polls the controller; its fuel is an argument. *)
Definition send_ipi (fuel : nat) (dest_apic_id vector flags : Z) : kernel lapic unit :=
  write reg_icr_high (u32 (Z.shiftl dest_apic_id 24));;
  write reg_icr_low (Z.lor (Z.land vector 0xFF) flags);;
  while fuel
    (fun _ => status ← read reg_icr_low; mret (negb (Z.land status ICR_STATUS_PENDING =? 0)))
    (fun _ => mret tt)
    tt.

Definition send_init_ipi (fuel : nat) (dest_apic_id : Z) : kernel lapic unit :=
  send_ipi fuel dest_apic_id 0 (Z.lor ICR_DELIVERY_INIT ICR_LEVEL_ASSERT).

Definition send_startup_ipi (fuel : nat) (dest_apic_id vector : Z) : kernel lapic unit :=
  send_ipi fuel dest_apic_id vector (Z.lor ICR_DELIVERY_STARTUP ICR_LEVEL_ASSERT).

Definition configure_timer (vector initial_count : Z) (periodic : bool) (divide_value : Z) :
    kernel lapic unit :=
  write reg_timer_div (Z.land divide_value 0x0F);;
  let lvt := vector in
  let lvt := if periodic then Z.lor lvt LVT_TIMER_PERIODIC else lvt in
  write reg_lvt_timer lvt;;
  write reg_timer_init initial_count.

Definition stop_timer : kernel lapic unit :=
  write reg_lvt_timer LVT_MASKED;;
  write reg_timer_init 0.

(** [lapic::init], over the controller's variables and the mapper of device memory. *)
Definition init {S} `{mmio_window S} (lapic_base_address : Z) : kernel (lapic * S) init_result :=
  if lapic_base_address =? 0 then mret (Err INVALID_BOOT_DATA)
  else
    mapped ← gets (fun s => m_lapic_base_vaddr (fst s));
    if negb (mapped =? 0) then
      paddr ← gets (fun s => m_lapic_base_paddr (fst s));
      if paddr =? lapic_base_address then mret (Ok tt) else mret (Err INVALID_BOOT_DATA)
    else
      mapping ← zoom snd (fun w s => (fst s, w)) (map_window lapic_base_address FRAME_SIZE);
      match mapping with
      | Err _ => mret (Err NO_USABLE_MEMORY)
      | Ok vaddr =>
          modify (fun s => (set_bases vaddr lapic_base_address (fst s), snd s));;
          mret (Ok tt)
      end.
End Lapic.
