(* ===== verification/LapicFacts.v ===== *)
(** * LapicFacts: what the controller is left with

    The virtual memory manager as the mapper of device memory, the history of accesses, and the theorems
    about finding the controller, programming it and sending interrupts. *)

From S2P Require Import Prelude Bits Page Spinlock Boot Pmm Radix RadixFacts Cpu Paging Mmu Vmm VmmFacts Lapic.

(** ** Device memory through the virtual memory manager *)
Section Window.
Context `{layout_ok} `{image} `{features}.
Context (root : Z) (b : backing).

#[export] Instance vmm_window : mmio_window vmm := {| map_window := map_mmio |}.

(** The page tables translate the address to the byte, with the protection of device memory. *)
Definition reaches (s : vmm) (va pa : Z) : Prop := seen root s va = Some (pa, granted MMIO).

Lemma vmm_map_window_correct pa bytes s :
  vmm_ok root b s -> in_width 64 pa -> in_width 64 bytes ->
  wp (map_window pa bytes) (fun r s' => vmm_ok root b s' /\
    match r with
    | Ok va => 0 < va /\ va + bytes <= 2 ^ 64 /\ forall i, 0 <= i < bytes -> reaches s' (va + i) (pa + i)
    | Err _ => True
    end) s.
Proof.
  intros Hs Hpa Hb. eapply wp_mono; [by apply (wp_map_mmio root b s pa bytes)|].
  intros [va|e] s' (Hs' & _ & _ & _ & Hr); [|done]. destruct Hr as (-> & Hpos & Hmax & Hmap & _).
  unfold in_width in *.
  assert (MMIO_MAP_BASE = 0xffff808000000000) as Hbase by reflexivity.
  assert (MMIO_MAP_SIZE = 2 ^ 39) as Hsize by reflexivity. rewrite Hsize in Hmax.
  split; [done|]. rewrite Hbase. split; [lia|]. split; [lia|]. rewrite <- Hbase. exact Hmap.
Qed.

#[export] Instance vmm_window_laws : mmio_window_laws vmm := {|
  window_ok := vmm_ok root b;
  device_byte := reaches;
  map_window_correct := vmm_map_window_correct;
|}.
End Window.

(** ** The history of accesses *)

Definition is_write_to (address : Z) (a : access) : bool :=
  match a with Write x _ => x =? address | Read _ => false end.

(** The last value written to the address, in a history with the newest access first. *)
Definition last_write (h : list access) (address : Z) : option Z :=
  match base.filter (fun a => is_write_to address a = true) h with
  | Write _ v :: _ => Some v
  | _ => None
  end.

Definition address_of_access (a : access) : Z := match a with Read x => x | Write x _ => x end.

(** The history after [n] polls of an address. *)
Definition polls (n : nat) (address : Z) (h : list access) : list access :=
  replicate n (Read address) ++ h.

(** The controller's registers lie in its page: the last one, the timer's divider, ends before it. *)
Definition register_offset (r : Z) : Prop := 0 <= r /\ r + 4 <= FRAME_SIZE.

Section LapicFacts.
Context `{apic_device}.

Lemma wp_lapic_read r Q s :
  Q (answer (accesses s) (register_address s r)) (perform (Read (register_address s r)) s) -> wp (read r) Q s.
Proof. by intros. Qed.

Lemma wp_lapic_write r v (Q : unit -> lapic -> Prop) s :
  Q tt (perform (Write (register_address s r) v) s) -> wp (write r v) Q s.
Proof. by intros. Qed.

Lemma polls_succ n a h : polls n a (Read a :: h) = polls (S n) a h.
Proof. unfold polls. by rewrite (cons_middle (Read a)), app_assoc, <- replicate_S_end. Qed.

(** The first poll among [n + 1] whose answer is not pending. *)
Definition delivered (h : list access) (address : Z) (n : nat) : Prop :=
  Z.land (answer (polls n address h) address) ICR_STATUS_PENDING = 0.

Lemma wp_poll_icr fuel n s :
  (n < fuel)%nat -> delivered (accesses s) (register_address s reg_icr_low) n ->
  wp (while fuel
    (fun _ => status ← read reg_icr_low; mret (negb (Z.land status ICR_STATUS_PENDING =? 0)))
    (fun _ => mret tt) tt)
    (fun _ s' => exists k, (k <= n)%nat /\
      delivered (accesses s) (register_address s reg_icr_low) k /\
      (forall j, (j < k)%nat -> ~ delivered (accesses s) (register_address s reg_icr_low) j) /\
      m_lapic_base_vaddr s' = m_lapic_base_vaddr s /\ m_lapic_base_paddr s' = m_lapic_base_paddr s /\
      accesses s' = polls (S k) (register_address s reg_icr_low) (accesses s)) s.
Proof.
  revert n s. induction fuel as [|fuel IH]; intros n s Hn Hd; [lia|]. cbn [while].
  apply wp_bind, wp_bind, wp_lapic_read, wp_ret. set (a := register_address s reg_icr_low) in *.
  destruct (Z.eqb_spec (Z.land (answer (accesses s) a) ICR_STATUS_PENDING) 0) as [E|E]; cbn [negb].
  { apply wp_ret. exists O. split; [lia|]. by split; [exact E|]; split; [lia|]. }
  destruct n as [|n]; [done|]. apply wp_bind, wp_ret.
  eapply wp_mono; [apply (IH n (perform (Read a) s)); [lia|]|].
  { unfold delivered in *. cbn [accesses perform]. rewrite polls_succ. exact Hd. }
  intros _ s' (k & Hk & Hdk & Hfirst & Hv & Hp & Ha). change (register_address (perform _ s) _) with a in *.
  cbn [accesses perform] in *. exists (S k). split; [lia|].
  unfold delivered in *. rewrite polls_succ in Hdk. split; [exact Hdk|]. split.
  { intros [|j] Hj; [exact E|]. rewrite <- polls_succ. apply Hfirst. lia. }
  split; [exact Hv|]. split; [exact Hp|]. by rewrite Ha, polls_succ.
Qed.

Lemma register_address_small s r :
  0 <= m_lapic_base_vaddr s -> m_lapic_base_vaddr s + FRAME_SIZE <= 2 ^ 64 -> register_offset r ->
  register_address s r = m_lapic_base_vaddr s + r.
Proof. intros H0 Hmax [Hr Hend]. apply wrap_small. unfold in_width. change FRAME_SIZE with 4096 in *. lia. Qed.
End LapicFacts.

(** The accesses that program the controller, newest first, up to the one that enables it. *)
Definition setup (s : lapic) (old : Z) : list access :=
  let at_ := register_address s in
  [ Write (at_ reg_esr) 0; Write (at_ reg_esr) 0; Write (at_ reg_lvt_error) 0xFE;
    Write (at_ reg_lvt_thermal) LVT_MASKED; Write (at_ reg_lvt_perf) LVT_MASKED;
    Write (at_ reg_lvt_lint1) LVT_MASKED; Write (at_ reg_lvt_lint0) LVT_MASKED;
    Write (at_ reg_ldr) (Z.lor (Z.land old 0x00FFFFFF) 1); Read (at_ reg_ldr);
    Write (at_ reg_dfr) 0xFFFFFFFF; Write (at_ reg_tpr) 0 ].

Lemma init_core_run `{apic_device} s :
  (m_lapic_base_vaddr s =? 0) = false ->
  let at_ := register_address s in
  let old := answer (Write (at_ reg_dfr) 0xFFFFFFFF :: Write (at_ reg_tpr) 0 :: accesses s) (at_ reg_ldr) in
  init_core s = Ret (Ok tt, {|
    m_lapic_base_vaddr := m_lapic_base_vaddr s; m_lapic_base_paddr := m_lapic_base_paddr s;
    accesses := Write (at_ reg_eoi) 0 :: Write (at_ reg_svr) (Z.lor SVR_APIC_ENABLE 0xFF) ::
      setup s old ++ accesses s |}).
Proof. intros E. unfold init_core, mbind, kernel_bind, gets. rewrite E. reflexivity. Qed.

Lemma last_write_skip a h x : is_write_to x a = false -> last_write (a :: h) x = last_write h x.
Proof. intros Ha. unfold last_write. rewrite filter_cons_False; [done|]. by rewrite Ha. Qed.

Lemma last_write_here h x v : last_write (Write x v :: h) x = Some v.
Proof. unfold last_write. rewrite filter_cons_True; [done|]. apply Z.eqb_refl. Qed.

(** Find the last write to a register in an explicit history. *)
Ltac find_write Hskip Hread :=
  repeat first
    [ rewrite last_write_here
    | rewrite Hread
    | rewrite Hskip by (first [split; vm_compute; congruence | vm_compute; congruence]) ].

Lemma wp_lapic_init S `{mmio_window_laws S} address s :
  window_ok (snd s) -> in_width 64 address ->
  wp (init address) (fun r s' => window_ok (snd s') /\ accesses (fst s') = accesses (fst s) /\
    if address =? 0 then r = Err INVALID_BOOT_DATA /\ s' = s
    else if negb (m_lapic_base_vaddr (fst s) =? 0) then
      r = (if m_lapic_base_paddr (fst s) =? address then Ok tt else Err INVALID_BOOT_DATA) /\ s' = s
    else match r with
      | Ok _ => m_lapic_base_vaddr (fst s') <> 0 /\ m_lapic_base_paddr (fst s') = address /\
          forall r i, register_offset r -> 0 <= i < 4 ->
            device_byte (snd s') (register_address (fst s') r + i) (address + r + i)
      | Err e => e = NO_USABLE_MEMORY /\ fst s' = fst s
      end) s.
Proof.
  intros Hw Ha. unfold init. destruct (address =? 0); [by apply wp_ret|].
  apply wp_bind, wp_gets. destruct (m_lapic_base_vaddr (fst s) =? 0) eqn:E; cbn [negb].
  2:{ apply wp_bind, wp_gets. destruct (m_lapic_base_paddr (fst s) =? address); by apply wp_ret. }
  apply wp_bind, wp_zoom. eapply wp_mono; [apply map_window_correct; [done | done | by vm_compute]|].
  intros [va|e] w (Hw' & Hr); [|by apply wp_ret]. destruct Hr as (Hpos & Hmax & Hmap).
  apply wp_bind, wp_modify, wp_ret. cbn [fst snd accesses set_bases m_lapic_base_vaddr m_lapic_base_paddr].
  split; [done|]. split; [done|]. split; [lia|]. split; [done|]. intros r i Hr Hi.
  rewrite register_address_small by (cbn; done || lia). cbn [m_lapic_base_vaddr set_bases].
  rewrite <- !Z.add_assoc. apply Hmap. destruct Hr. lia.
Qed.

(** ** Properties *)

(** Finding the controller.  Address 0 and a second address are refused and nothing changes; the
    same address again succeeds and changes nothing.  Otherwise the controller's page is mapped, and
    after a success it is ready and each byte of each register reaches the controller's own; after a
    failure it is still not ready. *)
Theorem lapic_init_correct S `{mmio_window_laws S} address s :
  window_ok (snd s) -> in_width 64 address ->
  wp (init address) (fun r s' => window_ok (snd s') /\ accesses (fst s') = accesses (fst s) /\
    if address =? 0 then r = Err INVALID_BOOT_DATA /\ s' = s
    else if negb (m_lapic_base_vaddr (fst s) =? 0) then
      r = (if m_lapic_base_paddr (fst s) =? address then Ok tt else Err INVALID_BOOT_DATA) /\ s' = s
    else match r with
      | Ok _ => m_lapic_base_vaddr (fst s') <> 0 /\ m_lapic_base_paddr (fst s') = address /\
          forall r i, register_offset r -> 0 <= i < 4 ->
            device_byte (snd s') (register_address (fst s') r + i) (address + r + i)
      | Err e => e = NO_USABLE_MEMORY /\ fst s' = fst s
      end) s.
Proof. apply wp_lapic_init. Qed.


(** Programming the controller for the core.  Before it is found nothing is accessed.  Afterwards:
    when the controller is enabled, with the spurious vector 255, every interrupt class is accepted,
    the destination format is flat with the core's bit set, and the legacy, performance and thermal
    lines are masked; the enabling write is the last but for the end-of-interrupt, and every access
    is to a register of the page. *)
Theorem lapic_init_core_correct `{apic_device} s :
  wp init_core (fun r s' =>
    if m_lapic_base_vaddr s =? 0 then r = Err DEPENDENCY_UNAVAILABLE /\ s' = s
    else
      let at_ := register_address s in
      r = Ok tt /\ (forall x, register_address s' x = at_ x) /\
      exists before, accesses s' = Write (at_ reg_eoi) 0 ::
          Write (at_ reg_svr) (Z.lor SVR_APIC_ENABLE 0xFF) :: before ++ accesses s /\
        (0 <= m_lapic_base_vaddr s -> m_lapic_base_vaddr s + FRAME_SIZE <= 2 ^ 64 ->
          last_write before (at_ reg_svr) = None /\
          last_write before (at_ reg_tpr) = Some 0 /\
          last_write before (at_ reg_dfr) = Some 0xFFFFFFFF /\
          (exists h v, last_write before (at_ reg_ldr) = Some v /\ Z.testbit v 0 = true /\
             forall i, 1 <= i < 24 -> Z.testbit v i = Z.testbit (answer h (at_ reg_ldr)) i) /\
          Forall (fun x => last_write before (at_ x) = Some LVT_MASKED)
            [reg_lvt_lint0; reg_lvt_lint1; reg_lvt_perf; reg_lvt_thermal] /\
          Forall (fun a => exists x, register_offset x /\ address_of_access a = at_ x) before)) s.
Proof.
  destruct (m_lapic_base_vaddr s =? 0) eqn:E; [unfold init_core; by apply wp_bind, wp_gets; rewrite E; apply wp_ret|].
  set (old := answer (Write (register_address s reg_dfr) 0xFFFFFFFF ::
    Write (register_address s reg_tpr) 0 :: accesses s) (register_address s reg_ldr)).
  eapply wp_intro; [by apply init_core_run|]. cbn zeta. split; [done|]. split; [done|].
  exists (setup s old). split; [done|]. intros H0 Hmax.
  assert (Hat : forall x, register_offset x -> register_address s x = m_lapic_base_vaddr s + x)
    by (intros; by apply register_address_small).
  assert (Hne : forall x y, register_offset x -> register_offset y -> x <> y ->
    (register_address s x =? register_address s y) = false) by (intros; rewrite !Hat by done; lia).
  assert (Hskip : forall x y v h, register_offset x -> register_offset y -> x <> y ->
    last_write (Write (register_address s x) v :: h) (register_address s y) = last_write h (register_address s y))
    by (intros; by apply last_write_skip, Hne).
  assert (Hread : forall x y h, last_write (Read x :: h) y = last_write h y) by done.
  unfold setup.
  split; [by find_write Hskip Hread|]. split; [by find_write Hskip Hread|].
  split; [by find_write Hskip Hread|]. split; [|split].
  - eexists (Write _ _ :: Write _ _ :: accesses s), _. split; [by find_write Hskip Hread|]. fold old. split; [by rewrite Z.lor_spec, orb_true_r|].
    intros i Hi. unfold old. rewrite Z.lor_spec, Z.land_spec. change 0x00FFFFFF with (Z.ones 24). change 1 with (2 ^ 0).
    rewrite Z.testbit_ones_nonneg, Z.pow2_bits_eqb by lia. destruct_comparisons; try lia.
    by rewrite andb_true_r, orb_false_r.
  - repeat (apply Forall_cons; split; [by find_write Hskip Hread|]). done.
  - repeat (apply Forall_cons; split; [eexists; split; [|reflexivity]; split; by vm_compute|]). done.
Qed.

(** C8: An interprocessor interrupt.  The destination and then the command are written, and the controller
    is polled until it has accepted the command: the first answer that is not pending, if there is
    one, ends the call; no other register is touched.  The destination is whole if it has 8 bits. *)
Theorem send_ipi_correct `{apic_device} fuel dest_apic_id vector flags n s :
  let icr_low := register_address s reg_icr_low in
  let destination := u32 (Z.shiftl dest_apic_id 24) in
  let command := Write icr_low (Z.lor (Z.land vector 0xFF) flags) ::
    Write (register_address s reg_icr_high) destination :: accesses s in
  delivered command icr_low n -> (n < fuel)%nat ->
  (in_width 8 dest_apic_id -> Z.shiftr destination 24 = dest_apic_id) /\
  wp (send_ipi fuel dest_apic_id vector flags) (fun _ s' => exists k, (k <= n)%nat /\
    delivered command icr_low k /\ (forall j, (j < k)%nat -> ~ delivered command icr_low j) /\
    accesses s' = polls (S k) icr_low command /\
    m_lapic_base_vaddr s' = m_lapic_base_vaddr s /\ m_lapic_base_paddr s' = m_lapic_base_paddr s) s.
Proof.
  cbn zeta. intros Hd Hn. split.
  - unfold in_width. intros Hw. rewrite Z.shiftl_mul_pow2, Z.shiftr_div_pow2 by lia.
    unfold u32. rewrite wrap_small by (unfold in_width; lia). by rewrite Z.div_mul.
  - unfold send_ipi. do 2 apply wp_bind, wp_lapic_write.
    eapply wp_mono; [by apply (wp_poll_icr fuel n)|]. intros [] s' (k & Hk & Hdk & Hfirst & Hv & Hp & Ha).
    by exists k.
Qed.

(** ** The properties at work *)
Section LapicWitnesses.
Local Existing Instance Mmu.example_layout.
Local Existing Instance Mmu.example_layout_ok.
Local Existing Instance Mmu.example_image.
Local Existing Instance Mmu.example_features.

(** The controller of a machine, through the page tables of the kernel. *)
Lemma lapic_init_correct_witness :
  exists w, vmm_ok example_root ∅ w /\
    wp (init 0xfee00000) (fun r s' => r = Ok tt ->
      reaches example_root (snd s') (register_address (fst s') reg_svr) 0xfee000f0) (lapic_init, w).
Proof.
  destruct example_vmm as (w & Hw). exists w. split; [exact Hw|].
  pose proof (lapic_init_correct vmm (H0 := vmm_window_laws example_root ∅) 0xfee00000
    (lapic_init, w) Hw ltac:(by vm_compute)) as Hinit.
  eapply wp_mono; [exact Hinit|]. intros r s' (_ & _ & Hr) ->. destruct Hr as (_ & _ & Hr).
  specialize (Hr reg_svr 0 ltac:(split; by vm_compute) ltac:(lia)). rewrite Z.add_0_r in Hr. exact Hr.
Defined.

(** A controller that accepts a command at the third poll. *)
#[local] Instance slow_device : apic_device := {|
  answer := fun h _ => match h with Read _ :: Read _ :: _ => 0 | _ => ICR_STATUS_PENDING end |}.

Lemma send_ipi_correct_witness :
  wp (send_ipi 10 3 0x41 0) (fun _ s' => exists k, (k <= 2)%nat /\ accesses s' =
    polls (S k) 0x1300 [Write 0x1300 0x41; Write 0x1310 0x3000000])
    {| m_lapic_base_vaddr := 0x1000; m_lapic_base_paddr := 0x1000; accesses := [] |}.
Proof.
  destruct (send_ipi_correct 10 3 0x41 0 2
    {| m_lapic_base_vaddr := 0x1000; m_lapic_base_paddr := 0x1000; accesses := [] |}) as [_ H];
    [reflexivity | lia|].
  eapply wp_mono; [exact H|]. intros [] s' (k & Hk & _ & _ & Ha & _). exists k. split; [exact Hk | exact Ha].
Defined.
End LapicWitnesses.
