(* ===== verification/Core.v ===== *)
(** * Core: a processor core, [arch/x86_64/cpu/cpu.{hpp,cpp}], and the start of its components

    The state of a core, what its components do when they start ([core_component::init] of [stacks.hpp],
    [tss.hpp], [gdt.hpp], [exceptions.hpp], [idt.hpp], [fpu.hpp] and [lapic.hpp]), its lines of the log, and
    the instance of the boot plan for it: [init_core] over the real components. *)

From S2P Require Import Prelude Atomic Containers Boot Cpu Format Emit FormatFacts Descriptors Exceptions PanicFacts.
From S2P Require Import DescriptorsFacts Lapic LapicFacts InitGraph InitGraphFacts BootPlan.

Definition MAX_CORE_COUNT : Z := 64.

Record local_state : Type := {
  logical_id_m : Z;
  apic_id_m : Z;
  is_bsp_m : bool;
  is_online_m : bool;
  stacks_m : stack_set;
  tss_m : Descriptors.segment;
  gdt_m : gdt_table;
  exception_gates_m : gate_table;
  idt_m : idt_table;
}.

Definition local_state_init : local_state := {|
  logical_id_m := 0; apic_id_m := 0; is_bsp_m := false; is_online_m := false;
  stacks_m := stack_set_init; tss_m := segment_init; gdt_m := gdt_table_init;
  exception_gates_m := gate_table_init; idt_m := idt_table_init;
|}.

(** The boot core: its [bsp_state], the count of the cores that are online, the processor, its interrupt
    controller and the console. *)
Record core : Type := {
  bsp_state : local_state;
  current_online_count : Z;
  processor : cpu;
  apic : lapic;
  terminal : console;
}.

Definition set_identity (s : local_state) : local_state := {|
  logical_id_m := 0; apic_id_m := 0; is_bsp_m := true; is_online_m := true;
  stacks_m := stacks_m s; tss_m := tss_m s; gdt_m := gdt_m s;
  exception_gates_m := exception_gates_m s; idt_m := idt_m s |}.
Definition set_stacks x (s : local_state) : local_state := {|
  logical_id_m := logical_id_m s; apic_id_m := apic_id_m s; is_bsp_m := is_bsp_m s; is_online_m := is_online_m s;
  stacks_m := x; tss_m := tss_m s; gdt_m := gdt_m s;
  exception_gates_m := exception_gates_m s; idt_m := idt_m s |}.
Definition set_tss x (s : local_state) : local_state := {|
  logical_id_m := logical_id_m s; apic_id_m := apic_id_m s; is_bsp_m := is_bsp_m s; is_online_m := is_online_m s;
  stacks_m := stacks_m s; tss_m := x; gdt_m := gdt_m s;
  exception_gates_m := exception_gates_m s; idt_m := idt_m s |}.
Definition set_gdt x (s : local_state) : local_state := {|
  logical_id_m := logical_id_m s; apic_id_m := apic_id_m s; is_bsp_m := is_bsp_m s; is_online_m := is_online_m s;
  stacks_m := stacks_m s; tss_m := tss_m s; gdt_m := x;
  exception_gates_m := exception_gates_m s; idt_m := idt_m s |}.
Definition set_exception_gates x (s : local_state) : local_state := {|
  logical_id_m := logical_id_m s; apic_id_m := apic_id_m s; is_bsp_m := is_bsp_m s; is_online_m := is_online_m s;
  stacks_m := stacks_m s; tss_m := tss_m s; gdt_m := gdt_m s;
  exception_gates_m := x; idt_m := idt_m s |}.
Definition set_idt x (s : local_state) : local_state := {|
  logical_id_m := logical_id_m s; apic_id_m := apic_id_m s; is_bsp_m := is_bsp_m s; is_online_m := is_online_m s;
  stacks_m := stacks_m s; tss_m := tss_m s; gdt_m := gdt_m s;
  exception_gates_m := exception_gates_m s; idt_m := x |}.

Definition set_bsp_state x (c : core) : core := {| bsp_state := x; current_online_count := current_online_count c;
  processor := processor c; apic := apic c; terminal := terminal c |}.
Definition set_online_count x (c : core) : core := {| bsp_state := bsp_state c; current_online_count := x;
  processor := processor c; apic := apic c; terminal := terminal c |}.
Definition set_processor x (c : core) : core := {| bsp_state := bsp_state c;
  current_online_count := current_online_count c; processor := x; apic := apic c; terminal := terminal c |}.
Definition set_apic x (c : core) : core := {| bsp_state := bsp_state c;
  current_online_count := current_online_count c; processor := processor c; apic := x; terminal := terminal c |}.
Definition set_terminal x (c : core) : core := {| bsp_state := bsp_state c;
  current_online_count := current_online_count c; processor := processor c; apic := apic c; terminal := x |}.

Definition on_state {A} (m : kernel local_state A) : kernel core A := zoom bsp_state set_bsp_state m.
Definition on_processor {A} (m : kernel cpu A) : kernel core A := zoom processor set_processor m.
Definition on_apic {A} (m : kernel lapic A) : kernel core A := zoom apic set_apic m.
Definition on_terminal {A} (m : kernel console A) : kernel core A := zoom terminal set_terminal m.

(** [cpu::init_bsp]. *)
Definition init_bsp_state : kernel core unit :=
  modify (fun c => set_bsp_state (set_identity (bsp_state c)) c);;
  _ ← zoom current_online_count set_online_count (fetch_add (unsigned 32) 1 SEQ_CST);
  mret tt.

(** [cpu::get]: there is one core, [bsp_state]. *)
Definition get_core (logical_id : Z) : bool := logical_id =? 0.

Definition online_count : kernel core Z :=
  zoom current_online_count set_online_count (load (unsigned 32) ACQUIRE).

(** ** The log *)

Definition error_name (e : init_error) : list char :=
  match e with
  | UNSPECIFIED => chars "UNSPECIFIED"
  | DEPENDENCY_UNAVAILABLE => chars "DEPENDENCY_UNAVAILABLE"
  | INVALID_BOOT_DATA => chars "INVALID_BOOT_DATA"
  | CAPACITY_EXCEEDED => chars "CAPACITY_EXCEEDED"
  | NO_USABLE_MEMORY => chars "NO_USABLE_MEMORY"
  | HARDWARE_UNSUPPORTED => chars "HARDWARE_UNSUPPORTED"
  end.

Definition error_value (e : init_error) : Z :=
  match e with
  | UNSPECIFIED => 0 | DEPENDENCY_UNAVAILABLE => 1 | INVALID_BOOT_DATA => 2
  | CAPACITY_EXCEEDED => 3 | NO_USABLE_MEMORY => 4 | HARDWARE_UNSUPPORTED => 5
  end.

Definition name_arg (name : string) : value := c_string (chars name).
Definition error_arg (e : init_error) : value := VEnum (VUnsigned (error_value e)) (error_name e).

(** The loggers of [core_init.cpp] and [init.hpp]. *)
Definition print_line (l : line) : kernel console unit :=
  match l with
  | Kernel_boot => kprintln_ct (chars "KERNEL BOOT") []
  | Begin (Some id) name => kprintln_ct (chars "[init][core {}] {}") [VUnsigned id; name_arg name]
  | Succeeded (Some id) name => kprintln_ct (chars "[init][core {}] {}: OK") [VUnsigned id; name_arg name]
  | Failed (Some id) name error =>
      kprintln_ct (chars "[init][core {}] {}: FAIL ({})") [VUnsigned id; name_arg name; error_arg error]
  | Begin None name => kprintln_ct (chars "[init] {}") [name_arg name]
  | Succeeded None name => kprintln_ct (chars "[init] {}: OK") [name_arg name]
  | Failed None name error => kprintln_ct (chars "[init] {}: FAIL ({})") [name_arg name; error_arg error]
  end.

(** ** Resources

    What a component owns, and what it may read of others ([component.hpp]), bound to the members of the
    core's state ([core_wiring.hpp]).  A failed [static_assert] is [Panic] with its message. *)

Inductive no_resource : Type := No_resource.

Definition resource (c : core_component) : Type :=
  match c with
  | STACKS => stack_set
  | TSS => Descriptors.segment
  | GDT => gdt_table
  | EXCEPTIONS => gate_table
  | IDT => idt_table
  | FPU | LAPIC_CORE => no_resource
  end.

(** [resource_binding::get], as a value and as a place. *)
Definition bound (c : core_component) : local_state -> resource c :=
  match c with
  | STACKS => stacks_m
  | TSS => tss_m
  | GDT => gdt_m
  | EXCEPTIONS => exception_gates_m
  | IDT => idt_m
  | FPU | LAPIC_CORE => fun _ => No_resource
  end.

Definition set_bound (c : core_component) : resource c -> local_state -> local_state :=
  match c with
  | STACKS => set_stacks
  | TSS => set_tss
  | GDT => set_gdt
  | EXCEPTIONS => set_exception_gates
  | IDT => set_idt
  | FPU | LAPIC_CORE => fun _ s => s
  end.

Definition owns_resource (c : core_component) : bool :=
  match c with FPU | LAPIC_CORE => false | _ => true end.

(** [resource_view::bind]. *)
Definition bind (c : core_component) {A} (m : kernel (resource c) A) : kernel core A :=
  on_state (zoom (bound c) (set_bound c) m).

Definition own (self : core_component) {A} (m : kernel (resource self) A) : kernel core A :=
  if owns_resource self then bind self m
  else Prelude.kpanic "component owns no resource: declare one to use own()".

Definition dep (self d : core_component) : kernel core (resource d) :=
  if list_contains d (core_deps self) then bind d (gets (fun r => r))
  else Prelude.kpanic "component declares no dependency on the component whose resource it is trying to read".

(** ** The components *)
Section Components.
Context `{core_objects} `{exception_stubs} `{apic_device}.

Definition init_stacks_component : kernel core init_result :=
  own STACKS stacks_init;; mret (Ok tt).

Definition init_tss_component : kernel core init_result :=
  stacks ← dep TSS STACKS;
  own TSS (tss_init (config_of stacks));; mret (Ok tt).

(** Of the segment, only the address is used, which does not change. *)
Definition init_gdt_component : kernel core init_result :=
  _ ← dep GDT TSS;
  own GDT gdt_init;;
  table ← own GDT (gets (fun r => r));
  on_processor (gdt_load table);;
  on_processor (load_task_register TSS_SELECTOR);;
  mret (Ok tt).

Definition init_exceptions_component : kernel core init_result :=
  own EXCEPTIONS describe_gates;; mret (Ok tt).

(** The selector of the code segment is a constant of the table. *)
Definition init_idt_component : kernel core init_result :=
  gates ← dep IDT EXCEPTIONS;
  _ ← dep IDT GDT;
  own IDT (idt_init gates KERNEL_CODE_SELECTOR);;
  table ← own IDT (gets (fun r => r));
  on_processor (idt_load table);;
  mret (Ok tt).

Definition init_lapic_core_component : kernel core init_result :=
  _ ← dep LAPIC_CORE IDT;
  on_apic Lapic.init_core.

Definition init_fpu_component : kernel core init_result :=
  on_processor enable_sse;; mret (Ok tt).

#[export] Instance core_parts : core_code core := {|
  core_component_init := fun c =>
    match c with
    | STACKS => init_stacks_component
    | TSS => init_tss_component
    | GDT => init_gdt_component
    | EXCEPTIONS => init_exceptions_component
    | IDT => init_idt_component
    | FPU => init_fpu_component
    | LAPIC_CORE => init_lapic_core_component
    end;
  logical_id := fun c => logical_id_m (bsp_state c);
  lapic_is_ready := on_apic is_ready;
  core_print := fun l => on_terminal (print_line l);
|}.

(** [core_init::init_bsp] and [core_init::component::init]. *)
Definition init_core_component : kernel core init_result :=
  b ← BootPlan.init_core; mret (if b : bool then Ok tt else Err UNSPECIFIED).

(** [lapic::component::init_lapic], with the address of the controller that the tables of the machine
    describe; [on_window] and [on_core] say where the mapper of device memory and the core are. *)
Definition init_lapic_with {W S} `{mmio_window W} (on_window : kernel (lapic * W) init_result -> kernel S init_result)
    (on_core : kernel core bool -> kernel S bool) (lapic_address : Z) : kernel S init_result :=
  r ← on_window (Lapic.init lapic_address);
  if is_err r then mret r
  else
    b ← on_core init_late_core;
    mret (if b : bool then Ok tt else Err UNSPECIFIED).

(** The same for a core and a mapper side by side. *)
Definition init_lapic {S} `{mmio_window S} : Z -> kernel (core * S) init_result :=
  init_lapic_with (zoom (fun s => (apic (fst s), snd s)) (fun x s => (set_apic (fst x) (fst s), snd x)))
    (zoom fst (fun c s => (c, snd s))).
End Components.
