(* ===== verification/CoreFacts.v ===== *)
(** * CoreFacts: a core that has started

    The log of a component's start as text, what each component leaves behind, and the theorem that a core
    started by [init_core] delivers every exception to its stub on the stack it needs. *)

From S2P Require Import Prelude Atomic Containers Boot Cpu Format Emit FormatFacts Descriptors Exceptions PanicFacts.
From S2P Require Import DescriptorsFacts Lapic LapicFacts InitGraph InitGraphFacts BootPlan Core.

(** ** The log *)

Definition core_prefix (core : option Z) : list char :=
  chars "[init]" ++ match core with None => [] | Some id => chars "[core " ++ decimal_text id ++ chars "]" end ++ chars " ".

Definition line_text (l : line) : list char :=
  match l with
  | Kernel_boot => chars "KERNEL BOOT"
  | Begin core name => core_prefix core ++ chars name
  | Succeeded core name => core_prefix core ++ chars name ++ chars ": OK"
  | Failed core name error => core_prefix core ++ chars name ++ chars ": FAIL (" ++ error_name error ++ chars ")"
  end ++ [10].

Definition line_ok (l : line) : Prop :=
  match l with
  | Kernel_boot => True
  | Begin core name | Succeeded core name | Failed core name _ =>
      string_arg (chars name) /\ match core with None => True | Some id => in_width 64 id end
  end.

Lemma error_field e : value_text default_format_spec (error_arg e) = Some (error_name e).
Proof. by destruct e. Qed.

Lemma error_typed e : typed (error_arg e).
Proof. by destruct e. Qed.

Lemma in_width_nonneg n : in_width 64 n -> 0 <= n.
Proof. by intros []. Qed.

#[local] Hint Resolve error_field error_typed typed_string typed_word in_width_nonneg : fields.

(** Every line of the log prints as its text. *)
Lemma outputs_print_line l : line_ok l -> outputs (print_line l) (line_text l).
Proof.
  destruct l as [|[id|] name|[id|] name|[id|] name e]; cbn [line_ok]; intros Hl;
    [| destruct Hl as [Hn Hid] ..]; unfold print_line, line_text, name_arg, c_string; apply outputs_line;
    try (repeat (apply Forall_cons; split; [auto with nocore fields|]); done).
  all: etransitivity; [render_fields; eauto with nocore fields | unfold core_prefix; rewrite <- ?app_assoc, ?app_nil_r; reflexivity].
Qed.

Section CoreFacts.
Context `{core_objects} `{exception_stubs} `{apic_device}.

(** The tables have their sizes, and no gate is set beyond the exceptions. *)
Record local_shape (s : local_state) : Prop := {
  shape_tss : segment_shape (tss_m s);
  shape_gdt : zlen (gdt_entries (gdt_m s)) = GDT_ENTRY_COUNT;
  shape_gates : zlen (exception_gates_m s) = IDT_ENTRY_COUNT;
  shape_idt : zlen (idt_entries (idt_m s)) = IDT_ENTRY_COUNT;
  shape_unset v : CPU_EXCEPTION_COUNT <= v < IDT_ENTRY_COUNT ->
    znth (exception_gates_m s) v = gate_spec_init;
}.

(** The stubs are addresses, and so are the objects. *)
Definition stubs_ok : Prop :=
  forall v, 0 <= v < CPU_EXCEPTION_COUNT -> in_width 64 (exception_stub v) /\ exception_stub v <> 0.

Definition the_stacks : stack_set := {|
  kernel_stack := describe_stack kernel_storage CORE_STACK_SIZE;
  double_fault := describe_stack double_fault_storage CORE_STACK_SIZE;
  nmi := describe_stack nmi_storage CORE_STACK_SIZE;
  machine_check := describe_stack machine_check_storage CORE_STACK_SIZE |}.

(** A component starts, and its two lines are printed, if there is a sink. *)
Definition logged_text (s : core) (c : core_component) : list char :=
  let id := Some (logical_id_m (bsp_state s)) in
  line_text (Begin id (core_name c)) ++ line_text (Succeeded id (core_name c)).

Lemma core_name_ok c : string_arg (chars (core_name c)).
Proof. destruct c; (split; [by repeat constructor | by vm_compute]). Qed.

Lemma wp_core_print l (Q : unit -> core -> Prop) s :
  line_ok l ->
  (forall t, passes (terminal s) t (line_text l) -> Q tt (set_terminal t s)) ->
  wp (core_print l) Q s.
Proof.
  intros Hl HQ. apply wp_zoom. eapply wp_mono; [by apply outputs_print_line|].
  intros [] t Hp. by apply HQ.
Qed.

Lemma wp_core_logged c s (Q : bool -> core -> Prop) :
  in_width 64 (logical_id_m (bsp_state s)) ->
  (forall t, wp (core_component_init c) (fun r s' => r = Ok tt /\ terminal s' = t /\
    logical_id_m (bsp_state s') = logical_id_m (bsp_state s) /\
    forall t', passes (terminal s) t' (logged_text s c) -> Q true (set_terminal t' s')) (set_terminal t s)) ->
  wp (run_component_logged c) Q s.
Proof.
  intros Hid Hc. unfold run_component_logged. cbn [begin core_logger ok fail].
  apply wp_bind, wp_bind, wp_gets, wp_core_print; [split; [apply core_name_ok | exact Hid]|].
  intros t Hp. apply wp_bind. eapply wp_mono; [apply Hc|]. intros r s' (-> & Ht' & Hid' & HQ). cbn beta iota.
  apply wp_bind, wp_bind, wp_gets. cbn [logical_id core_parts] in *. rewrite Hid'.
  apply wp_core_print; [split; [apply core_name_ok | exact Hid]|]. intros t2 Hp2.
  rewrite Ht' in Hp2. apply wp_ret, HQ. by eapply passes_app.
Qed.

(** *** What each component leaves behind *)

(** Binding a resource again is the identity. *)
Lemma rebind c s : set_bsp_state (set_bound c (bound c (bsp_state s)) (bsp_state s)) s = s.
Proof. destruct s as [[] ]. by destruct c. Qed.

Lemma wp_dep self d (Q : resource d -> core -> Prop) s :
  list_contains d (core_deps self) = true -> Q (bound d (bsp_state s)) s -> wp (dep self d) Q s.
Proof. intros Hd HQ. unfold dep. rewrite Hd. apply wp_zoom, wp_zoom, wp_gets. by rewrite rebind. Qed.

Lemma wp_own self {A} (m : kernel (resource self) A) (Q : A -> core -> Prop) s :
  owns_resource self = true ->
  wp m (fun a r => Q a (set_bsp_state (set_bound self r (bsp_state s)) s)) (bound self (bsp_state s)) ->
  wp (own self m) Q s.
Proof. intros Ho Hm. unfold own. rewrite Ho. by apply wp_zoom, wp_zoom. Qed.

Lemma wp_stacks_component (Q : init_result -> core -> Prop) s :
  Q (Ok tt) (set_bsp_state (set_stacks the_stacks (bsp_state s)) s) -> wp init_stacks_component Q s.
Proof. by intros. Qed.

Lemma wp_tss_component (Q : init_result -> core -> Prop) s :
  segment_shape (tss_m (bsp_state s)) ->
  Q (Ok tt) (set_bsp_state (set_tss (segment_of (config_of (stacks_m (bsp_state s)))) (bsp_state s)) s) ->
  wp init_tss_component Q s.
Proof.
  intros Hs HQ. unfold init_tss_component. apply wp_bind, (wp_dep TSS STACKS); [done|]. apply wp_bind, (wp_own TSS); [done|]. apply wp_tss_init; [done|]. by apply wp_ret.
Qed.

Lemma wp_gdt_component (Q : init_result -> core -> Prop) s :
  zlen (gdt_entries (gdt_m (bsp_state s))) = GDT_ENTRY_COUNT ->
  Q (Ok tt) (set_processor (effect (Ltr TSS_SELECTOR)
      (effect (Lgdt 55 gdt_address KERNEL_CODE_SELECTOR KERNEL_DATA_SELECTOR) (processor s)))
    (set_bsp_state (set_gdt gdt_of (bsp_state s)) s)) ->
  wp init_gdt_component Q s.
Proof.
  intros Hs HQ. unfold init_gdt_component. apply wp_bind, (wp_dep GDT TSS); [done|]. apply wp_bind, (wp_own GDT); [done|]. apply wp_gdt_init; [done|].
  apply wp_bind, (wp_own GDT); [done|]. exact HQ.
Qed.

Lemma wp_exceptions_component (Q : init_result -> core -> Prop) s :
  zlen (exception_gates_m (bsp_state s)) = IDT_ENTRY_COUNT ->
  (forall gates, gates_described (exception_gates_m (bsp_state s)) gates ->
    Q (Ok tt) (set_bsp_state (set_exception_gates gates (bsp_state s)) s)) ->
  wp init_exceptions_component Q s.
Proof.
  intros Hs HQ. unfold init_exceptions_component. apply wp_bind, (wp_own EXCEPTIONS); [done|]. apply wp_describe_gates; [done|]. intros g Hg. by apply wp_ret, HQ.
Qed.

Lemma wp_idt_component (Q : init_result -> core -> Prop) s :
  zlen (exception_gates_m (bsp_state s)) = IDT_ENTRY_COUNT ->
  zlen (idt_entries (idt_m (bsp_state s))) = IDT_ENTRY_COUNT ->
  (forall t, zlen (idt_entries t) = IDT_ENTRY_COUNT ->
    (forall v, 0 <= v < IDT_ENTRY_COUNT ->
      znth (idt_entries t) v = make_entry (znth (exception_gates_m (bsp_state s)) v) KERNEL_CODE_SELECTOR) ->
    Q (Ok tt) (set_processor (effect (Lidt 4095 idt_address) (processor s))
      (set_bsp_state (set_idt t (bsp_state s)) s))) ->
  wp init_idt_component Q s.
Proof.
  intros Hg Hs HQ. unfold init_idt_component. apply wp_bind, (wp_dep IDT EXCEPTIONS); [done|].
  apply wp_bind, (wp_dep IDT GDT); [done|]. apply wp_bind, (wp_own IDT); [done|].
  apply wp_idt_init; [done | done |].
  intros t Ht He Hp. apply wp_bind, (wp_own IDT); [done|]. apply wp_gets. apply wp_bind, wp_zoom, wp_modify.
  cbn [bound set_bound bsp_state idt_m set_bsp_state set_idt processor].
  rewrite Hp. apply wp_ret. by apply HQ.
Qed.

(** The control registers with the bits that the vector unit needs. *)
Definition fpu_cr0 (v : Z) : Z := Z.lor (Z.land v (bnot 64 CR0_EMULATION)) CR0_MONITOR_COPROCESSOR.
Definition fpu_cr4 (v : Z) : Z := Z.lor (Z.lor v CR4_OS_FXSR) CR4_OS_XMM_EXCEPT.

Lemma wp_fpu_component (Q : init_result -> core -> Prop) s :
  Q (Ok tt) (set_processor (effect Fninit (effect (Mov_cr4 (fpu_cr4 (cr4 (processor s))))
    (effect (Mov_cr0 (fpu_cr0 (cr0 (processor s)))) (processor s)))) s) ->
  wp init_fpu_component Q s.
Proof. by intros. Qed.

Lemma wp_lapic_component (Q : init_result -> core -> Prop) s :
  m_lapic_base_vaddr (apic s) <> 0 ->
  (forall old, Q (Ok tt) (set_apic {|
      m_lapic_base_vaddr := m_lapic_base_vaddr (apic s); m_lapic_base_paddr := m_lapic_base_paddr (apic s);
      accesses := Write (register_address (apic s) reg_eoi) 0 ::
        Write (register_address (apic s) reg_svr) (Z.lor SVR_APIC_ENABLE 0xFF) ::
        setup (apic s) old ++ accesses (apic s) |} s)) ->
  wp init_lapic_core_component Q s.
Proof.
  intros Hb HQ. unfold init_lapic_core_component. apply wp_bind, (wp_dep LAPIC_CORE IDT); [done|]. apply wp_zoom. eapply wp_intro; [apply init_core_run; by apply Z.eqb_neq|]. apply HQ.
Qed.

(** *** Deliveries *)

(** The stack of a vector, by the top of the stack: those of the interrupt that cannot be masked, the
    double fault and the machine check do not depend on the stack that was in use. *)
Definition stack_of_vector (v : Z) : option Z :=
  if v =? 2 then Some (u64 (nmi_storage + CORE_STACK_SIZE))
  else if v =? 8 then Some (u64 (double_fault_storage + CORE_STACK_SIZE))
  else if v =? 18 then Some (u64 (machine_check_storage + CORE_STACK_SIZE))
  else None.

Definition delivery_of_vector (v : Z) : option delivery :=
  if v <? CPU_EXCEPTION_COUNT then
    Some {| runs := exception_stub v; on_stack := stack_of_vector v; in_segment := KERNEL_CODE_SELECTOR;
            masks := negb ((v =? 3) || (v =? 4)) |}
  else None.

Lemma gate_of_vector v : 0 <= v < 32 ->
  interrupt_stack (exception_descriptor_for_vector v)
    = (if v =? 2 then 2 else if v =? 8 then 1 else if v =? 18 then 3 else 0) /\
  gate_attributes (exception_descriptor_for_vector v) = (if (v =? 3) || (v =? 4) then 0x8F else 0x8E).
Proof.
  intros Hv.
  assert (Hall : Forall (fun v =>
    interrupt_stack (exception_descriptor_for_vector v)
      = (if v =? 2 then 2 else if v =? 8 then 1 else if v =? 18 then 3 else 0) /\
    gate_attributes (exception_descriptor_for_vector v) = (if (v =? 3) || (v =? 4) then 0x8F else 0x8E))
    (Z.of_nat <$> seq 0 32)) by (by repeat constructor).
  apply (Forall_lookup_1 _ _ (Z.to_nat v) v Hall). rewrite list_lookup_fmap, lookup_seq_lt by lia.
  cbn. f_equal. lia.
Qed.

Lemma deliver_described idt v :
  stubs_ok -> 0 <= v < IDT_ENTRY_COUNT ->
  znth idt v = make_entry (if v <? CPU_EXCEPTION_COUNT then gate_of v else gate_spec_init) KERNEL_CODE_SELECTOR ->
  deliver idt (segment_of (config_of the_stacks)) v = delivery_of_vector v.
Proof.
  intros Hstubs Hv He. unfold deliver, delivery_of_vector. rewrite He.
  destruct (Z.ltb_spec v CPU_EXCEPTION_COUNT) as [Hlt|]; [|done].
  unfold CPU_EXCEPTION_COUNT in Hlt. destruct (Hstubs v ltac:(unfold CPU_EXCEPTION_COUNT; lia)) as [Hw Hne].
  destruct (gate_of_vector v ltac:(lia)) as [Hist Hattr].
  rewrite make_entry_offset, make_entry_stack by
    (done || (cbn [gate_of gate_ist]; rewrite Hist; by repeat case_match)).
  unfold make_entry, gate_present, gate_masks. cbn [gate_of entry_point gate_ist type_attributes].
  rewrite (proj2 (Z.eqb_neq _ _) Hne), Hist, Hattr. cbn [entry_type selector]. unfold stack_of_vector.
  destruct (Z.eqb_spec v 2) as [->|]; [done|]. destruct (Z.eqb_spec v 8) as [->|]; [done|].
  destruct (Z.eqb_spec v 18) as [->|]; [done|]. by destruct (_ || _).
Qed.

(** ** A core that has started *)

Definition core_text (s : core) (components : list core_component) : list char :=
  concat (logged_text s <$> components).

Record core_started (s s' : core) (components : list core_component) : Prop := {
  started_identity : logical_id_m (bsp_state s') = logical_id_m (bsp_state s);
  started_online : current_online_count s' = current_online_count s;
  started_gdt : gdt_m (bsp_state s') = gdt_of;
  started_stack : znth (rsp (tss_m (bsp_state s'))) 0 = u64 (kernel_storage + CORE_STACK_SIZE);
  started_executed : executed (processor s') =
    [Fninit; Mov_cr4 (fpu_cr4 (cr4 (processor s))); Mov_cr0 (fpu_cr0 (cr0 (processor s)));
     Lidt 4095 idt_address; Ltr TSS_SELECTOR;
     Lgdt 55 gdt_address KERNEL_CODE_SELECTOR KERNEL_DATA_SELECTOR] ++ executed (processor s);
  started_delivery v : 0 <= v < IDT_ENTRY_COUNT ->
    deliver (idt_entries (idt_m (bsp_state s'))) (tss_m (bsp_state s')) v = delivery_of_vector v;
  started_log : passes (terminal s) (terminal s') (core_text s components);
}.

Lemma wp_early_core s (Q : bool -> core -> Prop) :
  stubs_ok -> local_shape (bsp_state s) -> in_width 64 (logical_id_m (bsp_state s)) ->
  (forall s', core_started s s' early_core_order -> apic s' = apic s -> Q true s') ->
  wp (run_logged early_core_order) Q s.
Proof.
  intros Hstubs [Htss Hgdt Hgates Hidt Hunset] Hid HQ.
  destruct s as [ls n p a t]. cbn [bsp_state terminal] in *.
  unfold early_core_order, run_logged. cbn [all_true].
  apply wp_bind, wp_core_logged; [done|]. intros t0. apply wp_stacks_component.
  split; [done|]. split; [done|]. split; [done|]. intros t1 Hp1. cbn beta iota.
  apply wp_bind, wp_core_logged; [done|]. intros t01. apply wp_tss_component; [done|].
  split; [done|]. split; [done|]. split; [done|]. intros t2 Hp2. cbn beta iota.
  apply wp_bind, wp_core_logged; [done|]. intros t02. apply wp_gdt_component; [done|].
  split; [done|]. split; [done|]. split; [done|]. intros t3 Hp3. cbn beta iota.
  apply wp_bind, wp_core_logged; [done|]. intros t03. apply wp_exceptions_component; [done|].
  intros gates [Hglen Hgs].
  split; [done|]. split; [done|]. split; [done|]. intros t4 Hp4. cbn beta iota.
  apply wp_bind, wp_core_logged; [done|]. intros t04. apply wp_idt_component; [done | done|].
  intros table Htlen Hte.
  split; [done|]. split; [done|]. split; [done|]. intros t5 Hp5. cbn beta iota.
  apply wp_bind, wp_core_logged; [done|]. intros t05. apply wp_fpu_component.
  split; [done|]. split; [done|]. split; [done|]. intros t6 Hp6. cbn beta iota.
  apply wp_ret, HQ; [|done].
  split; try done.
  - intros v Hv. cbn [bsp_state set_bsp_state set_idt idt_m tss_m set_terminal set_processor set_exception_gates
      set_gdt set_tss set_stacks stacks_m] in *.
    apply deliver_described; [done | done|]. rewrite Hte, Hgs by done.
    destruct (Z.ltb_spec v CPU_EXCEPTION_COUNT); [done|].
    exact (f_equal (fun g => make_entry g KERNEL_CODE_SELECTOR) (Hunset v ltac:(lia))).
  - change (terminal _) with t in Hp1. change (terminal _) with t1 in Hp2.
    change (terminal _) with t2 in Hp3. change (terminal _) with t3 in Hp4.
    change (terminal _) with t4 in Hp5. change (terminal _) with t5 in Hp6.
    cbn [terminal set_terminal]. unfold core_text, early_core_order. cbn [fmap list_fmap concat].
    repeat (eapply passes_app; [eassumption|]). apply passes_nil.
Qed.

End CoreFacts.

(** The late component of a core whose controller has been found. *)
Section LateCore.
Context `{core_objects} `{exception_stubs} `{apic_device}.

(** The controller has been programmed: the last two accesses enable it and end what was in service. *)
Definition controller_enabled (before after : lapic) : Prop :=
  m_lapic_base_vaddr after = m_lapic_base_vaddr before /\
  exists old, accesses after =
    Write (register_address before reg_eoi) 0 ::
    Write (register_address before reg_svr) (Z.lor SVR_APIC_ENABLE 0xFF) :: setup before old ++ accesses before.

Lemma wp_late_core s (Q : bool -> core -> Prop) :
  m_lapic_base_vaddr (apic s) <> 0 -> in_width 64 (logical_id_m (bsp_state s)) ->
  (forall p t, controller_enabled (apic s) p -> passes (terminal s) t (logged_text s LAPIC_CORE) ->
    Q true (set_terminal t (set_apic p s))) ->
  wp (run_logged [LAPIC_CORE]) Q s.
Proof.
  intros Hb Hid HQ. unfold run_logged. cbn [all_true]. apply wp_bind, wp_core_logged; [done|]. intros t0.
  apply wp_lapic_component; [done|]. intros old. split; [done|]. split; [done|]. split; [done|].
  intros t Hp. apply wp_ret. cbn beta iota.
  apply (HQ {| m_lapic_base_vaddr := m_lapic_base_vaddr (apic s); m_lapic_base_paddr := m_lapic_base_paddr (apic s);
    accesses := _ |} t); [|done]. split; [done|]. by exists old.
Qed.
End LateCore.

Lemma wp_init_core `{core_objects} `{exception_stubs} `{apic_device} s :
  stubs_ok -> local_shape (bsp_state s) -> in_width 64 (logical_id_m (bsp_state s)) ->
  wp BootPlan.init_core (fun b s' => b = true /\
    if m_lapic_base_vaddr (apic s) =? 0 then core_started s s' early_core_order /\ apic s' = apic s
    else core_started s s' (early_core_order ++ [LAPIC_CORE]) /\ controller_enabled (apic s) (apic s')) s.
Proof.
  intros Hstubs Hshape Hid. unfold BootPlan.init_core, run_init_graph, run_init_graph_after.
  rewrite early_core_sorted, late_core_runnable. unfold compiled.
  apply wp_bind, wp_early_core; [done | done | done |]. intros s1 Hstarted Hapic. cbn [negb].
  apply wp_bind, wp_zoom, wp_gets. cbn beta. rewrite Hapic.
  assert (Hsame : set_apic (apic s) s1 = s1) by (rewrite <- Hapic; by destruct s1).
  rewrite Hsame. destruct (Z.eqb_spec (m_lapic_base_vaddr (apic s)) 0) as [E|E]; cbn [negb].
  - by apply wp_ret.
  - apply wp_late_core; [by rewrite Hapic | by rewrite (started_identity _ _ _ Hstarted)|].
    intros p t Hp Hprint. split; [done|]. split.
    + destruct Hstarted as [Hi Ho Hg Hst He Hd Hl]. split; try done.
      unfold core_text. rewrite fmap_app, concat_app. eapply passes_app; [exact Hl|].
      cbn [fmap list_fmap concat]. rewrite app_nil_r. unfold logged_text in *. by rewrite Hi in Hprint.
    + by rewrite <- Hapic.
Qed.

(** ** Properties *)

(** What a component may touch: it starts without reading a resource it has not declared, changes no
    resource but its own, and leaves the identity of the core alone. *)
Theorem component_frame `{core_objects} `{exception_stubs} `{apic_device} c s :
  local_shape (bsp_state s) -> m_lapic_base_vaddr (apic s) <> 0 ->
  wp (core_component_init c) (fun r s' =>
    r = Ok tt /\ (forall d, d <> c -> bound d (bsp_state s') = bound d (bsp_state s)) /\
    logical_id_m (bsp_state s') = logical_id_m (bsp_state s)) s.
Proof.
  intros [Htss Hgdt Hgates Hidt _] Hb. destruct c; cbn [core_component_init core_parts].
  - apply wp_stacks_component. split; [done|]. split; [by intros [] Hd|done].
  - apply wp_tss_component; [done|]. split; [done|]. split; [by intros [] Hd|done].
  - apply wp_gdt_component; [done|]. split; [done|]. split; [by intros [] Hd|done].
  - apply wp_exceptions_component; [done|]. intros g _. split; [done|]. split; [by intros [] Hd|done].
  - apply wp_idt_component; [done..|]. intros t _ _. split; [done|]. split; [by intros [] Hd|done].
  - apply wp_fpu_component. split; [done|]. split; [by intros [] Hd|done].
  - apply wp_lapic_component; [done|]. intros old. split; [done|]. split; [by intros [] Hd|done].
Qed.

(** C6: Starting a core.  From tables of the right sizes, [init_core] succeeds, and in what it leaves behind
    the processor delivers each of the 32 exceptions to its stub, in the kernel's code segment, the
    interrupt that cannot be masked, the double fault and the machine check on stacks of their own,
    breakpoints and overflows with interrupts on and every other exception with interrupts off; no other
    vector is delivered.  The tables are loaded before the gates, the vector unit is on, the interrupt
    controller is programmed if it has been found and not touched otherwise, and the log tells each start. *)
Theorem init_core_correct `{core_objects} `{exception_stubs} `{apic_device} s :
  stubs_ok -> local_shape (bsp_state s) -> in_width 64 (logical_id_m (bsp_state s)) ->
  wp BootPlan.init_core (fun b s' => b = true /\
    if m_lapic_base_vaddr (apic s) =? 0 then core_started s s' early_core_order /\ apic s' = apic s
    else core_started s s' (early_core_order ++ [LAPIC_CORE]) /\ controller_enabled (apic s) (apic s')) s.
Proof. apply wp_init_core. Qed.

(** Finding the controller at boot: the page is mapped and the core programs it, or the core is left as it
    was; afterwards each register reaches the controller's own. *)
Theorem init_lapic_correct `{core_objects} `{exception_stubs} `{apic_device} {S} `{mmio_window_laws S} address s :
  window_ok (snd s) -> in_width 64 address -> address <> 0 -> m_lapic_base_vaddr (apic (fst s)) = 0 ->
  in_width 64 (logical_id_m (bsp_state (fst s))) ->
  wp (init_lapic address) (fun r s' => window_ok (snd s') /\
    bsp_state (fst s') = bsp_state (fst s) /\ processor (fst s') = processor (fst s) /\
    match r with
    | Ok _ => exists p, accesses p = accesses (apic (fst s)) /\ m_lapic_base_vaddr p <> 0 /\
        controller_enabled p (apic (fst s')) /\
        forall x i, register_offset x -> 0 <= i < 4 ->
          device_byte (snd s') (register_address p x + i) (address + x + i)
    | Err e => e = NO_USABLE_MEMORY /\ fst s' = fst s
    end) s.
Proof.
  intros Hw Ha Hne Hb Hid. apply wp_bind, wp_zoom. eapply wp_mono; [by apply wp_lapic_init|].
  intros r [p w] (Hw' & Hacc & Hr). cbn [fst snd] in *. rewrite (proj2 (Z.eqb_neq _ _) Hne), Hb in Hr. cbn [Z.eqb negb] in Hr.
  destruct r as [[]|e]; cbn [is_err].
  - destruct Hr as (Hp & _ & Hmap). apply wp_bind, wp_zoom. unfold init_late_core, run_init_graph_after.
    rewrite late_core_runnable. unfold compiled. apply wp_late_core; [done | done|].
    intros q t Hq Hprint. apply wp_ret. cbn [fst snd]. split; [done|]. split; [done|]. split; [done|].
    exists p. split; [done|]. split; [done|]. by split.
  - destruct Hr as (-> & ->). apply wp_ret. cbn [fst snd]. split; [done|]. split; [done|]. split; [done|]. split; [done|].
    by destruct (fst s).
Qed.

(** ** The properties at work: a machine at reset *)
Section CoreWitnesses.

#[local] Instance boot_objects : core_objects := {|
  kernel_storage := 0xffffffff80010000; double_fault_storage := 0xffffffff80014000;
  nmi_storage := 0xffffffff80018000; machine_check_storage := 0xffffffff8001c000;
  tss_address := 0xffffffff80123456; gdt_address := 0xffffffff80124000; idt_address := 0xffffffff80125000 |}.

#[local] Instance boot_stubs : exception_stubs := {| exception_stub := fun v => 0xffffffff80100000 + 16 * v |}.

#[local] Instance quiet_device : apic_device := {| answer := fun _ _ => 0 |}.

Definition reset_core : core := {|
  bsp_state := local_state_init; current_online_count := 0;
  processor := {| cr0 := 0x80000011; cr3 := 0x1000; cr4 := 0x20; msrs := ∅; executed := [] |};
  apic := lapic_init; terminal := {| m_sink := 1; calls := [] |} |}.

Lemma reset_shape : local_shape (bsp_state reset_core).
Proof.
  split; [done | done | done | done|]. intros v Hv. unfold znth.
  apply lookup_total_replicate_2. unfold CPU_EXCEPTION_COUNT, IDT_ENTRY_COUNT in Hv. lia.
Qed.

Lemma boot_stubs_ok : stubs_ok.
Proof.
  unfold stubs_ok, in_width, CPU_EXCEPTION_COUNT. intros v Hv. cbn [exception_stub boot_stubs]. lia.
Qed.

(** A double fault of the core that has started runs on its own stack. *)
Lemma init_core_correct_witness :
  wp BootPlan.init_core (fun b s' => b = true /\
    deliver (idt_entries (idt_m (bsp_state s'))) (tss_m (bsp_state s')) 8 =
      Some {| runs := 0xffffffff80100080; on_stack := Some 0xffffffff80018000; in_segment := 8; masks := true |}) reset_core.
Proof.
  eapply wp_mono; [apply (init_core_correct reset_core); [exact boot_stubs_ok | exact reset_shape | by vm_compute]|].
  intros b s' [Hb [Hs _]]. split; [exact Hb|].
  rewrite (started_delivery _ _ _ Hs 8) by (unfold IDT_ENTRY_COUNT; lia). reflexivity.
Defined.

Section Machine.
Local Existing Instance Mmu.example_layout.
Local Existing Instance Mmu.example_layout_ok.
Local Existing Instance Mmu.example_image.
Local Existing Instance Mmu.example_features.

Lemma init_lapic_correct_witness :
  exists w, VmmFacts.vmm_ok Mmu.example_root ∅ w /\
    wp (init_lapic 0xfee00000) (fun r s' => bsp_state (fst s') = local_state_init) (reset_core, w).
Proof.
  destruct VmmFacts.example_vmm as (w & Hw). exists w. split; [exact Hw|].
  pose proof (init_lapic_correct (H3 := vmm_window_laws Mmu.example_root ∅) 0xfee00000 (reset_core, w) Hw
    ltac:(by vm_compute) ltac:(done) ltac:(reflexivity) ltac:(by vm_compute)) as Hinit.
  eapply wp_mono; [exact Hinit|]. intros r s' (_ & Hs & _). exact Hs.
Defined.
End Machine.
End CoreWitnesses.
