(* ===== verification/Runtime.v ===== *)
(** * Runtime: [kernel/runtime/memory.cpp], [cxx_abi.cpp] and [init.cpp]

    The functions of the C and C++ runtime that the compiler calls: memory blocks, the guards of static
    local variables, constructors and destructors.  The memory functions run on any state whose bytes can be
    accessed; an access to an address that is not mapped is [Undefined]. *)

From S2P Require Import Prelude Memory Atomic.

(** ** Memory *)

(** Access to the bytes of a state: an interface, which plain memory and mapped pages ([PosixMemory]) implement. *)
Class byte_access (S : Type) : Type := {
  load8 : Z -> kernel S Z;
  store8 : Z -> Z -> kernel S unit;
}.

(** The memory with the byte [b] at [a]. *)
Definition poke (m : memory) (a b : Z) : memory := fun x => if x =? a then Some b else m x.

#[export] Instance memory_access : byte_access memory := {|
  load8 a := fun m => match m a with Some b => Ret (u8 b, m) | None => Undefined end;
  store8 a b := fun m => match m a with Some _ => Ret (tt, poke m a b) | None => Undefined end;
|}.

Section Blocks.
Context {S : Type} `{byte_access S}.

(** A pointer result is the destination. *)
Definition memset (dest value count : Z) : kernel S Z :=
  let v := u8 value in
  for_range 0 count (fun i => store8 (dest + i) v);;
  mret dest.

Definition memcpy (dest src count : Z) : kernel S Z :=
  for_range 0 count (fun i => b ← load8 (src + i); store8 (dest + i) b);;
  mret dest.

Definition memmove (dest src count : Z) : kernel S Z :=
  if (dest =? src) || (count =? 0) then mret dest
  else
    (if dest <? src then
       for_range 0 count (fun i => b ← load8 (src + i); store8 (dest + i) b)
     else
       for_down count (fun i => b ← load8 (src + i); store8 (dest + i) b));;
    mret dest.

Definition memcmp (lhs rhs count : Z) : kernel S Z :=
  r ← scan_range 0 count (fun i =>
        a ← load8 (lhs + i); b ← load8 (rhs + i);
        mret (if negb (a =? b) then Some (a - b) else None));
  mret (match r with Some d => d | None => 0 end).
End Blocks.

(** ** Constructors and destructors

    The arrays of the linker are lists of functions on the rest of the program. *)
Section Constructors.
Context {W : Type} (init_array fini_array : list (kernel W unit)).

Fixpoint call_each (l : list (kernel W unit)) : kernel W unit :=
  match l with
  | [] => mret tt
  | f :: rest => f;; call_each rest
  end.

Definition call_global_constructors : kernel W unit := call_each init_array.

(** From the end of the array to its start. *)
Definition call_global_destructors : kernel W unit := call_each (rev fini_array).
End Constructors.

(** ** The guard of a static local variable

    The state is the guard's word. *)
Definition INITIALIZED : Z := Z.shiftl 1 0.
Definition IN_USE : Z := Z.shiftl 1 8.

(** One attempt of the loop of [__cxa_guard_acquire]: [Some r] is [return r]. *)
Definition guard_attempt : kernel Z (option Z) :=
  r ← ref_compare_exchange_with 0 IN_USE ACQ_REL ACQUIRE;
  let '(exchanged, expected) := r : bool * Z in
  if exchanged then mret (Some 1)
  else if negb (Z.land expected INITIALIZED =? 0) then mret (Some 0)
  else mret None.

(** The test before the loop. *)
Definition guard_done : kernel Z bool :=
  v ← ref_load ACQUIRE; mret (negb (Z.land v INITIALIZED =? 0)).

Fixpoint guard_loop (fuel : nat) : kernel Z Z :=
  match fuel with
  | O => diverge
  | S n => r ← guard_attempt; match r with Some v => mret v | None => guard_loop n end
  end.

(** The loop spins while another thread runs the initialiser. *)
Definition __cxa_guard_acquire (fuel : nat) : kernel Z Z :=
  initialized ← guard_done;
  if initialized : bool then mret 0 else guard_loop fuel.

Definition __cxa_guard_release : kernel Z unit := ref_store INITIALIZED RELEASE.

Definition __cxa_guard_abort : kernel Z unit := ref_store 0 RELEASE.
