(* ===== verification/RuntimeFacts.v ===== *)
(** * RuntimeFacts: what the runtime's functions do

    The memory functions as updates of a range, for overlapping ranges too; and a step relation for threads
    that reach the same static variable: its initialiser runs once. *)

From stdpp Require Import functions.
From S2P Require Import Prelude Memory Atomic Runtime.

(** ** Ranges *)

(** The memory with the bytes of [dest, dest + n) given by [f]. *)
Definition write_range (m : memory) (dest n : Z) (f : Z -> Z) : memory := fun a =>
  if (dest <=? a) && (a <? dest + n) then Some (f (a - dest)) else m a.

(** The byte at an address, as a [u8]. *)
Definition byte_at (m : memory) (a : Z) : Z := u8 (default 0 (m a)).

Lemma wp_load8 a (Q : Z -> memory -> Prop) m : is_Some (m a) -> Q (byte_at m a) m -> wp (load8 a) Q m.
Proof. intros [b Hb] HQ. unfold wp, load8, memory_access, byte_at in *. by rewrite Hb in *. Qed.

Lemma wp_store8 a b (Q : unit -> memory -> Prop) m : is_Some (m a) -> Q tt (poke m a b) -> wp (store8 a b) Q m.
Proof. intros [x Hx] HQ. unfold wp, store8, memory_access. by rewrite Hx. Qed.

(** Two memories that agree everywhere. *)
Definition same (m m' : memory) : Prop := forall a, m a = m' a.

Lemma wp_fill_up (m : memory) dest n (body : Z -> kernel memory unit) f (Q : unit -> memory -> Prop) :
  0 <= n ->
  (forall i m', 0 <= i < n -> same m' (write_range m dest i f) ->
    wp (body i) (fun _ m'' => same m'' (write_range m dest (i + 1) f)) m') ->
  (forall m', same m' (write_range m dest n f) -> Q tt m') ->
  wp (for_range 0 n body) Q m.
Proof.
  intros Hn Hbody HQ. apply (wp_for_range (fun i m' => same m' (write_range m dest i f))).
  - intros a. unfold write_range. destruct_comparisons; cbn; done || lia.
  - intros i m' Hi. by apply Hbody.
  - intros m' Hm. apply HQ. by rewrite Z.max_r in Hm by lia.
Qed.

Lemma write_range_step m dest i f (m' : memory) v :
  0 <= i -> same m' (write_range m dest i f) -> v = f i ->
  same (poke m' (dest + i) v) (write_range m dest (i + 1) f).
Proof.
  intros Hi Hm -> a. unfold poke. rewrite Hm. unfold write_range.
  destruct_comparisons; subst; cbn; try done; try lia. by replace (dest + i - dest) with i by lia.
Qed.

(** Memory the function may touch. *)
Lemma mapped_write m dest n f lo hi m' :
  mapped m lo hi -> same m' (write_range m dest n f) -> mapped m' lo hi.
Proof. intros Hm Hs a Ha. rewrite Hs. unfold write_range. destruct (_ && _); [by eexists | by apply Hm]. Qed.

(** The bytes of a copy of [n] bytes from [src] to [dest] read before any is overwritten. *)
Definition moved (m : memory) (dest src n : Z) : memory := write_range m dest n (fun i => byte_at m (src + i)).

Lemma wp_copy_up (m : memory) dest src n (Q : unit -> memory -> Prop) :
  0 <= n -> mapped m dest (dest + n) -> mapped m src (src + n) ->
  dest <= src \/ src + n <= dest ->
  (forall m', same m' (moved m dest src n) -> Q tt m') ->
  wp (for_range 0 n (fun i => b ← load8 (src + i); store8 (dest + i) b)) Q m.
Proof.
  intros Hn Hd Hs Hdir HQ. apply (wp_fill_up m dest n _ (fun i => byte_at m (src + i))); [done | | exact HQ].
  intros i m' Hi Hm. apply wp_bind, wp_load8; [eapply mapped_write; [exact Hs | done | lia]|].
  apply wp_store8; [eapply mapped_write; [exact Hd | done | lia]|].
  apply write_range_step; [lia | done|]. unfold byte_at. rewrite Hm. unfold write_range.
  by destruct_comparisons; cbn; try lia.
Qed.

Lemma wp_copy_down (m : memory) dest src n (Q : unit -> memory -> Prop) :
  0 <= n -> mapped m dest (dest + n) -> mapped m src (src + n) -> src < dest ->
  (forall m', same m' (moved m dest src n) -> Q tt m') ->
  wp (for_down n (fun i => b ← load8 (src + i); store8 (dest + i) b)) Q m.
Proof.
  intros Hn Hd Hs Hdir HQ.
  apply (wp_for_down (fun i m' => same m' (write_range m (dest + i) (n - i) (fun k => byte_at m (src + i + k))))).
  - done.
  - intros a. unfold write_range. destruct_comparisons; cbn; done || lia.
  - intros i m' Hi Hm. cbn beta in *.
    apply wp_bind, wp_load8; [eapply mapped_write; [exact Hs | done | lia]|].
    apply wp_store8; [eapply mapped_write; [exact Hd | done | lia]|].
    assert (Hb : byte_at m' (src + i) = byte_at m (src + i)).
    { unfold byte_at. rewrite Hm. unfold write_range. by destruct_comparisons; cbn; try lia. }
    intros a. unfold poke. rewrite Hm, Hb. unfold write_range.
    destruct_comparisons; subst; cbn; try done; try lia; do 2 f_equal; lia.
  - intros m' Hm. apply HQ. intros a. rewrite Hm. unfold moved, write_range.
    rewrite !Z.add_0_r, Z.sub_0_r. done.
Qed.

(** ** Properties of the memory functions *)

(** [memset] writes the low byte of the value to each byte of the range, and nothing else. *)
Theorem memset_correct m dest value count :
  0 <= count -> mapped m dest (dest + count) ->
  wp (memset dest value count) (fun r m' => r = dest /\ same m' (write_range m dest count (fun _ => u8 value))) m.
Proof.
  intros Hn Hd. unfold memset. apply wp_bind.
  apply (wp_fill_up m dest count _ (fun _ => u8 value)); [done | |].
  - intros i m' Hi Hm. apply wp_store8; [eapply mapped_write; [exact Hd | done | lia]|].
    by apply write_range_step; [lia | done|].
  - intros m' Hm. by apply wp_ret.
Qed.

(** [memmove] copies the bytes the source range had before the call, whether or not the ranges overlap, and
    changes nothing else; [memcpy] does the same when they do not. *)
Theorem memmove_correct m dest src count :
  0 <= count -> mapped m dest (dest + count) -> mapped m src (src + count) ->
  wp (memmove dest src count) (fun r m' => r = dest /\
    forall a, u8 (default 0 (m' a)) = if (dest <=? a) && (a <? dest + count)
      then byte_at m (src + (a - dest)) else byte_at m a) m /\
  (src + count <= dest \/ dest + count <= src ->
    wp (memcpy dest src count) (fun r m' => r = dest /\ same m' (moved m dest src count)) m).
Proof.
  intros Hn Hd Hs.
  assert (Hmoved : forall m', same m' (moved m dest src count) ->
    forall a, u8 (default 0 (m' a)) = if (dest <=? a) && (a <? dest + count)
      then byte_at m (src + (a - dest)) else byte_at m a).
  { intros m' Hm a. rewrite Hm. unfold moved, write_range. destruct (_ && _); [|done].
    cbn [default]. unfold byte_at, u8. apply wrap_small, wrap_range. lia. }
  split.
  - unfold memmove. destruct (Z.eqb_spec dest src) as [->|Hne]; cbn [orb].
    { apply wp_ret. split; [done|]. intros a. unfold byte_at. destruct (_ && _); [|done].
      by replace (src + (a - src)) with a by lia. }
    destruct (Z.eqb_spec count 0) as [->|Hc].
    { apply wp_ret. split; [done|]. intros a. destruct (_ && _) eqn:E; [lia | done]. }
    apply wp_bind. destruct (Z.ltb_spec dest src).
    + apply wp_copy_up; [done | done | done | lia|]. intros m' Hm. apply wp_ret. split; [done | by apply Hmoved].
    + apply wp_copy_down; [done | done | done | lia|]. intros m' Hm. apply wp_ret. split; [done | by apply Hmoved].
  - intros Hdis. unfold memcpy. apply wp_bind. apply wp_copy_up; [done | done | done | lia|].
    intros m' Hm. by apply wp_ret.
Qed.

(** [memcmp] is 0 exactly when the ranges are equal, and otherwise the difference of the first bytes that
    differ: its sign is the order of the ranges as sequences of unsigned bytes. *)
Theorem memcmp_correct m lhs rhs count :
  0 <= count -> mapped m lhs (lhs + count) -> mapped m rhs (rhs + count) ->
  wp (memcmp lhs rhs count) (fun r m' => m' = m /\
    (r = 0 /\ (forall i, 0 <= i < count -> byte_at m (lhs + i) = byte_at m (rhs + i)) \/
     exists i, 0 <= i < count /\ r = byte_at m (lhs + i) - byte_at m (rhs + i) /\ r <> 0 /\
       forall j, 0 <= j < i -> byte_at m (lhs + j) = byte_at m (rhs + j))) m.
Proof.
  intros Hn Hl Hr. unfold memcmp. apply wp_bind.
  apply (wp_scan_range
    (fun i m' => m' = m /\ forall j, 0 <= j < i -> byte_at m (lhs + j) = byte_at m (rhs + j))
    (fun d m' => m' = m /\ exists i, 0 <= i < count /\ d = byte_at m (lhs + i) - byte_at m (rhs + i) /\ d <> 0 /\
       forall j, 0 <= j < i -> byte_at m (lhs + j) = byte_at m (rhs + j))).
  - split; [done|]. lia.
  - intros i m' Hi [-> Hsame]. apply wp_bind, wp_load8; [apply Hl; lia|].
    apply wp_bind, wp_load8; [apply Hr; lia|]. apply wp_ret.
    destruct (Z.eqb_spec (byte_at m (lhs + i)) (byte_at m (rhs + i))) as [E|E]; cbn [negb].
    + split; [done|]. intros j Hj. destruct (Z.eq_dec j i) as [->|]; [done | apply Hsame; lia].
    + split; [done|]. exists i. split; [done|]. split; [done|]. split; [lia | done].
  - intros d m' [-> Hd]. apply wp_ret. split; [done|]. by right.
  - intros m' [-> Hsame]. apply wp_ret. split; [done|]. left. split; [done|].
    intros i Hi. apply Hsame. lia.
Qed.

(** ** Threads that reach the same static variable

    What the compiler generates: the guard is acquired; a 1 means that this thread runs the initialiser and
    then releases the guard, or aborts it and tries again; a 0 means that the variable is ready. *)
Section Guards.

Inductive position : Type :=
| Arriving
| Waiting
| Initialising
| Using.

Record system : Type := { guard : Z; completed : Z; threads : nat -> position }.

Definition move (st : system) (g n : Z) (t : nat) (p : position) : system :=
  {| guard := g; completed := n; threads := <[t := p]> (threads st) |}.

(** One access of one thread to the guard; [completed] counts the runs of the initialiser that ended. *)
Inductive step : system -> system -> Prop :=
| step_test st t b g :
    threads st t = Arriving -> guard_done (guard st) = Ret (b, g) ->
    step st (move st g (completed st) t (if b : bool then Using else Waiting))
| step_attempt st t r g :
    threads st t = Waiting -> guard_attempt (guard st) = Ret (r, g) ->
    step st (move st g (completed st) t
      (match r with Some v => if v =? 1 then Initialising else Using | None => Waiting end))
| step_release st t g :
    threads st t = Initialising -> __cxa_guard_release (guard st) = Ret (tt, g) ->
    step st (move st g (completed st + 1) t Using)
| step_abort st t g :
    threads st t = Initialising -> __cxa_guard_abort (guard st) = Ret (tt, g) ->
    step st (move st g (completed st) t Arriving).

Definition initial : system := {| guard := 0; completed := 0; threads := fun _ => Arriving |}.

Inductive reachable : system -> Prop :=
| reachable_initial : reachable initial
| reachable_step st st' : reachable st -> step st st' -> reachable st'.

(** The guard is free and nobody uses the variable; or one thread runs the initialiser; or the
    variable is ready. *)
Inductive guard_state (st : system) : Prop :=
| guard_free :
    guard st = 0 -> completed st = 0 ->
    (forall t, threads st t = Arriving \/ threads st t = Waiting) -> guard_state st
| guard_busy t :
    guard st = IN_USE -> completed st = 0 -> threads st t = Initialising ->
    (forall t', t' <> t -> threads st t' = Arriving \/ threads st t' = Waiting) -> guard_state st
| guard_ready :
    guard st = INITIALIZED -> completed st = 1 ->
    (forall t, threads st t <> Initialising) -> guard_state st.

Lemma threads_move st g n t p t' : threads (move st g n t p) t' = if decide (t' = t) then p else threads st t'.
Proof.
  cbn. destruct (decide (t' = t)) as [->|]; [apply fn_lookup_insert | by apply fn_lookup_insert_ne].
Qed.

Ltac thread_cases := intros t'; rewrite threads_move; case_decide; [eauto | auto].

Lemma guard_state_step st st' : guard_state st -> step st st' -> guard_state st'.
Proof.
  intros Hst Hstep. destruct Hst as [Hg Hn Ht | t0 Hg Hn Hi Ht | Hg Hn Ht];
    destruct Hstep as [st t b g Hp Hrun | st t r g Hp Hrun | st t g Hp Hrun | st t g Hp Hrun];
    rewrite Hg in Hrun; vm_compute in Hrun; simplify_eq; cbn.
  - apply guard_free; [done | done | thread_cases].
  - apply (guard_busy _ t); [done | done | by rewrite threads_move, decide_True|].
    intros t' Hne. rewrite threads_move, decide_False by done. apply Ht.
  - exfalso. destruct (Ht t); congruence.
  - exfalso. destruct (Ht t); congruence.
  - apply (guard_busy _ t0); [done | done | |].
    + rewrite threads_move. case_decide; [congruence | done].
    + intros t' Hne. rewrite threads_move. case_decide; [auto | by apply Ht].
  - apply (guard_busy _ t0); [done | done | |].
    + rewrite threads_move. case_decide; [congruence | done].
    + intros t' Hne. rewrite threads_move. case_decide; [auto | by apply Ht].
  - apply guard_ready; [done | cbn; lia |]. intros t'. rewrite threads_move. case_decide; [done|].
    destruct (decide (t' = t0)) as [->|Hne]; [|destruct (Ht t' Hne); congruence].
    destruct (Ht t ltac:(done)); congruence.
  - apply guard_free; [done | done|]. intros t'. rewrite threads_move. case_decide; [auto|].
    destruct (decide (t' = t0)) as [->|Hne]; [|by apply Ht]. destruct (Ht t ltac:(done)); congruence.
  - apply guard_ready; [done | done|]. intros t'. rewrite threads_move. by case_decide.
  - apply guard_ready; [done | done|]. intros t'. rewrite threads_move. by case_decide.
  - by destruct (Ht t).
  - by destruct (Ht t).
Qed.

Lemma reachable_guard st : reachable st -> guard_state st.
Proof.
  induction 1 as [|st st' _ IH Hstep]; [by apply guard_free; auto|]. by eapply guard_state_step.
Qed.

(** C29: Whatever the interleaving: at most one thread runs the initialiser, it completes at most once, and a
    thread that uses the variable does so after it has completed and while nobody runs it. *)
Theorem static_initialised_once st :
  reachable st ->
  (forall t1 t2, threads st t1 = Initialising -> threads st t2 = Initialising -> t1 = t2) /\
  0 <= completed st <= 1 /\
  (forall t, threads st t = Using -> completed st = 1 /\ forall t', threads st t' <> Initialising).
Proof.
  intros Hr. destruct (reachable_guard st Hr) as [Hg Hn Ht | t0 Hg Hn Hi Ht | Hg Hn Ht]; rewrite Hn.
  - split; [|split; [lia|]].
    + intros t1 t2 H1. destruct (Ht t1); congruence.
    + intros t H1. destruct (Ht t); congruence.
  - split; [|split; [lia|]].
    + intros t1 t2 H1 H2. destruct (decide (t1 = t0)) as [->|N1]; [|destruct (Ht t1 N1); congruence].
      destruct (decide (t2 = t0)) as [->|N2]; [done | destruct (Ht t2 N2); congruence].
    + intros t H1. destruct (decide (t = t0)) as [->|N]; [congruence | destruct (Ht t N); congruence].
  - split; [|split; [lia|]].
    + intros t1 t2 H1. by destruct (Ht t1).
    + done.
Qed.
End Guards.

(** ** The properties at work *)

Definition four_bytes : memory := image_at 100 [1; 2; 3; 4].

Lemma four_bytes_mapped lo hi : 100 <= lo -> hi <= 104 -> mapped four_bytes lo hi.
Proof. intros Hlo Hhi a Ha. apply (mapped_image 100 [1; 2; 3; 4] 104 eq_refl). lia. Qed.

Lemma memset_correct_witness :
  wp (memset 101 0x1ff 2) (fun _ m => m 100 = Some 1 /\ m 101 = Some 255 /\ m 102 = Some 255 /\ m 103 = Some 4) four_bytes.
Proof.
  eapply wp_mono; [apply (memset_correct four_bytes 101 0x1ff 2); [lia | apply four_bytes_mapped; lia]|].
  intros r m [_ Hm]. rewrite !Hm. repeat split.
Defined.

(** Overlapping ranges, upwards. *)
Lemma memmove_correct_witness :
  wp (memmove 101 100 3) (fun _ m => byte_at m 100 = 1 /\ byte_at m 101 = 1 /\ byte_at m 102 = 2 /\ byte_at m 103 = 3) four_bytes.
Proof.
  eapply wp_mono.
  { apply (memmove_correct four_bytes 101 100 3); [lia | apply four_bytes_mapped; lia | apply four_bytes_mapped; lia]. }
  intros r m [_ Hm]. unfold byte_at at 1 2 3 4. rewrite !Hm. repeat split.
Defined.

Lemma memcmp_correct_witness : wp (memcmp 100 102 2) (fun r _ => r <> 0) four_bytes.
Proof.
  eapply wp_mono.
  { apply (memcmp_correct four_bytes 100 102 2); [lia | apply four_bytes_mapped; lia | apply four_bytes_mapped; lia]. }
  intros r m [_ [[_ Hsame]|(i & _ & _ & Hr & _)]]; [|exact Hr].
  specialize (Hsame 0 ltac:(lia)). discriminate Hsame.
Defined.

(** Thread 0 has initialised the variable while thread 1 waited. *)
Lemma raced : exists st, reachable st /\ threads st 0%nat = Using /\ threads st 1%nat = Waiting.
Proof.
  pose proof reachable_initial as R.
  eapply reachable_step in R; [|eapply (step_test _ 0%nat); reflexivity].
  eapply reachable_step in R; [|eapply (step_attempt _ 0%nat); reflexivity].
  eapply reachable_step in R; [|eapply (step_test _ 1%nat); reflexivity].
  eapply reachable_step in R; [|eapply (step_attempt _ 1%nat); reflexivity].
  eapply reachable_step in R; [|eapply (step_release _ 0%nat); reflexivity].
  eexists. split; [exact R | by split].
Qed.

Lemma static_initialised_once_witness :
  exists st, reachable st /\ threads st 0%nat = Using /\ completed st = 1.
Proof.
  destruct raced as (st & Hr & H0 & _). exists st. split; [exact Hr|]. split; [exact H0|].
  destruct (static_initialised_once st Hr) as (_ & _ & Hu). exact (proj1 (Hu 0%nat H0)).
Defined.
