(* ===== verification/Serial.v ===== *)
(** * Serial: the serial line, [arch/x86_64/serial/io.hpp] and [serial.cpp]

    The state of this component is the sequence of port accesses; what a port answers is the machine's, a
    function of the accesses so far (class [port_device]).  A wait for the transmitter polls the line status,
    so the writers take fuel. *)

From S2P Require Import Prelude Bits Containers Format Emit.

(** ** Ports *)

Inductive port_access : Type :=
| Out (port value : Z)
| In (port value : Z).

#[export] Instance port_access_eq_dec : EqDecision port_access.
Proof. solve_decision. Defined.

(** The accesses so far, newest first. *)
Definition ports : Type := list port_access.

(** What a port answers after some accesses. *)
Class port_device : Type := { port_answer : ports -> Z -> Z }.

Definition outb (port value : Z) : kernel ports unit := modify (cons (Out port value)).

Section Serial.
Context `{port_device}.

Definition inb (port : Z) : kernel ports Z := fun h =>
  let value := u8 (port_answer h port) in Ret (value, In port value :: h).

(** ** The registers of the line *)

Definition COM1 : Z := 0x3F8.

Definition DATA_PORT : Z := COM1 + 0.
Definition INTERRUPT_ENABLE : Z := COM1 + 1.
Definition FIFO_CONTROL : Z := COM1 + 2.
Definition LINE_CONTROL : Z := COM1 + 3.
Definition MODEM_CONTROL : Z := COM1 + 4.
Definition LINE_STATUS : Z := COM1 + 5.

Definition UART_BASE_CLOCK_HZ : Z := 115200.
Definition BAUD_RATE : Z := 38400.
Definition BAUD_DIVISOR : Z := u16 (UART_BASE_CLOCK_HZ / BAUD_RATE).

Definition LINE_CONTROL_DLAB : Z := bit 8 7.
Definition LINE_CONTROL_8N1 : Z := 0x03.
Definition FIFO_ENABLE_CLEAR_14 : Z := 0xC7.
Definition MODEM_DTR_RTS_OUT2 : Z := 0x0B.
Definition LINE_STATUS_TX_EMPTY : Z := bit 8 5.

(** ** The line *)

(** [serial::init]. *)
Definition serial_init : kernel ports unit :=
  outb INTERRUPT_ENABLE 0x00;;
  outb LINE_CONTROL LINE_CONTROL_DLAB;;
  outb DATA_PORT (u8 (Z.land BAUD_DIVISOR 0xFF));;
  outb INTERRUPT_ENABLE (u8 (Z.land (Z.shiftr BAUD_DIVISOR 8) 0xFF));;
  outb LINE_CONTROL LINE_CONTROL_8N1;;
  outb FIFO_CONTROL FIFO_ENABLE_CLEAR_14;;
  outb MODEM_CONTROL MODEM_DTR_RTS_OUT2.

Definition can_write : kernel ports bool :=
  status ← inb LINE_STATUS; mret (negb (Z.land status LINE_STATUS_TX_EMPTY =? 0)).

Definition CARRIAGE_RETURN : char := 13.
Definition NEW_LINE : char := 10.

Section Writing.
Context (fuel : nat).

Definition write_char (c : char) : kernel ports unit :=
  while fuel (fun _ => ready ← can_write; mret (negb ready)) (fun _ => mret tt) tt;;
  outb DATA_PORT (u8 c).

(** The loop of [serial::write] over a string that is not null. *)
Definition write_text (s : text) : kernel ports unit :=
  while (match s with Some l => length l | None => 1%nat end)
    (fun i => c ← char_at s i; mret (negb (c =? NUL)))
    (fun i =>
       c ← char_at s i;
       when (c =? NEW_LINE) (write_char CARRIAGE_RETURN);;
       write_char c;;
       mret (i + 1))
    0;;
  mret tt.

(** [serial::write]. *)
Definition serial_write (s : text) : kernel ports unit :=
  match s with
  | None => write_text NULL_TEXT
  | Some _ => write_text s
  end.

Definition console_sink (bytes : text) (length : Z) : kernel ports unit :=
  for_range 0 length (fun index =>
    c ← char_at bytes index;
    when (c =? NEW_LINE) (write_char CARRIAGE_RETURN);;
    write_char c).
End Writing.
End Serial.

(** The sink of the console that is [serial::console_sink]. *)
Definition SERIAL_SINK : Z := 1.

Definition attach_console : kernel console unit := set_console_sink SERIAL_SINK.

(** [serial::component]: the state is the ports and the console. *)
Definition serial_component : kernel (ports * console) unit :=
  zoom fst (fun p s => (p, snd s)) serial_init;;
  zoom snd (fun c s => (fst s, c)) attach_console.
