(* ===== verification/SerialFacts.v ===== *)
(** * SerialFacts: what reaches the serial line

    A model of the line's controller, a 16550, as the meaning of a sequence of port accesses: what has been
    configured, and which bytes have been sent.  A byte written while the transmitter is not known to be empty is
    counted as lost.  The writers of [Serial] send their text and lose nothing; and so does the console. *)

From S2P Require Import Prelude Bits Containers Format Emit FormatFacts Serial.
Import FixedStringFacts.

(** ** The controller *)

Record settings : Type := {
  divisor_latch : bool;
  divisor_low : Z;
  divisor_high : Z;
  enabled_interrupts : Z;
  line : Z;
  fifo : Z;
  modem : Z;
}.

Record uart : Type := {
  configured : settings;
  idle : bool;
  sent : list Z;
  lost : list Z;
}.

Definition configure (f : settings -> settings) (u : uart) : uart :=
  {| configured := f (configured u); idle := idle u; sent := sent u; lost := lost u |}.

Definition set_divisor_low v s := {| divisor_latch := divisor_latch s; divisor_low := v;
  divisor_high := divisor_high s; enabled_interrupts := enabled_interrupts s; line := line s; fifo := fifo s;
  modem := modem s |}.
Definition set_divisor_high v s := {| divisor_latch := divisor_latch s; divisor_low := divisor_low s;
  divisor_high := v; enabled_interrupts := enabled_interrupts s; line := line s; fifo := fifo s;
  modem := modem s |}.
Definition set_interrupts v s := {| divisor_latch := divisor_latch s; divisor_low := divisor_low s;
  divisor_high := divisor_high s; enabled_interrupts := v; line := line s; fifo := fifo s; modem := modem s |}.
Definition set_line v s := {| divisor_latch := Z.testbit v 7; divisor_low := divisor_low s;
  divisor_high := divisor_high s; enabled_interrupts := enabled_interrupts s; line := Z.land v 0x7F;
  fifo := fifo s; modem := modem s |}.
Definition set_fifo v s := {| divisor_latch := divisor_latch s; divisor_low := divisor_low s;
  divisor_high := divisor_high s; enabled_interrupts := enabled_interrupts s; line := line s; fifo := v;
  modem := modem s |}.
Definition set_modem v s := {| divisor_latch := divisor_latch s; divisor_low := divisor_low s;
  divisor_high := divisor_high s; enabled_interrupts := enabled_interrupts s; line := line s; fifo := fifo s;
  modem := v |}.

(** A byte written to the data port. *)
Definition transmit (v : Z) (u : uart) : uart :=
  if idle u
  then {| configured := configured u; idle := false; sent := sent u ++ [v]; lost := lost u |}
  else {| configured := configured u; idle := false; sent := sent u; lost := lost u ++ [v] |}.

(** What an access does; with the latch bit of the line control set, two ports are the divisor. *)
Definition uart_step (a : port_access) (u : uart) : uart :=
  match a with
  | In p v =>
      if p =? 0x3FD
      then {| configured := configured u; idle := Z.testbit v 5; sent := sent u; lost := lost u |}
      else u
  | Out p v =>
      let latch := divisor_latch (configured u) in
      if p =? 0x3F8 then (if latch then configure (set_divisor_low v) u else transmit v u)
      else if p =? 0x3F9 then configure (if latch then set_divisor_high v else set_interrupts v) u
      else if p =? 0x3FA then configure (set_fifo v) u
      else if p =? 0x3FB then configure (set_line v) u
      else if p =? 0x3FC then configure (set_modem v) u
      else u
  end.

(** The controller after the accesses of a history, newest first. *)
Definition uart_after (u : uart) (h : ports) : uart := foldr uart_step u h.

(** The bits per second of a divisor. *)
Definition baud (s : settings) : Z := 115200 / (divisor_low s + 256 * divisor_high s).

(** ** Waiting for the transmitter *)
Section Line.
Context `{port_device}.

Definition status_after (h : ports) : Z := u8 (port_answer h LINE_STATUS).
Definition tx_empty (h : ports) : bool := Z.testbit (status_after h) 5.
Definition poll (h : ports) : ports := In LINE_STATUS (status_after h) :: h.

(** Whatever has happened, the transmitter is empty after at most [n] more looks at its status. *)
Definition patience (n : nat) : Prop := forall h, exists k, (k <= n)%nat /\ tx_empty (Nat.iter k poll h) = true.

Lemma land_bit5 v : negb (Z.land v LINE_STATUS_TX_EMPTY =? 0) = Z.testbit v 5.
Proof.
  change LINE_STATUS_TX_EMPTY with (2 ^ 5). destruct (Z.eqb_spec (Z.land v (2 ^ 5)) 0) as [Hz|Hz]; cbn [negb].
  - apply (f_equal (fun x => Z.testbit x 5)) in Hz. by rewrite Z.land_spec, Z.bits_0, andb_true_r in Hz.
  - destruct (Z.testbit v 5) eqn:E; [done|]. exfalso. apply Hz.
    apply Z.bits_inj'. intros i Hi. rewrite Z.land_spec, Z.pow2_bits_eqb, Z.bits_0 by lia.
    destruct (Z.eqb_spec 5 i) as [<-|]; [by rewrite E | apply andb_false_r].
Qed.

Lemma can_write_run h : can_write h = Ret (tx_empty h, poll h).
Proof. unfold can_write, mbind, kernel_bind, inb. fold (status_after h). unfold mret, kernel_ret. by rewrite land_bit5. Qed.

(** The wait ends at the first look that finds the transmitter empty. *)
Lemma wp_wait fuel n h :
  (n < fuel)%nat -> tx_empty (Nat.iter n poll h) = true ->
  wp (while fuel (fun _ : unit => ready ← can_write; mret (negb ready)) (fun _ => mret tt) tt)
    (fun _ h' => exists k, (k <= n)%nat /\ h' = poll (Nat.iter k poll h) /\ tx_empty (Nat.iter k poll h) = true /\
      forall j, (j < k)%nat -> tx_empty (Nat.iter j poll h) = false) h.
Proof.
  revert n h. induction fuel as [|fuel IH]; intros n h Hn Hready; [lia|]. cbn [while].
  apply wp_bind, wp_bind. eapply wp_intro; [apply can_write_run|]. apply wp_ret.
  destruct (tx_empty h) eqn:E; cbn [negb].
  - apply wp_ret. exists 0%nat. split; [lia|]. split; [done|]. split; [done|]. intros j Hj. lia.
  - destruct n as [|n]; [cbn [Nat.iter nat_rect] in Hready; congruence|]. apply wp_bind, wp_ret.
    rewrite Nat.iter_succ_r in Hready.
    eapply wp_mono; [apply (IH n (poll h)); [lia | done]|]. intros [] h' (k & Hk & -> & Hkr & Hfirst).
    exists (S k). rewrite Nat.iter_succ_r. split; [lia|]. split; [done|]. split; [done|].
    intros [|j] Hj; [done|]. rewrite Nat.iter_succ_r. apply Hfirst. lia.
Qed.

Lemma uart_after_polls k u h :
  configured (uart_after u (Nat.iter k poll h)) = configured (uart_after u h) /\
  sent (uart_after u (Nat.iter k poll h)) = sent (uart_after u h) /\
  lost (uart_after u (Nat.iter k poll h)) = lost (uart_after u h).
Proof. induction k as [|k IH]; [done|]. exact IH. Qed.

(** ** Sending *)

(** [m] sends the bytes [out] after what was sent before, loses none, and changes no setting. *)
Definition transmits (m : kernel ports unit) (out : list Z) : Prop :=
  forall u h, divisor_latch (configured (uart_after u h)) = false ->
    wp m (fun _ h' => configured (uart_after u h') = configured (uart_after u h) /\
      sent (uart_after u h') = sent (uart_after u h) ++ out /\
      lost (uart_after u h') = lost (uart_after u h)) h.

Lemma transmits_ret : transmits (mret tt) [].
Proof. intros u h Hd. apply wp_ret. by rewrite app_nil_r. Qed.

Lemma transmits_seq m k a b : transmits m a -> transmits k b -> transmits (m;; k) (a ++ b).
Proof.
  intros Hm Hk u h Hd. apply wp_bind. eapply wp_mono; [by apply Hm|]. intros [] h1 (Hc1 & Hs1 & Hl1).
  eapply wp_mono; [apply (Hk u); by rewrite Hc1|]. intros [] h2 (Hc2 & Hs2 & Hl2).
  rewrite Hc2, Hs2, Hl2, Hs1, Hl1, app_assoc. done.
Qed.

Lemma transmits_for n (body : Z -> kernel ports unit) out :
  0 <= n -> (forall i, 0 <= i < n -> transmits (body i) (out i)) ->
  transmits (for_range 0 n body) (concat (out <$> seqZ 0 n)).
Proof.
  intros Hn Hbody u h Hd. apply (wp_for_range (fun i h' =>
    configured (uart_after u h') = configured (uart_after u h) /\
    sent (uart_after u h') = sent (uart_after u h) ++ concat (out <$> seqZ 0 i) /\
    lost (uart_after u h') = lost (uart_after u h))).
  - by rewrite app_nil_r.
  - intros i h' Hi (Hc & Hs & Hl). eapply wp_mono; [apply (Hbody i Hi u); by rewrite Hc|].
    intros [] h2 (Hc2 & Hs2 & Hl2). rewrite Hc2, Hs2, Hl2, Hs, Hl, <- app_assoc. split; [done|]. split; [|done].
    rewrite seqZ_app, fmap_app, concat_app by lia. do 2 f_equal.
    rewrite (seqZ_cons _ 1), (seqZ_nil _ (Z.pred 1)), Z.add_0_l by lia. cbn [fmap list_fmap concat]. by rewrite app_nil_r.
  - intros h' Hq. by rewrite Z.max_r in Hq by lia.
Qed.

(** The bytes of a text on the line: a line feed follows a carriage return. *)
Definition on_wire (c : char) : list Z := if c =? NEW_LINE then [13; 10] else [u8 c].
Definition wire (l : list char) : list Z := concat (on_wire <$> l).

Lemma wire_app a b : wire (a ++ b) = wire a ++ wire b.
Proof. unfold wire. by rewrite fmap_app, concat_app. Qed.

Section Writers.
Context (fuel n : nat) (Hpatience : patience n) (Hfuel : (n < fuel)%nat).

Lemma transmits_char c : transmits (write_char fuel c) [u8 c].
Proof.
  intros u h Hd. destruct (Hpatience h) as (k & Hk & Hready). unfold write_char. apply wp_bind.
  eapply wp_mono; [apply (wp_wait fuel k); [lia | done]|]. intros [] h1 (j & Hj & -> & Hempty & _).
  apply wp_modify. destruct (uart_after_polls j u h) as (Hc & Hs & Hl).
  set (hj := Nat.iter j poll h) in *. change (uart_after u (Out DATA_PORT (u8 c) :: poll hj)) with
    (uart_step (Out DATA_PORT (u8 c)) (uart_step (In LINE_STATUS (status_after hj)) (uart_after u hj))).
  cbn [uart_step]. change (LINE_STATUS =? 0x3FD) with true. change (DATA_PORT =? 0x3F8) with true.
  cbn [configured]. rewrite Hc, Hd. unfold transmit. cbn [idle configured sent lost].
  change (Z.testbit (status_after hj) 5) with (tx_empty hj). rewrite Hempty. cbn [configured sent lost].
  by rewrite Hs, Hl.
Qed.

Definition before (c : char) : list Z := if c =? NEW_LINE then [13] else [].

Lemma transmits_return c : transmits (when (c =? NEW_LINE) (write_char fuel CARRIAGE_RETURN)) (before c).
Proof. unfold before, when. destruct (c =? NEW_LINE); [apply (transmits_char CARRIAGE_RETURN) | apply transmits_ret]. Qed.

Lemma on_wire_before c : on_wire c = before c ++ [u8 c].
Proof. unfold on_wire, before. by destruct (Z.eqb_spec c NEW_LINE) as [->|]. Qed.

Lemma wire_one c : wire [c] = before c ++ [u8 c].
Proof. rewrite <- on_wire_before. unfold wire. cbn [fmap list_fmap concat]. apply app_nil_r. Qed.

Lemma transmits_sink_char c :
  transmits (when (c =? NEW_LINE) (write_char fuel CARRIAGE_RETURN);; write_char fuel c) (on_wire c).
Proof.
  rewrite on_wire_before. apply transmits_seq; [apply transmits_return | apply transmits_char].
Qed.

Lemma transmits_sink l count :
  0 <= count <= zlen l -> transmits (console_sink fuel (Some l) count) (wire (take (Z.to_nat count) l)).
Proof.
  intros Hn. replace (wire (take (Z.to_nat count) l)) with (concat ((fun i => on_wire (znth l i)) <$> seqZ 0 count)).
  - apply transmits_for; [lia|]. intros i Hi u h Hd. apply wp_bind, wp_observe.
    apply wp_array_get; [lia|]. by apply transmits_sink_char.
  - unfold wire. f_equal. etrans; [apply (list_fmap_compose (znth l) on_wire)|]. f_equal.
    apply list_eq_same_length with (Z.to_nat count); [|rewrite length_fmap, length_seqZ; lia|].
    { rewrite length_take. unfold zlen in *. lia. }
    intros i x y Hi Hx Hy. rewrite list_lookup_fmap, lookup_seqZ_lt in Hx by lia. injection Hx as <-.
    rewrite lookup_take_lt in Hy by lia. unfold znth.
    rewrite Z.add_0_l, Nat2Z.id. by apply list_lookup_total_correct.
Qed.

Lemma transmits_text l :
  zlen (cstring l) < zlen l -> transmits (write_text fuel (Some l)) (wire (cstring l)).
Proof.
  intros Hl u h Hd. apply wp_bind. apply wp_while with
    (Inv := fun i h' => exists p b, cstring l = p ++ b /\ zlen p = i /\
       configured (uart_after u h') = configured (uart_after u h) /\
       sent (uart_after u h') = sent (uart_after u h) ++ wire p /\
       lost (uart_after u h') = lost (uart_after u h))
    (variant := fun i _ => zlen (cstring l) - i).
  - exists [], (cstring l). split; [done|]. split; [done|]. cbn. by rewrite app_nil_r.
  - pose proof (zlen_nonneg (cstring l)). unfold zlen in *. lia.
  - intros i h' (p & b & Hb & Hp & Hc & Hs & Ho) _. wp_steps.
    eapply wp_char_at; [exact Hb | exact Hp | by right |]. wp_steps. destruct b as [|y b]; cbn [next_char].
    { cbn [negb Z.eqb NUL]. apply wp_ret. rewrite Hb, app_nil_r. by split. }
    pose proof (cstring_not_nul _ _ _ _ Hb) as Hy. destruct (Z.eqb_spec y NUL); [done|]. cbn [negb].
    wp_steps. eapply wp_char_at; [exact Hb | exact Hp | by right |]. cbn [next_char].
    assert (Hd' : divisor_latch (configured (uart_after u h')) = false) by (by rewrite Hc).
    apply wp_bind. eapply wp_mono; [by apply (transmits_return y u)|]. intros [] h1 (Hc1 & Hs1 & Ho1).
    apply wp_bind. eapply wp_mono; [apply (transmits_char y u); by rewrite Hc1|].
    intros [] h2 (Hc2 & Hs2 & Ho2). apply wp_ret. rewrite Hb. autorewrite with arrays.
    pose proof (zlen_nonneg b). split; [|lia]. exists (p ++ [y]), b. rewrite <- app_assoc.
    autorewrite with arrays. split; [done|]. split; [lia|].
    rewrite Hc2, Hs2, Ho2, Hc1, Hs1, Ho1, Hc, Hs, Ho, wire_app, <- !app_assoc. do 2 (split; [try done|]).
    { by rewrite wire_one. }
    done.
Qed.
End Writers.
End Line.

(** ** The console on the line *)
Section OnLine.
Context `{port_device} (fuel : nat).

(** The calls of the console's sinks that are calls of [console_sink], performed in their order. *)
Fixpoint perform_calls (l : list (Z * list char)) : kernel ports unit :=
  match l with
  | [] => mret tt
  | (sink, bytes) :: rest =>
      (if sink =? SERIAL_SINK then console_sink fuel (Some bytes) (zlen bytes) else mret tt);;
      perform_calls rest
  end.

(** Printing on a machine with a serial line: what [m] passes to its sink is performed.  The console's state
    and the ports are disjoint, so that the calls may be collected first. *)
Definition on_line (m : kernel console unit) : kernel (ports * console) unit :=
  before ← gets (fun s => calls (snd s));
  zoom snd (fun c s => (fst s, c)) m;;
  after ← gets (fun s => calls (snd s));
  zoom fst (fun p s => (p, snd s)) (perform_calls (drop (length before) after)).

Lemma transmits_calls n l :
  patience n -> (n < fuel)%nat -> transmits (perform_calls (pair SERIAL_SINK <$> l)) (wire (concat l)).
Proof.
  intros Hp Hn. induction l as [|x l IH]; [apply transmits_ret|]. cbn [fmap list_fmap perform_calls concat].
  rewrite wire_app. apply transmits_seq; [|exact IH]. cbn [Z.eqb Pos.eqb SERIAL_SINK].
  pose proof (transmits_sink fuel n Hp Hn x (zlen x) ltac:(unfold zlen; lia)) as Hx. by rewrite take_zlen in Hx.
Qed.

(** The console prints through [console_sink] once it is attached. *)
Lemma wp_on_line n m out u p c :
  patience n -> (n < fuel)%nat -> outputs m out -> m_sink c = SERIAL_SINK ->
  divisor_latch (configured (uart_after u p)) = false ->
  wp (on_line m) (fun _ s' => m_sink (snd s') = SERIAL_SINK /\
    configured (uart_after u (fst s')) = configured (uart_after u p) /\
    sent (uart_after u (fst s')) = sent (uart_after u p) ++ wire out /\
    lost (uart_after u (fst s')) = lost (uart_after u p)) (p, c).
Proof.
  intros Hpat Hn Hout Hs Hd. unfold on_line. apply wp_bind, wp_gets, wp_bind, wp_zoom.
  eapply wp_mono; [apply Hout|]. intros [] c' [Hs' (l & Hc & Hl)]. apply wp_bind, wp_gets, wp_zoom.
  cbn [fst snd] in *. rewrite Hs in Hc, Hl. change (SERIAL_SINK =? 0) with false in Hl. cbn iota in Hl.
  rewrite Hc, drop_app_length. subst out.
  eapply wp_mono; [by apply (transmits_calls n)|]. intros [] p' Hq. cbn [fst snd]. split; [congruence | exact Hq].
Qed.
End OnLine.

(** ** Properties *)

(** What [serial::init] leaves behind. *)
Definition serial_settings : settings := {|
  divisor_latch := false; divisor_low := 3; divisor_high := 0; enabled_interrupts := 0;
  line := LINE_CONTROL_8N1; fifo := FIFO_ENABLE_CLEAR_14; modem := MODEM_DTR_RTS_OUT2 |}.

Lemma wp_serial_init u h (Q : unit -> ports -> Prop) :
  divisor_latch (configured (uart_after u h)) = false ->
  (forall h', configured (uart_after u h') = serial_settings -> sent (uart_after u h') = sent (uart_after u h) ->
    lost (uart_after u h') = lost (uart_after u h) -> Q tt h') ->
  wp serial_init Q h.
Proof.
  intros Hd HQ. unfold serial_init. do 6 apply wp_bind, wp_modify. apply wp_modify. apply HQ;
    unfold uart_after; cbn [foldr]; fold (uart_after u h); destruct (uart_after u h) as [[latch ? ? ? ? ? ?] i s l];
    cbn in Hd; subst latch; reflexivity.
Qed.

(** Setting the line up, on a controller whose divisor is not being accessed: 38400 bits per second,
    8 data bits, no parity, 1 stop bit, interrupts off; nothing is sent. *)
Theorem serial_init_correct u h :
  divisor_latch (configured (uart_after u h)) = false ->
  wp serial_init (fun _ h' => configured (uart_after u h') = serial_settings /\
    baud (configured (uart_after u h')) = BAUD_RATE /\
    sent (uart_after u h') = sent (uart_after u h) /\ lost (uart_after u h') = lost (uart_after u h)) h.
Proof. intros Hd. apply (wp_serial_init u); [done|]. intros h' -> Hs Hl. by split. Qed.

(** Writing a C string, or the null pointer: if the transmitter always becomes empty again, the call returns, and
    the characters of the string are on the line in their order, each line feed after a carriage return. *)
Theorem serial_write_correct `{port_device} fuel n s u h :
  patience n -> (n < fuel)%nat -> (forall l, s = Some l -> zlen (cstring l) < zlen l) ->
  divisor_latch (configured (uart_after u h)) = false ->
  wp (serial_write fuel s) (fun _ h' =>
    sent (uart_after u h') = sent (uart_after u h) ++
      wire (match s with Some l => cstring l | None => chars "<null>" end) /\
    lost (uart_after u h') = lost (uart_after u h) /\
    configured (uart_after u h') = configured (uart_after u h)) h.
Proof.
  intros Hp Hn Hs Hd. assert (Ht : transmits (serial_write fuel s)
    (wire (match s with Some l => cstring l | None => chars "<null>" end))).
  { destruct s as [l|]; [by apply (transmits_text fuel n), Hs|]. by apply (transmits_text fuel n). }
  eapply wp_mono; [by apply Ht|]. by intros [] h' (Hc & Hse & Hl).
Qed.

(** C28: From the component's start on, printing reaches the line: the rendering of the format is sent, in 8-bit
    characters at 38400 bits per second, after what was sent before, and no byte of it is lost. *)
Theorem kprint_reaches_line `{port_device} fuel n fmt l args out u p c :
  patience n -> (n < fuel)%nat -> denotes fmt 0 l -> Forall typed args -> render l args = Some out ->
  divisor_latch (configured (uart_after u p)) = false ->
  wp (serial_component;; on_line fuel (kprint_ct fmt args)) (fun _ s' =>
    configured (uart_after u (fst s')) = serial_settings /\
    sent (uart_after u (fst s')) = sent (uart_after u p) ++ wire out /\
    lost (uart_after u (fst s')) = lost (uart_after u p)) (p, c).
Proof.
  intros Hp Hn Hl Ht Hr Hd. apply wp_bind, wp_bind, wp_zoom, (wp_serial_init u); [done|].
  intros p1 Hc1 Hs1 Hl1. apply wp_zoom, wp_modify. cbn [fst snd].
  eapply wp_mono; [apply (wp_on_line fuel n _ out u); [done | done | by apply (outputs_kprint _ l) | done|]|].
  - by rewrite Hc1.
  - intros [] s' (_ & Hc & Hs & Ho). by rewrite Hc, Hs, Ho, Hc1, Hs1, Hl1.
Qed.

(** ** The properties at work *)
Section SerialWitnesses.

(** A controller whose transmitter is empty at every second look. *)
#[local] Instance slow_line : port_device := {|
  port_answer := fun h _ => match h with In _ 0 :: _ => 0x60 | _ => 0 end |}.

Lemma slow_line_patience : patience 1.
Proof.
  intros h. destruct (tx_empty h) eqn:E; [exists 0%nat; split; [lia | exact E]|]. exists 1%nat. split; [lia|].
  destruct h as [|[p v|p v] h]; [reflexivity | reflexivity|]. destruct v; [discriminate E | reflexivity | reflexivity].
Qed.

Definition power_on : uart := {|
  configured := {| divisor_latch := false; divisor_low := 0; divisor_high := 0; enabled_interrupts := 0;
    line := 0; fifo := 0; modem := 0 |};
  idle := false; sent := []; lost := [] |}.

Lemma serial_init_correct_witness :
  wp serial_init (fun _ h' => baud (configured (uart_after power_on h')) = 38400) [].
Proof.
  eapply wp_mono; [exact (serial_init_correct power_on [] ltac:(reflexivity))|].
  intros [] h' (_ & Hb & _). exact Hb.
Defined.

Lemma serial_write_correct_witness :
  wp (serial_write 2 (Some (chars "ok" ++ [10; 0]))) (fun _ h' =>
    sent (uart_after power_on h') = [111; 107; 13; 10] /\ lost (uart_after power_on h') = []) [].
Proof.
  eapply wp_mono; [apply (serial_write_correct 2 1 (Some (chars "ok" ++ [10; 0])) power_on []);
    [exact slow_line_patience | lia | intros l [= <-]; by vm_compute | reflexivity]|].
  intros [] h' (Hs & Hl & _). exact (conj Hs Hl).
Defined.

Lemma kprint_reaches_line_witness :
  wp (serial_component;; on_line 2 (kprint_ct (chars "n={:d}") [VSigned (-5)])) (fun _ s' =>
    sent (uart_after power_on (fst s')) = chars "n=-5") ([], {| m_sink := 0; calls := [] |}).
Proof.
  eapply wp_mono; [eapply (kprint_reaches_line 2 1 _ _ _ (chars "n=-5") power_on [] {| m_sink := 0; calls := [] |});
    [exact slow_line_patience | lia | exact example_denotes | by repeat constructor | reflexivity | reflexivity]|].
  intros [] s' (_ & Hs & _). exact Hs.
Defined.
End SerialWitnesses.
