(* ===== verification/Kernel.v ===== *)
(** * Kernel: the whole kernel, as the boot plan starts it

    The state of the kernel is that of its components; each component's start acts on its part of it
    ([component::init] in the headers of the components), and the boot plan runs over them: an instance of
    [BootPlan.platform_code].  There is one processor: it is the boot core's, and the memory components see it.
    The loader's structure and the tables of the firmware lie in physical memory, which the early page tables map
    at its own addresses; once the kernel's address space is up, a table is read through it. *)

From S2P Require Import Prelude Bits Memory Page Boot Pmm Cpu Radix Paging Mmu Vmm Heap Multiboot2 InitGraph BootPlan.
From S2P Require Import Acpi Format Emit FormatFacts Descriptors Exceptions Lapic LapicFacts Core Runtime Serial SerialFacts.

(** ** The state *)
Section State.
Context `{heap_code}.

(** The ports of the machine, the core with the console, [boot_info]'s and [acpi]'s variables, and the heap on
    the memory manager on the address space on the frame allocator. *)
Record platform : Type := {
  serial_ports : ports;
  boot_core : Core.core;
  m_info : info;
  acpi_data : acpi_tables;
  m_kheap : heap;
}.

Definition set_serial_ports x s := {| serial_ports := x; boot_core := boot_core s; m_info := m_info s;
  acpi_data := acpi_data s; m_kheap := m_kheap s |}.
Definition set_boot_core x s := {| serial_ports := serial_ports s; boot_core := x; m_info := m_info s;
  acpi_data := acpi_data s; m_kheap := m_kheap s |}.
Definition set_info x s := {| serial_ports := serial_ports s; boot_core := boot_core s; m_info := x;
  acpi_data := acpi_data s; m_kheap := m_kheap s |}.
Definition set_acpi_data x s := {| serial_ports := serial_ports s; boot_core := boot_core s; m_info := m_info s;
  acpi_data := x; m_kheap := m_kheap s |}.
Definition set_kheap x s := {| serial_ports := serial_ports s; boot_core := boot_core s; m_info := m_info s;
  acpi_data := acpi_data s; m_kheap := x |}.

(** The heap and what is below it, on the boot core's processor. *)
Definition with_processor (p : cpu) (v : vmm) : vmm := set_space (Mmu.set_core p (space v)) v.

Definition heap_of (s : platform) : heap :=
  set_heap_dl (m_dl (m_kheap s), with_processor (processor (boot_core s)) (m_vmm (m_kheap s))) (m_kheap s).

Definition put_heap (x : heap) (s : platform) : platform :=
  set_kheap x (set_boot_core (set_processor (Mmu.core (space (m_vmm x))) (boot_core s)) s).

Definition memory_of (s : platform) : vmm := m_vmm (heap_of s).

Definition on_heap {A} (m : kernel heap A) : kernel platform A := zoom heap_of put_heap m.
Definition on_memory {A} (m : kernel vmm A) : kernel platform A :=
  on_heap (zoom m_vmm (fun v h => set_heap_dl (m_dl h, v) h) m).
Definition on_space {A} (m : kernel mmu A) : kernel platform A := on_memory (zoom space set_space m).

Definition on_boot_core {A} (m : kernel Core.core A) : kernel platform A := zoom boot_core set_boot_core m.
Definition on_console {A} (m : kernel console A) : kernel platform A := on_boot_core (on_terminal m).

(** The interrupt controller and the mapper of device memory. *)
Definition on_controller {A} (m : kernel (lapic * vmm) A) : kernel platform A :=
  zoom (fun s => (apic (boot_core s), memory_of s))
    (fun x s => let s' := put_heap (set_heap_dl (m_dl (m_kheap s), snd x) (m_kheap s)) s in
                set_boot_core (set_apic (fst x) (boot_core s')) s') m.
End State.

Section Kernel.
Context `{layout} `{image} `{machine} `{core_objects} `{exception_stubs} `{apic_device} `{port_device} `{heap_code}.
(** The loader's handoff, the constructors of the image, the application, and the patience of the serial line. *)
Context (h : handoff) (init_array : list (kernel platform unit)) (start_application : kernel platform unit) (fuel : nat).

(** ** Reading the tables of the firmware *)

(** Where the page tables lead from an address; the processor faults on what is no address. *)
Definition resolved (v : vmm) (va : Z) : option Z :=
  if (0 <=? va) && (va <? 2 ^ 64) then
    match kernel_space (fun f root => translate (F := @paging f) root va) v with
    | Ret (Ok m, _) => Some (physical m)
    | _ => None
    end
  else None.

Definition through (v : vmm) : memory := fun va => pa ← resolved v va; loader_memory h pa.

(** ** The components *)

(** What the console's sink got is sent: the sink is [serial::console_sink]. *)
Definition performing {A} (m : kernel platform A) : kernel platform A :=
  before ← gets (fun s => calls (terminal (boot_core s)));
  a ← m;
  after ← gets (fun s => calls (terminal (boot_core s)));
  zoom serial_ports set_serial_ports (perform_calls fuel (drop (length before) after));;
  mret a.

Definition init_serial_component : kernel platform init_result :=
  zoom (fun s => (serial_ports s, terminal (boot_core s)))
    (fun x s => set_serial_ports (fst x) (set_boot_core (set_terminal (snd x) (boot_core s)) s)) serial_component;;
  mret (Ok tt).

Definition init_cpu_component : kernel platform init_result := on_boot_core init_bsp_state;; mret (Ok tt).

Definition init_boot_info_component : kernel platform init_result := zoom m_info set_info (Boot.parse h).

Definition init_pmm_component : kernel platform init_result :=
  boot ← gets m_info; on_space (Mmu.on_allocator (init_allocator boot)).

Definition init_mmu_component : kernel platform init_result :=
  boot ← gets m_info; on_space (init_kernel_space boot).

Definition init_vmm_component : kernel platform init_result := mret (Ok tt).

Definition init_acpi_component : kernel platform init_result :=
  boot ← gets m_info;
  v ← gets memory_of;
  zoom acpi_data set_acpi_data (zoom tables set_tables (init_acpi (through v) boot)).

Definition init_lapic_component : kernel platform init_result :=
  v ← gets memory_of;
  madt ← zoom acpi_data set_acpi_data (get_madt_info (through v));
  init_lapic_with on_controller on_boot_core (lapic_address madt).

Definition init_kheap_component : kernel platform init_result := on_heap init_heap.

Definition init_runtime_component : kernel platform init_result :=
  call_global_constructors init_array;; mret (Ok tt).

Definition component_start (c : platform_component) : kernel platform init_result :=
  match c with
  | SERIAL => init_serial_component
  | CPU => init_cpu_component
  | CORE_INIT => on_boot_core init_core_component
  | BOOT_INFO => init_boot_info_component
  | PMM => init_pmm_component
  | MMU => init_mmu_component
  | VMM => init_vmm_component
  | ACPI => init_acpi_component
  | LAPIC => init_lapic_component
  | KHEAP => init_kheap_component
  | RUNTIME => init_runtime_component
  end.

#[export] Instance platform_parts : platform_code platform := {|
  platform_component_init := fun c => performing (component_start c);
  BootPlan.print := fun l => performing (on_console (print_line l));
  doom_os_start_application := start_application;
|}.
End Kernel.
