(* ===== verification/KernelFacts.v ===== *)
(** * KernelFacts: the kernel starts

    What holds of the kernel's parts as the components start, one after the other, and what that comes to: from a
    machine in its first state, [kernel_main] either halts at a component whose failure has a cause that can be
    named, or starts the application with every part of the kernel in order; and the serial line has said so. *)

From Stdlib Require Import FunctionalExtensionality.
From S2P Require Import Prelude Bits Containers Memory Page Boot Pmm Cpu Radix RadixFacts Paging Mmu Vmm VmmFacts.
From S2P Require Import Spinlock Atomic KernelSpace Heap HeapFacts Multiboot2 Multiboot2Facts InitGraph InitGraphFacts BootPlan.
From S2P Require Import Acpi AcpiFacts Format Emit FormatFacts Descriptors Exceptions PanicFacts DescriptorsFacts.
From S2P Require Import Lapic LapicFacts Core CoreFacts Runtime Serial SerialFacts Kernel.

(** ** What the loader's structure says fits the types of the boot information *)

Definition range_64 (r : address_range) : Prop := u64_range (range_bytes r).

Record typed_description (d : Multiboot2Facts.machine) : Prop := {
  typed_map : Forall (fun r => u64_range (region_bytes r)) (d_memory_map d);
  typed_modules : Forall (fun x => range_64 (fst x)) (d_modules d);
  typed_reserved : Forall range_64 (d_reserved d);
  typed_framebuffer : range_64 (range (d_framebuffer d));
  typed_acpi : range_64 (rsdp (d_acpi d));
}.

Lemma Forall_collect {A} (P : A -> Prop) f n i : (forall j, P (f j)) -> Forall P (collect f n i).
Proof. intros Hf. revert i. induction n as [|n IH]; intros i; cbn; by constructor. Qed.

Lemma peek_64 m n a : (n <= 8)%nat -> in_width 64 (peek m n a).
Proof.
  intros Hn. pose proof (peek_bounds m n a). unfold in_width.
  assert (256 ^ Z.of_nat n <= 256 ^ 8) by (apply Z.pow_le_mono_r; lia). change (256 ^ 8) with (2 ^ 64) in *. lia.
Qed.

#[local] Hint Resolve peek_64 : core.

Lemma describe_tag_typed m tag d d' :
  0 <= tag < 2 ^ 64 - 8 -> typed_description d -> describe_tag m tag d = Accepts d' -> typed_description d'.
Proof.
  intros Htag [Hm Hmo Hr Hf Ha]. unfold describe_tag, long_enough.
  pose proof (peek_bounds m 4 (tag + 4)) as Hsize. change (256 ^ Z.of_nat 4) with (2 ^ 32) in Hsize.
  fold (size_of m tag) in Hsize.
  repeat case_match; intros E; try discriminate E; try (by injection E as <-; split).
  - unfold describe_module in E. destruct (_ <=? _) eqn:Hle; [by injection E as <-; split|].
    unfold if_fits in E. case_match; [discriminate E|]. injection E as <-. split; try done. cbn.
    apply Forall_app. split; [done|]. constructor; [|done]. split; [apply peek_64; lia|]. cbn.
    pose proof (peek_64 m 4 (tag + 12) ltac:(lia)). pose proof (peek_64 m 4 (tag + 8) ltac:(lia)). unfold in_width in *. lia.
  - unfold describe_memory_map in E. case_match; [discriminate E|]. unfold if_fits in E. case_match; [discriminate E|].
    injection E as <-. split; try done. cbn. apply Forall_app. split; [done|]. apply Forall_collect. intros j.
    split; apply peek_64; lia.
  - unfold describe_framebuffer in E.
    assert (Hg : forall f, range_64 (range (geometry_of m tag f))).
    { intros f. split; [apply peek_64; lia|]. cbn. pose proof (peek_bounds m 4 (tag + 16)) as Hp1.
      pose proof (peek_bounds m 4 (tag + 24)) as Hp2. change (256 ^ Z.of_nat 4) with (2 ^ 32) in *. unfold in_width. nia. }
    repeat case_match; try discriminate E; injection E as <-; split; try done; apply Hg.
  - unfold describe_acpi in E. case_match; injection E as <-; split; try done. split; cbn; unfold in_width; lia.
  - unfold describe_acpi in E. case_match; injection E as <-; split; try done. split; cbn; unfold in_width; lia.
Qed.

Lemma describe_tags_typed m hi a l d d' :
  tag_list m hi a l -> 0 <= a -> hi < 2 ^ 64 -> typed_description d ->
  describe_tags m l d = Accepts d' -> typed_description d'.
Proof.
  intros Hl Ha Hhi. revert d. induction Hl as [a Hend Hk Hs | a rest Hend Hk Hs Hnext Hl IH]; intros d Hd; cbn [describe_tags].
  - by intros [= <-].
  - destruct (describe_tag m a d) as [d1| |] eqn:E; try discriminate. apply IH.
    + pose proof (peek_bounds m 4 (a + 4)) as Hsize. change (256 ^ Z.of_nat 4) with (2 ^ 32) in Hsize.
      fold (size_of m a) in Hsize. unfold next_of. pose proof (round_up (size_of m a) Hsize). lia.
    + eapply describe_tag_typed; [|done..]. lia.
Qed.

(** A boot information that says what an announced structure says is typed. *)
Lemma described_typed h l i :
  accessible h -> announces h l -> wf_info i -> described h l = Accepts (machine_of i) -> typed_info i.
Proof.
  intros Hh Hl Hi Hd. destruct Hl as [Hm H0 Hn Hend Htags]. destruct Hh as [Ha _ _].
  assert (Ht : typed_description (machine_of i)).
  { eapply describe_tags_typed; [exact Htags | lia | done | | exact Hd].
    split; cbn; try done. constructor; [|done]. unfold range_64, range_bytes, start_range, u64_range, in_width; cbn.
    pose proof (peek_bounds (loader_memory h) 4 (m_info_address h)) as Hs. change (256 ^ Z.of_nat 4) with (2 ^ 32) in Hs.
    unfold structure_size. lia. }
  destruct Ht as [Hmap Hmo Hr Hf Hac]. cbn in *.
  assert (Hranges : forall p, Forall u64_range (range_claims p (range (framebuffer i))) /\ Forall u64_range (range_claims p (rsdp (acpi i)))).
  { intros p. unfold range_claims. case_bool_decide; repeat constructor; (apply Hf || apply Hac). }
  assert (Hclaims : forall p, Forall u64_range (claims p i)).
  { intros p. unfold claims. repeat apply Forall_app_2; try apply Hranges; apply Forall_concat, Forall_map.
    - eapply Forall_impl; [exact Hmap|]. intros r Hreg. unfold region_claims. case_match; [by constructor | done].
    - rewrite Forall_map in Hmo. eapply Forall_impl; [exact Hmo|]. intros r Hreg. unfold range_claims. case_bool_decide; [by constructor | done].
    - eapply Forall_impl; [exact Hr|]. intros r Hreg. unfold range_claims. case_bool_decide; [by constructor | done]. }
  done.
Qed.

(** ** The kernel's parts, component after component *)
Section KernelFacts.
Context `{layout_ok} `{image} `{!image_ok} `{Cpu.machine} `{core_objects} `{exception_stubs} `{apic_device} `{port_device}.
Context {code : heap_code} {code_laws : heap_code_laws}.
Context (h : handoff) (l : list Z) (init_array : list (kernel platform unit)) (application : kernel platform unit).
Context (fuel n : nat) (Hpatience : patience n) (Hfuel : (n < fuel)%nat) (u : uart) (s0 : platform).
#[local] Existing Instance detected.

Abbreviation root := (image_phys m_pml4).

(** *** Reading the tables of the firmware *)

(** The kernel's view of the loader's memory: its own image and the direct map. *)
Definition firmware (boot : info) : memory := fun va =>
  match kernel_view boot va with Some (pa, _) => loader_memory h pa | None => None end.

Lemma kernel_view_range boot va pa q :
  kernel_view boot va = Some (pa, q) -> @canonical (@paging detected) va /\ 0 <= pa < 2 ^ 64.
Proof.
  unfold kernel_view, direct_view. intros E. pose proof image_order as (Hb & (Ht & _) & _).
  pose proof image_order as (_ & (_ & Htr) & _ & _ & _ & _ & _ & Hend & _). pose proof direct_count as [Hsz Hc].
  destruct ((text_start <=? va) && (va <? kernel_end)) eqn:E1.
  - apply andb_prop in E1 as [E1 E2]. injection E as <- _. split; [apply (window_canonical (fun _ => True))|]; unfold KERNEL_BASE in *; lia.
  - destruct ((DIRECT_MAP_BASE <=? va) && (va <? DIRECT_MAP_BASE + DIRECT_MAP_SIZE)) eqn:E2; [|discriminate E].
    destruct (direct_mapped _ _); [|discriminate E]. apply andb_prop in E2 as [E2 E3]. injection E as <- _. unfold DIRECT_MAP_BASE in *.
    split; [|lia]. split; [lia|]. apply valid_eq. right. div_lia.
Qed.

Lemma resolved_seen v va :
  vmm_ok root ∅ v -> 0 <= va < 2 ^ 64 ->
  resolved v va = if paging_valid va then option_map (fun x => u64 (fst x)) (seen root v va) else None.
Proof.
  intros Hv Hva. unfold resolved. pose proof Hva as [Hva1 Hva2]. rewrite (proj2 (Z.leb_le _ _) Hva1), (proj2 (Z.ltb_lt _ _) Hva2).
  cbn [andb]. pose proof (space_tree _ _ _ (vmm_space _ _ _ Hv)) as Ht.
  match goal with |- context [kernel_space ?tr v] => destruct (wp_elim (kernel_space tr) (fun r v' =>
    match r with Ok m => Some (physical m) | Err _ => None end =
      if paging_valid va then option_map (fun x => u64 (fst x)) (seen root v va) else None) v) as (r & v' & -> & Hr) end.
  2:{ rewrite <- Hr. by destruct r. }
  apply (wp_kernel_space root _ ∅); [exact Ht|].
  apply (wp_translate (EL := @kernel_env_laws _ _ _ (keeping root ∅))); [exact Ht | lia|]. intros r Hr.
  unfold seen, translation. change (@Radix.valid (@paging detected) va) with (paging_valid va) in Hr.
  destruct r as [m|[]].
  - destruct Hr as (-> & lv & e & -> & ->). done.
  - by destruct Hr as [? _].
  - by rewrite Hr.
  - by destruct Hr as [? _].
  - by destruct Hr as (_ & -> & ->).
  - by destruct Hr as [? _].
Qed.

Lemma through_firmware boot v :
  vmm_ok root ∅ v -> (forall va, @canonical (@paging detected) va -> seen root v va = kernel_view boot va) ->
  through h v = firmware boot.
Proof.
  intros Hv Hview. apply functional_extensionality. intros va. unfold through, firmware.
  destruct (kernel_view boot va) as [[pa q]|] eqn:E.
  - destruct (kernel_view_range _ _ _ _ E) as [[Hva Hval] Hpa]. rewrite resolved_seen by done.
    change (@Radix.valid (@paging detected) va) with (paging_valid va) in Hval. rewrite Hval, Hview by done. rewrite E. cbn.
    unfold u64. by rewrite wrap_small.
  - destruct (decide (0 <= va < 2 ^ 64)) as [Hva|Hva]; cycle 1.
    { unfold resolved. destruct (Z.leb_spec 0 va), (Z.ltb_spec va (2 ^ 64)); cbn [andb]; try done. lia. }
    rewrite resolved_seen by done. destruct (paging_valid va) eqn:Hval; [|done]. by rewrite Hview, E.
Qed.

(** *** The serial line *)

(** The console is attached, and the line has sent the text after what it had sent at first. *)
Definition printed (text : list char) (s : platform) : Prop :=
  m_sink (terminal (boot_core s)) = SERIAL_SINK /\ configured (uart_after u (serial_ports s)) = serial_settings /\
  sent (uart_after u (serial_ports s)) = sent (uart_after u (serial_ports s0)) ++ wire text /\
  lost (uart_after u (serial_ports s)) = lost (uart_after u (serial_ports s0)).

(** Nothing but the line and the console differs. *)
Definition printing (s s' : platform) : Prop :=
  exists p t, s' = set_serial_ports p (set_boot_core (set_terminal t (boot_core s)) s).

Lemma wp_performing {A} (m : kernel platform A) (Q : A -> platform -> Prop) text s :
  printed text s ->
  wp m (fun a s' => serial_ports s' = serial_ports s /\
    exists out, passes (terminal (boot_core s)) (terminal (boot_core s')) out /\
      forall p, printed (text ++ out) (set_serial_ports p s') -> Q a (set_serial_ports p s')) s ->
  wp (performing fuel m) Q s.
Proof.
  intros (Hsink & Hconf & Hsent & Hlost) Hm. unfold performing. apply wp_bind, wp_gets, wp_bind.
  eapply wp_mono; [exact Hm|]. intros a s' (Hp & out & [Hs' (parts & Hc & Hl)] & HQ).
  apply wp_bind, wp_gets, wp_bind, wp_zoom. rewrite Hsink in Hc, Hl. change (SERIAL_SINK =? 0) with false in Hl. cbn iota in Hl.
  rewrite Hc, drop_app_length, Hp. subst out.
  eapply wp_mono; [apply (transmits_calls fuel n parts Hpatience Hfuel u); by rewrite Hconf|].
  intros [] p (Hcf & Hst & Hlo). apply wp_ret, HQ. unfold printed. cbn [boot_core serial_ports set_serial_ports].
  split; [congruence|]. split; [congruence|]. split; [|congruence].
  by rewrite Hst, Hsent, wire_app, app_assoc.
Qed.

#[local] Instance the_platform : platform_code platform := platform_parts h init_array application fuel.

Lemma wp_print ln text (Q : unit -> platform -> Prop) s :
  line_ok ln -> printed text s ->
  (forall s', printing s s' -> printed (text ++ line_text ln) s' -> Q tt s') ->
  wp (BootPlan.print ln) Q s.
Proof.
  intros Hln Hs HQ. apply (wp_performing _ _ text); [done|]. apply wp_zoom, wp_zoom.
  eapply wp_mono; [by apply outputs_print_line|]. intros [] t Hp. split; [done|]. exists (line_text ln). split; [exact Hp|].
  intros p. apply HQ. by exists p, t.
Qed.

Lemma platform_name_ok c : string_arg (chars (platform_name c)).
Proof. destruct c; (split; [by repeat constructor | by vm_compute]). Qed.

Definition begin_text (c : platform_component) : list char := line_text (Begin None (platform_name c)).
Definition ok_text (c : platform_component) : list char := line_text (Succeeded None (platform_name c)).
Definition fail_text (c : platform_component) (e : init_error) : list char := line_text (Failed None (platform_name c) e).

(** A component of the logged graphs starts: its lines, and between them what it prints itself. *)
Lemma wp_kernel_logged c text s (Q : bool -> platform -> Prop) :
  printed text s ->
  (forall s1, printing s s1 -> wp (component_start h init_array c) (fun r s2 =>
     serial_ports s2 = serial_ports s1 /\
     exists out, passes (terminal (boot_core s1)) (terminal (boot_core s2)) out /\
       forall s3, printing s2 s3 ->
         match r with
         | Ok _ => printed (text ++ begin_text c ++ out ++ ok_text c) s3 -> Q true s3
         | Err e => printed (text ++ begin_text c ++ out ++ fail_text c e) s3 -> Q false s3
         end) s1) ->
  wp (run_component_logged c) Q s.
Proof.
  intros Hs Hc. unfold run_component_logged. apply wp_bind.
  apply (wp_print _ text); [split; [apply platform_name_ok | done] | done|]. intros s1 Hp1 Hs1.
  apply wp_bind, (wp_performing _ _ _ _ Hs1). eapply wp_mono; [by apply Hc|].
  intros r s2 (Hports & out & Hout & HQ). split; [done|]. exists out. split; [done|]. intros p Hp.
  assert (Hstep : forall s3, printing (set_serial_ports p s2) s3 -> printing s2 s3)
    by (intros s3 (p' & t & ->); by exists p', t).
  rewrite <- !app_assoc in Hp.
  destruct r as [[]|e]; apply wp_bind; (eapply wp_print; [split; [apply platform_name_ok | done] | exact Hp|]);
    intros s3 Hp3 Hs3; apply wp_ret; (eapply HQ; [by apply Hstep|]); by rewrite <- !app_assoc in Hs3.
Qed.

(** *** What holds after some components have started *)

Definition has (c : platform_component) (started : list platform_component) : bool := bool_decide (c ∈ started).

(** The core: its identity, its tables, and where each exception is delivered. *)
Record core_up (b : local_state) (online : Z) : Prop := {
  up_identity : logical_id_m b = 0;
  up_online : online = 1;
  up_gdt : gdt_m b = gdt_of;
  up_stack : znth (rsp (tss_m b)) 0 = u64 (kernel_storage + CORE_STACK_SIZE);
  up_delivery v : 0 <= v < IDT_ENTRY_COUNT -> deliver (idt_entries (idt_m b)) (tss_m b) v = delivery_of_vector v;
}.

Definition core_stage started (c : Core.core) : Prop :=
  if has CORE_INIT started then core_up (bsp_state c) (current_online_count c)
  else local_shape (bsp_state c) /\
    if has CPU started then logical_id_m (bsp_state c) = 0 /\ current_online_count c = 1
    else current_online_count c = 0.

(** The boot information says what the loader's structure says. *)
Definition info_stage started (i : info) : Prop :=
  wf_info i /\ if has BOOT_INFO started then described h l = Accepts (machine_of i) else True.

(** The windows that are mapped on demand. *)
Definition on_demand (va : Z) : Prop :=
  MMIO_MAP_BASE <= va < MMIO_MAP_BASE + MMIO_MAP_SIZE \/ VMALLOC_BASE <= va < VMALLOC_BASE + VMALLOC_SIZE.

(** The page tables translate the kernel's sections and the direct map, and nothing else but what was mapped on demand. *)
Definition view_kept (boot : info) (v : vmm) : Prop :=
  forall va, @canonical (@paging detected) va -> ~ on_demand va -> seen root v va = kernel_view boot va.

Definition memory_stage started (boot : info) (v : vmm) : Prop :=
  if has LAPIC started then vmm_ok root ∅ v /\ view_kept boot v
  else if has MMU started then
    vmm_ok root ∅ v /\ forall va, @canonical (@paging detected) va -> seen root v va = kernel_view boot va
  else unstarted v /\
    if has PMM started then initialised boot (Ok tt) (allocator (space v)) else allocator (space v) = pmm_init.

(** The root table of the firmware that the loader's pointer leads to. *)
Definition root_pointer (boot : info) : Z := range_base (rsdp (acpi boot)).
Definition root_found (boot : info) : option (Z * bool) := rsdp_root (firmware boot) (root_pointer boot).

Definition acpi_stage started (boot : info) (a : acpi_tables) : Prop :=
  if has ACPI started then
    tables a = state_of (root_pointer boot) (root_found boot) /\ is_Some (root_found boot) /\
    if has LAPIC started then True else m_cached_madt_info a = madt_info_init /\ m_madt_parsed a = false
  else a = acpi_tables_init.

(** The controller that the tables describe: its registers are reached, and it is enabled. *)
Definition controller_up (address : Z) (c : Core.core) (v : vmm) : Prop :=
  exists p, accesses p = [] /\ m_lapic_base_vaddr p <> 0 /\ controller_enabled p (apic c) /\
    forall x i, register_offset x -> 0 <= i < 4 -> reaches root v (register_address p x + i) (address + x + i).

Definition apic_stage started (s : platform) : Prop :=
  if has LAPIC started
  then controller_up (lapic_address (m_cached_madt_info (acpi_data s))) (boot_core s) (memory_of s)
  else apic (boot_core s) = lapic_init.

Definition heap_stage started (x : heap) : Prop :=
  m_heap_ready x = has KHEAP started /\ m_lock x = SPINLOCK_UNLOCKED /\ malloc_inv (m_dl x) ∅ ∅.

Record reached (started : list platform_component) (s : platform) : Prop := {
  reached_core : core_stage started (boot_core s);
  reached_info : info_stage started (m_info s);
  reached_memory : memory_stage started (m_info s) (memory_of s);
  reached_acpi : acpi_stage started (m_info s) (acpi_data s);
  reached_apic : apic_stage started s;
  reached_heap : heap_stage started (m_kheap s);
}.

(** Printing changes none of it. *)
Lemma reached_printing started s s' : printing s s' -> reached started s -> reached started s'.
Proof. intros (p & t & ->) [Hc Hi Hm Ha Hap Hh]. by split. Qed.

(** The memory in use by the constructors and the application: the heap has some of the manager's areas. *)
Record in_use (s : platform) : Prop := {
  use_core : core_up (bsp_state (boot_core s)) (current_online_count (boot_core s));
  use_info : wf_info (m_info s) /\ described h l = Accepts (machine_of (m_info s));
  use_view : view_kept (m_info s) (memory_of s);
  use_acpi : tables (acpi_data s) = state_of (root_pointer (m_info s)) (root_found (m_info s)) /\ is_Some (root_found (m_info s));
  use_apic : controller_up (lapic_address (m_cached_madt_info (acpi_data s))) (boot_core s) (memory_of s);
  use_heap : m_heap_ready (m_kheap s) = true /\ exists areas own blocks, heap_ok root (heap_of s) areas own blocks;
}.

(** Unfold the stages for a concrete list of components. *)
Ltac settle_has :=
  unfold core_stage, info_stage, memory_stage, acpi_stage, apic_stage, heap_stage in *;
  repeat match goal with
  | |- context [has ?c ?d] => let b := eval vm_compute in (has c d) in change (has c d) with b
  | H : context [has ?c ?d] |- _ => let b := eval vm_compute in (has c d) in change (has c d) with b in H
  end; cbv iota in *.

Lemma reached_in_use s : reached [CPU; CORE_INIT; BOOT_INFO; PMM; MMU; VMM; ACPI; LAPIC; KHEAP] s -> in_use s.
Proof.
  intros [Hc Hi Hm Ha Hap Hh]. settle_has. destruct Hh as [Hready [Hlock Hinv]]. destruct Hm as [Hok Hv]. destruct Ha as (Ha & Hroot & _).
  split; try done. split; [exact Hready|]. exists ∅, ∅, ∅. split; [exact Hlock|].
  split; [by apply manager_empty | done | exact Hinv].
Qed.

(** *** What each component's start comes to *)

(** What a component prints between its two lines. *)
Definition inner_text (c : platform_component) : list char :=
  match c with
  | CORE_INIT => concat ((fun p => line_text (Begin (Some 0) (core_name p)) ++ line_text (Succeeded (Some 0) (core_name p))) <$> early_core_order)
  | LAPIC => line_text (Begin (Some 0) (core_name LAPIC_CORE)) ++ line_text (Succeeded (Some 0) (core_name LAPIC_CORE))
  | _ => []
  end.

Definition no_frame (s : platform) : Prop :=
  forall f, 0 <= f < MAX_FRAMES -> is_free (allocator (space (memory_of s))) f = false.

(** Why a component can fail. *)
Definition cause (c : platform_component) (e : init_error) (s : platform) : Prop :=
  match c with
  | BOOT_INFO => e = INVALID_BOOT_DATA /\ described h l = Rejects
  | PMM | MMU => e = NO_USABLE_MEMORY /\ no_frame s
  | ACPI => e = INVALID_BOOT_DATA /\
      (acpi_present (acpi (m_info s)) = false \/ root_pointer (m_info s) = 0 \/ root_found (m_info s) = None)
  | LAPIC => e = INVALID_BOOT_DATA /\ lapic_address (m_cached_madt_info (acpi_data s)) = 0 \/ e = NO_USABLE_MEMORY
  | _ => False
  end.

(** With the constructors, what is in use may have changed. *)
Definition progress (started : list platform_component) (s : platform) : Prop :=
  if has RUNTIME started then in_use s else reached started s.

Definition starts (before : list platform_component) (c : platform_component) (s : platform) : Prop :=
  wp (component_start h init_array c) (fun r s' =>
    serial_ports s' = serial_ports s /\
    match r with
    | Ok _ => passes (terminal (boot_core s)) (terminal (boot_core s')) (inner_text c) /\ progress (before ++ [c]) s'
    | Err e => terminal (boot_core s') = terminal (boot_core s) /\ cause c e s'
    end) s.

(** What the machine, the loader and the image provide: the stubs of the exceptions are where they are declared;
    the loader's structure and the firmware's tables can be read, and the structure is one; the constructors of the
    image keep what is in use in order and do not touch the console. *)
Record provided : Prop := {
  provided_stubs : stubs_ok;
  provided_access : accessible h;
  provided_structure : announces h l;
  provided_tables boot : wf_info boot -> described h l = Accepts (machine_of boot) ->
    rsdp_reachable (firmware boot) (root_pointer boot) /\
    tables_reachable (firmware boot) (state_of (root_pointer boot) (root_found boot));
  provided_constructors : Forall (fun f => forall s, in_use s -> wp f (fun _ s' => in_use s' /\
    serial_ports s' = serial_ports s /\ terminal (boot_core s') = terminal (boot_core s)) s) init_array;
}.

(** The logged components, in their order. *)
Definition logged_components : list platform_component := [CPU; CORE_INIT] ++ boot_order.

Section Starts.
Context (Hp : provided).

Lemma wp_on_boot_core {A} (m : kernel Core.core A) (Q : A -> platform -> Prop) s :
  wp m (fun a c => Q a (set_boot_core c s)) (boot_core s) -> wp (on_boot_core m) Q s.
Proof. apply wp_zoom. Qed.

Lemma wp_on_space {A} (m : kernel mmu A) (Q : A -> platform -> Prop) s :
  wp m (fun a x => Q a (put_heap (set_heap_dl (m_dl (m_kheap s), set_space x (m_vmm (m_kheap s))) (m_kheap s)) s))
    (space (memory_of s)) -> wp (on_space m) Q s.
Proof. intros Hm. by apply wp_zoom, wp_zoom, wp_zoom. Qed.

Lemma starts_cpu s : reached [] s -> starts [] CPU s.
Proof.
  intros [Hc Hi Hm Ha Hap Hh]. settle_has. destruct Hc as [Hc Hon].
  apply wp_bind, wp_on_boot_core, wp_bind, wp_modify, wp_bind, wp_zoom.
  apply (wp_intro _ _ _ 0 1); [cbn [current_online_count set_bsp_state]; by rewrite Hon|].
  apply wp_ret, wp_ret. split; [done|]. split; [apply passes_nil|].
  split; settle_has; try done. split; [by destruct Hc|done].
Qed.

(** The first state of memory does not depend on the processor. *)
Lemma unstarted_processor p q v : unstarted (with_processor p v) -> unstarted (with_processor q v).
Proof. by intros [? ? ? ? ?]. Qed.

Lemma starts_core s : reached [CPU] s -> starts [CPU] CORE_INIT s.
Proof.
  intros [Hc Hi Hm Ha Hap Hh]. settle_has. destruct Hc as (Hshape & Hid & Hon).
  apply wp_on_boot_core. apply wp_bind. eapply wp_mono.
  { apply wp_init_core; [apply Hp | exact Hshape | by rewrite Hid]. }
  intros b c [-> Hs]. rewrite Hap in Hs. cbn [m_lapic_base_vaddr lapic_init] in Hs. change (0 =? 0) with true in Hs.
  cbv iota in Hs. destruct Hs as [Hs Happ]. apply wp_ret. split; [done|]. pose proof Hs as [Hi' Ho Hg Hst _ Hd Hlog].
  split; [unfold core_text, logged_text in Hlog; by rewrite Hid in Hlog|].
  split; settle_has; try done.
  - split; cbn [boot_core set_boot_core]; [by rewrite Hi' | by rewrite Ho | done..].
  - destruct Hm as [Hm Hpm]. split; [exact (unstarted_processor _ (processor c) _ Hm) | exact Hpm].
Qed.

Lemma early_start d c r s : [CPU; CORE_INIT] = d ++ c :: r -> progress d s -> starts d c s.
Proof.
  intros E Hr.
  destruct d as [|? d]; [injection E as <- _; exact (starts_cpu s Hr) | injection E as <- E].
  destruct d as [|? d]; [injection E as <- _; exact (starts_core s Hr) | injection E as <- E].
  by destruct d.
Qed.

(** The tables of the boot information have room for what the loader announces. *)
Section Room.
Context (Hroom : forall message, described h l <> Overflows message).

Lemma starts_boot_info s : reached [CPU; CORE_INIT] s -> starts [CPU; CORE_INIT] BOOT_INFO s.
Proof.
  intros [Hc Hi Hm Ha Hap Hh]. settle_has. destruct Hi as [Hi _]. apply wp_zoom.
  pose proof (meets_boot_parse h l (m_info s) Hi (provided_access Hp) (provided_structure Hp)) as Hparse.
  destruct (described h l) as [d| |message] eqn:Ed; cbn [message_of meets] in Hparse; [| |by destruct (Hroom message)].
  - eapply wp_mono; [exact Hparse|]. intros r i (Hwf & -> & Hd). split; [done|]. split; [apply passes_nil|].
    split; settle_has; try done. split; [done|]. by rewrite Ed, <- Hd.
  - eapply wp_mono; [exact Hparse|]. intros r i (Hwf & -> & Hb). done.
Qed.

Lemma memory_put x s : memory_of (put_heap x s) = m_vmm x.
Proof. by destruct x as [? ? ? [[] ]]. Qed.

Lemma starts_pmm s : reached [CPU; CORE_INIT; BOOT_INFO] s -> starts [CPU; CORE_INIT; BOOT_INFO] PMM s.
Proof.
  intros [Hc Hi Hm Ha Hap Hh]. settle_has. destruct Hi as [Hi Hd], Hm as [Hm Hpm].
  assert (Hboot : typed_info (m_info s)) by (apply (described_typed h l); [apply Hp | apply Hp | done | done]).
  apply wp_bind, wp_gets, wp_on_space, wp_zoom. rewrite Hpm.
  eapply wp_mono; [by apply wp_init_allocator|]. intros r a Hinit. split; [done|]. destruct r as [[]|e].
  - split; [apply passes_nil|]. split; settle_has; try done. rewrite memory_put. split; [|exact Hinit].
    destruct Hm. by split.
  - destruct Hinit as (_ & Hfree & -> & Hno). split; [done|]. split; [done|]. intros f Hf.
    rewrite memory_put. cbn [m_vmm set_heap_dl snd space set_space allocator set_allocator]. rewrite Hfree by done. by apply Hno.
Qed.

Lemma starts_mmu s : reached [CPU; CORE_INIT; BOOT_INFO; PMM] s -> starts [CPU; CORE_INIT; BOOT_INFO; PMM] MMU s.
Proof.
  intros [Hc Hi Hm Ha Hap Hh]. settle_has. destruct Hi as [Hi Hd], Hm as [Hm Hpm].
  assert (Hboot : typed_info (m_info s)) by (apply (described_typed h l); [apply Hp | apply Hp | done | done]).
  pose proof (frames_started _ _ _ Hboot Hm Hpm) as Hstart.
  assert (Hsame : set_allocator (allocator (space (memory_of s))) (space (memory_of s)) = space (memory_of s)) by by destruct (space _).
  rewrite Hsame in Hstart.
  apply wp_bind, wp_gets, wp_on_space. apply (wp_init_kernel_space (backs ∅) (m_info s)); [exact Hstart | |].
  - intros sp Ht Hv _. split; [done|]. split; [apply passes_nil|]. split; settle_has; try done. rewrite memory_put.
    split; [exact (space_started (m_info s) (memory_of s) sp Hm Ht Hv) | exact Hv].
  - intros sp Ht Hno. split; [done|]. split; [done|]. split; [done|]. intros f Hf. rewrite memory_put. by apply Hno.
Qed.

Lemma starts_vmm s : reached [CPU; CORE_INIT; BOOT_INFO; PMM; MMU] s -> starts [CPU; CORE_INIT; BOOT_INFO; PMM; MMU] VMM s.
Proof. intros Hr. apply wp_ret. split; [done|]. split; [apply passes_nil|]. destruct Hr. by split. Qed.

Lemma starts_acpi s :
  reached [CPU; CORE_INIT; BOOT_INFO; PMM; MMU; VMM] s -> starts [CPU; CORE_INIT; BOOT_INFO; PMM; MMU; VMM] ACPI s.
Proof.
  intros [Hc Hi Hm Ha Hap Hh]. settle_has. destruct Hi as [Hi Hd], Hm as [Hm Hv].
  apply wp_bind, wp_gets, wp_bind, wp_gets. rewrite (through_firmware (m_info s)) by done.
  apply wp_zoom, wp_zoom. destruct (provided_tables Hp (m_info s) Hi Hd) as [Hroot _].
  eapply wp_mono; [by apply (acpi_init_correct (firmware (m_info s)) (m_info s))|].
  intros r a Hr. split; [done|]. fold (root_pointer (m_info s)) in Hr. fold (root_found (m_info s)) in Hr.
  destruct (acpi_present (acpi (m_info s))) eqn:Ep; cbn [andb] in Hr; cycle 1.
  { destruct Hr as [-> ->]. split; [done|]. split; [done|]. by left. }
  destruct (Z.eqb_spec (root_pointer (m_info s)) 0) as [E0|E0]; cbn [negb] in Hr.
  { destruct Hr as [-> ->]. split; [done|]. split; [done|]. right. by left. }
  destruct Hr as [-> ->]. destruct (root_found (m_info s)) as [x|] eqn:Er.
  - split; [apply passes_nil|]. split; settle_has; try done. rewrite Ha. cbn [m_info set_acpi_data acpi_data]. rewrite Er.
    split; [done|]. by split.
  - split; [done|]. split; [done|]. right. right. exact Er.
Qed.

(** Device memory leaves the rest of the kernel's view alone. *)
Program Definition kernel_window_laws (boot : info) : mmio_window_laws vmm := {|
  window_ok := fun v => vmm_ok root ∅ v /\ view_kept boot v;
  device_byte := reaches root;
|}.
Next Obligation.
  intros boot pa bytes v [Hv Hview] Hpa Hb. eapply wp_mono; [by apply (wp_map_mmio root ∅)|].
  intros r v' (Hv' & _ & _ & Hkeep & Hr).
  assert (MMIO_MAP_BASE = 0xffff808000000000) as Hbase by reflexivity.
  assert (MMIO_MAP_SIZE = 2 ^ 39) as Hsize by reflexivity. split.
  - split; [done|]. intros va Hva Hon. rewrite Hkeep; [by apply Hview | done |]. intros Hw. apply Hon. by left.
  - destruct r as [va|e]; [|done]. destruct Hr as (-> & Hpos & Hmax & Hmap & _). unfold in_width in *.
    rewrite Hsize in Hmax. rewrite Hbase. split; [lia|]. split; [lia|]. rewrite <- Hbase. exact Hmap.
Qed.

(** The address the tables give is a 64-bit one. *)
Lemma madt_address m s a i :
  m_madt_parsed s = false -> m_cached_madt_info s = madt_info_init ->
  (i = m_cached_madt_info a /\ tables a = tables s /\
    if m_madt_parsed s then a = s
    else exists r, looked_up m (tables s) APIC r /\
      match r with
      | Some v =>
          if length_of m v <? 44 then a = s
          else m_madt_parsed a = true /\
            exists l, entry_list m (v + length_of m v) (v + 44) l /\
              recorded m (peek m 4 (v + 36)) (peek m 4 (v + 40)) l i
      | None => a = s
      end) -> in_width 64 (lapic_address i).
Proof.
  intros Hp0 Hc (-> & _ & Hr). rewrite Hp0 in Hr. destruct Hr as (r & _ & Hr).
  assert (Hinit : a = s -> in_width 64 (lapic_address (m_cached_madt_info a))) by (intros ->; by rewrite Hc).
  destruct r as [v|]; [|by apply Hinit]. destruct (length_of m v <? 44); [by apply Hinit|].
  destruct Hr as (_ & es & _ & Hrec). rewrite (recorded_address _ _ _ _ _ Hrec).
  destruct (last (omap (override_of m) es)) as [x|] eqn:E; [|apply peek_64; lia].
  apply last_Some_elem_of in E. apply list_elem_of_omap in E as (e & _ & He). unfold override_of in He.
  destruct (_ && _); [|discriminate He]. injection He as <-. apply peek_64. lia.
Qed.

Lemma wp_on_controller (m : kernel (lapic * vmm) init_result) (Q : init_result -> platform -> Prop) s :
  wp m (fun r x => forall s', memory_of s' = snd x -> apic (boot_core s') = fst x ->
    terminal (boot_core s') = terminal (boot_core s) -> bsp_state (boot_core s') = bsp_state (boot_core s) ->
    current_online_count (boot_core s') = current_online_count (boot_core s) ->
    serial_ports s' = serial_ports s -> m_info s' = m_info s -> acpi_data s' = acpi_data s ->
    m_heap_ready (m_kheap s') = m_heap_ready (m_kheap s) -> m_lock (m_kheap s') = m_lock (m_kheap s) ->
    m_dl (m_kheap s') = m_dl (m_kheap s) -> Q r s') (apic (boot_core s), memory_of s) ->
  wp (on_controller m) Q s.
Proof.
  intros Hm. apply wp_zoom. eapply wp_mono; [exact Hm|]. intros r [p v] HQ. apply HQ; try done.
  by destruct v as [[] ].
Qed.

Lemma starts_lapic s :
  reached [CPU; CORE_INIT; BOOT_INFO; PMM; MMU; VMM; ACPI] s -> starts [CPU; CORE_INIT; BOOT_INFO; PMM; MMU; VMM; ACPI] LAPIC s.
Proof.
  intros [Hc Hi Hm Ha Hap Hh]. settle_has. destruct Hi as [Hi Hd], Hm as [Hm Hv], Ha as (Ha & Hroot & Hmadt & Hparsed).
  assert (Hid : logical_id_m (bsp_state (boot_core s)) = 0) by apply Hc.
  apply wp_bind, wp_gets. rewrite (through_firmware (m_info s)) by done. apply wp_bind, wp_zoom.
  destruct (provided_tables Hp (m_info s) Hi Hd) as [_ Htables].
  eapply wp_mono; [apply wp_get_madt_info; by rewrite Ha|]. intros i a Hgot.
  pose proof (madt_address _ _ _ _ Hparsed Hmadt Hgot) as Haddr. destruct Hgot as (-> & Hta & _).
  set (s1 := set_acpi_data a s). apply wp_bind, wp_on_controller.
  assert (Hw : vmm_ok root ∅ (memory_of s1) /\ view_kept (m_info s) (memory_of s1)) by (split; [exact Hm | intros va Hva _; by apply Hv]).
  eapply wp_mono; [exact (wp_lapic_init vmm (H0 := kernel_window_laws (m_info s)) (lapic_address (m_cached_madt_info a))
    (apic (boot_core s1), memory_of s1) Hw Haddr)|].
  intros r x (Hw' & Hacc & Hr) s2 E1 E2 E3 E4 E5 E6 E7 E8 E9 E10 E11. cbn [fst snd] in *. change (apic (boot_core s1)) with (apic (boot_core s)) in *.
  rewrite Hap in Hr, Hacc. cbn [lapic_init m_lapic_base_vaddr] in Hr.
  destruct (Z.eqb_spec (lapic_address (m_cached_madt_info a)) 0) as [Ez|Ez].
  { destruct Hr as [-> ->]. apply wp_ret. split; [done|]. split; [done|]. left. split; [done|]. by rewrite E8. }
  change (negb (0 =? 0)) with false in Hr. cbv iota in Hr. destruct r as [[]|e]; cbn [is_err]; cycle 1.
  { destruct Hr as [-> Hf]. apply wp_ret. split; [done|]. split; [done|]. by right. }
  assert (Hid2 : logical_id_m (bsp_state (boot_core s2)) = 0) by (rewrite E4; exact Hid).
  destruct Hr as (Hbase & _ & Hmap). apply wp_bind, wp_on_boot_core. unfold init_late_core, run_init_graph_after.
  rewrite late_core_runnable. unfold compiled. rewrite <- E2 in Hbase, Hacc. apply wp_late_core; [exact Hbase | by rewrite Hid2|].
  intros p t Hen Ht. apply wp_ret. split; [done|]. rewrite <- E1 in Hw'. rewrite <- E1, <- E2 in Hmap.
  split; [unfold logged_text in Ht; rewrite Hid2, E3 in Ht; exact Ht|].
  split; settle_has; cbn [boot_core set_boot_core set_terminal set_apic bsp_state current_online_count m_info acpi_data m_kheap apic].
  - by rewrite E4, E5.
  - rewrite E7. by split.
  - rewrite E7. exact Hw'.
  - rewrite E7, E8. cbn [acpi_data s1 set_acpi_data]. rewrite Hta. done.
  - exists (apic (boot_core s2)). split; [exact Hacc|]. split; [exact Hbase|]. split; [exact Hen|].
    rewrite E8. exact Hmap.
  - by rewrite E9, E10, E11.
Qed.

Lemma starts_kheap s :
  reached [CPU; CORE_INIT; BOOT_INFO; PMM; MMU; VMM; ACPI; LAPIC] s -> starts [CPU; CORE_INIT; BOOT_INFO; PMM; MMU; VMM; ACPI; LAPIC] KHEAP s.
Proof.
  intros [Hc Hi Hm Ha Hap Hh]. settle_has. apply wp_zoom, wp_bind, wp_modify, wp_ret. split; [done|].
  split; [apply passes_nil|]. split; settle_has; rewrite ?memory_put; try done. by destruct Hh.
Qed.

(** The constructors of the image run in what is in use. *)
Lemma wp_constructors fs s (Q : unit -> platform -> Prop) :
  Forall (fun f => forall s, in_use s -> wp f (fun _ s' => in_use s' /\
    serial_ports s' = serial_ports s /\ terminal (boot_core s') = terminal (boot_core s)) s) fs ->
  in_use s ->
  (forall s', in_use s' -> serial_ports s' = serial_ports s -> terminal (boot_core s') = terminal (boot_core s) -> Q tt s') ->
  wp (call_each fs) Q s.
Proof.
  intros Hfs. revert s. induction Hfs as [|f fs Hf _ IH]; intros s Hs HQ; cbn [call_each].
  - by apply wp_ret, HQ.
  - apply wp_bind. eapply wp_mono; [by apply Hf|]. intros [] s1 (Hs1 & Ep & Et). apply IH; [done|].
    intros s2 Hs2 Ep2 Et2. apply HQ; [done | congruence | congruence].
Qed.

Lemma starts_runtime s :
  reached [CPU; CORE_INIT; BOOT_INFO; PMM; MMU; VMM; ACPI; LAPIC; KHEAP] s ->
  starts [CPU; CORE_INIT; BOOT_INFO; PMM; MMU; VMM; ACPI; LAPIC; KHEAP] RUNTIME s.
Proof.
  intros Hs%reached_in_use. apply wp_bind, wp_constructors; [apply Hp | done|]. intros s' Hs' Ep Et. apply wp_ret.
  split; [done|]. split; [rewrite Et; apply passes_nil | exact Hs'].
Qed.

Lemma all_start d c r s : logged_components = d ++ c :: r -> progress d s -> starts d c s.
Proof.
  intros E Hr.
  destruct d as [|? d]; [injection E as <- _; exact (starts_cpu s Hr) | injection E as <- E].
  destruct d as [|? d]; [injection E as <- _; exact (starts_core s Hr) | injection E as <- E].
  destruct d as [|? d]; [injection E as <- _; exact (starts_boot_info s Hr) | injection E as <- E].
  destruct d as [|? d]; [injection E as <- _; exact (starts_pmm s Hr) | injection E as <- E].
  destruct d as [|? d]; [injection E as <- _; exact (starts_mmu s Hr) | injection E as <- E].
  destruct d as [|? d]; [injection E as <- _; exact (starts_vmm s Hr) | injection E as <- E].
  destruct d as [|? d]; [injection E as <- _; exact (starts_acpi s Hr) | injection E as <- E].
  destruct d as [|? d]; [injection E as <- _; exact (starts_lapic s Hr) | injection E as <- E].
  destruct d as [|? d]; [injection E as <- _; exact (starts_kheap s Hr) | injection E as <- E].
  destruct d as [|? d]; [injection E as <- _; exact (starts_runtime s Hr) | injection E as <- E].
  by destruct d.
Qed.
End Room.

(** *** The graphs *)

(** The log of components that have started. *)
Definition log_text (started : list platform_component) : list char :=
  concat ((fun c => begin_text c ++ inner_text c ++ ok_text c) <$> started).

Lemma progress_printing started s s' : printing s s' -> progress started s -> progress started s'.
Proof.
  intros Hpr. unfold progress. destruct (has RUNTIME started); [|by apply reached_printing].
  destruct Hpr as (p & t & ->). by intros [? ? ? ? ? ?].
Qed.

Lemma cause_printing c e s s' : printing s s' -> cause c e s -> cause c e s'.
Proof. intros (p & t & ->). by destruct c. Qed.

Lemma wp_graph before cs text s (Q : bool -> platform -> Prop) :
  (forall d c r, cs = d ++ c :: r -> forall s, progress (before ++ d) s -> starts (before ++ d) c s) ->
  progress before s -> printed text s ->
  (forall s', progress (before ++ cs) s' -> printed (text ++ log_text cs) s' -> Q true s') ->
  (forall d c r e s', cs = d ++ c :: r -> cause c e s' ->
     printed (text ++ log_text d ++ begin_text c ++ fail_text c e) s' -> Q false s') ->
  wp (run_logged cs) Q s.
Proof.
  unfold run_logged. revert before text s. induction cs as [|c cs IH]; intros before text s Hstarts Hb Ht HOk HErr; cbn [all_true].
  { apply wp_ret, HOk; by rewrite app_nil_r. }
  apply wp_bind, (wp_kernel_logged c text); [done|]. intros s1 Hp1.
  pose proof (Hstarts [] c cs eq_refl s1) as Hc. rewrite app_nil_r in Hc.
  eapply wp_mono; [apply Hc; by eapply progress_printing|]. clear Hc. intros r s2 [Hports Hr]. split; [exact Hports|].
  destruct r as [[]|e].
  - destruct Hr as [Hpass Hreach]. exists (inner_text c). split; [exact Hpass|]. intros s3 Hp3 Ht3.
    apply (IH (before ++ [c]) (text ++ log_text [c])).
    + intros d c' r -> s' Hs'. rewrite <- app_assoc in *. by apply (Hstarts (c :: d) c' r).
    + by eapply progress_printing.
    + unfold log_text. cbn [fmap list_fmap concat]. by rewrite app_nil_r.
    + intros s' Hs' Ht'. apply HOk; [by rewrite <- app_assoc in Hs'|]. unfold log_text in *. cbn [fmap list_fmap concat] in *.
      by rewrite app_nil_r, <- app_assoc in Ht'.
    + intros d c' r e s' -> Hcause Ht'. apply (HErr (c :: d) c' r e); [done | done|]. unfold log_text in *.
      cbn [fmap list_fmap concat] in *. rewrite app_nil_r, <- !app_assoc in Ht'. by rewrite <- !app_assoc.
  - destruct Hr as [Et Hcause]. exists []. split; [rewrite Et; apply passes_nil|]. intros s3 Hp3 Ht3.
    apply wp_ret, (HErr [] c cs e); [done | by eapply cause_printing | exact Ht3].
Qed.

(** *** A machine in its first state *)
Record cold (s : platform) : Prop := {
  cold_line : divisor_latch (configured (uart_after u (serial_ports s))) = false;
  cold_core : local_shape (bsp_state (boot_core s)) /\ current_online_count (boot_core s) = 0;
  cold_controller : apic (boot_core s) = lapic_init;
  cold_info : wf_info (m_info s);
  cold_acpi : acpi_data s = acpi_tables_init;
  cold_memory : unstarted (memory_of s);
  cold_frames : allocator (space (memory_of s)) = pmm_init;
  cold_heap : m_heap_ready (m_kheap s) = false /\ m_lock (m_kheap s) = SPINLOCK_UNLOCKED /\ malloc_inv (m_dl (m_kheap s)) ∅ ∅;
}.

Lemma wp_serial_started (Q : bool -> platform -> Prop) :
  cold s0 -> (forall s, reached [] s -> printed [] s -> Q true s) ->
  wp (run_component_silent SERIAL) Q s0.
Proof.
  intros Hs HQ. unfold run_component_silent. apply wp_bind. cbn [component_init platform_components platform_component_init the_platform platform_parts].
  unfold performing. apply wp_bind, wp_gets, wp_bind. cbn [component_start]. apply wp_bind, wp_zoom, wp_bind, wp_zoom.
  apply (wp_serial_init u); [apply Hs|]. intros p Hcf Hst Hlo. apply wp_zoom, wp_modify, wp_ret, wp_bind, wp_gets, wp_bind, wp_zoom.
  cbn [fst snd terminal set_terminal boot_core set_boot_core calls set_serial_ports serial_ports]. rewrite drop_all. apply wp_ret, wp_ret, wp_ret.
  apply HQ.
  - destruct Hs. split; settle_has; try done.
  - split; [done|]. split; [exact Hcf|]. split; [|exact Hlo]. etransitivity; [exact Hst|]. by rewrite app_nil_r.
Qed.

(** What [kernel_main] comes to: the application starts, or the first failure has a cause. *)
Definition boot_text : list char := line_text Kernel_boot.

(** The line, the boot message and the early components: none of them fails. *)
Definition start_early : kernel platform bool :=
  run_init_graph_silent INSTANTIATION_DEPTH early_boot_roots;;
  BootPlan.print Kernel_boot;;
  run_init_graph INSTANTIATION_DEPTH platform_roots.

Lemma wp_start_early (Q : bool -> platform -> Prop) :
  cold s0 ->
  (forall s, progress [CPU; CORE_INIT] s -> printed (boot_text ++ log_text [CPU; CORE_INIT]) s -> Q true s) ->
  wp start_early Q s0.
Proof.
  intros Hcold HQ. unfold start_early, run_init_graph_silent, run_init_graph.
  change (sorted_components INSTANTIATION_DEPTH early_boot_roots) with (Ret [SERIAL]).
  rewrite platform_sorted. unfold compiled. apply wp_bind. unfold run_silent. cbn [all_true].
  apply wp_bind, wp_serial_started; [done|]. intros s1 Hs1 Ht1. apply wp_ret.
  apply wp_bind, (wp_print _ []); [done | done|]. intros s2 Hp2 Ht2. cbn [app] in Ht2.
  apply (wp_graph [] [CPU; CORE_INIT] boot_text).
  - intros d c r E s Hs. by apply (early_start d c r).
  - by apply (reached_printing [] s1).
  - exact Ht2.
  - exact HQ.
  - intros d c r e s' E Hcause _. exfalso.
    destruct d as [|? d]; [injection E as <- _; exact Hcause | injection E as <- E].
    destruct d as [|? d]; [injection E as <- _; exact Hcause | injection E as <- E]. by destruct d.
Qed.

Lemma start_all_early s :
  start_all s = (b ← start_early; if b : bool then run_init_graph INSTANTIATION_DEPTH boot_roots else mret false) s.
Proof.
  unfold start_all, start_early, mbind, kernel_bind.
  destruct (run_init_graph_silent _ _ s) as [[b s1]| | |]; [|done..].
  by destruct (BootPlan.print Kernel_boot s1) as [[[] s2]| | |].
Qed.

Lemma wp_start_all :
  (forall message, described h l <> Overflows message) -> cold s0 ->
  wp start_all (fun b s =>
    if b : bool then in_use s /\ printed (boot_text ++ log_text logged_components) s
    else exists d c r e, logged_components = d ++ c :: r /\ cause c e s /\
      printed (boot_text ++ log_text d ++ begin_text c ++ fail_text c e) s) s0.
Proof.
  intros Hroom Hcold. unfold wp. rewrite start_all_early. apply wp_bind, wp_start_early; [done|].
  intros s3 Hs3 Ht3. cbv beta. unfold run_init_graph. rewrite boot_sorted. unfold compiled.
  apply (wp_graph [CPU; CORE_INIT] boot_order (boot_text ++ log_text [CPU; CORE_INIT])).
  - intros d c r E s Hs. apply (all_start Hroom ([CPU; CORE_INIT] ++ d) c r); [|exact Hs].
    unfold logged_components. by rewrite E, <- app_assoc.
  - exact Hs3.
  - exact Ht3.
  - intros s' Hs' Ht'. split; [exact Hs'|]. unfold log_text, logged_components in *. by rewrite fmap_app, concat_app, app_assoc.
  - intros d c r e s' E Hcause Ht'. exists ([CPU; CORE_INIT] ++ d), c, r, e. split; [unfold logged_components; by rewrite E, <- app_assoc|].
    split; [done|]. unfold log_text in *. by rewrite fmap_app, concat_app, <- !app_assoc in *.
Qed.

(** The loader announces more than the tables of the boot information hold. *)
Lemma start_all_panics message :
  described h l = Overflows message -> cold s0 -> panics start_all message s0.
Proof.
  intros Ed Hcold. unfold panics. rewrite start_all_early. apply panics_bind, wp_start_early; [done|].
  intros s3 Hs3 Ht3. unfold run_init_graph. rewrite boot_sorted. unfold compiled, run_logged.
  change boot_order with (BOOT_INFO :: tail boot_order). cbn [all_true]. apply panics_bind_first. unfold run_component_logged.
  apply panics_bind. eapply wp_print; [split; [apply platform_name_ok | done] | exact Ht3|]. intros s4 Hp4 _.
  apply panics_bind_first. cbn [component_init platform_components platform_component_init the_platform platform_parts].
  unfold performing. apply panics_bind, wp_gets. apply panics_bind_first. cbn [component_start]. apply panics_zoom.
  assert (Hi : wf_info (m_info s4)) by (destruct Hp4 as (p & x & ->); apply Hs3).
  pose proof (meets_boot_parse h l (m_info s4) Hi (provided_access Hp) (provided_structure Hp)) as Hparse.
  rewrite Ed in Hparse. exact Hparse.
Qed.
End Starts.

(** ** Properties *)

(** C1: The kernel starts.  From a machine in its first state, with a loader that keeps its promise (its structure and
    the tables of the firmware can be read) and constructors that keep the kernel's parts in order ([provided]), one of
    three things happens.  If the loader announces more than a table of the boot information holds, [kernel_main]
    panics with the message of that table.  Otherwise it starts the application, and then: every exception is delivered
    to its stub; the boot information is what the loader's structure says; the page tables translate the kernel's
    sections, the direct map and what was mapped on demand, and nothing else; the root table of the firmware and the
    interrupt controller have been found, and the controller is enabled; the heap can be used.  Or it halts at the
    first component that failed, for a reason that can be named: a malformed structure, no memory, no tables, no
    controller.  In these two cases the serial line has sent the log of what started, and of the failure. *)
Theorem kernel_starts :
  provided -> cold s0 ->
  match described h l with
  | Overflows message => panics kernel_main message s0
  | _ => exists b s, kernel_main s0 = (if b : bool then application s else Diverge) /\
      if b then in_use s /\ printed (boot_text ++ log_text logged_components) s
      else exists d c r e, logged_components = d ++ c :: r /\ cause c e s /\
        printed (boot_text ++ log_text d ++ begin_text c ++ fail_text c e) s
  end.
Proof.
  intros Hp Hcold.
  assert (Hroom : (forall message, described h l <> Overflows message) -> exists b s,
    kernel_main s0 = (if b : bool then application s else Diverge) /\
    if b then in_use s /\ printed (boot_text ++ log_text logged_components) s
    else exists d c r e, logged_components = d ++ c :: r /\ cause c e s /\
      printed (boot_text ++ log_text d ++ begin_text c ++ fail_text c e) s).
  { intros Hroom. exact (kernel_main_start_all s0 _ (wp_start_all Hp Hroom Hcold)). }
  destruct (described h l) as [d| |message] eqn:Ed; [by apply Hroom.. | ].
  by apply kernel_main_panics, start_all_panics.
Qed.
End KernelFacts.
