(* ===== verification/KernelExample.v ===== *)
(** * KernelExample: a kernel that starts

    The theorem of [KernelFacts] at work, on a machine with two megabytes of memory, a loader's structure of two
    tags, a root table of one pointer and a table with an interrupt controller. *)

From Stdlib Require Import FunctionalExtensionality.
From S2P Require Import Prelude Bits Containers Memory Page Boot Pmm Cpu Radix RadixFacts Paging Mmu Vmm VmmFacts.
From S2P Require Import Spinlock Atomic KernelSpace Heap HeapFacts Multiboot2 Multiboot2Facts InitGraph BootPlan.
From S2P Require Import Acpi AcpiFacts Format Emit FormatFacts Descriptors Exceptions PanicFacts DescriptorsFacts.
From S2P Require Import Lapic LapicFacts Core CoreFacts Runtime Serial SerialFacts Kernel KernelFacts.

Section Example.
#[local] Existing Instance KernelSpace.boot_layout.
#[local] Existing Instance KernelSpace.boot_layout_ok.
#[local] Existing Instance Mmu.example_image.
#[local] Existing Instance KernelSpace.example_image_ok.
#[local] Existing Instance KernelSpace.boot_machine.
#[local] Existing Instance CoreFacts.boot_objects.
#[local] Existing Instance CoreFacts.boot_stubs.
#[local] Existing Instance CoreFacts.quiet_device.
#[local] Existing Instance SerialFacts.slow_line.
#[local] Existing Instance HeapFacts.page_heap.
#[local] Existing Instance HeapFacts.page_heap_laws.

(** The loader's structure, at 4096: the memory map and the root pointer; after it the tables. *)
Definition boot_rsdp : list Z := sealed 8 ([82; 83; 68; 32; 80; 84; 82; 32] ++ replicate 8 0 ++ little_endian 4 0x1058).

Definition boot_structure : list Z := structure_bytes (
  tag_bytes tag_type.MEMORY_MAP (little_endian 4 24 ++ little_endian 4 0 ++
    little_endian 8 0x100000 ++ little_endian 8 0x200000 ++ little_endian 4 1 ++ little_endian 4 0) ++
  tag_bytes tag_type.ACPI_OLD boot_rsdp ++ tag_bytes tag_type.END []).

Definition boot_bytes : list Z :=
  boot_structure ++ table_bytes [82; 83; 68; 84] (little_endian 4 0x1080) ++ example_madt.

Definition boot_tags : list Z := [4104; 4144].

Lemma boot_access : accessible (loaded boot_bytes).
Proof.
  assert (Hsize : structure_size (loaded boot_bytes) = 88) by by vm_compute.
  assert (Hlen : zlen boot_bytes = 198) by by vm_compute.
  split; cbn [m_info_address loader_memory loaded]; [lia | |].
  - intros _ _ x Hx. apply (mapped_image 4096 boot_bytes (4096 + 198)); [by rewrite Hlen | lia].
  - intros _ _ _. rewrite Hsize. intros x Hx. apply (mapped_image 4096 boot_bytes (4096 + 198)); [by rewrite Hlen | lia].
Qed.

Lemma boot_announced : announces (loaded boot_bytes) boot_tags.
Proof.
  split; [done | done | vm_compute; intros [=] | done |].
  change (m_info_address (loaded boot_bytes) + structure_size (loaded boot_bytes))
    with (4096 + structure_size (loaded boot_bytes)).
  replace (structure_size (loaded boot_bytes)) with 88 by (by vm_compute).
  do 2 (apply tag_list_tag; [done | by vm_compute | by vm_compute | by vm_compute |];
    match goal with |- tag_list _ _ ?a _ => let a' := eval vm_compute in a in change a with a' end).
  by apply tag_list_end; vm_compute.
Qed.

Definition boot_region : memory_region := {| region_base := 0x100000; region_length := 0x200000; region_kind := USABLE |}.
Definition boot_acpi : acpi_info := {| acpi_present := true; rsdp := {| range_base := 4152; range_length := 20 |}; revision := 1 |}.

Lemma boot_described i :
  described (loaded boot_bytes) boot_tags = Accepts (machine_of i) ->
  InplaceVector.elements (memory_map i) = [boot_region] /\ acpi i = boot_acpi.
Proof.
  intros Hd. assert (E : match described (loaded boot_bytes) boot_tags with
    | Accepts d => d_memory_map d = [boot_region] /\ d_acpi d = boot_acpi
    | _ => False
    end) by by vm_compute.
  rewrite Hd in E. exact E.
Qed.

(** The kernel reads the loader's memory through the direct map. *)
Lemma boot_firmware i :
  InplaceVector.elements (memory_map i) = [boot_region] ->
  firmware (loaded boot_bytes) i = image_at (DIRECT_MAP_BASE + 4096) boot_bytes.
Proof.
  intros Hm. apply functional_extensionality. intros va. unfold firmware, kernel_view, direct_view, direct_mapped.
  rewrite Hm. cbn [existsb loader_memory loaded]. assert (Hlen : zlen boot_bytes = 198) by by vm_compute.
  assert (Hout : forall a x, ~ 0 <= x - a < 198 -> image_at a boot_bytes x = None).
  { intros a x Hx. unfold image_at. destruct (Z.leb_spec a x); [|done]. apply lookup_ge_None_2. unfold zlen in Hlen. lia. }
  assert (Hsame : image_at 4096 boot_bytes (va - DIRECT_MAP_BASE) = image_at (DIRECT_MAP_BASE + 4096) boot_bytes va).
  { unfold image_at. replace (va - DIRECT_MAP_BASE - 4096) with (va - (DIRECT_MAP_BASE + 4096)) by lia.
    destruct (Z.leb_spec 4096 (va - DIRECT_MAP_BASE)), (Z.leb_spec (DIRECT_MAP_BASE + 4096) va); try done; lia. }
  cbn [text_start kernel_end example_image]. unfold KERNEL_BASE.
  destruct ((_ <=? va) && (va <? _)) eqn:E1.
  { rewrite !Hout; [done | |]; unfold DIRECT_MAP_BASE; lia. }
  destruct ((DIRECT_MAP_BASE <=? va) && (va <? DIRECT_MAP_BASE + DIRECT_MAP_SIZE)) eqn:E2; cbn [andb]; cycle 1.
  { rewrite Hout; [done|]. change DIRECT_MAP_SIZE with 0x400000000 in E2. lia. }
  destruct (touches _ boot_region || false) eqn:E3; [exact Hsame|]. rewrite Hout; [done|]. intros Hin.
  apply orb_false_iff in E3 as [E3 _]. revert E3. unfold touches. cbn [region_kind region_length region_base boot_region].
  replace ((va - DIRECT_MAP_BASE) / 2 ^ 21) with 0 by div_lia. by vm_compute.
Qed.

Abbreviation boot_memory := (image_at (DIRECT_MAP_BASE + 4096) boot_bytes).

Lemma boot_mapped a n :
  DIRECT_MAP_BASE + 4096 <= a -> n <= DIRECT_MAP_BASE + 4096 + 198 -> Memory.mapped boot_memory a n.
Proof.
  intros Ha Hn x Hx. apply (mapped_image _ boot_bytes (DIRECT_MAP_BASE + 4096 + 198)); [by vm_compute | lia].
Qed.

Lemma boot_root : rsdp_root boot_memory 4152 = Some (0x1058, false).
Proof. by vm_compute. Qed.

Lemma boot_tables i :
  described (loaded boot_bytes) boot_tags = Accepts (machine_of i) ->
  rsdp_reachable (firmware (loaded boot_bytes) i) (root_pointer i) /\
  tables_reachable (firmware (loaded boot_bytes) i) (state_of (root_pointer i) (root_found (loaded boot_bytes) i)).
Proof.
  intros [Hm Ha]%boot_described. unfold root_found, root_pointer. rewrite Ha, (boot_firmware i Hm).
  change (range_base (rsdp boot_acpi)) with 4152. rewrite boot_root. split; [|split].
  - intros v _ Hv. vm_compute in Hv. apply (inj Some) in Hv as <-. split; [apply boot_mapped; by vm_compute|].
    intros Hrev. by vm_compute in Hrev.
  - intros _ v Hv. vm_compute in Hv. apply (inj Some) in Hv as <-. split; apply boot_mapped; by vm_compute.
  - intros j v Hj. replace (pointer_count _ _) with 1 in Hj by by vm_compute.
    replace j with 0 by lia. intros _ Hv. vm_compute in Hv. apply (inj Some) in Hv as <-.
    split; apply boot_mapped; by vm_compute.
Qed.

(** Nothing has started. *)
Definition cold_platform : platform := {|
  serial_ports := []; boot_core := reset_core; m_info := info_init; acpi_data := acpi_tables_init;
  m_kheap := heap_init ∅ cold_vmm;
|}.

Lemma cold_platform_cold : cold power_on cold_platform.
Proof.
  split; try done. split; [exact reset_shape | done].
Qed.

Lemma boot_provided : provided (loaded boot_bytes) boot_tags [].
Proof.
  split; [exact boot_stubs_ok | exact boot_access | exact boot_announced | intros i _; apply boot_tables | done].
Qed.

Lemma accepts_fits (v : verdict) : match v with Accepts _ => True | _ => False end -> exists d, v = Accepts d.
Proof. destruct v; [eauto | done..]. Qed.

Lemma boot_fits : exists d, described (loaded boot_bytes) boot_tags = Accepts d.
Proof. apply accepts_fits. by vm_compute. Qed.

(** The application starts, the serial line has told so, and a double fault runs on its own stack; or the kernel has
    halted, and said why. *)
Lemma kernel_starts_witness :
  exists b s, kernel_main (H := platform_parts (loaded boot_bytes) [] (mret tt) 2) cold_platform
      = (if b : bool then Ret (tt, s) else Diverge) /\
    if b then
      deliver (idt_entries (idt_m (bsp_state (boot_core s)))) (tss_m (bsp_state (boot_core s))) 8 =
        Some {| runs := 0xffffffff80100080; on_stack := Some 0xffffffff80018000; in_segment := 8; masks := true |} /\
      sent (uart_after power_on (serial_ports s)) = wire (boot_text ++ log_text logged_components)
    else exists c e, cause (loaded boot_bytes) boot_tags c e s.
Proof.
  pose proof (kernel_starts (loaded boot_bytes) boot_tags [] (mret tt) 2 1 slow_line_patience ltac:(lia) power_on cold_platform
    boot_provided cold_platform_cold) as Hstarts.
  destruct boot_fits as [d Ed]. rewrite Ed in Hstarts. cbv iota in Hstarts. destruct Hstarts as (b & s & Hmain & Hres).
  exists b, s. split; [exact Hmain|]. destruct b.
  - destruct Hres as [Huse (_ & _ & Hsent & _)]. split; [|exact Hsent].
    rewrite (up_delivery _ _ (use_core _ _ _ Huse) 8) by (unfold IDT_ENTRY_COUNT; lia). reflexivity.
  - destruct Hres as (started & c & r & e & _ & Hcause & _). by exists c, e.
Defined.
End Example.
