(* ===== verification/Posix.v ===== *)
(** * Posix: the application's interface, [posix/abi.hpp] and [kernel/fs/posix/stub_impl.cpp]

    The constants of the interface and the file calls: standard output is the console, and the modules the
    loader left in memory are files that can be read, with eight descriptors.  A pointer of the caller is its
    address, 0 for null, in the memory of the state; a path is its characters. *)

From stdpp Require Import list_numbers.
From S2P Require Import Prelude Containers Memory Boot Page Pmm Mmu Emit Runtime.
Import FixedString InplaceVector.

(** ** [posix/abi.hpp] *)

Definition SSIZE_MAX_VALUE : Z := u64 (u64 (Z.shiftl 1 (8 * 8 - 1)) - 1).

Definition ENOENT : Z := 2.
Definition EIO : Z := 5.
Definition EBADF : Z := 9.
Definition ENOMEM : Z := 12.
Definition EFAULT : Z := 14.
Definition EINVAL : Z := 22.
Definition EMFILE : Z := 24.
Definition ESPIPE : Z := 29.
Definition ENOSYS : Z := 38.

Definition STDIN_FILENO : Z := 0.
Definition STDOUT_FILENO : Z := 1.
Definition STDERR_FILENO : Z := 2.

Definition O_WRONLY : Z := 1.
Definition O_RDWR : Z := 2.

Definition SEEK_SET : Z := 0.
Definition SEEK_CUR : Z := 1.
Definition SEEK_END : Z := 2.

Definition S_IFCHR : Z := 0x2000.
Definition S_IFREG : Z := 0x8000.

Definition IOV_MAX : Z := 1024.

(** Conversion to a signed 64-bit type ([ssize_t], [off_t]), and its addition, which may not overflow. *)
Definition i64 (x : Z) : Z := if u64 x <? 2 ^ 63 then u64 x else u64 x - 2 ^ 64.

Definition signed_add {S} (a b : Z) : kernel S Z :=
  if (- 2 ^ 63 <=? a + b) && (a + b <? 2 ^ 63) then mret (a + b) else undefined.

(** ** State *)

Definition MAX_DESCRIPTORS : Z := 8.
Definition FIRST_FILE_DESCRIPTOR : Z := 3.

Record descriptor : Type := {
  is_open : bool;
  base : Z;
  size : Z;
  offset : Z;
}.

Definition descriptor_init : descriptor := {| is_open := false; base := 0; size := 0; offset := 0 |}.

#[export] Instance descriptor_inhabited : Inhabited descriptor := base.populate descriptor_init.

(** The table of the file calls, [errno], and what they act on: memory and the console. *)
Record posix : Type := {
  m_descriptors : list descriptor;
  errno : Z;
  bytes : memory;
  output : console;
}.

Definition set_descriptors x s := {| m_descriptors := x; errno := errno s; bytes := bytes s; output := output s |}.
Definition set_errno x s := {| m_descriptors := m_descriptors s; errno := x; bytes := bytes s; output := output s |}.
Definition set_bytes x s := {| m_descriptors := m_descriptors s; errno := errno s; bytes := x; output := output s |}.
Definition set_output x s := {| m_descriptors := m_descriptors s; errno := errno s; bytes := bytes s; output := x |}.

Definition on_memory {A} (m : kernel memory A) : kernel posix A := zoom bytes set_bytes m.
Definition on_console {A} (m : kernel console A) : kernel posix A := zoom output set_output m.

(** [errno = e; return -1;] *)
Definition fail (e : Z) : kernel posix Z := modify (set_errno e);; mret (-1).

Definition get_descriptor (fd : Z) : kernel posix descriptor := zoom m_descriptors set_descriptors (array_get fd).
Definition set_descriptor (fd : Z) (d : descriptor) : kernel posix unit :=
  zoom m_descriptors set_descriptors (array_set fd d).

(** ** Memory of the caller *)

(** The [n]-byte word at an address, read and written. *)
Definition load_word (n : nat) (a : Z) : kernel memory Z := fun m => fetch m n a m.

Fixpoint store_bytes (a : Z) (l : list Z) : kernel memory unit :=
  match l with
  | [] => mret tt
  | b :: rest => store8 a b;; store_bytes (a + 1) rest
  end.

Definition store_word (n : nat) (a v : Z) : kernel memory unit := store_bytes a (little_endian n v).

(** The characters that can be read from a pointer, up to a number of them. *)
Fixpoint prefix_at (m : memory) (n : nat) (a : Z) : list char :=
  match n with
  | O => []
  | S n' => match m a with Some b => char_of (u8 b) :: prefix_at m n' (a + 1) | None => [] end
  end.

Definition pointed (a n : Z) : kernel memory text :=
  gets (fun m => if a =? 0 then None else Some (prefix_at m (Z.to_nat n) a)).

(** The structures [iovec] and [stat], at their offsets. *)
Definition iov_base (vectors i : Z) : kernel posix Z := on_memory (load_word 8 (vectors + 16 * i)).
Definition iov_len (vectors i : Z) : kernel posix Z := on_memory (load_word 8 (vectors + 16 * i + 8)).
Definition stat_mode (out mode : Z) : kernel posix unit := on_memory (store_word 4 (out + 24) mode).
Definition stat_size (out size : Z) : kernel posix unit := on_memory (store_word 8 (out + 48) size).

(** ** Helpers *)

Definition is_console (fd : Z) : bool := (0 <=? fd) && (fd <=? STDERR_FILENO).

(** [None] is the null pointer, [Some fd] the address of the entry. *)
Definition file_descriptor (fd : Z) : kernel posix (option Z) :=
  if (fd <? FIRST_FILE_DESCRIPTOR) || (MAX_DESCRIPTORS <=? fd) then mret None
  else entry ← get_descriptor fd; mret (if is_open entry then Some fd else None).

Definition same_string {S} (lhs rhs : text) : kernel S bool :=
  n ← while (match lhs with Some l => length l | None => 1%nat end)
    (fun i =>
       l ← char_at lhs i;
       if negb (l =? NUL) then r ← char_at rhs i; mret (l =? r) else mret false)
    (fun i => mret (i + 1))
    0;
  l ← char_at lhs n; r ← char_at rhs n; mret (l =? r).

Definition copy_bytes (destination source length : Z) : kernel memory unit :=
  for_range 0 length (fun i => b ← load8 (source + i); store8 (destination + i) b).

Definition validate_iovecs (vectors count : Z) : kernel posix bool :=
  if (count <? 0) || (IOV_MAX <? count) || ((vectors =? 0) && negb (count =? 0))
  then modify (set_errno EINVAL);; mret false
  else
    r ← try_fold (seqZ 0 count) (fun i total =>
      base ← iov_base vectors i;
      len ← iov_len vectors i;
      if (base =? 0) && negb (len =? 0)
      then modify (set_errno EFAULT);; mret (Err tt)
      else if u64 (SSIZE_MAX_VALUE - total) <? len
      then modify (set_errno EINVAL);; mret (Err tt)
      else mret (Ok (u64 (total + len)))) 0;
    mret (match r with Ok _ => true | Err _ => false end).

(** The loop of [readv] and [writev]: [transfer] is [read] or [write]. *)
Definition transfer_each (transfer : Z -> Z -> Z -> kernel posix Z) (fd vectors count : Z) : kernel posix Z :=
  r ← try_fold (seqZ 0 count) (fun i total =>
    base ← iov_base vectors i;
    len ← iov_len vectors i;
    moved ← transfer fd base len;
    if moved <? 0 then mret (Err (if total =? 0 then -1 else total))
    else
      total ← signed_add total moved;
      len ← iov_len vectors i;
      mret (if negb (u64 moved =? len) then Err total else Ok total)) 0;
  mret (match r with Ok total => total | Err total => total end).

(** ** The calls *)

Definition write (fd buffer count : Z) : kernel posix Z :=
  if negb (fd =? STDOUT_FILENO) && negb (fd =? STDERR_FILENO) then fail EBADF
  else
    text ← on_memory (pointed buffer count);
    on_console (emit_bytes text count);;
    mret (i64 count).

Definition writev (fd vectors count : Z) : kernel posix Z :=
  valid ← validate_iovecs vectors count;
  if negb valid then mret (-1) else transfer_each write fd vectors count.

Definition read (fd buffer count : Z) : kernel posix Z :=
  if is_console fd then (if fd =? STDIN_FILENO then mret 0 else fail EBADF)
  else
    entry ← file_descriptor fd;
    match entry with
    | None => fail EBADF
    | Some i =>
        d ← get_descriptor i;
        let remaining := u64 (size d - offset d) in
        let length := if count <? remaining then count else remaining in
        on_memory (copy_bytes buffer (base d + offset d) length);;
        set_descriptor i {| is_open := is_open d; base := base d; size := size d;
          offset := u64 (offset d + length) |};;
        mret (i64 length)
    end.

Definition readv (fd vectors count : Z) : kernel posix Z :=
  valid ← validate_iovecs vectors count;
  if negb valid then mret (-1) else transfer_each read fd vectors count.

Definition lseek (fd off whence : Z) : kernel posix Z :=
  entry ← file_descriptor fd;
  match entry with
  | None => fail (if is_console fd then ESPIPE else EBADF)
  | Some i =>
      d ← get_descriptor i;
      let seek target :=
        if (target <? 0) || (size d <? u64 target) then fail EINVAL
        else
          set_descriptor i {| is_open := is_open d; base := base d; size := size d; offset := u64 target |};;
          mret target in
      if whence =? SEEK_CUR then target ← signed_add off (i64 (offset d)); seek target
      else if whence =? SEEK_END then target ← signed_add off (i64 (size d)); seek target
      else if negb (whence =? SEEK_SET) then fail EINVAL
      else seek off
  end.

Definition close (fd : Z) : kernel posix Z :=
  entry ← file_descriptor fd;
  match entry with
  | None => fail EBADF
  | Some i => set_descriptor i descriptor_init;; mret 0
  end.

Definition fstat (fd out : Z) : kernel posix Z :=
  if out =? 0 then fail EINVAL
  else if is_console fd then stat_mode out S_IFCHR;; stat_size out 0;; mret 0
  else
    entry ← file_descriptor fd;
    match entry with
    | None => fail EBADF
    | Some i =>
        d ← get_descriptor i;
        stat_mode out S_IFREG;; stat_size out (i64 (size d));; mret 0
    end.

(** [open] over the boot information of the machine. *)
Section Open.
Context `{layout} (boot : info).

Definition first_free (window length : Z) : kernel posix (option Z) :=
  scan_range FIRST_FILE_DESCRIPTOR MAX_DESCRIPTORS (fun fd =>
    d ← get_descriptor fd;
    if is_open d then mret None
    else
      set_descriptor fd {| is_open := true; base := window; size := length; offset := 0 |};;
      mret (Some fd)).

Definition open_module (path : text) (module : module_info) : kernel posix (option Z) :=
  same ← same_string path (Some (m_data (module_command_line module)));
  if negb same then mret None
  else
    match phy_to_vrt (range_base (module_range module)) with
    | None => r ← fail ENOMEM; mret (Some r)
    | Some window =>
        fd ← first_free window (range_length (module_range module));
        match fd with
        | Some fd => mret (Some fd)
        | None => r ← fail EMFILE; mret (Some r)
        end
    end.

Definition open (path : text) (flags : Z) : kernel posix Z :=
  if (match path with None => true | Some _ => false end) ||
     negb (Z.land flags O_WRONLY =? 0) || negb (Z.land flags O_RDWR =? 0)
  then fail EINVAL
  else
    r ← scan_range 0 (InplaceVector.m_size (modules boot)) (fun i =>
      module ← observe (modules boot) (InplaceVector.get i); open_module path module);
    match r with
    | Some result => mret result
    | None => fail ENOENT
    end.
End Open.
