(* ===== verification/PosixFacts.v ===== *)
(** * PosixFacts: what the file calls do

    The specification is a map from descriptors to files, each a content and a position: a call of [Posix] does to
    the table and the memory what it should do to this map. *)

From stdpp Require Import list_numbers.
From S2P Require Import Prelude Containers Memory Boot Page Pmm Mmu Format Emit FormatFacts PanicFacts Runtime RuntimeFacts Posix.
Import FixedStringFacts InplaceVectorFacts.

(** ** The specification *)

Record file : Type := { content : list Z; position : Z }.

Definition move_to (p : Z) (f : file) : file := {| content := content f; position := p |}.

(** The bytes of a list are in memory at an address. *)
Definition holds (m : memory) (a : Z) (l : list Z) : Prop :=
  mapped m a (a + zlen l) /\ forall i, 0 <= i < zlen l -> byte_at m (a + i) = znth l i.

Definition is_file_descriptor (fd : Z) : bool := (FIRST_FILE_DESCRIPTOR <=? fd) && (fd <? MAX_DESCRIPTORS).

(** An entry of the table for an open file. *)
Record entry_ok (s : posix) (fd : Z) (f : file) : Prop := {
  entry_range : is_file_descriptor fd = true;
  entry_open : is_open (znth (m_descriptors s) fd) = true;
  entry_size : size (znth (m_descriptors s) fd) = zlen (content f);
  entry_offset : offset (znth (m_descriptors s) fd) = position f;
  entry_position : 0 <= position f <= zlen (content f);
  entry_bound : zlen (content f) < 2 ^ 63;
  entry_content : holds (bytes s) (base (znth (m_descriptors s) fd)) (content f);
}.

(** The table and the memory represent the files. *)
Record represents (s : posix) (fs : gmap Z file) : Prop := {
  table_length : zlen (m_descriptors s) = MAX_DESCRIPTORS;
  table_open fd f : fs !! fd = Some f -> entry_ok s fd f;
  table_closed fd : is_file_descriptor fd = true -> fs !! fd = None -> is_open (znth (m_descriptors s) fd) = false;
}.

(** Nothing that is open is stored in [lo, hi). *)
Definition clear_of (s : posix) (fs : gmap Z file) (lo hi : Z) : Prop :=
  forall fd f, fs !! fd = Some f ->
    let b := base (znth (m_descriptors s) fd) in hi <= b \/ b + zlen (content f) <= lo.

(** ** Steps *)

Lemma wp_fail e (Q : Z -> posix -> Prop) s : Q (-1) (set_errno e s) -> wp (fail e) Q s.
Proof. intros HQ. by apply wp_bind, wp_modify, wp_ret. Qed.

Lemma wp_get_descriptor fd (Q : descriptor -> posix -> Prop) s :
  zlen (m_descriptors s) = MAX_DESCRIPTORS -> 0 <= fd < MAX_DESCRIPTORS ->
  Q (znth (m_descriptors s) fd) s -> wp (get_descriptor fd) Q s.
Proof. intros Hl Hfd HQ. apply wp_zoom, wp_array_get; [by rewrite Hl|]. by destruct s. Qed.

Lemma wp_set_descriptor fd d (Q : unit -> posix -> Prop) s :
  zlen (m_descriptors s) = MAX_DESCRIPTORS -> 0 <= fd < MAX_DESCRIPTORS ->
  Q tt (set_descriptors (zset (m_descriptors s) fd d) s) -> wp (set_descriptor fd d) Q s.
Proof. intros Hl Hfd HQ. apply wp_zoom, wp_array_set; [by rewrite Hl | exact HQ]. Qed.

Lemma is_file_range fd : is_file_descriptor fd = true <-> 3 <= fd < 8.
Proof. unfold is_file_descriptor, FIRST_FILE_DESCRIPTOR, MAX_DESCRIPTORS. lia. Qed.

(** Looking a descriptor up. *)
Lemma wp_file_descriptor fs fd (Q : option Z -> posix -> Prop) s :
  represents s fs ->
  (fs !! fd = None -> Q None s) -> (forall f, fs !! fd = Some f -> entry_ok s fd f -> Q (Some fd) s) ->
  wp (file_descriptor fd) Q s.
Proof.
  intros Hs Hnone Hsome. unfold file_descriptor. destruct (fs !! fd) as [f|] eqn:E.
  - pose proof (table_open _ _ Hs _ _ E) as He. pose proof (proj1 (is_file_range fd) (entry_range _ _ _ He)).
    unfold FIRST_FILE_DESCRIPTOR, MAX_DESCRIPTORS. destruct_comparisons; try lia. cbn [orb].
    apply wp_bind, wp_get_descriptor; [apply Hs | unfold MAX_DESCRIPTORS; lia|]. apply wp_ret.
    rewrite (entry_open _ _ _ He). by eapply Hsome.
  - destruct (is_file_descriptor fd) eqn:Hfd.
    + pose proof (table_closed _ _ Hs _ Hfd E) as Hc. apply is_file_range in Hfd.
      unfold FIRST_FILE_DESCRIPTOR, MAX_DESCRIPTORS. destruct_comparisons; try lia. cbn [orb].
      apply wp_bind, wp_get_descriptor; [apply Hs | unfold MAX_DESCRIPTORS; lia|]. apply wp_ret.
      rewrite Hc. by apply Hnone.
    + assert (Hout : (fd <? FIRST_FILE_DESCRIPTOR) || (MAX_DESCRIPTORS <=? fd) = true).
      { apply not_true_iff_false in Hfd. rewrite is_file_range in Hfd.
        unfold FIRST_FILE_DESCRIPTOR, MAX_DESCRIPTORS. lia. }
      rewrite Hout. by apply wp_ret, Hnone.
Qed.

(** Changing one entry. *)
Lemma represents_entry s fs fd f d :
  represents s fs -> is_file_descriptor fd = true ->
  is_open d = true -> size d = zlen (content f) -> offset d = position f ->
  0 <= position f <= zlen (content f) -> zlen (content f) < 2 ^ 63 -> holds (bytes s) (base d) (content f) ->
  represents (set_descriptors (zset (m_descriptors s) fd d) s) (<[fd := f]> fs).
Proof.
  intros [Hl Ho Hc] Hfd H1 H2 H3 H4 H5 H6. pose proof (proj1 (is_file_range fd) Hfd) as Hr. split.
  - cbn. by rewrite zlen_zset.
  - intros fd' f' Hf'. destruct (decide (fd' = fd)) as [->|Hne].
    + rewrite lookup_insert_eq in Hf'. injection Hf' as <-.
      split; cbn; rewrite ?znth_zset_eq by (rewrite Hl; unfold MAX_DESCRIPTORS; lia); done.
    + rewrite lookup_insert_ne in Hf' by done. pose proof (Ho _ _ Hf') as He.
      pose proof (proj1 (is_file_range fd') (entry_range _ _ _ He)) as Hr'.
      destruct He. split; cbn; rewrite ?znth_zset_ne by lia; done.
  - intros fd' Hfd' Hf'. apply lookup_insert_None in Hf' as [Hf' Hne]. pose proof (proj1 (is_file_range fd') Hfd').
    cbn. rewrite znth_zset_ne by lia. by apply Hc.
Qed.

Lemma represents_close s fs fd :
  represents s fs -> is_file_descriptor fd = true ->
  represents (set_descriptors (zset (m_descriptors s) fd descriptor_init) s) (delete fd fs).
Proof.
  intros [Hl Ho Hc] Hfd. pose proof (proj1 (is_file_range fd) Hfd) as Hr. split.
  - cbn. by rewrite zlen_zset.
  - intros fd' f' Hf'. apply lookup_delete_Some in Hf' as [Hne Hf']. pose proof (Ho _ _ Hf') as He.
    pose proof (proj1 (is_file_range fd') (entry_range _ _ _ He)) as Hr'.
    destruct He. split; cbn; rewrite ?znth_zset_ne by lia; done.
  - intros fd' Hfd' Hf'. pose proof (proj1 (is_file_range fd') Hfd'). cbn. destruct (decide (fd' = fd)) as [->|Hne].
    + by rewrite znth_zset_eq by (rewrite Hl; unfold MAX_DESCRIPTORS; lia).
    + rewrite znth_zset_ne by lia. rewrite lookup_delete_ne in Hf' by done. by apply Hc.
Qed.

(** The representation does not depend on [errno], the console or memory outside of the files. *)
Lemma represents_ext s s' fs :
  represents s fs -> m_descriptors s' = m_descriptors s ->
  (forall fd f, fs !! fd = Some f -> holds (bytes s') (base (znth (m_descriptors s) fd)) (content f)) ->
  represents s' fs.
Proof.
  intros [Hl Ho Hc] Hd Hm. split; rewrite ?Hd; [done | | done]. intros fd f Hf.
  destruct (Ho fd f Hf). split; rewrite ?Hd; try done. by apply Hm.
Qed.

Lemma represents_errno e s fs : represents s fs -> represents (set_errno e s) fs.
Proof. intros Hs. eapply represents_ext; [exact Hs | done|]. intros fd f Hf. apply (table_open _ _ Hs _ _ Hf). Qed.

(** Writing where no file is stored. *)
Lemma represents_write s fs m lo hi :
  represents s fs -> clear_of s fs lo hi ->
  (forall a, is_Some (bytes s a) -> is_Some (m a)) -> (forall a, ~ lo <= a < hi -> byte_at m a = byte_at (bytes s) a) ->
  represents (set_bytes m s) fs.
Proof.
  intros Hs Hclear Hmap Hsame. eapply represents_ext; [exact Hs | done|]. intros fd f Hf.
  destruct (entry_content _ _ _ (table_open _ _ Hs _ _ Hf)) as [Hm Hb]. specialize (Hclear fd f Hf). cbn in Hclear.
  split; [intros a Ha; by apply Hmap, Hm|]. intros i Hi. cbn [bytes set_bytes]. rewrite <- Hb by done. apply Hsame. lia.
Qed.

(** ** Names *)

(** The length of what two strings have in common at their start. *)
Lemma wp_same_string {S} l r (Q : bool -> S -> Prop) (s : S) :
  zlen (cstring l) < zlen l -> zlen (cstring r) < zlen r ->
  Q (bool_decide (cstring l = cstring r)) s -> wp (same_string (Some l) (Some r)) Q s.
Proof.
  intros Hl Hr HQ. apply wp_bind. apply wp_while with
    (Inv := fun i s1 => s1 = s /\ exists p a b, cstring l = p ++ a /\ cstring r = p ++ b /\ zlen p = i)
    (variant := fun i _ => zlen (cstring l) - i).
  - split; [done|]. by exists [], (cstring l), (cstring r).
  - pose proof (zlen_nonneg (cstring l)). unfold zlen in *. lia.
  - intros i s1 (-> & p & a & b & Ha & Hb & Hp) _. wp_steps.
    eapply wp_char_at; [exact Ha | exact Hp | by right|]. wp_steps.
    assert (Hstop : (next_char a = NUL \/ next_char a <> next_char b) ->
      wp (l0 ← char_at (Some l) i; r0 ← char_at (Some r) i; mret (l0 =? r0)) Q s).
    { intros Hend. wp_steps. eapply wp_char_at; [exact Ha | exact Hp | by right|]. wp_steps.
      eapply wp_char_at; [exact Hb | exact Hp | by right|]. wp_steps.
      replace (next_char a =? next_char b) with (bool_decide (cstring l = cstring r)); [done|].
      rewrite Ha, Hb. destruct a as [|x a], b as [|y b]; cbn [next_char] in *.
      - by rewrite bool_decide_eq_true_2.
      - pose proof (cstring_not_nul _ _ _ _ Hb). rewrite bool_decide_eq_false_2; [|by intros E%app_inv_head].
        symmetry. by apply Z.eqb_neq.
      - pose proof (cstring_not_nul _ _ _ _ Ha). rewrite bool_decide_eq_false_2; [|by intros E%app_inv_head].
        symmetry. by apply Z.eqb_neq.
      - pose proof (cstring_not_nul _ _ _ _ Ha). destruct Hend as [|Hend]; [done|].
        rewrite bool_decide_eq_false_2; [symmetry; by apply Z.eqb_neq|]. intros E%app_inv_head. congruence. }
    destruct (Z.eqb_spec (next_char a) NUL) as [E|E]; cbn [negb].
    { apply wp_ret, Hstop. by left. }
    wp_steps. eapply wp_char_at; [exact Hb | exact Hp | by right|]. apply wp_ret.
    destruct (Z.eqb_spec (next_char a) (next_char b)) as [E'|E']; [|apply Hstop; by right].
    wp_steps. destruct a as [|x a]; [done|]. destruct b as [|y b]; cbn [next_char] in *; [done|]. subst y.
    rewrite Ha. autorewrite with arrays. pose proof (zlen_nonneg a). split; [|lia]. split; [done|].
    exists (p ++ [x]), a, b. rewrite <- !app_assoc, Hb. autorewrite with arrays. split; [done|]. split; [done | lia].
Qed.

(** ** Opening a module *)

(** The modules that are named by a path. *)
Definition named (path : list char) (m : module_info) : Prop :=
  cstring (FixedString.m_data (module_command_line m)) = cstring path.

#[export] Instance named_dec path m : Decision (named path m).
Proof. unfold named. apply _. Defined.

Section Opening.
Context `{layout_ok} (boot : info).

Definition module_length (m : module_info) : Z := range_length (module_range m).

(** The content of the file for a module. *)
Definition module_content (mem : memory) (window length : Z) : list Z :=
  (fun i => byte_at mem (window + i)) <$> seqZ 0 length.

Lemma zlen_content mem window length : 0 <= length -> zlen (module_content mem window length) = length.
Proof. intros Hn. unfold zlen, module_content. rewrite length_fmap, length_seqZ. lia. Qed.

Lemma holds_content mem window length :
  0 <= length -> mapped mem window (window + length) -> holds mem window (module_content mem window length).
Proof.
  intros Hn Hm. split; rewrite zlen_content by done; [done|]. intros i Hi. symmetry.
  unfold znth, module_content. apply list_lookup_total_correct. rewrite list_lookup_fmap, lookup_seqZ_lt by lia.
  cbn. do 3 f_equal. lia.
Qed.

(** The loader's modules are in the memory that the direct map reaches, and named by C strings. *)
Record modules_ok (m : memory) : Prop := {
  modules_wf : InplaceVectorFacts.wf MAX_BOOT_MODULES (modules boot);
  modules_named x : x ∈ InplaceVector.elements (modules boot) ->
    FixedStringFacts.wf MAX_BOOT_MODULE_COMMAND_LINE (module_command_line x);
  modules_mapped x window : x ∈ InplaceVector.elements (modules boot) ->
    phy_to_vrt (range_base (module_range x)) = Some window ->
    0 <= module_length x < 2 ^ 63 /\ mapped m window (window + module_length x);
}.

(** The lowest descriptor that is not open. *)
Definition lowest_free (fs : gmap Z file) : option Z :=
  snd <$> list_find (fun fd => fs !! fd = None) (seqZ FIRST_FILE_DESCRIPTOR (MAX_DESCRIPTORS - FIRST_FILE_DESCRIPTOR)).

(** The module [x] has been opened, or cannot be. *)
Definition opened (x : module_info) (fs : gmap Z file) (s : posix) (r : Z) (s' : posix) : Prop :=
  match phy_to_vrt (range_base (module_range x)) with
  | None => r = -1 /\ s' = set_errno ENOMEM s
  | Some window =>
      match lowest_free fs with
      | None => r = -1 /\ s' = set_errno EMFILE s
      | Some fd => r = fd /\
          s' = set_descriptors (zset (m_descriptors s) fd
            {| is_open := true; base := window; size := module_length x; offset := 0 |}) s /\
          represents s' (<[fd := {| content := module_content (bytes s) window (module_length x);
                                    position := 0 |}]> fs)
      end
  end.

Lemma lowest_free_spec fs r :
  (match r with
   | Some fd => is_file_descriptor fd = true /\ fs !! fd = None /\
       forall k, is_file_descriptor k = true -> k < fd -> fs !! k <> None
   | None => forall k, is_file_descriptor k = true -> fs !! k <> None
   end) -> lowest_free fs = r.
Proof.
  intros Hr. unfold lowest_free, FIRST_FILE_DESCRIPTOR, MAX_DESCRIPTORS.
  destruct r as [fd|].
  - destruct Hr as (Hfd & Hnone & Hlow). apply is_file_range in Hfd.
    assert (list_find (fun fd => fs !! fd = None) (seqZ 3 (8 - 3)) = Some (Z.to_nat (fd - 3), fd)) as ->; [|done].
    apply list_find_Some. split; [rewrite lookup_seqZ_lt by lia; f_equal; lia|]. split; [done|].
    intros j y Hj Hlt. apply lookup_seqZ in Hj as [-> Hj]. apply Hlow; [apply is_file_range; lia | lia].
  - assert (list_find (fun fd => fs !! fd = None) (seqZ 3 (8 - 3)) = None) as ->; [|done].
    apply list_find_None, Forall_forall. intros k Hk%elem_of_seqZ. apply Hr, is_file_range. lia.
Qed.

Lemma wp_first_free window length fs s (Q : option Z -> posix -> Prop) :
  represents s fs ->
  (lowest_free fs = None -> Q None s) ->
  (forall fd, lowest_free fs = Some fd -> is_file_descriptor fd = true ->
    Q (Some fd) (set_descriptors (zset (m_descriptors s) fd
      {| is_open := true; base := window; size := length; offset := 0 |}) s)) ->
  wp (first_free window length) Q s.
Proof.
  intros Hs Hnone Hsome. apply (wp_scan_range
    (fun i s' => s' = s /\ forall k, is_file_descriptor k = true -> k < i -> fs !! k <> None)
    (fun fd s' => lowest_free fs = Some fd /\ is_file_descriptor fd = true /\
       s' = set_descriptors (zset (m_descriptors s) fd
         {| is_open := true; base := window; size := length; offset := 0 |}) s)).
  - split; [done|]. intros k Hk Hlt. apply is_file_range in Hk. unfold FIRST_FILE_DESCRIPTOR in Hlt. lia.
  - unfold FIRST_FILE_DESCRIPTOR, MAX_DESCRIPTORS. intros i s' Hi [-> Hlow].
    assert (Hfd : is_file_descriptor i = true) by (apply is_file_range; lia).
    apply wp_bind, wp_get_descriptor; [apply Hs | unfold MAX_DESCRIPTORS; lia|].
    destruct (fs !! i) as [f|] eqn:E.
    + rewrite (entry_open _ _ _ (table_open _ _ Hs _ _ E)). apply wp_ret. split; [done|].
      intros k Hk Hlt. destruct (Z.eq_dec k i) as [->|]; [congruence | apply Hlow; [done | lia]].
    + rewrite (table_closed _ _ Hs _ Hfd E). apply wp_bind, wp_set_descriptor; [apply Hs | unfold MAX_DESCRIPTORS; lia|].
      apply wp_ret. split; [|done]. by apply lowest_free_spec.
  - intros fd s' (Hlow & Hfd & ->). by apply Hsome.
  - intros s' [-> Hlow]. apply Hnone. apply lowest_free_spec. intros k Hk. apply Hlow; [done|].
    apply is_file_range in Hk. unfold FIRST_FILE_DESCRIPTOR, MAX_DESCRIPTORS. lia.
Qed.


Lemma wp_open_module path x fs s (Q : option Z -> posix -> Prop) :
  represents s fs -> modules_ok (bytes s) -> x ∈ InplaceVector.elements (modules boot) -> zlen (cstring path) < zlen path ->
  (~ named path x -> Q None s) ->
  (named path x -> forall r s', opened x fs s r s' -> Q (Some r) s') ->
  wp (open_module (Some path) x) Q s.
Proof.
  intros Hs Hm Hx Hpath Hno Hyes. pose proof (modules_named _ Hm x Hx) as Hname.
  apply wp_bind, wp_same_string; [done | |].
  { rewrite (wf_cstring MAX_BOOT_MODULE_COMMAND_LINE) by done. destruct Hname as [Hb _]. destruct Hb as [Hlen Hsz _].
    unfold contents. rewrite zlen_take by lia. lia. }
  case_bool_decide as Hn; cbn [negb]; [|apply wp_ret, Hno; by intros Hn'; apply Hn].
  assert (Hnamed : named path x) by (by symmetry). specialize (Hyes Hnamed). unfold opened in Hyes.
  destruct (phy_to_vrt _) as [window|] eqn:Ew.
  2:{ apply wp_bind, wp_fail, wp_ret. by apply Hyes. }
  destruct (modules_mapped _ Hm x window Hx Ew) as [Hlen Hmap].
  apply wp_bind, (wp_first_free _ _ fs); [done | |].
  - intros Hnone. rewrite Hnone in Hyes. apply wp_bind, wp_fail, wp_ret. by apply Hyes.
  - intros fd Hfd Hrange. rewrite Hfd in Hyes. apply wp_ret, Hyes.
    split; [done|]. split; [done|].
    apply represents_entry; cbn [content position is_open Posix.size offset base]; try done.
    + by rewrite zlen_content by lia.
    + rewrite zlen_content by lia. lia.
    + rewrite zlen_content by lia. unfold module_length in *. lia.
    + apply holds_content; [lia | done].
Qed.

Lemma wp_open path flags fs s (Q : Z -> posix -> Prop) :
  represents s fs -> modules_ok (bytes s) -> zlen (cstring path) < zlen path ->
  Z.land flags O_WRONLY = 0 -> Z.land flags O_RDWR = 0 ->
  (forall r s', match snd <$> list_find (named path) (InplaceVector.elements (modules boot)) with
     | None => r = -1 /\ s' = set_errno ENOENT s
     | Some x => opened x fs s r s'
     end -> Q r s') ->
  wp (open boot (Some path) flags) Q s.
Proof.
  intros Hs Hm Hpath H1 H2 HQ. unfold open. rewrite H1, H2. cbn [negb orb Z.eqb].
  destruct (modules_wf _ Hm) as [Hlen Hsize].
  set (l := InplaceVector.elements (modules boot)) in *.
  assert (Hl : zlen l = InplaceVector.m_size (modules boot)) by (unfold l, InplaceVector.elements; rewrite zlen_take; lia).
  assert (Hat : forall i, 0 <= i < zlen l -> l !! Z.to_nat i = Some (znth (InplaceVector.m_items (modules boot)) i)).
  { intros i Hi. unfold l, InplaceVector.elements. rewrite lookup_take_lt by lia. unfold znth.
    apply list_lookup_lookup_total_lt. unfold zlen in *. lia. }
  apply wp_bind, (wp_scan_range
    (fun i s' => s' = s /\ forall k x, (k < Z.to_nat i)%nat -> l !! k = Some x -> ~ named path x)
    (fun r s' => exists x, snd <$> list_find (named path) l = Some x /\ opened x fs s r s')).
  - split; [done|]. intros k x Hk. lia.
  - intros i s' Hi [-> Hbefore]. apply wp_bind, wp_observe. apply wp_zoom, wp_array_get; [lia|].
    rewrite <- Hl in Hi. pose proof (Hat i Hi) as Hx.
    eapply wp_open_module; [done | done | by eapply list_elem_of_lookup_2 | done | |].
    + intros Hn. split; [done|]. intros k x Hk Hkx.
      destruct (decide (k = Z.to_nat i)) as [->|]; [congruence|]. eapply Hbefore; [|exact Hkx]. lia.
    + intros Hn r s1 Hr. eexists. split; [|exact Hr].
      rewrite (proj2 (list_find_Some (named path) l (Z.to_nat i) (znth (InplaceVector.m_items (modules boot)) i)));
        [done|]. split; [exact Hx|]. split; [exact Hn|]. intros j y Hj Hlt. by eapply Hbefore.
  - intros r s' (x & Hx & Hr). apply wp_ret, HQ. by rewrite Hx.
  - intros s' [-> Hbefore]. apply wp_fail, HQ.
    rewrite (proj2 (list_find_None (named path) l)); [done|]. apply Forall_lookup. intros k x Hk.
    eapply Hbefore; [|exact Hk]. apply lookup_lt_Some in Hk. unfold zlen in *. lia.
Qed.
End Opening.

(** ** Reading *)

Lemma i64_small x : 0 <= x < 2 ^ 63 -> i64 x = x.
Proof. intros Hx. unfold i64, u64. rewrite wrap_small by (unfold in_width; lia). by destruct (Z.ltb_spec x (2 ^ 63)); [|lia]. Qed.

Lemma not_console fd : is_file_descriptor fd = true -> is_console fd = false.
Proof. rewrite is_file_range. unfold is_console, STDERR_FILENO. lia. Qed.

(** How much a read of [count] bytes gets. *)
Definition available (f : file) (count : Z) : Z := Z.min count (zlen (content f) - position f).

Lemma wp_read_file fs fd f buffer count (Q : Z -> posix -> Prop) s :
  represents s fs -> fs !! fd = Some f -> in_width 64 count ->
  let n := available f count in
  mapped (bytes s) buffer (buffer + n) -> clear_of s fs buffer (buffer + n) ->
  (forall s', represents s' (<[fd := move_to (position f + n) f]> fs) ->
    errno s' = errno s -> output s' = output s ->
    same (bytes s') (write_range (bytes s) buffer n (fun i => znth (content f) (position f + i))) ->
    (forall k, base (znth (m_descriptors s') k) = base (znth (m_descriptors s) k)) -> Q n s') ->
  wp (read fd buffer count) Q s.
Proof.
  cbn zeta. intros Hs Hf [Hc0 Hc] Hmap Hclear HQ. pose proof (table_open _ _ Hs _ _ Hf) as He.
  destruct He as [Hr Hopen Hsize Hoff Hpos Hbound [Hcm Hcb]]. pose proof (proj1 (is_file_range fd) Hr).
  set (n := available f count) in *. assert (Hn : 0 <= n <= zlen (content f) - position f) by (unfold n, available; lia).
  unfold read. rewrite not_console by done. apply wp_bind, (wp_file_descriptor fs); [done | congruence |].
  intros f' Hf' _. apply wp_bind, wp_get_descriptor; [apply Hs | unfold MAX_DESCRIPTORS; lia|].
  set (d := znth (m_descriptors s) fd) in *.
  assert (Hrem : u64 (Posix.size d - offset d) = zlen (content f) - position f).
  { rewrite Hsize, Hoff. apply wrap_small. unfold in_width. lia. }
  rewrite Hrem. replace (if count <? _ then _ else _) with n
    by (unfold n, available; destruct (Z.ltb_spec count (zlen (content f) - position f)); lia).
  apply wp_bind, wp_zoom. apply wp_copy_up; [lia | done | | |].
  { intros a Ha. apply Hcm. lia. }
  { specialize (Hclear fd f Hf). cbn in Hclear. fold d in Hclear. lia. }
  intros m Hm.
  assert (Hm' : same m (write_range (bytes s) buffer n (fun i => znth (content f) (position f + i)))).
  { intros a. rewrite Hm. unfold moved, write_range. destruct ((buffer <=? a) && _) eqn:E; [|done].
    apply andb_true_iff in E as [E1 E2]. apply Z.leb_le in E1. apply Z.ltb_lt in E2.
    rewrite Hoff, <- Hcb by lia. do 2 f_equal. lia. }
  apply wp_bind, wp_set_descriptor; [apply Hs | unfold MAX_DESCRIPTORS; lia|]. apply wp_ret.
  rewrite i64_small by lia. apply HQ; [| done | done | exact Hm' |].
  - unfold u64. rewrite wrap_small by (rewrite Hoff; unfold in_width; lia). change (m_descriptors s) with (m_descriptors (set_bytes m s)).
    assert (Hs' : represents (set_bytes m s) fs).
    { apply (represents_write s fs m buffer (buffer + n)); [done | done | |].
      - intros a Ha. rewrite Hm'. unfold write_range. destruct (_ && _); [by eexists | done].
      - intros a Ha. unfold byte_at. rewrite Hm'. unfold write_range. destruct ((buffer <=? a) && _) eqn:E; [lia | done]. }
    apply represents_entry; cbn [move_to content position is_open Posix.size offset base]; try done; try lia.
    exact (entry_content _ _ _ (table_open _ _ Hs' _ _ Hf)).
  - intros k. cbn. destruct (Z.eq_dec (Z.max 0 k) fd) as [E|E].
    + assert (k = fd) as -> by lia. rewrite znth_zset_eq by (rewrite (table_length _ _ Hs); unfold MAX_DESCRIPTORS; lia). done.
    + f_equal. unfold znth, zset. apply list_lookup_total_insert_ne. lia.
Qed.

(** *** A client that reads to the end of a file, in pieces *)
Fixpoint read_rest (fuel : nat) (fd buffer count : Z) : kernel posix (list Z) :=
  match fuel with
  | O => diverge
  | S n =>
      got ← read fd buffer count;
      if got <=? 0 then mret []
      else
        piece ← gets (fun s => (fun i => byte_at (bytes s) (buffer + i)) <$> seqZ 0 got);
        rest ← read_rest n fd buffer count;
        mret (piece ++ rest)
  end.

Lemma clear_of_kept s s' fs fd f p lo hi :
  fs !! fd = Some f -> (forall k, base (znth (m_descriptors s') k) = base (znth (m_descriptors s) k)) ->
  clear_of s fs lo hi -> clear_of s' (<[fd := move_to p f]> fs) lo hi.
Proof.
  intros Hf Hbase Hclear k g Hg. cbn. rewrite Hbase. destruct (decide (k = fd)) as [->|Hne].
  - rewrite lookup_insert_eq in Hg. injection Hg as <-. exact (Hclear fd f Hf).
  - rewrite lookup_insert_ne in Hg by done. exact (Hclear k g Hg).
Qed.

Lemma clear_of_shrink s fs lo hi lo' hi' : lo <= lo' -> hi' <= hi -> clear_of s fs lo hi -> clear_of s fs lo' hi'.
Proof. intros Hlo Hhi Hc fd f Hf. specialize (Hc fd f Hf). cbn in *. lia. Qed.

Lemma wp_read_rest fuel fs fd f buffer count (Q : list Z -> posix -> Prop) s :
  represents s fs -> fs !! fd = Some f -> 0 < count < 2 ^ 64 -> mapped (bytes s) buffer (buffer + count) ->
  clear_of s fs buffer (buffer + count) -> zlen (content f) - position f < Z.of_nat fuel ->
  Forall (fun b => 0 <= b < 256) (content f) ->
  (forall s', represents s' (<[fd := move_to (zlen (content f)) f]> fs) -> Q (drop (Z.to_nat (position f)) (content f)) s') ->
  wp (read_rest fuel fd buffer count) Q s.
Proof.
  revert fs f s Q. induction fuel as [|fuel IH]; intros fs f s Q Hs Hf Hcount Hmap Hclear Hfuel Hbytes HQ.
  { pose proof (entry_position _ _ _ (table_open _ _ Hs _ _ Hf)). lia. }
  pose proof (entry_position _ _ _ (table_open _ _ Hs _ _ Hf)) as Hpos.
  assert (Hn : 0 <= available f count <= count) by (unfold available; lia).
  cbn [read_rest]. apply wp_bind, (wp_read_file fs fd f); [done | done | unfold in_width; lia | | |].
  { intros a Ha. apply Hmap. lia. }
  { eapply clear_of_shrink; [| |exact Hclear]; lia. }
  intros s' Hs' _ _ Hm Hbase. destruct (Z.leb_spec (available f count) 0) as [Hz|Hz].
  - apply wp_ret. assert (Hend : position f = zlen (content f)) by (unfold available in Hz; lia).
    rewrite drop_ge in HQ by (unfold zlen in Hend; lia). apply HQ.
    by replace (position f + available f count) with (zlen (content f)) in Hs' by lia.
  - apply wp_bind, wp_gets, wp_bind. set (n := available f count) in *.
    apply (IH (<[fd := move_to (position f + n) f]> fs) (move_to (position f + n) f)); [done | | done | | | | done |].
    + by rewrite lookup_insert_eq.
    + intros a Ha. rewrite Hm. unfold write_range. destruct (_ && _); [by eexists | by apply Hmap].
    + by eapply clear_of_kept.
    + cbn [move_to content position]. lia.
    + intros s2 Hs2. apply wp_ret. rewrite insert_insert_eq in Hs2. cbn [move_to content position] in *.
      replace (_ ++ _) with (drop (Z.to_nat (position f)) (content f)); [by apply HQ|].
      rewrite <- (take_drop (Z.to_nat n) (drop (Z.to_nat (position f)) (content f))) at 1. rewrite drop_drop.
      f_equal; [|f_equal; lia].
      assert (Hlen : n <= zlen (content f) - position f) by (unfold n, available; lia).
      apply list_eq_same_length with (Z.to_nat n).
      * rewrite length_fmap, length_seqZ. lia.
      * rewrite length_take, length_drop. unfold zlen in *. lia.
      * intros i x y Hi Hx Hy. rewrite lookup_take_lt, lookup_drop in Hx by lia.
        rewrite list_lookup_fmap, lookup_seqZ_lt in Hy by lia. injection Hy as <-.
        unfold byte_at. rewrite Hm. unfold write_range.
        destruct (Z.leb_spec buffer (buffer + (0 + Z.of_nat i))), (Z.ltb_spec (buffer + (0 + Z.of_nat i)) (buffer + n)); try lia.
        cbn [andb default]. unfold znth.
        replace (Z.to_nat (position f + (buffer + (0 + Z.of_nat i) - buffer))) with (Z.to_nat (position f) + i)%nat by lia.
        rewrite (list_lookup_total_correct _ _ _ Hx). symmetry. apply wrap_small.
        pose proof (Forall_lookup_1 _ _ _ _ Hbytes Hx). unfold in_width, id. cbn beta in *. lia.
Qed.

(** ** Writing *)

(** What a call has printed; everything else is as before. *)
Record prints (s s' : posix) (out : list char) : Prop := {
  prints_output : passes (output s) (output s') out;
  prints_rest : s' = set_output (output s') s;
}.

Lemma prints_nil s : prints s s [].
Proof. split; [apply passes_nil | by destruct s]. Qed.

Lemma prints_app s s1 s2 a b : prints s s1 a -> prints s1 s2 b -> prints s s2 (a ++ b).
Proof.
  intros [H1 E1] [H2 E2]. split; [by eapply passes_app|]. rewrite E2 at 1. rewrite E1 at 1. done.
Qed.

Lemma prefix_at_mapped m n a : mapped m a (a + Z.of_nat n) -> prefix_at m n a = characters m n a.
Proof.
  revert a. induction n as [|n IH]; intros a Hm; [done|]. cbn [prefix_at characters].
  destruct (Hm a ltac:(lia)) as [b Hb]. rewrite Hb, IH by (intros x Hx; apply Hm; lia). f_equal.
  unfold peek. cbn [word]. rewrite Hb. cbn. by rewrite Z.mul_0_r, Z.add_0_r.
Qed.

(** The text of a buffer: printing a null pointer prints a text for it, whatever the length. *)
Definition buffer_text (m : memory) (buffer count : Z) : list char :=
  if buffer =? 0 then chars "<null>" else characters m (Z.to_nat count) buffer.

Definition is_output (fd : Z) : bool := (fd =? STDOUT_FILENO) || (fd =? STDERR_FILENO).

Lemma wp_write fd buffer count (Q : Z -> posix -> Prop) s :
  is_output fd = true -> 0 <= count -> (buffer <> 0 -> mapped (bytes s) buffer (buffer + count)) ->
  (forall s', prints s s' (buffer_text (bytes s) buffer count) -> Q (i64 count) s') ->
  wp (write fd buffer count) Q s.
Proof.
  intros Hfd Hc Hm HQ. unfold write, is_output in *.
  replace (negb (fd =? STDOUT_FILENO) && negb (fd =? STDERR_FILENO)) with false
    by (rewrite <- negb_orb; by rewrite Hfd).
  apply wp_bind, wp_zoom, wp_gets. replace (set_bytes (bytes s) s) with s by by destruct s.
  assert (Hout : outputs (emit_bytes (if buffer =? 0 then None else Some (prefix_at (bytes s) (Z.to_nat count) buffer)) count)
    (buffer_text (bytes s) buffer count)).
  { unfold buffer_text. destruct (Z.eqb_spec buffer 0) as [E|E].
    - apply (outputs_c_string (chars "<null>")). split; [by repeat constructor | by vm_compute].
    - rewrite prefix_at_mapped by (rewrite Z2Nat.id by lia; by apply Hm).
      pose proof (zlen_characters (bytes s) (Z.to_nat count) buffer) as Hl. rewrite Z2Nat.id in Hl by lia.
      rewrite <- (take_zlen (characters _ _ _)) at 2. rewrite Hl. apply outputs_bytes. lia. }
  apply wp_bind, wp_zoom. eapply wp_mono; [apply Hout|]. intros [] c Hpass. apply wp_ret, HQ. by split.
Qed.

(** *** Vectors *)

(** [count] vectors in memory, each an address and a length. *)
Record vectors_at (m : memory) (a : Z) (vs : list (Z * Z)) : Prop := {
  vectors_mapped : mapped m a (a + 16 * zlen vs);
  vectors_base i : 0 <= i < zlen vs -> peek m 8 (a + 16 * i) = fst (znth vs i);
  vectors_len i : 0 <= i < zlen vs -> peek m 8 (a + 16 * i + 8) = snd (znth vs i);
}.

(** The error of a list of vectors, after vectors of a total length. *)
Fixpoint iov_error (vs : list (Z * Z)) (total : Z) : option Z :=
  match vs with
  | [] => None
  | (b, n) :: rest =>
      if (b =? 0) && negb (n =? 0) then Some EFAULT
      else if SSIZE_MAX_VALUE - total <? n then Some EINVAL
      else iov_error rest (total + n)
  end.

Definition total_length (vs : list (Z * Z)) : Z := foldr (fun v t => snd v + t) 0 vs.

Lemma total_app a b : total_length (a ++ b) = total_length a + total_length b.
Proof.
  induction a as [|v a IH]; [done|].
  change (snd v + total_length (a ++ b) = snd v + total_length a + total_length b). lia.
Qed.

Lemma wp_load_field (m : memory) n a (Q : Z -> posix -> Prop) s :
  m = bytes s -> mapped m a (a + Z.of_nat n) -> Q (peek m n a) s -> wp (on_memory (load_word n a)) Q s.
Proof.
  intros -> Hm HQ. apply wp_zoom. unfold load_word, wp. rewrite (fetch_mapped _ a (a + Z.of_nat n)) by (done || lia).
  by destruct s.
Qed.

Lemma wp_iov_base vs vectors i (Q : Z -> posix -> Prop) s :
  vectors_at (bytes s) vectors vs -> 0 <= i < zlen vs -> Q (fst (znth vs i)) s -> wp (iov_base vectors i) Q s.
Proof.
  intros Hv Hi HQ. eapply wp_load_field; [done | | by rewrite (vectors_base _ _ _ Hv)].
  intros a Ha. apply (vectors_mapped _ _ _ Hv). lia.
Qed.

Lemma wp_iov_len vs vectors i (Q : Z -> posix -> Prop) s :
  vectors_at (bytes s) vectors vs -> 0 <= i < zlen vs -> Q (snd (znth vs i)) s -> wp (iov_len vectors i) Q s.
Proof.
  intros Hv Hi HQ. eapply wp_load_field; [done | | by rewrite (vectors_len _ _ _ Hv)].
  intros a Ha. apply (vectors_mapped _ _ _ Hv). lia.
Qed.

(** A loop with an index that may return early. *)
Lemma wp_try_seq {S B E} (Inv : Z -> B -> S -> Prop) n (body : Z -> B -> kernel S (Result B E)) b
    (Q : Result B E -> S -> Prop) s :
  0 <= n -> Inv 0 b s ->
  (forall i b' s', 0 <= i < n -> Inv i b' s' ->
    wp (body i b') (fun r s'' => match r with Ok b'' => Inv (i + 1) b'' s'' | Err e => Q (Err e) s'' end) s') ->
  (forall b' s', Inv n b' s' -> Q (Ok b') s') ->
  wp (try_fold (seqZ 0 n) body b) Q s.
Proof.
  intros Hn H0 Hbody HQ. apply (wp_try_fold (fun done_ b' s' => Inv (zlen done_) b' s')).
  - exact H0.
  - intros done_ x rest b' s' Hl Hinv.
    assert (Hx : seqZ 0 n !! length done_ = Some x) by (rewrite Hl; by apply list_lookup_middle).
    apply lookup_seqZ in Hx as [-> Hx]. rewrite Z.add_0_l.
    eapply wp_mono; [apply Hbody; [lia | exact Hinv]|]. intros [b''|e] s'' Hr; [|done].
    by rewrite zlen_app.
  - intros b' s' Hinv. apply HQ. by replace n with (zlen (seqZ 0 n)) by (unfold zlen; rewrite length_seqZ; lia).
Qed.

Lemma drop_znth {A} `{Inhabited A} (l : list A) i :
  0 <= i < zlen l -> drop (Z.to_nat i) l = znth l i :: drop (Z.to_nat (i + 1)) l.
Proof.
  intros Hi. replace (Z.to_nat (i + 1)) with (Datatypes.S (Z.to_nat i)) by lia. apply drop_S.
  unfold znth. apply list_lookup_lookup_total_lt. unfold zlen in Hi. lia.
Qed.

Lemma firstn_znth {A} `{Inhabited A} (l : list A) i :
  0 <= i < zlen l -> firstn (Z.to_nat (i + 1)) l = firstn (Z.to_nat i) l ++ [znth l i].
Proof.
  intros Hi. replace (Z.to_nat (i + 1)) with (Datatypes.S (Z.to_nat i)) by lia. apply take_S_r.
  unfold znth. apply list_lookup_lookup_total_lt. unfold zlen in Hi. lia.
Qed.

Lemma total_nonneg vs : Forall (fun v : Z * Z => 0 <= snd v) vs -> 0 <= total_length vs.
Proof. induction 1 as [|v vs Hv _ IH]; [done|]. change (0 <= snd v + total_length vs). lia. Qed.

Lemma wp_validate vs vectors (Q : bool -> posix -> Prop) s :
  vectors_at (bytes s) vectors vs -> Forall (fun v => in_width 64 (snd v)) vs ->
  zlen vs <= IOV_MAX -> (vectors = 0 -> vs = []) ->
  (match iov_error vs 0 with
   | Some e => Q false (set_errno e s)
   | None => total_length vs <= SSIZE_MAX_VALUE -> Q true s
   end) ->
  wp (validate_iovecs vectors (zlen vs)) Q s.
Proof.
  intros Hv Hw Hmax Hnull HQ. unfold validate_iovecs. pose proof (zlen_nonneg vs).
  replace (_ || _ || _) with false.
  2:{ destruct (Z.ltb_spec (zlen vs) 0), (Z.ltb_spec IOV_MAX (zlen vs)); try lia. cbn [orb].
      destruct (Z.eqb_spec vectors 0) as [E|]; [|done]. by rewrite (Hnull E). }
  change SSIZE_MAX_VALUE with (2 ^ 63 - 1) in *.
  apply wp_bind. apply (wp_try_seq (fun i total s' => s' = s /\ total = total_length (firstn (Z.to_nat i) vs) /\
    0 <= total <= 2 ^ 63 - 1 /\ iov_error vs 0 = iov_error (drop (Z.to_nat i) vs) total)); [lia | done | |].
  - intros i total s' Hi (-> & Ht & Hb & He). apply wp_bind, (wp_iov_base vs); [done | done|].
    apply wp_bind, (wp_iov_len vs); [done | done|]. rewrite drop_znth in He by done.
    assert (Hwi : in_width 64 (snd (znth vs i))).
    { rewrite Forall_forall in Hw. apply Hw. unfold znth. apply list_elem_of_lookup_total_2. unfold zlen in Hi. lia. }
    pose proof (firstn_znth vs i Hi) as Htake.
    destruct (znth vs i) as [b n]. cbn [fst snd iov_error] in *. change SSIZE_MAX_VALUE with (2 ^ 63 - 1) in *.
    destruct ((b =? 0) && negb (n =? 0)) eqn:E1.
    { apply wp_bind, wp_modify, wp_ret, wp_ret. by rewrite He in HQ. }
    assert (Hroom : u64 (2 ^ 63 - 1 - total) = 2 ^ 63 - 1 - total)
      by (apply wrap_small; unfold in_width; lia).
    rewrite Hroom. destruct (Z.ltb_spec (2 ^ 63 - 1 - total) n).
    { apply wp_bind, wp_modify, wp_ret, wp_ret. by rewrite He in HQ. }
    apply wp_ret. unfold in_width in Hwi. unfold u64. rewrite wrap_small by (unfold in_width; lia).
    split; [done|]. rewrite Htake, total_app. cbn. split; [lia|]. split; [lia | done].
  - intros total s' (-> & Ht & Hb & He). apply wp_ret. rewrite drop_ge in He by (unfold zlen; lia).
    cbn in He. rewrite He in HQ. apply HQ. rewrite take_ge in Ht by (unfold zlen; lia). lia.
Qed.

(** The text of all vectors, in their order. *)
Definition vectors_text (m : memory) (vs : list (Z * Z)) : list char :=
  concat ((fun v => buffer_text m (fst v) (snd v)) <$> vs).

Lemma wp_transfer_write fd vs vectors (Q : Z -> posix -> Prop) s :
  vectors_at (bytes s) vectors vs -> is_output fd = true ->
  Forall (fun v => 0 <= snd v /\ (fst v <> 0 -> mapped (bytes s) (fst v) (fst v + snd v))) vs ->
  total_length vs <= SSIZE_MAX_VALUE ->
  (forall s', prints s s' (vectors_text (bytes s) vs) -> Q (total_length vs) s') ->
  wp (transfer_each write fd vectors (zlen vs)) Q s.
Proof.
  intros Hv Hfd Hbuf Htotal HQ. pose proof (zlen_nonneg vs). change SSIZE_MAX_VALUE with (2 ^ 63 - 1) in *.
  assert (Hlens : Forall (fun v : Z * Z => 0 <= snd v) vs) by (eapply Forall_impl; [exact Hbuf | by intros v [? _]]).
  apply wp_bind. apply (wp_try_seq (fun i total s' => prints s s' (vectors_text (bytes s) (firstn (Z.to_nat i) vs)) /\
    total = total_length (firstn (Z.to_nat i) vs))); [lia | split; [apply prints_nil | done] | |].
  - intros i total s' Hi (Hp & Ht). assert (Hb : bytes s' = bytes s) by (by rewrite (prints_rest _ _ _ Hp)).
    assert (Hi' : (Z.to_nat i < length vs)%nat) by (unfold zlen in Hi; lia).
    assert (Hin : znth vs i ∈ vs) by (unfold znth; by apply list_elem_of_lookup_total_2).
    rewrite Forall_forall in Hbuf. destruct (Hbuf _ Hin) as [Hn Hm].
    assert (Hsplit : total_length vs = total + snd (znth vs i) + total_length (drop (Z.to_nat (i + 1)) vs)).
    { rewrite <- (firstn_skipn (Z.to_nat (i + 1)) vs) at 1. rewrite total_app, firstn_znth, total_app by done.
      cbn [total_length foldr]. lia. }
    pose proof (total_nonneg _ (Forall_drop _ (Z.to_nat (i + 1)) _ Hlens)).
    assert (0 <= total) by (rewrite Ht; by apply total_nonneg, Forall_take).
    apply wp_bind, (wp_iov_base vs); [by rewrite Hb | done|]. apply wp_bind, (wp_iov_len vs); [by rewrite Hb | done|].
    apply wp_bind, wp_write; [done | done | by rewrite Hb|]. intros s1 Hs1. rewrite i64_small by lia.
    assert (Hb1 : bytes s1 = bytes s) by (rewrite (prints_rest _ _ _ Hs1); exact Hb).
    destruct (Z.ltb_spec (snd (znth vs i)) 0); [lia|]. apply wp_bind. unfold signed_add.
    replace (_ && _) with true by lia. apply wp_ret.
    apply wp_bind, (wp_iov_len vs); [by rewrite Hb1 | done|]. apply wp_ret.
    unfold u64. rewrite wrap_small by (unfold in_width; lia). rewrite Z.eqb_refl. cbn [negb]. split.
    + rewrite firstn_znth by done. unfold vectors_text. rewrite fmap_app, concat_app.
      eapply prints_app; [exact Hp|]. rewrite Hb in Hs1. cbn [fmap list_fmap concat]. by rewrite app_nil_r.
    + rewrite firstn_znth, total_app by done. cbn [total_length foldr]. lia.
  - intros total s' (Hp & Ht). apply wp_ret. rewrite firstn_all2 in Hp, Ht by (unfold zlen; lia). subst. by apply HQ.
Qed.

(** ** Positions *)

(** Where [lseek] goes, before the bounds are checked. *)
Definition seek_target (f : file) (off whence : Z) : option Z :=
  if whence =? SEEK_CUR then Some (off + position f)
  else if whence =? SEEK_END then Some (off + zlen (content f))
  else if whence =? SEEK_SET then Some off
  else None.

Lemma wp_seek fs fd f off whence s (Q : Z -> posix -> Prop) :
  represents s fs -> fs !! fd = Some f ->
  (match seek_target f off whence with
   | None => Q (-1) (set_errno EINVAL s)
   | Some target =>
       - 2 ^ 63 <= target < 2 ^ 63 /\
       if (0 <=? target) && (target <=? zlen (content f))
       then forall s', represents s' (<[fd := move_to target f]> fs) -> bytes s' = bytes s -> output s' = output s ->
         errno s' = errno s -> Q target s'
       else Q (-1) (set_errno EINVAL s)
   end) ->
  wp (lseek fd off whence) Q s.
Proof.
  intros Hs Hf HQ. pose proof (table_open _ _ Hs _ _ Hf) as [Hr Hopen Hsize Hoff Hpos Hbound Hc].
  pose proof (proj1 (is_file_range fd) Hr).
  apply wp_bind, (wp_file_descriptor fs); [done | congruence |]. intros _ _ _.
  apply wp_bind, wp_get_descriptor; [apply Hs | unfold MAX_DESCRIPTORS; lia|].
  set (d := znth (m_descriptors s) fd) in *.
  set (seek := fun target => if (target <? 0) || (Posix.size d <? u64 target) then fail EINVAL
     else set_descriptor fd {| is_open := is_open d; base := base d; size := Posix.size d; offset := u64 target |};;
       mret target).
  assert (Hseek : forall target, - 2 ^ 63 <= target < 2 ^ 63 ->
    (if (0 <=? target) && (target <=? zlen (content f))
       then forall s', represents s' (<[fd := move_to target f]> fs) -> bytes s' = bytes s -> output s' = output s ->
         errno s' = errno s -> Q target s'
       else Q (-1) (set_errno EINVAL s)) -> wp (seek target) Q s).
  { intros target Ht HQt. unfold seek. rewrite Hsize. destruct (Z.leb_spec 0 target); cbn [andb] in HQt.
    - destruct (Z.ltb_spec target 0); [lia|]. cbn [orb]. unfold u64. rewrite wrap_small by (unfold in_width; lia).
      destruct (Z.leb_spec target (zlen (content f))), (Z.ltb_spec (zlen (content f)) target); try lia.
      + apply wp_bind, wp_set_descriptor; [apply Hs | unfold MAX_DESCRIPTORS; lia|].
        apply wp_ret, HQt; [|done..]. apply represents_entry; cbn [move_to content position is_open Posix.size offset base]; done || lia.
      + by apply wp_fail.
    - destruct (Z.ltb_spec target 0); [|lia]. by apply wp_fail. }
  assert (Hadd : forall x, 0 <= x < 2 ^ 63 -> - 2 ^ 63 <= off + x < 2 ^ 63 ->
    (if (0 <=? off + x) && (off + x <=? zlen (content f))
       then forall s', represents s' (<[fd := move_to (off + x) f]> fs) -> bytes s' = bytes s -> output s' = output s ->
         errno s' = errno s -> Q (off + x) s'
       else Q (-1) (set_errno EINVAL s)) -> wp (target ← signed_add off (i64 x); seek target) Q s).
  { intros x Hx Hsum HQx. rewrite i64_small by done. unfold signed_add. replace (_ && _) with true by lia.
    apply wp_bind, wp_ret. by apply Hseek. }
  unfold seek_target in HQ. fold seek. rewrite Hoff, Hsize.
  destruct (whence =? SEEK_CUR); [destruct HQ; apply Hadd; done || lia|].
  destruct (whence =? SEEK_END); [destruct HQ; apply Hadd; done || lia|].
  destruct (whence =? SEEK_SET); cbn [negb]; [destruct HQ; by apply Hseek | by apply wp_fail].
Qed.

(** ** Partial correctness

    [wlp m Q s]: if [m] returns from [s], then its result and final state satisfy [Q].  What holds of every call that
    returns, whatever its arguments point to. *)
Definition wlp {S A} (m : kernel S A) (Q : A -> S -> Prop) (s : S) : Prop :=
  forall a s', m s = Ret (a, s') -> Q a s'.

Section Partial.
Context {S : Type}.

Lemma wlp_ret {A} (a : A) (Q : A -> S -> Prop) s : Q a s -> wlp (mret a) Q s.
Proof. by intros HQ a' s' [= <- <-]. Qed.

Lemma wlp_bind {A B} (m : kernel S A) (f : A -> kernel S B) Q s :
  wlp m (fun a s' => wlp (f a) Q s') s -> wlp (m ≫= f) Q s.
Proof.
  intros Hm b s' Hb. unfold mbind, kernel_bind in Hb. destruct (m s) as [[a s1]| | |] eqn:E; try done.
  by eapply Hm.
Qed.

Lemma wlp_mono {A} (m : kernel S A) (P Q : A -> S -> Prop) s :
  wlp m P s -> (forall a s', P a s' -> Q a s') -> wlp m Q s.
Proof. intros Hm HPQ a s' E. by apply HPQ, Hm. Qed.

Lemma wlp_zoom {T A} (get : S -> T) (set : T -> S -> S) (m : kernel T A) (Q : A -> S -> Prop) s :
  (forall a t, m (get s) = Ret (a, t) -> Q a (set t s)) -> wlp (zoom get set m) Q s.
Proof.
  intros HQ a s' E. unfold zoom in E. destruct (m (get s)) as [[b t]| | |] eqn:Em; try done.
  injection E as -> <-. by apply HQ.
Qed.

Lemma wlp_try_fold {A B E} (I : S -> Prop) (l : list A) (body : A -> B -> kernel S (Result B E)) b s :
  I s -> (forall x b' s', x ∈ l -> I s' -> wlp (body x b') (fun _ => I) s') ->
  wlp (try_fold l body b) (fun _ => I) s.
Proof.
  revert b s. induction l as [|x l IH]; intros b s Hs Hbody; cbn [try_fold]; [by apply wlp_ret|].
  apply wlp_bind. eapply wlp_mono; [apply Hbody; [by left | done]|]. intros [b'|e] s' Hs'; [|by apply wlp_ret].
  apply IH; [done|]. intros y b'' s'' Hy. apply Hbody. by right.
Qed.

Lemma wlp_while {A} (I : S -> Prop) fuel (cond : A -> kernel S bool) (body : A -> kernel S A) a s :
  I s -> (forall a' s', I s' -> wlp (cond a') (fun _ => I) s') ->
  (forall a' s', I s' -> wlp (body a') (fun _ => I) s') -> wlp (while fuel cond body a) (fun _ => I) s.
Proof.
  revert a s. induction fuel as [|n IH]; intros a s Hs Hc Hb; cbn [while]; [by intros ??|].
  apply wlp_bind. eapply wlp_mono; [by apply Hc|]. intros [] s1 Hs1; [|by apply wlp_ret].
  apply wlp_bind. eapply wlp_mono; [by apply Hb|]. intros a' s2 Hs2. by apply IH.
Qed.

Lemma wlp_scan {R} (I : S -> Prop) lo hi (body : Z -> kernel S (option R)) s :
  I s -> (forall i s', lo <= i < hi -> I s' -> wlp (body i) (fun _ => I) s') ->
  wlp (scan_range lo hi body) (fun _ => I) s.
Proof.
  intros Hs Hbody. unfold scan_range.
  assert (Hgen : forall n i s', I s' -> lo <= i -> i + Z.of_nat n <= Z.max lo hi ->
    wlp (scan_count n i body) (fun _ => I) s').
  { induction n as [|n IH]; intros i s' Hs' Hi Hn; cbn [scan_count]; [by apply wlp_ret|].
    apply wlp_bind. eapply wlp_mono; [apply Hbody; [lia | done]|]. intros [v|] s1 Hs1; [by apply wlp_ret|].
    apply IH; [done | lia | lia]. }
  apply Hgen; [done | lia | lia].
Qed.

Lemma wlp_char_at (I : S -> Prop) t i s : I s -> wlp (char_at t i) (fun _ => I) s.
Proof.
  intros Hs a s' E. destruct t as [l|]; [|done]. cbn in E. unfold observe, local, mbind, kernel_bind in E.
  destruct (array_get i l) as [[x l']| | |]; try done. by injection E as <- <-.
Qed.
End Partial.

(** ** The table, whatever is called *)

(** The fields of a module are 64-bit words. *)
Definition module_typed (x : module_info) : Prop :=
  in_width 64 (range_base (module_range x)) /\ in_width 64 (module_length x).

Lemma phy_to_vrt_window `{layout_ok} phys va : 0 <= phys -> phy_to_vrt phys = Some va ->
  0 <= phys < DIRECT_MAP_SIZE /\ va = DIRECT_MAP_BASE + phys.
Proof.
  intros Hp. unfold phy_to_vrt. destruct (Z.ltb_spec phys DIRECT_MAP_SIZE) as [Hlt|]; [|done].
  intros [= <-]. split; [lia|]. pose proof max_memory_range as Hmr. fold DIRECT_MAP_SIZE in Hmr.
  unfold u64. apply wrap_small. unfold in_width, DIRECT_MAP_BASE. lia.
Qed.

Section Kept.
Context `{layout_ok} (boot : info).

(** An entry is for a boot module: all of it, where the direct map shows it. *)
Definition of_module (d : descriptor) : Prop :=
  exists i, 0 <= i < InplaceVector.m_size (modules boot) /\
    let x := znth (InplaceVector.m_items (modules boot)) i in
    0 <= range_base (module_range x) < DIRECT_MAP_SIZE /\
    base d = DIRECT_MAP_BASE + range_base (module_range x) /\ size d = range_length (module_range x).

(** Every open entry is for a module, no position passes the end of its file, and the descriptors of the
    console are never files. *)
Record descriptors_ok (s : posix) : Prop := {
  descriptors_length : zlen (m_descriptors s) = MAX_DESCRIPTORS;
  descriptors_module fd : 0 <= fd < MAX_DESCRIPTORS -> is_open (znth (m_descriptors s) fd) = true ->
    of_module (znth (m_descriptors s) fd);
  descriptors_bounds fd : 0 <= fd < MAX_DESCRIPTORS ->
    0 <= offset (znth (m_descriptors s) fd) <= size (znth (m_descriptors s) fd) /\
    size (znth (m_descriptors s) fd) < 2 ^ 64;
  descriptors_console fd : 0 <= fd < FIRST_FILE_DESCRIPTOR -> is_open (znth (m_descriptors s) fd) = false;
}.

Abbreviation kept := (fun _ : Z => descriptors_ok).

Lemma ok_same s s' : descriptors_ok s -> m_descriptors s' = m_descriptors s -> descriptors_ok s'.
Proof. intros [] E. by split; rewrite E. Qed.

Lemma kept_fail e s : descriptors_ok s -> wlp (fail e) kept s.
Proof. intros Hs a s' [= <- <-]. by eapply ok_same. Qed.

Lemma kept_zoom_memory {A} (m : kernel memory A) s : descriptors_ok s -> wlp (on_memory m) (fun _ => descriptors_ok) s.
Proof. intros Hs. apply wlp_zoom. intros a t _. by eapply ok_same. Qed.

Lemma kept_zoom_console {A} (m : kernel console A) s : descriptors_ok s -> wlp (on_console m) (fun _ => descriptors_ok) s.
Proof. intros Hs. apply wlp_zoom. intros a t _. by eapply ok_same. Qed.

(** An entry that is read is one of the table. *)
Lemma wlp_get_descriptor fd (Q : descriptor -> posix -> Prop) s :
  zlen (m_descriptors s) = MAX_DESCRIPTORS ->
  (0 <= fd < MAX_DESCRIPTORS -> Q (znth (m_descriptors s) fd) s) -> wlp (get_descriptor fd) Q s.
Proof.
  intros Hl HQ. apply wlp_zoom. intros d l E. unfold array_get, in_bounds in E. rewrite Hl in E.
  destruct ((0 <=? fd) && (fd <? MAX_DESCRIPTORS)) eqn:Hfd; [|done]. injection E as <- <-.
  replace (set_descriptors (m_descriptors s) s) with s by by destruct s. apply HQ. lia.
Qed.

Lemma kept_set_descriptor fd d s :
  descriptors_ok s -> FIRST_FILE_DESCRIPTOR <= fd -> (is_open d = true -> of_module d) ->
  0 <= offset d <= size d -> size d < 2 ^ 64 ->
  wlp (set_descriptor fd d) (fun _ => descriptors_ok) s.
Proof.
  intros [Hl Hm Hb Hc] Hfd Hd Ho Hsz. apply wlp_zoom. intros [] l E. unfold array_set, in_bounds in E. rewrite Hl in E.
  destruct ((0 <=? fd) && (fd <? MAX_DESCRIPTORS)) eqn:Hrange; [|done]. injection E as <-.
  unfold FIRST_FILE_DESCRIPTOR in *. split; cbn.
  - by rewrite zlen_zset.
  - intros k Hk. rewrite znth_zset by lia. destruct (fd =? k); [done | by apply Hm].
  - intros k Hk. rewrite znth_zset by lia. destruct (fd =? k); [by split | by apply Hb].
  - unfold FIRST_FILE_DESCRIPTOR. intros k Hk. rewrite znth_zset by lia. destruct (Z.eqb_spec fd k); [lia | by apply Hc; unfold FIRST_FILE_DESCRIPTOR].
Qed.

Lemma wlp_file_descriptor fd (Q : option Z -> posix -> Prop) s :
  zlen (m_descriptors s) = MAX_DESCRIPTORS -> Q None s ->
  (FIRST_FILE_DESCRIPTOR <= fd < MAX_DESCRIPTORS -> Q (Some fd) s) -> wlp (file_descriptor fd) Q s.
Proof.
  intros Hl Hnone Hsome. unfold file_descriptor. destruct ((fd <? _) || _) eqn:E; [by apply wlp_ret|].
  apply wlp_bind, wlp_get_descriptor; [done|]. intros _. apply wlp_ret. destruct (is_open _); [apply Hsome; lia | done].
Qed.

(** *** Each call *)
Lemma kept_write fd buffer count s : descriptors_ok s -> wlp (write fd buffer count) kept s.
Proof.
  intros Hs. unfold write. destruct (_ && _); [by apply kept_fail|].
  apply wlp_bind. eapply wlp_mono; [by apply kept_zoom_memory|]. intros t s1 H1.
  apply wlp_bind. eapply wlp_mono; [by apply kept_zoom_console|]. intros [] s2 H2. by apply wlp_ret.
Qed.

Lemma kept_read fd buffer count s : 0 <= count -> descriptors_ok s -> wlp (read fd buffer count) kept s.
Proof.
  intros Hcount Hs. unfold read. destruct (is_console fd).
  { destruct (fd =? STDIN_FILENO); [by apply wlp_ret | by apply kept_fail]. }
  apply wlp_bind, wlp_file_descriptor; [apply Hs | by apply kept_fail|]. intros Hfd.
  apply wlp_bind, wlp_get_descriptor; [apply Hs|]. intros Hr. destruct (descriptors_bounds _ Hs fd Hr) as [Hb Hsz].
  set (d := znth (m_descriptors s) fd) in *.
  assert (Hrem : u64 (size d - offset d) = size d - offset d) by (apply wrap_small; unfold in_width; lia).
  rewrite Hrem. set (length := if count <? size d - offset d then count else size d - offset d).
  assert (Hlen : 0 <= length <= size d - offset d) by (unfold length; destruct (Z.ltb_spec count (size d - offset d)); lia).
  apply wlp_bind. eapply wlp_mono; [by apply kept_zoom_memory|]. intros [] s1 H1.
  apply wlp_bind. eapply wlp_mono; [apply kept_set_descriptor; cbn; [done | lia | exact (descriptors_module _ Hs fd Hr) | | done]|].
  - unfold u64. rewrite wrap_small by (unfold in_width; lia). lia.
  - intros [] s2 H2. by apply wlp_ret.
Qed.

Lemma kept_field vectors i s :
  descriptors_ok s -> wlp (iov_base vectors i) kept s /\ wlp (iov_len vectors i) (fun n s' => descriptors_ok s' /\ 0 <= n) s.
Proof.
  intros Hs. split; [by apply kept_zoom_memory|]. apply wlp_zoom. intros n m E. split; [by eapply ok_same|].
  unfold load_word, fetch in E. destruct (word _ 8 _) as [v|] eqn:Ew; [|done]. injection E as -> _.
  revert Ew. generalize 8%nat (vectors + 16 * i + 8). intros k. revert n. induction k as [|k IH]; intros n a; cbn [word].
  - by intros [= <-].
  - intros Ew. destruct (bytes s a) as [b|]; [|done]. cbn in Ew. destruct (word _ k _) as [r|] eqn:Er; [|done].
    injection Ew as <-. apply IH in Er. pose proof (wrap_range 8 b ltac:(lia)) as Hb. unfold in_width in Hb. unfold u8. lia.
Qed.

Lemma kept_validate vectors count s : descriptors_ok s -> wlp (validate_iovecs vectors count) (fun _ => descriptors_ok) s.
Proof.
  intros Hs. unfold validate_iovecs.
  assert (Herr : forall e {B} (b : B) s1, descriptors_ok s1 ->
    wlp (modify (set_errno e);; mret b) (fun _ => descriptors_ok) s1).
  { intros e B b s1 H1 a s' [= <- <-]. by eapply ok_same. }
  destruct (_ || _); [by apply Herr|].
  apply wlp_bind. eapply wlp_mono.
  - apply (wlp_try_fold descriptors_ok); [done|]. intros i total s1 _ H1.
    apply wlp_bind. eapply wlp_mono; [by apply kept_field|]. intros b s2 H2.
    apply wlp_bind. eapply wlp_mono; [by apply kept_field|]. intros n s3 [H3 _].
    destruct (_ && _); [by apply Herr|]. destruct (_ <? _); [by apply Herr | by apply wlp_ret].
  - intros r s1 H1. by apply wlp_ret.
Qed.

Lemma kept_transfer transfer fd vectors count s :
  (forall b n s', 0 <= n -> descriptors_ok s' -> wlp (transfer fd b n) kept s') ->
  descriptors_ok s -> wlp (transfer_each transfer fd vectors count) kept s.
Proof.
  intros Ht Hs. apply wlp_bind. eapply wlp_mono.
  - apply (wlp_try_fold descriptors_ok); [done|]. intros i total s1 _ H1.
    apply wlp_bind. eapply wlp_mono; [by apply kept_field|]. intros b s2 H2.
    apply wlp_bind. eapply wlp_mono; [by apply kept_field|]. intros n s3 [H3 Hn].
    apply wlp_bind. eapply wlp_mono; [by apply Ht|]. intros moved s4 H4.
    destruct (moved <? 0); [by apply wlp_ret|]. unfold signed_add. apply wlp_bind.
    destruct (_ && _); [apply wlp_ret | by intros ??].
    apply wlp_bind. eapply wlp_mono; [by apply kept_field|]. intros n' s5 [H5 _]. by apply wlp_ret.
  - intros [v|v] s1 H1; by apply wlp_ret.
Qed.

Lemma kept_lseek fd off whence s : descriptors_ok s -> wlp (lseek fd off whence) kept s.
Proof.
  intros Hs. apply wlp_bind, wlp_file_descriptor; [apply Hs | by apply kept_fail|]. intros Hfd.
  apply wlp_bind, wlp_get_descriptor; [apply Hs|]. intros Hr. destruct (descriptors_bounds _ Hs fd Hr) as [Hb Hsz].
  set (d := znth (m_descriptors s) fd) in *.
  set (seek := fun target => if (target <? 0) || (size d <? u64 target) then fail EINVAL
     else set_descriptor fd {| is_open := is_open d; base := base d; size := size d; offset := u64 target |};;
       mret target).
  assert (Hseek : forall target, wlp (seek target) kept s).
  { intros target. unfold seek. destruct (_ || _) eqn:E; [by apply kept_fail|].
    apply orb_false_iff in E as [_ E]. pose proof (wrap_range 64 target ltac:(lia)) as Hw. unfold in_width in Hw.
    apply wlp_bind. eapply wlp_mono; [apply kept_set_descriptor; cbn;
      [done | lia | exact (descriptors_module _ Hs fd Hr) | unfold u64 in *; lia | done]|].
    intros [] s1 H1. by apply wlp_ret. }
  assert (Hadd : forall x, wlp (target ← signed_add off x; seek target) kept s).
  { intros x. unfold signed_add. apply wlp_bind. destruct (_ && _); [by apply wlp_ret, Hseek | by intros ??]. }
  fold seek. destruct (whence =? SEEK_CUR); [apply Hadd|]. destruct (whence =? SEEK_END); [apply Hadd|].
  destruct (negb _); [by apply kept_fail | apply Hseek].
Qed.

Lemma kept_close fd s : descriptors_ok s -> wlp (close fd) kept s.
Proof.
  intros Hs. apply wlp_bind, wlp_file_descriptor; [apply Hs | by apply kept_fail|]. intros Hfd.
  apply wlp_bind. eapply wlp_mono; [apply kept_set_descriptor; cbn; done || lia|]. intros [] s1 H1. by apply wlp_ret.
Qed.

Lemma kept_fstat fd out s : descriptors_ok s -> wlp (fstat fd out) kept s.
Proof.
  intros Hs. assert (Hput : forall mode n s1, descriptors_ok s1 ->
    wlp (stat_mode out mode;; stat_size out n;; mret 0) kept s1).
  { intros mode n s1 H1. apply wlp_bind. eapply wlp_mono; [by apply kept_zoom_memory|]. intros [] s2 H2.
    apply wlp_bind. eapply wlp_mono; [by apply kept_zoom_memory|]. intros [] s3 H3. by apply wlp_ret. }
  unfold fstat. destruct (out =? 0); [by apply kept_fail|]. destruct (is_console fd); [by apply Hput|].
  apply wlp_bind, wlp_file_descriptor; [apply Hs | by apply kept_fail|]. intros Hfd.
  apply wlp_bind, wlp_get_descriptor; [apply Hs|]. intros _. by apply Hput.
Qed.

Lemma kept_same_string l r s : descriptors_ok s -> wlp (same_string l r) (fun _ => descriptors_ok) s.
Proof.
  intros Hs. apply wlp_bind. eapply wlp_mono; [apply (wlp_while descriptors_ok); [done | |]|].
  - intros j s2 H2. apply wlp_bind. eapply wlp_mono; [by apply (wlp_char_at descriptors_ok)|]. intros c s3 H3.
    destruct (negb _); [|by apply wlp_ret]. apply wlp_bind. eapply wlp_mono; [by apply (wlp_char_at descriptors_ok)|].
    intros c' s4 H4. by apply wlp_ret.
  - intros j s2 H2. by apply wlp_ret.
  - intros n s2 H2. apply wlp_bind. eapply wlp_mono; [by apply (wlp_char_at descriptors_ok)|]. intros c s3 H3.
    apply wlp_bind. eapply wlp_mono; [by apply (wlp_char_at descriptors_ok)|]. intros c' s4 H4. by apply wlp_ret.
Qed.

Lemma kept_open path flags s :
  Forall module_typed (InplaceVector.m_items (modules boot)) ->
  descriptors_ok s -> wlp (open boot path flags) kept s.
Proof.
  intros Hboot Hs. unfold open. destruct (_ || _); [by apply kept_fail|].
  apply wlp_bind. eapply wlp_mono; [apply (wlp_scan descriptors_ok); [done|]|].
  2:{ intros [r|] s1 H1; [by apply wlp_ret | by apply kept_fail]. }
  intros i s1 Hrange H1. apply wlp_bind. intros x s1' E.
  assert (Hx : s1' = s1 /\ x = znth (InplaceVector.m_items (modules boot)) i /\ module_typed x).
  { unfold observe, local, mbind, kernel_bind, InplaceVector.get, zoom in E. unfold array_get in E.
    destruct (in_bounds _ i) eqn:Hi; [|done]. injection E as <- <-. split; [done|]. split; [done|].
    rewrite Forall_forall in Hboot. apply Hboot. unfold znth. apply list_elem_of_lookup_total_2.
    unfold in_bounds, zlen in Hi. lia. }
  destruct Hx as (-> & Hx & [Hb0 Hb1] & [Hx0 Hx1]). apply wlp_bind. eapply wlp_mono.
  - by apply kept_same_string.
  - intros same s2 H2. cbn beta. destruct (negb same); [by apply wlp_ret|]. destruct (phy_to_vrt _) as [window|] eqn:Ew.
    2:{ apply wlp_bind. eapply wlp_mono; [by apply kept_fail|]. intros r s3 H3. by apply wlp_ret. }
    apply wlp_bind. eapply wlp_mono; [apply (wlp_scan descriptors_ok); [done|]|].
    + intros fd s3 Hfd H3. apply wlp_bind, wlp_get_descriptor; [apply H3|]. intros _.
      destruct (is_open _); [by apply wlp_ret|]. apply wlp_bind.
      eapply wlp_mono; [apply kept_set_descriptor; cbn;
        [done | lia | | unfold module_length in *; lia | done]|].
      { intros _. exists i. split; [done|]. cbn zeta. rewrite <- Hx. cbn [base size].
        by destruct (phy_to_vrt_window _ _ Hb0 Ew) as [? ->]. }
      intros [] s4 H4. by apply wlp_ret.
    + intros [fd|] s3 H3; [by apply wlp_ret|]. apply wlp_bind. eapply wlp_mono; [by apply kept_fail|].
      intros r s4 H4. by apply wlp_ret.
Qed.
End Kept.
