(* ===== verification/PosixProperties.v ===== *)
(** * PosixProperties: the theorems about the file calls *)

From stdpp Require Import list_numbers.
From S2P Require Import Prelude Containers Memory Boot Page Pmm Mmu Format Emit FormatFacts Runtime RuntimeFacts Posix PosixFacts.
Import FixedStringFacts InplaceVectorFacts.

(** C31: Opening.  A null path and an access mode other than reading are refused; otherwise the first module whose command
    line is the path is opened under the lowest free descriptor, at its start, with the module's bytes as its
    content.  The errors tell that there is no such module, that it is not within reach, or that all
    descriptors are in use, and then nothing but [errno] changes. *)
Theorem open_correct `{layout_ok} boot path flags fs s :
  represents s fs -> modules_ok boot (bytes s) -> (forall l, path = Some l -> zlen (cstring l) < zlen l) ->
  wp (open boot path flags) (fun r s' =>
    match path with
    | None => r = -1 /\ s' = set_errno EINVAL s
    | Some l =>
        if negb (Z.land flags 3 =? 0) then r = -1 /\ s' = set_errno EINVAL s
        else match snd <$> list_find (named l) (InplaceVector.elements (modules boot)) with
          | None => r = -1 /\ s' = set_errno ENOENT s
          | Some x => opened x fs s r s'
          end
    end) s.
Proof.
  intros Hs Hm Hpath. destruct path as [l|]; [|by apply wp_fail].
  assert (Hbit : forall k, 0 <= k -> Z.land flags (2 ^ k) = if Z.testbit flags k then 2 ^ k else 0).
  { intros k Hk. apply Z.bits_inj'. intros i Hi. rewrite Z.land_spec, Z.pow2_bits_eqb by lia.
    destruct (Z.eqb_spec k i) as [<-|Hne].
    - destruct (Z.testbit flags k); [by rewrite Z.pow2_bits_true | by rewrite Z.bits_0].
    - rewrite andb_false_r. destruct (Z.testbit flags k); [by rewrite Z.pow2_bits_false | by rewrite Z.bits_0]. }
  pose proof (Hbit 0 ltac:(lia)) as H0'. pose proof (Hbit 1 ltac:(lia)) as H1'.
  assert (Hsum : Z.land flags 3 = Z.lor (Z.land flags 1) (Z.land flags 2)).
  { rewrite <- Z.land_lor_distr_r. done. }
  change (2 ^ 0) with 1 in H0'. change (2 ^ 1) with 2 in H1'. rewrite Hsum, H0', H1'.
  destruct (Z.testbit flags 0) eqn:E0, (Z.testbit flags 1) eqn:E1; cbn [Z.lor Pos.lor Z.eqb negb];
    try (unfold open, O_WRONLY, O_RDWR; rewrite H0', H1'; by apply wp_fail).
  eapply wp_open; [exact Hs | exact Hm | by apply Hpath | exact H0' | exact H1' | done].
Qed.

(** C32: Reading.  The console has no input; a descriptor that is not open is an error; and an open file gives the bytes
    from its position on, as many as were asked for and are left, into the buffer and nowhere else, and its position
    moves past them.  No other file changes. *)
Theorem read_correct fs fd buffer count s :
  represents s fs -> in_width 64 count ->
  (forall f, fs !! fd = Some f -> let n := available f count in
    mapped (bytes s) buffer (buffer + n) /\ clear_of s fs buffer (buffer + n)) ->
  wp (read fd buffer count) (fun r s' =>
    match fs !! fd with
    | Some f => let n := available f count in r = n /\
        represents s' (<[fd := move_to (position f + n) f]> fs) /\ errno s' = errno s /\ output s' = output s /\
        same (bytes s') (write_range (bytes s) buffer n (fun i => znth (content f) (position f + i)))
    | None => if fd =? STDIN_FILENO then r = 0 /\ s' = s else r = -1 /\ s' = set_errno EBADF s
    end) s.
Proof.
  intros Hs Hc Hbuf. destruct (fs !! fd) as [f|] eqn:Hf.
  - destruct (Hbuf f eq_refl) as [Hm Hclear]. apply (wp_read_file fs fd f); done.
  - unfold read. destruct (is_console fd) eqn:Econ.
    + destruct (fd =? STDIN_FILENO); [by apply wp_ret | by apply wp_fail].
    + replace (fd =? STDIN_FILENO) with false by (unfold is_console, STDERR_FILENO, STDIN_FILENO in *; lia).
      apply wp_bind, (wp_file_descriptor fs); [done | intros _; by apply wp_fail | congruence].
Qed.

(** C30: The whole way: opening a module, reading it in pieces of any size until nothing is left, and closing it, gives its
    bytes, however they are cut, and leaves the files as they were. *)
Theorem file_roundtrip `{layout_ok} boot path x window fd fs s buffer count fuel :
  represents s fs -> modules_ok boot (bytes s) -> zlen (cstring path) < zlen path ->
  snd <$> list_find (named path) (InplaceVector.elements (modules boot)) = Some x ->
  phy_to_vrt (range_base (module_range x)) = Some window -> lowest_free fs = Some fd ->
  0 < count < 2 ^ 64 -> mapped (bytes s) buffer (buffer + count) -> clear_of s fs buffer (buffer + count) ->
  buffer + count <= window \/ window + module_length x <= buffer -> module_length x < Z.of_nat fuel ->
  wp (fd ← open boot (Some path) 0; data ← read_rest fuel fd buffer count; close fd;; mret data)
    (fun data s' => data = module_content (bytes s) window (module_length x) /\ represents s' fs) s.
Proof.
  intros Hs Hm Hpath Hx Hwin Hfd Hcount Hmap Hclear Hdis Hfuel.
  apply wp_bind. eapply wp_open; [exact Hs | exact Hm | done | done | done|]. intros r s1. rewrite Hx.
  unfold opened. rewrite Hwin, Hfd. intros (-> & -> & Hs1). set (s1 := set_descriptors _ s) in *.
  set (f := {| content := _; position := 0 |}) in *.
  assert (Hin : x ∈ InplaceVector.elements (modules boot)).
  { destruct (list_find (named path) _) as [[k y]|] eqn:E; [|done]. injection Hx as ->.
    apply list_find_Some in E as [E _]. by eapply list_elem_of_lookup_2. }
  destruct (modules_mapped _ _ Hm x window Hin Hwin) as [Hlen _].
  assert (Hf : zlen (content f) = module_length x) by (apply zlen_content; lia).
  assert (Hfree : fs !! fd = None /\ is_file_descriptor fd = true).
  { unfold lowest_free in Hfd. destruct (list_find (fun k => fs !! k = None) _) as [[k y]|] eqn:E; [|done].
    injection Hfd as ->. apply list_find_Some in E as (E & Hnone & _). split; [exact Hnone|].
    apply lookup_seqZ in E. apply is_file_range. unfold FIRST_FILE_DESCRIPTOR, MAX_DESCRIPTORS in *. lia. }
  destruct Hfree as [Hfree Hr].
  assert (Hfdr : 0 <= fd < zlen (m_descriptors s)).
  { rewrite (table_length _ _ Hs). apply is_file_range in Hr. unfold MAX_DESCRIPTORS. lia. }
  apply wp_bind, (wp_read_rest fuel (<[fd := f]> fs) fd f); [done | by rewrite lookup_insert_eq | done | done | | | |].
  - intros k g Hg. cbn. destruct (decide (k = fd)) as [->|Hne].
    + rewrite lookup_insert_eq in Hg. injection Hg as <-. rewrite znth_zset_eq by done. cbn [base]. lia.
    + rewrite lookup_insert_ne in Hg by done. pose proof (entry_range _ _ _ (table_open _ _ Hs _ _ Hg)) as Hk.
      apply is_file_range in Hk. rewrite znth_zset_ne by lia. exact (Hclear k g Hg).
  - cbn [position f]. lia.
  - cbn [content f]. apply Forall_fmap, Forall_forall. intros i _. cbn. unfold byte_at, u8.
    pose proof (wrap_range 8 (default 0 (bytes s (window + i))) ltac:(lia)). unfold in_width in *. lia.
  - intros s2 Hs2. apply wp_bind. apply wp_bind, (wp_file_descriptor _ _ _ _ Hs2).
    + by rewrite lookup_insert_eq.
    + intros _ _ _. apply wp_bind, wp_set_descriptor; [apply Hs2 | apply is_file_range in Hr; unfold MAX_DESCRIPTORS; lia|].
      apply wp_ret, wp_ret. split; [done|]. pose proof (represents_close _ _ fd Hs2 Hr) as Hend.
      rewrite !delete_insert_eq, delete_id in Hend by done. exact Hend.
Qed.

(** C33: Seeking.  The target is counted from the start, the position or the end; a target outside of the file and an
    unknown origin are refused, and nothing changes; otherwise the position becomes the target, which is the result.
    When the sum leaves the 64-bit signed type the behaviour of the source is undefined. *)
Theorem lseek_correct fs fd off whence s :
  represents s fs -> - 2 ^ 63 <= off < 2 ^ 63 ->
  match fs !! fd with
  | None => wp (lseek fd off whence) (fun r s' =>
      r = -1 /\ s' = set_errno (if is_console fd then ESPIPE else EBADF) s) s
  | Some f =>
      match seek_target f off whence with
      | None => wp (lseek fd off whence) (fun r s' => r = -1 /\ s' = set_errno EINVAL s) s
      | Some target =>
          if 2 ^ 63 <=? target then lseek fd off whence s = Undefined
          else wp (lseek fd off whence) (fun r s' =>
            if (0 <=? target) && (target <=? zlen (content f))
            then r = target /\ represents s' (<[fd := move_to target f]> fs) /\ bytes s' = bytes s /\ output s' = output s
            else r = -1 /\ s' = set_errno EINVAL s) s
      end
  end.
Proof.
  intros Hs Hoff. destruct (fs !! fd) as [f|] eqn:Hf.
  2:{ apply wp_bind, (wp_file_descriptor fs); [done | intros _; by apply wp_fail | congruence]. }
  pose proof (table_open _ _ Hs _ _ Hf) as [Hr Hopen Hsize Hoffset Hpos Hbound _].
  destruct (seek_target f off whence) as [target|] eqn:Ht; [|by apply (wp_seek fs fd f); rewrite ?Ht].
  destruct (Z.leb_spec (2 ^ 63) target) as [Hov|Hin].
  - pose proof (proj1 (is_file_range fd) Hr) as Hr'. unfold lseek, mbind, kernel_bind.
    assert (Hlook : file_descriptor fd s = Ret (Some fd, s)).
    { pose proof (wp_file_descriptor fs fd (fun r s' => r = Some fd /\ s' = s) s Hs) as Hw.
      destruct (wp_elim _ _ _ (Hw ltac:(congruence) ltac:(done))) as (r & s' & -> & -> & ->). done. }
    assert (Hget : get_descriptor fd s = Ret (znth (m_descriptors s) fd, s)).
    { pose proof (wp_get_descriptor fd (fun d s' => d = znth (m_descriptors s) fd /\ s' = s) s (table_length _ _ Hs)
        ltac:(unfold MAX_DESCRIPTORS; lia) ltac:(done)) as Hw.
      destruct (wp_elim _ _ _ Hw) as (d & s' & -> & -> & ->). done. }
    rewrite Hlook, Hget, Hoffset, Hsize, !i64_small by lia. unfold seek_target in Ht.
    assert (Hno : forall x, target = off + x -> signed_add (S := posix) off x = undefined).
    { intros x ->. unfold signed_add. by replace (_ && _) with false by lia. }
    destruct (whence =? SEEK_CUR); [injection Ht as <-; by rewrite Hno|].
    destruct (whence =? SEEK_END); [injection Ht as <-; by rewrite Hno|].
    destruct (whence =? SEEK_SET); [injection Ht as <-; lia | done].
  - apply (wp_seek fs fd f); [done | done|]. rewrite Ht. split.
    + unfold seek_target in Ht. split; [|lia].
      destruct (whence =? SEEK_CUR); [injection Ht as <-; lia|].
      destruct (whence =? SEEK_END); [injection Ht as <-; lia|]. destruct (whence =? SEEK_SET); [injection Ht as <-; lia | done].
    + destruct (_ && _); [|done]. intros s' Hs' Hb Ho _. done.
Qed.

(** Gathered output.  A bad number of vectors, a null vector with a length, and a sum that does not fit the result
    are refused before anything is printed; otherwise the vectors are printed completely and in their order, and the
    result is the sum of their lengths.  (A null vector without a length prints the text for null pointers.) *)
Theorem writev_correct fd vectors vs s :
  vectors_at (bytes s) vectors vs -> is_output fd = true ->
  Forall (fun v => in_width 64 (snd v) /\ (fst v <> 0 -> mapped (bytes s) (fst v) (fst v + snd v))) vs ->
  wp (writev fd vectors (zlen vs)) (fun r s' =>
    if (IOV_MAX <? zlen vs) || ((vectors =? 0) && negb (zlen vs =? 0)) then r = -1 /\ s' = set_errno EINVAL s
    else match iov_error vs 0 with
    | Some e => r = -1 /\ s' = set_errno e s
    | None => r = total_length vs /\ prints s s' (vectors_text (bytes s) vs)
    end) s.
Proof.
  intros Hv Hfd Hbuf. pose proof (zlen_nonneg vs). apply wp_bind.
  destruct ((IOV_MAX <? zlen vs) || _) eqn:Ebad.
  - unfold validate_iovecs. replace (zlen vs <? 0) with false by lia. cbn [orb]. rewrite Ebad.
    apply wp_bind, wp_modify, wp_ret, wp_ret. done.
  - apply orb_false_iff in Ebad as [E1 E2]. apply Z.ltb_ge in E1.
    apply (wp_validate vs); [done | | done | |].
    + eapply Forall_impl; [exact Hbuf | by intros v [? _]].
    + intros ->. cbn [Z.eqb andb] in E2. apply negb_false_iff, Z.eqb_eq in E2. unfold zlen in E2. destruct vs; done || lia.
    + destruct (iov_error vs 0) as [e|]; [by apply wp_ret|]. intros Htotal. cbn [negb].
      apply wp_transfer_write; [done | done | | done | done].
      eapply Forall_impl; [exact Hbuf|]. intros v [[? _] Hm]. by split.
Qed.

(** ** Sequences of calls *)

Inductive call : Type :=
| Open (path : text) (flags : Z)
| Read (fd buffer count : Z)
| Readv (fd vectors count : Z)
| Write (fd buffer count : Z)
| Writev (fd vectors count : Z)
| Lseek (fd off whence : Z)
| Close (fd : Z)
| Fstat (fd out : Z).

Definition perform `{layout} (boot : info) (c : call) : kernel posix Z :=
  match c with
  | Open path flags => open boot path flags
  | Read fd buffer count => read fd buffer count
  | Readv fd vectors count => readv fd vectors count
  | Write fd buffer count => write fd buffer count
  | Writev fd vectors count => writev fd vectors count
  | Lseek fd off whence => lseek fd off whence
  | Close fd => close fd
  | Fstat fd out => fstat fd out
  end.

(** A [size_t] is not negative. *)
Definition call_typed (c : call) : Prop := match c with Read _ _ count => 0 <= count | _ => True end.

(** One call that returns; and the states of an application that has made some. *)
Inductive called `{layout} (boot : info) : posix -> posix -> Prop :=
| called_once c s r s' : call_typed c -> perform boot c s = Ret (r, s') -> called boot s s'.

Definition posix_init (m : memory) (c : console) : posix :=
  {| m_descriptors := replicate (Z.to_nat MAX_DESCRIPTORS) descriptor_init; errno := 0; bytes := m; output := c |}.

Lemma posix_init_ok `{layout} boot m c : descriptors_ok boot (posix_init m c).
Proof.
  split; [done | | |].
  - intros fd Hfd. cbn [m_descriptors posix_init]. by rewrite (znth_replicate MAX_DESCRIPTORS) by done.
  - intros fd Hfd. cbn [m_descriptors posix_init]. rewrite (znth_replicate MAX_DESCRIPTORS) by done. cbn. lia.
  - intros fd Hfd. cbn [m_descriptors posix_init].
    rewrite (znth_replicate MAX_DESCRIPTORS) by (unfold FIRST_FILE_DESCRIPTOR, MAX_DESCRIPTORS in *; lia). done.
Qed.

Lemma called_ok `{layout_ok} boot s s' :
  Forall module_typed (InplaceVector.m_items (modules boot)) ->
  called boot s s' -> descriptors_ok boot s -> descriptors_ok boot s'.
Proof.
  intros Hboot [c s0 r s1 Hc E] Hs.
  assert (Hk : wlp (perform boot c) (fun _ => descriptors_ok boot) s0); [|by eapply Hk].
  assert (Hv : forall transfer fd vectors count, (forall b n s', 0 <= n -> descriptors_ok boot s' ->
      wlp (transfer fd b n) (fun _ => descriptors_ok boot) s') ->
    wlp (valid ← validate_iovecs vectors count; if negb valid then mret (-1) else transfer_each transfer fd vectors count)
      (fun _ => descriptors_ok boot) s0).
  { intros transfer fd vectors count Ht. apply wlp_bind. eapply wlp_mono; [by apply kept_validate|].
    intros v s3 H3. destruct (negb v); [by apply wlp_ret | by apply kept_transfer]. }
  destruct c; cbn [perform].
  - by apply kept_open.
  - by apply kept_read.
  - apply Hv. intros b n s2 Hn Hs2. by apply kept_read.
  - by apply kept_write.
  - apply Hv. intros b n s2 _ Hs2. by apply kept_write.
  - by apply kept_lseek.
  - by apply kept_close.
  - by apply kept_fstat.
Qed.

(** C34: Whatever an application calls, with whatever pointers, as long as the calls return: every open file is a
    whole boot module, as the direct map shows it; no position passes its end, so that no read goes past the
    module; and the console's descriptors are never files. *)
Theorem descriptors_invariant `{layout_ok} boot m c s :
  Forall module_typed (InplaceVector.m_items (modules boot)) ->
  rtc (called boot) (posix_init m c) s -> descriptors_ok boot s.
Proof.
  intros Hboot Hrun. pose proof (posix_init_ok boot m c) as Hinit. revert Hinit.
  induction Hrun as [s|s s1 s2 Hstep _ IH]; [done|]. intros Hs. apply IH. by eapply called_ok.
Qed.

(** ** The properties at work: a machine with one module *)
Section PosixWitnesses.
Local Existing Instance Pmm.example_layout.
Local Existing Instance Pmm.example_layout_ok.

Definition wad : module_info := {|
  module_range := {| range_base := 0x10000; range_length := 5 |};
  module_command_line :=
    {| FixedString.m_data := chars "doom.wad" ++ replicate 121 NUL; FixedString.m_size := 8 |} |}.

Definition boot : info := Boot.set_modules
  {| InplaceVector.m_items := wad :: replicate 31 module_info_init; InplaceVector.m_size := 1 |} info_init.

Definition WINDOW : Z := 0xffff800000010000.
Definition BUFFER : Z := 0x1000.
Definition VECTORS : Z := 0x2000.

(** The module behind the direct map, a buffer with a text, and two vectors of it. *)
Definition memory_of_wad : memory := fun a =>
  if WINDOW <=? a then image_at WINDOW [73; 87; 65; 68; 0] a
  else if VECTORS <=? a
    then image_at VECTORS (little_endian 8 BUFFER ++ little_endian 8 2 ++ little_endian 8 (BUFFER + 3) ++ little_endian 8 1) a
    else image_at BUFFER (chars "ab-c" ++ replicate 60 0) a.

Definition fresh : posix := posix_init memory_of_wad {| m_sink := 1; calls := [] |}.

Lemma fresh_represents : represents fresh ∅.
Proof.
  split; [done | by intros fd f Hf|]. intros fd Hfd _. apply is_file_range in Hfd. cbn [m_descriptors fresh posix_init].
  by rewrite (znth_replicate MAX_DESCRIPTORS) by (unfold MAX_DESCRIPTORS; lia).
Qed.

Lemma window_mapped : mapped memory_of_wad WINDOW (WINDOW + 5).
Proof.
  intros a Ha. unfold memory_of_wad. destruct (Z.leb_spec WINDOW a); [|lia].
  by apply (mapped_image WINDOW [73; 87; 65; 68; 0] (WINDOW + 5)).
Qed.

Lemma buffer_mapped n : n <= 64 -> mapped memory_of_wad BUFFER (BUFFER + n).
Proof.
  intros Hn a Ha. unfold memory_of_wad, BUFFER, VECTORS, WINDOW in *.
  destruct (Z.leb_spec 0xffff800000010000 a); [lia|]. destruct (Z.leb_spec 0x2000 a); [lia|].
  apply (mapped_image 0x1000 (chars "ab-c" ++ replicate 60 0) (0x1000 + 64)); [by vm_compute | lia].
Qed.

Lemma boot_modules_ok : modules_ok boot (bytes fresh).
Proof.
  assert (Hx : forall x, x ∈ InplaceVector.elements (modules boot) -> x = wad).
  { intros x Hx. change (x ∈ [wad]) in Hx. by apply list_elem_of_singleton in Hx. }
  split.
  - split; by vm_compute.
  - intros x ->%Hx. split; [|reflexivity]. split; [by vm_compute | by vm_compute | by repeat constructor].
  - intros x window ->%Hx [= <-]. split; [by vm_compute|]. exact window_mapped.
Qed.

Lemma open_correct_witness :
  wp (open boot (Some (chars "doom.wad" ++ [NUL])) 0) (fun r s' => r = 3) fresh.
Proof.
  eapply wp_mono; [apply (open_correct boot (Some (chars "doom.wad" ++ [NUL])) 0 ∅ fresh);
    [exact fresh_represents | exact boot_modules_ok | by intros l [= <-]]|].
  intros r s' Hr. cbn beta iota in Hr. change (opened wad ∅ fresh r s') in Hr. exact (proj1 Hr).
Defined.

Lemma file_roundtrip_witness :
  wp (fd ← open boot (Some (chars "doom.wad" ++ [NUL])) 0; data ← read_rest 6 fd BUFFER 2; close fd;; mret data)
    (fun data _ => data = [73; 87; 65; 68; 0]) fresh.
Proof.
  eapply wp_mono; [apply (file_roundtrip boot (chars "doom.wad" ++ [NUL]) wad WINDOW 3 ∅ fresh BUFFER 2 6);
    [exact fresh_represents | exact boot_modules_ok | by vm_compute | reflexivity | reflexivity | reflexivity | lia
    | apply buffer_mapped; lia | by intros fd f Hf | left; by vm_compute | by vm_compute]|].
  intros data s' [Hd _]. exact Hd.
Defined.

(** The module open at its third byte. *)
Definition wad_file : file := {| content := [73; 87; 65; 68; 0]; position := 2 |}.
Definition opened_wad : posix := set_descriptors
  (zset (m_descriptors fresh) 3 {| is_open := true; base := WINDOW; Posix.size := 5; offset := 2 |}) fresh.

Lemma opened_represents : represents opened_wad {[3 := wad_file]}.
Proof.
  rewrite <- insert_empty. apply represents_entry; try done; [exact fresh_represents|].
  split; [exact window_mapped|]. intros i Hi. change (zlen (content wad_file)) with 5 in Hi. cbn [base].
  assert (Hw : byte_at memory_of_wad (WINDOW + i) = byte_at (image_at WINDOW [73; 87; 65; 68; 0]) (WINDOW + i)).
  { unfold byte_at, memory_of_wad. by destruct (Z.leb_spec WINDOW (WINDOW + i)); [|lia]. }
  assert (i = 0 \/ i = 1 \/ i = 2 \/ i = 3 \/ i = 4) as [-> | [-> | [-> | [-> | ->]]]] by lia; by vm_compute.
Qed.

(** Four bytes are asked for, three are left. *)
Lemma read_correct_witness :
  wp (read 3 BUFFER 4) (fun r s' => r = 3 /\ represents s' {[3 := move_to 5 wad_file]} /\
    byte_at (bytes s') BUFFER = 65) opened_wad.
Proof.
  eapply wp_mono; [apply (read_correct {[3 := wad_file]} 3 BUFFER 4 opened_wad);
    [exact opened_represents | by vm_compute |]|].
  - intros f Hf. apply lookup_singleton_Some in Hf as [_ <-]. cbn zeta. change (available wad_file 4) with 3. split.
    + apply buffer_mapped. lia.
    + intros fd f Hf. apply lookup_singleton_Some in Hf as [<- <-]. left. by vm_compute.
  - intros r s' Hr. rewrite lookup_singleton_eq in Hr. change (available wad_file 4) with 3 in Hr.
    destruct Hr as (-> & Hs & _ & _ & Hm). rewrite insert_singleton_eq in Hs. split; [done|]. split; [exact Hs|].
    unfold byte_at. by rewrite (Hm BUFFER).
Defined.

Lemma lseek_correct_witness :
  wp (lseek 3 (-1) SEEK_END) (fun r s' => r = 4 /\ represents s' {[3 := move_to 4 wad_file]}) opened_wad /\
  lseek 3 (2 ^ 63 - 1) SEEK_CUR opened_wad = Undefined.
Proof.
  pose proof (fun o w H => lseek_correct {[3 := wad_file]} 3 o w opened_wad opened_represents H) as Hl.
  rewrite lookup_singleton_eq in Hl. split.
  - eapply wp_mono; [exact (Hl (-1) SEEK_END ltac:(lia))|]. intros r s' (-> & Hs & _). split; [done|].
    by rewrite insert_singleton_eq in Hs.
  - exact (Hl (2 ^ 63 - 1) SEEK_CUR ltac:(lia)).
Defined.

Lemma writev_correct_witness :
  wp (writev 1 VECTORS 2) (fun r s' => r = 3 /\ printed (output s') = chars "abc") fresh.
Proof.
  eapply wp_mono; [apply (writev_correct 1 VECTORS [(BUFFER, 2); (BUFFER + 3, 1)] fresh)|].
  - split.
    + intros a Ha. change (16 * zlen [(BUFFER, 2); (BUFFER + 3, 1)]) with 32 in Ha.
      cbn [bytes fresh posix_init]. unfold memory_of_wad, VECTORS, WINDOW in *.
      destruct (Z.leb_spec 0xffff800000010000 a); [lia|]. destruct (Z.leb_spec 0x2000 a); [|lia].
      by apply (mapped_image 0x2000 _ (0x2000 + 32)).
    + intros i Hi. change (zlen _) with 2 in Hi. assert (i = 0 \/ i = 1) as [-> | ->] by lia; by vm_compute.
    + intros i Hi. change (zlen _) with 2 in Hi. assert (i = 0 \/ i = 1) as [-> | ->] by lia; by vm_compute.
  - reflexivity.
  - constructor; [split; [by vm_compute|]; intros _; by apply (buffer_mapped 2)|].
    constructor; [|constructor]. split; [by vm_compute|]. intros _ a Ha. apply (buffer_mapped 64); [lia|].
    cbn [fst snd] in Ha. unfold BUFFER in *. lia.
  - intros r s' Hr. cbn beta iota zeta in Hr. change (r = 3 /\ prints fresh s' (chars "abc")) in Hr.
    destruct Hr as [-> Hp]. split; [reflexivity|]. exact (passes_printed _ _ _ (prints_output _ _ _ Hp)).
Defined.

Lemma opened_fresh : exists r s,
  open boot (Some (chars "doom.wad" ++ [NUL])) 0 fresh = Ret (r, s) /\ is_open (znth (m_descriptors s) 3) = true.
Proof.
  apply wp_elim, (wp_open boot _ _ ∅); [exact fresh_represents | exact boot_modules_ok | by vm_compute | done | done|].
  intros r s' Hr. change (opened wad ∅ fresh r s') in Hr. by destruct Hr as (_ & -> & _).
Qed.

Lemma descriptors_invariant_witness :
  exists s, rtc (called boot) fresh s /\ is_open (znth (m_descriptors s) 3) = true /\ descriptors_ok boot s.
Proof.
  destruct opened_fresh as (r & s & E & Ho).
  assert (Hcall : called boot fresh s) by exact (called_once boot (Open _ 0) fresh r s I E).
  exists s. split; [exact (rtc_once _ _ Hcall)|]. split; [exact Ho|].
  apply (descriptors_invariant boot memory_of_wad {| m_sink := 1; calls := [] |} s); [|exact (rtc_once _ _ Hcall)].
  by repeat (constructor; [by vm_compute|]).
Defined.

(** A vector of no bytes at the null pointer passes the check, and prints a text nobody wrote. *)
Example writev_null_prints :
  match write 1 0 0 fresh with Ret (r, s') => r = 0 /\ printed (output s') = chars "<null>" | _ => False end.
Proof. by vm_compute. Qed.
End PosixWitnesses.
