(* ===== verification/PosixMemory.v ===== *)
(** * PosixMemory: memory for the application, [kernel/mm/posix/stub_impl.cpp]

    [mmap], [munmap] and [mprotect] over the virtual memory manager.  The memory behind the pages is the bytes of the
    machine, by their physical address, and an access goes through the page tables as the processor's does: an
    instance of [byte_access], so that the kernel's [memset] runs on it. *)

From S2P Require Import Prelude Bits Page Boot Pmm Radix Paging Mmu Vmm Runtime Posix.

Module Abi.
Definition PROT_READ : Z := 0x1.
Definition PROT_WRITE : Z := 0x2.
Definition PROT_EXEC : Z := 0x4.
Definition MAP_PRIVATE : Z := 0x02.
Definition MAP_ANONYMOUS : Z := 0x20.
Definition MAP_NORESERVE : Z := 0x4000.
End Abi.

Definition SUPPORTED_PROTECTION : Z := Z.lor (Z.lor Abi.PROT_READ Abi.PROT_WRITE) Abi.PROT_EXEC.
Definition SUPPORTED_FLAGS : Z := Z.lor (Z.lor Abi.MAP_PRIVATE Abi.MAP_ANONYMOUS) Abi.MAP_NORESERVE.

Record pages : Type := { manager : vmm; data : Z -> Z; mm_errno : Z }.

Definition set_manager x s := {| manager := x; data := data s; mm_errno := mm_errno s |}.
Definition set_data x s := {| manager := manager s; data := x; mm_errno := mm_errno s |}.
Definition set_mm_errno x s := {| manager := manager s; data := data s; mm_errno := x |}.

Section PosixMemory.
Context `{layout} `{image}.

Definition on_manager {A} (m : kernel vmm A) : kernel pages A := zoom manager set_manager m.

(** The processor's translation of an address: where it leads and what may be done there. *)
Definition resolve (va : Z) : kernel pages (Z * page_prot) :=
  r ← on_manager (kernel_space (fun f root => translate (F := @paging f) root va));
  match r with
  | Ok m => mret (physical m, prot m)
  | Err _ => undefined
  end.

#[export] Instance page_access : byte_access pages := {|
  load8 va := r ← resolve va; gets (fun s => u8 (data s (fst r)));
  store8 va b :=
    r ← resolve va;
    if has (snd r) PROT_WRITE
    then modify (fun s => set_data (fun p => if p =? fst r then b else data s p) s)
    else undefined;
|}.

Definition MAP_FAILED : Z := u64 (-1).

Definition mmap (address length protection flags fd off : Z) : kernel pages Z :=
  if negb (address =? 0) || (length =? 0) || negb (fd =? -1) || negb (off =? 0) ||
     (Z.land flags Abi.MAP_PRIVATE =? 0) || (Z.land flags Abi.MAP_ANONYMOUS =? 0) ||
     negb (Z.land flags (Z.lnot SUPPORTED_FLAGS) =? 0) ||
     negb (Z.land protection (Z.lnot SUPPORTED_PROTECTION) =? 0)
  then modify (set_mm_errno EINVAL);; mret MAP_FAILED
  else
    allocated ← on_manager (vmm_alloc length KERNEL_DATA);
    match allocated with
    | Err _ => modify (set_mm_errno ENOMEM);; mret MAP_FAILED
    | Ok memory =>
        memset memory 0 (align_up 64 length FRAME_SIZE);;
        if negb (Z.land protection Abi.PROT_WRITE =? 0) then mret memory
        else
          let prot := PROT_GLOBAL in
          let prot := if negb (Z.land protection Abi.PROT_EXEC =? 0) then prot_or prot PROT_EXEC else prot in
          r ← on_manager (vmm_protect memory length prot);
          match r with
          | Err _ => kpanic "mmap: cannot drop write access on a fresh allocation at {}"
          | Ok _ => mret memory
          end
    end.

Definition munmap (address length : Z) : kernel pages Z :=
  r ← on_manager (vmm_free address length);
  match r with
  | Ok _ => mret 0
  | Err _ => modify (set_mm_errno EINVAL);; mret (-1)
  end.

Definition mprotect (address length protection : Z) : kernel pages Z :=
  if negb (Z.land protection (Z.lnot SUPPORTED_PROTECTION) =? 0)
  then modify (set_mm_errno EINVAL);; mret (-1)
  else
    let prot := PROT_GLOBAL in
    let prot := if negb (Z.land protection Abi.PROT_WRITE =? 0) then prot_or prot PROT_WRITE else prot in
    let prot := if negb (Z.land protection Abi.PROT_EXEC =? 0) then prot_or prot PROT_EXEC else prot in
    let first := align_down 64 address FRAME_SIZE in
    let last := align_up 64 (u64 (address + length)) FRAME_SIZE in
    r ← on_manager (vmm_protect first (u64 (last - first)) prot);
    match r with
    | Err _ => modify (set_mm_errno ENOMEM);; mret (-1)
    | Ok _ => mret 0
    end.
End PosixMemory.
