(* ===== verification/PosixMemoryFacts.v ===== *)
(** * PosixMemoryFacts: what the application's memory calls do *)

From S2P Require Import Prelude Bits Page Boot Pmm Radix RadixFacts Paging Mmu Vmm VmmFacts Runtime Posix PosixMemory.

Section PosixMemoryFacts.
Context `{layout_ok} `{image} `{features}.
Context (root : Z).

(** The physical address behind an address of the area. *)
Definition behind (b : backing) (va : Z) : Z :=
  match b !! (va - va mod 4096) with Some (f, _) => f + va mod 4096 | None => 0 end.

Lemma frame_addressable b s y f q : space_ok root b s -> b !! y = Some (f, q) -> addressable f.
Proof.
  intros Hs Hy. pose proof (backing_area b (space_backing root b _ Hs) y _ Hy) as Hpage.
  pose proof (space_pages root b _ Hs y Hpage) as Hp. rewrite Hy in Hp.
  destruct Hp as (e & _ & <- & _). apply land_mask_addressable.
Qed.

Lemma wp_resolve b va f q (Q : Z * page_prot -> pages -> Prop) s :
  space_ok root b (space (manager s)) -> VMALLOC_BASE <= va < VMALLOC_BASE + VMALLOC_SIZE ->
  b !! (va - va mod 4096) = Some (f, q) -> Q (behind b va, q) s -> wp (resolve va) Q s.
Proof.
  intros Hs Hva Hb HQ. apply wp_bind, wp_zoom, (wp_translate_area root b); [done | done|]. rewrite Hb.
  destruct (frame_addressable b _ _ f q Hs Hb) as [Hf Hfm]. apply wp_ret. unfold physical, behind in *. cbn [frame Page.offset prot].
  rewrite Hb in HQ. unfold u64. rewrite wrap_small.
  2:{ pose proof (Z.mod_pos_bound va 4096 ltac:(lia)). unfold in_width. lia. }
  replace (set_manager (manager s) s) with s by by destruct s. exact HQ.
Qed.

(** The block [base, base + n) is mapped writable. *)
Definition writable (b : backing) (base n : Z) : Prop :=
  forall y, base <= y < base + n -> y mod 4096 = 0 -> exists f q, b !! y = Some (f, q) /\ has q PROT_WRITE = true.

(** Filling a block: its bytes have the value, and what is not behind it does not change. *)
Lemma wp_fill_block b base n value (Q : Z -> pages -> Prop) s :
  space_ok root b (space (manager s)) -> 0 <= n -> base mod 4096 = 0 ->
  VMALLOC_BASE <= base -> base + n <= VMALLOC_BASE + VMALLOC_SIZE -> writable b base n ->
  (forall d, (forall va, base <= va < base + n -> d (behind b va) = u8 value) ->
     (forall p, (forall va, base <= va < base + n -> behind b va <> p) -> d p = data s p) -> Q base (set_data d s)) ->
  wp (memset base value n) Q s.
Proof.
  intros Hs Hn Hbm Hlo Hhi Hw HQ. apply wp_bind.
  apply (wp_for_range (fun i s' => exists d, s' = set_data d s /\
    (forall va, base <= va < base + i -> d (behind b va) = u8 value) /\
    (forall p, (forall va, base <= va < base + n -> behind b va <> p) -> d p = data s p))).
  - exists (data s). split; [by destruct s|]. split; [lia | done].
  - intros i s' Hi (d & -> & Hdone & Hrest).
    assert (Hpage : base <= base + i - (base + i) mod 4096 < base + n) by (clear - Hi Hbm; div_lia).
    assert (Hmod : (base + i - (base + i) mod 4096) mod 4096 = 0) by div_lia.
    destruct (Hw _ Hpage Hmod) as (f & q & Hb & Hq).
    apply wp_bind, (wp_resolve b _ f q); [done | lia | done|]. cbn [fst snd]. rewrite Hq. apply wp_modify.
    eexists. split; [reflexivity|]. cbn [data set_data]. split.
    + intros va Hva. destruct (Z.eqb_spec (behind b va) (behind b (base + i))) as [E|E]; [done|].
      apply Hdone. assert (va <> base + i) by congruence. lia.
    + intros p Hp. destruct (Z.eqb_spec p (behind b (base + i))) as [->|E]; [|by apply Hrest].
      exfalso. apply (Hp (base + i)); [lia | done].
  - intros s' (d & -> & Hdone & Hrest). rewrite Z.max_r in Hdone by lia. apply wp_ret. by apply HQ.
Qed.

(** The frames of new pages are none of the old ones. *)
Lemma fresh_behind b b' s' base size q y f p o va :
  space_ok root b' s' -> backed_from b b' base size q -> base mod 4096 = 0 ->
  area_page y -> VMALLOC_BASE <= base -> base + size <= VMALLOC_BASE + VMALLOC_SIZE ->
  b !! y = Some (f, p) -> addressable f -> 0 <= o < 4096 -> base <= va < base + size -> behind b' va <> f + o.
Proof.
  intros Hs Hback Hbm Hy Hlo Hhi Hb [_ Hf] Ho Hva E. unfold behind in E.
  assert (Hin : base <= va - va mod 4096 < base + size) by (clear - Hva Hbm; div_lia).
  pose proof (Hback (va - va mod 4096)) as Hpg.
  destruct ((base <=? va - va mod 4096) && (va - va mod 4096 <? base + size)) eqn:Ein; [|lia].
  destruct Hpg as [Hpg _]. destruct Hpg as (g & Hg & Hfresh); [split; [lia | div_lia]|].
  rewrite Hg in E. destruct (frame_addressable b' _ _ g q Hs Hg) as [_ Hgm].
  assert (g = f) as -> by (clear - E Hf Hgm Ho; div_lia). apply Hfresh. by exists y, p.
Qed.

Lemma granted_writes : has (granted KERNEL_DATA) PROT_WRITE = true.
Proof. unfold granted. by destruct nx_enabled, global_pages_enabled. Qed.

(** The protection [mmap] gives. *)
Definition mmap_prot (protection : Z) : page_prot :=
  if negb (Z.land protection Abi.PROT_WRITE =? 0) then KERNEL_DATA
  else if negb (Z.land protection Abi.PROT_EXEC =? 0) then prot_or PROT_GLOBAL PROT_EXEC else PROT_GLOBAL.

(** The arguments [mmap] takes: a private anonymous mapping, at an address of its choice. *)
Definition mmap_arguments (address length protection flags fd off : Z) : Prop :=
  address = 0 /\ length <> 0 /\ fd = -1 /\ off = 0 /\
  Z.land flags Abi.MAP_PRIVATE <> 0 /\ Z.land flags Abi.MAP_ANONYMOUS <> 0 /\
  Z.land flags (Z.lnot SUPPORTED_FLAGS) = 0 /\ Z.land protection (Z.lnot SUPPORTED_PROTECTION) = 0.

(** A new block at [r]: apart from every other one, backed by fresh frames with the protection, and all zeros; the
    frames that are no longer free are behind it or in the page tables, and what is behind the old pages has not
    changed. *)
Record mapped_block (b : backing) (s : pages) (r length : Z) (prot : page_prot) (s' : pages) : Prop := {
  block_size : allocation_ok r (whole_pages length);
  block_apart y : r - 4096 <= y < r + whole_pages length + 4096 ->
    ~ allocated (m_allocations (manager s)) (m_count (manager s)) y;
  block_allocated y : allocated (m_allocations (manager s')) (m_count (manager s')) y <->
    allocated (m_allocations (manager s)) (m_count (manager s)) y \/ r <= y < r + whole_pages length;
  block_errno : mm_errno s' = mm_errno s;
  block_pages : exists b', vmm_ok root b' (manager s') /\ backed_from b b' r (whole_pages length) (granted prot) /\
    (forall va, r <= va < r + whole_pages length -> data s' (behind b' va) = 0) /\
    frames_drawn root b' (space (manager s)) (space (manager s')) r (whole_pages length);
  block_frame y f p o : b !! y = Some (f, p) -> 0 <= o < 4096 -> data s' (f + o) = data s (f + o);
}.

(** Lowering the protection of a new block keeps its frames. *)
Lemma backed_from_reprotected b b' base size q q' :
  backed_from b b' base size q -> backed_from b (reprotected base (base + size) q' b') base size q'.
Proof.
  intros Hback y. specialize (Hback y). rewrite lookup_reprotected.
  destruct ((base <=? y) && (y <? base + size)) eqn:E.
  - destruct Hback as [Hp Hn]. split.
    + intros Hy. destruct (Hp Hy) as (f & -> & Hf). by exists f.
    + intros Hy. by rewrite (Hn Hy).
  - rewrite Hback. by destruct (b !! y) as [[f p]|].
Qed.

Lemma behind_reprotected b lo hi q va : behind (reprotected lo hi q b) va = behind b va.
Proof. unfold behind. rewrite lookup_reprotected. destruct (b !! _) as [[f p]|]; [|done]. by destruct (_ && _). Qed.

Lemma whole_pages_shift base length : base mod 4096 = 0 -> whole_pages (base + length) = base + whole_pages length.
Proof. unfold whole_pages. intros Hb. div_lia. Qed.

(** There is no memory for [length] bytes: more than the area holds, or [no_memory]. *)
Definition out_of_memory (s : vmm) (length : Z) : Prop :=
  VMALLOC_SIZE < length \/ no_memory s (whole_pages length).

(** [mmap].  Unsupported arguments are refused and nothing but [errno] changes.  Otherwise there is no memory for the
    block, and no mapping and no byte has changed and no frame is lost; or the block is new, zeroed, and has the protection asked for, and
    what the other pages hold is untouched.  The panic of a block that cannot be protected is not reached. *)
Lemma wp_mmap b address length protection flags fd off s :
  vmm_ok root b (manager s) -> in_width 64 length ->
  wp (mmap address length protection flags fd off) (fun r s' =>
    (r = MAP_FAILED /\ s' = set_mm_errno EINVAL s /\ ~ mmap_arguments address length protection flags fd off) \/
    (mmap_arguments address length protection flags fd off /\
      ((r = MAP_FAILED /\ mm_errno s' = ENOMEM /\ data s' = data s /\ vmm_ok root b (manager s') /\
          m_allocations (manager s') = m_allocations (manager s) /\ m_count (manager s') = m_count (manager s) /\
          nothing_lost root (space (manager s)) (space (manager s')) /\ out_of_memory (manager s) length) \/
       (r <> MAP_FAILED /\ mapped_block b s r length (mmap_prot protection) s')))) s.
Proof.
  intros Hs Hw. unfold mmap. set (bad := _ || _).
  assert (Hargs : bad = false <-> mmap_arguments address length protection flags fd off).
  { unfold bad, mmap_arguments. rewrite !orb_false_iff, !negb_false_iff, !Z.eqb_eq, !Z.eqb_neq. tauto. }
  destruct bad.
  { apply wp_bind, wp_modify, wp_ret. left. split; [done|]. split; [done|]. by intros Hok%Hargs. }
  assert (Hok : mmap_arguments address length protection flags fd off) by by apply Hargs.
  apply wp_bind, wp_zoom. eapply wp_mono; [by apply (wp_vmm_alloc root b)|]. intros [base|e] v Hout.
  2:{ destruct Hout as (Hv & Ha & Hc & Hlost & Hwhy). apply wp_bind, wp_modify, wp_ret. right. split; [done|]. left.
      do 6 (split; [done|]). split; [done|]. destruct Hok as (_ & Hnz & _).
      destruct Hwhy as [[_ [|]]|(_ & _ & Hno)]; [done | by left | by right]. }
  destruct Hout as (b' & Hv & Hlen & Hblock & Hapart & Hall & Hback & Hdrawn). pose proof Hblock as [[Hpos Hmod] [Hlo Hbm] Hhi].
  rewrite align_up_pages by (unfold VMALLOC_SIZE in Hlen; lia). set (n := whole_pages length) in *.
  unfold AREA_END in Hhi. apply wp_bind, (wp_fill_block b'); [apply Hv | lia | done | lia | lia | |].
  { intros y Hy Hym. pose proof (Hback y) as Hp. destruct (_ && _) eqn:E in Hp; [|lia]. destruct Hp as [Hp _].
    destruct Hp as (f & Hf & _); [split; [lia | done]|]. exists f, (granted KERNEL_DATA). split; [done | apply granted_writes]. }
  intros d Hzero Hrest.
  assert (Hneq : base <> MAP_FAILED) by (change MAP_FAILED with (2 ^ 64 - 1); unfold VMALLOC_BASE, VMALLOC_SIZE in *; lia).
  assert (Hframe : forall y f p o, b !! y = Some (f, p) -> 0 <= o < 4096 -> d (f + o) = data s (f + o)).
  { intros y f p o Hy Ho. apply Hrest. intros va Hva.
    pose proof (backing_area b (space_backing root b _ (vmm_space root b _ Hs)) y _ Hy) as Hpage.
    eapply fresh_behind; [apply Hv | exact Hback | done | exact Hpage | lia | lia | exact Hy | | done | done].
    eapply frame_addressable; [apply Hs | exact Hy]. }
  destruct (Z.land protection Abi.PROT_WRITE =? 0) eqn:Ew; cbn [negb].
  - set (prot := if negb (Z.land protection Abi.PROT_EXEC =? 0) then _ else _). change (data (set_manager v s)) with (data s) in *.
    apply wp_bind, wp_zoom. eapply wp_mono.
    { apply (wp_vmm_protect root b'); [exact Hv | unfold VMALLOC_BASE in Hlo; lia | lia | unfold VMALLOC_BASE, VMALLOC_SIZE in *; lia]. }
    cbn beta. rewrite whole_pages_shift by done. fold n. intros [[]|e] v2 Hprot.
    + destruct Hprot as (Hv2 & _ & _ & _ & Ha & Hc & Hcons). apply wp_ret. right. split; [done|]. right. split; [done|].
      split; cbn [manager data mm_errno set_manager set_data] in *; fold n; rewrite ?Ha, ?Hc; try done.
      exists (reprotected base (base + n) (granted prot) b'). split; [exact Hv2|]. split.
      * unfold mmap_prot. rewrite Ew. by apply (backed_from_reprotected _ _ _ _ (granted KERNEL_DATA)).
      * split; [intros va Hva; rewrite behind_reprotected; by rewrite Hzero|].
        eapply frames_drawn_conserved; [exact Hdrawn | exact Hcons |]. intros y p q Hy. rewrite lookup_reprotected, Hy.
        destruct (_ && _); by eexists.
    + exfalso. destruct Hprot as (_ & _ & [?|[?|Hno]]); [lia | done|].
      destruct (proj2 (Hall base)) as (i & Hi & Hin); [right; lia|].
      destruct (vmm_alloc_entry root (manager s) b' v base n i) as [E1 E2]; try done.
      apply (Hno i Hi). cbn [manager set_manager set_data] in *. unfold end_at. rewrite E1, E2. lia.
  - apply wp_ret. right. split; [done|]. right. split; [done|].
    split; cbn [manager data mm_errno set_manager set_data] in *; fold n; try done.
    exists b'. split; [exact Hv|]. unfold mmap_prot. rewrite Ew. split; [exact Hback|].
    split; [|exact Hdrawn]. intros va Hva. by rewrite Hzero.
Qed.

(** [munmap]: exactly a block that was mapped as a whole can be given back. *)
Lemma wp_munmap b address length s :
  vmm_ok root b (manager s) -> 0 <= length -> length + 4095 < 2 ^ 64 ->
  wp (munmap address length) (fun r s' => data s' = data s /\
    let outcome := free_outcome root b (manager s) address (whole_pages length) in
    (r = 0 /\ outcome (Ok tt) (manager s') /\ mm_errno s' = mm_errno s) \/
    (r = -1 /\ outcome (Err INVALID_ADDRESS) (manager s') /\ mm_errno s' = EINVAL)) s.
Proof.
  intros Hs Hl Hmax. apply wp_bind, wp_zoom. eapply wp_mono; [by apply (wp_vmm_free root b)|].
  intros [[]|e] v Hout.
  - apply wp_ret. split; [done|]. by left.
  - apply wp_bind, wp_modify, wp_ret. split; [done|]. right. split; [done|]. split; [|done].
    destruct Hout as (-> & Hrest). by split.
Qed.

(** The protection [mprotect] gives: what can be mapped can be read. *)
Definition mprotect_prot (protection : Z) : page_prot :=
  let prot := if negb (Z.land protection Abi.PROT_WRITE =? 0) then prot_or PROT_GLOBAL PROT_WRITE else PROT_GLOBAL in
  if negb (Z.land protection Abi.PROT_EXEC =? 0) then prot_or prot PROT_EXEC else prot.

Lemma whole_pages_aligned x : x mod 4096 = 0 -> whole_pages x = x.
Proof. unfold whole_pages. intros Hx. div_lia. Qed.

(** *** Properties *)


(** Protecting memory.  The range is widened to whole pages; it must lie in one block, and then each of its pages has
    the protection and the frame it had; otherwise, or if it is empty, the call fails, and only [errno] changes. *)
Theorem mprotect_correct b address length protection s :
  vmm_ok root b (manager s) -> 0 <= address -> 0 <= length -> address + length + 4095 < 2 ^ 64 ->
  let first := address - address mod 4096 in
  let last := whole_pages (address + length) in
  let inside i := base_at (m_allocations (manager s)) i <= first /\ last <= end_at (m_allocations (manager s)) i in
  wp (mprotect address length protection) (fun r s' => data s' = data s /\
    if negb (Z.land protection (Z.lnot SUPPORTED_PROTECTION) =? 0) then r = -1 /\ s' = set_mm_errno EINVAL s
    else
      (r = 0 /\ (exists i, 0 <= i < m_count (manager s) /\ inside i) /\ mm_errno s' = mm_errno s /\
         vmm_ok root (reprotected first last (granted (mprotect_prot protection)) b) (manager s')) \/
      (r = -1 /\ s' = set_mm_errno ENOMEM s /\
         (first = last \/ forall i, 0 <= i < m_count (manager s) -> ~ inside i))) s.
Proof.
  intros Hs Ha Hl Hmax first last inside. unfold mprotect. destruct (negb _) eqn:Ebad.
  { by apply wp_bind, wp_modify, wp_ret. }
  assert (Hf : align_down 64 address FRAME_SIZE = first).
  { change FRAME_SIZE with (2 ^ 12). rewrite align_down_eq by (unfold in_width; lia). done. }
  assert (u64 (address + length) = address + length) as -> by (apply wrap_small; unfold in_width; lia).
  rewrite Hf, align_up_pages by lia. fold last.
  assert (Hfirst : 0 <= first <= address /\ first mod 4096 = 0) by (unfold first; split; div_lia).
  assert (Hlast : address + length <= last < address + length + 4096 /\ last mod 4096 = 0).
  { unfold last, whole_pages. split; [div_lia | apply Z.mod_mul; lia]. }
  assert (Hcap : last <= 2 ^ 64 - 4096) by (clear - Hlast Hmax; div_lia).
  assert (u64 (last - first) = last - first) as -> by (apply wrap_small; unfold in_width; lia).
  apply wp_bind, wp_zoom. eapply wp_mono; [apply (wp_vmm_protect root b); [exact Hs | lia | lia | lia]|].
  cbn beta. replace (first + (last - first)) with last by lia. rewrite (whole_pages_aligned last) by apply Hlast.
  fold (inside). intros [[]|e] v Hprot.
  - destruct Hprot as (Hv & _ & _ & Hin & _). apply wp_ret. split; [done|]. left. by split.
  - destruct Hprot as (_ & -> & Hwhy). apply wp_bind, wp_modify, wp_ret. split; [done|]. right. split; [done|].
    split; [by destruct s as [[]]|]. destruct Hwhy as [?|[?|Hno]]; [left; lia | lia | by right].
Qed.

(** C36: When the arguments are supported and there is memory, mapping succeeds, and the block can be given back by its
    address and length: the pages, the frames behind them and the allocated addresses are then as they were before,
    what the other pages hold is untouched, and every frame that was free is free again, but for those that hold
    page tables still in use and tables of the image. *)
Theorem mmap_munmap_roundtrip b address length protection flags fd off s :
  vmm_ok root b (manager s) -> 0 <= length ->
  mmap_arguments address length protection flags fd off -> ~ out_of_memory (manager s) length ->
  wp (p ← mmap address length protection flags fd off; munmap p length)
    (fun r s' => r = 0 /\ vmm_ok root b (manager s') /\ mm_errno s' = mm_errno s /\
      (forall y, allocated (m_allocations (manager s')) (m_count (manager s')) y <->
        allocated (m_allocations (manager s)) (m_count (manager s)) y) /\
      nothing_lost root (space (manager s)) (space (manager s')) /\
      forall y f p o, b !! y = Some (f, p) -> 0 <= o < 4096 -> data s' (f + o) = data s (f + o)) s.
Proof.
  intros Hs Hl Hargs Hmem.
  assert (Hmax : length <= VMALLOC_SIZE) by (destruct (Z_le_gt_dec length VMALLOC_SIZE); [done | destruct Hmem; left; lia]).
  assert (Hv39 : VMALLOC_SIZE = 2 ^ 39) by reflexivity.
  apply wp_bind. eapply wp_mono; [apply (wp_mmap b); [done | unfold in_width; lia]|].
  intros r s1 [(_ & _ & Hno)|(_ & [(_ & _ & _ & _ & _ & _ & _ & Hno)|[Hr Hblock]])]; [done | done |].
  destruct Hblock as [Hsize Hapart Hall He (b' & Hv & Hback & _ & Hdrawn) Hframe].
  eapply wp_mono; [apply (wp_munmap b'); [done | lia | lia]|].
  intros q s2 [Hd [(-> & (Hv2 & _ & Hall2 & Hfreed) & He2)|(-> & (_ & _ & Hno) & _)]].
  - rewrite (backed_from_undo b b' r _ _ Hback) in Hv2.
    2:{ intros y Hy. apply (unallocated_none root b (manager s)); [done|]. apply Hapart. lia. }
    split; [done|]. split; [done|]. split; [congruence|]. rewrite Hd. split; [|split; [by eapply drawn_freed | exact Hframe]].
    intros y. rewrite Hall2, Hall. split; [tauto|]. intros Hy. split; [by left|]. intros Hin. apply (Hapart y); [lia | done].
  - exfalso. destruct Hsize as [[Hpos ?] ? ?]. destruct (proj2 (Hall r)) as (i & Hi & Hin); [right; lia|].
    destruct (vmm_alloc_entry root (manager s) b' (manager s1) r (whole_pages length) i) as [E1 E2]; try done. by apply (Hno i).
Qed.
End PosixMemoryFacts.

(** ** The properties at work, on an area with nothing allocated *)
Section PosixMemoryWitnesses.
Local Existing Instance Mmu.example_layout.
Local Existing Instance Mmu.example_layout_ok.
Local Existing Instance Mmu.example_image.
Local Existing Instance Mmu.example_features.

Definition blank_pages (v : vmm) : pages := {| manager := v; data := fun p => p mod 256; mm_errno := 0 |}.

(** There is memory for two pages. *)
Lemma example_in_memory v : m_count v = 0 -> 100 <= free_count (space v) -> ~ out_of_memory v 5000.
Proof. intros Hc Hf [Hl|Hn]; [by vm_compute in Hl|]. by apply (example_plenty v Hc Hf). Qed.


Lemma mprotect_correct_witness :
  exists v, vmm_ok example_root ∅ v /\ wp (mprotect VMALLOC_BASE 10 1) (fun r s' => r = -1 /\ mm_errno s' = ENOMEM) (blank_pages v).
Proof.
  destruct example_vmm as (v & Hv). exists v. split; [exact Hv|].
  eapply wp_mono; [apply (mprotect_correct example_root ∅ VMALLOC_BASE 10 1 (blank_pages v) Hv);
    [by vm_compute | lia | by vm_compute]|].
  intros r s' [_ Hr]. cbn [negb] in Hr. change (negb (Z.land 1 (Z.lnot SUPPORTED_PROTECTION) =? 0)) with false in Hr.
  cbn beta iota in Hr. destruct Hr as [(_ & (i & Hi & Hlo & Hhi) & _)|(-> & -> & _)]; [exfalso | by split].
  destruct (proj2 (vmm_pages _ _ _ Hv VMALLOC_BASE ltac:(by vm_compute))); [|by rewrite lookup_empty].
  exists i. split; [exact Hi|]. change (VMALLOC_BASE - VMALLOC_BASE mod 4096) with VMALLOC_BASE in Hlo.
  change (whole_pages (VMALLOC_BASE + 10)) with (VMALLOC_BASE + 4096) in Hhi. split; [exact Hlo|].
  apply (Z.lt_le_trans _ (VMALLOC_BASE + 4096)); [by vm_compute | exact Hhi].
Defined.

Lemma mmap_munmap_roundtrip_witness :
  exists v, vmm_ok example_root ∅ v /\
    wp (p ← mmap 0 5000 1 0x22 (-1) 0; munmap p 5000)
      (fun r s' => r = 0 /\ vmm_ok example_root ∅ (manager s')) (blank_pages v).
Proof.
  destruct example_memory as (v & Hv & Hc & Hf). exists v. split; [exact Hv|].
  eapply wp_mono; [apply (mmap_munmap_roundtrip example_root ∅ 0 5000 1 0x22 (-1) 0 (blank_pages v) Hv);
    [lia | by vm_compute | by apply example_in_memory]|].
  intros r s' (Hr & Hv' & _). by split.
Defined.
End PosixMemoryWitnesses.
