(* ===== verification/PosixStubs.v ===== *)
(** * PosixStubs: the fallbacks of the POSIX interface

    [posix/stubs.cpp] with its table [posix/symbols.def], [kernel/runtime/posix/stub_impl.cpp] and
    [kernel/time/posix/stub_impl.cpp].  The macro of the table defines a function per symbol; here a symbol is a
    value, and [call_stub] is the function's body.  A program that links a definition of its own gets that one: the
    definitions are weak. *)

From S2P Require Import Prelude Containers Format Emit FormatFacts Exceptions PanicFacts Posix.

(** What a fallback returns. *)
Inductive stub_value : Type :=
| Returns (v : Z)
| ReturnsText (l : list char)
| ReturnsNothing.

Record posix_stub : Type := { stub_name : string; stub_value_of : stub_value; stub_errno : Z }.

#[export] Instance stub_value_eq_dec : EqDecision stub_value := ltac:(solve_decision).
#[export] Instance posix_stub_eq_dec : EqDecision posix_stub := ltac:(solve_decision).

Definition stub (name : string) (value : stub_value) (error : Z) : posix_stub :=
  {| stub_name := name; stub_value_of := value; stub_errno := error |}.

(** The table; an errno of 0 leaves it alone. *)
Definition posix_symbols : list posix_stub := [
  stub "fork" (Returns (-1)) ENOSYS; stub "execvp" (Returns (-1)) ENOSYS; stub "waitpid" (Returns (-1)) ENOSYS;
  stub "waitid" (Returns (-1)) ENOSYS; stub "pause" (Returns (-1)) ENOSYS; stub "getppid" (Returns (-1)) ENOSYS;
  stub "getuid" (Returns (u32 (-1))) ENOSYS; stub "setuid" (Returns (-1)) ENOSYS; stub "setgid" (Returns (-1)) ENOSYS;
  stub "setgroups" (Returns (-1)) ENOSYS; stub "setpgid" (Returns (-1)) ENOSYS; stub "setsid" (Returns (-1)) ENOSYS;
  stub "sched_yield" (Returns (-1)) ENOSYS; stub "sched_getaffinity" (Returns (-1)) ENOSYS;
  stub "poll" (Returns (-1)) ENOSYS; stub "isatty" (Returns 0) 0; stub "getpid" (Returns 1) 0;
  stub "kill" (Returns (-1)) EINVAL; stub "pthread_attr_destroy" (Returns 0) 0;
  stub "pthread_attr_getguardsize" (Returns 0) 0; stub "pthread_attr_getstack" (Returns 0) 0;
  stub "pthread_attr_init" (Returns 0) 0; stub "pthread_attr_setstacksize" (Returns 0) 0;
  stub "pthread_create" (Returns (-1)) ENOSYS; stub "pthread_detach" (Returns (-1)) ENOSYS;
  stub "pthread_getattr_np" (Returns (-1)) ENOSYS; stub "pthread_join" (Returns (-1)) ENOSYS;
  stub "pthread_key_create" (Returns (-1)) ENOSYS; stub "pthread_key_delete" (Returns (-1)) ENOSYS;
  stub "pthread_self" (Returns (u64 (-1))) ENOSYS; stub "pthread_setname_np" (Returns (-1)) ENOSYS;
  stub "pthread_setspecific" (Returns (-1)) ENOSYS; stub "open" (Returns (-1)) ENOSYS;
  stub "openat" (Returns (-1)) ENOSYS; stub "read" (Returns (-1)) EBADF; stub "write" (Returns (-1)) EBADF;
  stub "readv" (Returns (-1)) EBADF; stub "writev" (Returns (-1)) EBADF; stub "close" (Returns (-1)) EBADF;
  stub "lseek" (Returns (-1)) EBADF; stub "fstat" (Returns (-1)) EBADF; stub "fcntl" (Returns (-1)) ENOSYS;
  stub "ftruncate" (Returns (-1)) ENOSYS; stub "pread" (Returns (-1)) ENOSYS; stub "pwrite" (Returns (-1)) ENOSYS;
  stub "preadv" (Returns (-1)) ENOSYS; stub "pwritev" (Returns (-1)) ENOSYS; stub "dup" (Returns (-1)) ENOSYS;
  stub "dup2" (Returns (-1)) ENOSYS; stub "pipe2" (Returns (-1)) ENOSYS; stub "ioctl" (Returns (-1)) ENOSYS;
  stub "flock" (Returns (-1)) ENOSYS; stub "fsync" (Returns (-1)) ENOSYS; stub "fdatasync" (Returns (-1)) ENOSYS;
  stub "sendfile" (Returns (-1)) ENOSYS; stub "splice" (Returns (-1)) ENOSYS; stub "readlink" (Returns (-1)) ENOSYS;
  stub "rename" (Returns (-1)) ENOSYS; stub "unlink" (Returns (-1)) ENOSYS; stub "unlinkat" (Returns (-1)) ENOSYS;
  stub "linkat" (Returns (-1)) ENOSYS; stub "symlink" (Returns (-1)) ENOSYS; stub "mkdir" (Returns (-1)) ENOSYS;
  stub "rmdir" (Returns (-1)) ENOSYS; stub "mkfifo" (Returns (-1)) ENOSYS; stub "chdir" (Returns (-1)) ENOSYS;
  stub "chmod" (Returns (-1)) ENOSYS; stub "fchmod" (Returns (-1)) ENOSYS; stub "chown" (Returns (-1)) ENOSYS;
  stub "fchown" (Returns (-1)) ENOSYS; stub "lchown" (Returns (-1)) ENOSYS; stub "chroot" (Returns (-1)) ENOSYS;
  stub "getcwd" (Returns 0) ENOSYS; stub "utimensat" (Returns (-1)) ENOSYS; stub "futimens" (Returns (-1)) ENOSYS;
  stub "opendir" (Returns 0) ENOSYS; stub "fdopendir" (Returns 0) ENOSYS; stub "closedir" (Returns (-1)) ENOSYS;
  stub "readdir" (Returns 0) ENOSYS; stub "dirfd" (Returns (-1)) ENOSYS; stub "sbrk" (Returns (u64 (-1))) ENOMEM;
  stub "mmap" (Returns (u64 (-1))) ENOSYS; stub "munmap" (Returns (-1)) ENOSYS; stub "mprotect" (Returns (-1)) ENOSYS;
  stub "mremap" (Returns (u64 (-1))) ENOMEM; stub "clock_gettime" (Returns (-1)) ENOSYS;
  stub "gettimeofday" (Returns (-1)) ENOSYS; stub "nanosleep" (Returns (-1)) ENOSYS;
  stub "getrandom" (Returns (-1)) ENOSYS; stub "getentropy" (Returns (-1)) EIO; stub "socket" (Returns (-1)) ENOSYS;
  stub "socketpair" (Returns (-1)) ENOSYS; stub "bind" (Returns (-1)) ENOSYS; stub "listen" (Returns (-1)) ENOSYS;
  stub "connect" (Returns (-1)) ENOSYS; stub "accept4" (Returns (-1)) ENOSYS; stub "send" (Returns (-1)) ENOSYS;
  stub "sendto" (Returns (-1)) ENOSYS; stub "sendmsg" (Returns (-1)) ENOSYS; stub "recv" (Returns (-1)) ENOSYS;
  stub "recvfrom" (Returns (-1)) ENOSYS; stub "recvmsg" (Returns (-1)) ENOSYS; stub "shutdown" (Returns (-1)) ENOSYS;
  stub "getsockname" (Returns (-1)) ENOSYS; stub "getpeername" (Returns (-1)) ENOSYS;
  stub "getsockopt" (Returns (-1)) ENOSYS; stub "setsockopt" (Returns (-1)) ENOSYS;
  stub "getaddrinfo" (Returns (-1)) ENOSYS; stub "freeaddrinfo" (ReturnsNothing) 0;
  stub "gai_strerror" (ReturnsText (chars "address resolution is not implemented")) 0;
  stub "gethostname" (Returns (-1)) ENOSYS; stub "dl_iterate_phdr" (Returns (-1)) ENOSYS;
  stub "dlsym" (Returns 0) ENOSYS
].

(** The static [reported_m] of each function, as the names for which it is set. *)
Record fallbacks : Type := { reported : gset string; fallback_errno : Z; fallback_output : console }.

Definition set_reported x s :=
  {| reported := x; fallback_errno := fallback_errno s; fallback_output := fallback_output s |}.
Definition set_fallback_errno x s :=
  {| reported := reported s; fallback_errno := x; fallback_output := fallback_output s |}.
Definition set_fallback_output x s :=
  {| reported := reported s; fallback_errno := fallback_errno s; fallback_output := x |}.

Definition on_output (m : kernel console unit) : kernel fallbacks unit := zoom fallback_output set_fallback_output m.

Definition report_once (name : string) : kernel fallbacks bool :=
  done_ ← gets (fun s => bool_decide (name ∈ reported s));
  when (negb done_)
    (modify (fun s => set_reported ({[name]} ∪ reported s) s);;
     on_output (kprintln_ct (chars "[posix] fallback: {}") [c_string (chars name)]));;
  mret true.

Definition call_stub (f : posix_stub) : kernel fallbacks stub_value :=
  report_once (stub_name f);;
  when (negb (stub_errno f =? 0)) (modify (set_fallback_errno (stub_errno f)));;
  mret (stub_value_of f).

(** Calls of fallbacks, one after the other. *)
Fixpoint call_stubs (l : list posix_stub) : kernel fallbacks (list stub_value) :=
  match l with
  | [] => mret []
  | f :: l => v ← call_stub f; vs ← call_stubs l; mret (v :: vs)
  end.

Definition refuse (error : Z) : kernel fallbacks Z := modify (set_fallback_errno error);; mret (-1).

(** ** The calls that are more than an entry of the table *)

Definition app_exited (status : Z) : kernel console unit :=
  kprintln_ct (chars "[app] exited with status {}") [VSigned status].

(** [halt] never returns. *)
Definition _exit (status : Z) : kernel fallbacks unit := on_output (app_exited status);; diverge.
Definition _Exit (status : Z) : kernel fallbacks unit := _exit status.
Definition exit (status : Z) : kernel fallbacks unit := _exit status.
Definition abort : kernel fallbacks unit := Prelude.kpanic "abort() called".

Definition getauxval (_type : Z) : kernel fallbacks Z := mret 0.
Definition __getauxval (type : Z) : kernel fallbacks Z := getauxval type.

Definition SC_PAGESIZE : Z := 30.
Definition SC_NPROCESSORS_ONLN : Z := 84.

Definition sysconf (name : Z) : kernel fallbacks Z :=
  if name =? SC_PAGESIZE then mret 4096
  else if name =? SC_NPROCESSORS_ONLN then mret 1
  else refuse EINVAL.

Definition syscall (number : Z) : kernel fallbacks Z :=
  on_output (kprintln_ct (chars "[musl] unsupported syscall {}") [VSigned number]);;
  refuse ENOSYS.

Definition __tls_get_addr (_descriptor : Z) : kernel fallbacks Z :=
  Prelude.kpanic "__tls_get_addr: thread-local storage is not set up yet".
Definition rust_eh_personality : kernel fallbacks Z := Prelude.kpanic "rust_eh_personality: nothing unwinds in this image".

(** [kernel/runtime/posix]: there is one process, and it has a console. *)
Definition isatty (fd : Z) : kernel fallbacks Z := mret (if is_console fd then 1 else 0).
Definition getpid : kernel fallbacks Z := mret 1.
Definition kill (_pid _signal : Z) : kernel fallbacks Z := refuse EINVAL.
Definition environ : list text := [None].

(** [kernel/time/posix]: there is no clock. *)
Definition clock_gettime (_clock _out : Z) : kernel fallbacks Z := refuse ENOSYS.
Definition gettimeofday (_out _timezone : Z) : kernel fallbacks Z := refuse ENOSYS.
Definition nanosleep (_requested _remaining : Z) : kernel fallbacks Z := refuse ENOSYS.

(** ** What the fallbacks promise *)

(** The line of a fallback. *)
Definition fallback_line (name : string) : list char := chars "[posix] fallback: " ++ chars name ++ [10].

(** The names of a sequence of calls that are used for the first time, in order. *)
Fixpoint first_uses (seen : gset string) (l : list posix_stub) : list string :=
  match l with
  | [] => []
  | f :: l =>
      if decide (stub_name f ∈ seen) then first_uses seen l
      else stub_name f :: first_uses ({[stub_name f]} ∪ seen) l
  end.

(** The errno after a sequence of calls. *)
Definition errno_after (l : list posix_stub) (e : Z) : Z :=
  fold_left (fun e f => if stub_errno f =? 0 then e else stub_errno f) l e.

Definition names (l : list posix_stub) : gset string := list_to_set (stub_name <$> l).

(** The names that print. *)
Definition nameable (f : posix_stub) : Prop := string_arg (chars (stub_name f)).

Lemma outputs_fallback name :
  string_arg (chars name) ->
  outputs (kprintln_ct (chars "[posix] fallback: {}") [c_string (chars name)]) (fallback_line name).
Proof.
  intros Hn. unfold fallback_line. rewrite app_assoc. unfold c_string. apply outputs_line.
  - etransitivity; [render_fields; eauto with nocore fields|]. by rewrite app_nil_r.
  - apply Forall_cons. split; [by apply typed_string | done].
Qed.

Lemma wp_report_once name (Q : bool -> fallbacks -> Prop) s :
  string_arg (chars name) ->
  (forall c, passes (fallback_output s) c (if decide (name ∈ reported s) then [] else fallback_line name) ->
    Q true {| reported := {[name]} ∪ reported s; fallback_errno := fallback_errno s; fallback_output := c |}) ->
  wp (report_once name) Q s.
Proof.
  intros Hn HQ. apply wp_bind, wp_gets. destruct (decide (name ∈ reported s)) as [Hin|Hout].
  - rewrite bool_decide_true by done. apply wp_bind, wp_ret, wp_ret. specialize (HQ (fallback_output s) (passes_nil _)).
    assert (E : {[name]} ∪ reported s = reported s) by set_solver. rewrite E in HQ. by destruct s.
  - rewrite bool_decide_false by done. cbn [negb when]. apply wp_bind, wp_bind, wp_modify, wp_zoom.
    eapply wp_mono; [by apply outputs_fallback|]. intros [] c Hc. apply wp_ret. by apply HQ.
Qed.

Lemma wp_call_stub f (Q : stub_value -> fallbacks -> Prop) s :
  nameable f ->
  (forall c, passes (fallback_output s) c (if decide (stub_name f ∈ reported s) then [] else fallback_line (stub_name f)) ->
    Q (stub_value_of f) {| reported := {[stub_name f]} ∪ reported s;
      fallback_errno := errno_after [f] (fallback_errno s); fallback_output := c |}) ->
  wp (call_stub f) Q s.
Proof.
  intros Hn HQ. apply wp_bind, wp_report_once; [done|]. intros c Hc. specialize (HQ c Hc). cbn [errno_after fold_left] in HQ.
  apply wp_bind. destruct (stub_errno f =? 0); [by apply wp_ret, wp_ret | by apply wp_modify, wp_ret].
Qed.

Lemma wp_call_stubs l s :
  Forall nameable l ->
  wp (call_stubs l) (fun vs s' => vs = stub_value_of <$> l /\ reported s' = names l ∪ reported s /\
    fallback_errno s' = errno_after l (fallback_errno s) /\
    passes (fallback_output s) (fallback_output s') (concat (fallback_line <$> first_uses (reported s) l))) s.
Proof.
  intros Hl. revert s. induction Hl as [|f l Hf _ IH]; intros s.
  { apply wp_ret. split; [done|]. split; [unfold names; cbn; set_solver|]. split; [done | apply passes_nil]. }
  apply wp_bind, wp_call_stub; [done|]. intros c Hc. set (s1 := {| reported := _ |}).
  apply wp_bind. eapply wp_mono; [apply (IH s1)|]. intros vs s' (-> & Hr & He & Ho). apply wp_ret.
  split; [done|]. split; [|split; [exact He|]].
  - rewrite Hr. unfold names. cbn. set_solver.
  - cbn [reported fallback_output s1] in Ho. cbn [first_uses]. destruct (decide (stub_name f ∈ reported s)) as [Hin|Hout].
    + assert (E : {[stub_name f]} ∪ reported s = reported s) by set_solver. rewrite E in Ho.
      exact (passes_app _ _ _ _ _ Hc Ho).
    + cbn [fmap list_fmap concat]. exact (passes_app _ _ _ _ _ Hc Ho).
Qed.

(** No symbol is defined twice, and each name prints. *)
Lemma symbols_distinct : NoDup (stub_name <$> posix_symbols).
Proof. refine (bool_decide_unpack _ _). by vm_compute. Qed.

Definition short_name (f : posix_stub) : bool :=
  forallb (fun c => negb (c =? NUL)) (chars (stub_name f)) && (zlen (chars (stub_name f)) <? 64).

Lemma symbols_nameable : Forall nameable posix_symbols.
Proof.
  assert (Hshort : Forall short_name posix_symbols) by (apply forallb_True; by vm_compute).
  eapply Forall_impl; [exact Hshort|]. intros f Hf%Is_true_true%andb_true_iff. destruct Hf as [Hn Hl]. split; [|lia].
  apply Forall_forall. intros c Hc. rewrite forallb_forall in Hn. apply list_elem_of_In in Hc. specialize (Hn c Hc). lia.
Qed.

(** C40: Any calls of the table's functions, in any order: each answers its value, [errno] is that of the last one that
    has one, and what is printed is one line for each function at its first call, in the order of the calls. *)
Theorem fallbacks_report_once l s :
  l ⊆ posix_symbols ->
  wp (call_stubs l) (fun vs s' => vs = stub_value_of <$> l /\ reported s' = names l ∪ reported s /\
    fallback_errno s' = errno_after l (fallback_errno s) /\
    passes (fallback_output s) (fallback_output s') (concat (fallback_line <$> first_uses (reported s) l))) s.
Proof.
  intros Hl. apply wp_call_stubs, Forall_forall. intros f Hf. by apply (proj1 (Forall_forall _ _) symbols_nameable), Hl.
Qed.

(** The application's end: the status is printed, and the call does not return. *)
Lemma exit_never_returns status s : - 2 ^ 31 <= status < 2 ^ 31 ->
  outputs (app_exited status) (chars "[app] exited with status " ++ number status ++ [10]) /\
  exit status s = Diverge.
Proof.
  intros Hs. assert (Ho : outputs (app_exited status) (chars "[app] exited with status " ++ number status ++ [10])).
  { unfold app_exited. rewrite app_assoc. apply outputs_line; [|apply Forall_cons; split; [cbn [typed]; lia | done]].
    etransitivity; [render_fields; eauto with nocore fields|]. by rewrite app_nil_r. }
  split; [exact Ho|]. destruct (wp_elim _ _ _ (Ho (fallback_output s))) as (u & c & E & _).
  unfold exit, _exit, on_output, mbind, kernel_bind, zoom. by rewrite E.
Qed.

(** ** The properties at work *)

Lemma fallbacks_report_once_witness :
  let fork := stub "fork" (Returns (-1)) ENOSYS in let mremap := stub "mremap" (Returns (u64 (-1))) ENOMEM in
  wp (call_stubs [fork; mremap; fork]) (fun vs s' =>
    vs = [Returns (-1); Returns (u64 (-1)); Returns (-1)] /\ fallback_errno s' = ENOSYS /\
    printed (fallback_output s') = fallback_line "fork" ++ fallback_line "mremap")
    {| reported := ∅; fallback_errno := 0; fallback_output := {| m_sink := 1; calls := [] |} |}.
Proof.
  intros fork mremap. eapply wp_mono; [apply (fallbacks_report_once [fork; mremap; fork])|].
  - intros f Hf. apply (bool_decide_unpack _).
    do 3 (apply elem_of_cons in Hf; destruct Hf as [->|Hf]; [by vm_compute|]). by apply elem_of_nil in Hf.
  - intros vs s' (-> & _ & He & Ho). split; [done|]. split; [done|]. apply passes_printed in Ho. rewrite Ho. by vm_compute.
Defined.

