(* ===== verification/Random.v ===== *)
(** * Random: random numbers for the application, [kernel/random/posix/stub_impl.cpp]

    The processor's random numbers are an input, a sequence of answers of [rdrand], each a word and whether it is one
    (class [random_source]).  The calls take eight bytes of each word in turn; the specification is that sequence
    of bytes. *)

From S2P Require Import Prelude Containers Memory Cpu Runtime RuntimeFacts Posix.

(** The answer of the [n]-th execution of [rdrand]. *)
Class random_source : Type := { draw : nat -> Z * bool }.

Record random : Type := { drawn : nat; random_bytes : memory; random_errno : Z }.

Definition set_random_bytes x s := {| drawn := drawn s; random_bytes := x; random_errno := random_errno s |}.
Definition set_random_errno x s := {| drawn := drawn s; random_bytes := random_bytes s; random_errno := x |}.

Definition CPUID_FEATURE_LEAF : Z := 1.
Definition CPUID_ECX_RDRAND : Z := Z.shiftl 1 30.
Definition RDRAND_ATTEMPTS : Z := 10.

Section Random.
Context `{machine} `{random_source}.

Definition rdrand_supported : bool :=
  if eax (cpuid 0 0) <? CPUID_FEATURE_LEAF then false
  else negb (Z.land (ecx (cpuid CPUID_FEATURE_LEAF 0)) CPUID_ECX_RDRAND =? 0).

Definition rdrand : kernel random (Z * bool) := fun s =>
  Ret (draw (drawn s), {| drawn := S (drawn s); random_bytes := random_bytes s; random_errno := random_errno s |}).

(** [None] is the failure of all attempts. *)
Definition rdrand64 : kernel random (option Z) :=
  scan_range 0 RDRAND_ATTEMPTS (fun _ =>
    r ← rdrand; mret (if snd r : bool then Some (fst r) else None)).

(** The loop of [getrandom]: [done] bytes are written; [false] is the return with [EIO].  Each round writes a byte
    at least, so that [length + 1] rounds are enough. *)
Definition fill_random (buffer length : Z) : kernel random (Z * bool) :=
  while (Z.to_nat (length + 1))
    (fun '(done_, ok) => mret (ok && (done_ <? length)))
    (fun '(done_, _) =>
       word ← rdrand64;
       match word with
       | None => modify (set_random_errno EIO);; mret (done_, false)
       | Some word =>
           let chunk := if u64 (length - done_) <? 8 then u64 (length - done_) else 8 in
           for_range 0 chunk (fun i =>
             zoom random_bytes set_random_bytes (store8 (buffer + (done_ + i)) (u8 (Z.shiftr word (i * 8)))));;
           mret (u64 (done_ + chunk), true)
       end)
    (0, true).

(** The flags are not used. *)
Definition getrandom (buffer length _flags : Z) : kernel random Z :=
  if buffer =? 0 then modify (set_random_errno EFAULT);; mret (-1)
  else if negb rdrand_supported then modify (set_random_errno ENOSYS);; mret (-1)
  else
    r ← fill_random buffer length;
    let '(done_, ok) := r : Z * bool in
    mret (if ok then i64 done_ else -1).

Definition getentropy (buffer length : Z) : kernel random Z :=
  if 256 <? length then modify (set_random_errno EIO);; mret (-1)
  else r ← getrandom buffer length 0; mret (if r <? 0 then -1 else 0).

(** ** The specification *)

(** The first of [k] answers from the [n]-th on that is a word, and the number of the answer after it. *)
Fixpoint next_word (k n : nat) : option Z * nat :=
  match k with
  | O => (None, n)
  | S k' => if snd (draw n) then (Some (fst (draw n)), S n) else next_word k' (S n)
  end.

(** The bytes that [length] bytes from the [n]-th answer on are, as far as there are words; whether there were
    enough; and the number of the next answer.  [k] bounds the number of words. *)
Fixpoint stream (k n : nat) (length : Z) : list Z * bool * nat :=
  match k with
  | O => ([], true, n)
  | S k' =>
      if length <=? 0 then ([], true, n)
      else
        match next_word (Z.to_nat RDRAND_ATTEMPTS) n with
        | (None, n') => ([], false, n')
        | (Some w, n') =>
            let '(rest, ok, n'') := stream k' n' (length - 8) in
            (firstn (Z.to_nat length) (little_endian 8 w) ++ rest, ok, n'')
        end
  end.

(** ** The proof *)

Definition set_drawn n s := {| drawn := n; random_bytes := random_bytes s; random_errno := random_errno s |}.

Lemma rdrand64_run s :
  rdrand64 s = Ret (fst (next_word (Z.to_nat RDRAND_ATTEMPTS) (drawn s)),
    set_drawn (snd (next_word (Z.to_nat RDRAND_ATTEMPTS) (drawn s))) s).
Proof.
  unfold rdrand64, scan_range. replace (RDRAND_ATTEMPTS - 0) with RDRAND_ATTEMPTS by lia.
  generalize (Z.to_nat RDRAND_ATTEMPTS) 0. intros k. revert s. induction k as [|k IH]; intros s i; cbn [scan_count next_word].
  - by destruct s.
  - unfold mbind at 1, kernel_bind at 1. unfold mbind at 1, kernel_bind at 1, rdrand. cbn [fst snd].
    unfold mret at 1, kernel_ret at 1. destruct (draw (drawn s)) as [w []]; cbn [fst snd]; [by destruct s|].
    by rewrite IH.
Qed.

Lemma little_endian_at k w i : (i < k)%nat -> little_endian k w !! i = Some (u8 (Z.shiftr w (8 * Z.of_nat i))).
Proof.
  revert w i. induction k as [|k IH]; intros w i Hi; [lia|]. cbn [little_endian]. destruct i as [|i].
  - by rewrite Z.shiftr_0_r.
  - cbn [lookup list_lookup]. change (little_endian k (w / 256) !! i = Some (u8 (Z.shiftr w (8 * Z.of_nat (S i))))).
    rewrite IH by lia. do 2 f_equal. rewrite !Z.shiftr_div_pow2 by lia. change 256 with (2 ^ 8).
    rewrite Z.div_div, <- Z.pow_add_r by lia. do 2 f_equal. lia.
Qed.

Lemma length_little_endian k w : length (little_endian k w) = k.
Proof. revert w. induction k as [|k IH]; intros w; [done|]. cbn. by rewrite IH. Qed.

(** The bytes of a list written one after the other. *)
Definition written (m : memory) (a : Z) (l : list Z) : memory := write_range m a (zlen l) (znth l).

Lemma written_app m a l1 l2 m' m'' :
  same m' (written m a l1) -> same m'' (written m' (a + zlen l1) l2) -> same m'' (written m a (l1 ++ l2)).
Proof.
  intros H1 H2 x. rewrite H2. unfold written, write_range in *. rewrite zlen_app.
  pose proof (zlen_nonneg l1). pose proof (zlen_nonneg l2).
  destruct ((a + zlen l1 <=? x) && (x <? a + zlen l1 + zlen l2)) eqn:E.
  - destruct ((a <=? x) && (x <? a + (zlen l1 + zlen l2))) eqn:E'; [|lia]. f_equal.
    unfold znth. rewrite lookup_total_app_r by (unfold zlen in *; lia). f_equal. unfold zlen in *. lia.
  - rewrite H1. unfold write_range. destruct ((a <=? x) && (x <? a + zlen l1)) eqn:E1.
    + destruct ((a <=? x) && (x <? a + (zlen l1 + zlen l2))) eqn:E2; [|lia]. f_equal.
      unfold znth. by rewrite lookup_total_app_l by (unfold zlen in *; lia).
    + destruct ((a <=? x) && (x <? a + (zlen l1 + zlen l2))) eqn:E2; [lia | done].
Qed.

Lemma wp_write_word buffer off n w (Q : unit -> random -> Prop) s :
  0 <= n <= 8 -> mapped (random_bytes s) (buffer + off) (buffer + off + n) ->
  (forall m, same m (written (random_bytes s) (buffer + off) (firstn (Z.to_nat n) (little_endian 8 w))) ->
    Q tt (set_random_bytes m s)) ->
  wp (for_range 0 n (fun i =>
        zoom random_bytes set_random_bytes (store8 (buffer + (off + i)) (u8 (Z.shiftr w (i * 8)))))) Q s.
Proof.
  intros Hn Hm HQ. set (l := little_endian 8 w) in *.
  apply (wp_for_range (fun i s' => exists m, s' = set_random_bytes m s /\
    same m (write_range (random_bytes s) (buffer + off) i (fun j => u8 (Z.shiftr w (j * 8)))))).
  - exists (random_bytes s). split; [by destruct s|]. intros a. unfold write_range. destruct (_ && _) eqn:E; [lia | done].
  - intros i s' Hi (m & -> & Hsame). rewrite Z.add_assoc. apply wp_zoom, wp_store8.
    + eapply mapped_write; [exact Hm | exact Hsame | lia].
    + eexists. split; [reflexivity|]. by apply write_range_step; [lia | done|].
  - intros s' (m & -> & Hsame). rewrite Z.max_r in Hsame by lia. apply HQ. intros a. rewrite Hsame. unfold written, write_range.
    assert (Hlen : zlen (firstn (Z.to_nat n) l) = n).
    { unfold zlen, l. rewrite length_take, length_little_endian. lia. }
    rewrite Hlen. destruct (_ && _) eqn:E; [|done]. f_equal. unfold znth.
    assert (Hat : firstn (Z.to_nat n) l !! Z.to_nat (a - (buffer + off)) = Some (u8 (Z.shiftr w ((a - (buffer + off)) * 8)))).
    { rewrite lookup_take_lt by lia. unfold l. rewrite little_endian_at by lia. do 2 f_equal.
      f_equal. lia. }
    symmetry. by apply list_lookup_total_correct.
Qed.

Lemma stream_done k n length : length <= 0 -> stream k n length = ([], true, n).
Proof. intros Hl. destruct k; [done|]. cbn [stream]. by destruct (Z.leb_spec length 0); [|lia]. Qed.

Lemma zlen_word rem w : 0 < rem -> zlen (firstn (Z.to_nat rem) (little_endian 8 w)) = Z.min rem 8.
Proof. intros Hr. unfold zlen. rewrite length_take, length_little_endian. lia. Qed.

Lemma stream_length k : forall n length, 0 <= length -> length <= 8 * Z.of_nat k ->
  let '(l, ok, _) := stream k n length in if ok : bool then zlen l = length else zlen l < length.
Proof.
  induction k as [|k IH]; intros n length Hl0 Hk; [cbn [stream]; change (zlen []) with 0; lia|]. destruct (Z.leb_spec length 0) as [|Hpos].
  { rewrite stream_done by lia. change (zlen []) with 0. lia. }
  cbn [stream]. destruct (Z.leb_spec length 0); [lia|]. destruct (next_word _ n) as [[w|] n']; [|change (zlen []) with 0; lia].
  destruct (Z.le_gt_cases length 8).
  - rewrite stream_done by lia. rewrite zlen_app, zlen_word by lia. change (zlen []) with 0. lia.
  - specialize (IH n' (length - 8) ltac:(lia) ltac:(lia)). destruct (stream k n' (length - 8)) as [[rest ok] n''].
    rewrite zlen_app, zlen_word by lia. destruct ok; lia.
Qed.

Lemma written_nil m a : same m (written m a []).
Proof.
  intros x. unfold written, write_range. change (zlen []) with 0. destruct (_ && _) eqn:E; [lia | done].
Qed.

(** What the loop has written, and where it stopped. *)
Definition filled (s : random) (buffer done_ length : Z) (k : nat) (r : Z * bool) (s' : random) : Prop :=
  let '(l, ok, n) := stream k (drawn s) (length - done_) in
  r = (done_ + zlen l, ok) /\ drawn s' = n /\
  random_errno s' = (if ok : bool then random_errno s else EIO) /\
  same (random_bytes s') (written (random_bytes s) (buffer + done_) l).

Lemma wp_fill_loop buffer length fuel : forall k done_ s,
  0 <= done_ <= length -> length < 2 ^ 64 -> length - done_ < Z.of_nat fuel -> length - done_ <= 8 * Z.of_nat k ->
  mapped (random_bytes s) buffer (buffer + length) ->
  wp (while fuel
    (fun '(done_, ok) => mret (ok && (done_ <? length)))
    (fun '(done_, _) =>
       word ← rdrand64;
       match word with
       | None => modify (set_random_errno EIO);; mret (done_, false)
       | Some word =>
           let chunk := if u64 (length - done_) <? 8 then u64 (length - done_) else 8 in
           for_range 0 chunk (fun i =>
             zoom random_bytes set_random_bytes (store8 (buffer + (done_ + i)) (u8 (Z.shiftr word (i * 8)))));;
           mret (u64 (done_ + chunk), true)
       end)
    (done_, true)) (filled s buffer done_ length k) s.
Proof.
  induction fuel as [|fuel IH]; intros k done_ s Hdone Hlen Hfuel Hk Hm; [lia|]. cbn [while].
  apply wp_bind, wp_ret. destruct (Z.ltb_spec done_ length) as [Hlt|Hge]; cbn [andb].
  2:{ apply wp_ret. unfold filled. rewrite stream_done by lia. split; [f_equal; change (zlen []) with 0; lia|]. split; [done|].
      split; [done|]. apply written_nil. }
  destruct k as [|k]; [lia|]. unfold filled. cbn [stream]. destruct (Z.leb_spec (length - done_) 0); [lia|].
  apply wp_bind, wp_bind. eapply wp_intro; [apply rdrand64_run|].
  destruct (next_word (Z.to_nat RDRAND_ATTEMPTS) (drawn s)) as [[w|] n]; cbn [fst snd].
  - assert (Hu : u64 (length - done_) = length - done_) by (apply wrap_small; unfold in_width; lia). rewrite Hu.
    replace (if length - done_ <? 8 then length - done_ else 8) with (Z.min (length - done_) 8)
      by (destruct (Z.ltb_spec (length - done_) 8); lia).
    set (chunk := Z.min (length - done_) 8). cbv zeta. apply wp_bind, wp_write_word; [lia | |].
    { intros a Ha. apply Hm. lia. }
    intros m Hsame. cbn [random_bytes set_drawn] in Hsame. apply wp_ret. unfold u64. rewrite wrap_small by (unfold in_width; lia).
    set (l := firstn (Z.to_nat (length - done_)) (little_endian 8 w)).
    assert (Hl : zlen l = chunk) by (apply zlen_word; lia).
    replace (firstn (Z.to_nat chunk) (little_endian 8 w)) with l in Hsame.
    2:{ unfold l, chunk. destruct (Z.le_gt_cases (length - done_) 8); [by rewrite Z.min_l by lia|].
        rewrite Z.min_r, !firstn_all2 by (rewrite ?length_little_endian; lia). done. }
    set (s1 := set_random_bytes m (set_drawn n s)).
    eapply wp_mono; [apply (IH k (done_ + chunk) s1); try lia|].
    + eapply mapped_write; [exact Hm | exact Hsame].
    + intros r s' Hr. unfold filled in Hr. change (drawn s1) with n in Hr. change (random_errno s1) with (random_errno s) in Hr.
      change (random_bytes s1) with m in Hr.
      assert (Heq : stream k n (length - done_ - 8) = stream k n (length - (done_ + chunk))).
      { destruct (Z.le_gt_cases (length - done_) 8); [by rewrite !stream_done by lia|]. f_equal. lia. }
      rewrite Heq. destruct (stream k n (length - (done_ + chunk))) as [[rest ok] n']. destruct Hr as (-> & Hn & He & Hb).
      split; [f_equal; rewrite zlen_app; lia|]. split; [done|]. split; [done|].
      eapply (written_app _ _ l rest m); [exact Hsame|]. rewrite Hl. by replace (buffer + done_ + chunk) with (buffer + (done_ + chunk)) by lia.
  - apply wp_bind, wp_modify, wp_ret. destruct fuel as [|fuel]; [lia|]. cbn [while]. apply wp_bind, wp_ret, wp_ret.
    split; [f_equal; change (zlen []) with 0; lia|]. split; [done|]. split; [done|].
    apply written_nil.
Qed.

(** C37: Random bytes.  A null buffer and a processor without [rdrand] are refused.  Otherwise the buffer gets the bytes of
    the random words, in their order and each used once, and nothing else changes; when the processor has no word
    in ten attempts the call fails, with what it has written so far, and an error.  It always returns. *)
Theorem getrandom_correct buffer length fl s :
  0 <= length < 2 ^ 63 -> mapped (random_bytes s) buffer (buffer + length) ->
  wp (getrandom buffer length fl) (fun r s' =>
    if buffer =? 0 then r = -1 /\ s' = set_random_errno EFAULT s
    else if negb rdrand_supported then r = -1 /\ s' = set_random_errno ENOSYS s
    else let '(l, ok, n) := stream (Z.to_nat length) (drawn s) length in
      drawn s' = n /\ same (random_bytes s') (written (random_bytes s) buffer l) /\
      if ok then r = length /\ zlen l = length /\ random_errno s' = random_errno s
      else r = -1 /\ zlen l < length /\ random_errno s' = EIO) s.
Proof.
  intros Hlen Hm. unfold getrandom. destruct (buffer =? 0); [by apply wp_bind, wp_modify, wp_ret|].
  destruct (negb rdrand_supported); [by apply wp_bind, wp_modify, wp_ret|].
  apply wp_bind. eapply wp_mono; [apply (wp_fill_loop buffer length _ (Z.to_nat length)); [lia | lia | lia | lia | done]|].
  intros r s' Hr. unfold filled in Hr. rewrite Z.sub_0_r in Hr.
  pose proof (stream_length (Z.to_nat length) (drawn s) length) as Hsl.
  destruct (stream _ _ length) as [[l ok] n]. destruct Hr as (-> & Hn & He & Hb). apply wp_ret.
  rewrite Z.add_0_r in Hb. split; [done|]. split; [done|]. specialize (Hsl ltac:(lia) ltac:(lia)).
  destruct ok; [|done]. rewrite Hsl. split; [|done]. rewrite Z.add_0_l.
  unfold i64, u64. rewrite wrap_small by (unfold in_width; lia). by destruct (Z.ltb_spec length (2 ^ 63)); [|lia].
Qed.


End Random.

(** ** The property at work *)
Section RandomWitnesses.

(** A processor with [rdrand] whose every third answer is a word. *)
#[local] Instance example_machine : machine := {|
  cpuid leaf _ := {| eax := 7; ebx := 0; ecx := Z.shiftl 1 30; edx := 0 |} |}.
#[local] Instance example_source : random_source := {|
  draw n := (0x0807060504030201 + Z.of_nat n, Nat.eqb (Nat.modulo n 3) 2) |}.

Definition empty_buffer : random :=
  {| drawn := 0; random_bytes := image_at 0x100 (replicate 16 0); random_errno := 0 |}.

Lemma getrandom_correct_witness :
  wp (getrandom 0x100 10 0) (fun r s' => r = 10 /\ drawn s' = 6%nat /\
    byte_at (random_bytes s') 0x101 = 2 /\ byte_at (random_bytes s') 0x108 = 6) empty_buffer.
Proof.
  eapply wp_mono; [apply (getrandom_correct 0x100 10 0 empty_buffer); [lia|]|].
  - intros a Ha. apply (mapped_image 0x100 (replicate 16 0) 0x110); [reflexivity | lia].
  - intros r s' Hr. change (0x100 =? 0) with false in Hr. change (negb rdrand_supported) with false in Hr. cbn beta iota in Hr.
    change (stream (Z.to_nat 10) (drawn empty_buffer) 10) with
      ([3; 2; 3; 4; 5; 6; 7; 8; 6; 2], true, 6%nat) in Hr. cbn beta iota in Hr.
    destruct Hr as (Hn & Hb & Hr & _). split; [exact Hr|]. split; [exact Hn|].
    unfold byte_at. rewrite !Hb. by split.
Defined.
End RandomWitnesses.
