(* ===== verification/Services.v ===== *)
(** * Services: what the kernel offers its drivers, [kernel/device/services.cpp]

    The services join the console, the ports, the kernel heap and the virtual memory manager, here as the parts of one
    state; [kernel/device/services_abi.cpp] offers them under C names. *)

From S2P Require Import Prelude Containers Boot Page Pmm Radix RadixFacts Paging Mmu Vmm VmmFacts Serial Format Emit FormatFacts PanicFacts.
From S2P Require Import Spinlock Heap HeapFacts.

Section Services.
Context `{layout} `{image} `{heap_code} `{port_device}.

Record services : Type := { service_ports : ports; service_console : console; service_heap : heap }.

Definition set_service_ports x s :=
  {| service_ports := x; service_console := service_console s; service_heap := service_heap s |}.
Definition set_service_console x s :=
  {| service_ports := service_ports s; service_console := x; service_heap := service_heap s |}.
Definition set_service_heap x s :=
  {| service_ports := service_ports s; service_console := service_console s; service_heap := x |}.

Definition log (message : text) : kernel services unit :=
  zoom service_console set_service_console (kprintln_ct (chars "[driver] {}") [VCString 1 message]).

Definition io_write8 (port value : Z) : kernel services unit := zoom service_ports set_service_ports (outb port value).
Definition io_read8 (port : Z) : kernel services Z := zoom service_ports set_service_ports (inb port).

Definition service_alloc (bytes alignment : Z) : kernel services Z :=
  zoom service_heap set_service_heap (heap_alloc bytes alignment).
Definition service_free (ptr : Z) : kernel services unit := zoom service_heap set_service_heap (heap_free ptr).

Definition service_map_mmio (physical_base size : Z) : kernel services Z :=
  r ← zoom service_heap set_service_heap
        (zoom m_vmm (fun v h => set_heap_dl (m_dl h, v) h) (map_mmio physical_base size));
  mret (match r with Ok va => va | Err _ => 0 end).

(** Not implemented: both panic, but for the removal of no handler. *)
Definition register_irq (_vector _handler _context : Z) : kernel services bool :=
  Prelude.kpanic "driver IRQ registration service is not implemented".

Definition unregister_irq (_vector handler _context : Z) : kernel services unit :=
  if handler =? 0 then mret tt else Prelude.kpanic "driver IRQ registration service is not implemented".

(** The C names. *)
Definition doom_os_driver_log := log.
Definition doom_os_driver_io_write8 := io_write8.
Definition doom_os_driver_io_read8 := io_read8.
Definition doom_os_driver_alloc := service_alloc.
Definition doom_os_driver_free := service_free.
Definition doom_os_driver_map_mmio := service_map_mmio.
Definition doom_os_driver_register_irq (vector handler context : Z) : kernel services Z :=
  r ← register_irq vector handler context; mret (if r : bool then 1 else 0).
Definition doom_os_driver_unregister_irq := unregister_irq.
End Services.

(** ** What a driver gets *)
Section ServiceFacts.
Context `{layout_ok} `{image} `{features} {code : heap_code} {code_laws : heap_code_laws} `{port_device}.
Context (root : Z).

(** Device memory.  The answer is null, or an address from which the device's bytes are reached, uncached; in both
    cases the heap's blocks and every area in use are as before. *)
Theorem service_map_mmio_correct s pa n areas own blocks :
  heap_ok root (service_heap s) areas own blocks -> in_width 64 pa -> in_width 64 n ->
  wp (service_map_mmio pa n) (fun r s' =>
    heap_ok root (service_heap s') areas own blocks /\
    service_ports s' = service_ports s /\ service_console s' = service_console s /\
    (r = 0 \/ 0 < r /\ 0 < n /\
      forall i, 0 <= i < n -> seen root (m_vmm (service_heap s')) (r + i) = Some (pa + i, granted MMIO))) s.
Proof.
  intros [Hl [[[b Hb] Ha] Hown Hinv]] Hpa Hn. apply wp_bind, wp_zoom, wp_zoom.
  eapply wp_mono; [by apply (wp_map_mmio root b)|]. intros r v (Hb' & El & Ec & _ & Hr). apply wp_ret.
  assert (Hheap : heap_ok root (set_heap_dl (m_dl (service_heap s), v) (service_heap s)) areas own blocks).
  { split; [exact Hl|]. split; [|exact Hown | exact Hinv]. split; [by exists b|]. intros p k. cbn [snd set_heap_dl m_vmm].
    rewrite El, Ec. apply Ha. }
  split; [exact Hheap|]. split; [done|]. split; [done|]. destruct r as [va|e]; [right | by left].
  destruct Hr as (-> & Hpos & _ & Hseen & _). split; [|done]. assert (0 < MMIO_MAP_BASE) by by vm_compute. unfold in_width in Hpa. lia.
Qed.

(** The characters of a message. *)
Definition message_text (message : text) : list char :=
  match message with Some l => cstring l | None => chars "(null)" end.

Lemma message_field message : value_text default_format_spec (VCString 1 message) = Some (message_text message).
Proof.
  transitivity (text_field default_format_spec (message_text message)); [done|]. unfold text_field. by rewrite pad_unpadded.
Qed.

(** A driver's message is a line of the console, and nothing else happens. *)
Theorem log_correct message s :
  (forall l, message = Some l -> terminated l) ->
  wp (log message) (fun _ s' =>
    passes (service_console s) (service_console s') (chars "[driver] " ++ message_text message ++ [10]) /\
    service_ports s' = service_ports s /\ service_heap s' = service_heap s) s.
Proof.
  intros Hm. apply wp_zoom. rewrite app_assoc.
  assert (Ho : outputs (kprintln_ct (chars "[driver] {}") [VCString 1 message])
    ((chars "[driver] " ++ message_text message) ++ [10])).
  { apply outputs_line.
    - etransitivity; [render_fields; apply message_field|]. by rewrite app_nil_r.
    - apply Forall_cons. split; [|done]. split; [lia|]. destruct message; auto. }
  eapply wp_mono; [apply Ho|]. intros [] c Hc. by split.
Qed.
End ServiceFacts.

(** ** The services at work *)
Section ServiceWitnesses.
#[local] Existing Instance Mmu.example_layout.
#[local] Existing Instance Mmu.example_layout_ok.
#[local] Existing Instance Mmu.example_image.
#[local] Existing Instance Mmu.example_features.
#[local] Existing Instance HeapFacts.page_heap.
#[local] Existing Instance HeapFacts.page_heap_laws.
#[local] Instance silent_ports : port_device := {| port_answer _ _ := 0 |}.

Definition fresh_services (v : vmm) : services :=
  {| service_ports := []; service_console := {| m_sink := 1; calls := [] |}; service_heap := ready_heap v |}.

Lemma service_map_mmio_correct_witness : exists v,
  wp (service_map_mmio 0xfee00000 16) (fun r _ => 0 <= r) (fresh_services v).
Proof.
  destruct example_manager as (v & Hv). exists v.
  eapply wp_mono; [apply (service_map_mmio_correct Mmu.example_root (fresh_services v) 0xfee00000 16 ∅ ∅ ∅);
    [exact (example_heap_ok true v Hv) | by vm_compute | by vm_compute]|].
  intros r s' (_ & _ & _ & [->|[Hr _]]); lia.
Defined.

Lemma log_correct_witness : exists v,
  wp (log (Some (chars "ready" ++ [NUL]))) (fun _ s' =>
    printed (service_console s') = chars "[driver] ready" ++ [10]) (fresh_services v).
Proof.
  destruct example_manager as (v & Hv). exists v.
  eapply wp_mono; [apply (log_correct (Some (chars "ready" ++ [NUL])) (fresh_services v));
    intros l [= <-]; by vm_compute|].
  intros u s' (Hp & _). apply passes_printed in Hp. rewrite Hp. by vm_compute.
Defined.
End ServiceWitnesses.
