(* ===== verification/Structs.v ===== *)
(** * Structs: the structures that the kernel shares with the loader, the firmware, the processor
    and the applications

    A structure is the list of its fields, and its layout is the one the ABI of the target gives it:
    every field at the first multiple of its alignment, or without gaps in a packed structure.  The
    readers of [Multiboot2.v], [Acpi.v] and [Posix.v] use numbers; here they are shown to be the
    offsets of the fields they name, as the [static_assert]s of the source do. *)

From Stdlib Require Import Sorting.Sorted.
From S2P Require Import Prelude Containers Memory Boot Multiboot2 Acpi Posix Descriptors.

#[local] Open Scope Z_scope.

(** ** Types and their layout *)

(** An integer or a pointer is as aligned as it is large. *)
#[warnings="-register-all"]
Inductive ctype : Type :=
| Scalar (bytes : Z)
| Array (element : ctype) (count : Z)
| Struct (is_packed : bool) (fields : list (string * ctype)).

Definition round_up (alignment x : Z) : Z := (x + alignment - 1) / alignment * alignment.

Fixpoint alignof (t : ctype) : Z :=
  match t with
  | Scalar bytes => bytes
  | Array element _ => alignof element
  | Struct true _ => 1
  | Struct false fields => foldr (fun f a => Z.max (alignof (snd f)) a) 1 fields
  end.

(** The end of the last field, the first one being looked for from [at_]. *)
Definition end_of (size alignment : ctype -> Z) (at_ : Z) (fields : list (string * ctype)) : Z :=
  fold_left (fun at_ f => round_up (alignment (snd f)) at_ + size (snd f)) fields at_.

Definition field_alignment (is_packed : bool) (t : ctype) : Z := if is_packed then 1 else alignof t.

Fixpoint sizeof (t : ctype) : Z :=
  match t with
  | Scalar bytes => bytes
  | Array element count => count * sizeof element
  | Struct is_packed fields =>
      round_up (alignof t) (end_of sizeof (field_alignment is_packed) 0 fields)
  end.

(** The fields with their offsets. *)
Fixpoint placed_from (is_packed : bool) (at_ : Z) (fields : list (string * ctype)) : list (string * Z * ctype) :=
  match fields with
  | [] => []
  | (name, t) :: fields =>
      let offset := round_up (field_alignment is_packed t) at_ in
      (name, offset, t) :: placed_from is_packed (offset + sizeof t) fields
  end.

Definition placed (t : ctype) : list (string * Z * ctype) :=
  match t with
  | Struct is_packed fields => placed_from is_packed 0 fields
  | _ => []
  end.

Definition offsetof (t : ctype) (name : string) : option Z :=
  (fun f => f.1.2) <$> find (fun f => String.eqb f.1.1 name) (placed t).

(** ** The structures *)
Definition natural : list (string * ctype) -> ctype := Struct false.
Definition packed : list (string * ctype) -> ctype := Struct true.

Definition char_t : ctype := Scalar 1.
Definition u8_t : ctype := Scalar 1.
Definition u16_t : ctype := Scalar 2.
Definition u32_t : ctype := Scalar 4.
Definition u64_t : ctype := Scalar 8.
Definition int_t : ctype := Scalar 4.
Definition long_t : ctype := Scalar 8.
Definition pointer_t : ctype := Scalar 8.

Local Open Scope string_scope.

(** [kernel/boot/multiboot2/spec.hpp] *)
Definition fixed_header : ctype := natural [("total_size", u32_t); ("reserved", u32_t)].

Definition tag_header : ctype := natural [("type", u32_t); ("size", u32_t)].

Definition string_tag : ctype := natural [("header", tag_header)].

Definition basic_memory_tag : ctype := natural [
  ("header", tag_header); ("lower_memory_kib", u32_t); ("upper_memory_kib", u32_t)].

Definition bios_boot_device_tag : ctype := natural [
  ("header", tag_header); ("bios_device", u32_t); ("partition", u32_t); ("sub_partition", u32_t)].

Definition module_tag : ctype := natural [
  ("header", tag_header); ("mod_start", u32_t); ("mod_end", u32_t)].

Definition elf_sections_tag : ctype := natural [
  ("header", tag_header); ("count", u32_t); ("entry_size", u32_t); ("string_table_index", u32_t)].

Definition memory_map_tag : ctype := natural [
  ("header", tag_header); ("entry_size", u32_t); ("entry_version", u32_t)].

Definition memory_map_entry : ctype := natural [
  ("base_addr", u64_t); ("length", u64_t); ("type", u32_t); ("reserved", u32_t)].

Definition apm_tag : ctype := natural [
  ("header", tag_header); ("version", u16_t); ("code_segment", u16_t); ("offset", u32_t);
  ("code_segment_16", u16_t); ("data_segment", u16_t); ("flags", u16_t);
  ("code_segment_length", u16_t); ("code_segment_16_length", u16_t);
  ("data_segment_length", u16_t)].

Definition vbe_tag : ctype := natural [
  ("header", tag_header); ("mode", u16_t); ("interface_segment", u16_t);
  ("interface_offset", u16_t); ("interface_length", u16_t); ("control_info", Array u8_t 512);
  ("mode_info", Array u8_t 256)].

Definition framebuffer_color : ctype := natural [("red", u8_t); ("green", u8_t); ("blue", u8_t)].

Definition framebuffer_rgb : ctype := natural [
  ("red_position", u8_t); ("red_mask_size", u8_t); ("green_position", u8_t);
  ("green_mask_size", u8_t); ("blue_position", u8_t); ("blue_mask_size", u8_t)].

Definition framebuffer_tag : ctype := natural [
  ("header", tag_header); ("address", u64_t); ("pitch", u32_t); ("width", u32_t);
  ("height", u32_t); ("bits_per_pixel", u8_t); ("type", u8_t); ("reserved", u16_t)].

Definition efi32_pointer_tag : ctype := natural [("header", tag_header); ("pointer", u32_t)].

Definition efi64_pointer_tag : ctype := natural [("header", tag_header); ("pointer", u64_t)].

Definition smbios_tag : ctype := natural [
  ("header", tag_header); ("major", u8_t); ("minor", u8_t); ("reserved", Array u8_t 6)].

Definition acpi_rsdp_v1 : ctype := natural [
  ("signature", Array char_t 8); ("checksum", u8_t); ("oem_id", Array char_t 6);
  ("revision", u8_t); ("rsdt_address", u32_t)].

Definition acpi_tag : ctype := natural [("header", tag_header); ("rsdp", acpi_rsdp_v1)].

Definition network_tag : ctype := natural [("header", tag_header)].

Definition efi_memory_map_tag : ctype := natural [
  ("header", tag_header); ("descriptor_size", u32_t); ("descriptor_version", u32_t)].

Definition load_base_address_tag : ctype := natural [
  ("header", tag_header); ("load_base_address", u32_t)].


(** [kernel/acpi/acpi.hpp] *)
Definition rsdp_descriptor : ctype := packed [
  ("signature", Array char_t 8); ("checksum", u8_t); ("oem_id", Array char_t 6);
  ("revision", u8_t); ("rsdt_address", u32_t); ("length", u32_t); ("xsdt_address", u64_t);
  ("extended_checksum", u8_t); ("reserved", Array u8_t 3)].

Definition sdt_header : ctype := packed [
  ("signature", Array char_t 4); ("length", u32_t); ("revision", u8_t); ("checksum", u8_t);
  ("oem_id", Array char_t 6); ("oem_table_id", Array char_t 8); ("oem_revision", u32_t);
  ("creator_id", u32_t); ("creator_revision", u32_t)].


(** [kernel/acpi/madt.hpp] *)
Definition madt_header : ctype := packed [
  ("header", sdt_header); ("lapic_address", u32_t); ("flags", u32_t)].

Definition madt_entry_header : ctype := packed [("type", u8_t); ("length", u8_t)].

Definition madt_lapic : ctype := packed [
  ("header", madt_entry_header); ("acpi_processor_id", u8_t); ("apic_id", u8_t);
  ("flags", u32_t)].

Definition madt_ioapic : ctype := packed [
  ("header", madt_entry_header); ("ioapic_id", u8_t); ("reserved", u8_t);
  ("ioapic_address", u32_t); ("gsi_base", u32_t)].

Definition madt_iso : ctype := packed [
  ("header", madt_entry_header); ("bus", u8_t); ("source", u8_t); ("gsi", u32_t);
  ("flags", u16_t)].

Definition madt_nmi : ctype := packed [
  ("header", madt_entry_header); ("acpi_processor_id", u8_t); ("flags", u16_t); ("lint", u8_t)].

Definition madt_lapic_address_override : ctype := packed [
  ("header", madt_entry_header); ("reserved", u16_t); ("lapic_address", u64_t)].

Definition madt_x2apic : ctype := packed [
  ("header", madt_entry_header); ("reserved", u16_t); ("x2apic_id", u32_t); ("flags", u32_t);
  ("acpi_processor_id", u32_t)].


(** [posix/abi.hpp] *)
Definition timespec : ctype := natural [("tv_sec", long_t); ("tv_nsec", long_t)].

Definition timeval : ctype := natural [("tv_sec", long_t); ("tv_usec", long_t)].

Definition iovec : ctype := natural [("iov_base", pointer_t); ("iov_len", long_t)].

Definition stat : ctype := natural [
  ("dev", long_t); ("ino", long_t); ("nlink", long_t); ("mode", int_t); ("uid", int_t);
  ("gid", int_t); ("pad0", int_t); ("rdev", long_t); ("size", long_t); ("blksize", long_t);
  ("blocks", long_t); ("atim", timespec); ("mtim", timespec); ("ctim", timespec);
  ("reserved", Array long_t 3)].


(** [arch/x86_64]: the frame of a trap, the task state segment, descriptors and gates *)
Definition trap_frame : ctype := natural [
  ("r15", u64_t); ("r14", u64_t); ("r13", u64_t); ("r12", u64_t); ("r11", u64_t); ("r10", u64_t);
  ("r9", u64_t); ("r8", u64_t); ("rbp", u64_t); ("rdi", u64_t); ("rsi", u64_t); ("rdx", u64_t);
  ("rcx", u64_t); ("rbx", u64_t); ("rax", u64_t); ("vector", u64_t); ("error_code", u64_t);
  ("rip", u64_t); ("cs", u64_t); ("rflags", u64_t); ("rsp", u64_t); ("ss", u64_t)].

Definition segment : ctype := packed [
  ("reserved0", u32_t); ("rsp", Array u64_t 3); ("reserved1", u64_t); ("ist", Array u64_t 7);
  ("reserved2", u64_t); ("reserved3", u16_t); ("io_map_base", u16_t)].

Definition segment_descriptor : ctype := packed [
  ("limit_low", u16_t); ("base_low", u16_t); ("base_mid", u8_t); ("access", u8_t);
  ("limit_high_flags", u8_t); ("base_high", u8_t)].

Definition table_pointer : ctype := packed [("limit", u16_t); ("base", u64_t)].

Definition gate_entry : ctype := packed [
  ("offset_low", u16_t); ("selector", u16_t); ("ist", u8_t); ("type_attributes", u8_t);
  ("offset_mid", u16_t); ("offset_high", u32_t); ("reserved", u32_t)].

Local Close Scope string_scope.

(** ** The tests of the headers: the [static_assert]s, in their order *)
Definition is_at (t : ctype) (name : string) (offset : Z) : bool :=
  bool_decide (offsetof t name = Some offset).

Definition spec_asserts : list bool := [
  sizeof fixed_header =? 8; sizeof tag_header =? 8; sizeof string_tag =? 8; sizeof basic_memory_tag =? 16;
  sizeof bios_boot_device_tag =? 20; sizeof module_tag =? 16; sizeof elf_sections_tag =? 20;
  sizeof memory_map_tag =? 16; sizeof memory_map_entry =? 24; sizeof apm_tag =? 28; sizeof vbe_tag =? 784;
  sizeof framebuffer_color =? 3; sizeof framebuffer_rgb =? 6; sizeof framebuffer_tag =? 32;
  sizeof efi32_pointer_tag =? 12; sizeof efi64_pointer_tag =? 16; sizeof smbios_tag =? 16;
  sizeof acpi_rsdp_v1 =? 20; sizeof acpi_tag =? 28; sizeof network_tag =? 8; sizeof efi_memory_map_tag =? 16;
  sizeof load_base_address_tag =? 12;
  is_at apm_tag "offset" 12; is_at elf_sections_tag "string_table_index" 16; is_at framebuffer_tag "type" 29 ].

Definition abi_asserts : list bool := [
  sizeof stat =? 144; is_at stat "mode" 24; is_at stat "size" 48; is_at stat "atim" 72; sizeof timespec =? 16;
  sizeof iovec =? 16 ].

Definition frame_asserts : list bool := (sizeof trap_frame =? 22 * sizeof u64_t) ::
  imap (fun index field => is_at trap_frame field (Z.of_nat index * sizeof u64_t))
    ["r15"; "r14"; "r13"; "r12"; "r11"; "r10"; "r9"; "r8"; "rbp"; "rdi"; "rsi"; "rdx"; "rcx"; "rbx"; "rax";
     "vector"; "error_code"; "rip"; "cs"; "rflags"; "rsp"; "ss"]%string.

Definition segment_asserts : list bool := [
  sizeof segment =? 104; is_at segment "rsp" 4; is_at segment "ist" 36; is_at segment "io_map_base" 102 ].

Definition descriptor_asserts : list bool := [ sizeof segment_descriptor =? 8; sizeof table_pointer =? 10 ].

Definition gate_asserts : list bool := [ sizeof gate_entry =? 16; sizeof table_pointer =? 10 ].

Example layout_asserts_hold :
  forallb id (spec_asserts ++ abi_asserts ++ frame_asserts ++ segment_asserts ++ descriptor_asserts ++
    gate_asserts) = true.
Proof. vm_compute. reflexivity. Qed.

(** ** The layout is sound *)
Fixpoint well_sized (t : ctype) : bool :=
  match t with
  | Scalar bytes => 0 <? bytes
  | Array element count => well_sized element && (0 <=? count)
  | Struct _ fields => forallb (fun f => well_sized (snd f)) fields
  end.

Lemma round_up_spec a x : 0 < a -> x <= round_up a x < x + a /\ round_up a x mod a = 0.
Proof. intros Ha. unfold round_up. split; [div_lia | apply Z.mod_mul; lia]. Qed.

Lemma alignof_positive t : well_sized t = true -> 0 < alignof t.
Proof.
  induction t as [b|e IH n|[] fields]; cbn; intros Ht; [lia | by apply IH; apply andb_prop in Ht as [? _] | lia |].
  clear Ht. induction fields as [|f fields IH]; cbn; lia.
Qed.

Lemma field_alignment_positive p t : well_sized t = true -> 0 < field_alignment p t.
Proof. intros Ht. unfold field_alignment. destruct p; [lia | by apply alignof_positive]. Qed.

Definition all_sized (fields : list (string * ctype)) : Prop :=
  Forall (fun f => well_sized (snd f) = true /\ 0 <= sizeof (snd f)) fields.

Lemma end_of_after p fields at_ : all_sized fields -> at_ <= end_of sizeof (field_alignment p) at_ fields.
Proof.
  intros Hf. revert at_. induction Hf as [|[name t] fields [Ht Hs] Hf IH]; intros at_; [cbn; lia|].
  cbn. cbn in Hs, Ht. pose proof (round_up_spec _ at_ (field_alignment_positive p t Ht)).
  etrans; [|apply IH]. lia.
Qed.

Lemma sized_fields fields : (forall f, f ∈ fields -> well_sized (snd f) = true -> 0 <= sizeof (snd f)) ->
  forallb (fun f => well_sized (snd f)) fields = true -> all_sized fields.
Proof.
  intros IH Ht. apply Forall_forall. intros f Hf. rewrite forallb_forall in Ht.
  specialize (Ht f ltac:(by apply list_elem_of_In)). split; [done | by apply IH].
Qed.

Lemma sizeof_nonneg : forall t, well_sized t = true -> 0 <= sizeof t.
Proof.
  fix IH 1. intros [b|e n|p fields] Ht.
  - cbn in *. lia.
  - cbn in *. apply andb_prop in Ht as [He Hn]. specialize (IH e He). nia.
  - pose proof (alignof_positive _ Ht) as Ha. cbn [sizeof].
    assert (Hf : all_sized fields).
    { cbn in Ht. clear Ha. induction fields as [|[name t] fields IHf]; [constructor|].
      cbn in Ht. apply andb_prop in Ht as [Ht Hrest]. constructor; [|by apply IHf].
      split; [done | exact (IH t Ht)]. }
    pose proof (end_of_after p fields 0 Hf).
    pose proof (round_up_spec _ (end_of sizeof (field_alignment p) 0 fields) Ha). lia.
Qed.

(** A field lies between [low] and [high], where its alignment allows. *)
Definition field_within (p : bool) (low high : Z) (f : string * Z * ctype) : Prop :=
  low <= f.1.2 /\ f.1.2 + sizeof f.2 <= high /\ f.1.2 mod field_alignment p f.2 = 0.

(** Fields in order, none overlapping the next. *)
Definition apart (f g : string * Z * ctype) : Prop := f.1.2 + sizeof f.2 <= g.1.2.

Lemma placed_within p fields at_ : all_sized fields ->
  Forall (field_within p at_ (end_of sizeof (field_alignment p) at_ fields)) (placed_from p at_ fields) /\
  StronglySorted apart (placed_from p at_ fields).
Proof.
  intros Hf. revert at_. induction Hf as [|[name t] fields [Ht Hs] Hf IH]; intros at_; [split; constructor|].
  cbn in Ht, Hs. cbn [placed_from]. set (offset := round_up (field_alignment p t) at_).
  pose proof (round_up_spec _ at_ (field_alignment_positive p t Ht)) as [Hr Hm]. fold offset in Hr, Hm.
  destruct (IH (offset + sizeof t)) as [Hin Hsort].
  change (end_of sizeof (field_alignment p) at_ ((name, t) :: fields))
    with (end_of sizeof (field_alignment p) (offset + sizeof t) fields).
  pose proof (end_of_after p fields (offset + sizeof t) Hf). split; constructor; try done.
  - split; cbn; [lia|]. by split.
  - eapply Forall_impl; [exact Hin|]. intros g (? & ? & ?). unfold field_within. repeat split; lia || done.
  - eapply Forall_impl; [exact Hin|]. intros g (? & _). unfold apart. cbn. lia.
Qed.

(** The layout of a structure: its fields follow each other without overlapping, each inside the
    structure and, unless it is packed, aligned; an array of the structure keeps them aligned. *)
Theorem layout_sound p fields :
  well_sized (Struct p fields) = true ->
  Forall (field_within p 0 (sizeof (Struct p fields))) (placed (Struct p fields)) /\
  StronglySorted apart (placed (Struct p fields)) /\
  sizeof (Struct p fields) mod alignof (Struct p fields) = 0.
Proof.
  intros Ht. assert (Hf : all_sized fields) by (apply sized_fields; [intros; by apply sizeof_nonneg | done]).
  destruct (placed_within p fields 0 Hf) as [Hin Hsort].
  pose proof (round_up_spec _ (end_of sizeof (field_alignment p) 0 fields) (alignof_positive _ Ht)) as [Hr Hm].
  split; [|by split]. eapply Forall_impl; [exact Hin|].
  intros g (? & ? & ?). cbn [sizeof]. unfold field_within. repeat split; lia || done.
Qed.

(** ** The readers *)

(** The width and the offset of a field. *)
Definition member (t : ctype) (name : string) : option (nat * Z) :=
  (fun f => (Z.to_nat (sizeof f.2), f.1.2)) <$> find (fun f => String.eqb f.1.1 name) (placed t).

Definition read_member {S} (m : memory) (t : ctype) (name : string) (a : Z) : kernel S Z :=
  match member t name with
  | Some (width, offset) => fetch m width (a + offset)
  | None => undefined
  end.

Lemma read_member_at {S} m t name width offset a :
  member t name = Some (width, offset) -> read_member (S := S) m t name a = fetch m width (a + offset).
Proof. intros Hm. unfold read_member. by rewrite Hm. Qed.

(** Replace the fields by what they are, and compare. *)
Ltac read_members :=
  repeat match goal with
  | |- context [read_member ?m ?t ?name ?a] =>
      let r := eval vm_compute in (member t name) in
      lazymatch r with
      | Some (?width, ?offset) => rewrite (read_member_at m t name width offset a eq_refl)
      end
  end; rewrite ?Z.add_0_r; reflexivity.

(** Every reader of a structure of the loader reads the field it is named after. *)
Theorem multiboot2_readers {S} (m : memory) (a : Z) :
  Multiboot2.total_size m a = read_member (S := S) m fixed_header "total_size" a /\
  Multiboot2.tag_kind m a = read_member (S := S) m tag_header "type" a /\
  Multiboot2.tag_size m a = read_member (S := S) m tag_header "size" a /\
  Multiboot2.mod_start m a = read_member (S := S) m module_tag "mod_start" a /\
  Multiboot2.mod_end m a = read_member (S := S) m module_tag "mod_end" a /\
  Multiboot2.entry_size m a = read_member (S := S) m memory_map_tag "entry_size" a /\
  Multiboot2.base_addr m a = read_member (S := S) m memory_map_entry "base_addr" a /\
  Multiboot2.entry_length m a = read_member (S := S) m memory_map_entry "length" a /\
  Multiboot2.entry_type m a = read_member (S := S) m memory_map_entry "type" a /\
  Multiboot2.color_red m a = read_member (S := S) m framebuffer_color "red" a /\
  Multiboot2.color_green m a = read_member (S := S) m framebuffer_color "green" a /\
  Multiboot2.color_blue m a = read_member (S := S) m framebuffer_color "blue" a /\
  Multiboot2.red_position m a = read_member (S := S) m framebuffer_rgb "red_position" a /\
  Multiboot2.red_mask_size m a = read_member (S := S) m framebuffer_rgb "red_mask_size" a /\
  Multiboot2.green_position m a = read_member (S := S) m framebuffer_rgb "green_position" a /\
  Multiboot2.green_mask_size m a = read_member (S := S) m framebuffer_rgb "green_mask_size" a /\
  Multiboot2.blue_position m a = read_member (S := S) m framebuffer_rgb "blue_position" a /\
  Multiboot2.blue_mask_size m a = read_member (S := S) m framebuffer_rgb "blue_mask_size" a /\
  Multiboot2.framebuffer_address m a = read_member (S := S) m framebuffer_tag "address" a /\
  Multiboot2.framebuffer_pitch m a = read_member (S := S) m framebuffer_tag "pitch" a /\
  Multiboot2.framebuffer_width m a = read_member (S := S) m framebuffer_tag "width" a /\
  Multiboot2.framebuffer_height m a = read_member (S := S) m framebuffer_tag "height" a /\
  Multiboot2.framebuffer_bits_per_pixel m a = read_member (S := S) m framebuffer_tag "bits_per_pixel" a /\
  Multiboot2.framebuffer_tag_type m a = read_member (S := S) m framebuffer_tag "type" a /\
  offsetof acpi_tag "rsdp" = Some (rsdp_of 0).
Proof. repeat apply conj; [read_members..|]. vm_compute. reflexivity. Qed.

(** Every reader of a table of the firmware reads the fields it is named after. *)
Theorem acpi_readers (m : memory) (a : Z) :
  (forall S, sdt_length m a = read_member (S := S) m sdt_header "length" a) /\
  rsdp_revision m a = read_member m rsdp_descriptor "revision" a /\
  rsdt_address m a = read_member m rsdp_descriptor "rsdt_address" a /\
  rsdp_length m a = read_member m rsdp_descriptor "length" a /\
  xsdt_address m a = read_member m rsdp_descriptor "xsdt_address" a /\
  entry_kind m a = read_member m madt_entry_header "type" a /\
  Acpi.entry_length m a = read_member m madt_entry_header "length" a /\
  parse_lapic m a = (
    id ← read_member m madt_lapic "apic_id" a;
    uid ← read_member m madt_lapic "acpi_processor_id" a;
    flags ← read_member m madt_lapic "flags" a;
    zoom cpus set_cpus (add_counted
      {| apic_id := id; acpi_id := uid; enabled := flag flags 1; online_capable := flag flags 2 |})) /\
  parse_ioapic m a = (
    id ← read_member m madt_ioapic "ioapic_id" a;
    address ← read_member m madt_ioapic "ioapic_address" a;
    base ← read_member m madt_ioapic "gsi_base" a;
    zoom ioapics set_ioapics (add_counted
      {| ioapic_id := id; ioapic_address := address; gsi_base := base |})) /\
  parse_iso m a = (
    b ← read_member m madt_iso "bus" a;
    source ← read_member m madt_iso "source" a;
    gsi ← read_member m madt_iso "gsi" a;
    flags ← read_member m madt_iso "flags" a;
    zoom isos set_isos (add_counted
      {| iso_bus := b; iso_source := source; iso_gsi := gsi; iso_flags := flags |})) /\
  parse_x2apic m a = (
    id ← read_member m madt_x2apic "x2apic_id" a;
    uid ← read_member m madt_x2apic "acpi_processor_id" a;
    flags ← read_member m madt_x2apic "flags" a;
    zoom cpus set_cpus (add_counted
      {| apic_id := id; acpi_id := uid; enabled := flag flags 1; online_capable := flag flags 2 |})).
Proof. repeat apply conj; [intros S|..]; read_members. Qed.

(** The sizes that bound the parsing are those of the structures. *)
Theorem structure_sizes :
  [sizeof fixed_header; sizeof tag_header; sizeof string_tag; sizeof module_tag; sizeof memory_map_tag;
   sizeof memory_map_entry; sizeof framebuffer_color; sizeof framebuffer_rgb; sizeof framebuffer_tag;
   sizeof acpi_tag] =
  [sizeof_fixed_header; sizeof_tag_header; sizeof_string_tag; sizeof_module_tag; sizeof_memory_map_tag;
   sizeof_memory_map_entry; sizeof_framebuffer_color; sizeof_framebuffer_rgb; sizeof_framebuffer_tag;
   sizeof_acpi_tag] /\
  [sizeof sdt_header; sizeof madt_header; sizeof madt_entry_header; sizeof madt_lapic; sizeof madt_ioapic;
   sizeof madt_iso; sizeof madt_lapic_address_override; sizeof madt_x2apic] =
  [sizeof_sdt_header; sizeof_madt_header; sizeof_madt_entry_header; sizeof_madt_lapic; sizeof_madt_ioapic;
   sizeof_madt_iso; sizeof_madt_lapic_address_override; sizeof_madt_x2apic] /\
  sizeof segment = SIZEOF_SEGMENT.
Proof. by vm_compute. Qed.

(** The fields that the calls of the applications read and write. *)
Theorem posix_members a i x width offset :
  (member iovec "iov_base" = Some (width, offset) ->
    iov_base a i = Posix.on_memory (load_word width (a + sizeof iovec * i + offset))) /\
  (member iovec "iov_len" = Some (width, offset) ->
    iov_len a i = Posix.on_memory (load_word width (a + sizeof iovec * i + offset))) /\
  (member stat "mode" = Some (width, offset) ->
    stat_mode a x = Posix.on_memory (store_word width (a + offset) x)) /\
  (member stat "size" = Some (width, offset) ->
    stat_size a x = Posix.on_memory (store_word width (a + offset) x)).
Proof.
  repeat apply conj; intros Hm; vm_compute in Hm; injection Hm as <- <-;
    change (sizeof iovec) with 16; rewrite ?Z.add_0_r; reflexivity.
Qed.

(** ** The data behind the tags that no part of the kernel reads *)
Section Payloads.
Context (m : memory) {S : Type}.

Definition elf_sections (tag : Z) : kernel S span := payload m (sizeof elf_sections_tag) tag.
Definition smbios_tables (tag : Z) : kernel S span := payload m (sizeof smbios_tag) tag.
Definition dhcp_ack (tag : Z) : kernel S span := payload m (sizeof network_tag) tag.
Definition efi_descriptors (tag : Z) : kernel S span := payload m (sizeof efi_memory_map_tag) tag.

(** Such a view lies in its tag, behind the fields. *)
Definition inside_tag (header tag size : Z) (bytes : span) : Prop :=
  bytes = {| span_data := None; span_size := 0 |} \/
  span_data bytes = Some (tag + header) /\ 0 < span_size bytes /\ header + span_size bytes = size.

Lemma wp_payload_inside header tag (Q : span -> S -> Prop) s :
  0 <= header -> (exists n, word m 4 (tag + 4) = Some n /\ 0 <= n < 2 ^ 32 /\
    forall bytes, inside_tag header tag n bytes -> Q bytes s) ->
  wp (payload m header tag) Q s.
Proof.
  intros Hh (n & Hn & Hr & HQ). unfold payload, tag_size, read_u32, fetch. rewrite Hn.
  apply wp_bind, wp_ret. destruct (Z.leb_spec n header); apply wp_ret, HQ; [by left|]. right. cbn.
  unfold u64. rewrite wrap_small by (unfold in_width; lia). split; [done | lia].
Qed.

Theorem payloads_inside tag n s :
  word m 4 (tag + 4) = Some n -> 0 <= n < 2 ^ 32 ->
  wp (elf_sections tag) (fun bytes s' => s' = s /\ inside_tag 20 tag n bytes) s /\
  wp (smbios_tables tag) (fun bytes s' => s' = s /\ inside_tag 16 tag n bytes) s /\
  wp (dhcp_ack tag) (fun bytes s' => s' = s /\ inside_tag 8 tag n bytes) s /\
  wp (efi_descriptors tag) (fun bytes s' => s' = s /\ inside_tag 16 tag n bytes) s.
Proof.
  intros Hn Hr. repeat apply conj; (apply wp_payload_inside; [by vm_compute|]; exists n; done).
Qed.
End Payloads.
